(* ===== verification/_CoqProject ===== *)
-Q . S2P
Prelude.v
Errno.v
Sys.v
LlDirent.v
FuseBuf.v
PrioQueue.v
WriteQueue.v
Dispatcher.v
Napi.v
Bridge.v
BridgeOps.v
BridgeProps.v
BridgeFacts.v
Registry.v
Timespec.v
Shutdown.v
LlMount.v
FuseOpt.v
SessionManager.v
BufCopy.v
CopyRange.v
Lowlevel.v
LlOps.v
LlInit.v
LlSession.v
LlFacts.v
LlDispatch.v
LlProps.v
FuseCmdline.v
XattrBridge.v
BufferBridge.v
InitBridge.v
WriteQueueJs.v
DispatcherJs.v
LoopMt.v
HlLocks.v
HlTable.v
HlNodes.v
HlTree.v
HlNames.v
HlSpace.v
HlPaths.v
HlPathFacts.v
HlPathLocks.v
HlPathCalls.v
HlPathSystem.v
HlRequests.v
HlTidy.v
HlTraces.v
HlSubdir.v
HlPages.v
HlSections.v
HlQueue.v
HlServe.v
