(* ===== verification/Prelude.v ===== *)
(** * The fuse-native binding and its libfuse

    fuse-native lets a JavaScript program serve a FUSE file system.  It is a Node-API
    addon (src/src, C++) on top of the low-level API of a libfuse whose sources are in
    src/fuse-docs.  This library models both as pure functions, monadic programs and
    step relations, and proves what their callers rely on.

    ** How the parts interact

    JavaScript registers a handler per operation: [Registry] keeps the bridge's table and
    the dispatcher's in step.  It creates a session and mounts it ([SessionManager]): the
    session's options become arguments that libfuse parses ([FuseOpt], [FuseCmdline]),
    libfuse's session is created, mounted and given signal handlers ([LlMount]), and a
    thread runs the request loop.  A message read from the device is decoded ([LlSession],
    [LlOps], [LlInit]) and becomes one call of a handler of the bridge ([BridgeOps]).  The
    handler makes a request context and dispatches ([Dispatcher]): the request waits in a
    priority queue ([PrioQueue]), a worker posts it to the JavaScript thread, there the
    JavaScript handler runs, and its result or the settlement of its promise is converted
    ([Napi], [Bridge]) to one [fuse_reply_*] call ([Lowlevel], [LlDirent]), which writes
    one message to the device.  Buffered writes may go through the write queues
    ([WriteQueue], [WriteQueueJs]).  At the end the shutdown manager ([Shutdown]) runs
    its phases.  The remaining files model services that JavaScript calls directly:
    copying between descriptors, attributes, memory, timestamps.

    ** Files

    Shared.  [Prelude]: machine integers, lists, the state-and-error monad [res], the class
    [Locks] of states with non-recursive mutexes (locking a held one is [Hangs]).  [Sys]:
    structures of the system and of libfuse's interface; finite doubles are [m * 2^e].
    [PrioQueue]: what is relied on of [std::priority_queue], as a class with laws and an
    instance.

    The binding (src/src).
    - [Errno]: errno_mapping.cc.  [Timespec]: timespec_codec.cc.
    - [Napi]: napi_bigint.cc and napi_helpers.cc; a JavaScript value is the inductive [value],
      Node's own numeric conversions are the class [NapiConv].
    - [Bridge]: fuse_bridge.cc, the request context with its guard [TryMarkReplied], the
      replies, the reading of results and errors, [ProcessRequest].  [BridgeOps]: one
      definition per [Handle*] method.  [BridgeProps], [BridgeFacts]: theorems on them.
      [Registry]: [SetOperationHandler], [RemoveOperationHandler].
    - [Dispatcher], [DispatcherJs]: tsfn_dispatcher.cc, the machine and its exported
      functions; [WriteQueue], [WriteQueueJs]: write_queue.cc likewise.
    - [SessionManager]: session_manager.cc.  [Shutdown]: shutdown.cc.
    - [CopyRange]: copy_file_range.cc.  [XattrBridge]: xattr_bridge.cc.  [BufferBridge]:
      buffer_bridge.cc.  [InitBridge]: init_bridge.cc.

    libfuse (src/fuse-docs/lib).
    - [Lowlevel], [LlOps], [LlInit], [LlSession], [LlMount], [LlDirent]: fuse_lowlevel.c, that is
      the life of requests and the replies; the decoding of each opcode; the INIT
      negotiation; interrupts, notifications and the table of handlers; sessions and
      the device; the encoding of attributes and directories.  [LlMount] also has
      fuse_signals.c.  [LlFacts], [LlDispatch], [LlProps]: theorems on them.
    - [FuseBuf], [BufCopy]: buffer.c.  [FuseOpt]: fuse_opt.c.  [FuseCmdline]: helper.c and
      mount.c.  [LoopMt]: fuse_loop.c and fuse_loop_mt.c.
    - The high-level library, fuse.c.  [HlLocks]: record locks.  [HlTable]: the linear hash
      tables of nodes.  [HlNodes]: nodes, names and the operations on them, whose
      well-formedness is in [HlTree], what they do to names in [HlNames], and their
      refinement of a name space in [HlSpace].  [HlPaths]: paths, the locks on the nodes of
      a path ([treelock]) and the queue of who waits for one; [HlPathFacts],
      [HlPathLocks], [HlPathCalls] and [HlPathSystem] show that the locks are made up of the
      paths in use whatever calls come.  [HlRequests]: one definition per [fuse_lib_*]
      handler and per [fuse_fs_*] call, each a program of actions ([io]): get and free a
      path, change a node, call the file system, answer.  [HlTidy], [HlTraces]: what each
      of these programs keeps to.  [HlSections]: the other parts that run under the
      library's lock.  [HlQueue], [HlServe]: many requests at once, one program per thread.
      [HlPages]: reading a directory page by page.
    - [HlSubdir]: modules/subdir.c, a stacked file system, as programs of the same actions.

    ** How state and effects are modelled

    A C++ object or a libfuse structure is a record whose fields have the source's
    names; where objects are shared they live in a heap (a [gmap] from addresses) and a use
    of a freed one is [Throws].  A function that changes state is a program of [res], or a
    function on the record; what it asks of the system is either a class of
    operations with laws ([FileIO], [KernelCopy], [XattrCalls]) or a trace of calls with
    the answers a function of the trace so far.  Threads are step relations whose
    steps are the critical sections.  Integers are [Z]; a conversion to a C type is written
    out ([u32], [s32], [u64], ...), and a signed overflow is an error where it can happen.
    JavaScript exceptions are a value of the result; the addon is built with C++
    exceptions, libfuse without splice and without io_uring.

    ** What the kernel is trusted with

    [HlServe] has the kernel as its environment.  Any request may come at any time, and
    operations of the file system answer anything, but the kernel keeps to [rules]: it
    names nodes it looked up and did not forget (directories where it should), forgets
    no more than it looked up, uses handles it was given until it releases them, does
    not move a directory below itself, and keeps names and depth to what a path holds.
    [usual] requests do not look up `.' and `..', which only NFS does (fuse_lib_lookup has a
    fault there: see the findings), and copy their buffers from the start.

    ** What the theorems show

    - One reply.  Every request is answered exactly once whatever JavaScript does
      ([BridgeProps]); the dispatcher and the write queues neither lose nor repeat what they
      accepted and their counters are right ([Dispatcher], [WriteQueue]); a message
      of the device leads to one answer or one call ([LlDispatch]); no interleaving of
      answers and interrupts touches a freed request ([LlFacts]).
    - Right bytes.  Listings read back, buffered writes and copies are linear, extended
      attributes follow the size protocol ([BridgeFacts], [BufCopy], [CopyRange]); payloads
      stay in their request, replies are framed ([LlProps]); INIT answers only what
      was offered, in consistent limits ([LlInit]); options reach libfuse's three parsers
      ([FuseCmdline], [FuseOpt]).
    - Lifecycles.  Sessions and managers under any sequence of calls ([SessionManager]),
      signal handlers ([LlMount]), worker threads ([LoopMt]), shutdown ([Shutdown]), native
      memory ([BufferBridge]), the init callback ([InitBridge]).
    - Names and paths.  Operations on nodes refine an abstract name space and free what
      is not needed any more ([HlSpace]); the tables are sets ([HlTable]); record locks
      exclude each other byte by byte ([HlLocks]).  Every request answers once and gives back
      its paths ([HlTraces]).  However requests interleave none faults, operations get true
      paths, and requests other than copy_file_range do not deadlock ([HlServe]).  A directory
      is listed completely ([HlPages]); relative links lead where they should ([HlSubdir]).
    - What the code does not do.  Some theorems state that an intended behaviour is absent:
      graceful shutdown and a second mount do not work, processWriteQueues fails every
      write, getxattr gives no data, and two threads may wait for each other for ever once one of
      them serves copy_file_range ([HlServe]).

    ** Fuel and bounds

    A loop that is not structural takes fuel, always enough where the code calls it: the
    copying loops of [BufCopy] and [CopyRange] get the number of bytes left, since each round
    moves at least one (the theorems show they end with the result); [copy_rounds] gets
    the number of buffers left; [pread_all] the requested size; the queue loops the length
    of the queue; the wait of a shutdown phase is bounded by its timeout because every
    round sleeps.  [EINTR] rounds, and messages a session loop receives, are lists
    that the environment supplies; the theorems quantify over them.  The worker pool has no
    fuel: its termination is strong normalisation of the step relation.  In the
    high-level library: nodes are unhashed, paths climbed and unlocked, ids and hidden
    names tried in at most as many rounds as there are nodes (and a few more for ids
    that are never given out); a buffer for a path doubles at most 40 times, an [unsigned]
    having 32 bits; cutting common prefixes takes the length of the strings, reading a
    directory one page per entry and one more.

    ** Not modelled

    Output (logging.cc, fuse_log.c), the export table (main.cc), TypeScript, examples and
    tests.  Of the addon: moving averages of latencies (doubles), JavaScript dates, clocks
    and sleeping, the exported wrappers of shutdown.cc and the self-tests of napi_helpers.cc.
    Of libfuse: splice and io_uring (fuse_uring.c), character devices (cuse_lowlevel.c),
    mount(2) and the privileged helper (fusermount.c, mount_util.c, mount_bsd.c),
    daemonising and the ready-made main loops of helper.c.  Of the high-level library: interrupt
    signals (conf.intr), the thread that drops remembered nodes (fuse_clean_cache), slabs, the
    context key, init and destroy, fuse_new beyond the tables of nodes, spurious
    wake-ups, debugging output, iconv.c and the module loader. *)
From stdpp Require Export base tactics numbers list gmap strings.
From Stdlib Require Export ZArith Lia.

#[global] Open Scope Z_scope.

Declare Scope prog_scope.
Delimit Scope prog_scope with prog.

(** ** Machine integers

    A [w]-bit unsigned value is a [Z] reduced modulo [2^w]; a signed one is the
    representative in [-2^(w-1), 2^(w-1)).  [u32], [u64], [s32] and [s64] are the
    conversions C performs when a value is stored in the type. *)

Definition wrapu (w z : Z) : Z := z `mod` 2 ^ w.
Definition wraps (w z : Z) : Z := (z + 2 ^ (w - 1)) `mod` 2 ^ w - 2 ^ (w - 1).

Abbreviation u8 := (wrapu 8).
Abbreviation u16 := (wrapu 16).
Abbreviation u32 := (wrapu 32).
Abbreviation u64 := (wrapu 64).
Abbreviation s32 := (wraps 32).
Abbreviation s64 := (wraps 64).

Definition in_u (w z : Z) : Prop := 0 <= z < 2 ^ w.
Definition in_s (w z : Z) : Prop := - 2 ^ (w - 1) <= z < 2 ^ (w - 1).

#[export] Instance in_u_dec w z : Decision (in_u w z).
Proof. unfold in_u. apply _. Defined.
#[export] Instance in_s_dec w z : Decision (in_s w z).
Proof. unfold in_s. apply _. Defined.

Abbreviation UINT64_MAX := 18446744073709551615 (only parsing).
Abbreviation INT64_MAX := 9223372036854775807 (only parsing).

Create HintDb machine.
Create Rewrite HintDb machine.
Create Rewrite HintDb lists.

Lemma wrapu_range w z : 0 <= w -> in_u w (wrapu w z).
Proof. intros Hw. apply Z.mod_pos_bound. lia. Qed.

Lemma wrapu_small w z : in_u w z -> wrapu w z = z.
Proof. apply Z.mod_small. Qed.

Lemma pow2_split w : 0 < w -> 2 ^ w = 2 * 2 ^ (w - 1).
Proof. intros. rewrite <- Z.pow_succ_r by lia. f_equal. lia. Qed.

Lemma wraps_range w z : 0 < w -> in_s w (wraps w z).
Proof.
  intros Hw. unfold in_s, wraps.
  pose proof (Z.mod_pos_bound (z + 2 ^ (w - 1)) (2 ^ w)).
  pose proof (pow2_split w Hw). lia.
Qed.

Lemma wraps_small w z : 0 < w -> in_s w z -> wraps w z = z.
Proof.
  unfold in_s, wraps. intros Hw Hz. pose proof (pow2_split w Hw).
  rewrite Z.mod_small by lia. lia.
Qed.

Lemma wrapu_idem w z : wrapu w (wrapu w z) = wrapu w z.
Proof. apply Zmod_mod. Qed.

(** Two values that wrap to the same one. *)
Definition eq_mod (w a b : Z) : Prop := exists k, a = b + k * 2 ^ w.
Lemma wrapu_eq_mod w z : 0 <= w -> eq_mod w (wrapu w z) z.
Proof.
  intros Hw. exists (- (z / 2 ^ w)). unfold wrapu. pose proof (Z.div_mod z (2 ^ w)). lia.
Qed.
Lemma eq_mod_wrapu w a b : eq_mod w a b -> wrapu w a = wrapu w b.
Proof. intros [k ->]. unfold wrapu. by rewrite Z_mod_plus_full. Qed.

Lemma wraps_wrapu w z : 0 <= w -> wraps w (wrapu w z) = wraps w z.
Proof.
  intros Hw. unfold wraps, wrapu. by rewrite Zplus_mod_idemp_l.
Qed.

Lemma wrapu_wraps w z : 0 < w -> wrapu w (wraps w z) = wrapu w z.
Proof.
  intros Hw. unfold wraps, wrapu.
  rewrite Zminus_mod_idemp_l. f_equal. lia.
Qed.

Lemma wrapu_add w a b : wrapu w (wrapu w a + wrapu w b) = wrapu w (a + b).
Proof. unfold wrapu. by rewrite <- Zplus_mod. Qed.

Lemma wrapu_add_l w a b : wrapu w (wrapu w a + b) = wrapu w (a + b).
Proof. unfold wrapu. by rewrite Zplus_mod_idemp_l. Qed.
Lemma wrapu_add_r w a b : wrapu w (a + wrapu w b) = wrapu w (a + b).
Proof. unfold wrapu. by rewrite Zplus_mod_idemp_r. Qed.

#[export] Hint Resolve wrapu_range wraps_range : machine.
#[export] Hint Rewrite wrapu_idem wrapu_add : machine.

(** The flag test [(x & m) != 0] and the plain bit of position [i]. *)
Definition has_flag (x m : Z) : bool := negb (Z.land x m =? 0).

Lemma has_flag_pow2 x i : 0 <= i -> has_flag x (2 ^ i) = Z.testbit x i.
Proof.
  intros Hi. unfold has_flag.
  destruct (Z.testbit x i) eqn:Hb.
  - apply negb_true_iff, Z.eqb_neq. intros H0.
    assert (Z.testbit (Z.land x (2 ^ i)) i = false) as Hc by (rewrite H0; apply Z.bits_0).
    rewrite Z.land_spec, Hb, Z.pow2_bits_true in Hc by lia. done.
  - apply negb_false_iff, Z.eqb_eq, Z.bits_inj'. intros n Hn.
    rewrite Z.land_spec, Z.bits_0.
    destruct (decide (n = i)) as [->|].
    + by rewrite Hb.
    + rewrite Z.pow2_bits_false by lia. apply andb_false_r.
Qed.

Lemma has_flag_lor x a b : has_flag x (Z.lor a b) = has_flag x a || has_flag x b.
Proof.
  unfold has_flag. rewrite Z.land_lor_distr_r, <- negb_andb. f_equal.
  apply eq_true_iff_eq. rewrite andb_true_iff, !Z.eqb_eq. apply Z.lor_eq_0_iff.
Qed.

Lemma has_flag_0_l m : has_flag 0 m = false.
Proof. done. Qed.

#[export] Hint Rewrite has_flag_lor has_flag_0_l : machine.

(** ** Programs over a shared state

    [prog S A] is a computation of one thread: it ends with a value, throws an
    exception that no [catch] handles, or hangs because the thread locks a
    non-recursive [std::mutex] that it already owns.  [Stuck] names the mutex. *)

Inductive outcome (S A : Type) : Type :=
  | Done (a : A) (s : S)
  | Throws (s : S)
  | Stuck (mutex : string) (s : S).
Arguments Done {S A} a s.
Arguments Throws {S A} s.
Arguments Stuck {S A} mutex s.

Definition prog (S A : Type) : Type := S -> outcome S A.

#[export] Instance prog_ret S : MRet (prog S) := fun A a s => Done a s.
#[export] Instance prog_bind S : MBind (prog S) := fun A B f m s =>
  match m s with
  | Done a s' => f a s'
  | Throws s' => Throws s'
  | Stuck mu s' => Stuck mu s'
  end.

Definition pget {S} : prog S S := fun s => Done s s.
Definition pmodify {S} (f : S -> S) : prog S unit := fun s => Done tt (f s).
Definition pthrow {S A} : prog S A := fun s => Throws s.
Definition pstuck {S A} (what : string) : prog S A := fun s => Stuck what s.
(** [try { m } catch (...) { h }] *)
Definition pcatch {S A} (m h : prog S A) : prog S A := fun s =>
  match m s with Throws s' => h s' | o => o end.

(** [triple P m Q R]: from a state of [P], [m] does not hang, its value and final
    state satisfy [Q], and an exception leaves a state of [R]. *)
Definition triple {St A} (P : St -> Prop) (m : prog St A) (Q : A -> St -> Prop) (R : St -> Prop)
    : Prop :=
  forall s, P s -> match m s with Done a s' => Q a s' | Throws s' => R s' | Stuck _ _ => False end.

Create HintDb prog.

Lemma triple_ret {St A} (P : St -> Prop) (a : A) (Q : A -> St -> Prop) R :
  (forall s, P s -> Q a s) -> triple P (mret a) Q R.
Proof. intros HQ s Hs. by apply HQ. Qed.

Lemma triple_bind {St A B} (P : St -> Prop) (m : prog St A) (k : A -> prog St B) M Q R :
  triple P m M R -> (forall a, triple (M a) (k a) Q R) -> triple P (m ≫= k) Q R.
Proof.
  intros Hm Hk s Hs. specialize (Hm s Hs). unfold mbind, prog_bind.
  destruct (m s); [by apply Hk|done..].
Qed.

Lemma triple_bind_ret {St A B} (P : St -> Prop) (a : A) (k : A -> prog St B) Q R :
  triple P (k a) Q R -> triple P (mret a ≫= k) Q R.
Proof. done. Qed.

Lemma triple_catch {St A} (P : St -> Prop) (m h : prog St A) M Q R :
  triple P m Q M -> triple M h Q R -> triple P (pcatch m h) Q R.
Proof.
  intros Hm Hh s Hs. specialize (Hm s Hs). unfold pcatch.
  destruct (m s); [done|by apply Hh|done].
Qed.

Lemma triple_throw {St A} (P : St -> Prop) (Q : A -> St -> Prop) (R : St -> Prop) :
  (forall s, P s -> R s) -> triple P pthrow Q R.
Proof. intros HR s Hs. by apply HR. Qed.

Lemma triple_mono {St A} (P P' : St -> Prop) (m : prog St A) (Q Q' : A -> St -> Prop) (R R' : St -> Prop) :
  triple P m Q R -> (forall s, P' s -> P s) -> (forall a s, Q a s -> Q' a s) ->
  (forall s, R s -> R' s) -> triple P' m Q' R'.
Proof.
  intros Hm HP HQ HR s Hs. specialize (Hm s (HP s Hs)). destruct (m s); eauto.
Qed.

Lemma triple_modify {St} (P : St -> Prop) (f : St -> St) (Q : unit -> St -> Prop) R :
  (forall s, P s -> Q tt (f s)) -> triple P (pmodify f) Q R.
Proof. intros HQ s Hs. by apply HQ. Qed.

Lemma triple_exists {St A X} (P : X -> St -> Prop) (m : prog St A) (Q : A -> St -> Prop) R :
  (forall x, triple (P x) m Q R) -> triple (fun s => exists x, P x s) m Q R.
Proof. intros Hm s [x Hx]. exact (Hm x s Hx). Qed.
Lemma triple_pure {St A} (X : Prop) (P : St -> Prop) (m : prog St A) (Q : A -> St -> Prop) R :
  (X -> triple P m Q R) -> triple (fun s => X /\ P s) m Q R.
Proof. intros Hm s [HX Hs]. exact (Hm HX s Hs). Qed.
(** The state a program reads, as it is at that point. *)
Lemma triple_get {St A} (P : St -> Prop) (k : St -> prog St A) Q R :
  (forall s0, P s0 -> triple (fun s => s = s0) (k s0) Q R) -> triple P (pget ≫= k) Q R.
Proof. intros Hk s Hs. exact (Hk s Hs s eq_refl). Qed.

(** Runs the first command of a program. *)
Lemma bind_done {St A B} (m : prog St A) (k : A -> prog St B) s a s' :
  m s = Done a s' -> (m ≫= k) s = k a s'.
Proof. intros Hm. unfold mbind, prog_bind. by rewrite Hm. Qed.
Ltac step tac := erewrite bind_done; [|solve [tac]]; cbv beta iota.

(** The mutexes the running thread owns. *)
Class Locks (S : Type) := {
  held : S -> gset string;
  set_held : gset string -> S -> S;
  held_set_held : forall h s, held (set_held h s) = h;
  set_held_set_held : forall h h' s, set_held h (set_held h' s) = set_held h s;
  set_held_held : forall s, set_held (held s) s = s;
}.

(** [std::lock_guard lock(m); body]: locking a mutex the thread owns never
    returns; the guard is released on return and on an exception. *)
Definition with_lock `{Locks St} {A} (m : string) (body : prog St A) : prog St A := fun s =>
  if decide (m ∈ held s) then Stuck m s
  else match body (set_held ({[m]} ∪ held s) s) with
       | Done a s' => Done a (set_held (held s' ∖ {[m]}) s')
       | Throws s' => Throws (set_held (held s' ∖ {[m]}) s')
       | Stuck mu s' => Stuck mu s'
       end.

Lemma with_lock_owned `{Locks St} {A} m (body : prog St A) s :
  m ∈ held s -> with_lock m body s = Stuck m s.
Proof. intros Hm. unfold with_lock. by rewrite decide_True. Qed.

Lemma with_lock_free `{Locks St} {A} m (body : prog St A) s :
  m ∉ held s ->
  with_lock m body s =
    match body (set_held ({[m]} ∪ held s) s) with
    | Done a s' => Done a (set_held (held s' ∖ {[m]}) s')
    | Throws s' => Throws (set_held (held s' ∖ {[m]}) s')
    | Stuck mu s' => Stuck mu s'
    end.
Proof. intros Hm. unfold with_lock. by rewrite decide_False. Qed.

Lemma with_lock_done `{Locks St} {A} m (body : prog St A) s a s' :
  m ∉ held s -> body (set_held ({[m]} ∪ held s) s) = Done a s' -> held s' = {[m]} ∪ held s ->
  with_lock m body s = Done a (set_held (held s) s').
Proof.
  intros Hm Hb Hh. rewrite with_lock_free, Hb, Hh by done. do 2 f_equal. set_solver.
Qed.
(** A lock around a body, where nothing of [P] and [Q] depends on who owns what. *)
Definition lock_blind `{Locks St} (X : St -> Prop) : Prop := forall h s, X s -> X (set_held h s).
Lemma triple_lock `{Locks St} {A} m h (body : prog St A) (P : St -> Prop) (Q : A -> St -> Prop) (R : St -> Prop) :
  m ∉ h -> lock_blind P -> (forall a, lock_blind (Q a)) ->
  triple (fun s => held s = {[m]} ∪ h /\ P s) body (fun a s => held s = {[m]} ∪ h /\ Q a s) (fun _ => False) ->
  triple (fun s => held s = h /\ P s) (with_lock m body) (fun a s => held s = h /\ Q a s) R.
Proof.
  intros Hm HP HQ Hb s [Hh Hs]. rewrite with_lock_free by set_solver.
  specialize (Hb (set_held ({[m]} ∪ held s) s)). cbv beta in Hb. rewrite held_set_held, Hh in Hb.
  rewrite Hh. destruct (body _) as [a s'|s'|mu s']; [|exfalso; apply Hb; auto..].
  destruct Hb as [Hh' HQs]; [by auto|]. rewrite held_set_held. split; [|by apply HQ].
  rewrite Hh'. set_solver.
Qed.

(** A nested lock of the same mutex is the self-deadlock of a non-recursive
    mutex, whatever the body does. *)
Lemma with_lock_nested `{Locks St} {A B} m (body : prog St A) (k : A -> prog St B) s :
  m ∉ held s ->
  with_lock m (with_lock m body ≫= k) s = Stuck m (set_held ({[m]} ∪ held s) s).
Proof.
  intros Hm. rewrite with_lock_free by done. unfold mbind, prog_bind.
  rewrite with_lock_owned; [done|]. rewrite held_set_held. set_solver.
Qed.

(** ** Lists *)

Definition sumZ {A} (f : A -> Z) (l : list A) : Z := foldr (fun x acc => f x + acc) 0 l.

Lemma sumZ_app {A} (f : A -> Z) l k : sumZ f (l ++ k) = sumZ f l + sumZ f k.
Proof. induction l as [|x l IH]; simpl; lia. Qed.

Lemma sumZ_nonneg {A} (f : A -> Z) l : (forall x, 0 <= f x) -> 0 <= sumZ f l.
Proof. intros Hf. induction l as [|x l IH]; simpl; [lia|]. specialize (Hf x). lia. Qed.

Lemma sumZ_perm {A} (f : A -> Z) l k : l ≡ₚ k -> sumZ f l = sumZ f k.
Proof. induction 1; simpl; lia. Qed.

#[export] Instance sumZ_proper {A} (f : A -> Z) : Proper ((≡ₚ) ==> eq) (sumZ f).
Proof. intros l k. apply sumZ_perm. Qed.

Definition lenZ {A} (l : list A) : Z := Z.of_nat (length l).

Lemma lenZ_app {A} (l k : list A) : lenZ (l ++ k) = lenZ l + lenZ k.
Proof. unfold lenZ. rewrite length_app. lia. Qed.
Lemma lenZ_cons {A} (x : A) l : lenZ (x :: l) = 1 + lenZ l.
Proof. unfold lenZ. simpl. lia. Qed.
Lemma lenZ_nonneg {A} (l : list A) : 0 <= lenZ l.
Proof. unfold lenZ. lia. Qed.
Lemma lenZ_nil {A} : lenZ (@nil A) = 0.
Proof. done. Qed.
Lemma lenZ_perm {A} (l k : list A) : l ≡ₚ k -> lenZ l = lenZ k.
Proof. intros H. unfold lenZ. by rewrite H. Qed.
#[export] Instance lenZ_proper {A} : Proper ((≡ₚ) ==> eq) (@lenZ A).
Proof. intros l k. apply lenZ_perm. Qed.

Lemma string_length_app s t : String.length (s ++ t)%string = (String.length s + String.length t)%nat.
Proof. induction s as [|a s IH]; [done|]. change (S (String.length (s ++ t)%string) = S (String.length s) + String.length t)%nat. by rewrite IH. Qed.

#[export] Hint Rewrite @sumZ_app @lenZ_app @lenZ_cons @lenZ_nil : lists.

(** ** Automation *)

(** Splits every [if] and [match] on a variable-free scrutinee of the goal,
    keeping the equation. *)
Ltac split_matches :=
  repeat match goal with
         | |- context [if decide ?P then _ else _] => destruct (decide P)
         | |- context [match ?x with _ => _ end] => destruct x eqn:?
         end.
Ltac split_matches_in H :=
  repeat match type of H with
         | context [if decide ?P then _ else _] => destruct (decide P)
         | context [match ?x with _ => _ end] => destruct x eqn:?
         end.
(** Normalises list lengths and sums, then closes linear goals. *)
Ltac list_lia := autorewrite with lists in *; simpl in *; lia.
