(* ===== verification/Errno.v ===== *)
(** * errno_mapping.cc: the errno tables and predicates

    The two tables keep the order of the source; the numbers of the macros are
    those of Linux [errno.h].  [std::unordered_map] iterates in an unspecified
    order, so [string_to_errno] takes the order as an argument. *)
From S2P Require Import Prelude.

Abbreviation EPERM := 1 (only parsing).
Abbreviation ENOENT := 2 (only parsing).
Abbreviation ESRCH := 3 (only parsing).
Abbreviation EINTR := 4 (only parsing).
Abbreviation EIO := 5 (only parsing).
Abbreviation ENXIO := 6 (only parsing).
Abbreviation E2BIG := 7 (only parsing).
Abbreviation ENOEXEC := 8 (only parsing).
Abbreviation EBADF := 9 (only parsing).
Abbreviation ECHILD := 10 (only parsing).
Abbreviation EAGAIN := 11 (only parsing).
Abbreviation ENOMEM := 12 (only parsing).
Abbreviation EACCES := 13 (only parsing).
Abbreviation EFAULT := 14 (only parsing).
Abbreviation ENOTBLK := 15 (only parsing).
Abbreviation EBUSY := 16 (only parsing).
Abbreviation EEXIST := 17 (only parsing).
Abbreviation EXDEV := 18 (only parsing).
Abbreviation ENODEV := 19 (only parsing).
Abbreviation ENOTDIR := 20 (only parsing).
Abbreviation EISDIR := 21 (only parsing).
Abbreviation EINVAL := 22 (only parsing).
Abbreviation ENFILE := 23 (only parsing).
Abbreviation EMFILE := 24 (only parsing).
Abbreviation ENOTTY := 25 (only parsing).
Abbreviation ETXTBSY := 26 (only parsing).
Abbreviation EFBIG := 27 (only parsing).
Abbreviation ENOSPC := 28 (only parsing).
Abbreviation ESPIPE := 29 (only parsing).
Abbreviation EROFS := 30 (only parsing).
Abbreviation EMLINK := 31 (only parsing).
Abbreviation EPIPE := 32 (only parsing).
Abbreviation EDOM := 33 (only parsing).
Abbreviation ERANGE := 34 (only parsing).
Abbreviation EDEADLK := 35 (only parsing).
Abbreviation ENAMETOOLONG := 36 (only parsing).
Abbreviation ENOLCK := 37 (only parsing).
Abbreviation ENOSYS := 38 (only parsing).
Abbreviation ENOTEMPTY := 39 (only parsing).
Abbreviation ELOOP := 40 (only parsing).
Abbreviation ENOMSG := 42 (only parsing).
Abbreviation EIDRM := 43 (only parsing).
Abbreviation ENOTSUP := 95 (only parsing).
Abbreviation ETIMEDOUT := 110 (only parsing).
Abbreviation EWOULDBLOCK := 11 (only parsing).
Abbreviation EOPNOTSUPP := 95 (only parsing).
Abbreviation ENODATA := 61 (only parsing).
Abbreviation ECANCELED := 125 (only parsing).

Definition errno_to_string_map : list (Z * string) :=
  [(EPERM, "EPERM"%string);
   (ENOENT, "ENOENT"%string);
   (ESRCH, "ESRCH"%string);
   (EINTR, "EINTR"%string);
   (EIO, "EIO"%string);
   (ENXIO, "ENXIO"%string);
   (E2BIG, "E2BIG"%string);
   (ENOEXEC, "ENOEXEC"%string);
   (EBADF, "EBADF"%string);
   (ECHILD, "ECHILD"%string);
   (EAGAIN, "EAGAIN"%string);
   (ENOMEM, "ENOMEM"%string);
   (EACCES, "EACCES"%string);
   (EFAULT, "EFAULT"%string);
   (ENOTBLK, "ENOTBLK"%string);
   (EBUSY, "EBUSY"%string);
   (EEXIST, "EEXIST"%string);
   (EXDEV, "EXDEV"%string);
   (ENODEV, "ENODEV"%string);
   (ENOTDIR, "ENOTDIR"%string);
   (EISDIR, "EISDIR"%string);
   (EINVAL, "EINVAL"%string);
   (ENFILE, "ENFILE"%string);
   (EMFILE, "EMFILE"%string);
   (ENOTTY, "ENOTTY"%string);
   (ETXTBSY, "ETXTBSY"%string);
   (EFBIG, "EFBIG"%string);
   (ENOSPC, "ENOSPC"%string);
   (ESPIPE, "ESPIPE"%string);
   (EROFS, "EROFS"%string);
   (EMLINK, "EMLINK"%string);
   (EPIPE, "EPIPE"%string);
   (EDOM, "EDOM"%string);
   (ERANGE, "ERANGE"%string);
   (EDEADLK, "EDEADLK"%string);
   (ENAMETOOLONG, "ENAMETOOLONG"%string);
   (ENOLCK, "ENOLCK"%string);
   (ENOSYS, "ENOSYS"%string);
   (ENOTEMPTY, "ENOTEMPTY"%string);
   (ELOOP, "ELOOP"%string);
   (ENOMSG, "ENOMSG"%string);
   (EIDRM, "EIDRM"%string);
   (ENOTSUP, "ENOTSUP"%string);
   (ETIMEDOUT, "ETIMEDOUT"%string)].

Definition errno_to_message_map : list (Z * string) :=
  [(EPERM, "Operation not permitted"%string);
   (ENOENT, "No such file or directory"%string);
   (ESRCH, "No such process"%string);
   (EINTR, "Interrupted system call"%string);
   (EIO, "Input/output error"%string);
   (ENXIO, "No such device or address"%string);
   (E2BIG, "Argument list too long"%string);
   (ENOEXEC, "Exec format error"%string);
   (EBADF, "Bad file descriptor"%string);
   (ECHILD, "No child processes"%string);
   (EAGAIN, "Resource temporarily unavailable"%string);
   (ENOMEM, "Cannot allocate memory"%string);
   (EACCES, "Permission denied"%string);
   (EFAULT, "Bad address"%string);
   (ENOTBLK, "Block device required"%string);
   (EBUSY, "Device or resource busy"%string);
   (EEXIST, "File exists"%string);
   (EXDEV, "Invalid cross-device link"%string);
   (ENODEV, "No such device"%string);
   (ENOTDIR, "Not a directory"%string);
   (EISDIR, "Is a directory"%string);
   (EINVAL, "Invalid argument"%string);
   (ENFILE, "Too many open files in system"%string);
   (EMFILE, "Too many open files"%string);
   (ENOTTY, "Inappropriate ioctl for device"%string);
   (ETXTBSY, "Text file busy"%string);
   (EFBIG, "File too large"%string);
   (ENOSPC, "No space left on device"%string);
   (ESPIPE, "Illegal seek"%string);
   (EROFS, "Read-only file system"%string);
   (EMLINK, "Too many links"%string);
   (EPIPE, "Broken pipe"%string);
   (EDOM, "Numerical argument out of domain"%string);
   (ERANGE, "Numerical result out of range"%string);
   (EDEADLK, "Resource deadlock avoided"%string);
   (ENAMETOOLONG, "File name too long"%string);
   (ENOLCK, "No locks available"%string);
   (ENOSYS, "Function not implemented"%string);
   (ENOTEMPTY, "Directory not empty"%string);
   (ELOOP, "Too many levels of symbolic links"%string);
   (ENOMSG, "No message of desired type"%string);
   (EIDRM, "Identifier removed"%string);
   (ENOTSUP, "Operation not supported"%string);
   (ETIMEDOUT, "Connection timed out"%string)].

(** [unordered_map::find] *)
Fixpoint map_find (err : Z) (m : list (Z * string)) : option string :=
  match m with
  | [] => None
  | (k, v) :: m' => if k =? err then Some v else map_find err m'
  end.

Definition errno_to_string (err : Z) : string :=
  match map_find err errno_to_string_map with
  | Some s => s
  | None => "UNKNOWN"%string
  end.

Definition errno_to_message (err : Z) : string :=
  match map_find err errno_to_message_map with
  | Some s => s
  | None => "Unknown error"%string
  end.

Definition is_valid_errno (err : Z) : bool :=
  match map_find err errno_to_string_map with Some _ => true | None => false end.

(** The range-for over the map visits the entries in the order [order]. *)
Fixpoint string_to_errno_in (order : list (Z * string)) (err_str : string) : Z :=
  match order with
  | [] => 0
  | (k, v) :: rest => if String.eqb v err_str then k else string_to_errno_in rest err_str
  end.

Definition string_to_errno (err_str : string) : Z :=
  string_to_errno_in errno_to_string_map err_str.

(** [-err] is computed in [int]. *)
Definition normalize_fuse_errno (err : Z) : Z :=
  if err =? 0 then 0 else if 0 <? err then s32 (- err) else err.

(** The thread's [errno] cell. *)
Definition get_current_errno : prog Z Z := pget.
Definition clear_errno : prog Z unit := pmodify (fun _ => 0).
Definition set_errno (err : Z) : prog Z unit := pmodify (fun _ => err).

Definition is_temporary_error (err : Z) : bool :=
  (err =? EAGAIN) || (err =? EINTR) || (err =? ETIMEDOUT).
Definition is_permission_error (err : Z) : bool := (err =? EACCES) || (err =? EPERM).
Definition is_not_found_error (err : Z) : bool := (err =? ENOENT) || (err =? ENOTDIR).
Definition is_filesystem_error (err : Z) : bool :=
  (err =? EIO) || (err =? EROFS) || (err =? ENOSPC) || (err =? ENFILE) || (err =? EMFILE).

(** ** Lemmas *)

Lemma map_find_elem err s m : map_find err m = Some s -> (err, s) ∈ m.
Proof.
  induction m as [|[k v] m IH]; simpl; [done|].
  destruct (Z.eqb_spec k err) as [->|]; intros H; simplify_eq; set_solver.
Qed.

Lemma map_find_Some err s m : NoDup m.*1 -> (err, s) ∈ m -> map_find err m = Some s.
Proof.
  induction m as [|[k v] m IH]; simpl; [set_solver|].
  intros [Hk Hm]%NoDup_cons Hin.
  destruct (Z.eqb_spec k err) as [->|].
  - apply elem_of_cons in Hin as [|Hin]; [congruence|].
    destruct Hk. apply list_elem_of_fmap. by exists (err, s).
  - apply IH; [done|]. set_solver.
Qed.

Lemma string_to_errno_in_Some order e s :
  NoDup order.*2 -> (e, s) ∈ order -> string_to_errno_in order s = e.
Proof.
  induction order as [|[k v] m IH]; simpl; [set_solver|].
  intros [Hv Hm]%NoDup_cons Hin.
  destruct (String.eqb_spec v s) as [->|].
  - apply elem_of_cons in Hin as [|Hin]; [congruence|].
    destruct Hv. apply list_elem_of_fmap. by exists (e, s).
  - apply IH; [done|]. set_solver.
Qed.

Lemma string_to_errno_in_None order s :
  s ∉ order.*2 -> string_to_errno_in order s = 0.
Proof.
  induction order as [|[k v] m IH]; simpl; [done|].
  intros [Hv Hm]%not_elem_of_cons. destruct (String.eqb_spec v s); [congruence|auto].
Qed.

Lemma string_map_keys_NoDup : NoDup errno_to_string_map.*1.
Proof. apply (bool_decide_unpack _). by vm_compute. Qed.
Lemma string_map_names_NoDup : NoDup errno_to_string_map.*2.
Proof. apply (bool_decide_unpack _). by vm_compute. Qed.

(** The reverse lookup does not depend on the iteration order of the map. *)
Lemma string_to_errno_order order s :
  order ≡ₚ errno_to_string_map -> string_to_errno_in order s = string_to_errno s.
Proof.
  intros Hp. unfold string_to_errno.
  destruct (decide (s ∈ errno_to_string_map.*2)) as [Hin|Hnin].
  - apply list_elem_of_fmap in Hin as ([e s'] & Hs & Hin). cbn in Hs. subst s.
    rewrite (string_to_errno_in_Some errno_to_string_map e s'); eauto using string_map_names_NoDup.
    apply string_to_errno_in_Some; [|by rewrite Hp].
    rewrite Hp. apply string_map_names_NoDup.
  - rewrite !string_to_errno_in_None; [done|done|by rewrite Hp].
Qed.

Lemma string_to_errno_bound s : 0 <= string_to_errno s <= 110.
Proof.
  unfold string_to_errno.
  destruct (decide (s ∈ errno_to_string_map.*2)) as [Hin|Hnin].
  - apply list_elem_of_fmap in Hin as ([e s'] & Hs & Hin). cbn in Hs. subst s.
    rewrite (string_to_errno_in_Some errno_to_string_map e s'); eauto using string_map_names_NoDup.
    assert (Forall (λ p, 0 <= p.1 <= 110) errno_to_string_map) as HF.
    { apply (bool_decide_unpack _). by vm_compute. }
    rewrite Forall_forall in HF. by apply HF in Hin.
  - rewrite string_to_errno_in_None by done. lia.
Qed.
#[export] Hint Resolve string_to_errno_bound : machine.

(** ** Properties *)

(** [errno_to_string] and [string_to_errno] are inverse on the codes
    [is_valid_errno] accepts, whatever the order in which the hash map is
    iterated; a code outside the table prints as UNKNOWN, which no table entry
    is called, so it reads back as 0. *)
Theorem errno_string_roundtrip order err :
  order ≡ₚ errno_to_string_map ->
  string_to_errno_in order (errno_to_string err) = if is_valid_errno err then err else 0.
Proof.
  intros Hp. rewrite string_to_errno_order by done. unfold string_to_errno, errno_to_string, is_valid_errno.
  destruct (map_find err errno_to_string_map) as [s|] eqn:Hf.
  - apply string_to_errno_in_Some; [apply string_map_names_NoDup|by apply map_find_elem].
  - by vm_compute.
Qed.

Lemma errno_string_roundtrip_witness :
  errno_to_string_map ≡ₚ errno_to_string_map /\
  string_to_errno_in errno_to_string_map (errno_to_string 2) = (if is_valid_errno 2 then 2 else 0).
Proof. split; [reflexivity|]. apply (errno_string_roundtrip errno_to_string_map 2). reflexivity. Defined.
