(* ===== verification/Sys.v ===== *)
(** * System data shared by the bridge and libfuse

    IEEE doubles (finite values are [m * 2^e]), the structures of
    [sys/stat.h], [sys/statvfs.h] and [fcntl.h], and the libfuse structures of
    [fuse-docs/include/fuse_common.h] and [fuse_lowlevel.h] that cross the
    boundary between the bridge and the library. *)
From S2P Require Import Prelude.

(** ** Doubles *)

Inductive double : Set :=
  | DNaN
  | DInf (negative : bool)
  | DFin (m e : Z).

#[export] Instance double_eq_dec : EqDecision double.
Proof. solve_decision. Defined.

(** Round half to even of [m / 2^k], for [0 <= m]. *)
Definition rne (m k : Z) : Z :=
  let q := m / 2 ^ k in
  let r := m `mod` 2 ^ k in
  let half := 2 ^ (k - 1) in
  if r <? half then q else if half <? r then q + 1 else if Z.even q then q else q + 1.

(** The double nearest to [m * 2^e] (53 bits of significand). *)
Definition round53 (m e : Z) : double :=
  let n := Z.log2 (Z.abs m) + 1 in
  if n <=? 53 then DFin m e
  else DFin (Z.sgn m * rne (Z.abs m) (n - 53)) (e + (n - 53)).

(** [static_cast<double>(z)] *)
Definition dbl (z : Z) : double := round53 z 0.

Definition isfinite (d : double) : bool := match d with DFin _ _ => true | _ => false end.

(** Comparison of two finite values, by bringing them to one exponent. *)
Definition fin_compare (m1 e1 m2 e2 : Z) : comparison :=
  let e := Z.min e1 e2 in (m1 * 2 ^ (e1 - e) ?= m2 * 2 ^ (e2 - e)).

Definition dlt (a b : double) : bool :=
  match a, b with
  | DNaN, _ | _, DNaN => false
  | DInf s, DInf s' => s && negb s'
  | DInf s, DFin _ _ => s
  | DFin _ _, DInf s => negb s
  | DFin m e, DFin m' e' => match fin_compare m e m' e' with Lt => true | _ => false end
  end.
Definition deqb (a b : double) : bool :=
  match a, b with
  | DInf s, DInf s' => Bool.eqb s s'
  | DFin m e, DFin m' e' => match fin_compare m e m' e' with Eq => true | _ => false end
  | _, _ => false
  end.
Definition dle (a b : double) : bool := dlt a b || deqb a b.

(** The conversion to an integer type before the range question: truncation. *)
Definition dtrunc (d : double) : Z :=
  match d with
  | DFin m e => if 0 <=? e then m * 2 ^ e else Z.quot m (2 ^ (- e))
  | _ => 0
  end.
(** [std::floor(raw) == raw] for a finite [raw]. *)
Definition dintegral (d : double) : bool :=
  match d with
  | DFin m e => if 0 <=? e then true else m `mod` 2 ^ (- e) =? 0
  | _ => false
  end.
Definition dsub (a b : double) : double :=
  match a, b with
  | DFin m e, DFin m' e' =>
      let c := Z.min e e' in round53 (m * 2 ^ (e - c) - m' * 2 ^ (e' - c)) c
  | DNaN, _ | _, DNaN => DNaN
  | DInf s, DInf s' => if Bool.eqb s s' then DNaN else DInf s
  | DInf s, _ => DInf s
  | _, DInf s => DInf (negb s)
  end.
(** Product of finite values (the only case the code reaches). *)
Definition dmul_fin (m e m' e' : Z) : double := round53 (m * m') (e + e').

Lemma dbl_small z : Z.abs z < 2 ^ 53 -> dbl z = DFin z 0.
Proof.
  intros Hz. unfold dbl, round53.
  assert (Z.log2 (Z.abs z) < 53) as Hl.
  { destruct (decide (z = 0)) as [->|]; [done|]. apply Z.log2_lt_pow2; lia. }
  set (n := Z.log2 (Z.abs z)) in *. clearbody n.
  destruct (Z.leb_spec (n + 1) 53); [done|lia].
Qed.

Lemma dtrunc_int z : dtrunc (DFin z 0) = z.
Proof. cbn -[Z.mul]. apply Z.mul_1_r. Qed.

Lemma dtrunc_dbl z : Z.abs z < 2 ^ 53 -> dtrunc (dbl z) = z.
Proof. intros Hz. rewrite dbl_small by done. apply dtrunc_int. Qed.

Lemma dlt_zero_fin m e : dlt (DFin m e) (DFin 0 0) = (m <? 0).
Proof.
  unfold dlt, fin_compare. rewrite Z.mul_0_l.
  assert (0 < 2 ^ (e - Z.min e 0)) by (apply Z.pow_pos_nonneg; lia).
  generalize dependent (2 ^ (e - Z.min e 0)). intros p Hp.
  destruct (Z.compare_spec (m * p) 0); destruct (Z.ltb_spec m 0); try done; exfalso; nia.
Qed.

(** ** Structures *)

Record timespec := { tv_sec : Z; tv_nsec : Z }.

Record stat := {
  st_ino : Z; st_mode : Z; st_nlink : Z; st_uid : Z; st_gid : Z; st_rdev : Z;
  st_size : Z; st_blksize : Z; st_blocks : Z;
  st_atim : timespec; st_mtim : timespec; st_ctim : timespec;
}.
Definition zero_ts : timespec := {| tv_sec := 0; tv_nsec := 0 |}.
(** [memset(st, 0, sizeof *st)] and [struct stat attr{}] *)
Definition zero_stat : stat :=
  {| st_ino := 0; st_mode := 0; st_nlink := 0; st_uid := 0; st_gid := 0; st_rdev := 0;
     st_size := 0; st_blksize := 0; st_blocks := 0;
     st_atim := zero_ts; st_mtim := zero_ts; st_ctim := zero_ts |}.

Record statvfs := {
  f_bsize : Z; f_frsize : Z; f_blocks : Z; f_bfree : Z; f_bavail : Z; f_files : Z;
  f_ffree : Z; f_favail : Z; f_fsid : Z; f_flag : Z; f_namemax : Z;
}.
Definition zero_statvfs : statvfs :=
  {| f_bsize := 0; f_frsize := 0; f_blocks := 0; f_bfree := 0; f_bavail := 0; f_files := 0;
     f_ffree := 0; f_favail := 0; f_fsid := 0; f_flag := 0; f_namemax := 0 |}.

Record flock := { l_type : Z; l_whence : Z; l_start : Z; l_len : Z; l_pid : Z }.
Definition zero_flock : flock :=
  {| l_type := 0; l_whence := 0; l_start := 0; l_len := 0; l_pid := 0 |}.

Record fuse_file_info := {
  fi_flags : Z; fi_writepage : bool; fi_direct_io : bool; fi_keep_cache : bool;
  fi_flush : bool; fi_nonseekable : bool; fi_flock_release : bool;
  fi_cache_readdir : bool; fi_noflush : bool; fi_parallel_direct_writes : bool;
  fi_fh : Z; fi_lock_owner : Z; fi_poll_events : Z; fi_backing_id : Z;
}.
Definition zero_fi : fuse_file_info :=
  {| fi_flags := 0; fi_writepage := false; fi_direct_io := false; fi_keep_cache := false;
     fi_flush := false; fi_nonseekable := false; fi_flock_release := false;
     fi_cache_readdir := false; fi_noflush := false; fi_parallel_direct_writes := false;
     fi_fh := 0; fi_lock_owner := 0; fi_poll_events := 0; fi_backing_id := 0 |}.

Record fuse_entry_param := {
  e_ino : Z; e_generation : Z; e_attr : stat;
  e_attr_timeout : double; e_entry_timeout : double;
}.

Record fuse_ctx := { c_uid : Z; c_gid : Z; c_pid : Z; c_umask : Z }.

(** A [struct fuse_buf] either points to memory ([mem = None] is a null
    pointer) or names a file descriptor. *)
Record fuse_buf := {
  buf_size : Z; buf_flags : Z; buf_mem : option (list Z); buf_fd : Z; buf_pos : Z; buf_mem_size : Z;
}.
Record fuse_bufvec := { bv_idx : Z; bv_off : Z; bv_buf : list fuse_buf }.
Definition bv_count (bv : fuse_bufvec) : Z := lenZ (bv_buf bv).

Abbreviation FUSE_BUF_IS_FD := 2 (only parsing).
Abbreviation FUSE_BUF_FD_SEEK := 4 (only parsing).
Abbreviation FUSE_BUF_FD_RETRY := 8 (only parsing).

Abbreviation S_IFMT := 61440 (only parsing).
Abbreviation S_IFDIR := 16384 (only parsing).
Abbreviation S_IFREG := 32768 (only parsing).
Abbreviation S_IFLNK := 40960 (only parsing).
Abbreviation DT_UNKNOWN := 0 (only parsing).
Abbreviation DT_DIR := 4 (only parsing).
Abbreviation DT_REG := 8 (only parsing).
Abbreviation DT_LNK := 10 (only parsing).

(** ** Calls of the operation table

    A request as a callback of [struct fuse_lowlevel_ops] receives it (names are
    C strings, a null pointer is [None]); [attr_then] of [QSetattr] is what the
    caller's [struct stat] holds when a callback that kept the pointer reads it. *)
Inductive fuse_request :=
  | QDestroy
  | QForget (ino nlookup : Z)
  | QForgetMulti (forgets : list (Z * Z))
  | QLookup (parent : Z) (name : option string)
  | QGetattr (ino : Z) (fi : option fuse_file_info)
  | QSetattr (ino : Z) (attr : option stat) (to_set : Z) (fi : option fuse_file_info) (attr_then : stat)
  | QReadlink (ino : Z)
  | QMknod (parent : Z) (name : option string) (mode rdev : Z)
  | QMkdir (parent : Z) (name : option string) (mode : Z)
  | QUnlink (parent : Z) (name : option string)
  | QRmdir (parent : Z) (name : option string)
  | QSymlink (link : option string) (parent : Z) (name : option string)
  | QRename (parent : Z) (name : option string) (newparent : Z) (newname : option string) (flags : Z)
  | QLink (ino newparent : Z) (newname : option string)
  | QOpen (ino : Z) (fi : option fuse_file_info)
  | QRead (ino size off : Z) (fi : option fuse_file_info)
  | QWrite (ino : Z) (buf : option (list Z)) (size off : Z) (fi : option fuse_file_info)
  | QWriteBuf (ino : Z) (bufv : fuse_bufvec) (off : Z) (fi : option fuse_file_info)
  | QFlush (ino : Z) (fi : option fuse_file_info)
  | QRelease (ino : Z) (fi : option fuse_file_info)
  | QFsync (ino datasync : Z) (fi : option fuse_file_info)
  | QOpendir (ino : Z) (fi : option fuse_file_info)
  | QReaddir (ino size off : Z) (fi : option fuse_file_info)
  | QReaddirplus (ino size off : Z) (fi : option fuse_file_info)
  | QReleasedir (ino : Z) (fi : option fuse_file_info)
  | QFsyncdir (ino datasync : Z) (fi : option fuse_file_info)
  | QStatfs (ino : Z)
  | QAccess (ino mask : Z)
  | QCreate (parent : Z) (name : option string) (mode : Z) (fi : option fuse_file_info)
  | QCopyFileRange (ino_in off_in : Z) (fi_in : option fuse_file_info) (ino_out off_out : Z)
                   (fi_out : option fuse_file_info) (len flags : Z)
  | QSetxattr (ino : Z) (name : option string) (value : option (list Z)) (size flags : Z)
  | QGetxattr (ino : Z) (name : option string) (size : Z)
  | QListxattr (ino size : Z)
  | QRemovexattr (ino : Z) (name : option string)
  | QGetlk (ino : Z) (fi : option fuse_file_info) (lock : option flock)
  | QSetlk (ino : Z) (fi : option fuse_file_info) (lock : option flock) (sleep : Z)
  | QBmap (ino blocksize idx : Z)
  | QIoctl (ino cmd : Z) (fi : option fuse_file_info) (in_buf : option (list Z)) (in_bufsz out_bufsz : Z)
  | QPoll (ino : Z) (fi : option fuse_file_info) (ph : option Z).
