(* ===== verification/LlDirent.v ===== *)
(** * fuse_lowlevel.c: attributes, entries and directory records

    The conversions from the C structures to the kernel's wire structures
    ([convert_stat], [fill_entry], ...) and the two functions that append a
    directory record to a reply buffer.  Wire integers are little-endian byte
    lists; [parse_dirents] is the kernel's side of [fuse_add_direntry]. *)
From S2P Require Import Prelude Sys.

(** ** Little-endian fields *)

Fixpoint le (n : nat) (z : Z) : list Z :=
  match n with
  | O => []
  | S n' => z `mod` 256 :: le n' (z / 256)
  end.
Fixpoint un_le (l : list Z) : Z :=
  match l with
  | [] => 0
  | b :: l' => b + 256 * un_le l'
  end.

Lemma le_length n z : length (le n z) = n.
Proof. revert z. induction n; intros; simpl; auto. Qed.

Lemma un_le_le n z : un_le (le n z) = z `mod` 2 ^ (8 * Z.of_nat n).
Proof.
  revert z. induction n as [|n IH]; intros z.
  - simpl. by rewrite Z.mod_1_r.
  - simpl le. simpl un_le. rewrite IH.
    replace (8 * Z.of_nat (S n)) with (8 + 8 * Z.of_nat n) by lia.
    rewrite Z.pow_add_r by lia. change (2 ^ 8) with 256.
    rewrite Z.rem_mul_r; lia.
Qed.

(** [bytes at offset i, length n] *)
Definition sub_bytes (i n : nat) (l : list Z) : list Z := take n (drop i l).

(** ** C strings *)

Fixpoint str_bytes (s : string) : list Z :=
  match s with
  | EmptyString => []
  | String a s' => Z.of_N (Ascii.N_of_ascii a) :: str_bytes s'
  end.
(** The bytes [strlen] and [memcpy(_, name, strlen(name))] see. *)
Fixpoint c_str (s : string) : list Z :=
  match s with
  | EmptyString => []
  | String a s' =>
      let b := Z.of_N (Ascii.N_of_ascii a) in if b =? 0 then [] else b :: c_str s'
  end.
Definition strlen (s : string) : Z := lenZ (c_str s).

(** ** Attributes and entries *)

Record fuse_attr := {
  a_ino : Z; a_size : Z; a_blocks : Z; a_atime : Z; a_mtime : Z; a_ctime : Z;
  a_atimensec : Z; a_mtimensec : Z; a_ctimensec : Z;
  a_mode : Z; a_nlink : Z; a_uid : Z; a_gid : Z; a_rdev : Z; a_blksize : Z; a_flags : Z;
}.

(** Every assignment converts to the width of the wire field. *)
Definition convert_stat (stbuf : stat) : fuse_attr := {|
  a_ino := u64 (st_ino stbuf); a_size := u64 (st_size stbuf); a_blocks := u64 (st_blocks stbuf);
  a_atime := u64 (tv_sec (st_atim stbuf)); a_mtime := u64 (tv_sec (st_mtim stbuf));
  a_ctime := u64 (tv_sec (st_ctim stbuf));
  a_atimensec := u32 (tv_nsec (st_atim stbuf)); a_mtimensec := u32 (tv_nsec (st_mtim stbuf));
  a_ctimensec := u32 (tv_nsec (st_ctim stbuf));
  a_mode := u32 (st_mode stbuf); a_nlink := u32 (st_nlink stbuf); a_uid := u32 (st_uid stbuf);
  a_gid := u32 (st_gid stbuf); a_rdev := u32 (st_rdev stbuf); a_blksize := u32 (st_blksize stbuf);
  a_flags := 0;
|}.

Record fuse_setattr_in := {
  si_valid : Z; si_fh : Z; si_size : Z; si_atime : Z; si_mtime : Z; si_ctime : Z;
  si_atimensec : Z; si_mtimensec : Z; si_ctimensec : Z; si_mode : Z; si_uid : Z; si_gid : Z;
}.
(** [convert_attr] fills a zeroed [struct stat]. *)
Definition convert_attr (attr : fuse_setattr_in) : stat := {|
  st_ino := 0; st_mode := si_mode attr; st_nlink := 0; st_uid := si_uid attr; st_gid := si_gid attr;
  st_rdev := 0; st_size := s64 (si_size attr); st_blksize := 0; st_blocks := 0;
  st_atim := {| tv_sec := s64 (si_atime attr); tv_nsec := si_atimensec attr |};
  st_mtim := {| tv_sec := s64 (si_mtime attr); tv_nsec := si_mtimensec attr |};
  st_ctim := {| tv_sec := s64 (si_ctime attr); tv_nsec := si_ctimensec attr |};
|}.

Record fuse_kstatfs := {
  k_blocks : Z; k_bfree : Z; k_bavail : Z; k_files : Z; k_ffree : Z;
  k_bsize : Z; k_namelen : Z; k_frsize : Z;
}.
Definition convert_statfs (stbuf : statvfs) : fuse_kstatfs := {|
  k_blocks := f_blocks stbuf; k_bfree := f_bfree stbuf; k_bavail := f_bavail stbuf;
  k_files := f_files stbuf; k_ffree := f_ffree stbuf; k_bsize := u32 (f_bsize stbuf);
  k_namelen := u32 (f_namemax stbuf); k_frsize := u32 (f_frsize stbuf);
|}.

(** [t > (double) ULONG_MAX] compares with [2^64]; a NaN reaches the
    undefined conversion, taken as 0. *)
Definition calc_timeout_sec (t : double) : Z :=
  if dlt (dbl UINT64_MAX) t then UINT64_MAX
  else if dlt t (DFin 0 0) then 0
  else u64 (dtrunc t).

Definition calc_timeout_nsec (t : double) : Z :=
  let f := dsub t (dbl (calc_timeout_sec t)) in
  if dlt f (DFin 0 0) then 0
  else if dle (DFin 9007199245733793 (-53)) f then 999999999
  else match f with
       | DFin m e => dtrunc (dmul_fin m e 1000000000 0)
       | _ => 0
       end.

Record fuse_entry_out := {
  eo_nodeid : Z; eo_generation : Z; eo_entry_valid : Z; eo_attr_valid : Z;
  eo_entry_valid_nsec : Z; eo_attr_valid_nsec : Z; eo_attr : fuse_attr;
}.
Definition fill_entry (e : fuse_entry_param) : fuse_entry_out := {|
  eo_nodeid := e_ino e; eo_generation := e_generation e;
  eo_entry_valid := calc_timeout_sec (e_entry_timeout e);
  eo_attr_valid := calc_timeout_sec (e_attr_timeout e);
  eo_entry_valid_nsec := calc_timeout_nsec (e_entry_timeout e);
  eo_attr_valid_nsec := calc_timeout_nsec (e_attr_timeout e);
  eo_attr := convert_stat (e_attr e);
|}.

(** The bytes of [struct fuse_attr] (88) and [struct fuse_entry_out] (128). *)
Definition attr_bytes (a : fuse_attr) : list Z :=
  le 8 (a_ino a) ++ le 8 (a_size a) ++ le 8 (a_blocks a) ++ le 8 (a_atime a) ++
  le 8 (a_mtime a) ++ le 8 (a_ctime a) ++ le 4 (a_atimensec a) ++ le 4 (a_mtimensec a) ++
  le 4 (a_ctimensec a) ++ le 4 (a_mode a) ++ le 4 (a_nlink a) ++ le 4 (a_uid a) ++
  le 4 (a_gid a) ++ le 4 (a_rdev a) ++ le 4 (a_blksize a) ++ le 4 (a_flags a).
Definition entry_bytes (e : fuse_entry_out) : list Z :=
  le 8 (eo_nodeid e) ++ le 8 (eo_generation e) ++ le 8 (eo_entry_valid e) ++
  le 8 (eo_attr_valid e) ++ le 4 (eo_entry_valid_nsec e) ++ le 4 (eo_attr_valid_nsec e) ++
  attr_bytes (eo_attr e).

(** ** Directory records *)

Definition FUSE_REC_ALIGN (x : Z) : Z := Z.land (x + 7) (Z.lnot 7).
Definition FUSE_NAME_OFFSET : Z := 24.
Definition FUSE_NAME_OFFSET_DIRENTPLUS : Z := 152.

Definition dirent_type (mode : Z) : Z := Z.shiftr (Z.land mode S_IFMT) 12.

(** [struct fuse_dirent], the name and the zero padding. *)
Definition dirent_bytes (ino off mode : Z) (name : string) (padding : Z) : list Z :=
  le 8 ino ++ le 8 off ++ le 4 (strlen name) ++ le 4 (dirent_type mode) ++
  c_str name ++ replicate (Z.to_nat padding) 0.

(** [buf = None] is the null pointer of a size query; the result is the
    returned size and the bytes stored at the start of the buffer. *)
Definition fuse_add_direntry (buf : option unit) (bufsize : Z) (name : string)
    (stbuf : stat) (off : Z) : Z * list Z :=
  let entlen := FUSE_NAME_OFFSET + strlen name in
  let entlen_padded := FUSE_REC_ALIGN entlen in
  match buf with
  | None => (entlen_padded, [])
  | Some _ =>
      if bufsize <? entlen_padded then (entlen_padded, [])
      else (entlen_padded,
            dirent_bytes (st_ino stbuf) off (st_mode stbuf) name (entlen_padded - entlen))
  end.

Definition fuse_add_direntry_plus (buf : option unit) (bufsize : Z) (name : string)
    (e : fuse_entry_param) (off : Z) : Z * list Z :=
  let entlen := FUSE_NAME_OFFSET_DIRENTPLUS + strlen name in
  let entlen_padded := FUSE_REC_ALIGN entlen in
  match buf with
  | None => (entlen_padded, [])
  | Some _ =>
      if bufsize <? entlen_padded then (entlen_padded, [])
      else (entlen_padded,
            entry_bytes (fill_entry e) ++
            dirent_bytes (st_ino (e_attr e)) off (st_mode (e_attr e)) name
              (entlen_padded - entlen))
  end.

(** ** The reader's side: records are consumed while a whole one is present *)

Record dirent := { d_ino : Z; d_off : Z; d_type : Z; d_name : list Z }.

Definition parse_dirent (l : list Z) : option (dirent * list Z) :=
  if lenZ l <? FUSE_NAME_OFFSET then None
  else
    let namelen := un_le (sub_bytes 16 4 l) in
    let reclen := FUSE_REC_ALIGN (FUSE_NAME_OFFSET + namelen) in
    if lenZ l <? reclen then None
    else Some ({| d_ino := un_le (sub_bytes 0 8 l); d_off := un_le (sub_bytes 8 8 l);
                  d_type := un_le (sub_bytes 20 4 l);
                  d_name := sub_bytes 24 (Z.to_nat namelen) l |},
               drop (Z.to_nat reclen) l).

Fixpoint parse_dirents (fuel : nat) (l : list Z) : list dirent :=
  match fuel with
  | O => []
  | S fuel' => match parse_dirent l with
               | Some (d, rest) => d :: parse_dirents fuel' rest
               | None => []
               end
  end.

(** ** Lemmas *)

Lemma rec_align_spec x : 0 <= x ->
  FUSE_REC_ALIGN x = 8 * ((x + 7) / 8) /\ x <= FUSE_REC_ALIGN x < x + 8.
Proof.
  intros Hx. unfold FUSE_REC_ALIGN.
  assert (Z.land (x + 7) (Z.lnot 7) = 8 * ((x + 7) / 8)) as ->.
  { rewrite <- Z.ldiff_land. change 7 with (Z.ones 3) at 2.
    rewrite Z.ldiff_ones_r by lia. rewrite Z.shiftl_mul_pow2, Z.shiftr_div_pow2 by lia.
    change (2 ^ 3) with 8. lia. }
  split; [done|]. pose proof (Z.div_mod (x + 7) 8). pose proof (Z.mod_pos_bound (x + 7) 8). lia.
Qed.

Lemma strlen_nonneg s : 0 <= strlen s.
Proof. apply lenZ_nonneg. Qed.

Lemma entry_bytes_length e : length (entry_bytes e) = 128%nat.
Proof. unfold entry_bytes, attr_bytes. rewrite !length_app, !le_length. done. Qed.

Lemma dirent_bytes_length ino off mode name pad : 0 <= pad ->
  lenZ (dirent_bytes ino off mode name pad) = 24 + strlen name + pad.
Proof.
  intros Hp. unfold dirent_bytes, strlen, lenZ.
  rewrite !length_app, !le_length, length_replicate. lia.
Qed.

Lemma fuse_add_direntry_size buf sz name st off :
  (fuse_add_direntry buf sz name st off).1 = FUSE_REC_ALIGN (FUSE_NAME_OFFSET + strlen name).
Proof. unfold fuse_add_direntry. destruct buf; [|done]. by case_match. Qed.

Lemma fuse_add_direntry_written u sz name st off :
  FUSE_REC_ALIGN (FUSE_NAME_OFFSET + strlen name) <= sz ->
  lenZ (fuse_add_direntry (Some u) sz name st off).2 =
    FUSE_REC_ALIGN (FUSE_NAME_OFFSET + strlen name).
Proof.
  intros Hs. unfold fuse_add_direntry.
  pose proof (strlen_nonneg name).
  pose proof (rec_align_spec (FUSE_NAME_OFFSET + strlen name) ltac:(unfold FUSE_NAME_OFFSET; lia)).
  destruct (Z.ltb_spec sz (FUSE_REC_ALIGN (FUSE_NAME_OFFSET + strlen name))); [lia|].
  cbn [snd]. rewrite dirent_bytes_length by lia. unfold FUSE_NAME_OFFSET in *. lia.
Qed.

Lemma fuse_add_direntry_plus_written u sz name e off :
  FUSE_REC_ALIGN (FUSE_NAME_OFFSET_DIRENTPLUS + strlen name) <= sz ->
  lenZ (fuse_add_direntry_plus (Some u) sz name e off).2 =
    FUSE_REC_ALIGN (FUSE_NAME_OFFSET_DIRENTPLUS + strlen name).
Proof.
  intros Hs. unfold fuse_add_direntry_plus.
  pose proof (strlen_nonneg name).
  pose proof (rec_align_spec (FUSE_NAME_OFFSET_DIRENTPLUS + strlen name)
                ltac:(unfold FUSE_NAME_OFFSET_DIRENTPLUS; lia)).
  destruct (Z.ltb_spec sz (FUSE_REC_ALIGN (FUSE_NAME_OFFSET_DIRENTPLUS + strlen name))); [lia|].
  cbn [snd]. rewrite lenZ_app, dirent_bytes_length by lia.
  unfold lenZ at 1. rewrite entry_bytes_length. unfold FUSE_NAME_OFFSET_DIRENTPLUS in *. lia.
Qed.

(** A field laid out after [n] bytes. *)
Lemma sub_bytes_app i n a b : length a = i -> length b = n -> forall c,
  sub_bytes i n (a ++ b ++ c) = b.
Proof.
  intros <- <- c. unfold sub_bytes. by rewrite drop_app_length, take_app_length.
Qed.

Lemma parse_dirent_cons ino off mode name pad rest :
  in_u 64 ino -> in_u 64 off -> strlen name < 2 ^ 32 ->
  0 <= pad -> FUSE_REC_ALIGN (24 + strlen name) = 24 + strlen name + pad ->
  parse_dirent (dirent_bytes ino off mode name pad ++ rest) =
    Some ({| d_ino := ino; d_off := off; d_type := dirent_type mode `mod` 2 ^ 32;
             d_name := c_str name |}, rest).
Proof.
  intros Hino Hoff Hname Hpad Halign.
  pose proof (strlen_nonneg name) as Hn0.
  assert (lenZ (dirent_bytes ino off mode name pad ++ rest) = 24 + strlen name + pad + lenZ rest)
    as Hlen by (rewrite lenZ_app, dirent_bytes_length by done; lia).
  pose proof (lenZ_nonneg rest).
  unfold parse_dirent. rewrite Hlen.
  destruct (Z.ltb_spec (24 + strlen name + pad + lenZ rest) FUSE_NAME_OFFSET);
    [unfold FUSE_NAME_OFFSET in *; lia|].
  set (B := dirent_bytes ino off mode name pad ++ rest).
  assert (B = le 8 ino ++ le 8 off ++ le 4 (strlen name) ++ le 4 (dirent_type mode) ++
              c_str name ++ replicate (Z.to_nat pad) 0 ++ rest) as HB.
  { unfold B, dirent_bytes. by rewrite <- !app_assoc. }
  assert (sub_bytes 0 8 B = le 8 ino) as -> by (by rewrite HB; apply (sub_bytes_app 0 8 []); rewrite ?le_length).
  assert (sub_bytes 8 8 B = le 8 off) as -> by (by rewrite HB; apply (sub_bytes_app 8 8 (le 8 ino)); rewrite ?le_length).
  assert (sub_bytes 16 4 B = le 4 (strlen name)) as ->.
  { rewrite HB, app_assoc. apply sub_bytes_app; by rewrite ?length_app, ?le_length. }
  assert (sub_bytes 20 4 B = le 4 (dirent_type mode)) as ->.
  { rewrite HB, 2!app_assoc. apply sub_bytes_app; by rewrite ?length_app, ?le_length. }
  rewrite !un_le_le. change (8 * Z.of_nat 4) with 32. change (8 * Z.of_nat 8) with 64.
  rewrite !(Z.mod_small ino), !(Z.mod_small off), !(Z.mod_small (strlen name)) by done.
  replace (FUSE_REC_ALIGN (FUSE_NAME_OFFSET + strlen name)) with (24 + strlen name + pad)
    by (unfold FUSE_NAME_OFFSET; lia).
  destruct (Z.ltb_spec (24 + strlen name + pad + lenZ rest) (24 + strlen name + pad)); [lia|].
  assert (sub_bytes 24 (Z.to_nat (strlen name)) B = c_str name) as ->.
  { rewrite HB, 3!app_assoc. apply sub_bytes_app; [by rewrite !length_app, !le_length|].
    unfold strlen, lenZ. by rewrite Nat2Z.id. }
  do 3 f_equal. unfold B. apply drop_app_length'.
  pose proof (dirent_bytes_length ino off mode name pad Hpad). unfold lenZ in *. lia.
Qed.
