(* ===== verification/FuseBuf.v ===== *)
(** * lib/buffer.c: buffer vectors *)
From S2P Require Import Prelude Errno Sys.

(** The loop of [fuse_buf_size] from the running sum [size]; it saturates at
    [SIZE_MAX]. *)
Fixpoint fuse_buf_size (bufs : list fuse_buf) (size : Z) : Z :=
  match bufs with
  | [] => size
  | b :: rest =>
      if UINT64_MAX - size <=? buf_size b then UINT64_MAX
      else fuse_buf_size rest (size + buf_size b)
  end.
