(* ===== verification/PrioQueue.v ===== *)
(** * Priority queues

    What the write queues and the dispatcher rely on of [std::priority_queue]:
    the class [PrioQueue] gives the operations, [PrioQueueLaws] their documented
    behaviour.  [cmp a b] says that [a] comes after [b]; elements that compare
    equal may come out in either order.  Both clients compare by priority, then
    by age ([later]), for which [sorted_queue] is an implementation. *)
From S2P Require Import Prelude.
From Stdlib Require Import Sorting.Sorted.

Class PrioQueue (E : Type) (cmp : E -> E -> bool) := {
  pq : Type;
  pq_empty : pq;
  pq_push : E -> pq -> pq;
  pq_pop : pq -> option (E * pq);
  pq_elems : pq -> list E;
}.
Arguments pq {E} cmp {_}.

Class PrioQueueLaws {E cmp} (PQ : PrioQueue E cmp) : Prop := {
  pq_elems_empty : pq_elems pq_empty = [];
  pq_elems_push e q : pq_elems (pq_push e q) ≡ₚ e :: pq_elems q;
  pq_pop_None q : pq_pop q = None <-> pq_elems q = [];
  pq_pop_Some q e q' : pq_pop q = Some (e, q') ->
    pq_elems q ≡ₚ e :: pq_elems q' /\ Forall (fun x => cmp e x = false) (pq_elems q);
}.

(** Removes everything, first come first; [n] bounds the number of elements. *)
Fixpoint pq_drain {E cmp} `{PrioQueue E cmp} (n : nat) (q : pq cmp) : list E :=
  match n with
  | O => []
  | S n' => match pq_pop q with
            | Some (e, q') => e :: pq_drain n' q'
            | None => []
            end
  end.

Definition pq_size {E cmp} `{PrioQueue E cmp} (q : pq cmp) : Z := lenZ (pq_elems q).

Section Drain.
Context {E cmp} `{L : !PrioQueueLaws (E := E) (cmp := cmp) PQ}.

Lemma pq_pop_size q e q' : pq_pop q = Some (e, q') -> length (pq_elems q) = S (length (pq_elems q')).
Proof. intros Hp. apply pq_pop_Some in Hp as [Hp _]. apply Permutation_length in Hp. done. Qed.

Lemma pq_pop_nonempty q : pq_elems q <> [] -> exists e q', pq_pop q = Some (e, q').
Proof.
  intros Hq. destruct (pq_pop q) as [[e q']|] eqn:Hp; [by exists e, q'|]. by apply pq_pop_None in Hp.
Qed.

Lemma pq_drain_perm n q : (length (pq_elems q) <= n)%nat -> pq_drain n q ≡ₚ pq_elems q.
Proof.
  revert q. induction n as [|n IH]; intros q Hn; cbn [pq_drain].
  { destruct (pq_elems q); [done|simpl in Hn; lia]. }
  destruct (pq_pop q) as [[e q']|] eqn:Hp.
  - pose proof (pq_pop_size q e q' Hp). apply pq_pop_Some in Hp as [Hperm _].
    rewrite Hperm, IH by lia. done.
  - apply pq_pop_None in Hp. by rewrite Hp.
Qed.

(** The elements leave in order. *)
Lemma pq_drain_sorted n q :
  (length (pq_elems q) <= n)%nat -> StronglySorted (fun a b => cmp a b = false) (pq_drain n q).
Proof.
  revert q. induction n as [|n IH]; intros q Hn; cbn [pq_drain]; [constructor|].
  destruct (pq_pop q) as [[e q']|] eqn:Hp; [|constructor].
  pose proof (pq_pop_size q e q' Hp). apply pq_pop_Some in Hp as [Hperm Hmin].
  constructor; [apply IH; lia|].
  rewrite (pq_drain_perm n q') by lia. rewrite Hperm in Hmin. by inv Hmin.
Qed.
End Drain.

(** ** Priority, then age *)

Section Later.
Context {E : Type} (prio ts : E -> Z).

Definition later (a b : E) : bool :=
  if negb (prio a =? prio b) then prio b <? prio a else ts b <? ts a.

Lemma later_false a b : later a b = false <-> prio a < prio b \/ prio a = prio b /\ ts a <= ts b.
Proof.
  unfold later. destruct (Z.eqb_spec (prio a) (prio b)); simpl;
    [destruct (Z.ltb_spec (ts b) (ts a))|destruct (Z.ltb_spec (prio b) (prio a))]; split; lia || done.
Qed.

Lemma later_irrefl a : later a a = false.
Proof. apply later_false. lia. Qed.
Lemma later_trans a b c : later a b = false -> later b c = false -> later a c = false.
Proof. rewrite !later_false. lia. Qed.
Lemma later_total a b : later a b = true -> later b a = false.
Proof.
  intros Hab. apply later_false. destruct (later a b) eqn:Hl; [|done].
  destruct (decide (prio b < prio a \/ prio b = prio a /\ ts b <= ts a)) as [|Hn]; [done|].
  assert (later a b = false) by (apply later_false; lia). congruence.
Qed.

(** The element of [e :: l] that leaves first, and the others. *)
Fixpoint extract (e : E) (l : list E) : E * list E :=
  match l with
  | [] => (e, [])
  | x :: l' => let '(m, r) := extract x l' in if later e m then (m, e :: r) else (e, m :: r)
  end.

#[export] Instance list_queue : PrioQueue E later := {|
  pq := list E;
  pq_empty := [];
  pq_push := fun e q => q ++ [e];
  pq_pop := fun q => match q with [] => None | e :: l => Some (extract e l) end;
  pq_elems := fun q => q;
|}.

Lemma extract_spec e l : forall m r, extract e l = (m, r) ->
  e :: l ≡ₚ m :: r /\ Forall (fun x => later m x = false) (e :: l).
Proof.
  revert e. induction l as [|x l IH]; intros e m r He; simpl in He.
  - injection He as <- <-. split; [done|]. repeat constructor. apply later_irrefl.
  - destruct (extract x l) as [m' r'] eqn:Hx. destruct (IH x m' r' Hx) as [Hperm Hmin].
    destruct (later e m') eqn:Hl; injection He as <- <-; rewrite Hperm.
    + split; [by rewrite Permutation_swap|]. constructor; [by apply later_total|]. by rewrite <- Hperm.
    + split; [done|]. constructor; [apply later_irrefl|]. rewrite <- Hperm.
      apply (Forall_impl _ _ _ Hmin). intros y Hy. by apply (later_trans e m' y).
Qed.

#[export] Instance list_queue_laws : PrioQueueLaws list_queue.
Proof.
  split; simpl.
  - done.
  - intros e q. by rewrite Permutation_app_comm.
  - intros [|e l]; simpl; split; done.
  - intros [|e l] m r [= He]. by apply extract_spec.
Qed.
End Later.
