(* ===== verification/WriteQueue.v ===== *)
(** * write_queue.cc: queues of writes, one per file descriptor

    [FDWriteQueue] orders the pending writes of a descriptor, [WriteQueueManager]
    holds a queue per descriptor.  The latency average of the statistics is not
    modelled.  [history] records, oldest first, what became of the operations
    that left a queue; [callback_of] is the callback each got. *)
From stdpp Require Import sorting.
From S2P Require Import Prelude Errno PrioQueue.
From Stdlib Require Import Sorting.Sorted.

(** ** Operations *)

Inductive WriteOperationPriority : Set := URGENT | HIGH | NORMAL | LOW.
Definition priority_level (p : WriteOperationPriority) : Z :=
  match p with URGENT => 0 | HIGH => 1 | NORMAL => 2 | LOW => 3 end.

(** [w_completion] and [w_error] say whether the operation has the callback. *)
Record WriteOperation := {
  w_fd : Z; w_offset : Z; w_size : Z; w_buffer : list Z;
  w_priority : WriteOperationPriority; w_timestamp : Z;
  w_completion : bool; w_error : bool; w_id : Z;
}.
Definition set_id (id : Z) (op : WriteOperation) : WriteOperation :=
  {| w_fd := w_fd op; w_offset := w_offset op; w_size := w_size op; w_buffer := w_buffer op;
     w_priority := w_priority op; w_timestamp := w_timestamp op;
     w_completion := w_completion op; w_error := w_error op; w_id := id |}.

Definition op_level (op : WriteOperation) : Z := priority_level (w_priority op).
(** Higher priority first, then the older one. *)
Definition ComparePriority : WriteOperation -> WriteOperation -> bool := later op_level w_timestamp.

Record WriteQueueStats := {
  total_operations : Z; completed_operations : Z; failed_operations : Z;
  bytes_written : Z; queue_size : Z; max_queue_size : Z;
}.
Definition zero_stats : WriteQueueStats :=
  {| total_operations := 0; completed_operations := 0; failed_operations := 0;
     bytes_written := 0; queue_size := 0; max_queue_size := 0 |}.

Inductive ending :=
  | Executed (op : WriteOperation) (result : Z)
  | CancelledOp (op : WriteOperation) (code : Z).
Definition ending_op (e : ending) : WriteOperation :=
  match e with Executed op _ => op | CancelledOp op _ => op end.

Inductive callback := Completion (id result : Z) | ErrorCallback (id code : Z).
(** An executed operation completes with its result, whatever it is; only
    without a completion callback is a failure reported as an error. *)
Definition callback_of (e : ending) : option callback :=
  match e with
  | Executed op result =>
      if w_completion op then Some (Completion (w_id op) result)
      else if negb (0 <=? result) && w_error op then Some (ErrorCallback (w_id op) result)
      else None
  | CancelledOp op code => if w_error op then Some (ErrorCallback (w_id op) code) else None
  end.

Section Queue.
Context `{PQ : !PrioQueue WriteOperation ComparePriority}.

(** ** One queue *)

Record FDWriteQueue := {
  fd_ : Z;
  max_queue_size_ : Z;
  next_operation_id_ : Z;
  priority_ordering_enabled_ : bool;
  operation_queue_ : pq ComparePriority;
  stats_ : WriteQueueStats;
  history : list ending;
}.
Definition new_queue (fd max_size : Z) : FDWriteQueue :=
  {| fd_ := fd; max_queue_size_ := max_size; next_operation_id_ := 1;
     priority_ordering_enabled_ := true; operation_queue_ := pq_empty; stats_ := zero_stats;
     history := [] |}.
Definition update (ops : pq ComparePriority) (st : WriteQueueStats) (h : list ending)
    (q : FDWriteQueue) : FDWriteQueue :=
  {| fd_ := fd_ q; max_queue_size_ := max_queue_size_ q; next_operation_id_ := next_operation_id_ q;
     priority_ordering_enabled_ := priority_ordering_enabled_ q; operation_queue_ := ops;
     stats_ := st; history := h |}.

(** A full queue refuses the operation with 0; 0 means an unlimited queue. *)
Definition Enqueue (operation : option WriteOperation) (q : FDWriteQueue) : Z * FDWriteQueue :=
  match operation with
  | None => (0, q)
  | Some operation =>
      if (0 <? max_queue_size_ q) && (max_queue_size_ q <=? pq_size (operation_queue_ q)) then (0, q)
      else
        let operation_id := next_operation_id_ q in
        let ops := pq_push (set_id operation_id operation) (operation_queue_ q) in
        let st := stats_ q in
        (operation_id,
         {| fd_ := fd_ q; max_queue_size_ := max_queue_size_ q;
            next_operation_id_ := u64 (operation_id + 1);
            priority_ordering_enabled_ := priority_ordering_enabled_ q;
            operation_queue_ := ops;
            stats_ := {| total_operations := u64 (total_operations st + 1);
                         completed_operations := completed_operations st;
                         failed_operations := failed_operations st;
                         bytes_written := bytes_written st;
                         queue_size := pq_size ops;
                         max_queue_size := Z.max (max_queue_size st) (pq_size ops) |};
            history := history q |})
  end.

Definition set_queue_size (n : Z) (st : WriteQueueStats) : WriteQueueStats :=
  {| total_operations := total_operations st; completed_operations := completed_operations st;
     failed_operations := failed_operations st; bytes_written := bytes_written st;
     queue_size := n; max_queue_size := max_queue_size st |}.

(** The locked part of a round of [ProcessQueue]: it takes the next operation. *)
Definition take_next (q : FDWriteQueue) : option (WriteOperation * FDWriteQueue) :=
  match pq_pop (operation_queue_ q) with
  | None => None
  | Some (op, ops) =>
      Some (op, update ops (set_queue_size (pq_size ops) (stats_ q)) (history q) q)
  end.

Definition UpdateStats (op : WriteOperation) (success : bool) (st : WriteQueueStats) : WriteQueueStats :=
  {| total_operations := total_operations st;
     completed_operations := if success then u64 (completed_operations st + 1) else completed_operations st;
     failed_operations := if success then failed_operations st else u64 (failed_operations st + 1);
     bytes_written := if success then u64 (bytes_written st + w_size op) else bytes_written st;
     queue_size := queue_size st; max_queue_size := max_queue_size st |}.

(** The rest of the round, after the executor gave [result]. *)
Definition finish (op : WriteOperation) (result : Z) (q : FDWriteQueue) : FDWriteQueue :=
  update (operation_queue_ q) (UpdateStats op (0 <=? result) (stats_ q))
    (history q ++ [Executed op result]) q.

(** Runs until the queue is empty.  Every round removes an operation, so the
    number of queued operations is enough fuel. *)
Fixpoint process_rounds (fuel : nat) (executor : WriteOperation -> Z) (processed : Z)
    (q : FDWriteQueue) : Z * FDWriteQueue :=
  match take_next q with
  | None => (processed, q)
  | Some (op, q') =>
      match fuel with
      | O => (processed, q)
      | S fuel' => process_rounds fuel' executor (processed + 1) (finish op (executor op) q')
      end
  end.
Definition ProcessQueue (executor : option (WriteOperation -> Z)) (q : FDWriteQueue)
    : Z * FDWriteQueue :=
  match executor with
  | None => (0, q)
  | Some f => process_rounds (length (pq_elems (operation_queue_ q))) f 0 q
  end.

Definition IsEmpty (q : FDWriteQueue) : bool := pq_size (operation_queue_ q) =? 0.
Definition GetQueueSize (q : FDWriteQueue) : Z := pq_size (operation_queue_ q).

(** [polls] are the states of the queue at the polls that fall before the
    deadline; [Flush] itself processes nothing. *)
Definition Flush (polls : list FDWriteQueue) : bool := existsb IsEmpty polls.

Fixpoint cancel_rounds (fuel : nat) (error_code : Z) (q : FDWriteQueue) : FDWriteQueue :=
  match pq_pop (operation_queue_ q), fuel with
  | Some (op, ops), S fuel' =>
      let st := stats_ q in
      cancel_rounds fuel' error_code
        (update ops {| total_operations := total_operations st;
                       completed_operations := completed_operations st;
                       failed_operations := u64 (failed_operations st + 1);
                       bytes_written := bytes_written st; queue_size := queue_size st;
                       max_queue_size := max_queue_size st |}
           (history q ++ [CancelledOp op error_code]) q)
  | _, _ => update (operation_queue_ q) (set_queue_size 0 (stats_ q)) (history q) q
  end.
Definition CancelAll (error_code : Z) (q : FDWriteQueue) : FDWriteQueue :=
  cancel_rounds (length (pq_elems (operation_queue_ q))) error_code q.

Definition GetStats (q : FDWriteQueue) : WriteQueueStats := stats_ q.
Definition ResetStats (q : FDWriteQueue) : FDWriteQueue :=
  update (operation_queue_ q) zero_stats (history q) q.
Definition SetMaxQueueSize (max_size : Z) (q : FDWriteQueue) : FDWriteQueue :=
  {| fd_ := fd_ q; max_queue_size_ := max_size; next_operation_id_ := next_operation_id_ q;
     priority_ordering_enabled_ := priority_ordering_enabled_ q; operation_queue_ := operation_queue_ q;
     stats_ := stats_ q; history := history q |}.
Definition SetPriorityOrdering (enable : bool) (q : FDWriteQueue) : FDWriteQueue :=
  {| fd_ := fd_ q; max_queue_size_ := max_queue_size_ q; next_operation_id_ := next_operation_id_ q;
     priority_ordering_enabled_ := enable; operation_queue_ := operation_queue_ q;
     stats_ := stats_ q; history := history q |}.

(** ** The manager *)

Record WriteQueueManager := { default_max_queue_size_ : Z; fd_queues_ : gmap Z FDWriteQueue }.
Definition new_manager (default_max : Z) : WriteQueueManager :=
  {| default_max_queue_size_ := default_max; fd_queues_ := ∅ |}.
Definition set_queues (m : gmap Z FDWriteQueue) (w : WriteQueueManager) : WriteQueueManager :=
  {| default_max_queue_size_ := default_max_queue_size_ w; fd_queues_ := m |}.

(** The queue of [fd], made when there is none. *)
Definition GetQueue (fd : Z) (w : WriteQueueManager) : FDWriteQueue * WriteQueueManager :=
  match fd_queues_ w !! fd with
  | Some q => (q, w)
  | None => let q := new_queue fd (default_max_queue_size_ w) in
            (q, set_queues (<[fd := q]> (fd_queues_ w)) w)
  end.

Definition EnqueueWrite (fd : Z) (operation : option WriteOperation) (w : WriteQueueManager)
    : Z * WriteQueueManager :=
  match operation with
  | None => (0, w)
  | Some _ =>
      let '(q, w) := GetQueue fd w in
      let '(operation_id, q) := Enqueue operation q in
      (operation_id, set_queues (<[fd := q]> (fd_queues_ w)) w)
  end.

(** The queue is taken out of the map, flushed and destroyed, which cancels
    what is left in it.  [polls] are the states the flush sees. *)
Definition RemoveQueue (fd : Z) (polls : list FDWriteQueue) (w : WriteQueueManager)
    : bool * option FDWriteQueue * WriteQueueManager :=
  match fd_queues_ w !! fd with
  | None => (true, None, w)
  | Some q => (Flush polls, Some (CancelAll (- ECANCELED) (default q (last polls))),
               set_queues (delete fd (fd_queues_ w)) w)
  end.

Definition ProcessAllQueues (executor : option (WriteOperation -> Z)) (w : WriteQueueManager)
    : Z * WriteQueueManager :=
  match executor with
  | None => (0, w)
  | Some _ =>
      (sumZ (fun kq => (ProcessQueue executor kq.2).1) (map_to_list (fd_queues_ w)),
       set_queues ((fun q => (ProcessQueue executor q).2) <$> fd_queues_ w) w)
  end.

Definition FlushFD (fd : Z) (polls : list FDWriteQueue) (w : WriteQueueManager)
    : bool * WriteQueueManager :=
  let '(_, w) := GetQueue fd w in (Flush polls, w).
(** [polls] gives the polled states of each queue; every queue is flushed. *)
Definition FlushAll (polls : Z -> list FDWriteQueue) (w : WriteQueueManager) : bool :=
  forallb (fun kq => Flush (polls kq.1)) (map_to_list (fd_queues_ w)).
Definition manager_CancelAll (error_code : Z) (w : WriteQueueManager) : WriteQueueManager :=
  set_queues (CancelAll error_code <$> fd_queues_ w) w.
Definition GetActiveFDs (w : WriteQueueManager) : list Z := map fst (map_to_list (fd_queues_ w)).
Definition add_stats (a : WriteQueueStats) (kq : Z * FDWriteQueue) : WriteQueueStats :=
  let st := GetStats kq.2 in
  {| total_operations := u64 (total_operations a + total_operations st);
     completed_operations := u64 (completed_operations a + completed_operations st);
     failed_operations := u64 (failed_operations a + failed_operations st);
     bytes_written := u64 (bytes_written a + bytes_written st);
     queue_size := u64 (queue_size a + queue_size st);
     max_queue_size := Z.max (max_queue_size a) (max_queue_size st) |}.
Definition GetAggregateStats (w : WriteQueueManager) : WriteQueueStats :=
  foldl add_stats zero_stats (map_to_list (fd_queues_ w)).
Definition GetFDStats (fd : Z) (w : WriteQueueManager) : option WriteQueueStats :=
  GetStats <$> fd_queues_ w !! fd.
Definition ResetAllStats (w : WriteQueueManager) : WriteQueueManager :=
  set_queues (ResetStats <$> fd_queues_ w) w.
Definition SetDefaultMaxQueueSize (max_size : Z) (w : WriteQueueManager) : WriteQueueManager :=
  {| default_max_queue_size_ := max_size; fd_queues_ := fd_queues_ w |}.
Definition SetFDMaxQueueSize (fd max_size : Z) (w : WriteQueueManager) : WriteQueueManager :=
  let '(q, w) := GetQueue fd w in
  set_queues (<[fd := SetMaxQueueSize max_size q]> (fd_queues_ w)) w.
(** ** Concurrent use

    The producers, the threads inside [ProcessQueue] and the cancellations
    interleave at the critical sections; [running] holds the operations taken
    by a worker that has not finished them.  Ids stay below [2^64]. *)

Record wstate := { queue : FDWriteQueue; running : list WriteOperation }.

Inductive wstep : wstate -> wstate -> Prop :=
  | step_enqueue op q r id q' :
      next_operation_id_ q + 1 < 2 ^ 64 -> Enqueue (Some op) q = (id, q') ->
      wstep {| queue := q; running := r |} {| queue := q'; running := r |}
  | step_take q r op q' :
      take_next q = Some (op, q') ->
      wstep {| queue := q; running := r |} {| queue := q'; running := op :: r |}
  | step_finish q r1 op r2 result :
      wstep {| queue := q; running := r1 ++ op :: r2 |}
            {| queue := finish op result q; running := r1 ++ r2 |}
  | step_cancel q r code :
      wstep {| queue := q; running := r |} {| queue := CancelAll code q; running := r |}
  | step_max q r n :
      wstep {| queue := q; running := r |} {| queue := SetMaxQueueSize n q; running := r |}
  | step_priority q r b :
      wstep {| queue := q; running := r |} {| queue := SetPriorityOrdering b q; running := r |}.

(** Every operation a queue has accepted, by where it is. *)
Definition known_ops (s : wstate) : list WriteOperation :=
  pq_elems (operation_queue_ (queue s)) ++ running s ++ map ending_op (history (queue s)).

Definition ids_ok (s : wstate) : Prop :=
  1 <= next_operation_id_ (queue s) < 2 ^ 64 /\
  map w_id (known_ops s) ≡ₚ seqZ 1 (next_operation_id_ (queue s) - 1).

(** The counters, modulo their width. *)
Definition stats_ok (s : wstate) : Prop :=
  let st := stats_ (queue s) in
  queue_size st = pq_size (operation_queue_ (queue s)) /\
  eq_mod 64 (total_operations st)
    (completed_operations st + failed_operations st + queue_size st + lenZ (running s)).

Section Laws.
Context `{L : !PrioQueueLaws PQ}.

Lemma take_next_spec q op q' : take_next q = Some (op, q') ->
  pq_elems (operation_queue_ q) ≡ₚ op :: pq_elems (operation_queue_ q') /\
  history q' = history q /\ next_operation_id_ q' = next_operation_id_ q /\
  stats_ q' = set_queue_size (pq_size (operation_queue_ q')) (stats_ q).
Proof.
  unfold take_next. destruct (pq_pop (operation_queue_ q)) as [[o ops]|] eqn:Hp; [|done].
  intros [= <- <-]. apply pq_pop_Some in Hp as [Hp _]. done.
Qed.

Lemma cancel_rounds_spec code fuel q :
  (length (pq_elems (operation_queue_ q)) <= fuel)%nat ->
  let q' := cancel_rounds fuel code q in
  pq_elems (operation_queue_ q') = [] /\
  (exists ops, ops ≡ₚ pq_elems (operation_queue_ q) /\
     history q' = history q ++ map (fun op => CancelledOp op code) ops) /\
  next_operation_id_ q' = next_operation_id_ q /\
  queue_size (stats_ q') = 0 /\ total_operations (stats_ q') = total_operations (stats_ q) /\
  completed_operations (stats_ q') = completed_operations (stats_ q) /\
  eq_mod 64 (failed_operations (stats_ q')) (failed_operations (stats_ q) + pq_size (operation_queue_ q)).
Proof.
  revert q. induction fuel as [|fuel IH]; intros q Hf q'; unfold q'; cbn [cancel_rounds].
  all: destruct (pq_pop (operation_queue_ q)) as [[op ops]|] eqn:Hp.
  1: pose proof (pq_pop_size _ _ _ Hp); lia.
  2: { pose proof (pq_pop_size _ _ _ Hp) as Hsz. apply pq_pop_Some in Hp as [Hp _].
    match goal with |- context [cancel_rounds fuel code ?x] =>
      specialize (IH x ltac:(simpl; lia)); destruct IH as (He & (l & Hl & Hh) & Hn & Hqs & Ht & Hc & Hfl) end.
    simpl in *. split_and!; try done.
    - exists (op :: l). split; [by rewrite Hl, Hp|]. rewrite Hh, <- app_assoc. done.
    - destruct Hfl as [k ->], (wrapu_eq_mod 64 (failed_operations (stats_ q) + 1)) as [k' ->]; [lia|].
      unfold pq_size. rewrite Hp, lenZ_cons. exists (k + k'). lia. }
  all: apply pq_pop_None in Hp; unfold pq_size; simpl; rewrite Hp; split_and!; try done.
  all: try (exists []; split; [done|by rewrite app_nil_r]); exists 0; rewrite lenZ_nil; lia.
Qed.

Lemma wstep_ids s s' : wstep s s' -> ids_ok s -> ids_ok s'.
Proof.
  intros Hst [Hn Hids]. unfold ids_ok, known_ops in *.
  destruct Hst as [op q r id q' Hw He|q r op q' Ht|q r1 op r2 result|q r code|q r n|q r b]; simpl in *.
  - unfold Enqueue in He. destruct (_ && _); injection He as <- <-; [done|]. simpl.
    rewrite (wrapu_small 64 (next_operation_id_ q + 1)) by (unfold in_u; lia). split; [lia|].
    rewrite pq_elems_push. simpl. rewrite Hids. change (w_id (set_id _ _)) with (next_operation_id_ q).
    replace (next_operation_id_ q + 1 - 1) with ((next_operation_id_ q - 1) + 1) by lia.
    rewrite seqZ_app by lia. rewrite Permutation_app_comm. simpl. f_equiv.
    replace (1 + (next_operation_id_ q - 1)) with (next_operation_id_ q) by lia. done.
  - apply take_next_spec in Ht as (Hp & Hh & Hni & _). rewrite Hh, Hni. split; [done|].
    rewrite <- Hids. apply Permutation_map. rewrite Hp. simpl. by rewrite <- Permutation_middle.
  - split; [done|]. rewrite <- Hids. apply Permutation_map. rewrite map_app. simpl.
    apply Permutation_app_head. rewrite (Permutation_app_comm _ [op]), <- !app_assoc. simpl.
    apply Permutation_app_head. by rewrite <- Permutation_middle.
  - destruct (cancel_rounds_spec code (length (pq_elems (operation_queue_ q))) q) as
      (He & (l & Hl & Hh) & Hni & _); [done|]. unfold CancelAll. rewrite He, Hh, Hni. split; [done|].
    rewrite <- Hids. apply Permutation_map. rewrite map_app, map_map. simpl. rewrite map_id, Hl.
    rewrite app_assoc. apply Permutation_app_comm.
  - done.
  - done.
Qed.

Lemma wstep_stats s s' : wstep s s' -> stats_ok s -> stats_ok s'.
Proof.
  intros Hst [Hq Ht]. unfold stats_ok in *.
  destruct Hst as [op q r id q' Hw He|q r op q' Htk|q r1 op r2 result|q r code|q r n|q r b]; simpl in *.
  - unfold Enqueue in He. destruct (_ && _); injection He as <- <-; [done|]. simpl. split; [done|].
    destruct Ht as [k Ht], (wrapu_eq_mod 64 (total_operations (stats_ q) + 1)) as [k' ->]; [lia|].
    exists (k + k'). rewrite Ht, Hq. unfold pq_size. rewrite pq_elems_push, lenZ_cons. lia.
  - apply take_next_spec in Htk as (Hp & Hh & Hni & ->). simpl. split; [done|].
    destruct Ht as [k ->]. exists k. rewrite Hq. unfold pq_size. rewrite Hp, !lenZ_cons. lia.
  - split; [done|]. destruct Ht as [k ->]. rewrite !lenZ_app, lenZ_cons.
    destruct (0 <=? result); simpl.
    + destruct (wrapu_eq_mod 64 (completed_operations (stats_ q) + 1)) as [k' ->]; [lia|].
      exists (k - k'). lia.
    + destruct (wrapu_eq_mod 64 (failed_operations (stats_ q) + 1)) as [k' ->]; [lia|].
      exists (k - k'). lia.
  - destruct (cancel_rounds_spec code (length (pq_elems (operation_queue_ q))) q) as
      (He & _ & _ & Hqs & Htot & Hcomp & [k' Hfail]); [done|]. unfold CancelAll.
    rewrite Hqs, Htot, Hcomp, Hfail. unfold pq_size at 1. rewrite He. split; [done|].
    destruct Ht as [k ->]. exists (k - k'). rewrite Hq. lia.
  - done.
  - done.
Qed.

Lemma process_rounds_spec f fuel n q :
  (length (pq_elems (operation_queue_ q)) <= fuel)%nat ->
  let '(n', q') := process_rounds fuel f n q in
  n' = n + pq_size (operation_queue_ q) /\ pq_elems (operation_queue_ q') = [] /\
  history q' = history q ++ map (fun op => Executed op (f op)) (pq_drain fuel (operation_queue_ q)).
Proof.
  revert n q. induction fuel as [|fuel IH]; intros n q Hf; cbn [process_rounds pq_drain].
  all: unfold take_next; destruct (pq_pop (operation_queue_ q)) as [[op ops]|] eqn:Hp.
  1: pose proof (pq_pop_size _ _ _ Hp); lia.
  2: { pose proof (pq_pop_size _ _ _ Hp) as Hsz.
    match goal with |- context [process_rounds fuel f (n + 1) ?x] =>
      specialize (IH (n + 1) x ltac:(simpl; lia)); destruct (process_rounds fuel f (n + 1) x) as [n' q'] end.
    destruct IH as (Hn & He & Hh). simpl in *. split_and!; [|done|].
    - rewrite Hn. unfold pq_size, lenZ. rewrite Hsz. lia.
    - by rewrite Hh, <- app_assoc. }
  all: apply pq_pop_None in Hp; unfold pq_size; rewrite Hp; split_and!; try done.
  all: unfold lenZ; simpl; rewrite ?app_nil_r; lia || done.
Qed.

(** Enqueues operations in turn; none is refused when the queue is unlimited. *)
Fixpoint enqueue_all (ops : list WriteOperation) (q : FDWriteQueue) : FDWriteQueue :=
  match ops with [] => q | op :: ops => enqueue_all ops (Enqueue (Some op) q).2 end.

Lemma enqueue_all_elems ops q :
  max_queue_size_ q = 0 ->
  exists ids, length ids = length ops /\
    pq_elems (operation_queue_ (enqueue_all ops q)) ≡ₚ
      pq_elems (operation_queue_ q) ++ zip_with set_id ids ops /\
    history (enqueue_all ops q) = history q.
Proof.
  revert q. induction ops as [|op ops IH]; intros q Hq.
  { exists []. simpl. by rewrite app_nil_r. }
  cbn [enqueue_all]. unfold Enqueue. rewrite Hq. cbn [Z.ltb Z.compare andb snd].
  match goal with |- context [enqueue_all ops ?x] => destruct (IH x eq_refl) as (ids & Hl & He & Hh) end.
  exists (next_operation_id_ q :: ids). split; [simpl; lia|]. split; [|done].
  rewrite He. simpl. rewrite pq_elems_push. simpl. by rewrite Permutation_middle.
Qed.
End Laws.
End Queue.

(** Giving ids changes neither priorities nor ages. *)
Lemma zip_ids_sorted prio ids ops :
  Forall (fun op => w_priority op = prio) ops ->
  StronglySorted (fun a b => w_timestamp a < w_timestamp b) ops ->
  Forall (fun op => w_priority op = prio) (zip_with set_id ids ops) /\
  StronglySorted (fun a b => w_timestamp a < w_timestamp b) (zip_with set_id ids ops).
Proof.
  intros Hprio Hts. revert ids Hprio.
  induction Hts as [|op ops Hs IH Hlt]; intros [|id ids] Hprio; try (split; by constructor).
  apply Forall_cons in Hprio as [Hop Hprio]. destruct (IH ids Hprio) as [Hp Ht].
  split; simpl; constructor; try done.
  clear -Hlt. revert ids. induction Hlt as [|op' ops Hop Hlt IH]; intros [|id' ids]; constructor; [done|].
  apply IH.
Qed.

(** The list implementation, for concrete runs. *)
Definition write_queue_impl : PrioQueue WriteOperation ComparePriority := list_queue op_level w_timestamp.
Definition demo_write (offset time : Z) : WriteOperation :=
  {| w_fd := 3; w_offset := offset; w_size := 8; w_buffer := []; w_priority := NORMAL;
     w_timestamp := time; w_completion := true; w_error := false; w_id := 0 |}.




(** The statistics account for every accepted operation: what was
    accepted is what completed, failed, is queued and is being executed
    (modulo [2^64]), and [queue_size] is the length of the queue. *)
Theorem write_stats_account `{PQ : !PrioQueue WriteOperation ComparePriority, !PrioQueueLaws PQ}
    fd max s :
  rtc wstep {| queue := new_queue fd max; running := [] |} s ->
  let st := stats_ (queue s) in
  queue_size st = GetQueueSize (queue s) /\
  u64 (total_operations st) =
    u64 (completed_operations st + failed_operations st + queue_size st + lenZ (running s)).
Proof.
  intros Hs. assert (stats_ok s) as [Hq Ht].
  { refine (rtc_ind_r stats_ok _ _ _ s Hs); [|intros x y _; apply wstep_stats].
    unfold stats_ok, pq_size. simpl. rewrite pq_elems_empty. split; [done|]. by exists 0. }
  split; [done|]. by apply eq_mod_wrapu.
Qed.

Lemma write_stats_account_witness :
  let s : wstate (PQ := write_queue_impl) :=
    {| queue := (Enqueue (Some (demo_write 0 5)) (new_queue 3 2)).2; running := [] |} in
  queue_size (stats_ (queue s)) = 1 /\ u64 (total_operations (stats_ (queue s))) = u64 (0 + 0 + 1 + 0).
Proof.
  apply (write_stats_account (PQ := write_queue_impl) 3 2
           {| queue := (Enqueue (Some (demo_write 0 5)) (new_queue 3 2)).2; running := [] |}).
  eapply rtc_l; [eapply (step_enqueue (demo_write 0 5)); reflexivity|apply rtc_refl].
Defined.





(** Writes of one priority, made at increasing times, are executed in
    the order they were enqueued, whatever ties the priority queue would break
    otherwise. *)
Theorem equal_priority_is_fifo `{PQ : !PrioQueue WriteOperation ComparePriority, !PrioQueueLaws PQ}
    executor ops fd prio :
  Forall (fun op => w_priority op = prio) ops ->
  StronglySorted (fun a b => w_timestamp a < w_timestamp b) ops ->
  exists ids, length ids = length ops /\
    history (ProcessQueue (Some executor) (enqueue_all ops (new_queue fd 0))).2 =
      map (fun op => Executed op (executor op)) (zip_with set_id ids ops).
Proof.
  intros Hprio Hts.
  destruct (enqueue_all_elems ops (new_queue fd 0) eq_refl) as (ids & Hlen & Hel & Hh).
  exists ids. split; [done|].
  set (q := enqueue_all ops (new_queue fd 0)) in *.
  pose proof (process_rounds_spec executor (length (pq_elems (operation_queue_ q))) 0 q ltac:(lia)) as Hp.
  unfold ProcessQueue. destruct (process_rounds _ executor 0 q) as [n q']. destruct Hp as (_ & _ & Hq').
  simpl. rewrite Hq', Hh. cbn [history new_queue app]. f_equal.
  cbn [operation_queue_ new_queue] in Hel. rewrite pq_elems_empty in Hel. cbn [app] in Hel.
  set (target := zip_with set_id ids ops) in *.
  assert (Forall (fun op => w_priority op = prio) target /\
          StronglySorted (fun a b => w_timestamp a < w_timestamp b) target) as [Htp Htt].
  { by apply zip_ids_sorted. }
  apply (StronglySorted_unique_strong (fun a b => ComparePriority a b = false)).
  - intros a b Ha Hb Hab Hba.
    assert (a ∈ target) as Ha' by (rewrite <- Hel, <- (pq_drain_perm (length (pq_elems (operation_queue_ q)))); done).
    apply later_false in Hab, Hba. unfold op_level in *.
    rewrite Forall_forall in Htp. rewrite (Htp a Ha'), (Htp b Hb) in *.
    assert (w_timestamp a = w_timestamp b) as Heq by lia.
    clear -Htt Ha' Hb Heq. revert Ha' Hb. induction Htt as [|x l Hs IH Hlt]; [set_solver|].
    rewrite Forall_forall in Hlt. rewrite !elem_of_cons. intros [->|Ha] [->|Hb]; [done|..|auto].
    + specialize (Hlt b Hb). lia.
    + specialize (Hlt a Ha). lia.
  - by apply pq_drain_sorted.
  - clear -Htp Htt. induction Htt as [|x l Hs IH Hlt]; [constructor|]. inv Htp. constructor; [by apply IH|].
    rewrite Forall_forall in Hlt |- *. intros y Hy. apply later_false. unfold op_level.
    match goal with H : Forall _ l |- _ => rewrite Forall_forall in H; rewrite (H y Hy) end.
    specialize (Hlt y Hy). right. lia.
  - rewrite pq_drain_perm by done. exact Hel.
Qed.

Lemma equal_priority_is_fifo_witness :
  exists ids, length ids = 2%nat /\
    history (ProcessQueue (PQ := write_queue_impl) (Some w_size)
               (enqueue_all [demo_write 0 5; demo_write 8 6] (new_queue 3 0))).2 =
      map (fun op => Executed op (w_size op)) (zip_with set_id ids [demo_write 0 5; demo_write 8 6]).
Proof.
  apply (equal_priority_is_fifo (PQ := write_queue_impl) w_size [demo_write 0 5; demo_write 8 6] 3 NORMAL).
  - repeat constructor.
  - repeat constructor.
Defined.

