(* ===== verification/Dispatcher.v ===== *)
(** * tsfn_dispatcher.cc: from FUSE threads to the JavaScript thread

    A request is pushed on a priority queue, taken by a worker thread, posted
    to the JavaScript thread by a non-blocking call of its operation's
    thread-safe function, and run there.  The threads interleave at their
    critical sections ([dstep]).  [log] records, oldest first, what became of
    each request: its callback ran, or its error callback was called.  The
    latency average and the thread-safe functions themselves are not modelled;
    [handlers_] is the set of names that have one. *)
From S2P Require Import Prelude Errno PrioQueue.

Inductive CallbackPriority : Set := HIGH | NORMAL | LOW.
Definition priority_level (p : CallbackPriority) : Z :=
  match p with HIGH => 0 | NORMAL => 1 | LOW => 2 end.

Record PendingCallback := {
  operation_name : string; request_id : Z; priority : CallbackPriority; timestamp : Z;
}.
Definition ComparePriority : PendingCallback -> PendingCallback -> bool :=
  later (fun cb => priority_level (priority cb)) timestamp.

Record DispatcherStats := {
  total_dispatched : Z; total_completed : Z; total_errors : Z; queue_size : Z; max_queue_size : Z;
}.
Definition zero_stats : DispatcherStats :=
  {| total_dispatched := 0; total_completed := 0; total_errors := 0; queue_size := 0;
     max_queue_size := 0 |}.
Definition stats_queue (n : Z) (st : DispatcherStats) : DispatcherStats :=
  {| total_dispatched := total_dispatched st; total_completed := total_completed st;
     total_errors := total_errors st; queue_size := n; max_queue_size := max_queue_size st |}.

Inductive DispatcherState := UNINITIALIZED | INITIALIZING | RUNNING | SHUTTING_DOWN | SHUTDOWN.
#[export] Instance DispatcherState_eq_dec : EqDecision DispatcherState.
Proof. solve_decision. Defined.

Inductive fate := CallbackRan | ErrorCallback (code : Z).

Section Dispatcher.
Context `{PQ : !PrioQueue PendingCallback ComparePriority}.

(** The members of [TSFNDispatcher], then the requests that are between them:
    [unaccounted] counts the dispatching threads between their push and their
    increment of [inflight_], [in_worker] holds what worker threads have
    taken, [posted] what waits on the JavaScript thread. *)
Record dispatcher := {
  state_ : DispatcherState;
  max_queue_size_ : Z;
  worker_threads_ : Z;
  handlers_ : gset string;
  callback_queue_ : pq ComparePriority;
  next_request_id_ : Z;
  pending_requests_ : gmap Z PendingCallback;
  workers_running_ : bool;
  accepting_ : bool;
  inflight_ : Z;
  stats_ : DispatcherStats;
  priority_ordering_enabled_ : bool;
  unaccounted : Z;
  in_worker : list PendingCallback;
  posted : list PendingCallback;
  log : list (Z * fate);
}.

(** [TSFNDispatcher::TSFNDispatcher] *)
Definition new_dispatcher (max_size worker_threads : Z) : dispatcher :=
  {| state_ := UNINITIALIZED; max_queue_size_ := max_size;
     worker_threads_ := if worker_threads =? 0 then 1 else worker_threads;
     handlers_ := ∅; callback_queue_ := pq_empty; next_request_id_ := 1; pending_requests_ := ∅;
     workers_running_ := false; accepting_ := true; inflight_ := 0; stats_ := zero_stats;
     priority_ordering_enabled_ := true; unaccounted := 0; in_worker := []; posted := []; log := [] |}.

Definition set_flags (st : DispatcherState) (workers accepting : bool) (d : dispatcher) : dispatcher :=
  {| state_ := st; max_queue_size_ := max_queue_size_ d; worker_threads_ := worker_threads_ d;
     handlers_ := handlers_ d; callback_queue_ := callback_queue_ d;
     next_request_id_ := next_request_id_ d; pending_requests_ := pending_requests_ d;
     workers_running_ := workers; accepting_ := accepting; inflight_ := inflight_ d;
     stats_ := stats_ d; priority_ordering_enabled_ := priority_ordering_enabled_ d;
     unaccounted := unaccounted d; in_worker := in_worker d; posted := posted d; log := log d |}.
Definition set_next_id (n : Z) (d : dispatcher) : dispatcher :=
  {| state_ := state_ d; max_queue_size_ := max_queue_size_ d; worker_threads_ := worker_threads_ d;
     handlers_ := handlers_ d; callback_queue_ := callback_queue_ d; next_request_id_ := n;
     pending_requests_ := pending_requests_ d; workers_running_ := workers_running_ d;
     accepting_ := accepting_ d; inflight_ := inflight_ d; stats_ := stats_ d;
     priority_ordering_enabled_ := priority_ordering_enabled_ d;
     unaccounted := unaccounted d; in_worker := in_worker d; posted := posted d; log := log d |}.
Definition set_stats (st : DispatcherStats) (d : dispatcher) : dispatcher :=
  {| state_ := state_ d; max_queue_size_ := max_queue_size_ d; worker_threads_ := worker_threads_ d;
     handlers_ := handlers_ d; callback_queue_ := callback_queue_ d;
     next_request_id_ := next_request_id_ d; pending_requests_ := pending_requests_ d;
     workers_running_ := workers_running_ d; accepting_ := accepting_ d; inflight_ := inflight_ d;
     stats_ := st; priority_ordering_enabled_ := priority_ordering_enabled_ d;
     unaccounted := unaccounted d; in_worker := in_worker d; posted := posted d; log := log d |}.
Definition set_handlers (h : gset string) (d : dispatcher) : dispatcher :=
  {| state_ := state_ d; max_queue_size_ := max_queue_size_ d; worker_threads_ := worker_threads_ d;
     handlers_ := h; callback_queue_ := callback_queue_ d; next_request_id_ := next_request_id_ d;
     pending_requests_ := pending_requests_ d; workers_running_ := workers_running_ d;
     accepting_ := accepting_ d; inflight_ := inflight_ d; stats_ := stats_ d;
     priority_ordering_enabled_ := priority_ordering_enabled_ d;
     unaccounted := unaccounted d; in_worker := in_worker d; posted := posted d; log := log d |}.
(** The queue, the pending map and the in-flight count, with where the requests
    are and the log. *)
Definition set_requests (ops : pq ComparePriority) (pending : gmap Z PendingCallback) (inflight un : Z)
    (worker post : list PendingCallback) (l : list (Z * fate)) (d : dispatcher) : dispatcher :=
  {| state_ := state_ d; max_queue_size_ := max_queue_size_ d; worker_threads_ := worker_threads_ d;
     handlers_ := handlers_ d; callback_queue_ := ops; next_request_id_ := next_request_id_ d;
     pending_requests_ := pending; workers_running_ := workers_running_ d; accepting_ := accepting_ d;
     inflight_ := inflight; stats_ := stats_ d;
     priority_ordering_enabled_ := priority_ordering_enabled_ d; unaccounted := un;
     in_worker := worker; posted := post; log := l |}.

(** ** Lifecycle and configuration *)

(** [created] says whether the thread-safe function and the threads could be
    created. *)
Definition Initialize (created : bool) (d : dispatcher) : bool * dispatcher :=
  if decide (state_ d = UNINITIALIZED) then
    if created then (true, set_next_id 1 (set_stats zero_stats (set_flags RUNNING true true d)))
    else (false, set_flags UNINITIALIZED (workers_running_ d) (accepting_ d) d)
  else (false, d).
Definition IsReady (d : dispatcher) : bool :=
  bool_decide (state_ d = RUNNING) && workers_running_ d.
Definition RegisterHandler (created : bool) (name : string) (d : dispatcher) : bool * dispatcher :=
  if decide (state_ d = RUNNING) then
    if created then (true, set_handlers ({[name]} ∪ handlers_ d) d) else (false, d)
  else (false, d).
Definition UnregisterHandler (name : string) (d : dispatcher) : bool * dispatcher :=
  if decide (name ∈ handlers_ d) then (true, set_handlers (handlers_ d ∖ {[name]}) d) else (false, d).
Definition SetMaxQueueSize (n : Z) (d : dispatcher) : dispatcher :=
  {| state_ := state_ d; max_queue_size_ := n; worker_threads_ := worker_threads_ d;
     handlers_ := handlers_ d; callback_queue_ := callback_queue_ d;
     next_request_id_ := next_request_id_ d; pending_requests_ := pending_requests_ d;
     workers_running_ := workers_running_ d; accepting_ := accepting_ d; inflight_ := inflight_ d;
     stats_ := stats_ d; priority_ordering_enabled_ := priority_ordering_enabled_ d;
     unaccounted := unaccounted d; in_worker := in_worker d; posted := posted d; log := log d |}.
Definition SetPriorityOrdering (b : bool) (d : dispatcher) : dispatcher :=
  {| state_ := state_ d; max_queue_size_ := max_queue_size_ d; worker_threads_ := worker_threads_ d;
     handlers_ := handlers_ d; callback_queue_ := callback_queue_ d;
     next_request_id_ := next_request_id_ d; pending_requests_ := pending_requests_ d;
     workers_running_ := workers_running_ d; accepting_ := accepting_ d; inflight_ := inflight_ d;
     stats_ := stats_ d; priority_ordering_enabled_ := b;
     unaccounted := unaccounted d; in_worker := in_worker d; posted := posted d; log := log d |}.
Definition GetQueueSize (d : dispatcher) : Z := pq_size (callback_queue_ d).
Definition GetStats (d : dispatcher) : DispatcherStats := stats_ d.
Definition ResetStats (d : dispatcher) : dispatcher := set_stats zero_stats d.

(** ** Dispatching

    [DispatchCustom] up to the push.  A full queue refuses the request, whose
    id is used up; otherwise the thread still has to count it
    ([dispatch_account]). *)
Definition DispatchCustom (name : string) (prio : CallbackPriority) (now : Z) (d : dispatcher)
    : Z * dispatcher :=
  if bool_decide (state_ d = RUNNING) && accepting_ d then
    let id := next_request_id_ d in
    let d := set_next_id (u64 (id + 1)) d in
    let cb := {| operation_name := name; request_id := id; priority := prio; timestamp := now |} in
    if (0 <? max_queue_size_ d) && (max_queue_size_ d <=? pq_size (callback_queue_ d)) then
      (0, set_requests (callback_queue_ d) (delete id (<[id := cb]> (pending_requests_ d)))
            (inflight_ d) (unaccounted d) (in_worker d) (posted d) (log d) d)
    else
      let ops := pq_push cb (callback_queue_ d) in
      let st := stats_ d in
      (id, set_stats {| total_dispatched := total_dispatched st; total_completed := total_completed st;
                        total_errors := total_errors st; queue_size := pq_size ops;
                        max_queue_size := Z.max (max_queue_size st) (pq_size ops) |}
           (set_requests ops (<[id := cb]> (pending_requests_ d)) (inflight_ d) (unaccounted d + 1)
              (in_worker d) (posted d) (log d) d))
  else (0, d).
(** [Dispatch] also wants a handler. *)
Definition Dispatch (name : string) (prio : CallbackPriority) (now : Z) (d : dispatcher)
    : Z * dispatcher :=
  if decide (name ∈ handlers_ d) then DispatchCustom name prio now d else (0, d).

Definition set_inflight (n : Z) (d : dispatcher) : dispatcher :=
  set_requests (callback_queue_ d) (pending_requests_ d) n (unaccounted d) (in_worker d) (posted d)
    (log d) d.
Definition dispatch_account (d : dispatcher) : dispatcher :=
  set_requests (callback_queue_ d) (pending_requests_ d) (inflight_ d + 1) (unaccounted d - 1)
    (in_worker d) (posted d) (log d) d.
Definition DecInflight (d : dispatcher) : dispatcher := set_inflight (inflight_ d - 1) d.

(** [WorkerThreadMain]: a round of a worker, up to the call of
    [ProcessCallback]. *)
Definition worker_take (d : dispatcher) : option dispatcher :=
  if workers_running_ d then
    match pq_pop (callback_queue_ d) with
    | None => None
    | Some (cb, ops) =>
        Some (set_stats (stats_queue (pq_size ops) (stats_ d))
                (set_requests ops (pending_requests_ d) (inflight_ d) (unaccounted d)
                   (cb :: in_worker d) (posted d) (log d) d))
    end
  else None.

(** The error code it is given is ignored, and the request stays pending. *)
Definition HandleCallbackError (id : Z) (error_code : Z) (d : dispatcher) : dispatcher :=
  let st := stats_ d in
  let d := set_stats {| total_dispatched := total_dispatched st; total_completed := total_completed st;
                        total_errors := u64 (total_errors st + 1); queue_size := queue_size st;
                        max_queue_size := max_queue_size st |} d in
  match pending_requests_ d !! id with
  | None => d
  | Some _ => set_requests (callback_queue_ d) (pending_requests_ d) (inflight_ d) (unaccounted d)
                (in_worker d) (posted d) (log d ++ [(id, ErrorCallback (-5))]) d
  end.

Definition set_worker (w : list PendingCallback) (d : dispatcher) : dispatcher :=
  set_requests (callback_queue_ d) (pending_requests_ d) (inflight_ d) (unaccounted d) w (posted d)
    (log d) d.
Definition post (cb : PendingCallback) (d : dispatcher) : dispatcher :=
  set_requests (callback_queue_ d) (pending_requests_ d) (inflight_ d) (unaccounted d) (in_worker d)
    (posted d ++ [cb]) (log d) d.

(** [call_ok] is whether the non-blocking call was accepted. *)
Definition ProcessCallback (cb : PendingCallback) (call_ok : bool) (d : dispatcher) : dispatcher :=
  if negb (bool_decide (state_ d = RUNNING)) then DecInflight (HandleCallbackError (request_id cb) (-1) d)
  else if decide (operation_name cb ∈ handlers_ d) then
    if call_ok then post cb d else DecInflight (HandleCallbackError (request_id cb) (-5) d)
  else DecInflight (HandleCallbackError (request_id cb) (-38) d).

Definition UpdateStats (success : bool) (st : DispatcherStats) : DispatcherStats :=
  {| total_dispatched := u64 (total_dispatched st + 1);
     total_completed := if success then u64 (total_completed st + 1) else total_completed st;
     total_errors := total_errors st; queue_size := queue_size st; max_queue_size := max_queue_size st |}.

(** The lambda on the JavaScript thread; [throws] is whether the callback threw
    a C++ exception. *)
Definition js_call (cb : PendingCallback) (throws : bool) (d : dispatcher) : dispatcher :=
  let event := if throws then ErrorCallback (-5) else CallbackRan in
  let d := set_stats (UpdateStats (negb throws) (stats_ d)) d in
  DecInflight
    (set_requests (callback_queue_ d) (delete (request_id cb) (pending_requests_ d)) (inflight_ d)
       (unaccounted d) (in_worker d) (posted d) (log d ++ [(request_id cb, event)]) d).
Definition set_posted (p : list PendingCallback) (d : dispatcher) : dispatcher :=
  set_requests (callback_queue_ d) (pending_requests_ d) (inflight_ d) (unaccounted d) (in_worker d) p
    (log d) d.

(** ** Shutdown *)

(** The queue is emptied in order, then the pending map; every entry gets its
    error callback and lowers the count. *)
Definition cancel_all_callbacks (d : dispatcher) : dispatcher :=
  let queued := pq_drain (length (pq_elems (callback_queue_ d))) (callback_queue_ d) in
  let pending := map snd (map_to_list (pending_requests_ d)) in
  let fail (cb : PendingCallback) := (request_id cb, ErrorCallback (-5)) in
  set_stats (stats_queue 0 (stats_ d))
    (set_requests pq_empty ∅ (inflight_ d - lenZ queued - lenZ pending) (unaccounted d) (in_worker d)
       (posted d) (log d ++ map fail queued ++ map fail pending) d).

(** [Shutdown], once the workers have been joined: the thread-safe functions are
    aborted, so what was posted never runs. *)
Definition Shutdown (d : dispatcher) : bool * dispatcher :=
  if decide (state_ d = SHUTDOWN) then (true, d)
  else if decide (state_ d = UNINITIALIZED) then
    (true, set_flags SHUTDOWN (workers_running_ d) (accepting_ d) d)
  else
    let d := set_posted [] (set_flags SHUTTING_DOWN false false d) in
    let d := cancel_all_callbacks d in
    let d := if inflight_ d =? 0 then d else cancel_all_callbacks d in
    let d := set_handlers ∅ d in
    let d := set_requests pq_empty ∅ (inflight_ d) (unaccounted d) (in_worker d) (posted d) (log d) d in
    (true, set_flags SHUTDOWN (workers_running_ d) (accepting_ d) d).
(** Whether the bounded wait for [inflight_ = 0] was satisfied. *)
Definition shutdown_waits_in_vain (d : dispatcher) : bool :=
  negb (inflight_ (cancel_all_callbacks (set_posted [] (set_flags SHUTTING_DOWN false false d))) =? 0).

(** [polls] are the states at the polls before the deadline; a request is
    completed once an error was reported for it. *)
Definition WaitForCompletion (id : Z) (polls : list dispatcher) : bool :=
  existsb (fun d => match pending_requests_ d !! id with
                    | None => true
                    | Some _ => existsb (fun e => e.1 =? id) (log d)
                    end) polls.
Definition WaitForAllCompletion (polls : list dispatcher) : bool :=
  existsb (fun d => bool_decide (pending_requests_ d = ∅) && (pq_size (callback_queue_ d) =? 0)) polls.

(** ** The running dispatcher *)

Inductive dstep : dispatcher -> dispatcher -> Prop :=
  | d_dispatch name prio now d id d' :
      next_request_id_ d + 1 < 2 ^ 64 ->
      DispatchCustom name prio now d = (id, d') -> dstep d d'
  | d_account d : 0 < unaccounted d -> dstep d (dispatch_account d)
  | d_take d d' : worker_take d = Some d' -> dstep d d'
  | d_process d w1 cb w2 ok :
      in_worker d = w1 ++ cb :: w2 -> dstep d (ProcessCallback cb ok (set_worker (w1 ++ w2) d))
  | d_run d p1 cb p2 throws :
      posted d = p1 ++ cb :: p2 -> dstep d (js_call cb throws (set_posted (p1 ++ p2) d))
  | d_register d ok name : dstep d (RegisterHandler ok name d).2
  | d_unregister d name : dstep d (UnregisterHandler name d).2
  | d_max d n : dstep d (SetMaxQueueSize n d)
  | d_priority d b : dstep d (SetPriorityOrdering b d)
  | d_reset d : dstep d (ResetStats d).

(** ** The global dispatcher *)

Definition InitializeGlobalDispatcher (created : bool) (max_size workers : Z) (g : option dispatcher)
    : bool * option dispatcher :=
  match g with
  | Some _ => (false, g)
  | None => let '(ok, d) := Initialize created (new_dispatcher max_size workers) in
            if ok then (true, Some d) else (false, None)
  end.
Definition ShutdownGlobalDispatcher (g : option dispatcher) : bool * option dispatcher :=
  match g with None => (true, None) | Some d => ((Shutdown d).1, None) end.

(** ** Accounting *)

(** The requests on their way, and what the invariant says of them: each has
    its own id, none has been answered, each is in the pending map, and
    [inflight_] counts them up to the threads that still have to. *)
Definition requests (d : dispatcher) : list PendingCallback :=
  pq_elems (callback_queue_ d) ++ in_worker d ++ posted d.
Definition ids (d : dispatcher) : list Z := map request_id (requests d) ++ map fst (log d).
Record dispatcher_ok (d : dispatcher) : Prop := {
  ok_nodup : NoDup (ids d);
  ok_range : Forall (fun id => 1 <= id < next_request_id_ d) (ids d);
  ok_next : 1 <= next_request_id_ d < 2 ^ 64;
  ok_inflight : inflight_ d + unaccounted d = lenZ (requests d);
  ok_unaccounted : 0 <= unaccounted d;
  ok_pending : forall cb, cb ∈ requests d -> pending_requests_ d !! request_id cb = Some cb;
}.

Section Laws.
Context `{L : !PrioQueueLaws PQ}.

Lemma ok_move d d' :
  dispatcher_ok d -> requests d' ≡ₚ requests d -> log d' = log d ->
  next_request_id_ d' = next_request_id_ d -> pending_requests_ d' = pending_requests_ d ->
  inflight_ d' + unaccounted d' = inflight_ d + unaccounted d -> 0 <= unaccounted d' ->
  dispatcher_ok d'.
Proof.
  intros [Hnd Hr Hn Hi Hu Hp] Hreq Hlog Hnext Hpend Hcount Hun.
  assert (ids d' ≡ₚ ids d) as Hids by (unfold ids; by rewrite Hreq, Hlog).
  split.
  - by rewrite Hids.
  - rewrite Hids, Hnext. done.
  - by rewrite Hnext.
  - rewrite Hcount, Hreq. done.
  - done.
  - intros cb Hcb. rewrite Hreq in Hcb. rewrite Hpend. auto.
Qed.

Lemma ok_finish d d' cb f :
  dispatcher_ok d -> requests d ≡ₚ cb :: requests d' -> log d' = log d ++ [(request_id cb, f)] ->
  next_request_id_ d' = next_request_id_ d ->
  (pending_requests_ d' = pending_requests_ d \/
   pending_requests_ d' = delete (request_id cb) (pending_requests_ d)) ->
  inflight_ d' + unaccounted d' = inflight_ d + unaccounted d - 1 -> unaccounted d' = unaccounted d ->
  dispatcher_ok d'.
Proof.
  intros [Hnd Hr Hn Hi Hu Hp] Hreq Hlog Hnext Hpend Hcount Hun.
  assert (ids d' ≡ₚ ids d) as Hids.
  { unfold ids. rewrite Hreq, Hlog, map_app. simpl. rewrite app_assoc.
    by rewrite <- Permutation_cons_append. }
  split.
  - by rewrite Hids.
  - rewrite Hids, Hnext. done.
  - by rewrite Hnext.
  - rewrite Hcount, Hi, Hreq, lenZ_cons. lia.
  - lia.
  - intros cb' Hcb'. assert (pending_requests_ d !! request_id cb' = Some cb') as Hold.
    { apply Hp. rewrite Hreq. by right. }
    destruct Hpend as [->| ->]; [done|]. rewrite lookup_delete_ne; [done|]. intros Heq.
    unfold ids in Hnd. rewrite Hreq in Hnd. simpl in Hnd. apply NoDup_cons in Hnd as [Hnin _].
    apply Hnin, elem_of_app. left. rewrite Heq. apply list_elem_of_fmap_2. done.
Qed.

Lemma handle_error_log d id code cb :
  pending_requests_ d !! id = Some cb ->
  log (HandleCallbackError id code d) = log d ++ [(id, ErrorCallback (-5))] /\
  requests (HandleCallbackError id code d) = requests d /\
  next_request_id_ (HandleCallbackError id code d) = next_request_id_ d /\
  pending_requests_ (HandleCallbackError id code d) = pending_requests_ d /\
  inflight_ (HandleCallbackError id code d) = inflight_ d /\
  unaccounted (HandleCallbackError id code d) = unaccounted d.
Proof. intros Hp. unfold HandleCallbackError. simpl. by rewrite Hp. Qed.

Lemma process_error_ok d w1 cb w2 code :
  dispatcher_ok d -> in_worker d = w1 ++ cb :: w2 ->
  dispatcher_ok (DecInflight (HandleCallbackError (request_id cb) code (set_worker (w1 ++ w2) d))).
Proof.
  intros Hok Hw. assert (requests d ≡ₚ cb :: requests (set_worker (w1 ++ w2) d)) as Hreq.
  { unfold requests. simpl. rewrite Hw, <- !app_assoc. simpl.
    rewrite (app_assoc (pq_elems _)), (app_assoc (pq_elems _)). by rewrite <- Permutation_middle. }
  assert (pending_requests_ d !! request_id cb = Some cb) as Hp.
  { apply (ok_pending d Hok). rewrite Hreq. by left. }
  destruct (handle_error_log (set_worker (w1 ++ w2) d) (request_id cb) code cb Hp) as (Hl & Hr & Hn & Hpd & Hi & Hu).
  eapply (ok_finish d _ cb); [done| |exact Hl|exact Hn|by left|simpl; rewrite Hi, Hu; simpl; lia|exact Hu].
  rewrite Hreq. by apply Permutation_cons; [|rewrite <- Hr].
Qed.

Lemma dispatch_ok d name prio now id d' :
  dispatcher_ok d -> next_request_id_ d + 1 < 2 ^ 64 ->
  DispatchCustom name prio now d = (id, d') -> dispatcher_ok d'.
Proof.
  intros Hok Hn Hd. pose proof Hok as [Hnd Hr Hnx Hi Hu Hp]. unfold DispatchCustom in Hd.
  destruct (_ && accepting_ d); [|by injection Hd as <- <-]. simpl in Hd.
  rewrite (wrapu_small 64 (next_request_id_ d + 1)) in Hd by (unfold in_u; lia).
  assert (Forall (fun id => 1 <= id < next_request_id_ d + 1) (ids d)) as Hr'.
  { eapply Forall_impl; [exact Hr|]. simpl. lia. }
  assert (next_request_id_ d ∉ ids d) as Hfresh.
  { intros Hin. rewrite Forall_forall in Hr. specialize (Hr _ Hin). lia. }
  assert (forall cb, cb ∈ requests d -> request_id cb <> next_request_id_ d) as Hne.
  { intros cb Hcb Heq. apply Hfresh, elem_of_app. left. rewrite <- Heq. by apply list_elem_of_fmap_2. }
  destruct (_ && _); injection Hd as <- <-.
  - split; try done; simpl; [lia|]. intros cb Hcb. specialize (Hne cb Hcb).
    rewrite lookup_delete_ne, lookup_insert_ne by done. auto.
  - match goal with |- dispatcher_ok ?x => assert (requests x ≡ₚ
      {| operation_name := name; request_id := next_request_id_ d; priority := prio; timestamp := now |} ::
        requests d) as Hreq by (unfold requests; simpl; by rewrite pq_elems_push) end.
    split; simpl.
    + unfold ids. rewrite Hreq. simpl. by constructor.
    + unfold ids. rewrite Hreq. simpl. constructor; [lia|done].
    + lia.
    + rewrite Hreq, lenZ_cons. lia.
    + lia.
    + intros cb Hcb. rewrite Hreq in Hcb. apply elem_of_cons in Hcb as [->|Hcb]; simpl.
      * by rewrite lookup_insert_eq.
      * rewrite lookup_insert_ne by (apply not_eq_sym; auto). auto.
Qed.

Lemma dstep_ok d d' : dstep d d' -> dispatcher_ok d -> dispatcher_ok d'.
Proof.
  intros Hst Hok. destruct Hst as [name prio now d id d' Hn Hd|d Hu|d d' Ht|d w1 cb w2 ok Hw|d p1 cb p2 throws Hp
    |d ok name|d name|d n|d b|d].
  - by eapply dispatch_ok.
  - apply (ok_move d); try done; simpl; lia.
  - unfold worker_take in Ht. destruct (workers_running_ d); [|done].
    destruct (pq_pop (callback_queue_ d)) as [[cb ops]|] eqn:Hpop; [|done]. injection Ht as <-.
    apply pq_pop_Some in Hpop as [Hperm _].
    apply (ok_move d); try done; [|apply Hok]. unfold requests. simpl. rewrite Hperm. simpl.
    by rewrite <- Permutation_middle.
  - unfold ProcessCallback. destruct (negb _); [by apply process_error_ok|].
    destruct (decide _); [|by apply process_error_ok]. destruct ok; [|by apply process_error_ok].
    apply (ok_move d); try done; [|apply Hok]. unfold requests. simpl. rewrite Hw.
    rewrite <- !app_assoc. simpl. do 2 apply Permutation_app_head.
    rewrite app_assoc. rewrite (Permutation_app_comm _ [cb]). done.
  - eapply (ok_finish d _ cb); [done| |done|done|by right|simpl; lia|done].
    unfold requests. simpl. rewrite Hp. rewrite !app_assoc. by rewrite <- Permutation_middle.
  - unfold RegisterHandler. destruct (decide _), ok; done || (by apply (ok_move d); try done; apply Hok).
  - unfold UnregisterHandler. destruct (decide _); done || (by apply (ok_move d); try done; apply Hok).
  - by apply (ok_move d); try done; apply Hok.
  - by apply (ok_move d); try done; apply Hok.
  - by apply (ok_move d); try done; apply Hok.
Qed.
End Laws.
End Dispatcher.

(** ** Locks

    The mutexes a thread takes and gives back, in order.  A thread waits while
    another owns the mutex it wants next. *)
Inductive lock_op := Lock (m : string) | Unlock (m : string).
Record lock_state := { owner : string -> option nat; threads : nat -> list lock_op }.
Definition set_owner (m : string) (o : option nat) (f : string -> option nat) : string -> option nat :=
  fun m' => if String.eqb m m' then o else f m'.
Definition set_thread (i : nat) (l : list lock_op) (f : nat -> list lock_op) : nat -> list lock_op :=
  fun j => if Nat.eqb i j then l else f j.
Inductive lock_step : lock_state -> lock_state -> Prop :=
  | lock_free i m l s :
      threads s i = Lock m :: l -> owner s m = None ->
      lock_step s {| owner := set_owner m (Some i) (owner s); threads := set_thread i l (threads s) |}
  | unlock i m l s :
      threads s i = Unlock m :: l ->
      lock_step s {| owner := set_owner m None (owner s); threads := set_thread i l (threads s) |}.
Definition deadlocked (s : lock_state) : Prop :=
  (exists i, threads s i <> []) /\ forall s', ¬ lock_step s s'.

(** [DispatchCustom] on a full queue: the pending entry is made, then removed
    inside the critical section of the queue. *)
Definition dispatch_full_locks : list lock_op :=
  [Lock "pending_requests_mutex_"; Unlock "pending_requests_mutex_";
   Lock "queue_mutex_"; Lock "pending_requests_mutex_";
   Unlock "pending_requests_mutex_"; Unlock "queue_mutex_"].
(** A poll of [WaitForAllCompletion]. *)
Definition wait_all_locks : list lock_op :=
  [Lock "pending_requests_mutex_"; Lock "queue_mutex_";
   Unlock "queue_mutex_"; Unlock "pending_requests_mutex_"].

Definition two_threads (a b : list lock_op) : lock_state :=
  {| owner := fun _ => None; threads := fun i => match i with 0%nat => a | 1%nat => b | _ => [] end |}.

(** The list implementation, for concrete runs: a running dispatcher with a
    handler, and the same after a request. *)
Definition dispatch_queue_impl : PrioQueue PendingCallback ComparePriority :=
  list_queue (fun cb => priority_level (priority cb)) timestamp.
Definition demo_dispatcher : dispatcher (PQ := dispatch_queue_impl) :=
  (RegisterHandler true "unlink" (Initialize true (new_dispatcher 10 1)).2).2.
Definition demo_queued : dispatcher (PQ := dispatch_queue_impl) :=
  dispatch_account (DispatchCustom "unlink" NORMAL 5 demo_dispatcher).2.
Definition demo_callback : PendingCallback :=
  {| operation_name := "unlink"; request_id := 1; priority := NORMAL; timestamp := 5 |}.

Lemma demo_reachable : rtc dstep (Initialize true (new_dispatcher (PQ := dispatch_queue_impl) 10 1)).2 demo_queued.
Proof.
  eapply rtc_l; [apply (d_register _ true "unlink"%string)|].
  eapply rtc_l; [apply (d_dispatch "unlink"%string NORMAL 5 demo_dispatcher _ _ ltac:(done) (surjective_pairing _))|].
  apply rtc_once, d_account. vm_compute. done.
Qed.
Lemma demo_ok : dispatcher_ok demo_queued.
Proof.
  refine (rtc_ind_r dispatcher_ok _ _ _ _ demo_reachable); [|intros x y _; apply dstep_ok].
  split; unfold ids, requests; simpl; try done; try lia; try apply NoDup_nil_2. set_solver.
Qed.




(** [inflight_] counts the requests on their way (a dispatching
    thread that has pushed but not yet counted its request aside), and each of
    them is in the pending map. *)
Theorem inflight_counts_requests `{PQ : !PrioQueue PendingCallback ComparePriority, !PrioQueueLaws PQ}
    max workers d :
  rtc dstep (Initialize true (new_dispatcher max workers)).2 d ->
  inflight_ d + unaccounted d = lenZ (requests d) /\
  forall cb, cb ∈ requests d -> pending_requests_ d !! request_id cb = Some cb.
Proof.
  intros Hs. assert (dispatcher_ok d) as [_ _ _ Hi _ Hp]; [|done].
  refine (rtc_ind_r dispatcher_ok _ _ _ d Hs); [|intros x y _; apply dstep_ok].
  split; unfold ids, requests; simpl; rewrite ?pq_elems_empty; try done; try lia; try apply NoDup_nil_2.
  intros cb Hcb. simpl in Hcb. set_solver.
Qed.

Lemma inflight_counts_requests_witness :
  1 + 0 = lenZ (requests demo_queued) /\
  forall cb, cb ∈ requests demo_queued -> pending_requests_ demo_queued !! request_id cb = Some cb.
Proof. exact (inflight_counts_requests (PQ := dispatch_queue_impl) 10 1 demo_queued demo_reachable). Defined.


(** A shutdown with a request still queued calls its error callback
    twice, once for the queue and once for the pending map, and counts it down
    twice, so the wait for [inflight_ = 0] runs into its timeout. *)
Theorem shutdown_cancels_twice `{PQ : !PrioQueue PendingCallback ComparePriority, !PrioQueueLaws PQ} d cb :
  dispatcher_ok d -> state_ d = RUNNING -> in_worker d = [] -> unaccounted d = 0 ->
  cb ∈ pq_elems (callback_queue_ d) ->
  exists d' l1 l2, Shutdown d = (true, d') /\ log d' = log d ++ l1 ++ l2 /\
    (request_id cb, ErrorCallback (-5)) ∈ l1 /\ (request_id cb, ErrorCallback (-5)) ∈ l2 /\
    inflight_ d' < 0 /\ shutdown_waits_in_vain d = true.
Proof.
  intros Hok Hst Hw Hu Hcb.
  set (n := length (pq_elems (callback_queue_ d))).
  set (queued := pq_drain n (callback_queue_ d)).
  set (pending := map snd (map_to_list (pending_requests_ d))).
  assert (queued ≡ₚ pq_elems (callback_queue_ d)) as Hq by (by apply pq_drain_perm).
  assert (forall x, x ∈ requests d -> x ∈ pending) as Hp.
  { intros x Hx. apply list_elem_of_fmap. exists (request_id x, x). split; [done|].
    apply elem_of_map_to_list. by apply (ok_pending d Hok). }
  assert (lenZ (requests d) <= lenZ pending) as Hlen.
  { unfold lenZ. apply Nat2Z.inj_le. apply submseteq_length, NoDup_submseteq; [|done].
    pose proof (ok_nodup d Hok) as Hnd. unfold ids in Hnd. apply NoDup_app in Hnd as [Hnd _].
    by apply NoDup_fmap_1 in Hnd. }
  assert (0 < lenZ queued) as Hpos.
  { rewrite Hq. destruct (pq_elems (callback_queue_ d)); [set_solver|]. rewrite lenZ_cons.
    pose proof (lenZ_nonneg l). lia. }
  pose proof (ok_inflight d Hok) as Hi.
  assert (inflight_ d - lenZ queued - lenZ pending < 0) as Hneg by lia.
  unfold shutdown_waits_in_vain, Shutdown. rewrite Hst.
  rewrite decide_False by done. rewrite decide_False by done.
  unfold cancel_all_callbacks at 1 4. simpl. fold n. fold queued. fold pending.
  destruct (Z.eqb_spec (inflight_ d - lenZ queued - lenZ pending) 0); [lia|].
  eexists. exists (map (fun cb => (request_id cb, ErrorCallback (-5))) queued),
    (map (fun cb => (request_id cb, ErrorCallback (-5))) pending).
  split; [reflexivity|]. simpl. rewrite pq_elems_empty. simpl. rewrite app_nil_r. split; [done|].
  split; [|split; [|split; [|done]]].
  - apply list_elem_of_fmap. exists cb. split; [done|]. by rewrite Hq.
  - apply list_elem_of_fmap. exists cb. split; [done|]. apply Hp. unfold requests. set_solver.
  - rewrite map_to_list_empty. cbn [map]. rewrite !lenZ_nil. fold n queued pending. lia.
Qed.

Lemma shutdown_cancels_twice_witness :
  exists d' l1 l2, Shutdown demo_queued = (true, d') /\ log d' = log demo_queued ++ l1 ++ l2 /\
    (1, ErrorCallback (-5)) ∈ l1 /\ (1, ErrorCallback (-5)) ∈ l2 /\
    inflight_ d' < 0 /\ shutdown_waits_in_vain demo_queued = true.
Proof.
  apply (shutdown_cancels_twice (PQ := dispatch_queue_impl) demo_queued demo_callback);
    [exact demo_ok|reflexivity|reflexivity|reflexivity|apply list_elem_of_here].
Defined.


(** A request that fails in [ProcessCallback], because its handler is
    gone or the call was refused, gets its error callback but stays in the
    pending map: from then on [WaitForAllCompletion] cannot succeed. *)
Theorem failed_request_stays_pending `{PQ : !PrioQueue PendingCallback ComparePriority} d cb ok polls :
  pending_requests_ d !! request_id cb = Some cb ->
  operation_name cb ∉ handlers_ d \/ ok = false ->
  let d' := ProcessCallback cb ok d in
  log d' = log d ++ [(request_id cb, ErrorCallback (-5))] /\
  pending_requests_ d' !! request_id cb = Some cb /\
  (Forall (fun p => pending_requests_ p = pending_requests_ d') polls -> WaitForAllCompletion polls = false).
Proof.
  intros Hp Hfail d'.
  assert (log d' = log d ++ [(request_id cb, ErrorCallback (-5))] /\
          pending_requests_ d' !! request_id cb = Some cb) as [Hl Hp'].
  { unfold d', ProcessCallback.
    destruct (handle_error_log d (request_id cb) (-1) cb Hp) as (Hl1 & _ & _ & Hp1 & _).
    destruct (handle_error_log d (request_id cb) (-5) cb Hp) as (Hl2 & _ & _ & Hp2 & _).
    destruct (handle_error_log d (request_id cb) (-38) cb Hp) as (Hl3 & _ & _ & Hp3 & _).
    destruct (negb _); [simpl; by rewrite Hl1, Hp1|].
    destruct (decide _) as [Hin|]; [|simpl; by rewrite Hl3, Hp3].
    destruct Hfail as [?| ->]; [done|]. simpl. by rewrite Hl2, Hp2. }
  split; [done|]. split; [done|]. intros Hpolls. unfold WaitForAllCompletion.
  induction Hpolls as [|p polls Hpeq _ IH]; [done|]. simpl. rewrite IH, orb_false_r, Hpeq.
  rewrite bool_decide_false; [done|]. intros He. rewrite He in Hp'. by rewrite lookup_empty in Hp'.
Qed.

Lemma failed_request_stays_pending_witness :
  let d' := ProcessCallback demo_callback false demo_queued in
  log d' = log demo_queued ++ [(1, ErrorCallback (-5))] /\
  pending_requests_ d' !! 1 = Some demo_callback /\
  (Forall (fun p => pending_requests_ p = pending_requests_ d') [d'; d'] -> WaitForAllCompletion [d'; d'] = false).
Proof.
  apply (failed_request_stays_pending (PQ := dispatch_queue_impl) demo_queued demo_callback false [_; _]);
    [reflexivity|right; reflexivity].
Defined.


(** A thread that dispatches to a full queue and one that waits for all
    completions take the two mutexes in opposite orders, and can block each
    other for good. *)
Theorem dispatch_and_wait_deadlock :
  exists s, rtc lock_step (two_threads dispatch_full_locks wait_all_locks) s /\ deadlocked s.
Proof.
  eexists. split.
  - eapply rtc_l; [by apply (lock_free 0)|].
    eapply rtc_l; [by apply (unlock 0)|].
    eapply rtc_l; [by apply (lock_free 0)|].
    eapply rtc_l; [by apply (lock_free 1)|]. apply rtc_refl.
  - split; [by exists 0%nat|]. intros s' Hs.
    inversion Hs as [i m l s0 Ht Ho|i m l s0 Ht]; subst; simpl in *.
    + destruct i as [|[|i]]; simpl in *; try discriminate; injection Ht as <- <-; discriminate Ho.
    + destruct i as [|[|i]]; simpl in *; discriminate Ht.
Qed.
