(* ===== verification/Napi.v ===== *)
(** * JavaScript values and the N-API helpers

    [napi_helpers.cc] and [napi_bigint.cc]: conversions between JavaScript
    values and the C structures.  A JavaScript value is an inductive type; the
    numeric conversions of N-API itself are not part of the repository, so they
    are the parameter [NapiConv], with their documented behaviour in
    [NapiLaws].  [napi_ref] is a concrete instance. *)
From S2P Require Import Prelude Errno Sys.

Inductive js : Type :=
  | JUndefined
  | JNull
  | JBoolean (b : bool)
  | JNumber (d : double)
  | JBigInt (z : Z)
  | JString (s : string)
  | JObject (fields : list (string * js))
  | JArray (items : list js)
  | JArrayBuffer (data : list Z)
  | JTypedArray (store : list Z) (byteOffset byteLength : nat)
  | JFunction
  | JPromise (then_is_function : bool).

(** ** Type tests and property access *)

Definition IsObject (v : js) : bool :=
  match v with
  | JObject _ | JArray _ | JArrayBuffer _ | JTypedArray _ _ _ | JFunction | JPromise _ => true
  | _ => false
  end.
Definition IsArray (v : js) : bool := match v with JArray _ => true | _ => false end.
Definition IsNumber (v : js) : bool := match v with JNumber _ => true | _ => false end.
Definition IsBigInt (v : js) : bool := match v with JBigInt _ => true | _ => false end.
Definition IsString (v : js) : bool := match v with JString _ => true | _ => false end.
Definition IsBoolean (v : js) : bool := match v with JBoolean _ => true | _ => false end.
Definition IsNullish (v : js) : bool :=
  match v with JUndefined | JNull => true | _ => false end.

Fixpoint field (name : string) (fields : list (string * js)) : option js :=
  match fields with
  | [] => None
  | (k, v) :: rest => if String.eqb k name then Some v else field name rest
  end.

(** A named property; arrays and typed arrays inherit an [entries] method and
    functions have a [name]. *)
Definition prop (v : js) (name : string) : option js :=
  match v with
  | JObject fields => field name fields
  | JArray _ | JTypedArray _ _ _ =>
      if String.eqb name "entries" then Some JFunction else None
  | JFunction => if String.eqb name "name" then Some (JString "") else None
  | _ => None
  end.
(** [Object::Has] and [Object::Get] on data properties *)
Definition Has (v : js) (name : string) : bool :=
  match prop v name with Some _ => true | None => false end.
Definition Get (v : js) (name : string) : js := default JUndefined (prop v name).

(** The bytes a typed array (or a Node [Buffer]) views. *)
Definition view_bytes (store : list Z) (off len : nat) : list Z := take len (drop off store).

(** ** The numeric conversions of N-API *)

Class NapiConv := {
  Int32Value : double -> Z;
  Uint32Value : double -> Z;
  Int64Value : double -> Z;
  BigUint64Value : Z -> Z * bool;   (** the value and [*lossless] *)
  BigInt64Value : Z -> Z * bool;
  ToBoolean : js -> bool;
}.

Class NapiLaws `(NapiConv) : Prop := {
  Int32Value_range d : in_s 32 (Int32Value d);
  Int32Value_exact z : in_s 32 z -> Int32Value (dbl z) = z;
  Uint32Value_range d : in_u 32 (Uint32Value d);
  Uint32Value_exact z : in_u 32 z -> Uint32Value (dbl z) = z;
  Int64Value_range d : in_s 64 (Int64Value d);
  Int64Value_exact z : Z.abs z < 2 ^ 53 -> Int64Value (dbl z) = z;
  BigUint64_range z : in_u 64 (BigUint64Value z).1;
  BigUint64_exact z : in_u 64 z -> BigUint64Value z = (z, true);
  BigUint64_lossy z : ¬ in_u 64 z -> (BigUint64Value z).2 = false;
  BigInt64_range z : in_s 64 (BigInt64Value z).1;
  BigInt64_exact z : in_s 64 z -> BigInt64Value z = (z, true);
  BigInt64_lossy z : ¬ in_s 64 z -> (BigInt64Value z).2 = false;
}.

#[export] Hint Resolve Int32Value_range Uint32Value_range Int64Value_range
  BigUint64_range BigInt64_range : machine.

Definition saturate64 (z : Z) : Z := Z.max (- 2 ^ 63) (Z.min (2 ^ 63 - 1) z).
Definition js_truthy (v : js) : bool :=
  match v with
  | JUndefined | JNull => false
  | JBoolean b => b
  | JNumber DNaN => false
  | JNumber (DFin m _) => negb (m =? 0)
  | JBigInt z => negb (z =? 0)
  | JString s => negb (String.eqb s "")
  | _ => true
  end.

(** The conversions as ECMAScript's ToInt32, ToUint32 and ToBigInt64 define
    them, with V8's saturation for [int64]. *)
Definition napi_ref : NapiConv := {|
  Int32Value d := s32 (dtrunc d);
  Uint32Value d := u32 (dtrunc d);
  Int64Value d := saturate64 (dtrunc d);
  BigUint64Value z := (u64 z, bool_decide (in_u 64 z));
  BigInt64Value z := (s64 z, bool_decide (in_s 64 z));
  ToBoolean := js_truthy;
|}.

Lemma napi_ref_laws : NapiLaws napi_ref.
Proof.
  split; simpl; intros.
  - by apply wraps_range.
  - rewrite dtrunc_dbl by (unfold in_s in *; lia). by apply wraps_small.
  - by apply wrapu_range.
  - rewrite dtrunc_dbl by (unfold in_u in *; lia). by apply wrapu_small.
  - unfold in_s, saturate64. lia.
  - rewrite dtrunc_dbl by done. unfold saturate64. lia.
  - by apply wrapu_range.
  - rewrite bool_decide_true by done. by rewrite wrapu_small.
  - by apply bool_decide_false.
  - by apply wraps_range.
  - rewrite bool_decide_true by done. by rewrite wraps_small.
  - by apply bool_decide_false.
Qed.

Section Helpers.
Context `{NapiConv}.

(** ** BigInt conversions ([napi_bigint.cc], [napi_helpers.cc]) *)

(** [bigint_to_u64]: the value on a lossless conversion of a BigInt. *)
Definition bigint_to_u64 (v : js) : option Z :=
  match v with
  | JBigInt z => let '(r, lossless) := BigUint64Value z in if lossless then Some r else None
  | _ => None
  end.
Definition bigint_to_i64 (v : js) : option Z :=
  match v with
  | JBigInt z => let '(r, lossless) := BigInt64Value z in if lossless then Some r else None
  | _ => None
  end.
Definition u64_to_bigint (value : Z) : js := JBigInt value.
Definition i64_to_bigint (value : Z) : js := JBigInt value.
Definition is_valid_u64_bigint (v : js) : bool :=
  if IsBigInt v then match bigint_to_u64 v with Some _ => true | None => false end else false.
Definition is_valid_i64_bigint (v : js) : bool :=
  if IsBigInt v then match bigint_to_i64 v with Some _ => true | None => false end else false.
(** [size_t], [off_t] and [ino_t] are 64 bits wide on the target. *)
Definition bigint_to_size (v : js) : option Z :=
  match bigint_to_u64 v with
  | Some value => if UINT64_MAX <? value then None else Some value
  | None => None
  end.
Definition bigint_to_offset (v : js) : option Z :=
  match bigint_to_i64 v with
  | Some value =>
      if (value <? - 9223372036854775808) || (INT64_MAX <? value) then None else Some value
  | None => None
  end.
Definition bigint_to_ino (v : js) : option Z :=
  match bigint_to_u64 v with
  | Some value => if UINT64_MAX <? value then None else Some value
  | None => None
  end.

Definition SafeGetBigIntU64 (v : js) : option Z := bigint_to_u64 v.
Definition SafeGetBigInt64 (v : js) : option Z := bigint_to_i64 v.

(** ** Timestamps *)

Definition TimespecToNsBigInt (ts : timespec) : js :=
  JBigInt (u64 (u64 (u64 (tv_sec ts) * 1000000000) + u64 (tv_nsec ts))).

Definition NsBigIntToTimespec (v : js) : option timespec :=
  match bigint_to_u64 v with
  | Some ns => Some {| tv_sec := ns / 1000000000; tv_nsec := ns `mod` 1000000000 |}
  | None => None
  end.

(** [AssignTimespecField]: an unusable value leaves the field unchanged. *)
Definition AssignTimespecField (v : js) (old : timespec) : timespec :=
  if IsBigInt v then default old (NsBigIntToTimespec v) else old.

(** ** [struct stat] *)

Definition StatToObject (st : stat) : js :=
  JObject [("ino", JBigInt (st_ino st));
           ("mode", JNumber (dbl (st_mode st)));
           ("nlink", JNumber (dbl (st_nlink st)));
           ("uid", JNumber (dbl (st_uid st)));
           ("gid", JNumber (dbl (st_gid st)));
           ("rdev", JBigInt (st_rdev st));
           ("size", JBigInt (u64 (st_size st)));
           ("blksize", JNumber (dbl (st_blksize st)));
           ("blocks", JBigInt (u64 (st_blocks st)));
           ("atime", TimespecToNsBigInt {| tv_sec := tv_sec (st_atim st); tv_nsec := 0 |});
           ("mtime", TimespecToNsBigInt {| tv_sec := tv_sec (st_mtim st); tv_nsec := 0 |});
           ("ctime", TimespecToNsBigInt {| tv_sec := tv_sec (st_ctim st); tv_nsec := 0 |})]%string.

Definition uint32_field (obj : js) (name : string) : Z :=
  if Has obj name then match Get obj name with JNumber d => Uint32Value d | _ => 0 end else 0.
Definition int64_field (obj : js) (name : string) : Z :=
  if Has obj name then
    match SafeGetBigInt64 (Get obj name) with
    | Some z => z
    | None => match Get obj name with JNumber d => Int64Value d | _ => 0 end
    end
  else 0.
Definition time_field (obj : js) (name : string) : timespec :=
  if Has obj name then AssignTimespecField (Get obj name) zero_ts else zero_ts.

(** The [None] is the [false] of the C++ function. *)
Definition ObjectToStat (obj : js) : option stat :=
  if IsObject obj then Some {|
    st_ino := default 0 (SafeGetBigIntU64 (Get obj "ino"));
    st_mode := uint32_field obj "mode";
    st_nlink := uint32_field obj "nlink";
    st_uid := uint32_field obj "uid";
    st_gid := uint32_field obj "gid";
    st_rdev := default 0 (SafeGetBigIntU64 (Get obj "rdev"));
    st_size := int64_field obj "size";
    st_blksize := if Has obj "blksize" then
                    match Get obj "blksize" with JNumber d => Int32Value d | _ => 0 end
                  else 0;
    st_blocks := int64_field obj "blocks";
    st_atim := time_field obj "atime";
    st_mtim := time_field obj "mtime";
    st_ctim := time_field obj "ctime" |}
  else None.

(** ** [struct fuse_file_info] *)

Definition FileInfoToObject (fi : fuse_file_info) : js :=
  JObject [("flags", JNumber (dbl (fi_flags fi)));
           ("writepage", JBoolean (fi_writepage fi));
           ("direct_io", JBoolean (fi_direct_io fi));
           ("keep_cache", JBoolean (fi_keep_cache fi));
           ("flush", JBoolean (fi_flush fi));
           ("nonseekable", JBoolean (fi_nonseekable fi));
           ("flock_release", JBoolean (fi_flock_release fi));
           ("cache_readdir", JBoolean (fi_cache_readdir fi));
           ("fh", JBigInt (fi_fh fi));
           ("lock_owner", JBigInt (fi_lock_owner fi));
           ("poll_events", JNumber (dbl (fi_poll_events fi)))]%string.

(** [read_u64_bigint_or_number]: [static_cast<uint64_t>(d)] is undefined for
    [d >= 2^64]; the model takes the check after it as failing there. *)
Definition read_u64_bigint_or_number (obj : js) (key : string) : option Z :=
  if Has obj key then
    match Get obj key with
    | JBigInt z => let '(r, lossless) := BigUint64Value z in if lossless then Some r else None
    | JNumber d =>
        if negb (isfinite d) || dlt d (DFin 0 0) then None
        else if UINT64_MAX <? dtrunc d then None
        else if deqb (dbl (dtrunc d)) d then Some (dtrunc d) else None
    | _ => None
    end
  else None.

Definition bool_field (obj : js) (name : string) : bool :=
  if Has obj name then match Get obj name with JBoolean b => b | _ => false end else false.

Definition ObjectToFileInfo (obj : js) : option fuse_file_info :=
  if IsObject obj then Some {|
    fi_flags := if Has obj "flags" then
                  match Get obj "flags" with JNumber d => Int32Value d | _ => 0 end
                else 0;
    fi_writepage := bool_field obj "writepage";
    fi_direct_io := bool_field obj "direct_io";
    fi_keep_cache := bool_field obj "keep_cache";
    fi_flush := bool_field obj "flush";
    fi_nonseekable := bool_field obj "nonseekable";
    fi_flock_release := bool_field obj "flock_release";
    fi_cache_readdir := bool_field obj "cache_readdir";
    fi_noflush := false;
    fi_parallel_direct_writes := false;
    fi_fh := default 0 (read_u64_bigint_or_number obj "fh");
    fi_lock_owner := default 0 (read_u64_bigint_or_number obj "lock_owner");
    fi_poll_events := uint32_field obj "poll_events";
    fi_backing_id := 0 |}
  else None.
End Helpers.
