(* ===== verification/Bridge.v ===== *)
(** * fuse_bridge.cc: requests, replies and dispatch

    A FUSE request is answered through a [FuseRequestContext], whose [replied]
    flag lets one reply through.  This file models the contexts, the reply
    functions, the conversion of JavaScript results and errors, and
    [ProcessRequest], which hands a request to the dispatcher.  The operation
    handlers are in [BridgeOps]. *)
From S2P Require Import Prelude Errno Sys LlDirent Napi.

(** ** Operation types *)

Inductive FuseOpType : Set :=
  | INIT | DESTROY | FORGET | FORGET_MULTI | LOOKUP | GETATTR | SETATTR | READLINK | MKNOD
  | MKDIR | UNLINK | RMDIR | SYMLINK | RENAME | LINK | SETXATTR | GETXATTR | LISTXATTR
  | REMOVEXATTR | OPEN | READ | WRITE | WRITE_BUF | READ_BUF | FLUSH | RELEASE | FSYNC
  | FALLOCATE | LSEEK | COPY_FILE_RANGE | OPENDIR | READDIR | READDIRPLUS | RELEASEDIR
  | FSYNCDIR | STATFS | ACCESS | CREATE | BMAP | IOCTL | POLL | FLOCK | GETLK | SETLK
  | RETRIEVE_REPLY | TRUNCATE | CHMOD | CHOWN | UNKNOWN.

#[export] Instance FuseOpType_eq_dec : EqDecision FuseOpType.
Proof. solve_decision. Defined.

Definition kOperationMappings : list (string * FuseOpType) :=
  [("init", INIT); ("destroy", DESTROY); ("forget", FORGET); ("forget_multi", FORGET_MULTI);
   ("lookup", LOOKUP); ("getattr", GETATTR); ("setattr", SETATTR); ("readlink", READLINK);
   ("mknod", MKNOD); ("mkdir", MKDIR); ("unlink", UNLINK); ("rmdir", RMDIR);
   ("symlink", SYMLINK); ("rename", RENAME); ("link", LINK); ("setxattr", SETXATTR);
   ("getxattr", GETXATTR); ("listxattr", LISTXATTR); ("removexattr", REMOVEXATTR);
   ("open", OPEN); ("read", READ); ("write", WRITE); ("write_buf", WRITE_BUF);
   ("read_buf", READ_BUF); ("flush", FLUSH); ("release", RELEASE); ("fsync", FSYNC);
   ("fallocate", FALLOCATE); ("lseek", LSEEK); ("copy_file_range", COPY_FILE_RANGE);
   ("opendir", OPENDIR); ("readdir", READDIR); ("readdirplus", READDIRPLUS);
   ("releasedir", RELEASEDIR); ("fsyncdir", FSYNCDIR); ("statfs", STATFS);
   ("access", ACCESS); ("create", CREATE); ("bmap", BMAP); ("ioctl", IOCTL);
   ("poll", POLL); ("flock", FLOCK); ("getlk", GETLK); ("setlk", SETLK);
   ("retrieve_reply", RETRIEVE_REPLY)]%string.

Definition kOperationAliasMappings : list (string * FuseOpType) :=
  [("truncate", TRUNCATE); ("chmod", CHMOD); ("chown", CHOWN); ("utimens", SETATTR);
   ("copyFileRange", COPY_FILE_RANGE)]%string.

(** [std::tolower] in the C locale, on each character *)
Definition tolower (a : Ascii.ascii) : Ascii.ascii :=
  let n := Ascii.nat_of_ascii a in
  if ((65 <=? n) && (n <=? 90))%nat then Ascii.ascii_of_nat (n + 32) else a.
Fixpoint lower (s : string) : string :=
  match s with
  | EmptyString => EmptyString
  | String a s' => String (tolower a) (lower s')
  end.

Fixpoint find_by_name (name : string) (m : list (string * FuseOpType)) : option FuseOpType :=
  match m with
  | [] => None
  | (n, t) :: m' => if String.eqb name n then Some t else find_by_name name m'
  end.
Fixpoint find_by_type (t : FuseOpType) (m : list (string * FuseOpType)) : option string :=
  match m with
  | [] => None
  | (n, t') :: m' => if decide (t' = t) then Some n else find_by_type t m'
  end.

Definition StringToFuseOpType (name : string) : FuseOpType :=
  let lowered := lower name in
  match find_by_name lowered kOperationMappings with
  | Some t => t
  | None => match find_by_name lowered kOperationAliasMappings with
            | Some t => t
            | None => UNKNOWN
            end
  end.

Definition FuseOpTypeToString (t : FuseOpType) : string :=
  match find_by_type t kOperationMappings with
  | Some n => n
  | None => match find_by_type t kOperationAliasMappings with
            | Some n => n
            | None => "unknown"
            end
  end.

(** ** Request contexts

    The metadata is written before the request is dispatched and only read
    afterwards; the mutable parts ([replied], [keepalive]) are in [bst], keyed
    by [cid].  [request] says whether the [fuse_req_t] is non-null.  The
    [request_id] the dispatcher returns is stored and never read. *)

Record context := {
    cid : nat; op_type : FuseOpType; request : bool; caller_ctx : option fuse_ctx; c_ino :
  Z; c_parent : Z; c_new_parent : Z; c_name : string; c_new_name : string; c_link_target :
  string; c_mode : Z; c_rdev : Z; c_setattr_valid : Z; c_attr : option stat; c_fi : option
  fuse_file_info; c_fi_out : option fuse_file_info; c_offset : Z; c_new_offset : Z; c_size :
  Z; c_flags : Z; c_datasync : Z; c_access_mask : Z; c_data : list Z; c_lock : option flock;
  c_sleep : Z;
}.

(** [CreateContext]: the constructor zeroes the metadata and captures the
    caller of a non-null request. *)
Definition CreateContext (id : nat) (op : FuseOpType) (req : bool) (caller : option fuse_ctx)
    : context :=
  {| cid := id; op_type := op; request := req; caller_ctx := if req then caller else None;
     c_ino := 0; c_parent := 0; c_new_parent := 0; c_name := ""; c_new_name := "";
     c_link_target := ""; c_mode := 0; c_rdev := 0; c_setattr_valid := 0; c_attr := None;
     c_fi := None; c_fi_out := None; c_offset := 0; c_new_offset := 0; c_size := 0; c_flags
     := 0; c_datasync := 0; c_access_mask := 0; c_data := []; c_lock := None; c_sleep := 0
     |}.

Definition set_op_type (v : FuseOpType) (c : context) : context :=
  {| cid := cid c; op_type := v; request := request c; caller_ctx := caller_ctx c; c_ino :=
     c_ino c; c_parent := c_parent c; c_new_parent := c_new_parent c; c_name := c_name c;
     c_new_name := c_new_name c; c_link_target := c_link_target c; c_mode := c_mode c; c_rdev
     := c_rdev c; c_setattr_valid := c_setattr_valid c; c_attr := c_attr c; c_fi := c_fi c;
     c_fi_out := c_fi_out c; c_offset := c_offset c; c_new_offset := c_new_offset c; c_size :=
     c_size c; c_flags := c_flags c; c_datasync := c_datasync c; c_access_mask :=
     c_access_mask c; c_data := c_data c; c_lock := c_lock c; c_sleep := c_sleep c |}.
Definition set_ino (v : Z) (c : context) : context :=
  {| cid := cid c; op_type := op_type c; request := request c; caller_ctx := caller_ctx c;
     c_ino := v; c_parent := c_parent c; c_new_parent := c_new_parent c; c_name := c_name c;
     c_new_name := c_new_name c; c_link_target := c_link_target c; c_mode := c_mode c; c_rdev
     := c_rdev c; c_setattr_valid := c_setattr_valid c; c_attr := c_attr c; c_fi := c_fi c;
     c_fi_out := c_fi_out c; c_offset := c_offset c; c_new_offset := c_new_offset c; c_size :=
     c_size c; c_flags := c_flags c; c_datasync := c_datasync c; c_access_mask :=
     c_access_mask c; c_data := c_data c; c_lock := c_lock c; c_sleep := c_sleep c |}.
Definition set_parent (v : Z) (c : context) : context :=
  {| cid := cid c; op_type := op_type c; request := request c; caller_ctx := caller_ctx c;
     c_ino := c_ino c; c_parent := v; c_new_parent := c_new_parent c; c_name := c_name c;
     c_new_name := c_new_name c; c_link_target := c_link_target c; c_mode := c_mode c; c_rdev
     := c_rdev c; c_setattr_valid := c_setattr_valid c; c_attr := c_attr c; c_fi := c_fi c;
     c_fi_out := c_fi_out c; c_offset := c_offset c; c_new_offset := c_new_offset c; c_size :=
     c_size c; c_flags := c_flags c; c_datasync := c_datasync c; c_access_mask :=
     c_access_mask c; c_data := c_data c; c_lock := c_lock c; c_sleep := c_sleep c |}.
Definition set_new_parent (v : Z) (c : context) : context :=
  {| cid := cid c; op_type := op_type c; request := request c; caller_ctx := caller_ctx c;
     c_ino := c_ino c; c_parent := c_parent c; c_new_parent := v; c_name := c_name c;
     c_new_name := c_new_name c; c_link_target := c_link_target c; c_mode := c_mode c; c_rdev
     := c_rdev c; c_setattr_valid := c_setattr_valid c; c_attr := c_attr c; c_fi := c_fi c;
     c_fi_out := c_fi_out c; c_offset := c_offset c; c_new_offset := c_new_offset c; c_size :=
     c_size c; c_flags := c_flags c; c_datasync := c_datasync c; c_access_mask :=
     c_access_mask c; c_data := c_data c; c_lock := c_lock c; c_sleep := c_sleep c |}.
Definition set_name (v : string) (c : context) : context :=
  {| cid := cid c; op_type := op_type c; request := request c; caller_ctx := caller_ctx c;
     c_ino := c_ino c; c_parent := c_parent c; c_new_parent := c_new_parent c; c_name := v;
     c_new_name := c_new_name c; c_link_target := c_link_target c; c_mode := c_mode c; c_rdev
     := c_rdev c; c_setattr_valid := c_setattr_valid c; c_attr := c_attr c; c_fi := c_fi c;
     c_fi_out := c_fi_out c; c_offset := c_offset c; c_new_offset := c_new_offset c; c_size :=
     c_size c; c_flags := c_flags c; c_datasync := c_datasync c; c_access_mask :=
     c_access_mask c; c_data := c_data c; c_lock := c_lock c; c_sleep := c_sleep c |}.
Definition set_new_name (v : string) (c : context) : context :=
  {| cid := cid c; op_type := op_type c; request := request c; caller_ctx := caller_ctx c;
     c_ino := c_ino c; c_parent := c_parent c; c_new_parent := c_new_parent c; c_name :=
     c_name c; c_new_name := v; c_link_target := c_link_target c; c_mode := c_mode c; c_rdev
     := c_rdev c; c_setattr_valid := c_setattr_valid c; c_attr := c_attr c; c_fi := c_fi c;
     c_fi_out := c_fi_out c; c_offset := c_offset c; c_new_offset := c_new_offset c; c_size :=
     c_size c; c_flags := c_flags c; c_datasync := c_datasync c; c_access_mask :=
     c_access_mask c; c_data := c_data c; c_lock := c_lock c; c_sleep := c_sleep c |}.
Definition set_link_target (v : string) (c : context) : context :=
  {| cid := cid c; op_type := op_type c; request := request c; caller_ctx := caller_ctx c;
     c_ino := c_ino c; c_parent := c_parent c; c_new_parent := c_new_parent c; c_name :=
     c_name c; c_new_name := c_new_name c; c_link_target := v; c_mode := c_mode c; c_rdev :=
     c_rdev c; c_setattr_valid := c_setattr_valid c; c_attr := c_attr c; c_fi := c_fi c;
     c_fi_out := c_fi_out c; c_offset := c_offset c; c_new_offset := c_new_offset c; c_size :=
     c_size c; c_flags := c_flags c; c_datasync := c_datasync c; c_access_mask :=
     c_access_mask c; c_data := c_data c; c_lock := c_lock c; c_sleep := c_sleep c |}.
Definition set_mode (v : Z) (c : context) : context :=
  {| cid := cid c; op_type := op_type c; request := request c; caller_ctx := caller_ctx c;
     c_ino := c_ino c; c_parent := c_parent c; c_new_parent := c_new_parent c; c_name :=
     c_name c; c_new_name := c_new_name c; c_link_target := c_link_target c; c_mode := v;
     c_rdev := c_rdev c; c_setattr_valid := c_setattr_valid c; c_attr := c_attr c; c_fi :=
     c_fi c; c_fi_out := c_fi_out c; c_offset := c_offset c; c_new_offset := c_new_offset c;
     c_size := c_size c; c_flags := c_flags c; c_datasync := c_datasync c; c_access_mask :=
     c_access_mask c; c_data := c_data c; c_lock := c_lock c; c_sleep := c_sleep c |}.
Definition set_rdev (v : Z) (c : context) : context :=
  {| cid := cid c; op_type := op_type c; request := request c; caller_ctx := caller_ctx c;
     c_ino := c_ino c; c_parent := c_parent c; c_new_parent := c_new_parent c; c_name :=
     c_name c; c_new_name := c_new_name c; c_link_target := c_link_target c; c_mode := c_mode
     c; c_rdev := v; c_setattr_valid := c_setattr_valid c; c_attr := c_attr c; c_fi := c_fi c;
     c_fi_out := c_fi_out c; c_offset := c_offset c; c_new_offset := c_new_offset c; c_size :=
     c_size c; c_flags := c_flags c; c_datasync := c_datasync c; c_access_mask :=
     c_access_mask c; c_data := c_data c; c_lock := c_lock c; c_sleep := c_sleep c |}.
Definition set_setattr_valid (v : Z) (c : context) : context :=
  {| cid := cid c; op_type := op_type c; request := request c; caller_ctx := caller_ctx c;
     c_ino := c_ino c; c_parent := c_parent c; c_new_parent := c_new_parent c; c_name :=
     c_name c; c_new_name := c_new_name c; c_link_target := c_link_target c; c_mode := c_mode
     c; c_rdev := c_rdev c; c_setattr_valid := v; c_attr := c_attr c; c_fi := c_fi c; c_fi_out
     := c_fi_out c; c_offset := c_offset c; c_new_offset := c_new_offset c; c_size := c_size
     c; c_flags := c_flags c; c_datasync := c_datasync c; c_access_mask := c_access_mask c;
     c_data := c_data c; c_lock := c_lock c; c_sleep := c_sleep c |}.
Definition set_attr (v : option stat) (c : context) : context :=
  {| cid := cid c; op_type := op_type c; request := request c; caller_ctx := caller_ctx c;
     c_ino := c_ino c; c_parent := c_parent c; c_new_parent := c_new_parent c; c_name :=
     c_name c; c_new_name := c_new_name c; c_link_target := c_link_target c; c_mode := c_mode
     c; c_rdev := c_rdev c; c_setattr_valid := c_setattr_valid c; c_attr := v; c_fi := c_fi c;
     c_fi_out := c_fi_out c; c_offset := c_offset c; c_new_offset := c_new_offset c; c_size :=
     c_size c; c_flags := c_flags c; c_datasync := c_datasync c; c_access_mask :=
     c_access_mask c; c_data := c_data c; c_lock := c_lock c; c_sleep := c_sleep c |}.
Definition set_fi (v : option fuse_file_info) (c : context) : context :=
  {| cid := cid c; op_type := op_type c; request := request c; caller_ctx := caller_ctx c;
     c_ino := c_ino c; c_parent := c_parent c; c_new_parent := c_new_parent c; c_name :=
     c_name c; c_new_name := c_new_name c; c_link_target := c_link_target c; c_mode := c_mode
     c; c_rdev := c_rdev c; c_setattr_valid := c_setattr_valid c; c_attr := c_attr c; c_fi :=
     v; c_fi_out := c_fi_out c; c_offset := c_offset c; c_new_offset := c_new_offset c; c_size
     := c_size c; c_flags := c_flags c; c_datasync := c_datasync c; c_access_mask :=
     c_access_mask c; c_data := c_data c; c_lock := c_lock c; c_sleep := c_sleep c |}.
Definition set_fi_out (v : option fuse_file_info) (c : context) : context :=
  {| cid := cid c; op_type := op_type c; request := request c; caller_ctx := caller_ctx c;
     c_ino := c_ino c; c_parent := c_parent c; c_new_parent := c_new_parent c; c_name :=
     c_name c; c_new_name := c_new_name c; c_link_target := c_link_target c; c_mode := c_mode
     c; c_rdev := c_rdev c; c_setattr_valid := c_setattr_valid c; c_attr := c_attr c; c_fi :=
     c_fi c; c_fi_out := v; c_offset := c_offset c; c_new_offset := c_new_offset c; c_size :=
     c_size c; c_flags := c_flags c; c_datasync := c_datasync c; c_access_mask :=
     c_access_mask c; c_data := c_data c; c_lock := c_lock c; c_sleep := c_sleep c |}.
Definition set_offset (v : Z) (c : context) : context :=
  {| cid := cid c; op_type := op_type c; request := request c; caller_ctx := caller_ctx c;
     c_ino := c_ino c; c_parent := c_parent c; c_new_parent := c_new_parent c; c_name :=
     c_name c; c_new_name := c_new_name c; c_link_target := c_link_target c; c_mode := c_mode
     c; c_rdev := c_rdev c; c_setattr_valid := c_setattr_valid c; c_attr := c_attr c; c_fi :=
     c_fi c; c_fi_out := c_fi_out c; c_offset := v; c_new_offset := c_new_offset c; c_size :=
     c_size c; c_flags := c_flags c; c_datasync := c_datasync c; c_access_mask :=
     c_access_mask c; c_data := c_data c; c_lock := c_lock c; c_sleep := c_sleep c |}.
Definition set_new_offset (v : Z) (c : context) : context :=
  {| cid := cid c; op_type := op_type c; request := request c; caller_ctx := caller_ctx c;
     c_ino := c_ino c; c_parent := c_parent c; c_new_parent := c_new_parent c; c_name :=
     c_name c; c_new_name := c_new_name c; c_link_target := c_link_target c; c_mode := c_mode
     c; c_rdev := c_rdev c; c_setattr_valid := c_setattr_valid c; c_attr := c_attr c; c_fi :=
     c_fi c; c_fi_out := c_fi_out c; c_offset := c_offset c; c_new_offset := v; c_size :=
     c_size c; c_flags := c_flags c; c_datasync := c_datasync c; c_access_mask :=
     c_access_mask c; c_data := c_data c; c_lock := c_lock c; c_sleep := c_sleep c |}.
Definition set_size (v : Z) (c : context) : context :=
  {| cid := cid c; op_type := op_type c; request := request c; caller_ctx := caller_ctx c;
     c_ino := c_ino c; c_parent := c_parent c; c_new_parent := c_new_parent c; c_name :=
     c_name c; c_new_name := c_new_name c; c_link_target := c_link_target c; c_mode := c_mode
     c; c_rdev := c_rdev c; c_setattr_valid := c_setattr_valid c; c_attr := c_attr c; c_fi :=
     c_fi c; c_fi_out := c_fi_out c; c_offset := c_offset c; c_new_offset := c_new_offset c;
     c_size := v; c_flags := c_flags c; c_datasync := c_datasync c; c_access_mask :=
     c_access_mask c; c_data := c_data c; c_lock := c_lock c; c_sleep := c_sleep c |}.
Definition set_flags (v : Z) (c : context) : context :=
  {| cid := cid c; op_type := op_type c; request := request c; caller_ctx := caller_ctx c;
     c_ino := c_ino c; c_parent := c_parent c; c_new_parent := c_new_parent c; c_name :=
     c_name c; c_new_name := c_new_name c; c_link_target := c_link_target c; c_mode := c_mode
     c; c_rdev := c_rdev c; c_setattr_valid := c_setattr_valid c; c_attr := c_attr c; c_fi :=
     c_fi c; c_fi_out := c_fi_out c; c_offset := c_offset c; c_new_offset := c_new_offset c;
     c_size := c_size c; c_flags := v; c_datasync := c_datasync c; c_access_mask :=
     c_access_mask c; c_data := c_data c; c_lock := c_lock c; c_sleep := c_sleep c |}.
Definition set_datasync (v : Z) (c : context) : context :=
  {| cid := cid c; op_type := op_type c; request := request c; caller_ctx := caller_ctx c;
     c_ino := c_ino c; c_parent := c_parent c; c_new_parent := c_new_parent c; c_name :=
     c_name c; c_new_name := c_new_name c; c_link_target := c_link_target c; c_mode := c_mode
     c; c_rdev := c_rdev c; c_setattr_valid := c_setattr_valid c; c_attr := c_attr c; c_fi :=
     c_fi c; c_fi_out := c_fi_out c; c_offset := c_offset c; c_new_offset := c_new_offset c;
     c_size := c_size c; c_flags := c_flags c; c_datasync := v; c_access_mask := c_access_mask
     c; c_data := c_data c; c_lock := c_lock c; c_sleep := c_sleep c |}.
Definition set_access_mask (v : Z) (c : context) : context :=
  {| cid := cid c; op_type := op_type c; request := request c; caller_ctx := caller_ctx c;
     c_ino := c_ino c; c_parent := c_parent c; c_new_parent := c_new_parent c; c_name :=
     c_name c; c_new_name := c_new_name c; c_link_target := c_link_target c; c_mode := c_mode
     c; c_rdev := c_rdev c; c_setattr_valid := c_setattr_valid c; c_attr := c_attr c; c_fi :=
     c_fi c; c_fi_out := c_fi_out c; c_offset := c_offset c; c_new_offset := c_new_offset c;
     c_size := c_size c; c_flags := c_flags c; c_datasync := c_datasync c; c_access_mask := v;
     c_data := c_data c; c_lock := c_lock c; c_sleep := c_sleep c |}.
Definition set_data (v : list Z) (c : context) : context :=
  {| cid := cid c; op_type := op_type c; request := request c; caller_ctx := caller_ctx c;
     c_ino := c_ino c; c_parent := c_parent c; c_new_parent := c_new_parent c; c_name :=
     c_name c; c_new_name := c_new_name c; c_link_target := c_link_target c; c_mode := c_mode
     c; c_rdev := c_rdev c; c_setattr_valid := c_setattr_valid c; c_attr := c_attr c; c_fi :=
     c_fi c; c_fi_out := c_fi_out c; c_offset := c_offset c; c_new_offset := c_new_offset c;
     c_size := c_size c; c_flags := c_flags c; c_datasync := c_datasync c; c_access_mask :=
     c_access_mask c; c_data := v; c_lock := c_lock c; c_sleep := c_sleep c |}.
Definition set_lock (v : option flock) (c : context) : context :=
  {| cid := cid c; op_type := op_type c; request := request c; caller_ctx := caller_ctx c;
     c_ino := c_ino c; c_parent := c_parent c; c_new_parent := c_new_parent c; c_name :=
     c_name c; c_new_name := c_new_name c; c_link_target := c_link_target c; c_mode := c_mode
     c; c_rdev := c_rdev c; c_setattr_valid := c_setattr_valid c; c_attr := c_attr c; c_fi :=
     c_fi c; c_fi_out := c_fi_out c; c_offset := c_offset c; c_new_offset := c_new_offset c;
     c_size := c_size c; c_flags := c_flags c; c_datasync := c_datasync c; c_access_mask :=
     c_access_mask c; c_data := c_data c; c_lock := v; c_sleep := c_sleep c |}.
Definition set_sleep (v : Z) (c : context) : context :=
  {| cid := cid c; op_type := op_type c; request := request c; caller_ctx := caller_ctx c;
     c_ino := c_ino c; c_parent := c_parent c; c_new_parent := c_new_parent c; c_name :=
     c_name c; c_new_name := c_new_name c; c_link_target := c_link_target c; c_mode := c_mode
     c; c_rdev := c_rdev c; c_setattr_valid := c_setattr_valid c; c_attr := c_attr c; c_fi :=
     c_fi c; c_fi_out := c_fi_out c; c_offset := c_offset c; c_new_offset := c_new_offset c;
     c_size := c_size c; c_flags := c_flags c; c_datasync := c_datasync c; c_access_mask :=
     c_access_mask c; c_data := c_data c; c_lock := c_lock c; c_sleep := v |}.

(** [if (fi) { context->fi = *fi; context->has_fi = true; }] *)
Definition with_fi (fi : option fuse_file_info) (c : context) : context :=
  match fi with Some _ => set_fi fi c | None => c end.

(** ** Replies

    [sent] lists the [fuse_reply_*] calls on the request, oldest first; each of
    them frees the [fuse_req_t].  [replied] and [keep] hold the contexts whose
    flag or keepalive is set, [pending] the pending JavaScript exception,
    [polls] the poll-handle registry (handle to owner) and [destroyed] the
    [fuse_pollhandle_destroy] calls. *)

Inductive reply : Type :=
  | RErr (errno_code : Z)
  | RNone
  | RAttr (attr : stat) (timeout : double)
  | REntry (e : fuse_entry_param)
  | RCreate (e : fuse_entry_param) (fi : fuse_file_info)
  | RBuf (data : list Z)
  | RData (bv : fuse_bufvec)
  | RWrite (count : Z)
  | ROpen (fi : fuse_file_info)
  | RStatfs (st : statvfs)
  | RReadlink (target : string)
  | RLock (lock : flock)
  | RXattr (count : Z)
  | RBmap (idx : Z)
  | RIoctl (result : Z) (data : list Z)
  | RPoll (revents : Z).

Record bst := {
  replied : gset nat;
  sent : list reply;
  pending : bool;
  keep : gset nat;
  polls : gmap Z Z;
  destroyed : list Z;
}.
Definition bst0 : bst :=
  {| replied := ∅; sent := []; pending := false; keep := ∅; polls := ∅; destroyed := [] |}.

Definition set_replied (v : gset nat) (s : bst) : bst :=
  {| replied := v; sent := sent s; pending := pending s; keep := keep s;
     polls := polls s; destroyed := destroyed s |}.
Definition set_sent (v : list reply) (s : bst) : bst :=
  {| replied := replied s; sent := v; pending := pending s; keep := keep s;
     polls := polls s; destroyed := destroyed s |}.
Definition set_pending (v : bool) (s : bst) : bst :=
  {| replied := replied s; sent := sent s; pending := v; keep := keep s;
     polls := polls s; destroyed := destroyed s |}.
Definition set_keep (v : gset nat) (s : bst) : bst :=
  {| replied := replied s; sent := sent s; pending := pending s; keep := v;
     polls := polls s; destroyed := destroyed s |}.
Definition set_polls (p : gmap Z Z) (d : list Z) (s : bst) : bst :=
  {| replied := replied s; sent := sent s; pending := pending s; keep := keep s;
     polls := p; destroyed := d |}.

Abbreviation prg := (prog bst).

(** A call of a libfuse [fuse_reply_*] function on the request. *)
Definition emit (r : reply) : prg unit := pmodify (fun s => set_sent (sent s ++ [r]) s).
Definition keep_reset (c : context) : prg unit :=
  pmodify (fun s => set_keep (keep s ∖ {[cid c]}) s).
Definition keep_set (c : context) : prg unit :=
  pmodify (fun s => set_keep (keep s ∪ {[cid c]}) s).

Definition TryMarkReplied (c : context) : prg bool := fun s =>
  if decide (cid c ∈ replied s) then Done false s
  else Done true (set_replied (replied s ∪ {[cid c]}) s).

(** The common shape of the reply functions: nothing is sent when the context
    has replied already or holds no request. *)
Definition guarded_reply (c : context) (r : reply) (release_keepalive : bool) : prg unit :=
  marked ← TryMarkReplied c;
  if marked && request c then
    _ ← emit r; (if release_keepalive then keep_reset c else mret tt)
  else mret tt.

Definition ReplyError (c : context) (errno_code : Z) : prg unit :=
  let fuse_errno := if errno_code <? 0 then s32 (- errno_code) else errno_code in
  guarded_reply c (RErr fuse_errno) true.
Definition ReplyOk (c : context) : prg unit := guarded_reply c (RErr 0) true.
Definition ReplyUnsupported (c : context) : prg unit := ReplyError c ENOSYS.
Definition ReplyAttr c (attr_value : stat) (attr_timeout : double) : prg unit :=
  guarded_reply c (RAttr attr_value attr_timeout) false.
Definition ReplyEntry c (entry : fuse_entry_param) : prg unit := guarded_reply c (REntry entry) false.
Definition ReplyBuf c (data : list Z) : prg unit := guarded_reply c (RBuf data) true.
Definition ReplyWrite c (bytes_written : Z) : prg unit := guarded_reply c (RWrite bytes_written) false.
Definition ReplyOpen c (result_fi : fuse_file_info) : prg unit := guarded_reply c (ROpen result_fi) false.
Definition ReplyOpendir c (result_fi : fuse_file_info) : prg unit := guarded_reply c (ROpen result_fi) false.
Definition ReplyCreate c (entry : fuse_entry_param) (result_fi : fuse_file_info) : prg unit :=
  guarded_reply c (RCreate entry result_fi) false.
Definition ReplyStatfs c (stats : statvfs) : prg unit := guarded_reply c (RStatfs stats) false.
(** [target_path.c_str()] ends at the first NUL byte. *)
Definition ReplyReadlink c (target_path : string) : prg unit :=
  guarded_reply c (RReadlink target_path) false.
Definition ReplyGetlk c (lock : flock) : prg unit := guarded_reply c (RLock lock) false.

(** ** N-API calls that fail while an exception is pending *)

(** [Has], [Get] and element access return [napi_pending_exception] when a
    JavaScript exception is pending, which node-addon-api throws as a C++
    exception, clearing the pending one. *)
Definition napi {A} (a : A) : prg A := fun s =>
  if pending s then Throws (set_pending false s) else Done a s.
(** [ThrowAsJavaScriptException] *)
Definition throw_js : prg unit := pmodify (set_pending true).

Section Bridge.
Context `{NapiConv}.

(** [NapiHelpers::GetBigUint64]: a wrong type or a lossy value leaves an
    exception pending and returns 0. *)
Definition GetBigUint64 (v : js) : prg Z :=
  match v with
  | JBigInt z =>
      let '(r, lossless) := BigUint64Value z in
      if lossless then mret r else _ ← throw_js; mret 0
  | _ => _ ← throw_js; mret 0
  end.
(** [value.As<Napi::Number>().Uint32Value()] *)
Definition AsUint32 (v : js) : prg Z :=
  match v with JNumber d => mret (Uint32Value d) | _ => pthrow end.
(** [value.As<Napi::String>().Utf8Value()] *)
Definition AsUtf8 (v : js) : prg string :=
  match v with JString s => mret s | _ => pthrow end.

Definition CreateRequestContextObject (c : context) : js :=
  match caller_ctx c with
  | None => JObject [("uid", JNumber (dbl 0)); ("gid", JNumber (dbl 0));
                     ("pid", JNumber (dbl 0)); ("umask", JNumber (dbl 0))]%string
  | Some k => JObject [("uid", JNumber (dbl (c_uid k))); ("gid", JNumber (dbl (c_gid k)));
                       ("pid", JNumber (dbl (c_pid k))); ("umask", JNumber (dbl (c_umask k)))]%string
  end.

Definition TryGetSizeT (v : js) : option Z :=
  match v with
  | JNumber raw =>
      if negb (isfinite raw) || dlt raw (DFin 0 0) then None
      else if negb (dintegral raw) then None
      else if dlt (dbl UINT64_MAX) raw then None
      else Some (u64 (dtrunc raw))
  | _ => None
  end.

(** A finite, non-negative number of seconds. *)
Definition read_timeout (v : js) : option double :=
  match v with
  | JNumber t => if negb (isfinite t) || dlt t (DFin 0 0) then None else Some t
  | _ => None
  end.

(** A BigInt or a number taken as [uint64_t]. *)
Definition u64_value (v : js) : option Z :=
  match v with
  | JBigInt z => let '(r, lossless) := BigUint64Value z in if lossless then Some r else None
  | JNumber d => Some (u64 (Int64Value d))
  | _ => None
  end.

Definition PopulateEntryFromResult (value : js) : option fuse_entry_param :=
  if negb (IsObject value) then None
  else if negb (Has value "attr" && Has value "ino" && Has value "generation" &&
                Has value "entry_timeout" && Has value "attr_timeout") then None
  else if negb (IsObject (Get value "attr")) then None
  else
    attr ← ObjectToStat (Get value "attr");
    attr_timeout ← read_timeout (Get value "attr_timeout");
    entry_timeout ← read_timeout (Get value "entry_timeout");
    generation ← u64_value (Get value "generation");
    ino ← u64_value (Get value "ino");
    Some {| e_ino := ino; e_generation := generation; e_attr := attr;
            e_attr_timeout := attr_timeout; e_entry_timeout := entry_timeout |}.

(** ** Errors

    [None] is the C++ exception [Utf8Value] throws when [code] is not a
    string.  The recursion follows nested [errno] objects. *)
Definition errno_of_code (fields : list (string * js)) : option Z :=
  match field "code" fields with
  | Some (JString code) =>
      let mapped := string_to_errno code in
      Some (if mapped =? 0 then EIO else mapped)
  | Some _ => None
  | None => Some EIO
  end.

Fixpoint ExtractErrnoFromValue (v : js) : option Z :=
  match v with
  | JNumber d => let err := Int32Value d in Some (if err <? 0 then s32 (- err) else err)
  | JBigInt z =>
      let '(err, lossless) := BigInt64Value z in
      if lossless then Some (if err <? 0 then s32 (- err) else s32 err) else Some EIO
  | JObject fields =>
      (fix errno_field (fs : list (string * js)) : option Z :=
         match fs with
         | [] => errno_of_code fields
         | (k, x) :: rest =>
             if String.eqb k "errno" then ExtractErrnoFromValue x else errno_field rest
         end) fields
  | _ => Some EIO
  end.

Definition ReplyWithErrorValue (c : context) (error_value : js) : prg unit :=
  match ExtractErrnoFromValue error_value with
  | Some errno_code => ReplyError c (if errno_code =? 0 then EIO else errno_code)
  | None => pthrow
  end.

(** ** Results of JavaScript handlers

    A handler returns a value or throws; a returned promise settles later,
    once.  The continuation is what [promise.then] registered. *)

Inductive hres := HReturn (v : js) | HThrow (v : js).
Definition jshandler := list js -> hres.
Inductive settlement := Fulfilled (v : js) | Rejected (reason : js).
Definition cont := settlement -> prg unit.

Definition Call (handler : jshandler) (args : list js) : prg js :=
  match handler args with
  | HReturn v => mret v
  | HThrow _ => pthrow
  end.

Definition ResolvePromiseOrValue (c : context) (result : js) (on_resolve : js -> prg unit)
    (on_reject : option (js -> prg unit)) : prg (option cont) :=
  let rejection_handler (reason : js) : prg unit :=
    match on_reject with
    | None => ReplyWithErrorValue c reason
    | Some f => pcatch (f reason) (ReplyWithErrorValue c reason)
    end in
  let resolve_cb (value : js) : prg unit := pcatch (on_resolve value) (ReplyError c EIO) in
  match result with
  | JPromise true =>
      mret (Some (fun st => match st with
                            | Fulfilled v => resolve_cb v
                            | Rejected r => rejection_handler r
                            end))
  | _ => _ ← resolve_cb result; mret None
  end.

(** ** ProcessRequest

    What the bridge sees of the handler registry and the dispatcher when a
    request arrives.  [dispatch_custom] is the id the dispatcher returns for
    an operation, 0 when it refuses the request. *)
Record benv := {
  HasOperationHandler : FuseOpType -> bool;
  GetGlobalDispatcher : bool;
  env_set : bool;
  InitializeGlobalDispatcher : bool;
  DispatchCustom : string -> Z;
}.

Definition invoker := jshandler -> prg (option cont).

(** A request the dispatcher holds: its two callbacks. *)
Record queued := {
  q_op : string;
  q_run : option jshandler -> prg (option cont);   (** [None]: not a function *)
  q_error : Z -> prg unit;
}.

Definition callback_fn (c : context) (inv : invoker) (handler : option jshandler)
    : prg (option cont) :=
  match handler with
  | None => _ ← ReplyError c EIO; mret None
  | Some h => inv h
  end.

Definition error_callback (c : context) (error_code : Z) : prg unit := fun s =>
  if decide (cid c ∈ replied s) then Done tt s
  else ReplyError c (if error_code =? 0 then EIO else error_code) s.

Definition dispatch (E : benv) (c : context) (inv : invoker) : prg (option queued) :=
  if DispatchCustom E (FuseOpTypeToString (op_type c)) =? 0 then
    _ ← ReplyError c EAGAIN; mret None
  else mret (Some {| q_op := FuseOpTypeToString (op_type c);
                     q_run := callback_fn c inv;
                     q_error := error_callback c |}).

Definition ProcessRequest (E : benv) (c : context) (inv : invoker) : prg (option queued) :=
  if negb (HasOperationHandler E (op_type c)) then
    _ ← ReplyError c ENOSYS; mret None
  else if GetGlobalDispatcher E then dispatch E c inv
  else if decide (op_type c = DESTROY) then _ ← ReplyOk c; mret None
  else if negb (env_set E) then _ ← ReplyError c EINVAL; mret None
  else if negb (InitializeGlobalDispatcher E) then _ ← ReplyError c EIO; mret None
  else dispatch E c inv.
End Bridge.
