(* ===== verification/BridgeOps.v ===== *)
(** * fuse_bridge.cc: the operation handlers

    One definition per [Handle*] method, with the JavaScript call it makes and
    the conversion of the result.  [on_*] are the callbacks given to
    [ResolvePromiseOrValue], [*_call] the lambdas given to [ProcessRequest].  A
    pointer argument that may be null is an [option]; [E] is what the handler
    sees of the registry and the dispatcher, [req] says whether the request is
    non-null and [id] names the context it creates. *)
From S2P Require Import Prelude Errno Sys LlDirent FuseBuf Napi Bridge.

Abbreviation FUSE_SET_ATTR_MODE := 1 (only parsing).
Abbreviation FUSE_SET_ATTR_UID := 2 (only parsing).
Abbreviation FUSE_SET_ATTR_GID := 4 (only parsing).
Abbreviation FUSE_SET_ATTR_SIZE := 8 (only parsing).
Abbreviation FUSE_SET_ATTR_ATIME := 16 (only parsing).
Abbreviation FUSE_SET_ATTR_MTIME := 32 (only parsing).
Abbreviation FUSE_SET_ATTR_ATIME_NOW := 128 (only parsing).
Abbreviation FUSE_SET_ATTR_MTIME_NOW := 256 (only parsing).
Abbreviation FUSE_SET_ATTR_CTIME := 1024 (only parsing).

(** [name ? name : ""] *)
Definition cstring (name : option string) : string := default ""%string name.
(** [context->has_fi ? FileInfoToObject(fi) : null] *)
Definition fi_value (fi : option fuse_file_info) : js :=
  match fi with Some f => FileInfoToObject f | None => JNull end.
(** [if (has_fi) options.Set("fi", ...)] *)
Definition fi_option (fi : option fuse_file_info) : list (string * js) :=
  match fi with Some f => [("fi"%string, FileInfoToObject f)] | None => [] end.
Definition no_options : js := JObject [].
Definition Number (z : Z) : js := JNumber (dbl z).

Section Ops.
Context `{NapiConv}.

(** What [PopulateEntryFromResult] says decides between the entry reply and
    an error. *)
Definition on_entry (c : context) (failure : Z) (value : js) : prg unit :=
  match PopulateEntryFromResult value with
  | Some entry => ReplyEntry c entry
  | None => ReplyError c failure
  end.

(** The attribute result shared by [getattr], [setattr], [truncate],
    [chmod] and [chown]. *)
Definition on_attr (c : context) (value : js) : prg unit :=
  if negb (IsObject value) then ReplyError c EIO
  else if negb (Has value "attr") then ReplyError c EIO
  else if negb (IsObject (Get value "attr")) then ReplyError c EIO
  else match ObjectToStat (Get value "attr") with
  | None => ReplyError c EIO
  | Some attr =>
      if Has value "timeout" then
        match read_timeout (Get value "timeout") with
        | Some timeout => ReplyAttr c attr timeout
        | None => ReplyError c EIO
        end
      else ReplyAttr c attr (dbl 1)
  end.

(** ** Operations that reply success or failure *)

Section Handlers.
Context (E : benv) (id : nat) (req : bool) (caller : option fuse_ctx).

Definition unlink_call (c : context) : invoker := fun handler =>
  result ← Call handler [JBigInt (c_parent c); JString (c_name c);
                       CreateRequestContextObject c; no_options];
  ResolvePromiseOrValue c result (fun _ => ReplyOk c) None.
Definition HandleUnlink (parent : Z) (name : option string) : prg (option queued) :=
  let c := set_name (cstring name) (set_parent parent (CreateContext id UNLINK req caller)) in
  ProcessRequest E c (unlink_call c).

Definition rmdir_call (c : context) : invoker := fun handler =>
  result ← Call handler [JBigInt (c_parent c); JString (c_name c);
                       CreateRequestContextObject c; no_options];
  ResolvePromiseOrValue c result (fun _ => ReplyOk c) None.
Definition HandleRmdir (parent : Z) (name : option string) : prg (option queued) :=
  let c := set_name (cstring name) (set_parent parent (CreateContext id RMDIR req caller)) in
  ProcessRequest E c (rmdir_call c).

(** A number result is an errno of either sign; anything else is success. *)
Definition on_flush (c : context) (value : js) : prg unit :=
  match value with
  | JNumber d =>
    let code := Int32Value d in
    if code =? 0 then ReplyOk c
    else ReplyError c (if 0 <? code then code else s32 (- code))
  | _ => ReplyOk c
  end.
Definition flush_call (c : context) : invoker := fun handler =>
  result ← Call handler [JBigInt (c_ino c); fi_value (c_fi c);
                       CreateRequestContextObject c; no_options];
  ResolvePromiseOrValue c result (on_flush c) (Some (ReplyWithErrorValue c)).
Definition HandleFlush (ino : Z) (fi : option fuse_file_info) : prg (option queued) :=
  let c := set_ino ino (CreateContext id FLUSH req caller) in
  if negb (HasOperationHandler E FLUSH) then _ ← ReplyOk c; mret None
  else let c := with_fi fi c in ProcessRequest E c (flush_call c).

(** The callbacks set the stack variable [replied].  On the synchronous path
    they have run when it is read; a promise settles after the frame is
    gone, so it still reads [false] and the handler replies success first. *)
Definition on_release (c : context) (value : js) : prg unit :=
  match value with
  | JNumber d =>
    let num := Int32Value d in
    if num =? 0 then ReplyOk c
    else ReplyError c (if num <? 0 then s32 (- num) else num)
  | _ => ReplyOk c
  end.
Definition release_call (c : context) : invoker := fun handler =>
  result ← Call handler [JBigInt (c_ino c); fi_value (c_fi c);
                       CreateRequestContextObject c; no_options];
  k ← ResolvePromiseOrValue c result (on_release c) (Some (ReplyWithErrorValue c));
  match k with
  | Some _ => _ ← ReplyOk c; mret k
  | None => mret None
  end.
Definition HandleRelease (ino : Z) (fi : option fuse_file_info) : prg (option queued) :=
  let c := CreateContext id RELEASE req caller in
  if negb (HasOperationHandler E FLUSH) then _ ← ReplyOk c; mret None
  else let c := with_fi fi (set_ino ino c) in ProcessRequest E c (release_call c).

Definition fsync_call (c : context) : invoker := fun handler =>
  result ← Call handler [JBigInt (c_ino c); JBoolean (negb (c_datasync c =? 0)); fi_value (c_fi c);
                       CreateRequestContextObject c; no_options];
  ResolvePromiseOrValue c result (fun _ => ReplyOk c) None.
Definition HandleFsync (ino datasync : Z) (fi : option fuse_file_info) : prg (option queued) :=
  let c := with_fi fi (set_datasync datasync (set_ino ino (CreateContext id FSYNC req caller))) in
  ProcessRequest E c (fsync_call c).

Definition releasedir_call (c : context) : invoker := fun handler =>
  result ← Call handler [JBigInt (c_ino c); fi_value (c_fi c);
                       CreateRequestContextObject c; no_options];
  ResolvePromiseOrValue c result (fun _ => ReplyOk c) None.
Definition HandleReleasedir (ino : Z) (fi : option fuse_file_info) : prg (option queued) :=
  let c := with_fi fi (set_ino ino (CreateContext id RELEASEDIR req caller)) in
  ProcessRequest E c (releasedir_call c).

Definition fsyncdir_call (c : context) : invoker := fun handler =>
  result ← Call handler [JBigInt (c_ino c); JBoolean (negb (c_datasync c =? 0)); fi_value (c_fi c);
                       CreateRequestContextObject c; no_options];
  ResolvePromiseOrValue c result (fun _ => ReplyOk c) None.
Definition HandleFsyncdir (ino datasync : Z) (fi : option fuse_file_info) : prg (option queued) :=
  let c := with_fi fi (set_datasync datasync (set_ino ino (CreateContext id FSYNCDIR req caller))) in
  ProcessRequest E c (fsyncdir_call c).

Definition access_call (c : context) : invoker := fun handler =>
  result ← Call handler [JBigInt (c_ino c); Number (c_access_mask c);
                       CreateRequestContextObject c; no_options];
  ResolvePromiseOrValue c result (fun _ => ReplyOk c) None.
Definition HandleAccess (ino mask : Z) : prg (option queued) :=
  let c := set_access_mask (u32 mask) (set_ino ino (CreateContext id ACCESS req caller)) in
  ProcessRequest E c (access_call c).

(** Only [undefined] and [null] count as success. *)
Definition on_rename (c : context) (value : js) : prg unit :=
  if IsNullish value then ReplyOk c else ReplyError c EIO.
Definition rename_call (c : context) : invoker := fun handler =>
  result ← Call handler [JBigInt (c_parent c); JString (c_name c); JBigInt (c_new_parent c);
                       JString (c_new_name c); Number (c_flags c);
                       CreateRequestContextObject c; no_options];
  ResolvePromiseOrValue c result (on_rename c) None.
Definition HandleRename (parent : Z) (name : option string) (newparent : Z)
  (newname : option string) (flags : Z) : prg (option queued) :=
  let c := set_flags (s32 flags) (set_new_name (cstring newname) (set_new_parent newparent
         (set_name (cstring name) (set_parent parent (CreateContext id RENAME req caller))))) in
  ProcessRequest E c (rename_call c).

Definition setlk_lock (lock : option flock) : js :=
  match lock with
  | Some l => JObject [("type", Number (l_type l)); ("start", JBigInt (l_start l));
                     ("len", JBigInt (l_len l)); ("pid", Number (l_pid l))]%string
  | None => JObject []
  end.
Definition setlk_call (c : context) : invoker := fun handler =>
  result ← Call handler [JBigInt (c_ino c); fi_value (c_fi c); setlk_lock (c_lock c);
                       JBoolean (negb (c_sleep c =? 0)); CreateRequestContextObject c; no_options];
  ResolvePromiseOrValue c result (fun _ => ReplyOk c) None.
Definition HandleSetlk (ino : Z) (fi : option fuse_file_info) (lock : option flock) (sleep : Z)
  : prg (option queued) :=
  let c := set_lock lock (with_fi fi (set_sleep sleep (set_ino ino
         (CreateContext id SETLK req caller)))) in
  ProcessRequest E c (setlk_call c).

(** The lock the handler returns is not read: a zeroed one is sent. *)
Definition on_getlk (c : context) (value : js) : prg unit :=
  if IsObject value && Has value "lock" && IsObject (Get value "lock")
  then ReplyGetlk c zero_flock else ReplyError c EIO.
Definition getlk_call (c : context) : invoker := fun handler =>
  result ← Call handler [JBigInt (c_ino c); fi_value (c_fi c); setlk_lock (c_lock c);
                       CreateRequestContextObject c; no_options];
  ResolvePromiseOrValue c result (on_getlk c) None.
Definition HandleGetlk (ino : Z) (fi : option fuse_file_info) (lock : option flock)
  : prg (option queued) :=
  let c := set_lock lock (with_fi fi (set_ino ino (CreateContext id GETLK req caller))) in
  ProcessRequest E c (getlk_call c).

(** ** Operations that reply an entry or attributes *)

Definition link_call (c : context) : invoker := fun handler =>
  result ← Call handler [JBigInt (c_ino c); JBigInt (c_new_parent c); JString (c_new_name c);
                         CreateRequestContextObject c; no_options];
  ResolvePromiseOrValue c result (on_entry c EIO) None.
Definition HandleLink (ino newparent : Z) (newname : option string) : prg (option queued) :=
  let c := set_new_name (cstring newname) (set_new_parent newparent (set_ino ino
           (CreateContext id LINK req caller))) in
  ProcessRequest E c (link_call c).

Definition lookup_call (c : context) : invoker := fun handler =>
  result ← Call handler [JBigInt (c_parent c); JString (c_name c);
                         CreateRequestContextObject c; no_options];
  ResolvePromiseOrValue c result (on_entry c ENOENT) None.
Definition HandleLookup (parent : Z) (name : option string) : prg (option queued) :=
  let c := set_name (cstring name) (set_parent parent (CreateContext id LOOKUP req caller)) in
  ProcessRequest E c (lookup_call c).

Definition mknod_call (c : context) : invoker := fun handler =>
  result ← Call handler [JBigInt (c_parent c); JString (c_name c); Number (c_mode c);
                         JBigInt (c_rdev c); CreateRequestContextObject c; no_options];
  ResolvePromiseOrValue c result (on_entry c EIO) None.
Definition HandleMknod (parent : Z) (name : option string) (mode rdev : Z) : prg (option queued) :=
  let c := set_rdev rdev (set_mode mode (set_name (cstring name) (set_parent parent
           (CreateContext id MKNOD req caller)))) in
  ProcessRequest E c (mknod_call c).

Definition mkdir_call (c : context) : invoker := fun handler =>
  result ← Call handler [JBigInt (c_parent c); JString (c_name c); Number (c_mode c);
                         CreateRequestContextObject c; no_options];
  ResolvePromiseOrValue c result (on_entry c EIO) None.
Definition HandleMkdir (parent : Z) (name : option string) (mode : Z) : prg (option queued) :=
  let c := set_mode mode (set_name (cstring name) (set_parent parent
           (CreateContext id MKDIR req caller))) in
  ProcessRequest E c (mkdir_call c).

Definition symlink_call (c : context) : invoker := fun handler =>
  result ← Call handler [JString (c_link_target c); JBigInt (c_parent c); JString (c_name c);
                         CreateRequestContextObject c; no_options];
  ResolvePromiseOrValue c result (on_entry c EIO) None.
Definition HandleSymlink (link : option string) (parent : Z) (name : option string)
    : prg (option queued) :=
  let c := set_name (cstring name) (set_parent parent (set_link_target (cstring link)
           (CreateContext id SYMLINK req caller))) in
  ProcessRequest E c (symlink_call c).

Definition getattr_call (c : context) : invoker := fun handler =>
  result ← Call handler [JBigInt (c_ino c); CreateRequestContextObject c; fi_value (c_fi c);
                         no_options];
  ResolvePromiseOrValue c result (on_attr c) None.
Definition HandleGetattr (ino : Z) (fi : option fuse_file_info) : prg (option queued) :=
  let c := with_fi fi (set_ino ino (CreateContext id GETATTR req caller)) in
  ProcessRequest E c (getattr_call c).

Definition chmod_call (c : context) : invoker := fun handler =>
  result ← Call handler [JBigInt (c_ino c); Number (c_mode c); CreateRequestContextObject c;
                         JObject ([("valid"%string, Number (c_setattr_valid c))] ++ fi_option (c_fi c))];
  ResolvePromiseOrValue c result (on_attr c) None.
Definition HandleChmod (ino mode : Z) (fi : option fuse_file_info) (to_set : Z)
    : prg (option queued) :=
  let c := with_fi fi (set_setattr_valid (u32 to_set) (set_mode mode (set_ino ino
           (CreateContext id CHMOD req caller)))) in
  ProcessRequest E c (chmod_call c).

(** The ids that were not asked for are passed as [null]. *)
Definition chown_id (c : context) (flag : Z) (field : stat -> Z) : js :=
  match c_attr c with
  | Some st => if has_flag (c_setattr_valid c) flag then Number (field st) else JNull
  | None => JNull
  end.
Definition chown_call (c : context) : invoker := fun handler =>
  result ← Call handler [JBigInt (c_ino c); chown_id c FUSE_SET_ATTR_UID st_uid;
                         chown_id c FUSE_SET_ATTR_GID st_gid; CreateRequestContextObject c;
                         JObject ([("valid"%string, Number (c_setattr_valid c))] ++ fi_option (c_fi c))];
  ResolvePromiseOrValue c result (on_attr c) None.
Definition HandleChown (ino : Z) (attr : option stat) (to_set : Z) (fi : option fuse_file_info)
    : prg (option queued) :=
  let c := with_fi fi (set_attr attr (set_setattr_valid (u32 to_set) (set_ino ino
           (CreateContext id CHOWN req caller)))) in
  ProcessRequest E c (chown_call c).

(** The truncate lambda captures the [attr] pointer itself, not the value: when
    it runs, the frame of the caller that held the structure has returned, and
    [attr_then] is what the memory holds by then. *)
Definition truncate_call (c : context) (attr_then : stat) : invoker := fun handler =>
  result ← Call handler [JBigInt (c_ino c); JBigInt (st_size attr_then);
                         CreateRequestContextObject c; JObject (fi_option (c_fi c))];
  ResolvePromiseOrValue c result (on_attr c) None.

Definition setattr_attr (st : stat) (valid : Z) : js :=
  let on (flag : Z) (key : string) (v : js) := if has_flag valid flag then [(key, v)] else [] in
  JObject (on FUSE_SET_ATTR_MODE "mode"%string (Number (st_mode st)) ++
           on FUSE_SET_ATTR_UID "uid"%string (Number (st_uid st)) ++
           on FUSE_SET_ATTR_GID "gid"%string (Number (st_gid st)) ++
           on FUSE_SET_ATTR_SIZE "size"%string (JBigInt (st_size st)) ++
           on FUSE_SET_ATTR_ATIME "atime"%string (TimespecToNsBigInt (st_atim st)) ++
           on FUSE_SET_ATTR_MTIME "mtime"%string (TimespecToNsBigInt (st_mtim st)) ++
           on FUSE_SET_ATTR_CTIME "ctime"%string (TimespecToNsBigInt (st_ctim st))).
Definition setattr_options (c : context) : js :=
  JObject ([("valid"%string, Number (c_setattr_valid c))] ++ fi_option (c_fi c) ++
           (if has_flag (c_setattr_valid c) FUSE_SET_ATTR_ATIME_NOW
            then [("atimeNow"%string, JBoolean true)] else []) ++
           (if has_flag (c_setattr_valid c) FUSE_SET_ATTR_MTIME_NOW
            then [("mtimeNow"%string, JBoolean true)] else [])).
Definition setattr_call (c : context) : invoker := fun handler =>
  result ← Call handler [JBigInt (c_ino c);
                         match c_attr c with
                         | Some st => setattr_attr st (c_setattr_valid c)
                         | None => JObject []
                         end;
                         CreateRequestContextObject c; setattr_options c];
  ResolvePromiseOrValue c result (on_attr c) None.

(** [to_set] is an [int] holding the low bits only, so [to_set & ~mask] is
    taken on the unsigned value. *)
Definition HandleSetattr (ino : Z) (attr : option stat) (to_set : Z)
    (fi : option fuse_file_info) (attr_then : stat) : prg (option queued) :=
  let mode_requested := has_flag to_set FUSE_SET_ATTR_MODE in
  let other_mode_bits := has_flag to_set (Z.lnot FUSE_SET_ATTR_MODE) in
  let uid_requested := has_flag to_set FUSE_SET_ATTR_UID in
  let gid_requested := has_flag to_set FUSE_SET_ATTR_GID in
  let chown_mask := Z.lor FUSE_SET_ATTR_UID FUSE_SET_ATTR_GID in
  let only_chown_bits := negb (has_flag to_set (Z.lnot chown_mask)) in
  let size_requested := has_flag to_set FUSE_SET_ATTR_SIZE in
  let only_size := negb (has_flag to_set (Z.lnot FUSE_SET_ATTR_SIZE)) in
  match attr with
  | None => _ ← ReplyError (CreateContext id SETATTR req caller) EINVAL; mret None
  | Some st =>
      if (uid_requested || gid_requested) && only_chown_bits && HasOperationHandler E CHOWN then
        HandleChown ino attr to_set fi
      else if mode_requested && negb other_mode_bits && HasOperationHandler E CHMOD then
        HandleChmod ino (st_mode st) fi to_set
      else if size_requested && only_size && HasOperationHandler E TRUNCATE then
        let tctx := with_fi fi (set_ino ino (CreateContext id TRUNCATE req caller)) in
        ProcessRequest E tctx (truncate_call tctx attr_then)
      else
        let c := with_fi fi (set_attr attr (set_setattr_valid (u32 to_set) (set_ino ino
                 (CreateContext id SETATTR req caller)))) in
        ProcessRequest E c (setattr_call c)
  end.

Definition on_readlink (c : context) (value : js) : prg unit :=
  match value with
  | JString target => ReplyReadlink c target
  | _ =>
      if IsObject value && Has value "target" then
        match Get value "target" with
        | JString target => ReplyReadlink c target
        | _ => ReplyError c EIO
        end
      else ReplyError c EIO
  end.
Definition readlink_call (c : context) : invoker := fun handler =>
  result ← Call handler [JBigInt (c_ino c); CreateRequestContextObject c; no_options];
  ResolvePromiseOrValue c result (on_readlink c) None.
Definition HandleReadlink (ino : Z) : prg (option queued) :=
  let c := set_ino ino (CreateContext id READLINK req caller) in
  ProcessRequest E c (readlink_call c).

(** ** Open, create and statfs *)

Definition on_open (c : context) (value : js) : prg unit :=
  match ObjectToFileInfo value with
  | Some fi_result => ReplyOpen c fi_result
  | None => ReplyUnsupported c
  end.
Definition open_options (c : context) : js :=
  JObject [("flags"%string, Number (match c_fi c with Some fi => fi_flags fi | None => 0 end))].
Definition open_call (c : context) : invoker := fun handler =>
  result ← Call handler [JBigInt (c_ino c); CreateRequestContextObject c; open_options c];
  ResolvePromiseOrValue c result (on_open c) None.
Definition HandleOpen (ino : Z) (fi : option fuse_file_info) : prg (option queued) :=
  let c := with_fi fi (set_ino ino (CreateContext id OPEN req caller)) in
  ProcessRequest E c (open_call c).

Definition on_opendir (c : context) (value : js) : prg unit :=
  match ObjectToFileInfo value with
  | Some fi_result => ReplyOpendir c fi_result
  | None => ReplyUnsupported c
  end.
Definition opendir_call (c : context) : invoker := fun handler =>
  result ← Call handler [JBigInt (c_ino c); CreateRequestContextObject c; open_options c];
  ResolvePromiseOrValue c result (on_opendir c) None.
Definition HandleOpendir (ino : Z) (fi : option fuse_file_info) : prg (option queued) :=
  let c := with_fi fi (set_ino ino (CreateContext id OPENDIR req caller)) in
  ProcessRequest E c (opendir_call c).

(** An absent or unusable timeout leaves the default; [timeout], read last,
    overrides both. *)
Definition timeout_field (value : js) (key : string) (old : double) : double :=
  if Has value key then default old (read_timeout (Get value key)) else old.
Definition create_timeouts (value : js) : double * double :=
  let attr_timeout := timeout_field value "attr_timeout" (timeout_field value "attrTimeout" (dbl 1)) in
  let entry_timeout := timeout_field value "entry_timeout" (timeout_field value "entryTimeout" (dbl 1)) in
  if Has value "timeout" then
    match read_timeout (Get value "timeout") with
    | Some shared_timeout => (shared_timeout, shared_timeout)
    | None => (attr_timeout, entry_timeout)
    end
  else (attr_timeout, entry_timeout).

Definition set_st_ino (ino : Z) (st : stat) : stat :=
  {| st_ino := ino; st_mode := st_mode st; st_nlink := st_nlink st; st_uid := st_uid st;
     st_gid := st_gid st; st_rdev := st_rdev st; st_size := st_size st;
     st_blksize := st_blksize st; st_blocks := st_blocks st; st_atim := st_atim st;
     st_mtim := st_mtim st; st_ctim := st_ctim st |}.

(** A lossy [ino] leaves an exception pending, so the next [Has] throws. *)
Definition on_create (c : context) (value : js) : prg unit :=
  if negb (IsObject value) then ReplyUnsupported c
  else if negb (Has value "fi" && Has value "attr") then ReplyUnsupported c
  else match ObjectToFileInfo (Get value "fi") with
  | None => ReplyError c EIO
  | Some fi_result =>
      match ObjectToStat (Get value "attr") with
      | None => ReplyError c EIO
      | Some attr =>
          let '(attr_timeout, entry_timeout) := create_timeouts value in
          ino ← (if Has value "ino" then GetBigUint64 (Get value "ino") else (mret 0 : prg Z));
          let derived_ino := if ino =? 0 then st_ino attr else ino in
          has_generation ← napi (Has value "generation");
          generation ← (if (has_generation : bool) then GetBigUint64 (Get value "generation") else (mret 0 : prg Z));
          ReplyCreate c {| e_ino := derived_ino; e_generation := generation;
                           e_attr := set_st_ino derived_ino attr;
                           e_attr_timeout := attr_timeout;
                           e_entry_timeout := entry_timeout |} fi_result
      end
  end.
Definition create_call (c : context) : invoker := fun handler =>
  result ← Call handler [JBigInt (c_parent c); JString (c_name c); Number (c_mode c);
                         CreateRequestContextObject c; JObject (fi_option (c_fi c))];
  ResolvePromiseOrValue c result (on_create c) None.
Definition HandleCreate (parent : Z) (name : option string) (mode : Z)
    (fi : option fuse_file_info) : prg (option queued) :=
  let c := with_fi fi (set_mode mode (set_name (cstring name) (set_parent parent
           (CreateContext id CREATE req caller)))) in
  ProcessRequest E c (create_call c).

(** ** Reads and writes *)

(** [BufvecHolder]: a zeroed vector of [count] buffers. *)
Definition BufvecHolder (count : nat) : fuse_bufvec :=
  {| bv_idx := 0; bv_off := 0;
     bv_buf := replicate count {| buf_size := 0; buf_flags := 0; buf_mem := None; buf_fd := 0;
                                  buf_pos := 0; buf_mem_size := 0 |} |}.

Definition js_fd_buf (entry : js) (size flags : Z) : string + fuse_buf :=
  if negb (Has entry "fd" && IsNumber (Get entry "fd")) then
    inl "read_buf fd buffer missing numeric 'fd'"%string
  else
    let fd := match Get entry "fd" with JNumber d => Int32Value d | _ => 0 end in
    let pos := if Has entry "pos" then
                 match Get entry "pos" with
                 | JBigInt z => let '(r, lossless) := BigInt64Value z in
                                if lossless then inr r
                                else inl "read_buf entry 'pos' must fit int64"%string
                 | JNumber d => inr (Int64Value d)
                 | _ => inl "read_buf entry 'pos' must be bigint or number"%string
                 end
               else inr 0 in
    match pos with
    | inl error => inl error
    | inr p => inr {| buf_size := size; buf_flags := flags; buf_mem := None; buf_fd := fd;
                      buf_pos := p; buf_mem_size := 0 |}
    end.

(** The bytes an [ArrayBuffer] or a typed array gives access to. *)
Definition mem_bytes (v : js) : option (list Z) :=
  match v with
  | JArrayBuffer data => Some data
  | JTypedArray store off len => Some (view_bytes store off len)
  | _ => None
  end.

Definition js_mem_buf (entry : js) (size flags : Z) : string + fuse_buf :=
  if negb (Has entry "mem") then inl "read_buf entry missing 'mem' ArrayBuffer"%string
  else match mem_bytes (Get entry "mem") with
  | None => inl "read_buf entry 'mem' must be ArrayBuffer or TypedArray"%string
  | Some bytes =>
      if lenZ bytes <? size then inl "read_buf entry 'mem' shorter than 'size'"%string
      else inr {| buf_size := size; buf_flags := flags;
                  buf_mem := Some (take (Z.to_nat size) bytes); buf_fd := -1; buf_pos := 0;
                  buf_mem_size := size |}
  end.

Definition js_buf (entry : js) : string + fuse_buf :=
  if negb (IsObject entry) then inl "read_buf entries must be objects"%string
  else if negb (Has entry "size") then inl "read_buf entry missing 'size'"%string
  else match TryGetSizeT (Get entry "size") with
  | None => inl "read_buf entry 'size' must be a non-negative integer"%string
  | Some size =>
      if Has entry "flags" && negb (IsNumber (Get entry "flags")) then
        inl "read_buf entry 'flags' must be a number"%string
      else
        let flags := match Get entry "flags" with JNumber d => Uint32Value d | _ => 0 end in
        if has_flag flags FUSE_BUF_IS_FD then js_fd_buf entry size flags
        else js_mem_buf entry size flags
  end.

Fixpoint js_bufs (entries : list js) : string + list fuse_buf :=
  match entries with
  | [] => inr []
  | e :: es => match js_buf e with
               | inl error => inl error
               | inr b => match js_bufs es with
                          | inl error => inl error
                          | inr bs => inr (b :: bs)
                          end
               end
  end.

(** [inl] is the message put in [*error_message] when the pointer is null. *)
Definition ConvertJsFuseBufvec (value : js) : string + fuse_bufvec :=
  if negb (IsObject value) then inl "read_buf result must be an object"%string
  else if negb (Has value "count") then inl "read_buf result missing 'count'"%string
  else match TryGetSizeT (Get value "count") with
  | None => inl "read_buf 'count' must be a non-negative integer"%string
  | Some count =>
  match (if Has value "idx" then TryGetSizeT (Get value "idx") else None) with
  | None => inl "read_buf result missing integer 'idx'"%string
  | Some idx =>
  match (if Has value "off" then TryGetSizeT (Get value "off") else None) with
  | None => inl "read_buf result missing integer 'off'"%string
  | Some off =>
  match Get value "buf" with
  | JArray items =>
      if lenZ items <? count then inl "read_buf 'buf' array shorter than 'count'"%string
      else match js_bufs (take (Z.to_nat count) items) with
      | inl error => inl error
      | inr bufs =>
          if count =? 0 then inr (BufvecHolder 0)
          else match nth_error bufs (Z.to_nat idx) with
          | None => inl "read_buf 'idx' out of range"%string
          | Some b =>
              if buf_size b <? off then inl "read_buf 'off' larger than buffer size"%string
              else inr {| bv_idx := idx; bv_off := off; bv_buf := bufs |}
          end
      end
  | _ => inl "read_buf result missing 'buf' array"%string
  end end end end.

(** The outcome of [fuse_reply_data] on the device: 0 or a negative errno.
    Either way libfuse has freed the request when it returns. *)
Context (fuse_reply_data_rc : fuse_bufvec -> Z).

Definition on_read_buf (c : context) (value : js) : prg unit :=
  match ConvertJsFuseBufvec value with
  | inl error => _ ← throw_js; ReplyError c EINVAL
  | inr holder =>
      _ ← keep_set c;
      _ ← emit (RData holder);
      let rc := fuse_reply_data_rc holder in
      if negb (rc =? 0) then ReplyError c (s32 (- rc))
      else _ ← TryMarkReplied c; keep_reset c
  end.
Definition read_options (c : context) : js :=
  JObject ([("offset"%string, JBigInt (c_offset c)); ("size"%string, Number (c_size c))] ++
           fi_option (c_fi c)).
Definition read_buf_call (c : context) : invoker := fun handler =>
  result ← Call handler [JBigInt (c_ino c); CreateRequestContextObject c; read_options c];
  ResolvePromiseOrValue c result (on_read_buf c) (Some (ReplyWithErrorValue c)).
Definition DispatchReadBuf (c : context) : prg (option queued) :=
  ProcessRequest E c (read_buf_call c).

Definition on_read (c : context) (value : js) : prg unit :=
  match mem_bytes value with
  | Some bytes => _ ← keep_set c; ReplyBuf c bytes
  | None => ReplyUnsupported c
  end.
Definition read_call (c : context) : invoker := fun handler =>
  result ← Call handler [JBigInt (c_ino c); CreateRequestContextObject c; read_options c];
  ResolvePromiseOrValue c result (on_read c) None.
Definition HandleRead (ino size off : Z) (fi : option fuse_file_info) : prg (option queued) :=
  let c := with_fi fi (set_offset (u64 off) (set_size size (set_ino ino
           (CreateContext id READ req caller)))) in
  if HasOperationHandler E READ_BUF then DispatchReadBuf (set_op_type READ_BUF c)
  else if negb (HasOperationHandler E READ) then _ ← ReplyError c ENOSYS; mret None
  else ProcessRequest E c (read_call c).
Definition HandleReadBuf (ino size off : Z) (fi : option fuse_file_info) : prg (option queued) :=
  HandleRead ino size off fi.

Definition write_options (c : context) : js :=
  JObject ([("offset"%string, JBigInt (c_offset c))] ++ fi_option (c_fi c)).
(** A BigInt or a number, taken as an unsigned count. *)
Definition on_write (c : context) (value : js) : prg unit :=
  match value with
  | JNumber d => ReplyWrite c (Uint32Value d)
  | JBigInt z => let '(written, lossless) := BigUint64Value z in
                 if lossless then ReplyWrite c written else ReplyUnsupported c
  | _ => ReplyUnsupported c
  end.
Definition on_write_bytes (c : context) (value : js) : prg unit :=
  match value with
  | JNumber d => ReplyWrite c (Uint32Value d)
  | JBigInt z => let '(written, lossless) := BigUint64Value z in
                 if lossless then ReplyWrite c written else ReplyUnsupported c
  | _ =>
      if IsObject value && Has value "bytes" then
        match Get value "bytes" with
        | JNumber d => ReplyWrite c (Uint32Value d)
        | _ => ReplyUnsupported c
        end
      else ReplyUnsupported c
  end.
(** One memory buffer, as the handler of [write_buf] sees it. *)
Definition js_mem_buf_object (size flags : Z) (data : list Z) : js :=
  JObject [("size", Number size); ("flags", Number flags); ("mem", JArrayBuffer data);
           ("memSize", Number size)]%string.
Definition write_bufvec_call (c : context) : invoker := fun handler =>
  let size := lenZ (c_data c) in
  let bufvec := JObject [("count", Number 1); ("idx", Number 0); ("off", Number 0);
                         ("buf", JArray [js_mem_buf_object size 0 (c_data c)])]%string in
  result ← Call handler [JBigInt (c_ino c); bufvec; CreateRequestContextObject c; write_options c];
  ResolvePromiseOrValue c result (on_write_bytes c) (Some (ReplyWithErrorValue c)).
Definition write_call (c : context) : invoker := fun handler =>
  result ← Call handler [JBigInt (c_ino c); JArrayBuffer (c_data c);
                         CreateRequestContextObject c; write_options c];
  ResolvePromiseOrValue c result (on_write c) None.
(** [buf] holds [size] bytes, or is null. *)
Definition HandleWrite (ino : Z) (buf : option (list Z)) (size off : Z)
    (fi : option fuse_file_info) : prg (option queued) :=
  let c := with_fi fi (set_offset (u64 off) (set_size size (set_ino ino
           (CreateContext id WRITE req caller)))) in
  let c := match buf with
           | Some bytes => if 0 <? size then set_data (take (Z.to_nat size) bytes) c else c
           | None => c
           end in
  if HasOperationHandler E WRITE_BUF then
    let c := set_op_type WRITE_BUF c in ProcessRequest E c (write_bufvec_call c)
  else if negb (HasOperationHandler E WRITE) then _ ← ReplyError c ENOSYS; mret None
  else ProcessRequest E c (write_call c).

(** *** write_buf *)

(** [pread fd count offset]: [None] for an error, else the bytes read, none at
    the end of the file. *)
Context (pread : Z -> Z -> Z -> option (list Z)).

(** The [while (done < sz)] loop; every round reads at least a byte, so [sz]
    rounds are enough. *)
Fixpoint pread_all (fuel : nat) (fd pos sz : Z) (acc : list Z) : option (list Z) :=
  if sz <=? lenZ acc then Some acc
  else match fuel with
  | O => None
  | S fuel' =>
      match pread fd (sz - lenZ acc) (pos + lenZ acc) with
      | None => None
      | Some bytes =>
          if lenZ bytes <=? 0 then None else pread_all fuel' fd pos sz (acc ++ bytes)
      end
  end.

Fixpoint linearize (bufs : list fuse_buf) (linear : list Z) : option (list Z) :=
  match bufs with
  | [] => Some linear
  | b :: rest =>
      let sz := buf_size b in
      if sz =? 0 then linearize rest linear
      else if has_flag (buf_flags b) FUSE_BUF_IS_FD then
        match pread_all (Z.to_nat sz) (buf_fd b) (buf_pos b) sz [] with
        | Some bytes => linearize rest (linear ++ bytes)
        | None => None
        end
      else match buf_mem b with
      | Some mem => linearize rest (linear ++ take (Z.to_nat sz) mem)
      | None => None
      end
  end.

(** [copies], [sizes] and [flags]; [None] when a non-empty buffer is null. *)
Fixpoint copy_bufs (bufs : list fuse_buf) : option (list (Z * Z * list Z)) :=
  match bufs with
  | [] => Some []
  | b :: rest =>
      if 0 <? buf_size b then
        match buf_mem b with
        | None => None
        | Some mem => match copy_bufs rest with
                      | Some l => Some ((buf_size b, buf_flags b, take (Z.to_nat (buf_size b)) mem) :: l)
                      | None => None
                      end
        end
      else match copy_bufs rest with
           | Some l => Some ((buf_size b, buf_flags b, []) :: l)
           | None => None
           end
  end.

Definition reply_count (c : context) (d : double) : prg unit :=
  let n := Int64Value d in
  if n <? 0 then ReplyError c (s32 (- n)) else ReplyWrite c n.
(** [handle_write_result] *)
Definition on_write_buf (c : context) (value : js) : prg unit :=
  match value with
  | JNumber d => reply_count c d
  | JBigInt z => let '(written, lossless) := BigUint64Value z in
                 if lossless then ReplyWrite c written else ReplyError c EIO
  | _ =>
      if IsObject value && Has value "bytes" then
        match Get value "bytes" with
        | JNumber d => reply_count c d
        | _ => ReplyError c EIO
        end
      else ReplyError c EIO
  end.
Definition write_buf_call (c : context) (copies : list (Z * Z * list Z)) (idx off : Z) : invoker :=
  fun handler =>
  let bufvec := JObject [("count", Number (lenZ copies)); ("idx", Number idx); ("off", Number off);
                         ("buf", JArray (map (fun '(size, flags, data) =>
                                                js_mem_buf_object size flags data) copies))]%string in
  result ← Call handler [JBigInt (c_ino c); bufvec; CreateRequestContextObject c; write_options c];
  ResolvePromiseOrValue c result (on_write_buf c) (Some (ReplyWithErrorValue c)).
Definition write_linear_call (c : context) (linear : list Z) : invoker := fun handler =>
  result ← Call handler [JBigInt (c_ino c); JArrayBuffer linear; CreateRequestContextObject c;
                         write_options c];
  ResolvePromiseOrValue c result (on_write_buf c) (Some (ReplyWithErrorValue c)).
Definition HandleWriteBuf (ino : Z) (bufv : fuse_bufvec) (off : Z) (fi : option fuse_file_info)
    : prg (option queued) :=
  let c := with_fi fi (set_size (fuse_buf_size (bv_buf bufv) 0) (set_offset (u64 off) (set_ino ino
           (CreateContext id WRITE_BUF req caller)))) in
  let has_write_buf := HasOperationHandler E WRITE_BUF in
  let has_write := HasOperationHandler E WRITE in
  if negb has_write_buf && negb has_write then _ ← ReplyError c ENOSYS; mret None
  else
    let contains_fd := existsb (fun b => has_flag (buf_flags b) FUSE_BUF_IS_FD) (bv_buf bufv) in
    if has_write_buf && negb contains_fd then
      match copy_bufs (bv_buf bufv) with
      | None => _ ← ReplyError c EIO; mret None
      | Some copies => ProcessRequest E c (write_buf_call c copies (bv_idx bufv) (bv_off bufv))
      end
    else
      let c := set_op_type WRITE c in
      match linearize (bv_buf bufv) [] with
      | None => _ ← ReplyError c EIO; mret None
      | Some linear => ProcessRequest E c (write_linear_call c linear)
      end.

Definition on_copy_file_range (c : context) (value : js) : prg unit :=
  match value with
  | JBigInt z => let '(copied, lossless) := BigUint64Value z in
                 if lossless then ReplyWrite c copied else ReplyUnsupported c
  | JNumber d => ReplyWrite c (Uint32Value d)
  | _ => ReplyUnsupported c
  end.
Definition copy_file_range_call (c : context) : invoker := fun handler =>
  result ← Call handler [JBigInt (c_ino c); JBigInt (c_offset c); fi_value (c_fi c);
                         JBigInt (c_new_parent c); JBigInt (c_new_offset c); fi_value (c_fi_out c);
                         JBigInt (c_size c); Number (c_flags c); CreateRequestContextObject c;
                         no_options];
  ResolvePromiseOrValue c result (on_copy_file_range c) None.
Definition HandleCopyFileRange (ino_in off_in : Z) (fi_in : option fuse_file_info) (ino_out off_out : Z)
    (fi_out : option fuse_file_info) (len flags : Z) : prg (option queued) :=
  let c := set_flags flags (set_size len (set_new_offset (u64 off_out) (set_new_parent ino_out
           (set_offset (u64 off_in) (set_ino ino_in (CreateContext id COPY_FILE_RANGE req caller)))))) in
  let c := match fi_out with Some _ => set_fi_out fi_out (with_fi fi_in c) | None => with_fi fi_in c end in
  ProcessRequest E c (copy_file_range_call c).

(** ** Directories *)

(** What [nextOffset] gives: [None] when the entry is to be refused. *)
Definition next_offset_value (next : js) : option Z :=
  match next with
  | JBigInt z => let '(r, lossless) := BigInt64Value z in
                 if negb lossless || (r <? 0) then None else Some r
  | JNumber d => let r := Int64Value d in if r <? 0 then None else Some r
  | _ => None
  end.

(** The loop over the entries.  [packed] is the written part of the buffer; the
    result is [None] when an error reply was sent.  Property reads fail while
    an exception from a bad [ino] is pending. *)
Fixpoint readdir_loop (c : context) (max_size : Z) (entries : list js) (packed : list Z)
    : prg (option (list Z)) :=
  match entries with
  | [] => mret (Some packed)
  | e :: rest =>
      item ← napi e;
      if negb (IsObject item) then readdir_loop c max_size rest packed
      else
        name ← AsUtf8 (Get item "name");
        ino ← GetBigUint64 (Get item "ino");
        has_type ← napi (Has item "type");
        type ← (if (has_type : bool) then AsUint32 (Get item "type") else (mret 0 : prg Z));
        if negb (Has item "nextOffset") then _ ← ReplyError c EIO; mret None
        else match next_offset_value (Get item "nextOffset") with
        | None => _ ← ReplyError c EIO; mret None
        | Some next_offset =>
            let st := {| st_ino := ino; st_mode := Z.shiftl (Z.land type 15) 12; st_nlink := 0;
                         st_uid := 0; st_gid := 0; st_rdev := 0; st_size := 0; st_blksize := 0;
                         st_blocks := 0; st_atim := zero_ts; st_mtim := zero_ts;
                         st_ctim := zero_ts |} in
            let need := (fuse_add_direntry None 0 name st next_offset).1 in
            if max_size - lenZ packed <? need then mret (Some packed)
            else
              let '(_, bytes) := fuse_add_direntry (Some tt) (max_size - lenZ packed) name st
                                   next_offset in
              readdir_loop c max_size rest (packed ++ bytes)
        end
  end.

Definition on_readdir (c : context) (value : js) : prg unit :=
  if negb (IsObject value) then ReplyError c EIO
  else match Get value "entries" with
  | JArray entries =>
      if c_size c =? 0 then ReplyBuf c []
      else
        packed ← readdir_loop c (c_size c) entries [];
        match packed with
        | Some bytes => _ ← keep_set c; ReplyBuf c bytes
        | None => mret tt
        end
  | _ => ReplyError c EIO
  end.
Definition readdir_args (c : context) : list js :=
  [JBigInt (c_ino c); JBigInt (c_offset c); CreateRequestContextObject c; fi_value (c_fi c);
   JObject [("size"%string, Number (c_size c))]].
Definition readdir_call (c : context) : invoker := fun handler =>
  result ← Call handler (readdir_args c);
  ResolvePromiseOrValue c result (on_readdir c) None.
Definition HandleReaddir (ino size off : Z) (fi : option fuse_file_info) : prg (option queued) :=
  let c := with_fi fi (set_offset (u64 off) (set_size size (set_ino ino
           (CreateContext id READDIR req caller)))) in
  ProcessRequest E c (readdir_call c).

(** The minimal attributes of an entry that carries none. *)
Definition make_min_entry (child_ino dirent_type : Z) : fuse_entry_param :=
  let mode := if dirent_type =? DT_DIR then Z.lor S_IFDIR 365
              else if dirent_type =? DT_LNK then Z.lor S_IFLNK 511
              else Z.lor S_IFREG 292 in
  {| e_ino := child_ino; e_generation := 0;
     e_attr := {| st_ino := child_ino; st_mode := mode; st_nlink := 0; st_uid := 0; st_gid := 0;
                  st_rdev := 0; st_size := 0; st_blksize := 0; st_blocks := 0;
                  st_atim := zero_ts; st_mtim := zero_ts; st_ctim := zero_ts |};
     e_attr_timeout := dbl 1; e_entry_timeout := dbl 1 |}.

Definition readdirplus_entry (item : js) : prg fuse_entry_param :=
  match PopulateEntryFromResult item with
  | Some e => mret e
  | None =>
      child_ino ← (if Has item "ino" then GetBigUint64 (Get item "ino") else (mret 0 : prg Z));
      has_type ← napi (Has item "type");
      mret (make_min_entry child_ino
              (if (has_type : bool) then
                 match Get item "type" with JNumber d => Int32Value d | _ => DT_UNKNOWN end
               else DT_UNKNOWN))
  end.

(** An absent [nextOffset] counts from the offset of the request. *)
Definition readdirplus_next (c : context) (i : Z) (next : js) : option Z :=
  match next with
  | JBigInt _ | JNumber _ => next_offset_value next
  | _ => Some (s64 (u64 (c_offset c + i + 1)))
  end.

Fixpoint readdirplus_loop (c : context) (max_size i : Z) (entries : list js) (packed : list Z)
    : prg (option (list Z)) :=
  match entries with
  | [] => mret (Some packed)
  | e :: rest =>
      item ← napi e;
      match (if IsObject item then Get item "name" else JUndefined) with
      | JString name =>
          match readdirplus_next c i (Get item "nextOffset") with
          | None => _ ← ReplyError c EIO; mret None
          | Some next_offset =>
              e ← readdirplus_entry item;
              let need := (fuse_add_direntry_plus None 0 name e next_offset).1 in
              if max_size - lenZ packed <? need then mret (Some packed)
              else
                let '(_, bytes) := fuse_add_direntry_plus (Some tt) (max_size - lenZ packed) name e
                                     next_offset in
                readdirplus_loop c max_size (i + 1) rest (packed ++ bytes)
          end
      | _ => readdirplus_loop c max_size (i + 1) rest packed
      end
  end.

Definition write_entries_and_reply (c : context) (entries : list js) (max_size : Z) : prg unit :=
  if max_size =? 0 then ReplyBuf c []
  else
    packed ← readdirplus_loop c max_size 0 entries [];
    match packed with
    | Some bytes => _ ← keep_set c; ReplyBuf c bytes
    | None => mret tt
    end.

Definition on_readdirplus (c : context) (value : js) : prg unit :=
  match Get value "entries" with
  | JArray entries =>
      if IsObject value then write_entries_and_reply c entries (c_size c) else ReplyError c EIO
  | _ => ReplyError c EIO
  end.
Definition readdirplus_call (c : context) : invoker := fun handler =>
  result ← Call handler (readdir_args c);
  ResolvePromiseOrValue c result (on_readdirplus c) (Some (ReplyWithErrorValue c)).
(** The fallback uses two contexts for one request: the listing is sent through
    the first, [c], the errors through [rd_ctx]. *)
Definition on_readdir_fallback (c rd_ctx : context) (value : js) : prg unit :=
  match value with
  | JArray entries => write_entries_and_reply c entries (c_size rd_ctx)
  | _ => match Get value "entries" with
         | JArray entries =>
             if IsObject value then write_entries_and_reply c entries (c_size rd_ctx)
             else ReplyError rd_ctx EIO
         | _ => ReplyError rd_ctx EIO
         end
  end.
Definition readdir_fallback_call (c rd_ctx : context) : invoker := fun handler =>
  result ← Call handler (readdir_args rd_ctx);
  ResolvePromiseOrValue rd_ctx result (on_readdir_fallback c rd_ctx)
    (Some (ReplyWithErrorValue rd_ctx)).
Definition HandleReaddirplus (id2 : nat) (ino size off : Z) (fi : option fuse_file_info)
    : prg (option queued) :=
  let c := with_fi fi (set_offset (u64 off) (set_size size (set_ino ino
           (CreateContext id READDIRPLUS req caller)))) in
  let has_readdirplus := HasOperationHandler E READDIRPLUS in
  let has_readdir := HasOperationHandler E READDIR in
  if negb has_readdirplus && negb has_readdir then _ ← ReplyError c ENOSYS; mret None
  else if has_readdirplus then ProcessRequest E c (readdirplus_call c)
  else
    let rd_ctx := with_fi (c_fi c) (set_offset (c_offset c) (set_size (c_size c) (set_ino (c_ino c)
                  (CreateContext id2 READDIR req caller)))) in
    ProcessRequest E rd_ctx (readdir_fallback_call c rd_ctx).

(** ** Statfs, locks' neighbours and device operations *)

(** [ObjectToStatvfs]: a wrong number type throws, a bad BigInt leaves an
    exception pending, which the next [Has] throws. *)
Definition number_member (obj : js) (key : string) (old : Z) : prg Z :=
  has ← napi (Has obj key);
  if (has : bool) then AsUint32 (Get obj key) else mret old.
Definition bigint_member (obj : js) (key : string) (old : Z) : prg Z :=
  has ← napi (Has obj key);
  if (has : bool) then GetBigUint64 (Get obj key) else mret old.
Definition ObjectToStatvfs (obj : js) : prg statvfs :=
  bsize ← number_member obj "bsize" 0;
  frsize ← number_member obj "frsize" 0;
  blocks ← bigint_member obj "blocks" 0;
  bfree ← bigint_member obj "bfree" 0;
  bavail ← bigint_member obj "bavail" 0;
  files ← bigint_member obj "files" 0;
  ffree ← bigint_member obj "ffree" 0;
  favail ← bigint_member obj "favail" 0;
  fsid ← bigint_member obj "fsid" 0;
  flag ← number_member obj "flag" 0;
  namemax ← number_member obj "namemax" 0;
  mret {| f_bsize := bsize; f_frsize := frsize; f_blocks := blocks; f_bfree := bfree;
          f_bavail := bavail; f_files := files; f_ffree := ffree; f_favail := favail;
          f_fsid := fsid; f_flag := flag; f_namemax := namemax |}.
Definition on_statfs (c : context) (value : js) : prg unit :=
  if negb (IsObject value) then ReplyError c EIO
  else st ← ObjectToStatvfs value; ReplyStatfs c st.
Definition statfs_call (c : context) : invoker := fun handler =>
  result ← Call handler [JBigInt (c_ino c); CreateRequestContextObject c; no_options];
  ResolvePromiseOrValue c result (on_statfs c) None.
Definition HandleStatfs (ino : Z) : prg (option queued) :=
  let c := set_ino ino (CreateContext id STATFS req caller) in
  ProcessRequest E c (statfs_call c).

(** [fuse_reply_bmap] is called on the request directly, past the guard. *)
Definition on_bmap (c : context) (value : js) : prg unit :=
  if IsObject value && Has value "block" then
    block ← GetBigUint64 (Get value "block"); emit (RBmap block)
  else ReplyError c EIO.
Definition bmap_call (c : context) : invoker := fun handler =>
  result ← Call handler [JBigInt (c_ino c); Number (c_size c); JBigInt (c_offset c);
                         CreateRequestContextObject c; no_options];
  ResolvePromiseOrValue c result (on_bmap c) None.
Definition HandleBmap (ino blocksize idx : Z) : prg (option queued) :=
  let c := set_offset idx (set_size blocksize (set_ino ino (CreateContext id BMAP req caller))) in
  ProcessRequest E c (bmap_call c).

(** [IsBuffer] holds of typed arrays. *)
Definition buffer_bytes (v : js) : option (list Z) :=
  match v with JTypedArray store off len => Some (view_bytes store off len) | _ => None end.

Definition on_ioctl (c : context) (out_bufsz : Z) (value : js) : prg unit :=
  if IsObject value && Has value "result" then
    match buffer_bytes (Get value "result") with
    | Some buf => if out_bufsz <? lenZ buf then ReplyError c ERANGE else emit (RIoctl 0 buf)
    | None => ReplyError c EIO
    end
  else ReplyError c EIO.
Definition ioctl_call (c : context) (out_bufsz : Z) : invoker := fun handler =>
  result ← Call handler [JBigInt (c_ino c); Number (c_flags c); fi_value (c_fi c);
                         match c_data c with [] => JNull | data => JArrayBuffer data end;
                         CreateRequestContextObject c;
                         JObject [("out_bufsz"%string, Number out_bufsz)]];
  ResolvePromiseOrValue c result (on_ioctl c out_bufsz) None.
Definition HandleIoctl (ino cmd : Z) (fi : option fuse_file_info) (in_buf : option (list Z))
    (in_bufsz out_bufsz : Z) : prg (option queued) :=
  let c := with_fi fi (set_flags cmd (set_ino ino (CreateContext id IOCTL req caller))) in
  let c := match in_buf with
           | Some bytes => if 0 <? in_bufsz then set_data (take (Z.to_nat in_bufsz) bytes) c else c
           | None => c
           end in
  ProcessRequest E c (ioctl_call c out_bufsz).

(** ** Poll handles

    The registry maps a handle to the bridge that owns it ([this]); a null
    handle is [None]. *)
Context (this : Z).

Definition RegisterPollHandle (handle : option Z) : prg bool :=
  match handle with
  | None => mret false
  | Some h => _ ← pmodify (fun s => set_polls (<[h := this]> (polls s)) (destroyed s) s); mret true
  end.
Definition ReleasePollHandle (handle : option Z) (destroy_handle : bool) : prg unit :=
  match handle with
  | None => mret tt
  | Some h => pmodify (fun s => set_polls (delete h (polls s))
                                  (if destroy_handle then destroyed s ++ [h] else destroyed s) s)
  end.
(** The registry is walked once; the handles of this bridge are destroyed. *)
Definition owned_handles (p : gmap Z Z) : list Z :=
  map fst (filter (fun kv : Z * Z => kv.2 = this) (map_to_list p)).
Definition CleanupPollHandles : prg unit :=
  pmodify (fun s =>
    set_polls (filter (fun kv : Z * Z => kv.2 <> this) (polls s))
              (destroyed s ++ owned_handles (polls s)) s).
(** [notify_rc] is the result of [fuse_lowlevel_notify_poll]. *)
Definition NotifyPollHandle (notify_rc : Z -> Z) (handle_value : Z) (destroy_after : bool)
    : prg bool := fun s =>
  match polls s !! handle_value with
  | None => Done false s
  | Some _ =>
      let rc := notify_rc handle_value in
      let s := if destroy_after
               then set_polls (delete handle_value (polls s)) (destroyed s ++ [handle_value]) s
               else s in
      Done (rc =? 0) s
  end.
Definition DestroyPollHandle (handle_value : Z) : prg bool := fun s =>
  match polls s !! handle_value with
  | None => Done false s
  | Some _ =>
      Done true (set_polls (delete handle_value (polls s)) (destroyed s ++ [handle_value]) s)
  end.

Definition poll_revents (value : js) : option Z :=
  if IsObject value then
    match Get value "revents" with JNumber d => Some (Uint32Value d) | _ => None end
  else None.
Definition poll_keep (value : js) : bool :=
  IsObject value && Has value "keepPolling" && ToBoolean (Get value "keepPolling").
Definition on_poll (c : context) (ph : option Z) (value : js) : prg unit :=
  match poll_revents value with
  | None => _ ← ReplyError c EIO; ReleasePollHandle ph true
  | Some revents =>
      _ ← emit (RPoll revents);
      if poll_keep value then mret tt else ReleasePollHandle ph true
  end.
Definition on_poll_reject (c : context) (ph : option Z) (reason : js) : prg unit :=
  _ ← ReleasePollHandle ph true; ReplyWithErrorValue c reason.
Definition poll_requested (c : context) : Z :=
  match c_fi c with Some fi => fi_poll_events fi | None => 0 end.
Definition poll_handle_object (c : context) (ph : option Z) : js :=
  match ph with
  | None => JObject []
  | Some h => JObject ([("kh"%string, JBigInt h)] ++
                       match c_fi c with Some fi => [("fh"%string, JBigInt (fi_fh fi))] | None => [] end ++
                       [("events"%string, Number (poll_requested c))])
  end.
Definition poll_call (c : context) (ph : option Z) : invoker := fun handler =>
  result ← Call handler [JBigInt (c_ino c); fi_value (c_fi c); poll_handle_object c ph;
                         Number (poll_requested c); CreateRequestContextObject c; no_options];
  ResolvePromiseOrValue c result (on_poll c ph) (Some (on_poll_reject c ph)).
Definition HandlePoll (ino : Z) (fi : option fuse_file_info) (ph : option Z) : prg (option queued) :=
  let c := with_fi fi (set_ino ino (CreateContext id POLL req caller)) in
  _ ← RegisterPollHandle ph;
  ProcessRequest E c (poll_call c ph).

(** ** Lifecycle *)

Record fuse_conn_info := {
  proto_major : Z; proto_minor : Z; max_write : Z; max_readahead : Z; want : Z;
}.
Definition init_call (c : context) (conn : fuse_conn_info) : invoker := fun handler =>
  result ← Call handler [JObject [("protoMajor", Number (proto_major conn));
                                  ("protoMinor", Number (proto_minor conn))]%string;
                         CreateRequestContextObject c];
  ResolvePromiseOrValue c result (fun _ => ReplyOk c) None.
(** [FUSE_CAP_ASYNC_READ], [FUSE_CAP_WRITEBACK_CACHE] and
    [FUSE_CAP_SPLICE_READ] are bits 0, 16 and 9.  The second component is
    [*conn] after the call. *)
Definition init_conn (conn : fuse_conn_info) : fuse_conn_info :=
  {| proto_major := proto_major conn; proto_minor := proto_minor conn; max_write := 4096 * 4;
     max_readahead := 4096 * 4; want := Z.lor (want conn) (Z.lor (Z.lor 1 65536) 512) |}.
Definition HandleInit (conn : fuse_conn_info) : prg (option queued * fuse_conn_info) :=
  let c := CreateContext id INIT req caller in
  let conn := init_conn conn in
  q ← ProcessRequest E c (init_call c conn);
  mret (q, conn).

(** The registry is cleared first, so the test for a handler always fails. *)
Definition clear_registry (E : benv) : benv :=
  {| HasOperationHandler := fun _ => false; GetGlobalDispatcher := GetGlobalDispatcher E;
     env_set := env_set E; InitializeGlobalDispatcher := InitializeGlobalDispatcher E;
     DispatchCustom := DispatchCustom E |}.
Definition destroy_call (c : context) : invoker := fun handler =>
  result ← Call handler [CreateRequestContextObject c];
  ResolvePromiseOrValue c result (fun _ => if request c then emit (RErr 0) else mret tt) None.
Definition HandleDestroy : prg (option queued) :=
  let c := CreateContext id DESTROY req caller in
  let E := clear_registry E in
  if negb (GetGlobalDispatcher E) || negb (HasOperationHandler E DESTROY) then
    _ ← (if request c then emit (RErr 0) else mret tt); mret None
  else ProcessRequest E c (destroy_call c).

Definition HandleForget (ino nlookup : Z) : prg (option queued) :=
  _ ← (if req then emit RNone else mret tt); mret None.
Definition HandleForgetMulti (forgets : list (Z * Z)) : prg (option queued) :=
  _ ← (if req then emit RNone else mret tt); mret None.

(** ** Extended attributes *)

Definition setxattr_call (c : context) : invoker := fun handler =>
  result ← Call handler [JBigInt (c_ino c); JString (c_name c);
                         JTypedArray (c_data c) 0 (length (c_data c)); Number (c_flags c);
                         CreateRequestContextObject c];
  ResolvePromiseOrValue c result (fun _ => ReplyOk c) None.
Definition HandleSetxattr (ino : Z) (name : option string) (value : option (list Z)) (size flags : Z)
    : prg (option queued) :=
  let c := set_flags flags (set_size size (set_name (cstring name) (set_ino ino
           (CreateContext id SETXATTR req caller)))) in
  let c := match value with
           | Some bytes => if 0 <? size then set_data (take (Z.to_nat size) bytes) c else c
           | None => c
           end in
  ProcessRequest E c (setxattr_call c).

Definition xattr_options (c : context) : js := JObject [("size"%string, Number (c_size c))].
Definition on_getxattr (c : context) (value : js) : prg unit :=
  match buffer_bytes value with
  | Some buf =>
      if c_size c =? 0 then emit (RXattr (lenZ buf))
      else if c_size c <? lenZ buf then ReplyError c ERANGE
      else _ ← keep_set c; ReplyBuf c buf
  | None => match value with
            | JNumber d => emit (RXattr (Uint32Value d))
            | _ => ReplyError c EIO
            end
  end.
Definition getxattr_call (c : context) : invoker := fun handler =>
  result ← Call handler [JBigInt (c_ino c); JString (c_name c); CreateRequestContextObject c;
                         xattr_options c];
  ResolvePromiseOrValue c result (on_getxattr c) None.
Definition HandleGetxattr (ino : Z) (name : option string) (size : Z) : prg (option queued) :=
  let c := set_size size (set_name (cstring name) (set_ino ino (CreateContext id GETXATTR req caller))) in
  ProcessRequest E c (getxattr_call c).

(** The names joined, each followed by a NUL; a name that is not a string
    throws. *)
Fixpoint xattr_list (names : list js) (acc : list Z) : prg (list Z) :=
  match names with
  | [] => mret acc
  | v :: rest => name ← AsUtf8 v; xattr_list rest (acc ++ str_bytes name ++ [0])
  end.
Definition on_listxattr (c : context) (value : js) : prg unit :=
  match value with
  | JArray names =>
      list ← xattr_list names [];
      if c_size c =? 0 then emit (RXattr (lenZ list))
      else if c_size c <? lenZ list then ReplyError c ERANGE
      else _ ← keep_set c; ReplyBuf c list
  | JNumber d => emit (RXattr (Uint32Value d))
  | _ => ReplyError c EIO
  end.
Definition listxattr_call (c : context) : invoker := fun handler =>
  result ← Call handler [JBigInt (c_ino c); CreateRequestContextObject c; xattr_options c];
  ResolvePromiseOrValue c result (on_listxattr c) None.
Definition HandleListxattr (ino size : Z) : prg (option queued) :=
  let c := set_size size (set_ino ino (CreateContext id LISTXATTR req caller)) in
  ProcessRequest E c (listxattr_call c).

Definition removexattr_call (c : context) : invoker := fun handler =>
  result ← Call handler [JBigInt (c_ino c); JString (c_name c); CreateRequestContextObject c;
                         no_options];
  ResolvePromiseOrValue c result (fun _ => ReplyOk c) None.
Definition HandleRemovexattr (ino : Z) (name : option string) : prg (option queued) :=
  let c := set_name (cstring name) (set_ino ino (CreateContext id REMOVEXATTR req caller)) in
  ProcessRequest E c (removexattr_call c).

(** ** The callbacks libfuse calls

    A request as the [fuse_lowlevel_ops] table delivers it, and the handler its
    callback reaches.  The context made second gets the next id. *)
Definition Handle (o : fuse_request) : prg (option queued) :=
  match o with
  | QDestroy => HandleDestroy
  | QForget ino nlookup => HandleForget ino nlookup
  | QForgetMulti forgets => HandleForgetMulti forgets
  | QLookup parent name => HandleLookup parent name
  | QGetattr ino fi => HandleGetattr ino fi
  | QSetattr ino attr to_set fi attr_then => HandleSetattr ino attr to_set fi attr_then
  | QReadlink ino => HandleReadlink ino
  | QMknod parent name mode rdev => HandleMknod parent name mode rdev
  | QMkdir parent name mode => HandleMkdir parent name mode
  | QUnlink parent name => HandleUnlink parent name
  | QRmdir parent name => HandleRmdir parent name
  | QSymlink link parent name => HandleSymlink link parent name
  | QRename parent name newparent newname flags => HandleRename parent name newparent newname flags
  | QLink ino newparent newname => HandleLink ino newparent newname
  | QOpen ino fi => HandleOpen ino fi
  | QRead ino size off fi => HandleRead ino size off fi
  | QWrite ino buf size off fi => HandleWrite ino buf size off fi
  | QWriteBuf ino bufv off fi => HandleWriteBuf ino bufv off fi
  | QFlush ino fi => HandleFlush ino fi
  | QRelease ino fi => HandleRelease ino fi
  | QFsync ino datasync fi => HandleFsync ino datasync fi
  | QOpendir ino fi => HandleOpendir ino fi
  | QReaddir ino size off fi => HandleReaddir ino size off fi
  | QReaddirplus ino size off fi => HandleReaddirplus (S id) ino size off fi
  | QReleasedir ino fi => HandleReleasedir ino fi
  | QFsyncdir ino datasync fi => HandleFsyncdir ino datasync fi
  | QStatfs ino => HandleStatfs ino
  | QAccess ino mask => HandleAccess ino mask
  | QCreate parent name mode fi => HandleCreate parent name mode fi
  | QCopyFileRange ino_in off_in fi_in ino_out off_out fi_out len flags =>
      HandleCopyFileRange ino_in off_in fi_in ino_out off_out fi_out len flags
  | QSetxattr ino name value size flags => HandleSetxattr ino name value size flags
  | QGetxattr ino name size => HandleGetxattr ino name size
  | QListxattr ino size => HandleListxattr ino size
  | QRemovexattr ino name => HandleRemovexattr ino name
  | QGetlk ino fi lock => HandleGetlk ino fi lock
  | QSetlk ino fi lock sleep => HandleSetlk ino fi lock sleep
  | QBmap ino blocksize idx => HandleBmap ino blocksize idx
  | QIoctl ino cmd fi in_buf in_bufsz out_bufsz => HandleIoctl ino cmd fi in_buf in_bufsz out_bufsz
  | QPoll ino fi ph => HandlePoll ino fi ph
  end.

(** [*Callback]: without a bridge behind the session the request is refused
    ([forget] gets its empty reply, [destroy] has no request). *)
Definition Callback (bridge : bool) (o : fuse_request) : prg (option queued) :=
  if bridge then Handle o
  else match o with
       | QForget _ _ | QForgetMulti _ => _ ← emit RNone; mret None
       | QDestroy => mret None
       | QSetattr _ _ _ _ _ => _ ← (if req then emit (RErr ENODEV) else mret tt); mret None
       | _ => _ ← emit (RErr ENODEV); mret None
       end.

End Handlers.
End Ops.
