(* ===== verification/BridgeProps.v ===== *)
(** * The life of a request in the bridge

    What becomes of a request after its handler: it is cancelled, or its
    callback runs once on the JavaScript thread and, when the handler returned
    a promise, the continuation runs once.  The theorems say how many replies
    the request gets, and which. *)
From S2P Require Import Prelude Errno Sys LlDirent FuseBuf Napi Bridge BridgeOps.

(** ** Lives *)

(** The code [HandleCallbackError] passes when a callback throws. *)
Definition callback_error : Z := -5.

Inductive fate :=
  | Cancelled (codes : list Z)
  | Ran (handler : option jshandler) (settled : settlement).

Section Props.
Context `{NapiConv}.

Fixpoint cancel (q : queued) (codes : list Z) : prg unit :=
  match codes with
  | [] => mret tt
  | code :: rest => _ ← q_error q code; cancel q rest
  end.

(** An exception still pending when a callback returns does not outlive it. *)
Definition life (q : option queued) (f : fate) : prg unit := fun s =>
  match q, f with
  | None, _ => Done tt s
  | Some q, Cancelled codes => cancel q codes s
  | Some q, Ran h st =>
      match q_run q h s with
      | Done None s' => Done tt s'
      | Done (Some k) s' => k st (set_pending false s')
      | Throws s' => q_error q callback_error (set_pending false s')
      | Stuck mu s' => Stuck mu s'
      end
  end.

(** The events of a request when nothing is assumed of their order or number:
    runs, error callbacks and settlements. *)
Inductive event (q : queued) : list cont * bst -> list cont * bst -> Prop :=
  | ev_run h cs s s' :
      q_run q h s = Done None s' -> event q (cs, s) (cs, set_pending false s')
  | ev_run_promise h cs s k s' :
      q_run q h s = Done (Some k) s' -> event q (cs, s) (k :: cs, set_pending false s')
  | ev_run_throws h cs s s' :
      q_run q h s = Throws s' -> event q (cs, s) (cs, set_pending false s')
  | ev_error code cs s s' :
      q_error q code s = Done tt s' -> event q (cs, s) (cs, set_pending false s')
  | ev_settle k st cs s s' :
      k ∈ cs -> k st s = Done tt s' -> event q (cs, s) (cs, set_pending false s')
  | ev_settle_throws k st cs s s' :
      k ∈ cs -> k st s = Throws s' -> event q (cs, s) (cs, set_pending false s').

(** ** Assertions *)

(** Nothing was sent and no context has replied. *)
Definition fresh (s : bst) : Prop := sent s = [] /\ replied s = ∅.
Definition answered (s : bst) : Prop := length (sent s) = 1%nat.
Definition marked (c : context) (s : bst) : Prop := answered s /\ cid c ∈ replied s.
(** What the guard of [c] keeps: a reply is on record only once [c] has
    replied, and there is at most one. *)
Definition guard_ok (c : context) (s : bst) : Prop :=
  (cid c ∉ replied s -> sent s = []) /\ (length (sent s) <= 1)%nat.

(** Assertions that depend on the replies alone. *)
Class SentOnly (P : bst -> Prop) :=
  sent_only : forall s s', sent s = sent s' -> replied s = replied s' -> P s -> P s'.

#[export] Instance fresh_sent_only : SentOnly fresh.
Proof. intros s s' Hs Hr [??]. split; congruence. Qed.
#[export] Instance answered_sent_only : SentOnly answered.
Proof. intros s s' Hs Hr. unfold answered. by rewrite Hs. Qed.
#[export] Instance marked_sent_only c : SentOnly (marked c).
Proof. intros s s' Hs Hr [??]. split; [by eapply sent_only|by rewrite <- Hr]. Qed.
#[export] Instance guard_ok_sent_only c : SentOnly (guard_ok c).
Proof. intros s s' Hs Hr. unfold guard_ok. by rewrite Hs, Hr. Qed.

(** ** Triples of the basic operations *)

Lemma calm_modify (P : bst -> Prop) `{!SentOnly P} f R :
  (forall s, sent (f s) = sent s) -> (forall s, replied (f s) = replied s) ->
  triple P (pmodify f) (fun _ => P) R.
Proof. intros Hs Hr. apply triple_modify. intros s. by apply sent_only. Qed.

Lemma keep_set_calm P `{!SentOnly P} c R : triple P (keep_set c) (fun _ => P) R.
Proof. by apply calm_modify. Qed.
Lemma keep_reset_calm P `{!SentOnly P} c R : triple P (keep_reset c) (fun _ => P) R.
Proof. by apply calm_modify. Qed.
Lemma throw_js_calm P `{!SentOnly P} R : triple P throw_js (fun _ => P) R.
Proof. by apply calm_modify. Qed.
Lemma register_calm P `{!SentOnly P} this h R : triple P (RegisterPollHandle this h) (fun _ => P) R.
Proof.
  destruct h; simpl; [|by apply triple_ret].
  eapply triple_bind; [by apply calm_modify|]. intros ?. by apply triple_ret.
Qed.
Lemma release_calm P `{!SentOnly P} h d R : triple P (ReleasePollHandle h d) (fun _ => P) R.
Proof. destruct h; simpl; [by apply calm_modify|by apply triple_ret]. Qed.
Lemma napi_calm {A} P `{!SentOnly P} (a : A) : triple P (napi a) (fun _ => P) P.
Proof. intros s Hs. unfold napi. destruct (pending s); [exact (sent_only (P:=P) s (set_pending false s) eq_refl eq_refl Hs)|done]. Qed.
Lemma AsUint32_calm P v : triple P (AsUint32 v) (fun _ => P) P.
Proof. destruct v; simpl; (by apply triple_throw) || (by apply triple_ret). Qed.
Lemma AsUtf8_calm P v : triple P (AsUtf8 v) (fun _ => P) P.
Proof. destruct v; simpl; (by apply triple_throw) || (by apply triple_ret). Qed.
Lemma GetBigUint64_calm P `{!SentOnly P} v R : triple P (GetBigUint64 v) (fun _ => P) R.
Proof.
  assert (triple P (_ ← throw_js; mret 0) (fun _ => P) R).
  { eapply triple_bind; [by apply throw_js_calm|]. intros ?. by apply triple_ret. }
  destruct v; simpl; try done. destruct (BigUint64Value z) as [? []]; [by apply triple_ret|done].
Qed.

Lemma emit_answered r R : triple fresh (emit r) (fun _ => answered) R.
Proof. apply triple_modify. intros s [Hs _]. unfold answered. simpl. by rewrite Hs. Qed.

Lemma reply_marked c r b R :
  request c = true -> triple fresh (guarded_reply c r b) (fun _ => marked c) R.
Proof.
  intros Hc s [Hs Hr]. unfold guarded_reply, mbind, prog_bind, TryMarkReplied.
  rewrite decide_False by (rewrite Hr; set_solver). rewrite Hc.
  destruct b; simpl; unfold mbind, prog_bind, marked, answered; simpl;
    rewrite Hs, Hr; split; (done || set_solver).
Qed.

Lemma reply_answered c r b R :
  request c = true -> triple fresh (guarded_reply c r b) (fun _ => answered) R.
Proof.
  intros Hc. eapply triple_mono; [by apply reply_marked|done| |done]. by intros ? ? [].
Qed.

(** A reply after the first has no effect. *)
Lemma reply_again c r b R : triple (marked c) (guarded_reply c r b) (fun _ => marked c) R.
Proof.
  intros s [Ha Hr]. unfold guarded_reply, mbind, prog_bind, TryMarkReplied.
  by rewrite decide_True.
Qed.

Lemma reply_guard c r b R : triple (guard_ok c) (guarded_reply c r b) (fun _ => guard_ok c) R.
Proof.
  intros s [Hg Hl]. unfold guarded_reply, mbind, prog_bind, TryMarkReplied.
  destruct (decide (cid c ∈ replied s)); [done|]. rewrite Hg in Hl by done.
  destruct (request c), b; simpl; unfold mbind, prog_bind, guard_ok; simpl;
    rewrite Hg by done; split; simpl; (lia || set_solver).
Qed.

(** ** The result callbacks

    [replies m]: from a fresh state, [m] answers exactly once, or throws and
    leaves the state fresh.  [guarded c m]: [m] keeps the guard of [c]. *)
Definition replies {A} (m : prg A) : Prop := triple fresh m (fun _ => answered) fresh.
Definition guarded {A} (c : context) (m : prg A) : Prop :=
  triple (guard_ok c) m (fun _ => guard_ok c) (guard_ok c).

End Props.

Lemma triple_keep {A} P (a : A) R : triple (St:=bst) P (mret a) (fun _ => P) R.
Proof. by apply triple_ret. Qed.

(** [request] of a context built by the setters. *)
Ltac solve_request := unfold with_fi; repeat case_match; reflexivity.

(** Proves a triple along the structure of the program. *)
Ltac prog_leaf :=
  first
    [ done
    | by apply reply_answered
    | by apply reply_guard
    | apply reply_again
    | apply emit_answered
    | apply triple_keep
    | apply triple_ret; intros; done
    | apply triple_throw; intros; done
    | apply GetBigUint64_calm; apply _
    | apply AsUint32_calm
    | apply AsUtf8_calm
    | apply napi_calm; apply _
    | apply keep_set_calm; apply _
    | apply keep_reset_calm; apply _
    | apply throw_js_calm; apply _
    | apply release_calm; apply _
    | apply register_calm; apply _
    | eauto with prog; fail ].
Ltac prog_walk :=
  cbn beta;
  lazymatch goal with
  | |- replies _ => unfold replies; prog_walk
  | |- guarded _ _ => unfold guarded; prog_walk
  | |- triple _ (let '(_, _) := ?x in _) _ _ => destruct x; prog_walk
  | |- triple _ (if ?b then _ else _) _ _ => destruct b; prog_walk
  | |- triple _ (match ?x with _ => _ end) _ _ => destruct x; prog_walk
  | |- triple _ (_ ≫= _) _ _ => eapply triple_bind; [prog_walk | intros ?; prog_walk]
  | |- _ => prog_leaf
  end.

Section Callbacks.
Context `{NapiConv}.
Context (c : context).

(** Both, for a callback that replies through the guard of [c]. *)
Definition behaves {A} (m : prg A) : Prop := (request c = true -> replies m) /\ guarded c m.

Lemma reply_ok_behaves : behaves (ReplyOk c).
Proof. split; [intros ?|]; prog_walk. Qed.
Lemma on_entry_behaves failure v : behaves (on_entry c failure v).
Proof. unfold on_entry. split; [intros ?|]; prog_walk. Qed.
Lemma on_attr_behaves v : behaves (on_attr c v).
Proof. unfold on_attr. split; [intros ?|]; prog_walk. Qed.
Lemma on_flush_behaves v : behaves (on_flush c v).
Proof. unfold on_flush. split; [intros ?|]; prog_walk. Qed.
Lemma on_rename_behaves v : behaves (on_rename c v).
Proof. unfold on_rename. split; [intros ?|]; prog_walk. Qed.
Lemma on_release_behaves v : behaves (on_release c v).
Proof. unfold on_release. split; [intros ?|]; prog_walk. Qed.
Lemma on_getlk_behaves v : behaves (on_getlk c v).
Proof. unfold on_getlk. split; [intros ?|]; prog_walk. Qed.
Lemma on_readlink_behaves v : behaves (on_readlink c v).
Proof. unfold on_readlink. split; [intros ?|]; prog_walk. Qed.
Lemma on_open_behaves v : behaves (on_open c v).
Proof. unfold on_open. split; [intros ?|]; prog_walk. Qed.
Lemma on_opendir_behaves v : behaves (on_opendir c v).
Proof. unfold on_opendir. split; [intros ?|]; prog_walk. Qed.
Lemma on_create_behaves v : behaves (on_create c v).
Proof. unfold on_create. split; [intros ?|]; prog_walk. Qed.
Lemma on_read_behaves v : behaves (on_read c v).
Proof. unfold on_read. split; [intros ?|]; prog_walk. Qed.
Lemma on_write_behaves v : behaves (on_write c v).
Proof. unfold on_write. split; [intros ?|]; prog_walk. Qed.
Lemma on_write_bytes_behaves v : behaves (on_write_bytes c v).
Proof. unfold on_write_bytes. split; [intros ?|]; prog_walk. Qed.
Lemma on_write_buf_behaves v : behaves (on_write_buf c v).
Proof. unfold on_write_buf, reply_count. split; [intros ?|]; prog_walk. Qed.
Lemma on_copy_file_range_behaves v : behaves (on_copy_file_range c v).
Proof. unfold on_copy_file_range. split; [intros ?|]; prog_walk. Qed.
Lemma on_statfs_behaves v : behaves (on_statfs c v).
Proof.
  unfold on_statfs, ObjectToStatvfs, number_member, bigint_member.
  split; [intros ?|]; prog_walk.
Qed.

(** The callbacks that call libfuse directly. *)
Lemma on_bmap_replies v : request c = true -> replies (on_bmap c v).
Proof. unfold on_bmap. intros ?. prog_walk. Qed.
Lemma on_ioctl_replies n v : request c = true -> replies (on_ioctl c n v).
Proof. unfold on_ioctl. intros ?. prog_walk. Qed.
Lemma on_poll_replies ph v : request c = true -> replies (on_poll c ph v).
Proof. unfold on_poll. intros ?. prog_walk. Qed.
Lemma on_getxattr_replies v : request c = true -> replies (on_getxattr c v).
Proof. unfold on_getxattr. intros ?. prog_walk. Qed.

Lemma xattr_list_calm P `{!SentOnly P} names acc : triple P (xattr_list names acc) (fun _ => P) P.
Proof. revert acc. induction names as [|v names IH]; intros acc; simpl; prog_walk. Qed.
Lemma on_listxattr_replies v : request c = true -> replies (on_listxattr c v).
Proof.
  unfold on_listxattr. intros ?. destruct v; try (prog_walk; fail).
  eapply triple_bind; [apply xattr_list_calm, _|]. intros ?. prog_walk.
Qed.

(** The loops over directory entries answer only when they return nothing. *)
Definition loop_post (r : option (list Z)) : bst -> Prop :=
  match r with Some _ => fresh | None => answered end.
Definition loop_behaves (m : prg (option (list Z))) : Prop :=
  (request c = true -> triple fresh m loop_post fresh) /\ guarded c m.

Lemma loop_done bytes : loop_behaves (mret (Some bytes)).
Proof. split; [intros ?|]; by apply triple_ret. Qed.
Lemma loop_refuse e : loop_behaves (_ ← ReplyError c e; mret None).
Proof.
  split; [intros ?|]; eapply triple_bind; (by apply reply_answered) || (by apply reply_guard) ||
    (intros ?; by apply triple_ret).
Qed.
Lemma loop_bind {A} (m : prg A) k :
  (forall P, SentOnly P -> triple P m (fun _ => P) P) -> (forall a, loop_behaves (k a)) ->
  loop_behaves (m ≫= k).
Proof.
  intros Hm Hk. split; [intros ?|]; (eapply triple_bind; [by apply Hm, _|]; intros a; by apply Hk).
Qed.

Lemma readdir_loop_behaves max entries packed :
  loop_behaves (readdir_loop c max entries packed).
Proof.
  revert packed. induction entries as [|e es IH]; intros packed; cbn [readdir_loop];
    [apply loop_done|].
  apply loop_bind; [intros; apply napi_calm, _|]. intros item. destruct (negb (IsObject item)); [done|].
  apply loop_bind; [intros; apply AsUtf8_calm|]. intros name.
  apply loop_bind; [intros; apply GetBigUint64_calm, _|]. intros ino.
  apply loop_bind; [intros; apply napi_calm, _|]. intros has_type.
  apply loop_bind; [intros; prog_walk|]. intros type.
  destruct (negb (Has item "nextOffset")); [apply loop_refuse|].
  destruct (next_offset_value (Get item "nextOffset")) as [off|]; [|apply loop_refuse].
  cbn zeta. destruct (_ <? _); [apply loop_done|].
  destruct (fuse_add_direntry (Some tt) _ _ _ _) as [? bytes]. apply IH.
Qed.

Lemma readdirplus_entry_calm P `{!SentOnly P} item : triple P (readdirplus_entry item) (fun _ => P) P.
Proof. unfold readdirplus_entry. prog_walk. Qed.

Lemma readdirplus_loop_behaves max i entries packed :
  loop_behaves (readdirplus_loop c max i entries packed).
Proof.
  revert i packed. induction entries as [|e es IH]; intros i packed; cbn [readdirplus_loop];
    [apply loop_done|].
  apply loop_bind; [intros; apply napi_calm, _|]. intros item.
  destruct (if IsObject item then Get item "name" else JUndefined) as [| | | | |name| | | | | |];
    try apply IH.
  destruct (readdirplus_next c i (Get item "nextOffset")) as [off|]; [|apply loop_refuse].
  apply loop_bind; [intros; apply readdirplus_entry_calm, _|]. intros entry.
  cbn zeta. destruct (_ <? _); [apply loop_done|].
  destruct (fuse_add_direntry_plus (Some tt) _ _ _ _) as [? bytes]. apply IH.
Qed.

(** The buffer of a finished loop is sent. *)
Lemma loop_send m :
  loop_behaves m ->
  behaves (packed ← m; match packed with
                       | Some bytes => _ ← keep_set c; ReplyBuf c bytes
                       | None => mret tt
                       end).
Proof.
  intros [Hf Hg]. split; [intros Hc|]; (eapply triple_bind; [by (apply Hf || apply Hg)|]);
    intros [bytes|]; simpl; prog_walk.
Qed.

Lemma on_readdir_behaves v : behaves (on_readdir c v).
Proof.
  unfold on_readdir. destruct (negb (IsObject v)); [split; [intros ?|]; prog_walk|].
  destruct (Get v "entries"); try (split; [intros ?|]; prog_walk).
  all: destruct (c_size c =? 0); [split; [intros ?|]; prog_walk|].
  all: apply loop_send, readdir_loop_behaves.
Qed.

Lemma write_entries_behaves entries max : behaves (write_entries_and_reply c entries max).
Proof.
  unfold write_entries_and_reply. destruct (max =? 0); [split; [intros ?|]; prog_walk|].
  apply loop_send, readdirplus_loop_behaves.
Qed.

Lemma on_readdirplus_behaves v : behaves (on_readdirplus c v).
Proof.
  unfold on_readdirplus. destruct (Get v "entries"), (IsObject v);
    try apply write_entries_behaves; (split; [intros ?|]; prog_walk).
Qed.

End Callbacks.

(** ** Results, rejections and the callback of a request *)

Section Calls.
Context `{NapiConv}.

Definition never : bst -> Prop := fun _ => False.

(** The rejections whose reason gives an errno. *)
Definition settles (st : settlement) : Prop :=
  match st with Fulfilled _ => True | Rejected r => ExtractErrnoFromValue r <> None end.

(** What is known when the callback has run: the reply is out, or the
    continuation of the promise will send it. *)
Definition run_post (k : option cont) (s : bst) : Prop :=
  match k with
  | None => answered s
  | Some k => exists P, P s /\ SentOnly P /\
                forall st, settles st -> triple P (k st) (fun _ => answered) never
  end.
Definition cont_guarded (c : context) (k : option cont) : Prop :=
  match k with None => True | Some k => forall st, guarded c (k st) end.

(** A handler that throws whatever it is called with. *)
Definition always_throws (h : jshandler) : Prop := forall args, exists e, h args = HThrow e.
Definition answers_call (inv : invoker) : Prop :=
  (forall h, triple fresh (inv h) run_post fresh) /\
  (forall h s, always_throws h -> inv h s = Throws s).
Definition guards_call (c : context) (inv : invoker) : Prop :=
  forall h, triple (guard_ok c) (inv h) (fun k s => guard_ok c s /\ cont_guarded c k) (guard_ok c).

Section Context.
Context (c : context).

Lemma reply_error_value_behaves r : behaves c (ReplyWithErrorValue c r).
Proof. unfold ReplyWithErrorValue. split; [intros ?|]; prog_walk. Qed.

Lemma reply_error_value_answers r :
  request c = true -> ExtractErrnoFromValue r <> None ->
  triple fresh (ReplyWithErrorValue c r) (fun _ => answered) never.
Proof.
  intros Hc Hr. unfold ReplyWithErrorValue. destruct (ExtractErrnoFromValue r); [|done].
  by apply reply_answered.
Qed.

Lemma resolve_cb_answers (on : js -> prg unit) v :
  request c = true -> replies (on v) ->
  triple fresh (pcatch (on v) (ReplyError c EIO)) (fun _ => answered) never.
Proof. intros Hc Hon. eapply triple_catch; [exact Hon|by apply reply_answered]. Qed.

Definition reject_behaves (on_reject : option (js -> prg unit)) : Prop :=
  match on_reject with None => True | Some f => forall r, replies (f r) end.

Lemma resolve_answers (on : js -> prg unit) rej result :
  request c = true -> (forall v, replies (on v)) -> reject_behaves rej ->
  triple fresh (ResolvePromiseOrValue c result on rej) run_post never.
Proof.
  intros Hc Hon Hrej. unfold ResolvePromiseOrValue.
  destruct result as [| | | | | | | | | | |[]];
    try (eapply triple_bind; [by apply resolve_cb_answers|]; intros ?; by apply triple_ret).
  apply triple_ret. intros s Hs. exists fresh. split; [done|]. split; [apply _|].
  intros [v|r] Hst; [by apply resolve_cb_answers|].
  destruct rej as [f|]; [|by apply reply_error_value_answers].
  eapply triple_catch; [apply Hrej|by apply reply_error_value_answers].
Qed.

Lemma resolve_guards (on : js -> prg unit) (rej : option (js -> prg unit)) result :
  (forall v, guarded c (on v)) ->
  match rej with None => True | Some f => forall r, guarded c (f r) end ->
  triple (guard_ok c) (ResolvePromiseOrValue c result on rej)
    (fun k s => guard_ok c s /\ cont_guarded c k) (guard_ok c).
Proof.
  intros Hon Hrej. unfold ResolvePromiseOrValue.
  assert (forall v, guarded c (pcatch (on v) (ReplyError c EIO))) as Hcb.
  { intros v. eapply triple_catch; [apply Hon|apply reply_guard]. }
  destruct result as [| | | | | | | | | | |[]];
    try (eapply triple_bind; [apply Hcb|]; intros ?; by apply triple_ret).
  apply triple_ret. intros s Hs. split; [done|]. intros [v|r]; [apply Hcb|].
  destruct rej as [f|]; [|apply reply_error_value_behaves].
  eapply triple_catch; [apply Hrej|apply reply_error_value_behaves].
Qed.

Lemma Call_calm P h args : triple P (Call h args) (fun _ => P) P.
Proof. unfold Call. prog_walk. Qed.

Lemma call_throws {A} args (k : js -> prg A) h s :
  always_throws h -> (result ← Call h args; k result) s = Throws s.
Proof. intros Hh. unfold Call, mbind, prog_bind. by destruct (Hh args) as [e ->]. Qed.

Lemma call_answers args (on : js -> prg unit) rej :
  request c = true -> (forall v, replies (on v)) -> reject_behaves rej ->
  answers_call (fun h => result ← Call h args; ResolvePromiseOrValue c result on rej).
Proof.
  intros Hc Hon Hrej. split; [|apply call_throws]. intros h.
  eapply triple_bind; [apply Call_calm|]. intros v.
  eapply triple_mono; [by apply resolve_answers|done..].
Qed.

Lemma call_guards args (on : js -> prg unit) (rej : option (js -> prg unit)) :
  (forall v, guarded c (on v)) ->
  match rej with None => True | Some f => forall r, guarded c (f r) end ->
  guards_call c (fun h => result ← Call h args; ResolvePromiseOrValue c result on rej).
Proof.
  intros Hon Hrej h. eapply triple_bind; [apply Call_calm|]. intros v. by apply resolve_guards.
Qed.

(** ** The request in the dispatcher *)

Definition queued_answers (q : queued) : Prop :=
  (forall h, triple fresh (q_run q h) run_post fresh) /\
  (forall h s, always_throws h -> q_run q (Some h) s = Throws s) /\
  exists c, request c = true /\ q_error q = error_callback c.
Definition queued_guards (c : context) (q : queued) : Prop :=
  (forall h, triple (guard_ok c) (q_run q h) (fun k s => guard_ok c s /\ cont_guarded c k) (guard_ok c)) /\
  q_error q = error_callback c.

Definition handled (q : option queued) (s : bst) : Prop :=
  match q with None => answered s | Some q => fresh s /\ queued_answers q end.

Lemma refuse_handled e : request c = true ->
  triple fresh (_ ← ReplyError c e; mret None) handled never.
Proof. intros ?. eapply triple_bind; [by apply reply_answered|]. intros ?. by apply triple_ret. Qed.

Lemma dispatch_answers E inv : request c = true -> answers_call inv ->
  triple fresh (dispatch E c inv) handled never.
Proof.
  intros Hc Hinv. unfold dispatch. case_match; [by apply refuse_handled|].
  apply triple_ret. intros s Hs. split; [done|]. destruct Hinv as [Hinv Hthrow].
  split; [|split; [done|by exists c]].
  intros [h|]; simpl; [apply Hinv|].
  eapply triple_bind; [by apply reply_answered|]. intros ?. by apply triple_ret.
Qed.

Lemma ProcessRequest_answers E inv : request c = true -> answers_call inv ->
  triple fresh (ProcessRequest E c inv) handled never.
Proof.
  intros Hc Hinv. unfold ProcessRequest.
  repeat case_match; try (by apply refuse_handled); try (by apply dispatch_answers).
  eapply triple_bind; [by apply reply_answered|]. intros ?. by apply triple_ret.
Qed.

Lemma ProcessRequest_guards E inv : guards_call c inv ->
  triple (guard_ok c) (ProcessRequest E c inv)
    (fun q s => guard_ok c s /\ match q with None => True | Some q => queued_guards c q end) never.
Proof.
  intros Hinv.
  assert (triple (guard_ok c) (dispatch E c inv)
    (fun q s => guard_ok c s /\ match q with None => True | Some q => queued_guards c q end) never) as Hd.
  { unfold dispatch. case_match.
    - eapply triple_bind; [apply reply_guard|]. intros ?. by apply triple_ret.
    - apply triple_ret. intros s Hs. split; [done|]. split; [|done].
      intros [h|]; simpl; [apply Hinv|].
      eapply triple_bind; [apply reply_guard|]. intros ?. by apply triple_ret. }
  unfold ProcessRequest.
  repeat case_match; try done; (eapply triple_bind; [apply reply_guard|]; intros ?; by apply triple_ret).
Qed.

End Context.
End Calls.

(** ** All requests *)

Section Requests.
Context `{NapiConv}.
Context (E : benv) (id : nat) (caller : option fuse_ctx).
Context (rc : fuse_bufvec -> Z) (pread : Z -> Z -> Z -> option (list Z)) (this : Z).

Abbreviation handle := (Handle E id true caller rc pread this).

Lemma with_fi_request fi c : request (with_fi fi c) = request c.
Proof. by destruct fi. Qed.

Lemma try_mark_answered c R : triple answered (TryMarkReplied c) (fun _ => answered) R.
Proof. intros s Hs. unfold TryMarkReplied. destruct (decide _); exact Hs. Qed.

Lemma on_read_buf_replies c v :
  request c = true -> (forall bv, rc bv = 0) -> replies (on_read_buf rc c v).
Proof.
  intros Hc Hrc. unfold on_read_buf. destruct (ConvertJsFuseBufvec v) as [|bv]; [prog_walk|].
  rewrite Hrc. unfold replies. eapply triple_bind; [apply keep_set_calm, _|]. intros ?.
  eapply triple_bind; [apply emit_answered|]. intros ?. simpl.
  eapply triple_bind; [apply try_mark_answered|]. intros ?. prog_walk.
Qed.

(** A promise leaves [release] with its reply already sent, which makes the
    ones of the continuation void. *)
Lemma release_settles c st :
  settles st ->
  triple (marked c)
    (match st with
     | Fulfilled v => pcatch (on_release c v) (ReplyError c EIO)
     | Rejected r => pcatch (ReplyWithErrorValue c r) (ReplyWithErrorValue c r)
     end) (fun _ => answered) never.
Proof.
  intros Hst. eapply (triple_mono _ _ _ (fun _ => marked c) _ never); [|done|by intros ? ? []|done].
  destruct st as [v|r]; simpl in Hst.
  - eapply triple_catch with (M := marked c); [|apply reply_again]. unfold on_release. prog_walk.
  - unfold ReplyWithErrorValue. destruct (ExtractErrnoFromValue r); [|done].
    eapply triple_catch; apply reply_again.
Qed.

Lemma release_answers c : request c = true -> answers_call (release_call c).
Proof.
  intros Hc. split; [|intros h s; apply call_throws]. intros h. unfold release_call. eapply triple_bind; [apply Call_calm|]. intros v.
  assert (triple fresh (_ ← pcatch (on_release c v) (ReplyError c EIO); mret (@None cont))
            (fun k s => k = None /\ answered s) fresh) as Hnow.
  { eapply triple_bind.
    - eapply triple_mono; [by apply resolve_cb_answers, on_release_behaves|done..].
    - intros ?. by apply triple_ret. }
  assert (forall k : option cont, triple (fun s => k = None /\ answered s)
            (match k with Some _ => _ ← ReplyOk c; mret k | None => mret None end) run_post fresh) as Hend.
  { intros [k|]; [by intros s [? _]|]. apply triple_ret. by intros s [_ ?]. }
  unfold ResolvePromiseOrValue. destruct v as [| | | | | | | | | | |[]];
    try (eapply triple_bind; [exact Hnow|exact Hend]).
  apply triple_bind_ret. cbn beta iota.
  eapply triple_bind; [by apply reply_marked|]. intros ?. apply triple_ret. intros s Hs.
  exists (marked c). split; [done|]. split; [apply _|]. intros st Hst.
  by apply (release_settles c st Hst).
Qed.


(** The requests that [HandleRead] hands to a [read_buf] handler. *)
Definition by_read_buf (o : fuse_request) : bool :=
  match o with QRead _ _ _ _ => HasOperationHandler E READ_BUF | _ => false end.

Lemma on_poll_reject_replies c ph r : request c = true -> replies (on_poll_reject c ph r).
Proof.
  intros ?. unfold on_poll_reject, ReplyWithErrorValue. prog_walk.
Qed.
Lemma on_readdir_fallback_replies c rd_ctx v :
  request c = true -> request rd_ctx = true -> replies (on_readdir_fallback c rd_ctx v).
Proof.
  intros Hc Hr. unfold on_readdir_fallback.
  destruct v; try (by apply write_entries_behaves);
    destruct (Get _ "entries"); try destruct (IsObject _); try (by apply write_entries_behaves); prog_walk.
Qed.

Ltac callback_behaves :=
  first [ apply reply_ok_behaves | apply on_entry_behaves | apply on_attr_behaves
        | apply on_flush_behaves | apply on_rename_behaves | apply on_getlk_behaves
        | apply on_readlink_behaves | apply on_open_behaves | apply on_opendir_behaves
        | apply on_create_behaves | apply on_read_behaves | apply on_write_behaves
        | apply on_write_bytes_behaves | apply on_write_buf_behaves
        | apply on_copy_file_range_behaves | apply on_statfs_behaves | apply on_readdir_behaves
        | apply on_readdirplus_behaves | apply reply_error_value_behaves ].
Ltac callback_replies :=
  first [ callback_behaves | apply on_bmap_replies | apply on_ioctl_replies | apply on_poll_replies
        | apply on_poll_reject_replies | apply on_readdir_fallback_replies | apply on_getxattr_replies | apply on_listxattr_replies
        | apply on_read_buf_replies; [|done] ].
(** A handler that ends in [ProcessRequest] with a plain call. *)
Ltac answer_call :=
  apply ProcessRequest_answers;
  [ solve_request
  | refine (call_answers _ _ _ _ _ _ _);
    [ solve_request
    | intros v; callback_replies; solve_request
    | first [ exact I | intros v; callback_replies; solve_request ] ] ].

Ltac refuse_request :=
  first [ apply refuse_handled; solve_request
        | eapply triple_bind; [apply reply_answered; solve_request|]; intros ?; by apply triple_ret ].

Lemma Handle_answers o :
  o <> QDestroy -> (by_read_buf o = true -> forall bv, rc bv = 0) ->
  triple fresh (handle o) handled never.
Proof.
  intros Hd Hrb. destruct o; try done; cbn [Handle].
  all: unfold HandleLookup, HandleGetattr, HandleReadlink, HandleMknod, HandleMkdir, HandleUnlink,
    HandleRmdir, HandleSymlink, HandleRename, HandleLink, HandleOpen, HandleFsync, HandleOpendir,
    HandleReaddir, HandleReleasedir, HandleFsyncdir, HandleStatfs, HandleAccess, HandleCreate,
    HandleCopyFileRange, HandleSetxattr, HandleGetxattr, HandleListxattr, HandleRemovexattr,
    HandleGetlk, HandleSetlk, HandleBmap, HandleIoctl.
  all: try (answer_call; fail).
  - eapply triple_bind; [apply emit_answered|]. intros ?. by apply triple_ret.
  - eapply triple_bind; [apply emit_answered|]. intros ?. by apply triple_ret.
  - unfold HandleSetattr, HandleChown, HandleChmod.
    repeat case_match; (answer_call || refuse_request).
  - unfold HandleRead, DispatchReadBuf. simpl in Hrb.
    destruct (HasOperationHandler E READ_BUF); [specialize (Hrb eq_refl); answer_call|].
    destruct (negb _); (answer_call || refuse_request).
  - unfold HandleWrite. cbn zeta.
    destruct (HasOperationHandler E WRITE_BUF); [|destruct (negb (HasOperationHandler E WRITE))];
      (answer_call || refuse_request).
  - unfold HandleWriteBuf. cbn zeta. repeat case_match; (answer_call || refuse_request).
  - unfold HandleFlush. destruct (negb _); (answer_call || refuse_request).
  - unfold HandleRelease. destruct (negb _); [refuse_request|].
    apply ProcessRequest_answers; [solve_request|]. apply release_answers. solve_request.
  - unfold HandleReaddirplus. cbn zeta.
    destruct (negb _ && negb _); [refuse_request|].
    destruct (HasOperationHandler E READDIRPLUS); answer_call.
  - unfold HandlePoll. cbn zeta. eapply triple_bind; [apply register_calm, _|].
    intros ?. answer_call.
Qed.

(** *** The guard under any order of events *)

Definition under_guard (q : option queued) (s : bst) : Prop :=
  exists c, guard_ok c s /\ match q with None => True | Some q => queued_guards c q end.

Lemma fresh_guard_ok c s : fresh s -> guard_ok c s.
Proof. intros [Hs _]. unfold guard_ok. rewrite Hs. simpl. split; [done|lia]. Qed.

Lemma process_guarded c inv : guards_call c inv ->
  triple fresh (ProcessRequest E c inv) under_guard never.
Proof.
  intros Hinv. eapply triple_mono; [by apply (ProcessRequest_guards c E inv)|by apply fresh_guard_ok| |done].
  intros q s [? ?]. by exists c.
Qed.

Lemma refuse_guarded c r b : triple fresh (_ ← guarded_reply c r b; mret None) under_guard never.
Proof.
  eapply triple_bind.
  - eapply triple_mono; [apply (reply_guard c r b)|apply fresh_guard_ok|done..].
  - intros ?. apply triple_ret. intros s ?. by exists c.
Qed.

Lemma release_guards c : guards_call c (release_call c).
Proof.
  intros h. unfold release_call. eapply triple_bind; [apply Call_calm|]. intros v.
  eapply triple_bind.
  - apply (resolve_guards c); intros ?; (apply on_release_behaves || apply reply_error_value_behaves).
  - intros [k|]; [|by apply triple_ret].
    apply (triple_mono (fun s => guard_ok c s /\ cont_guarded c (Some k)) _ _
             (fun k s => guard_ok c s /\ cont_guarded c k) _ (guard_ok c) _); [|done..].
    intros s [Hs Hk]. pose proof (reply_guard c (RErr 0) true (guard_ok c) s Hs) as Hr.
    unfold ReplyOk, mbind, prog_bind. by destruct (guarded_reply c (RErr 0) true s).
Qed.

(** The requests that reply through one guard only. *)
Definition through_guard (o : fuse_request) : bool :=
  match o with
  | QDestroy | QForget _ _ | QForgetMulti _ | QGetxattr _ _ _ | QListxattr _ _ | QBmap _ _ _
  | QIoctl _ _ _ _ _ _ | QPoll _ _ _ => false
  | QRead _ _ _ _ => negb (HasOperationHandler E READ_BUF)
  | QReaddirplus _ _ _ _ => HasOperationHandler E READDIRPLUS
  | _ => true
  end.

Ltac guard_call :=
  first
    [ apply refuse_guarded
    | apply process_guarded;
      first [ apply release_guards
            | refine (call_guards _ _ _ _ _ _);
              [ intros v; callback_behaves
              | first [ exact I | intros v; callback_behaves ] ] ] ].

Lemma Handle_guards o : through_guard o = true -> triple fresh (handle o) under_guard never.
Proof.
  intros Ho. destruct o; try done; cbn [Handle]; simpl in Ho.
  all: unfold HandleLookup, HandleGetattr, HandleReadlink, HandleMknod, HandleMkdir, HandleUnlink,
    HandleRmdir, HandleSymlink, HandleRename, HandleLink, HandleOpen, HandleFsync, HandleOpendir,
    HandleReaddir, HandleReleasedir, HandleFsyncdir, HandleStatfs, HandleAccess, HandleCreate,
    HandleCopyFileRange, HandleSetxattr, HandleGetxattr, HandleListxattr, HandleRemovexattr,
    HandleGetlk, HandleSetlk, HandleBmap, HandleIoctl, HandleFlush, HandleRelease, HandleSetattr,
    HandleChown, HandleChmod, HandleWrite, HandleWriteBuf, HandleRead, HandleReaddirplus.
  all: cbn zeta; try (guard_call; fail).
  all: rewrite ?Ho, ?andb_false_r.
  all: repeat case_match; try (guard_call; fail); try done.
Qed.

Lemma event_guards c q x y :
  queued_guards c q -> event q x y ->
  guard_ok c x.2 /\ Forall (fun k => cont_guarded c (Some k)) x.1 ->
  guard_ok c y.2 /\ Forall (fun k => cont_guarded c (Some k)) y.1.
Proof.
  intros [Hrun Herr] Hev [Hs Hk].
  assert (forall s, guard_ok c s -> guard_ok c (set_pending false s)) as Hp.
  { intros s'. by apply (sent_only (P := guard_ok c)). }
  destruct Hev as [h cs s s' Hd|h cs s k s' Hd|h cs s s' Hd|code cs s s' Hd|k st cs s s' Hin Hd|k st cs s s' Hin Hd];
    simpl in *.
  1-3: specialize (Hrun h s Hs); rewrite Hd in Hrun.
  - destruct Hrun. auto.
  - destruct Hrun. split; [auto|by constructor].
  - auto.
  - rewrite Herr in Hd. unfold error_callback in Hd.
    destruct (decide _); [injection Hd as <-; auto|].
    assert (guarded c (ReplyError c (if code =? 0 then EIO else code))) as Hg by apply reply_guard.
    specialize (Hg s Hs). rewrite Hd in Hg. auto.
  - pose proof (proj1 (Forall_forall _ _) Hk k Hin st s Hs) as Hg. rewrite Hd in Hg. auto.
  - pose proof (proj1 (Forall_forall _ _) Hk k Hin st s Hs) as Hg. rewrite Hd in Hg. auto.
Qed.

(** ** Theorems on the number of replies *)

(** A dispatcher that exists and accepts every request. *)
Definition accepting (handlers : FuseOpType -> bool) : benv :=
  {| HasOperationHandler := handlers; GetGlobalDispatcher := true; env_set := true;
     InitializeGlobalDispatcher := true; DispatchCustom := fun _ => 1 |}.

(** A cancellation reports at least one code; a settlement gives an errno. *)
Definition answerable (f : fate) : Prop :=
  match f with Cancelled codes => codes <> [] | Ran _ st => settles st end.

Lemma error_callback_fresh c code R : request c = true ->
  triple fresh (error_callback c code) (fun _ => marked c) R.
Proof.
  intros Hc s Hs. unfold error_callback. destruct Hs as [Hs Hr].
  rewrite decide_False by (rewrite Hr; set_solver).
  by apply (reply_marked c (RErr _) true R Hc s).
Qed.

Lemma cancel_marked c q codes R : q_error q = error_callback c ->
  triple (marked c) (cancel q codes) (fun _ => marked c) R.
Proof.
  intros Hq. induction codes as [|code codes IH]; simpl; [by apply triple_ret|].
  eapply triple_bind; [|intros ?; exact IH]. rewrite Hq. intros s Hs. unfold error_callback.
  rewrite decide_True by apply Hs. done.
Qed.

Lemma life_answers q f : answerable f ->
  forall s, handled q s -> match life q f s with Done _ s' => answered s' | _ => False end.
Proof.
  intros Hf s Hq. destruct q as [q|]; [|done]. destruct Hq as [Hs (Hrun & _ & c & Hc & Herr)].
  destruct f as [codes|h st]; simpl in *.
  - destruct codes as [|code codes]; [done|]. simpl. unfold mbind, prog_bind. rewrite Herr.
    pose proof (error_callback_fresh c code never Hc s Hs) as Hm.
    destruct (error_callback c code s) as [[] s'| |]; try done.
    pose proof (cancel_marked c q codes never Herr s' Hm) as Hm'.
    destruct (cancel q codes s'); try done. by destruct Hm'.
  - specialize (Hrun h s Hs). destruct (q_run q h s) as [[k|] s'|s'|]; simpl in Hrun; try done.
    + destruct Hrun as (P & HP & Hsent & Hk). specialize (Hk st Hf (set_pending false s')).
      destruct (k st (set_pending false s')); [apply Hk|apply Hk|apply Hk];
        by apply (Hsent s').
    + rewrite Herr. pose proof (error_callback_fresh c callback_error never Hc (set_pending false s')
        (sent_only (P := fresh) s' (set_pending false s') eq_refl eq_refl Hrun)) as Hm.
      destruct (error_callback c callback_error (set_pending false s')); [by destruct Hm|done..].
Qed.

Lemma bst0_fresh : fresh bst0.
Proof. done. Qed.
End Requests.



(** C2: a request answered through its context's guard gets at most one
    reply even when its callback, its error callback and the continuations of
    its promises run in any order and any number of times. *)
Theorem at_most_one_reply `{NapiConv} E id caller rc pread this o q s0 cs s :
  through_guard E o = true ->
  Handle E id true caller rc pread this o bst0 = Done (Some q) s0 ->
  rtc (event q) ([], s0) (cs, s) -> (length (sent s) <= 1)%nat.
Proof.
  intros Ho Hh Hev. pose proof (Handle_guards E id caller rc pread this o Ho bst0 bst0_fresh) as Hg.
  rewrite Hh in Hg. destruct Hg as (c & Hs0 & Hq).
  cut (guard_ok c (cs, s).2 /\ Forall (fun k => cont_guarded c (Some k)) (cs, s).1); [by intros [[_ ?] _]|].
  refine (rtc_ind_r (fun x => guard_ok c x.2 /\ Forall (fun k => cont_guarded c (Some k)) x.1) _ _ _ _ Hev).
  - done.
  - intros x y _ Hxy. by apply (event_guards c q).
Qed.

Lemma at_most_one_reply_witness :
  exists q s0,
    Handle (H := napi_ref) (accepting (fun _ => true)) 0 true None (fun _ => 0) (fun _ _ _ => None) 0
      (QUnlink 1 (Some "a"%string)) bst0 = Done (Some q) s0 /\
    (length (sent s0) <= 1)%nat.
Proof.
  eexists. eexists. split; [reflexivity|].
  eapply (at_most_one_reply (H := napi_ref) (accepting (fun _ => true)) 0 None (fun _ => 0)
            (fun _ _ _ => None) 0 (QUnlink 1 (Some "a"%string))); [reflexivity|reflexivity|apply rtc_refl].
Defined.

(** Whatever a handler throws synchronously, the caller sees [EIO]: the
    errno of the error is not looked at. *)
Theorem sync_throw_is_EIO `{NapiConv} E id caller rc pread this o h st q s0 :
  o <> QDestroy -> (by_read_buf E o = true -> forall bv, rc bv = 0) ->
  always_throws h ->
  Handle E id true caller rc pread this o bst0 = Done (Some q) s0 ->
  exists s, life (Some q) (Ran (Some h) st) s0 = Done tt s /\ sent s = [RErr EIO].
Proof.
  intros Hd Hrc Hh Hq.
  pose proof (Handle_answers E id caller rc pread this o Hd Hrc bst0 bst0_fresh) as Ha.
  rewrite Hq in Ha. destruct Ha as [[Hs Hr] (_ & Hthrow & c & Hc & Herr)].
  simpl. rewrite (Hthrow h s0 Hh), Herr. unfold error_callback. simpl.
  rewrite decide_False by (rewrite Hr; set_solver).
  unfold ReplyError, guarded_reply, TryMarkReplied, mbind, prog_bind. simpl.
  rewrite decide_False by (rewrite Hr; set_solver). rewrite Hc. simpl.
  eexists. split; [done|]. simpl. by rewrite Hs.
Qed.
Lemma sync_throw_is_EIO_witness :
  exists q s0 s,
    Handle (H := napi_ref) (accepting (fun _ => true)) 0 true None (fun _ => 0) (fun _ _ _ => None) 0
      (QUnlink 1 (Some "a"%string)) bst0 = Done (Some q) s0 /\
    life (Some q) (Ran (Some (fun _ => HThrow (JString "ENOENT"))) (Fulfilled JUndefined)) s0 = Done tt s /\
    sent s = [RErr EIO].
Proof.
  eexists. eexists.
  destruct (sync_throw_is_EIO (H := napi_ref) (accepting (fun _ => true)) 0 None (fun _ => 0)
              (fun _ _ _ => None) 0 (QUnlink 1 (Some "a"%string))
              (fun _ => HThrow (JString "ENOENT")) (Fulfilled JUndefined) _ _
              ltac:(discriminate) ltac:(discriminate) ltac:(intros ?; by eexists) eq_refl) as (s & Hl & Hs).
  exists s. split; [reflexivity|]. split; [exact Hl|exact Hs].
Defined.
