(* ===== verification/BridgeFacts.v ===== *)
(** * What the bridge answers

    Functional behaviour of single operations: refusals, the route of a
    [setattr], directory listings, extended attributes, buffered writes and
    poll handles, and the cases in which the guard is bypassed. *)
From S2P Require Import Prelude Errno Sys LlDirent FuseBuf Napi Bridge BridgeOps BridgeProps.

Section Facts.
Context `{NapiConv}.

(** ** Refusals *)

(** The reply to a request nobody handles. *)
Definition unhandled_reply (o : fuse_request) : list reply :=
  match o with
  | QDestroy => [RErr 0]
  | QForget _ _ | QForgetMulti _ => [RNone]
  | QFlush _ _ | QRelease _ _ => [RErr 0]
  | QSetattr _ None _ _ _ => [RErr EINVAL]
  | _ => [RErr ENOSYS]
  end.

Lemma ProcessRequest_unhandled E c inv s :
  HasOperationHandler E (op_type c) = false ->
  ProcessRequest E c inv s = (_ ← ReplyError c ENOSYS; mret None) s.
Proof. intros Hh. unfold ProcessRequest. by rewrite Hh. Qed.

Lemma ProcessRequest_accepting handlers c inv s :
  handlers (op_type c) = true ->
  ProcessRequest (accepting handlers) c inv s =
    Done (Some {| q_op := FuseOpTypeToString (op_type c); q_run := callback_fn c inv;
                  q_error := error_callback c |}) s.
Proof. intros Hh. unfold ProcessRequest. simpl. by rewrite Hh. Qed.

Lemma reply_fresh c r b s :
  fresh s -> request c = true ->
  exists s', guarded_reply c r b s = Done tt s' /\ sent s' = [r].
Proof.
  intros [Hs Hr] Hc. unfold guarded_reply, TryMarkReplied, mbind, prog_bind.
  rewrite decide_False by (rewrite Hr; set_solver). rewrite Hc.
  destruct b; simpl; (eexists; split; [done|]; simpl; by rewrite Hs).
Qed.

Lemma refuse_fresh c r b :
  request c = true ->
  exists s', (_ ← guarded_reply c r b; mret (@None queued)) bst0 = Done None s' /\ sent s' = [r].
Proof.
  intros Hc. unfold mbind, prog_bind.
  destruct (reply_fresh c r b bst0) as (s' & -> & Hs); [done..|]. by exists s'.
Qed.

Lemma emit_fresh r :
  exists s', (_ ← emit r; mret (@None queued)) bst0 = Done None s' /\ sent s' = [r].
Proof. by eexists. Qed.

Lemma process_unhandled E c inv s :
  sent s = [] -> replied s = ∅ ->
  HasOperationHandler E (op_type c) = false -> request c = true ->
  exists s', ProcessRequest E c inv s = Done None s' /\ sent s' = [RErr ENOSYS].
Proof.
  intros Hs Hr Hh Hc. rewrite ProcessRequest_unhandled by done. unfold mbind, prog_bind.
  destruct (reply_fresh c (RErr ENOSYS) true s) as (s'' & Hd & Hs'); [done..|].
  change (ReplyError c ENOSYS s) with (guarded_reply c (RErr ENOSYS) true s). rewrite Hd. by exists s''.
Qed.
End Facts.

(** With no handler registered, every request is refused at once and
    nothing is queued: [flush] and [release] succeed, [forget] gets its empty
    reply, a [setattr] without attributes is invalid, the rest gets [ENOSYS]. *)
Theorem unhandled_requests `{NapiConv} E id caller rc pread this o :
  (forall t, HasOperationHandler E t = false) ->
  exists s, Handle E id true caller rc pread this o bst0 = Done None s /\ sent s = unhandled_reply o.
Proof.
  intros Hn. destruct o; cbn [Handle unhandled_reply].
  all: unfold HandleDestroy, HandleForget, HandleForgetMulti, HandleLookup, HandleGetattr,
    HandleReadlink, HandleMknod, HandleMkdir, HandleUnlink,
    HandleRmdir, HandleSymlink, HandleRename, HandleLink, HandleOpen, HandleFsync, HandleOpendir,
    HandleReaddir, HandleReleasedir, HandleFsyncdir, HandleStatfs, HandleAccess, HandleCreate,
    HandleCopyFileRange, HandleSetxattr, HandleGetxattr, HandleListxattr, HandleRemovexattr,
    HandleGetlk, HandleSetlk, HandleBmap, HandleIoctl, HandleFlush, HandleRelease, HandleSetattr,
    HandleChown, HandleChmod, HandleWrite, HandleWriteBuf, HandleRead, HandleReaddirplus, HandlePoll.
  all: rewrite ?Hn, ?andb_false_r; cbn [negb andb orb clear_registry HasOperationHandler].
  all: rewrite ?orb_true_r; cbn zeta.
  all: repeat match goal with |- context [match ?x with Some _ => _ | None => _ end] => destruct x end.
  all: try (apply emit_fresh || (apply refuse_fresh; solve_request)).
  all: try (eapply process_unhandled; [done|done|apply Hn|solve_request]).
  destruct ph; (eapply process_unhandled; [done|done|apply Hn|solve_request]).
Qed.

Lemma unhandled_requests_witness :
  exists s, Handle (H := napi_ref) (accepting (fun _ => false)) 0 true None (fun _ => 0)
              (fun _ _ _ => None) 0 (QRead 1 4096 0 None) bst0 = Done None s /\
            sent s = [RErr ENOSYS].
Proof. apply (unhandled_requests (H := napi_ref) (accepting (fun _ => false))). done. Defined.


(** ** The route of a setattr *)

(** Which handler a [setattr] is meant for: the bits alone decide, and the
    special operations are used when they have a handler. *)
Definition setattr_route (handlers : FuseOpType -> bool) (to_set : Z) : FuseOpType :=
  if bool_decide (to_set = FUSE_SET_ATTR_UID \/ to_set = FUSE_SET_ATTR_GID \/
                  to_set = FUSE_SET_ATTR_UID + FUSE_SET_ATTR_GID) && handlers CHOWN then CHOWN
  else if bool_decide (to_set = FUSE_SET_ATTR_MODE) && handlers CHMOD then CHMOD
  else if bool_decide (to_set = FUSE_SET_ATTR_SIZE) && handlers TRUNCATE then TRUNCATE
  else SETATTR.

Lemma no_other_bits x m : has_flag x (Z.lnot m) = false <-> Z.land x m = x.
Proof.
  unfold has_flag. rewrite negb_false_iff, Z.eqb_eq. split; intros Hx.
  - apply Z.bits_inj'. intros n Hn. assert (Z.testbit (Z.land x (Z.lnot m)) n = false) as Hb
      by (rewrite Hx; apply Z.bits_0).
    rewrite Z.land_spec, Z.lnot_spec in Hb by done. rewrite Z.land_spec.
    destruct (Z.testbit x n), (Z.testbit m n); done.
  - rewrite <- Hx. rewrite <- Z.land_assoc, Z.land_lnot_diag. apply Z.land_0_r.
Qed.

(** A value whose bits lie in a small mask is one of finitely many. *)
Lemma only_bits x m : 0 <= m <= 15 -> has_flag x (Z.lnot m) = false -> 0 <= x <= 15 /\ Z.land x m = x.
Proof.
  intros Hm Hx. apply no_other_bits in Hx. split; [|done].
  assert (Z.land x m = Z.land (Z.land x m) 15) as Hl.
  { rewrite <- Z.land_assoc. f_equal.
    assert (Forall (fun m => m = Z.land m 15) (seqZ 0 16)) as Hall by (by apply (bool_decide_unpack _)).
    rewrite Forall_forall in Hall. apply Hall, elem_of_seqZ. lia. }
  assert (Z.land (Z.land x m) 15 = Z.land x m `mod` 16) as Hmod by apply (Z.land_ones _ 4 ltac:(lia)).
  pose proof (Z.mod_pos_bound (Z.land x m) 16). lia.
Qed.

(** Settles a boolean statement on a value below 16. *)
Ltac small_cases x :=
  let Hc := fresh in
  assert (x = 0 \/ x = 1 \/ x = 2 \/ x = 3 \/ x = 4 \/ x = 5 \/ x = 6 \/ x = 7 \/ x = 8 \/ x = 9 \/
          x = 10 \/ x = 11 \/ x = 12 \/ x = 13 \/ x = 14 \/ x = 15) as Hc by lia;
  destruct_or! Hc; subst x; try done.

Lemma chown_test x :
  (has_flag x FUSE_SET_ATTR_UID || has_flag x FUSE_SET_ATTR_GID) && negb (has_flag x (Z.lnot 6)) =
  bool_decide (x = FUSE_SET_ATTR_UID \/ x = FUSE_SET_ATTR_GID \/ x = FUSE_SET_ATTR_UID + FUSE_SET_ATTR_GID).
Proof.
  destruct (has_flag x (Z.lnot 6)) eqn:Hx.
  - rewrite andb_false_r. symmetry. apply bool_decide_false. intros [-> | [-> | ->]]; done.
  - apply only_bits in Hx as [? Hx]; [|lia]. small_cases x.
Qed.
Lemma single_test x m : m = FUSE_SET_ATTR_MODE \/ m = FUSE_SET_ATTR_SIZE ->
  has_flag x m && negb (has_flag x (Z.lnot m)) = bool_decide (x = m).
Proof.
  intros Hm. destruct (has_flag x (Z.lnot m)) eqn:Hx.
  - rewrite andb_false_r. symmetry. apply bool_decide_false. intros ->. by destruct Hm; subst m.
  - apply only_bits in Hx as [? Hx]; [|lia]. destruct Hm; subst m; small_cases x.
Qed.




(** ** Directory listings *)

Section Listing.
Context `{NL : NapiLaws}.

(** A well-formed entry of a [readdir] result, as the JavaScript object, as the
    record of the reply and as what a reader of the reply finds. *)
Record dentry := { de_name : string; de_ino : Z; de_type : Z; de_next : Z }.
Definition dentry_valid (d : dentry) : Prop :=
  strlen (de_name d) < 2 ^ 32 /\ in_u 64 (de_ino d) /\ in_u 32 (de_type d) /\ 0 <= de_next d < 2 ^ 63.
Definition dentry_js (d : dentry) : js :=
  JObject [("name", JString (de_name d)); ("ino", JBigInt (de_ino d)); ("type", Number (de_type d));
           ("nextOffset", JBigInt (de_next d))]%string.
Definition dentry_len (d : dentry) : Z := FUSE_REC_ALIGN (FUSE_NAME_OFFSET + strlen (de_name d)).
Definition dentry_bytes (d : dentry) : list Z :=
  dirent_bytes (de_ino d) (de_next d) (Z.shiftl (Z.land (de_type d) 15) 12) (de_name d)
    (dentry_len d - (FUSE_NAME_OFFSET + strlen (de_name d))).
Definition dentry_dirent (d : dentry) : dirent :=
  {| d_ino := de_ino d; d_off := de_next d; d_type := Z.land (de_type d) 15; d_name := c_str (de_name d) |}.

(** The entries that fit, up to the first that does not. *)
Fixpoint fitting (size : Z) (ds : list dentry) : list dentry :=
  match ds with
  | [] => []
  | d :: ds => if size <? dentry_len d then [] else d :: fitting (size - dentry_len d) ds
  end.

Lemma dentry_len_pos d : 24 <= dentry_len d.
Proof.
  unfold dentry_len. pose proof (strlen_nonneg (de_name d)).
  pose proof (rec_align_spec (FUSE_NAME_OFFSET + strlen (de_name d)) ltac:(unfold FUSE_NAME_OFFSET; lia)).
  unfold FUSE_NAME_OFFSET in *. lia.
Qed.

Lemma low_nibble z : 0 <= Z.land z 15 <= 15.
Proof.
  pose proof (Z.land_ones z 4 ltac:(lia)) as Hl. change (Z.ones 4) with 15 in Hl. rewrite Hl.
  pose proof (Z.mod_pos_bound z (2 ^ 4)). lia.
Qed.

Lemma dirent_type_nibble t : 0 <= t <= 15 -> dirent_type (Z.shiftl t 12) `mod` 2 ^ 32 = t.
Proof. intros Ht. small_cases t. Qed.

Lemma add_direntry_fits d st max :
  dentry_len d <= max -> st_ino st = de_ino d -> st_mode st = Z.shiftl (Z.land (de_type d) 15) 12 ->
  fuse_add_direntry (Some tt) max (de_name d) st (de_next d) = (dentry_len d, dentry_bytes d).
Proof.
  intros Hm Hi Ht. unfold fuse_add_direntry, dentry_bytes, dentry_len in *.
  destruct (Z.ltb_spec max (FUSE_REC_ALIGN (FUSE_NAME_OFFSET + strlen (de_name d)))); [lia|].
  by rewrite Hi, Ht.
Qed.

Lemma dentry_bytes_len d : lenZ (dentry_bytes d) = dentry_len d.
Proof.
  unfold dentry_bytes. pose proof (strlen_nonneg (de_name d)).
  pose proof (rec_align_spec (FUSE_NAME_OFFSET + strlen (de_name d)) ltac:(unfold FUSE_NAME_OFFSET; lia)).
  rewrite dirent_bytes_length; unfold dentry_len, FUSE_NAME_OFFSET in *; lia.
Qed.

Lemma GetBigUint64_exact z s : in_u 64 z -> GetBigUint64 (JBigInt z) s = Done z s.
Proof. intros Hz. unfold GetBigUint64. by rewrite BigUint64_exact. Qed.
Lemma AsUint32_exact z s : in_u 32 z -> AsUint32 (Number z) s = Done z s.
Proof. intros Hz. unfold AsUint32, Number. by rewrite Uint32Value_exact. Qed.
Lemma next_offset_exact z : 0 <= z < 2 ^ 63 -> next_offset_value (JBigInt z) = Some z.
Proof.
  intros Hz. unfold next_offset_value. rewrite BigInt64_exact by (unfold in_s; lia).
  cbn. by destruct (Z.ltb_spec z 0); [lia|].
Qed.

Lemma readdir_step c max d es packed s :
  dentry_valid d -> pending s = false ->
  readdir_loop c max (dentry_js d :: es) packed s =
    if max - lenZ packed <? dentry_len d then Done (Some packed) s
    else readdir_loop c max es (packed ++ dentry_bytes d) s.
Proof.
  intros (Hname & Hino & Htype & Hnext) Hp.
  cbn [readdir_loop]. unfold mbind, prog_bind, napi. rewrite Hp. cbn [negb IsObject dentry_js].
  change (AsUtf8 (Get (dentry_js d) "name") s) with (Done (de_name d) s). cbn iota beta.
  change (Get (dentry_js d) "ino") with (JBigInt (de_ino d)). rewrite GetBigUint64_exact by done.
  rewrite Hp. change (Has (dentry_js d) "type") with true. cbn iota beta.
  change (Get (dentry_js d) "type") with (Number (de_type d)). rewrite AsUint32_exact by done.
  change (negb (Has (dentry_js d) "nextOffset")) with false. cbn iota beta.
  change (Get (dentry_js d) "nextOffset") with (JBigInt (de_next d)).
  rewrite next_offset_exact by done. cbn zeta.
  rewrite fuse_add_direntry_size. fold (dentry_len d).
  destruct (Z.ltb_spec (max - lenZ packed) (dentry_len d)); [done|].
  by rewrite (add_direntry_fits d) by done.
Qed.

Lemma readdir_loop_spec c max ds packed s :
  Forall dentry_valid ds -> pending s = false ->
  readdir_loop c max (map dentry_js ds) packed s =
    Done (Some (packed ++ concat (map dentry_bytes (fitting (max - lenZ packed) ds)))) s.
Proof.
  intros Hds Hp. revert packed. induction Hds as [|d ds Hd Hds IH]; intros packed.
  - simpl. by rewrite app_nil_r.
  - cbn [map fitting]. rewrite readdir_step by done.
    destruct (Z.ltb_spec (max - lenZ packed) (dentry_len d)); [by rewrite app_nil_r|].
    rewrite IH, lenZ_app, dentry_bytes_len. cbn [map concat].
    by rewrite app_assoc, Z.sub_add_distr.
Qed.

Lemma fitting_size size ds : 0 <= size -> lenZ (concat (map dentry_bytes (fitting size ds))) <= size.
Proof.
  revert size. induction ds as [|d ds IH]; intros size Hs; cbn [fitting]; [done|].
  destruct (Z.ltb_spec size (dentry_len d)); [done|]. cbn [map concat]. rewrite lenZ_app, dentry_bytes_len.
  specialize (IH (size - dentry_len d)). lia.
Qed.

Lemma fitting_valid size ds : Forall dentry_valid ds -> Forall dentry_valid (fitting size ds).
Proof.
  intros Hds. revert size. induction Hds; intros size; simpl; [done|].
  destruct (_ <? _); by constructor.
Qed.

Lemma parse_dentries fuel ds :
  Forall dentry_valid ds -> (length ds < fuel)%nat ->
  parse_dirents fuel (concat (map dentry_bytes ds)) = map dentry_dirent ds.
Proof.
  intros Hds. revert fuel. induction Hds as [|d ds (Hname & Hino & _ & Hnext) Hds IH]; intros fuel Hf.
  - by destruct fuel.
  - destruct fuel as [|fuel]; simpl in Hf; [lia|]. cbn [map concat parse_dirents].
    pose proof (strlen_nonneg (de_name d)).
    pose proof (rec_align_spec (FUSE_NAME_OFFSET + strlen (de_name d)) ltac:(unfold FUSE_NAME_OFFSET; lia)).
    unfold dentry_bytes at 1. rewrite parse_dirent_cons; unfold dentry_len, FUSE_NAME_OFFSET, in_u in *; try lia.
    rewrite IH by lia. f_equal. unfold dentry_dirent. f_equal. apply dirent_type_nibble, low_nibble.
Qed.
End Listing.

(** C5: the reply to a listing of well-formed entries fits the requested
    size and reads back as the entries, up to the first that does not fit: no
    record is cut, none is reordered or invented. *)
Theorem readdir_reply_reads_back `{NapiLaws} c ds s :
  request c = true -> 0 < c_size c -> Forall dentry_valid ds -> fresh s -> pending s = false ->
  exists bytes s',
    on_readdir c (JObject [("entries"%string, JArray (map dentry_js ds))]) s = Done tt s' /\
    sent s' = [RBuf bytes] /\ lenZ bytes <= c_size c /\
    parse_dirents (S (length ds)) bytes = map dentry_dirent (fitting (c_size c) ds) /\
    prefix (fitting (c_size c) ds) ds.
Proof.
  intros Hc Hsz Hds Hf Hp. unfold on_readdir. cbn [negb IsObject].
  change (Get _ "entries") with (JArray (map dentry_js ds)). cbn iota.
  destruct (Z.eqb_spec (c_size c) 0); [lia|].
  unfold mbind, prog_bind. rewrite readdir_loop_spec by done.
  change (lenZ []) with 0. rewrite Z.sub_0_r. cbn [app].
  set (out := concat (map dentry_bytes (fitting (c_size c) ds))).
  destruct (reply_fresh c (RBuf out) true (set_keep (keep s ∪ {[cid c]}) s)) as (s' & Hd & Hs');
    [by apply (sent_only (P := fresh) s)|done|].
  exists out, s'. split; [exact Hd|]. split; [done|]. split; [by apply fitting_size; lia|].
  assert (prefix (fitting (c_size c) ds) ds) as Hpre.
  { generalize (c_size c). clear. induction ds as [|d ds IH]; intros size; simpl; [done|].
    destruct (_ <? _); [apply prefix_nil|apply prefix_cons, IH]. }
  split; [|done]. apply parse_dentries; [by apply fitting_valid|].
  apply prefix_length in Hpre. lia.
Qed.

Definition demo_context : context := set_size 64 (CreateContext 0 READDIR true None).
Definition demo_entries : list dentry :=
  [{| de_name := "."; de_ino := 1; de_type := 4; de_next := 1 |};
   {| de_name := "file"; de_ino := 7; de_type := 8; de_next := 2 |};
   {| de_name := "other"; de_ino := 8; de_type := 8; de_next := 3 |}]%string.
Lemma readdir_reply_reads_back_witness :
  exists bytes s',
    on_readdir (H := napi_ref) demo_context
      (JObject [("entries"%string, JArray (map dentry_js demo_entries))]) bst0 = Done tt s' /\
    sent s' = [RBuf bytes] /\ lenZ bytes <= 64 /\
    parse_dirents 4 bytes = map dentry_dirent (take 2 demo_entries) /\
    prefix (take 2 demo_entries) demo_entries.
Proof.
  apply (readdir_reply_reads_back (H := napi_ref) (H0 := napi_ref_laws) demo_context demo_entries bst0).
  - reflexivity.
  - reflexivity.
  - repeat constructor; vm_compute; done.
  - split; reflexivity.
  - reflexivity.
Defined.


(** ** Extended attributes *)

(** The answer to a request for [data] with a buffer of [size] bytes. *)
Definition xattr_answer (size : Z) (data : list Z) : reply :=
  if size =? 0 then RXattr (lenZ data)
  else if size <? lenZ data then RErr ERANGE
  else RBuf data.

(** What a reader makes of a list of NUL-terminated names. *)
Fixpoint split_nul (acc l : list Z) : list (list Z) :=
  match l with
  | [] => []
  | b :: rest => if b =? 0 then acc :: split_nul [] rest else split_nul (acc ++ [b]) rest
  end.
Definition xattr_bytes (names : list string) : list Z :=
  concat (map (fun name => str_bytes name ++ [0]) names).

Section Xattr.
Context `{NapiConv}.

Lemma split_nul_app acc name rest : Forall (fun b => b <> 0) name ->
  split_nul acc (name ++ [0] ++ rest) = (acc ++ name) :: split_nul [] rest.
Proof.
  intros Hname. revert acc. induction Hname as [|b name Hb Hname IH]; intros acc; simpl.
  - by rewrite app_nil_r.
  - destruct (Z.eqb_spec b 0); [done|]. simpl in IH. rewrite IH. by rewrite <- app_assoc.
Qed.

Lemma split_xattr_bytes names :
  Forall (fun name => Forall (fun b => b <> 0) (str_bytes name)) names ->
  split_nul [] (xattr_bytes names) = map str_bytes names.
Proof.
  intros Hnames. induction Hnames as [|name names Hname Hnames IH]; [done|].
  unfold xattr_bytes. cbn [map concat]. rewrite <- app_assoc, split_nul_app by done.
  f_equal. exact IH.
Qed.

Lemma xattr_list_strings names acc s :
  xattr_list (map JString names) acc s = Done (acc ++ xattr_bytes names) s.
Proof.
  revert acc. induction names as [|name names IH]; intros acc; simpl; [by rewrite app_nil_r|].
  unfold mbind, prog_bind. cbn. rewrite IH. unfold xattr_bytes. cbn [map concat].
  by rewrite <- app_assoc.
Qed.

Lemma xattr_reply c data s :
  request c = true -> fresh s ->
  exists s', (if c_size c =? 0 then emit (RXattr (lenZ data))
              else if c_size c <? lenZ data then ReplyError c ERANGE
              else _ ← keep_set c; ReplyBuf c data) s = Done tt s' /\
             sent s' = [xattr_answer (c_size c) data].
Proof.
  intros Hc Hf. unfold xattr_answer. destruct (c_size c =? 0).
  { eexists. split; [done|]. destruct Hf as [Hs _]. simpl. by rewrite Hs. }
  destruct (c_size c <? lenZ data).
  - by apply (reply_fresh c (RErr ERANGE) true).
  - apply (reply_fresh c (RBuf data) true (set_keep (keep s ∪ {[cid c]}) s)); [|done].
    by apply (sent_only (P := fresh) s).
Qed.
End Xattr.

(** A value returned as a buffer is sized, refused with [ERANGE] or
    sent whole, by the size of the caller's buffer. *)
Theorem getxattr_by_size `{NapiConv} c store off len s :
  request c = true -> fresh s ->
  exists s', on_getxattr c (JTypedArray store off len) s = Done tt s' /\
             sent s' = [xattr_answer (c_size c) (view_bytes store off len)].
Proof. intros Hc Hf. by apply xattr_reply. Qed.

Lemma getxattr_by_size_witness :
  exists s', on_getxattr (H := napi_ref) demo_context (JTypedArray [1; 2; 3; 4] 1 2) bst0 = Done tt s' /\
             sent s' = [RBuf [2; 3]].
Proof. apply (getxattr_by_size (H := napi_ref)); [reflexivity|split; reflexivity]. Defined.


(** The names a handler returns are sized, refused with [ERANGE]
    or sent as NUL-terminated strings from which a reader gets them back. *)
Theorem listxattr_by_size `{NapiConv} c names s :
  request c = true -> fresh s ->
  Forall (fun name => Forall (fun b => b <> 0) (str_bytes name)) names ->
  exists s', on_listxattr c (JArray (map JString names)) s = Done tt s' /\
             sent s' = [xattr_answer (c_size c) (xattr_bytes names)] /\
             split_nul [] (xattr_bytes names) = map str_bytes names.
Proof.
  intros Hc Hf Hn. unfold on_listxattr. unfold mbind at 1, prog_bind at 1.
  rewrite xattr_list_strings. cbn [app].
  destruct (xattr_reply c (xattr_bytes names) s Hc Hf) as (s' & Hd & Hs').
  exists s'. split; [exact Hd|]. split; [done|]. by apply split_xattr_bytes.
Qed.

Lemma listxattr_by_size_witness :
  exists s', on_listxattr (H := napi_ref) demo_context
               (JArray (map JString ["user.a"; "user.b"]%string)) bst0 = Done tt s' /\
             sent s' = [xattr_answer 64 (xattr_bytes ["user.a"; "user.b"]%string)] /\
             split_nul [] (xattr_bytes ["user.a"; "user.b"]%string) = map str_bytes ["user.a"; "user.b"]%string.
Proof.
  apply (listxattr_by_size (H := napi_ref) demo_context); [reflexivity|split; reflexivity|].
  repeat constructor; discriminate.
Defined.


(** ** Buffered writes *)

(** A [pread] over files of fixed contents: it reads at least a byte while there
    is one, and may read less than it is asked for. *)
Definition reads (file : Z -> list Z) (pread : Z -> Z -> Z -> option (list Z)) : Prop :=
  forall fd n off, 0 < n -> 0 <= off ->
    exists k, pread fd n off = Some (take k (drop (Z.to_nat off) (file fd))) /\
              Z.of_nat k <= n /\ (off < lenZ (file fd) -> (0 < k)%nat).

(** What a buffer holds, and that it holds as much as it says. *)
Definition buf_content (file : Z -> list Z) (b : fuse_buf) : list Z :=
  take (Z.to_nat (buf_size b))
    (if has_flag (buf_flags b) FUSE_BUF_IS_FD then drop (Z.to_nat (buf_pos b)) (file (buf_fd b))
     else default [] (buf_mem b)).
Definition buf_full (file : Z -> list Z) (b : fuse_buf) : Prop :=
  0 <= buf_size b /\
  if has_flag (buf_flags b) FUSE_BUF_IS_FD
  then 0 <= buf_pos b /\ buf_pos b + buf_size b <= lenZ (file (buf_fd b))
  else exists mem, buf_mem b = Some mem /\ buf_size b <= lenZ mem.

Section Linear.
Context (file : Z -> list Z) (pread : Z -> Z -> Z -> option (list Z)) (Hread : reads file pread).

Lemma pread_all_spec fuel fd pos sz done :
  0 <= pos -> pos + sz <= lenZ (file fd) -> (done <= Z.to_nat sz)%nat -> (Z.to_nat sz <= fuel + done)%nat ->
  pread_all pread fuel fd pos sz (take done (drop (Z.to_nat pos) (file fd))) =
    Some (take (Z.to_nat sz) (drop (Z.to_nat pos) (file fd))).
Proof.
  set (data := drop (Z.to_nat pos) (file fd)).
  revert done. induction fuel as [|fuel IH]; intros done Hpos Hlen Hdone Hfuel.
  all: assert (lenZ (take done data) = Z.of_nat done) as Hacc
    by (unfold lenZ, data in *; rewrite length_take, length_drop; lia).
  all: cbn [pread_all]; rewrite Hacc; destruct (Z.leb_spec sz (Z.of_nat done));
    [do 2 f_equal; lia|try lia].
  destruct (Hread fd (sz - Z.of_nat done) (pos + Z.of_nat done)) as (k & -> & Hk & Hk0); [lia..|].
  specialize (Hk0 ltac:(lia)).
  replace (drop (Z.to_nat (pos + Z.of_nat done)) (file fd)) with (drop done data)
    by (unfold data; rewrite drop_drop; f_equal; lia).
  assert (length (take k (drop done data)) = k) as Hkl
    by (unfold lenZ, data in *; rewrite length_take, !length_drop; lia).
  unfold lenZ. rewrite Hkl. destruct (Z.leb_spec (Z.of_nat k) 0); [lia|].
  rewrite take_take_drop. apply IH; lia.
Qed.

Lemma linearize_spec bufs acc :
  Forall (buf_full file) bufs ->
  linearize pread bufs acc = Some (acc ++ concat (map (buf_content file) bufs)).
Proof.
  intros Hb. revert acc. induction Hb as [|b bufs [Hsz Hfull] Hb IH]; intros acc; simpl.
  { by rewrite app_nil_r. }
  destruct (Z.eqb_spec (buf_size b) 0) as [Hz|Hz].
  { rewrite IH. assert (buf_content file b = []) as -> by (unfold buf_content; by rewrite Hz). done. }
  assert (buf_content file b = buf_content file b) as Hc by done. unfold buf_content in Hc at 2. rewrite Hc.
  clear Hc. destruct (has_flag (buf_flags b) FUSE_BUF_IS_FD).
  - destruct Hfull as [Hpos Hlen].
    pose proof (pread_all_spec (Z.to_nat (buf_size b)) (buf_fd b) (buf_pos b) (buf_size b) 0) as Hp.
    rewrite take_0 in Hp. rewrite Hp by lia. rewrite IH. by rewrite <- app_assoc.
  - destruct Hfull as (mem & -> & Hlen). rewrite IH. by rewrite <- app_assoc.
Qed.
End Linear.


(** Two buffers, one of memory and one of a file read two bytes at a time. *)
Definition demo_file (fd : Z) : list Z := [10; 11; 12; 13; 14].
Definition demo_pread (fd n off : Z) : option (list Z) :=
  Some (take (Z.to_nat (Z.min n 2)) (drop (Z.to_nat off) (demo_file fd))).
Definition demo_bufvec : fuse_bufvec :=
  {| bv_idx := 0; bv_off := 0;
     bv_buf := [{| buf_size := 2; buf_flags := 0; buf_mem := Some [1; 2; 3]; buf_fd := -1; buf_pos := 0;
                   buf_mem_size := 3 |};
                {| buf_size := 3; buf_flags := 2; buf_mem := None; buf_fd := 9; buf_pos := 1;
                   buf_mem_size := 0 |}] |}.


(** ** Poll handles *)

(** What happens to the registry between its creation and the end of the
    session.  libfuse gives a handle it has not given before; [ReleasePollHandle]
    is called by the poll handler when it is done with its handle. *)
Inductive poll_event (notify_rc : Z -> Z) : bst -> bst -> Prop :=
  | poll_register this h s s' :
      h ∉ destroyed s -> RegisterPollHandle this (Some h) s = Done true s' ->
      poll_event notify_rc s s'
  | poll_notify h d r s s' :
      NotifyPollHandle notify_rc h d s = Done r s' -> poll_event notify_rc s s'
  | poll_destroy h r s s' : DestroyPollHandle h s = Done r s' -> poll_event notify_rc s s'
  | poll_cleanup this s s' : CleanupPollHandles this s = Done tt s' -> poll_event notify_rc s s'
  | poll_release h d s s' :
      h ∈ dom (polls s) -> ReleasePollHandle (Some h) d s = Done tt s' -> poll_event notify_rc s s'.

(** A handle in the registry is live, and no handle was destroyed twice. *)
Definition polls_ok (s : bst) : Prop :=
  NoDup (destroyed s) /\ forall h, h ∈ dom (polls s) -> h ∉ destroyed s.

Section Polls.

Lemma destroy_ok s h p :
  polls_ok s -> h ∈ dom (polls s) -> p = delete h (polls s) ->
  polls_ok (set_polls p (destroyed s ++ [h]) s).
Proof.
  intros [Hnd Hlive] Hh ->. split; simpl.
  - apply NoDup_app. split; [done|]. split; [|apply NoDup_singleton].
    intros x Hx Hx'. apply list_elem_of_singleton in Hx' as ->. by apply (Hlive h).
  - intros x Hx Hx'. apply elem_of_app in Hx' as [Hx'|Hx'].
    + apply (Hlive x); [set_solver|done].
    + apply list_elem_of_singleton in Hx'. set_solver.
Qed.

Lemma owned_handles_spec this p h : h ∈ owned_handles this p <-> p !! h = Some this.
Proof.
  unfold owned_handles. rewrite list_elem_of_fmap. split.
  - intros ([x y] & -> & Hx). apply list_elem_of_filter in Hx as [Ho Hx].
    apply elem_of_map_to_list in Hx. simpl in *. congruence.
  - intros Hh. exists (h, this). split; [done|]. apply list_elem_of_filter. split; [done|].
    by apply elem_of_map_to_list.
Qed.

Lemma owned_handles_NoDup this p : NoDup (owned_handles this p).
Proof.
  unfold owned_handles. apply NoDup_fmap_fst; [|apply NoDup_filter, NoDup_map_to_list].
  intros x y y' Hy Hy'. apply list_elem_of_filter in Hy as [? _], Hy' as [? _]. simpl in *. congruence.
Qed.

Lemma cleanup_ok this s s' : CleanupPollHandles this s = Done tt s' -> polls_ok s -> polls_ok s'.
Proof.
  unfold CleanupPollHandles, pmodify. intros [= <-] [Hnd Hlive]. split; simpl.
  - apply NoDup_app. split; [done|]. split; [|apply owned_handles_NoDup].
    intros x Hx Hx'. apply owned_handles_spec in Hx'. apply (Hlive x); [|done]. by apply elem_of_dom.
  - intros x Hx Hx'. apply elem_of_dom in Hx as [o Ho].
    apply map_lookup_filter_Some in Ho as [Ho Hne]. apply elem_of_app in Hx' as [Hx'|Hx'].
    + apply (Hlive x); [by apply elem_of_dom|done].
    + apply owned_handles_spec in Hx'. simpl in Hne. congruence.
Qed.

Lemma poll_event_ok notify_rc s s' : poll_event notify_rc s s' -> polls_ok s -> polls_ok s'.
Proof.
  intros Hev Hok.
  destruct Hev as [this h s s' Hnew Hd|h d r s s' Hd|h r s s' Hd|this s s' Hd|h d s s' Hin Hd].
  - unfold RegisterPollHandle, mbind, prog_bind, pmodify in Hd. injection Hd as <-.
    destruct Hok as [Hnd Hlive]. split; simpl; [done|]. set_solver.
  - unfold NotifyPollHandle in Hd. destruct (polls s !! h) eqn:Hh; [|by injection Hd as <- <-].
    destruct d; injection Hd as <- <-; [|done]. apply destroy_ok; [done| |done]. by apply elem_of_dom.
  - unfold DestroyPollHandle in Hd. destruct (polls s !! h) eqn:Hh; injection Hd as <- <-; [|done].
    apply destroy_ok; [done| |done]. by apply elem_of_dom.
  - by eapply cleanup_ok.
  - unfold ReleasePollHandle, pmodify in Hd. injection Hd as <-. destruct d.
    + by apply destroy_ok.
    + destruct Hok as [Hnd Hlive]. split; simpl; [done|]. set_solver.
Qed.
End Polls.

(** As long as a poll handle is released while it is registered, no
    handle is destroyed twice and none is used after it was destroyed,
    whatever the order of registrations, notifications, explicit destructions
    and shutdowns. *)
Theorem poll_handles_destroyed_once notify_rc s :
  rtc (poll_event notify_rc) bst0 s ->
  NoDup (destroyed s) /\ forall h, h ∈ dom (polls s) -> h ∉ destroyed s.
Proof.
  intros Hs. refine (rtc_ind_r polls_ok bst0 _ _ s Hs).
  - split; [apply NoDup_nil_2|set_solver].
  - intros x y _ Hxy. by eapply poll_event_ok.
Qed.

Lemma poll_handles_destroyed_once_witness :
  let s := set_polls {[5 := 1]} [] bst0 in
  NoDup (destroyed s) /\ forall h, h ∈ dom (polls s) -> h ∉ destroyed s.
Proof.
  apply (poll_handles_destroyed_once (fun _ => 0)). eapply rtc_l; [|apply rtc_refl].
  apply (poll_register _ 1 5); [apply not_elem_of_nil|reflexivity].
Defined.


(** [ReleasePollHandle] does not look whether the handle is still
    registered: a handle that JavaScript destroyed while the poll handler was
    pending is destroyed again when the handler finishes. *)
Theorem released_handle_destroyed_twice `{NapiConv} c this h value s s1 s2 :
  poll_revents value = None -> polls s !! h = Some this ->
  DestroyPollHandle h s = Done true s1 ->
  on_poll c (Some h) value s1 = Done tt s2 ->
  destroyed s2 = destroyed s ++ [h; h].
Proof.
  intros Hv Hh Hd Hp. unfold DestroyPollHandle in Hd. rewrite Hh in Hd. injection Hd as <-.
  unfold on_poll in Hp. rewrite Hv in Hp.
  unfold ReplyError, guarded_reply, TryMarkReplied, mbind, prog_bind in Hp.
  destruct (decide _); [|destruct (request c)]; simpl in Hp; injection Hp as <-; simpl;
    by rewrite <- app_assoc.
Qed.

Lemma released_handle_destroyed_twice_witness :
  exists s1 s2,
    DestroyPollHandle 5 (set_polls {[5 := 1]} [] bst0) = Done true s1 /\
    on_poll (H := napi_ref) demo_context (Some 5) JUndefined s1 = Done tt s2 /\ destroyed s2 = [5; 5].
Proof.
  eexists. eexists. split; [reflexivity|]. split; [reflexivity|].
  eapply (released_handle_destroyed_twice (H := napi_ref) demo_context 1 5 JUndefined (set_polls {[5 := 1]} [] bst0));
    reflexivity.
Defined.


(** ** Where the guard does not help *)

(** When sending a [read_buf] reply to the kernel fails, libfuse has
    freed the request, and the bridge replies a second time on it. *)
Theorem failed_read_buf_replies_twice `{NapiConv} rc c v bv s :
  request c = true -> fresh s -> ConvertJsFuseBufvec v = inr bv -> rc bv <> 0 ->
  exists s', on_read_buf rc c v s = Done tt s' /\ exists e, sent s' = [RData bv; RErr e].
Proof.
  intros Hc [Hs Hr] Hv Hrc. unfold on_read_buf. rewrite Hv.
  unfold mbind, prog_bind, keep_set, emit, pmodify. destruct (Z.eqb_spec (rc bv) 0); [done|]. cbn [negb].
  unfold ReplyError, guarded_reply, TryMarkReplied, mbind, prog_bind. cbn [replied set_keep set_sent].
  rewrite decide_False by (simpl; rewrite Hr; set_solver). rewrite Hc. simpl.
  eexists. split; [done|]. eexists. simpl. by rewrite Hs.
Qed.

Definition demo_read_buf : js :=
  JObject [("count", Number 1); ("idx", Number 0); ("off", Number 0);
           ("buf", JArray [JObject [("size", Number 2); ("mem", JArrayBuffer [7; 8])]])]%string.
Lemma failed_read_buf_replies_twice_witness :
  exists bv s', on_read_buf (H := napi_ref) (fun _ => -32) demo_context demo_read_buf bst0 = Done tt s' /\
    exists e, sent s' = [RData bv; RErr e].
Proof.
  eexists. apply (failed_read_buf_replies_twice (H := napi_ref) (fun _ => -32) demo_context demo_read_buf);
    [reflexivity|split; reflexivity|vm_compute; reflexivity|discriminate].
Defined.


(** The [readdir] fallback of [readdirplus] sends the listing through
    one context and reports errors through another: an error callback after
    the listing answers the request again. *)
Theorem fallback_replies_twice `{NapiConv} c rd_ctx s code :
  request c = true -> request rd_ctx = true -> cid c <> cid rd_ctx -> fresh s ->
  exists s1 s2,
    on_readdir_fallback c rd_ctx (JArray []) s = Done tt s1 /\
    error_callback rd_ctx code s1 = Done tt s2 /\ length (sent s2) = 2%nat.
Proof.
  intros Hc Hr Hne [Hs Hrep]. cbn [on_readdir_fallback]. unfold write_entries_and_reply.
  destruct (c_size rd_ctx =? 0); simpl; unfold mbind, prog_bind; simpl;
    unfold ReplyBuf, guarded_reply, TryMarkReplied, mbind, prog_bind; simpl;
    rewrite decide_False by (rewrite Hrep; set_solver); rewrite Hc; simpl;
    (eexists; eexists; split; [reflexivity|]); unfold error_callback; simpl;
    rewrite decide_False by (rewrite Hrep; set_solver);
    unfold ReplyError, guarded_reply, TryMarkReplied, mbind, prog_bind; simpl;
    rewrite decide_False by (rewrite Hrep; set_solver); rewrite Hr; simpl;
    (split; [reflexivity|]); simpl; by rewrite Hs.
Qed.

Lemma fallback_replies_twice_witness :
  exists s1 s2,
    on_readdir_fallback (H := napi_ref) demo_context (CreateContext 1 READDIR true None) (JArray []) bst0 = Done tt s1 /\
    error_callback (CreateContext 1 READDIR true None) (-5) s1 = Done tt s2 /\ length (sent s2) = 2%nat.
Proof.
  apply (fallback_replies_twice (H := napi_ref)); [reflexivity|reflexivity|discriminate|split; reflexivity].
Defined.


(** A promise rejected with an object whose [code] is not a string and
    which has no [errno] makes the rejection handler throw: the request is
    never answered. *)
Theorem rejection_without_errno_is_lost `{NapiConv} handlers id caller parent name h r :
  handlers UNLINK = true -> ExtractErrnoFromValue r = None ->
  (forall args, h args = HReturn (JPromise true)) ->
  exists s, (q ← HandleUnlink (accepting handlers) id true caller parent name;
             life q (Ran (Some h) (Rejected r))) bst0 = Throws s /\ sent s = [].
Proof.
  intros Hh Hr Hp. unfold HandleUnlink, mbind, prog_bind. rewrite ProcessRequest_accepting by done.
  simpl. unfold unlink_call, Call, mbind, prog_bind. rewrite Hp. simpl.
  unfold ReplyWithErrorValue. rewrite Hr. by eexists.
Qed.

Lemma rejection_without_errno_is_lost_witness :
  exists s, (q ← HandleUnlink (H := napi_ref) (accepting (fun _ => true)) 0 true None 1 (Some "a"%string);
             life q (Ran (Some (fun _ => HReturn (JPromise true)))
                      (Rejected (JObject [("code"%string, Number 20)])))) bst0 = Throws s /\ sent s = [].
Proof. apply (rejection_without_errno_is_lost (H := napi_ref) (fun _ => true)); done. Defined.

