(* ===== verification/Registry.v ===== *)
(** * fuse_bridge.cc: registering operation handlers

    [SetOperationHandler] and [RemoveOperationHandler], called from JavaScript,
    keep two registries in step: the thread-safe functions of the dispatcher,
    by name, and the bridge's own registry, by operation. *)
From S2P Require Import Prelude PrioQueue Dispatcher Sys Napi Bridge BridgeOps.

(** The members of [fuse_ops_] that [InitializeFuseOperations] sets. *)
Definition InitializeFuseOperations : list FuseOpType :=
  [INIT; DESTROY; FORGET; FORGET_MULTI; LOOKUP; GETATTR; SETATTR; READLINK; MKNOD; MKDIR; UNLINK;
   RMDIR; SYMLINK; RENAME; LINK; OPEN; READ; WRITE; WRITE_BUF; FLUSH; RELEASE; FSYNC; OPENDIR;
   READDIR; READDIRPLUS; RELEASEDIR; FSYNCDIR; STATFS; ACCESS; CREATE; COPY_FILE_RANGE; SETXATTR;
   GETXATTR; LISTXATTR; REMOVEXATTR; GETLK; SETLK; BMAP; IOCTL; POLL].

Section Registry.
Context `{PQ : !PrioQueue PendingCallback ComparePriority}.

(** The global dispatcher and [handler_registry_]; [thrown] says whether the
    call left a JavaScript exception. *)
Record registry := {
  global_dispatcher : option dispatcher;
  handler_registry_ : FuseOpType -> bool;
  thrown : bool;
}.
Definition throw (r : registry) : registry :=
  {| global_dispatcher := global_dispatcher r; handler_registry_ := handler_registry_ r; thrown := true |}.
Definition set_dispatcher (g : option dispatcher) (r : registry) : registry :=
  {| global_dispatcher := g; handler_registry_ := handler_registry_ r; thrown := thrown r |}.
Definition set_handler (t : FuseOpType) (b : bool) (r : registry) : registry :=
  {| global_dispatcher := global_dispatcher r;
     handler_registry_ := fun t' => if decide (t' = t) then b else handler_registry_ r t';
     thrown := thrown r |}.

(** [created] tells whether N-API could create the thread-safe functions. *)
Definition RegisterOperationHandler (created : bool) (op_type : FuseOpType) (r : registry)
    : bool * registry :=
  if decide (op_type = UNKNOWN) then (false, throw r)
  else
    let '(ready, r) :=
      match global_dispatcher r with
      | Some _ => (true, r)
      | None => let '(ok, g) := Dispatcher.InitializeGlobalDispatcher created 1000 1 None in
                (ok, set_dispatcher g r)
      end in
    if negb ready then (false, throw r)
    else match global_dispatcher r with
    | None => (false, throw r)
    | Some d =>
        let '(registered, d) := RegisterHandler created (FuseOpTypeToString op_type) d in
        let r := set_dispatcher (Some d) r in
        if registered then (true, set_handler op_type true r) else (false, throw r)
    end.

Definition RemoveOperationHandler (op_type : FuseOpType) (r : registry) : bool * registry :=
  if decide (op_type = UNKNOWN) then (false, r)
  else match global_dispatcher r with
  | None => (false, r)
  | Some d =>
      let '(success, d) := UnregisterHandler (FuseOpTypeToString op_type) d in
      let r := set_dispatcher (Some d) r in
      if success then (true, set_handler op_type false r) else (false, r)
  end.

Definition HasOperationHandler (op_type : FuseOpType) (r : registry) : bool :=
  if decide (op_type = UNKNOWN) then false else handler_registry_ r op_type.

(** The JavaScript entry points; the result is [None] for [undefined]. *)
Definition SetOperationHandler (created : bool) (args : list js) (r : registry)
    : option bool * registry :=
  match args with
  | JString operation :: JFunction :: _ =>
      let '(success, r) := RegisterOperationHandler created (StringToFuseOpType operation) r in
      (Some success, r)
  | _ => (None, throw r)
  end.
Definition js_RemoveOperationHandler (args : list js) (r : registry) : option bool * registry :=
  match args with
  | JString operation :: _ =>
      let '(success, r) := RemoveOperationHandler (StringToFuseOpType operation) r in (Some success, r)
  | _ => (None, throw r)
  end.

(** Both registries agree: the bridge knows a handler exactly when the
    dispatcher has the function of its name. *)
Definition in_step (r : registry) : Prop :=
  match global_dispatcher r with
  | None => forall t, t <> UNKNOWN -> handler_registry_ r t = false
  | Some d => forall t, t <> UNKNOWN ->
      (handler_registry_ r t = true <-> FuseOpTypeToString t ∈ handlers_ d)
  end.

Lemma op_name_inverse t : t <> UNKNOWN -> StringToFuseOpType (FuseOpTypeToString t) = t.
Proof. by destruct t. Qed.
Lemma op_name_inj t t' : t <> UNKNOWN -> t' <> UNKNOWN ->
  FuseOpTypeToString t = FuseOpTypeToString t' -> t = t'.
Proof.
  intros Ht Ht' Heq. rewrite <- (op_name_inverse t), <- (op_name_inverse t') by done. by rewrite Heq.
Qed.

Lemma register_in_step created t r :
  in_step r -> in_step (RegisterOperationHandler created t r).2.
Proof.
  intros Hr. unfold RegisterOperationHandler. destruct (decide (t = UNKNOWN)) as [|Ht]; [done|].
  assert (forall d r', (forall t, t <> UNKNOWN -> (handler_registry_ r' t = true <-> FuseOpTypeToString t ∈ handlers_ d)) ->
    in_step ((let '(registered, d') := RegisterHandler created (FuseOpTypeToString t) d in
              if registered then (true, set_handler t true (set_dispatcher (Some d') r'))
              else (false, throw (set_dispatcher (Some d') r'))).2)) as Hstep.
  { intros d r' Hd. unfold RegisterHandler. destruct (decide (state_ d = RUNNING)), created; simpl; try done.
    intros t' Ht'. simpl. destruct (decide (t' = t)) as [->|Hne]; [set_solver|].
    rewrite (Hd t' Ht'). split; [set_solver|]. intros [Heq%elem_of_singleton|]%elem_of_union; [|done].
    by apply op_name_inj in Heq. }
  unfold in_step in Hr. destruct (global_dispatcher r) as [d|] eqn:Hg; simpl.
  - rewrite Hg. destruct (RegisterHandler created (FuseOpTypeToString t) d) as [reg d'] eqn:He.
    specialize (Hstep d r Hr). rewrite He in Hstep. by destruct reg.
  - destruct created; simpl; [|by unfold in_step; simpl].
    intros t' Ht'. simpl. destruct (decide (t' = t)) as [->|Hne]; [set_solver|].
    rewrite (Hr t' Ht'). split; [done|]. intros [Heq%elem_of_singleton|]%elem_of_union; [|set_solver].
    by apply op_name_inj in Heq.
Qed.

Lemma remove_in_step t r : in_step r -> in_step (RemoveOperationHandler t r).2.
Proof.
  intros Hr. unfold RemoveOperationHandler. destruct (decide (t = UNKNOWN)) as [|Ht]; [done|].
  unfold in_step in Hr. destruct (global_dispatcher r) as [d|] eqn:Hg; [|unfold in_step; simpl; by rewrite Hg].
  unfold UnregisterHandler. destruct (decide (FuseOpTypeToString t ∈ handlers_ d)); simpl; [|done].
  intros t' Ht'. simpl. destruct (decide (t' = t)) as [->|Hne]; [set_solver|].
  rewrite (Hr t' Ht'). split; [|set_solver]. intros Hin. apply elem_of_difference. split; [done|].
  intros Heq%elem_of_singleton. by apply op_name_inj in Heq.
Qed.

(** Any sequence of calls from JavaScript. *)
Inductive registry_step : registry -> registry -> Prop :=
  | reg_set created args r : registry_step r (SetOperationHandler created args r).2
  | reg_remove args r : registry_step r (js_RemoveOperationHandler args r).2.
Definition registry0 : registry :=
  {| global_dispatcher := None; handler_registry_ := fun _ => false; thrown := false |}.

Lemma registry_step_ok r r' : registry_step r r' -> in_step r -> in_step r'.
Proof.
  intros Hs Hr. destruct Hs as [created args r|args r].
  - unfold SetOperationHandler. destruct args as [|[] [|[] ?]]; try done.
    pose proof (register_in_step created (StringToFuseOpType s) r Hr) as Hi.
    by destruct (RegisterOperationHandler created (StringToFuseOpType s) r).
  - unfold js_RemoveOperationHandler. destruct args as [|[] ?]; try done.
    pose proof (remove_in_step (StringToFuseOpType s) r Hr) as Hi.
    by destruct (RemoveOperationHandler (StringToFuseOpType s) r).
Qed.
End Registry.

(** An operation's name denotes it, in any letter case. *)
Theorem operation_names_roundtrip t :
  t <> UNKNOWN ->
  StringToFuseOpType (FuseOpTypeToString t) = t /\
  forall name, lower name = FuseOpTypeToString t -> StringToFuseOpType name = t.
Proof.
  intros Ht. split; [by apply op_name_inverse|]. intros name Hname.
  transitivity (StringToFuseOpType (FuseOpTypeToString t)); [|by apply op_name_inverse]. unfold StringToFuseOpType. rewrite Hname. by destruct t.
Qed.

Lemma operation_names_roundtrip_witness :
  StringToFuseOpType "GetAttr" = GETATTR.
Proof. apply (operation_names_roundtrip GETATTR); [discriminate|reflexivity]. Defined.


(** Whatever JavaScript registers and removes, the bridge has a handler
    for an operation exactly when the dispatcher can call one: a request the
    bridge accepts is not refused for want of a handler. *)
Theorem registries_in_step `{PQ : !PrioQueue PendingCallback ComparePriority} r t :
  rtc registry_step registry0 r -> t <> UNKNOWN ->
  HasOperationHandler t r = true <->
  match global_dispatcher r with
  | None => False
  | Some d => FuseOpTypeToString t ∈ handlers_ d
  end.
Proof.
  intros Hr Ht. assert (in_step r) as Hs.
  { refine (rtc_ind_r in_step _ _ _ r Hr); [done|]. intros x y _. apply registry_step_ok. }
  unfold HasOperationHandler. rewrite decide_False by done. unfold in_step in Hs.
  destruct (global_dispatcher r); [by apply Hs|]. rewrite (Hs t Ht). split; done.
Qed.

Lemma registries_in_step_witness :
  let r := (SetOperationHandler (PQ := dispatch_queue_impl) true [JString "unlink"; JFunction] registry0).2 in
  HasOperationHandler UNLINK r = true <->
  match global_dispatcher r with
  | None => False
  | Some d => FuseOpTypeToString UNLINK ∈ handlers_ d
  end.
Proof.
  apply (registries_in_step (PQ := dispatch_queue_impl)); [|discriminate].
  eapply rtc_l; [apply reg_set|apply rtc_refl].
Defined.


(** Operations a handler can be registered for although libfuse never
    calls them: they have no member in [fuse_ops_] and no request of another
    operation is routed to them. *)
Theorem never_called_operations :
  filter (fun t => t ∉ InitializeFuseOperations /\ t ∉ [READ_BUF; TRUNCATE; CHMOD; CHOWN])
    (map snd kOperationMappings) = [FALLOCATE; LSEEK; FLOCK; RETRIEVE_REPLY].
Proof. vm_compute. reflexivity. Qed.
