(* ===== verification/Timespec.v ===== *)
(** * src/timespec_codec.cc: timestamps

    Nanosecond BigInts, arithmetic, normalisation and the decimal text of
    [struct timespec].  [NS_PER_SEC] is a [uint64_t], so an expression that
    mixes it with signed operands is computed modulo 2^64.  A signed overflow is
    undefined in C++ and is [None] here.  ([JS Date] values, which are doubles,
    the clocks and [nanosleep] are not modelled.) *)
From Stdlib Require Import Ascii.
From S2P Require Import Prelude Errno Sys Napi.

Abbreviation NS_PER_SEC := 1000000000 (only parsing).

Definition ns_total (ts : timespec) : Z := tv_sec ts * NS_PER_SEC + tv_nsec ts.

(** ** BigInts *)

Section BigInts.
Context `{NapiConv}.

Definition timespec_to_ns_bigint (ts : timespec) : js :=
  u64_to_bigint (u64 (u64 (u64 (tv_sec ts) * NS_PER_SEC) + u64 (tv_nsec ts))).
Definition ns_bigint_to_timespec (v : js) : option timespec :=
  match bigint_to_u64 v with
  | Some ns => Some {| tv_sec := s64 (ns / NS_PER_SEC); tv_nsec := ns `mod` NS_PER_SEC |}
  | None => None
  end.
End BigInts.

(** ** Arithmetic *)

(** A result of type [int64_t]. *)
Definition checked_s64 (z : Z) : option Z := if bool_decide (in_s 64 z) then Some z else None.

(** [static_cast<int64_t>(tv_sec) * NS_PER_SEC + tv_nsec], stored in an [int64_t] *)
Definition total_ns (ts : timespec) : Z := s64 (u64 (u64 (tv_sec ts) * NS_PER_SEC) + tv_nsec ts).

Definition timespec_add_ns (ts : timespec) (ns : Z) : option timespec :=
  match checked_s64 (total_ns ts + ns) with
  | None => None
  | Some total =>
      if total <? 0 then Some {| tv_sec := -1; tv_nsec := 0 |}
      else Some {| tv_sec := total / NS_PER_SEC; tv_nsec := total `mod` NS_PER_SEC |}
  end.

Definition timespec_compare (a b : timespec) : Z :=
  if tv_sec a <? tv_sec b then -1 else if tv_sec b <? tv_sec a then 1
  else if tv_nsec a <? tv_nsec b then -1 else if tv_nsec b <? tv_nsec a then 1 else 0.

Definition timespec_diff_ns (later earlier : timespec) : option Z :=
  checked_s64 (total_ns later - total_ns earlier).

(** [sizeof(time_t) == 8] *)
Definition is_valid_timespec (ts : timespec) : bool :=
  if (tv_nsec ts <? 0) || (NS_PER_SEC <=? u64 (tv_nsec ts)) then false
  else if tv_sec ts <? 0 then false else true.

(** The loop for a negative [tv_nsec]; [fuel] bounds its rounds. *)
Fixpoint borrow (fuel : nat) (ts : timespec) : option timespec :=
  if tv_nsec ts <? 0 then
    match fuel with
    | O => None
    | S fuel =>
        match checked_s64 (tv_sec ts - 1) with
        | Some sec => borrow fuel {| tv_sec := sec; tv_nsec := tv_nsec ts + NS_PER_SEC |}
        | None => None
        end
    end
  else Some ts.
Definition carry (ts : timespec) : option timespec :=
  if NS_PER_SEC <=? u64 (tv_nsec ts) then
    match checked_s64 (tv_sec ts + u64 (tv_nsec ts) / NS_PER_SEC) with
    | Some sec => Some {| tv_sec := sec; tv_nsec := u64 (tv_nsec ts) `mod` NS_PER_SEC |}
    | None => None
    end
  else Some ts.
Definition normalize_timespec (ts : timespec) : option timespec :=
  match carry ts with Some ts => borrow 1 ts | None => None end.

Definition make_timespec (sec nsec : Z) : option timespec :=
  normalize_timespec {| tv_sec := sec; tv_nsec := nsec |}.
Definition zero_timespec : timespec := {| tv_sec := 0; tv_nsec := 0 |}.

(** ** Text *)

Definition digit (d : Z) : Ascii.ascii := Ascii.ascii_of_N (Z.to_N (48 + d)).
Definition digit_value (a : Ascii.ascii) : option Z :=
  let n := Z.of_N (Ascii.N_of_ascii a) in if (48 <=? n) && (n <=? 57) then Some (n - 48) else None.

(** The decimal digits of a number that has at most [fuel] of them. *)
Fixpoint decimal (fuel : nat) (z : Z) (acc : string) : string :=
  match fuel with
  | O => acc
  | S fuel =>
      let acc := String (digit (z `mod` 10)) acc in
      if z / 10 =? 0 then acc else decimal fuel (z / 10) acc
  end.
Fixpoint zeros (n : nat) : string :=
  match n with O => "" | S n => String "0"%char (zeros n) end%string.

(** [%ld] and [%0<width>ld]: a [long] has at most 19 digits. *)
Definition format_ld (z : Z) : string :=
  if z <? 0 then String "-" (decimal 19 (- z) "") else decimal 19 z "".
Definition format_0ld (width : nat) (z : Z) : string :=
  let digits := decimal 19 (Z.abs z) "" in
  let sign := if z <? 0 then "-" else "" in
  (sign ++ zeros (width - String.length sign - String.length digits) ++ digits)%string.

Definition timespec_to_string (ts : timespec) : string :=
  (format_ld (tv_sec ts) ++ "." ++ format_0ld 9 (tv_nsec ts))%string.

(** [std::stoll]: blanks, a sign and the longest run of digits; it throws when
    there is no digit or the value does not fit. *)
Definition isspace (a : Ascii.ascii) : bool :=
  let n := Z.of_N (Ascii.N_of_ascii a) in (n =? 32) || ((9 <=? n) && (n <=? 13)).
Fixpoint skip_spaces (s : string) : string :=
  match s with
  | String a s' => if isspace a then skip_spaces s' else s
  | EmptyString => s
  end.
Fixpoint digits_value (s : string) (acc : Z) : Z :=
  match s with
  | String a s' => match digit_value a with Some d => digits_value s' (acc * 10 + d) | None => acc end
  | EmptyString => acc
  end.
Definition starts_with_digit (s : string) : bool :=
  match s with String a _ => match digit_value a with Some _ => true | None => false end | _ => false end.
Definition unsigned_ll (negative : bool) (s : string) : option Z :=
  if starts_with_digit s then checked_s64 (if negative then - digits_value s 0 else digits_value s 0) else None.
Definition stoll (s : string) : option Z :=
  match skip_spaces s with
  | String "-" s' => unsigned_ll true s'
  | String "+" s' => unsigned_ll false s'
  | s' => unsigned_ll false s'
  end%char.

(** [str.find('.')] splits the string at its first point. *)
Fixpoint split_point (s : string) : option (string * string) :=
  match s with
  | EmptyString => None
  | String a s' =>
      if Ascii.eqb a "." then Some (""%string, s')
      else match split_point s' with Some (l, r) => Some (String a l, r) | None => None end
  end%char.

Fixpoint str_take (n : nat) (s : string) : string :=
  match n, s with S n, String a s => String a (str_take n s) | _, _ => ""%string end.
Definition nine_digits (s : string) : string :=
  if (String.length s <? 9)%nat then (s ++ zeros (9 - String.length s))%string
  else if (9 <? String.length s)%nat then str_take 9 s else s.

(** The result and what is left in [*ts]. *)
Definition accept (ts : timespec) : option (bool * timespec) :=
  match normalize_timespec ts with Some ts => Some (is_valid_timespec ts, ts) | None => None end.
Definition string_to_timespec (str : string) : option (bool * timespec) :=
  match split_point str with
  | None =>
      match stoll str with
      | Some sec => accept {| tv_sec := sec; tv_nsec := 0 |}
      | None => Some (false, zero_timespec)
      end
  | Some (sec_str, nsec_str) =>
      match stoll sec_str, stoll (nine_digits nsec_str) with
      | Some sec, Some nsec => accept {| tv_sec := sec; tv_nsec := nsec |}
      | _, _ => Some (false, zero_timespec)
      end
  end.

Example parse_half : string_to_timespec "12.5" = Some (true, {| tv_sec := 12; tv_nsec := 500000000 |}).
Proof. reflexivity. Qed.
Example print_small : timespec_to_string {| tv_sec := 3; tv_nsec := 42 |} = "3.000000042"%string.
Proof. reflexivity. Qed.

(** ** Values *)

Lemma checked_s64_in z : in_s 64 z -> checked_s64 z = Some z.
Proof. intros Hz. unfold checked_s64. by rewrite bool_decide_true. Qed.

(** A timestamp between 1970 and the end of [time_t]. *)
Record ts_ok (ts : timespec) : Prop := {
  ts_sec : 0 <= tv_sec ts < 2 ^ 63; ts_nsec : 0 <= tv_nsec ts < NS_PER_SEC;
}.
Lemma is_valid_timespec_ok ts : in_s 64 (tv_sec ts) -> in_s 64 (tv_nsec ts) ->
  is_valid_timespec ts = true <-> ts_ok ts.
Proof.
  unfold in_s, is_valid_timespec. intros Hs Hn. destruct (Z.ltb_spec (tv_nsec ts) 0).
  { simpl. split; [done|]. intros [? ?]. lia. }
  rewrite wrapu_small by (unfold in_u; lia). destruct (Z.leb_spec NS_PER_SEC (tv_nsec ts)).
  { simpl. split; [done|]. intros [? ?]. lia. }
  simpl. destruct (Z.ltb_spec (tv_sec ts) 0); (split; [|intros [? ?]; try lia; done]); [done|].
  intros _. split; lia.
Qed.

Lemma ns_parts ts : 0 <= tv_nsec ts < NS_PER_SEC ->
  ns_total ts / NS_PER_SEC = tv_sec ts /\ ns_total ts `mod` NS_PER_SEC = tv_nsec ts.
Proof. intros Hn. unfold ns_total. Z.to_euclidean_division_equations. lia. Qed.
Lemma ns_of_parts n : ns_total {| tv_sec := n / NS_PER_SEC; tv_nsec := n `mod` NS_PER_SEC |} = n.
Proof. unfold ns_total. simpl. Z.to_euclidean_division_equations. lia. Qed.

(** The nanoseconds since the epoch, when they fit. *)
Lemma total_ns_small ts : ts_ok ts -> ns_total ts < 2 ^ 63 -> total_ns ts = ns_total ts.
Proof.
  intros [Hs Hn] Ht. unfold total_ns, ns_total in *.
  rewrite (wrapu_small 64 (tv_sec ts)), (wrapu_small 64 (tv_sec ts * NS_PER_SEC)) by (unfold in_u; lia).
  apply wraps_small; [lia|unfold in_s; lia].
Qed.

(** A timestamp that is not before 1970 and whose nanoseconds fit in 64 bits
    comes back from its BigInt, and every 64-bit count of nanoseconds comes back
    from its timestamp. *)
Theorem timestamp_bigint_roundtrip `{NapiLaws} ts n :
  ts_ok ts -> ns_total ts < 2 ^ 64 -> in_u 64 n ->
  ns_bigint_to_timespec (timespec_to_ns_bigint ts) = Some ts /\
  exists ts', ns_bigint_to_timespec (JBigInt n) = Some ts' /\ ts_ok ts' /\
    timespec_to_ns_bigint ts' = JBigInt n.
Proof.
  intros [Hs Hn] Ht Hin.
  assert (forall ts, ts_ok ts -> ns_total ts < 2 ^ 64 -> timespec_to_ns_bigint ts = JBigInt (ns_total ts)) as Hto.
  { intros t [Hs' Hn'] Ht'. unfold timespec_to_ns_bigint, u64_to_bigint, ns_total in *.
    rewrite (wrapu_small 64 (tv_sec t)), (wrapu_small 64 (tv_sec t * NS_PER_SEC)), (wrapu_small 64 (tv_nsec t))
      by (unfold in_u; lia).
    by rewrite wrapu_small by (unfold in_u; lia). }
  assert (forall m, in_u 64 m -> ns_bigint_to_timespec (JBigInt m) =
            Some {| tv_sec := m / NS_PER_SEC; tv_nsec := m `mod` NS_PER_SEC |}) as Hof.
  { intros m Hm. unfold ns_bigint_to_timespec, bigint_to_u64. rewrite BigUint64_exact by done.
    rewrite wraps_small; [done|lia|]. unfold in_u, in_s in *. Z.to_euclidean_division_equations. lia. }
  split.
  - rewrite Hto by done. rewrite Hof by (unfold in_u, ns_total in *; lia).
    destruct (ns_parts ts Hn) as [-> ->]. by destruct ts.
  - exists {| tv_sec := n / NS_PER_SEC; tv_nsec := n `mod` NS_PER_SEC |}. rewrite Hof by done. split; [done|].
    assert (ts_ok {| tv_sec := n / NS_PER_SEC; tv_nsec := n `mod` NS_PER_SEC |}) as Hok.
    { unfold in_u in Hin. split; simpl; Z.to_euclidean_division_equations; lia. }
    split; [done|]. rewrite Hto, ns_of_parts; [done|done|]. rewrite ns_of_parts. unfold in_u in Hin. lia.
Qed.
Lemma timestamp_bigint_roundtrip_witness :
  let ts := {| tv_sec := 1700000000; tv_nsec := 123456789 |} in
  @ns_bigint_to_timespec napi_ref (timespec_to_ns_bigint ts) = Some ts /\
  timespec_to_ns_bigint ts = JBigInt 1700000000123456789.
Proof.
  split; [|reflexivity].
  apply (@timestamp_bigint_roundtrip napi_ref napi_ref_laws {| tv_sec := 1700000000; tv_nsec := 123456789 |} 0).
  - split; simpl; lia.
  - reflexivity.
  - unfold in_u. lia.
Defined.

(** Adding nanoseconds moves the instant by exactly them, the difference of two
    instants is the nanoseconds between them, and comparing says how the
    instants lie, as long as the nanoseconds fit in 63 bits; an instant before
    1970 becomes the second -1. *)
Theorem timespec_arithmetic a b ns :
  ts_ok a -> ts_ok b -> ns_total a < 2 ^ 63 -> ns_total b < 2 ^ 63 ->
  in_s 64 (ns_total a + ns) ->
  (exists r, timespec_add_ns a ns = Some r /\
     if ns_total a + ns <? 0 then r = {| tv_sec := -1; tv_nsec := 0 |}
     else is_valid_timespec r = true /\ ns_total r = ns_total a + ns) /\
  timespec_diff_ns a b = Some (ns_total a - ns_total b) /\
  timespec_compare a b = Z.sgn (ns_total a - ns_total b).
Proof.
  intros Ha Hb Hta Htb Hns. split_and!.
  - unfold timespec_add_ns. rewrite total_ns_small, checked_s64_in by done.
    destruct (Z.ltb_spec (ns_total a + ns) 0); [by eexists|]. eexists. split; [done|].
    rewrite ns_of_parts. split; [|done]. unfold in_s in Hns.
    apply is_valid_timespec_ok; unfold in_s; [| |split]; simpl; Z.to_euclidean_division_equations; lia.
  - unfold timespec_diff_ns. rewrite !total_ns_small by done. destruct Ha, Hb. apply checked_s64_in.
    unfold in_s, ns_total in *. lia.
  - destruct Ha as [Has Han], Hb as [Hbs Hbn]. unfold timespec_compare, ns_total in *.
    destruct (Z.ltb_spec (tv_sec a) (tv_sec b)); [lia|].
    destruct (Z.ltb_spec (tv_sec b) (tv_sec a)); [lia|].
    destruct (Z.ltb_spec (tv_nsec a) (tv_nsec b)); [lia|].
    destruct (Z.ltb_spec (tv_nsec b) (tv_nsec a)); lia.
Qed.
Lemma timespec_arithmetic_witness :
  let a := {| tv_sec := 5; tv_nsec := 999999999 |} in let b := {| tv_sec := 7; tv_nsec := 0 |} in
  timespec_add_ns a 2 = Some {| tv_sec := 6; tv_nsec := 1 |} /\ timespec_diff_ns a b = Some (-1000000001) /\
  timespec_compare a b = -1.
Proof.
  split; [reflexivity|].
  apply (timespec_arithmetic {| tv_sec := 5; tv_nsec := 999999999 |} {| tv_sec := 7; tv_nsec := 0 |} 2).
  - split; simpl; lia.
  - split; simpl; lia.
  - vm_compute; reflexivity.
  - vm_compute; reflexivity.
  - vm_compute. split; congruence.
Defined.

(** Normalising keeps the instant and brings the nanoseconds below a second
    when they are not negative; negative nanoseconds are read as unsigned, so
    that the instant moves by 2^64 nanoseconds (584 years) instead of borrowing
    from the seconds. *)
Theorem normalize_moves_negative ts : in_s 64 (tv_nsec ts) -> in_s 33 (tv_sec ts) ->
  exists r, normalize_timespec ts = Some r /\ 0 <= tv_nsec r < NS_PER_SEC /\
    ns_total r = ns_total ts + (if tv_nsec ts <? 0 then 2 ^ 64 else 0).
Proof.
  unfold in_s. intros Hn Hs. set (u := u64 (tv_nsec ts)).
  assert (u = tv_nsec ts + (if tv_nsec ts <? 0 then 2 ^ 64 else 0) /\ 0 <= u < 2 ^ 64) as [Hu Hur].
  { unfold u. pose proof (wrapu_range 64 (tv_nsec ts) ltac:(lia)) as Hr. unfold in_u in Hr. split; [|done].
    destruct (Z.ltb_spec (tv_nsec ts) 0); [|by rewrite wrapu_small by (unfold in_u; lia); lia].
    unfold wrapu. rewrite <- (Z_mod_plus_full (tv_nsec ts) 1). rewrite Z.mod_small; lia. }
  unfold normalize_timespec, carry. fold u. destruct (Z.leb_spec NS_PER_SEC u).
  - rewrite checked_s64_in by (unfold in_s; Z.to_euclidean_division_equations; lia).
    assert (0 <= u `mod` NS_PER_SEC < NS_PER_SEC) as Hm by (apply Z.mod_pos_bound; lia).
    simpl. destruct (Z.ltb_spec (u `mod` NS_PER_SEC) 0); [lia|]. eexists. split; [done|]. split; [done|].
    unfold ns_total in *. simpl. pose proof (Z.div_mod u NS_PER_SEC). lia.
  - assert (0 <= tv_nsec ts) by (destruct (Z.ltb_spec (tv_nsec ts) 0); lia).
    destruct (Z.ltb_spec (tv_nsec ts) 0); [lia|]. simpl. destruct (Z.ltb_spec (tv_nsec ts) 0); [lia|].
    exists ts. split; [done|]. split; lia.
Qed.
Lemma normalize_moves_negative_witness : exists r,
  normalize_timespec {| tv_sec := 1; tv_nsec := -1 |} = Some r /\
  r = {| tv_sec := 18446744074; tv_nsec := 709551615 |} /\ ns_total r = 999999999 + 2 ^ 64.
Proof.
  destruct (normalize_moves_negative {| tv_sec := 1; tv_nsec := -1 |}) as (r & Hr & _ & Ht).
  - unfold in_s. simpl. lia.
  - unfold in_s. simpl. lia.
  - exists r. split; [exact Hr|]. split; [|exact Ht]. revert Hr. vm_compute. by intros [= <-].
Defined.

(** ** Text *)

Fixpoint all_digits (s : string) : bool :=
  match s with
  | EmptyString => true
  | String a s' => match digit_value a with Some _ => all_digits s' | None => false end
  end.

Lemma digit_digit_value d : 0 <= d < 10 -> digit_value (digit d) = Some d.
Proof.
  intros Hd. assert (d = 0 \/ d = 1 \/ d = 2 \/ d = 3 \/ d = 4 \/ d = 5 \/ d = 6 \/ d = 7 \/ d = 8 \/ d = 9) as Hc
    by lia.
  by repeat destruct Hc as [-> | Hc]; [..|subst d].
Qed.
Lemma all_digits_decimal f z acc : all_digits acc = true -> all_digits (decimal f z acc) = true.
Proof.
  revert z acc. induction f as [|f IH]; intros z acc Hacc; [done|]. cbn [decimal].
  assert (all_digits (String (digit (z `mod` 10)) acc) = true) as Hs.
  { cbn [all_digits]. by rewrite digit_digit_value by (apply Z.mod_pos_bound; lia). }
  destruct (z / 10 =? 0); [done|by apply IH].
Qed.
Lemma decimal_value f z acc : 0 <= z < 10 ^ Z.of_nat f -> (0 < f)%nat ->
  digits_value (decimal f z acc) 0 = digits_value acc z.
Proof.
  revert z acc. induction f as [|f IH]; intros z acc Hz Hf; [lia|]. cbn [decimal].
  rewrite Nat2Z.inj_succ, Z.pow_succ_r in Hz by lia.
  pose proof (Z.mod_pos_bound z 10 ltac:(lia)). pose proof (Z.div_mod z 10 ltac:(lia)).
  destruct (Z.eqb_spec (z / 10) 0) as [Hz0|Hz0].
  - cbn [digits_value]. rewrite digit_digit_value by done. f_equal. lia.
  - assert (0 <= z / 10 < 10 ^ Z.of_nat f) by (split; [apply Z.div_pos; lia|apply Z.div_lt_upper_bound; lia]).
    rewrite IH; [|done|]. 
    + cbn [digits_value]. rewrite digit_digit_value by done. f_equal. lia.
    + destruct f; [simpl in *; lia|lia].
Qed.
Lemma decimal_length f z acc n : 0 <= z < 10 ^ Z.of_nat n -> (0 < n)%nat ->
  (String.length (decimal f z acc) <= n + String.length acc)%nat.
Proof.
  revert z acc n. induction f as [|f IH]; intros z acc n Hz Hn; [simpl; lia|]. cbn [decimal].
  destruct n as [|n]; [lia|]. rewrite Nat2Z.inj_succ, Z.pow_succ_r in Hz by lia.
  destruct (Z.eqb_spec (z / 10) 0) as [Hz0|Hz0]; [simpl; lia|].
  assert (0 <= z / 10 < 10 ^ Z.of_nat n) by (split; [apply Z.div_pos; lia|apply Z.div_lt_upper_bound; lia]).
  etrans; [apply (IH _ _ n); [done|]|simpl; lia].
  destruct n; [simpl in *; lia|lia].
Qed.
Lemma decimal_nonempty f z acc : (0 < f)%nat -> decimal f z acc <> ""%string.
Proof.
  assert (forall f z a acc, decimal f z (String a acc) <> ""%string) as Hs.
  { clear. induction f as [|f IH]; intros z a acc; [done|]. cbn [decimal]. destruct (_ =? _); [done|apply IH]. }
  destruct f; [lia|]. intros _. cbn [decimal]. destruct (_ =? _); [done|apply Hs].
Qed.

Lemma zeros_value n s : digits_value (zeros n ++ s) 0 = digits_value s 0.
Proof. induction n as [|n IH]; [done|exact IH]. Qed.
Lemma zeros_digits n s : all_digits (zeros n ++ s) = all_digits s.
Proof. induction n as [|n IH]; [done|exact IH]. Qed.
Lemma zeros_length n : String.length (zeros n) = n.
Proof. induction n as [|n IH]; [done|]. simpl. by rewrite IH. Qed.

Lemma stoll_digits s : all_digits s = true -> s <> ""%string ->
  stoll s = checked_s64 (digits_value s 0).
Proof.
  destruct s as [|a s]; [done|]. cbn [all_digits]. destruct (digit_value a) as [d|] eqn:Hd; [|done]. intros _ _.
  assert (unsigned_ll false (String a s) = checked_s64 (digits_value (String a s) 0)) as <-.
  { unfold unsigned_ll. cbn [starts_with_digit]. by rewrite Hd. }
  unfold stoll. cbn [skip_spaces]. destruct (isspace a) eqn:Hsp.
  { exfalso. unfold isspace, digit_value in *. destruct (Z.leb_spec 48 (Z.of_N (N_of_ascii a))); [|done].
    destruct (Z.eqb_spec (Z.of_N (N_of_ascii a)) 32); [lia|]. simpl in Hsp. apply andb_true_iff in Hsp as [_ Hx%Z.leb_le]. lia. }
  destruct a as [[] [] [] [] [] [] [] []]; done.
Qed.

Lemma split_point_digits s r : all_digits s = true -> split_point (s ++ String "." r) = Some (s, r).
Proof.
  induction s as [|a s IH]; [done|]. cbn [all_digits]. destruct (digit_value a) as [d|] eqn:Hd; [|done].
  intros Hs. specialize (IH Hs). simpl. destruct (Ascii.eqb_spec a "."%char) as [->|]; [by vm_compute in Hd|].
  by rewrite IH.
Qed.

(** The text of a timestamp from 1970 on reads back as the timestamp. *)
Theorem timespec_text_roundtrip ts : ts_ok ts ->
  string_to_timespec (timespec_to_string ts) = Some (true, ts).
Proof.
  intros Hok. destruct Hok as [Hs Hn] eqn:Hx. clear Hx. unfold timespec_to_string, format_ld.
  destruct (Z.ltb_spec (tv_sec ts) 0); [lia|].
  unfold string_to_timespec.
  change ("." ++ format_0ld 9 (tv_nsec ts))%string with (String "."%char (format_0ld 9 (tv_nsec ts))).
  rewrite split_point_digits by by apply all_digits_decimal.
  rewrite stoll_digits; [|by apply all_digits_decimal|apply decimal_nonempty; lia].
  rewrite decimal_value by lia.
  cbn [digits_value]. rewrite checked_s64_in by (unfold in_s; lia).
  unfold format_0ld. destruct (Z.ltb_spec (tv_nsec ts) 0); [lia|]. rewrite Z.abs_eq by lia. cbn [String.append String.length].
  set (d := decimal 19 (tv_nsec ts) ""). assert (String.length d <= 9)%nat as Hl.
  { unfold d. etrans; [by apply (decimal_length _ _ _ 9); [|lia]|simpl; lia]. }
  assert (String.length (zeros (9 - 0 - String.length d) ++ d) = 9%nat) as H9.
  { rewrite string_length_app, zeros_length. lia. }
  change ("" ++ zeros (9 - 0 - String.length d) ++ d)%string with (zeros (9 - 0 - String.length d) ++ d)%string.
  unfold nine_digits. rewrite H9. cbn [Nat.ltb Nat.leb].
  rewrite stoll_digits.
  2: { rewrite zeros_digits. by apply all_digits_decimal. }
  2: { intros He. by rewrite He in H9. }
  rewrite zeros_value. unfold d. rewrite decimal_value by lia. cbn [digits_value].
  rewrite checked_s64_in by (unfold in_s; lia).
  unfold accept, normalize_timespec, carry. cbn [tv_nsec tv_sec].
  rewrite wrapu_small by (unfold in_u; lia). destruct (Z.leb_spec NS_PER_SEC (tv_nsec ts)); [lia|].
  cbn [borrow tv_nsec]. destruct (Z.ltb_spec (tv_nsec ts) 0); [lia|].
  destruct ts as [sec nsec]. cbn [tv_sec tv_nsec] in *. do 2 f_equal.
  apply is_valid_timespec_ok; unfold in_s; simpl; [lia..|done].
Qed.
Lemma timespec_text_roundtrip_witness :
  timespec_to_string {| tv_sec := 1700000000; tv_nsec := 42 |} = "1700000000.000000042"%string /\
  string_to_timespec (timespec_to_string {| tv_sec := 1700000000; tv_nsec := 42 |}) =
    Some (true, {| tv_sec := 1700000000; tv_nsec := 42 |}).
Proof. split; [vm_compute; reflexivity|]. apply timespec_text_roundtrip. split; simpl; lia. Defined.

(** The sign of a value between -1 and 0 is lost: the text of half a second before
    the epoch reads as half a second after it. *)
Example sign_is_lost :
  string_to_timespec "-0.5" = Some (true, {| tv_sec := 0; tv_nsec := 500000000 |}).
Proof. reflexivity. Qed.
