(* ===== verification/Shutdown.v ===== *)
(** * src/shutdown.cc: the shutdown manager

    The states RUNNING, DRAINING, UNMOUNTING and CLOSED, the phases of a graceful
    shutdown, the forced one and the registry of sessions.  The clock, the
    phases' actions and checks, and the callbacks' bodies belong to others: the
    clock is a function of the number of readings, which sleeping advances, an
    action or check a function of the reading it happens at, and a callback is an
    entry of the log. *)
From S2P Require Import Prelude Errno.

Inductive ShutdownState := RUNNING | DRAINING | UNMOUNTING | CLOSED.
#[export] Instance ShutdownState_eq_dec : EqDecision ShutdownState.
Proof. solve_decision. Defined.

(** The actions of [InitializeDefaultPhases], and those a client registers. *)
Inductive cleanup := FlushAllQueues (timeout_ms : Z) | ExitAndShutDown | ClientCleanup (id : nat).
Inductive check := QueuesAreEmpty | SessionsExited | ClientCheck (id : nat).
#[export] Instance check_eq_dec : EqDecision check.
Proof. solve_decision. Defined.

Record ShutdownPhase := {
  ph_state : ShutdownState; description : string; timeout : Z; start_time : Z;
  completion_check : option check; cleanup_action : option cleanup;
}.
Record ShutdownStats := {
  shutdown_start : Z; shutdown_end : Z; final_state : ShutdownState;
  phase_durations : list (ShutdownState * Z); graceful_completion : bool; failure_reason : string;
}.
Definition new_stats : ShutdownStats :=
  {| shutdown_start := 0; shutdown_end := 0; final_state := RUNNING; phase_durations := [];
     graceful_completion := false; failure_reason := "" |}.

(** What the manager does outside itself. *)
Inductive event :=
  | Entered (st : ShutdownState)
  | OnShutdownBegin (cb : nat) (reason : string)
  | OnShutdownPhase (cb : nat) (st : ShutdownState)
  | OnShutdownComplete (cb : nat) (graceful : bool)
  | OnShutdownFailed (cb : nat) (st : ShutdownState) (reason : string)
  | Cleaned (c : cleanup)
  | SessionsSignaled | QueuesCancelled (err : Z) | DispatcherShutDown (timeout_ms : Z).

Record manager := {
  owned : gset string;
  current_state_ : ShutdownState;
  signal_handlers_installed_ : bool;
  shutdown_phases_ : list ShutdownPhase;
  callbacks_ : list (nat * bool);  (* weak pointers: whose, and whether it still exists *)
  stats_ : ShutdownStats;
  shutdown_in_progress_ : bool;
  shutdown_thread_ : option (string * Z);  (* the thread that runs [ExecuteShutdown] *)
  ticks : nat;     (* the readings of the clock so far *)
  slept : Z;       (* how long the threads have slept *)
  log : list event;
}.

Definition set_owned (h : gset string) (m : manager) : manager :=
  {| owned := h; current_state_ := current_state_ m;
     signal_handlers_installed_ := signal_handlers_installed_ m; shutdown_phases_ := shutdown_phases_ m;
     callbacks_ := callbacks_ m; stats_ := stats_ m; shutdown_in_progress_ := shutdown_in_progress_ m;
     shutdown_thread_ := shutdown_thread_ m; ticks := ticks m; slept := slept m; log := log m |}.
Definition set_state (st : ShutdownState) (m : manager) : manager :=
  {| owned := owned m; current_state_ := st;
     signal_handlers_installed_ := signal_handlers_installed_ m; shutdown_phases_ := shutdown_phases_ m;
     callbacks_ := callbacks_ m; stats_ := stats_ m; shutdown_in_progress_ := shutdown_in_progress_ m;
     shutdown_thread_ := shutdown_thread_ m; ticks := ticks m; slept := slept m; log := log m ++ [Entered st] |}.
Definition set_phases (ph : list ShutdownPhase) (m : manager) : manager :=
  {| owned := owned m; current_state_ := current_state_ m;
     signal_handlers_installed_ := signal_handlers_installed_ m; shutdown_phases_ := ph;
     callbacks_ := callbacks_ m; stats_ := stats_ m; shutdown_in_progress_ := shutdown_in_progress_ m;
     shutdown_thread_ := shutdown_thread_ m; ticks := ticks m; slept := slept m; log := log m |}.
Definition set_callbacks (cb : list (nat * bool)) (m : manager) : manager :=
  {| owned := owned m; current_state_ := current_state_ m;
     signal_handlers_installed_ := signal_handlers_installed_ m; shutdown_phases_ := shutdown_phases_ m;
     callbacks_ := cb; stats_ := stats_ m; shutdown_in_progress_ := shutdown_in_progress_ m;
     shutdown_thread_ := shutdown_thread_ m; ticks := ticks m; slept := slept m; log := log m |}.
Definition set_stats (st : ShutdownStats) (m : manager) : manager :=
  {| owned := owned m; current_state_ := current_state_ m;
     signal_handlers_installed_ := signal_handlers_installed_ m; shutdown_phases_ := shutdown_phases_ m;
     callbacks_ := callbacks_ m; stats_ := st; shutdown_in_progress_ := shutdown_in_progress_ m;
     shutdown_thread_ := shutdown_thread_ m; ticks := ticks m; slept := slept m; log := log m |}.
Definition set_flags (signals progress : bool) (th : option (string * Z)) (m : manager) : manager :=
  {| owned := owned m; current_state_ := current_state_ m;
     signal_handlers_installed_ := signals; shutdown_phases_ := shutdown_phases_ m;
     callbacks_ := callbacks_ m; stats_ := stats_ m; shutdown_in_progress_ := progress;
     shutdown_thread_ := th; ticks := ticks m; slept := slept m; log := log m |}.
Definition set_time (n : nat) (ns : Z) (m : manager) : manager :=
  {| owned := owned m; current_state_ := current_state_ m;
     signal_handlers_installed_ := signal_handlers_installed_ m; shutdown_phases_ := shutdown_phases_ m;
     callbacks_ := callbacks_ m; stats_ := stats_ m; shutdown_in_progress_ := shutdown_in_progress_ m;
     shutdown_thread_ := shutdown_thread_ m; ticks := n; slept := ns; log := log m |}.
Definition add_log (l : list event) (m : manager) : manager :=
  {| owned := owned m; current_state_ := current_state_ m;
     signal_handlers_installed_ := signal_handlers_installed_ m; shutdown_phases_ := shutdown_phases_ m;
     callbacks_ := callbacks_ m; stats_ := stats_ m; shutdown_in_progress_ := shutdown_in_progress_ m;
     shutdown_thread_ := shutdown_thread_ m; ticks := ticks m; slept := slept m; log := log m ++ l |}.
Definition set_progress (b : bool) (m : manager) : manager :=
  set_flags (signal_handlers_installed_ m) b (shutdown_thread_ m) m.

#[export] Instance manager_locks : Locks manager.
Proof. refine {| held := owned; set_held := set_owned |}; try done. by intros []. Defined.

(** Milliseconds and the clock's nanoseconds; [duration_cast] truncates. *)
Definition ns_of (ms : Z) : Z := ms * 1000000.
Definition ms_of (ns : Z) : Z := Z.quot ns 1000000.

Abbreviation ECANCELED := 125 (only parsing).

Definition ShutdownManager : manager :=
  {| owned := ∅; current_state_ := RUNNING; signal_handlers_installed_ := false; shutdown_phases_ := [];
     callbacks_ := []; stats_ := new_stats; shutdown_in_progress_ := false; shutdown_thread_ := None;
     ticks := 0; slept := 0; log := [] |}.

Definition phase (st : ShutdownState) (d : string) (ms : Z) (a : cleanup) (c : check) : ShutdownPhase :=
  {| ph_state := st; description := d; timeout := ms; start_time := 0; completion_check := Some c;
     cleanup_action := Some a |}.
Definition default_phases : list ShutdownPhase :=
  [phase DRAINING "Draining pending operations" 5000 (FlushAllQueues 5000) QueuesAreEmpty;
   phase UNMOUNTING "Unmounting FUSE sessions" 8000 ExitAndShutDown SessionsExited].

Section Manager.
(** What each reading of the clock would give, in nanoseconds, had no thread slept;
    whether an action returns and what a check answers at that reading. *)
Context (clock : nat -> Z) (cleanup_returns : cleanup -> nat -> bool) (check_holds : check -> nat -> bool).
Abbreviation mprog := (prog manager).

Definition now : mprog Z := fun m =>
  Done (clock (ticks m) + slept m) (set_time (S (ticks m)) (slept m) m).
Definition sleep_for (ms : Z) : mprog unit := pmodify (fun m => set_time (ticks m) (slept m + ns_of ms) m).

Definition TransitionState (new_state : ShutdownState) : mprog unit :=
  with_lock "state_mutex_" (pmodify (set_state new_state)).

Definition CleanupExpiredCallbacks : mprog unit :=
  pmodify (fun m => set_callbacks (filter (fun cb => Is_true cb.2) (callbacks_ m)) m).
Definition NotifyCallbacks (call : nat -> event) : mprog unit :=
  active ← with_lock "callbacks_mutex_" (_ ← CleanupExpiredCallbacks; m ← pget; mret (map fst (callbacks_ m)));
  pmodify (add_log (map call active)).

Definition RegisterCallback (cb : option nat) : mprog unit :=
  match cb with
  | None => mret tt
  | Some cb => with_lock "callbacks_mutex_" (pmodify (fun m => set_callbacks (callbacks_ m ++ [(cb, true)]) m))
  end.
Definition UnregisterCallback (cb : option nat) : mprog unit :=
  match cb with
  | None => mret tt
  | Some cb =>
      with_lock "callbacks_mutex_"
        (pmodify (fun m => set_callbacks (filter (fun c => Is_true c.2 /\ c.1 <> cb) (callbacks_ m)) m))
  end.

Definition InitializeDefaultPhases : mprog unit := pmodify (set_phases default_phases).
Definition InstallSignalHandlers : mprog unit :=
  m ← pget;
  if signal_handlers_installed_ m then mret tt
  else with_lock "signal_handler_mutex_"
         (pmodify (fun m => set_flags true (shutdown_in_progress_ m) (shutdown_thread_ m) m)).
Definition RemoveSignalHandlers : mprog unit :=
  m ← pget;
  if negb (signal_handlers_installed_ m) then mret tt
  else with_lock "signal_handler_mutex_"
         (pmodify (fun m => set_flags false (shutdown_in_progress_ m) (shutdown_thread_ m) m)).
Definition Initialize : mprog bool :=
  with_lock "state_mutex_"
    (m ← pget;
     if bool_decide (current_state_ m <> RUNNING) then mret false
     else _ ← InitializeDefaultPhases; _ ← InstallSignalHandlers; _ ← pmodify (set_stats new_stats); mret true).

Definition GetState : mprog ShutdownState := m ← pget; mret (current_state_ m).
Definition IsShuttingDown : mprog bool :=
  m ← pget; mret (bool_decide (current_state_ m <> RUNNING /\ current_state_ m <> CLOSED)).
Definition IsShutdownComplete : mprog bool := m ← pget; mret (bool_decide (current_state_ m = CLOSED)).
Definition GetStats : mprog ShutdownStats := with_lock "stats_mutex_" (m ← pget; mret (stats_ m)).

(** The first phase of the state is changed. *)
Fixpoint update_phase (st : ShutdownState) (f : ShutdownPhase -> ShutdownPhase) (l : list ShutdownPhase)
    : list ShutdownPhase :=
  match l with
  | [] => []
  | ph :: l => if decide (ph_state ph = st) then f ph :: l else ph :: update_phase st f l
  end.
Definition with_timing (ms start : Z) (ph : ShutdownPhase) : ShutdownPhase :=
  {| ph_state := ph_state ph; description := description ph; timeout := ms; start_time := start;
     completion_check := completion_check ph; cleanup_action := cleanup_action ph |}.
Definition with_actions (ck : option check) (cl : option cleanup) (ph : ShutdownPhase) : ShutdownPhase :=
  {| ph_state := ph_state ph; description := description ph; timeout := timeout ph;
     start_time := start_time ph; completion_check := ck; cleanup_action := cl |}.
Definition change_phase (st : ShutdownState) (f : ShutdownPhase -> ShutdownPhase) : mprog unit :=
  with_lock "phases_mutex_" (pmodify (fun m => set_phases (update_phase st f (shutdown_phases_ m)) m)).
Definition SetPhaseTimeout (st : ShutdownState) (timeout_ms : Z) : mprog unit :=
  change_phase st (fun ph => with_timing timeout_ms (start_time ph) ph).
Definition RegisterPhaseCleanup (st : ShutdownState) (cleanup_fn : option cleanup) : mprog unit :=
  change_phase st (fun ph => with_actions (completion_check ph) cleanup_fn ph).
Definition RegisterPhaseCompletionCheck (st : ShutdownState) (check_fn : option check) : mprog unit :=
  change_phase st (fun ph => with_actions check_fn (cleanup_action ph) ph).

(** The wait loop, with a round for every 100 ms of the timeout. *)
Fixpoint wait_check (fuel : nat) (c : check) (start ms : Z) : mprog bool :=
  match fuel with
  | O => fun m => Stuck "completion_check" m
  | S fuel =>
      t ← now;
      if t - start <? ns_of ms then
        m ← pget;
        if check_holds c (ticks m) then mret true
        else _ ← sleep_for 100; wait_check fuel c start ms
      else mret false
  end.
Definition run_cleanup (ph : ShutdownPhase) : mprog bool :=
  match cleanup_action ph with
  | Some a => m ← pget; _ ← pmodify (add_log [Cleaned a]); mret (cleanup_returns a (ticks m))
  | None => mret true
  end.
Definition ExecutePhase (ph : ShutdownPhase) : mprog bool :=
  start ← now;
  ok ← run_cleanup ph;
  if negb ok then mret false
  else match completion_check ph with
       | Some c => wait_check (2 + Z.to_nat (timeout ph / 100)) c start (timeout ph)
       | None => mret true
       end.

Definition add_duration (st : ShutdownState) (ms : Z) (x : ShutdownStats) : ShutdownStats :=
  {| shutdown_start := shutdown_start x; shutdown_end := shutdown_end x; final_state := final_state x;
     phase_durations := phase_durations x ++ [(st, ms)]; graceful_completion := graceful_completion x;
     failure_reason := failure_reason x |}.
Definition failed_text (ph : ShutdownPhase) : string :=
  ("Phase " ++ description ph ++ " failed or timed out")%string.

(** The loop over the phases: whether all succeeded, and the phases with the
    timing the run gave them. *)
Fixpoint run_phases (total_start total_timeout : Z) (l : list ShutdownPhase)
    : mprog (bool * list ShutdownPhase) :=
  match l with
  | [] => mret (true, [])
  | ph :: l =>
      t ← now;
      let elapsed := t - total_start in
      if ns_of total_timeout <=? elapsed then mret (false, ph :: l)
      else
        start ← now;
        let ph := with_timing (Z.min (timeout ph) (ms_of (ns_of total_timeout - elapsed))) start ph in
        _ ← TransitionState (ph_state ph);
        _ ← NotifyCallbacks (fun cb => OnShutdownPhase cb (ph_state ph));
        success ← ExecutePhase ph;
        phase_end ← now;
        _ ← with_lock "stats_mutex_"
              (pmodify (fun m => set_stats (add_duration (ph_state ph) (ms_of (phase_end - start)) (stats_ m)) m));
        if negb success then
          _ ← NotifyCallbacks (fun cb => OnShutdownFailed cb (ph_state ph) (failed_text ph));
          mret (false, ph :: l)
        else
          r ← run_phases total_start total_timeout l;
          mret (r.1, ph :: r.2)
  end.

Definition begin_stats (t : Z) (x : ShutdownStats) : ShutdownStats :=
  {| shutdown_start := t; shutdown_end := shutdown_end x; final_state := final_state x;
     phase_durations := phase_durations x; graceful_completion := graceful_completion x;
     failure_reason := failure_reason x |}.
Definition end_stats (t : Z) (graceful : bool) (reason : string) (x : ShutdownStats) : ShutdownStats :=
  {| shutdown_start := shutdown_start x; shutdown_end := t; final_state := CLOSED;
     phase_durations := phase_durations x; graceful_completion := graceful; failure_reason := reason |}.

(** The end of [ExecuteShutdown], after the phases. *)
Definition close_down (succeeded : bool) : mprog unit :=
  _ ← TransitionState CLOSED;
  _ ← with_lock "stats_mutex_"
        (t ← now;
         pmodify (fun m => set_stats
           (end_stats t succeeded (if succeeded then failure_reason (stats_ m)
                                   else "One or more shutdown phases failed") (stats_ m)) m));
  final ← GetStats;
  _ ← NotifyCallbacks (fun cb => OnShutdownComplete cb (graceful_completion final));
  pmodify (set_progress false).
Definition ExecuteShutdown (reason : string) (timeout_ms : Z) : mprog unit :=
  _ ← with_lock "stats_mutex_" (t ← now; pmodify (fun m => set_stats (begin_stats t (stats_ m)) m));
  _ ← NotifyCallbacks (fun cb => OnShutdownBegin cb reason);
  total_start ← now;
  succeeded ← with_lock "phases_mutex_"
    (m ← pget;
     r ← run_phases total_start timeout_ms (shutdown_phases_ m);
     _ ← pmodify (set_phases r.2); mret (r.1 : bool));
  close_down succeeded.

(** The thread that is still joinable is joined first: it has ended, or this
    waits for it. *)
Definition InitiateShutdown (reason : string) (timeout_ms : Z) : mprog bool :=
  m ← pget;
  if shutdown_in_progress_ m then mret false
  else
    _ ← pmodify (set_progress true);
    started ← with_lock "state_mutex_"
      (m ← pget;
       if bool_decide (current_state_ m <> RUNNING) then _ ← pmodify (set_progress false); mret false
       else _ ← TransitionState DRAINING; mret true);
    if (started : bool) then
      _ ← pmodify (fun m => set_flags (signal_handlers_installed_ m) (shutdown_in_progress_ m)
                              (Some (reason, timeout_ms)) m);
      mret true
    else mret false.

Definition SIGINT : Z := 2.
Definition SIGTERM : Z := 15.
Definition SignalHandler (installed : bool) (signal : Z) (number : string) : mprog unit :=
  with_lock "signal_handler_mutex_"
    (if installed then
       let reason := if signal =? SIGINT then "SIGINT (Ctrl+C)" else if signal =? SIGTERM then "SIGTERM"
                     else ("Signal " ++ number)%string in
       _ ← InitiateShutdown reason 15000; mret tt
     else mret tt).

(** [queues] says whether there is a global write-queue manager. *)
Definition ForceShutdown (queues : bool) (reason : string) : mprog unit :=
  _ ← pmodify (set_progress true);
  _ ← pmodify (add_log [SessionsSignaled]);
  _ ← (if queues then pmodify (add_log [QueuesCancelled (- ECANCELED)]) else mret tt);
  _ ← pmodify (add_log [DispatcherShutDown 100]);
  _ ← with_lock "stats_mutex_"
        (t ← now; pmodify (fun m => set_stats (end_stats t false ("Force shutdown: " ++ reason) (stats_ m)) m));
  _ ← TransitionState CLOSED;
  NotifyCallbacks (fun cb => OnShutdownFailed cb CLOSED reason).

(** [wait_for] looks at the state before it waits and when its time is over; the
    state it sees then is [later]. *)
Definition WaitForShutdown (later : ShutdownState) : mprog bool :=
  with_lock "state_mutex_"
    (m ← pget;
     if bool_decide (current_state_ m = CLOSED) then mret true else mret (bool_decide (later = CLOSED))).

(** [ShutdownGlobalShutdownManager] of an existing manager. *)
Definition ShutdownGlobalShutdownManager (later : ShutdownState) (timeout_ms : Z) : mprog bool :=
  st ← GetState;
  if bool_decide (st = RUNNING) then
    success ← InitiateShutdown "Global shutdown" timeout_ms;
    if (success : bool) then WaitForShutdown later else mret false
  else WaitForShutdown later.
End Manager.

(** ** The registry of sessions *)

Definition RegisterFuseSession (session_id : Z) (session_ptr : option nat) (r : gmap Z nat) : bool * gmap Z nat :=
  match session_ptr with Some p => (true, <[session_id := p]> r) | None => (false, r) end.
Definition UnregisterFuseSession (session_id : Z) (r : gmap Z nat) : bool * gmap Z nat :=
  (bool_decide (is_Some (r !! session_id)), delete session_id r).
(** Nothing is done to a session: the call of [fuse_session_exit] is a comment. *)
Definition SignalAllFuseSessions (r : gmap Z nat) : Z := Z.of_nat (size r).
(** The check of each session is a comment too: the first round finds them all
    exited, if there is time for one ([elapsed] in nanoseconds). *)
Definition WaitForAllFuseSessions (elapsed timeout_ms : Z) : bool := elapsed <? ns_of timeout_ms.

(** ** A shutdown that runs ends *)

Definition entered (l : list event) : list ShutdownState :=
  omap (fun e => match e with Entered st => Some st | _ => None end) l.
Lemma entered_app l k : entered (l ++ k) = entered l ++ entered k.
Proof. apply omap_app. Qed.

(** What a run has done so far: the states it entered, the phases it timed. *)
Definition progress (es ds : list ShutdownState) (m : manager) : Prop :=
  entered (log m) = es /\ map fst (phase_durations (stats_ m)) = ds.
Lemma progress_blind es ds : lock_blind (progress es ds).
Proof. by intros h m. Qed.
Lemma progress_log es ds l m : progress es ds m -> entered l = [] -> progress es ds (add_log l m).
Proof.
  intros [He Hd] Hl. split; [|done]. cbn [log add_log]. by rewrite entered_app, Hl, app_nil_r.
Qed.
#[local] Hint Resolve progress_blind : core.
Ltac blind := intros ? ? H; exact H.

Section Runs.
Context (clock : nat -> Z) (cleanup_returns : cleanup -> nat -> bool) (check_holds : check -> nat -> bool).
Hypothesis steady : forall n, clock n <= clock (S n).
Abbreviation at_ h es ds := (fun m : manager => held m = h /\ progress es ds m).
Abbreviation never := (fun _ : manager => False).

Definition time (m : manager) : Z := clock (ticks m) + slept m.

Lemma now_at (P : manager -> Prop) :
  (forall m n ns, P m -> P (set_time n ns m)) -> triple P (now clock) (fun t m => P m /\ t <= time m) never.
Proof. intros HP m Hm. split; [by apply HP|]. unfold time. simpl. specialize (steady (ticks m)). lia. Qed.

Lemma transition_at h es ds st :
  "state_mutex_" ∉ h ->
  triple (at_ h es ds) (TransitionState st)
    (fun _ m => held m = h /\ progress (es ++ [st]) ds m /\ current_state_ m = st) never.
Proof.
  intros Hh. apply triple_lock; [done|auto|by intros ? ? ?|].
  apply triple_modify. intros m (Hm & He & Hd). unfold progress. cbn [log set_state].
  by rewrite entered_app, He.
Qed.

Lemma notify_at h (X : manager -> Prop) call :
  "callbacks_mutex_" ∉ h -> lock_blind X ->
  (forall m cbs, X m -> X (set_callbacks cbs m)) -> (forall m cbs, X m -> X (add_log (map call cbs) m)) ->
  triple (fun m => held m = h /\ X m) (NotifyCallbacks call) (fun _ m => held m = h /\ X m) never.
Proof.
  intros Hh Hb Hc Hl. eapply triple_bind with (M := fun _ m => held m = h /\ X m).
  - apply triple_lock; [done..|]. intros m [Hm Hx]. simpl. auto.
  - intros cbs. apply triple_modify. intros m [Hm Hx]. auto.
Qed.

Definition silent (call : nat -> event) : Prop := forall cb, entered [call cb] = [].
Lemma entered_silent call cbs : silent call -> entered (map call cbs) = [].
Proof.
  intros Hs. induction cbs as [|cb cbs IH]; [done|].
  change (map call (cb :: cbs)) with ([call cb] ++ map call cbs). by rewrite entered_app, Hs, IH.
Qed.
Lemma notify_progress h es ds (X : manager -> Prop) call :
  "callbacks_mutex_" ∉ h -> lock_blind X ->
  (forall m cbs, X m -> X (set_callbacks cbs m)) -> (forall m cbs, X m -> X (add_log (map call cbs) m)) ->
  silent call ->
  triple (fun m => held m = h /\ progress es ds m /\ X m) (NotifyCallbacks call)
    (fun _ m => held m = h /\ progress es ds m /\ X m) never.
Proof.
  intros Hh Hb Hc Hl Hs. apply (notify_at h (fun m => progress es ds m /\ X m)); [done|..].
  - intros h' m [Hp Hx]. auto.
  - intros m cbs [Hp Hx]. auto.
  - intros m cbs [Hp Hx]. split; [|auto]. apply progress_log; [done|by apply entered_silent].
Qed.

(** A wait of [ms] is over once it has slept for it. *)
Lemma wait_at h es ds c start ms fuel k :
  Z.max 0 (ms / 100) + 2 <= Z.of_nat fuel + k ->
  triple (fun m => at_ h es ds m /\ ns_of (100 * k) <= time m - start /\ k <= Z.max 0 (ms / 100) + 1)
    (wait_check clock check_holds fuel c start ms) (fun _ => at_ h es ds) never.
Proof.
  revert k. induction fuel as [|fuel IH]; intros k Hf m (Hm & Hk & Hk'); [lia|].
  cbn [wait_check]. step ltac:(done).
  set (t := clock (ticks m) + slept m) in *.
  destruct (Z.ltb_spec (t - start) (ns_of ms)) as [Ht|]; [|exact Hm].
  step ltac:(done). destruct (check_holds _ _); [exact Hm|].
  step ltac:(done). apply (IH (k + 1)); [lia|].
  specialize (steady (ticks m)). split; [exact Hm|].
  unfold time, ns_of in *. cbn [ticks slept set_time]. subst t.
  pose proof (Z.div_mod ms 100). pose proof (Z.mod_pos_bound ms 100). lia.
Qed.

Lemma cleanup_at h es ds start ph :
  let P m := at_ h es ds m /\ start <= time m in
  triple P (run_cleanup cleanup_returns ph) (fun _ => P) never.
Proof.
  intros P m Hm. unfold run_cleanup. destruct (cleanup_action ph) as [a|]; [|exact Hm].
  destruct Hm as [(Hl & He & Hd) Ht]. split; [split; [done|]|done].
  by apply progress_log.
Qed.

Lemma phase_at h es ds ph :
  triple (at_ h es ds) (ExecutePhase clock cleanup_returns check_holds ph) (fun _ => at_ h es ds) never.
Proof.
  eapply triple_bind; [apply (now_at (at_ h es ds)); done|]. intros start.
  eapply triple_bind with (M := fun _ m => at_ h es ds m /\ start <= time m).
  { apply cleanup_at. }
  intros []; [|by apply triple_ret; intros m []].
  cbn [negb]. destruct (completion_check ph) as [c|]; [|by apply triple_ret; intros m []].
  eapply triple_mono; [apply (wait_at h es ds c start (timeout ph) _ 0)|..]; [| |done..].
  - lia.
  - intros m [Hm Ht]. split; [done|]. unfold ns_of. lia.
Qed.

Lemma duration_at h es ds st ms :
  "stats_mutex_" ∉ h ->
  triple (at_ h es ds) (with_lock "stats_mutex_" (pmodify (fun m => set_stats (add_duration st ms (stats_ m)) m)))
    (fun _ => at_ h es (ds ++ [st])) never.
Proof.
  intros Hh. apply triple_lock; [done|auto..|].
  apply triple_modify. intros m (Hm & He & Hd). split; [done|]. split; [done|].
  simpl. by rewrite map_app, Hd.
Qed.

(** The outcome of the loop: it ran the phases [ran], all of them if it answers
    [true]. *)
Definition ran_phases h es ds (l : list ShutdownPhase) (r : bool * list ShutdownPhase) (m : manager) : Prop :=
  map ph_state r.2 = map ph_state l /\
  exists ran, ran `prefix_of` map ph_state l /\ (r.1 = true -> ran = map ph_state l) /\
    held m = h /\ progress (es ++ ran) (ds ++ ran) m.

Lemma stop_at h es ds ph l :
  triple (at_ h es ds) (mret (false, ph :: l)) (ran_phases h es ds (ph :: l)) never.
Proof.
  apply triple_ret. intros m Hm. split; [done|]. exists []. rewrite !app_nil_r.
  split; [apply prefix_nil|done].
Qed.

Lemma phases_at h total_start total_timeout l es ds :
  "state_mutex_" ∉ h -> "callbacks_mutex_" ∉ h -> "stats_mutex_" ∉ h ->
  triple (at_ h es ds) (run_phases clock cleanup_returns check_holds total_start total_timeout l)
    (ran_phases h es ds l) never.
Proof.
  intros H1 H2 H3. revert es ds. induction l as [|ph l IH]; intros es ds; cbn [run_phases].
  { apply triple_ret. intros m Hm. split; [done|]. exists []. by rewrite !app_nil_r. }
  eapply triple_bind; [apply (now_at (at_ h es ds)); done|]. intros t.
  apply (triple_mono (at_ h es ds) _ _ (ran_phases h es ds (ph :: l)) _ never); [|by intros ? []|done..].
  destruct (_ <=? _).
  { apply stop_at. }
  eapply triple_bind; [apply (now_at (at_ h es ds)); done|]. intros start.
  apply (triple_mono (at_ h es ds) _ _ (ran_phases h es ds (ph :: l)) _ never); [|by intros ? []|done..].
  cbv zeta. set (ph' := with_timing _ _ ph). change (ph_state ph') with (ph_state ph).
  eapply triple_bind; [apply transition_at, H1|]. intros [].
  eapply triple_bind.
  { eapply (notify_progress h _ _ (fun m => current_state_ m = ph_state ph)); [done|by intros ?..|done]. }
  intros [].
  eapply triple_bind.
  { eapply triple_mono; [apply phase_at|by intros m (Hm & Hp & _)|done..]. }
  intros success.
  eapply triple_bind; [apply (now_at (at_ h (es ++ [ph_state ph]) ds)); done|]. intros phase_end.
  eapply triple_bind.
  { eapply triple_mono; [apply duration_at, H3|by intros m []|done..]. }
  intros []. destruct success; cbn [negb].
  - eapply triple_bind; [apply IH|]. intros r. apply triple_ret.
    intros m (Hr & ran & Hp & Hall & Hm & Hpr). split; [by simpl; rewrite Hr|].
    exists (ph_state ph :: ran). simpl. split; [by apply prefix_cons|].
    split; [by intros ?; rewrite Hall|]. split; [done|]. by rewrite <- !app_assoc in Hpr.
  - eapply triple_bind.
    { eapply triple_mono; [apply (notify_progress h (es ++ [ph_state ph]) (ds ++ [ph_state ph]) (fun _ => True))|..]; try done.
      by intros m []. }
    intros []. apply triple_ret. intros m (Hm & Hpr & _). split; [done|].
    exists [ph_state ph]. simpl. split; [apply prefix_cons, prefix_nil|done].
Qed.

(** Every lock of the manager is free. *)
Abbreviation idle := (fun m : manager => held m = ∅).
Abbreviation free es ds X := (fun m : manager => held m = ∅ /\ progress es ds m /\ X m).

Lemma begin_at es ds l :
  triple (free es ds (fun m => shutdown_phases_ m = l))
    (with_lock "stats_mutex_" (t ← now clock; pmodify (fun m => set_stats (begin_stats t (stats_ m)) m)))
    (fun _ => free es ds (fun m => shutdown_phases_ m = l)) never.
Proof. apply triple_lock; [set_solver|blind|intros []; blind|]. intros m Hm. exact Hm. Qed.

Lemma loop_at total_start total_timeout es ds l :
  triple (free es ds (fun m => shutdown_phases_ m = l))
    (with_lock "phases_mutex_"
      (m ← pget;
       r ← run_phases clock cleanup_returns check_holds total_start total_timeout (shutdown_phases_ m);
       _ ← pmodify (set_phases r.2); mret (r.1 : bool)))
    (fun ok m => exists ran, (ran `prefix_of` map ph_state l /\ (ok = true -> ran = map ph_state l)) /\
       held m = ∅ /\ progress (es ++ ran) (ds ++ ran) m) never.
Proof.
  eapply triple_mono.
  - apply (triple_lock "phases_mutex_" ∅ _ (fun m => progress es ds m /\ shutdown_phases_ m = l)
      (fun ok m => exists ran, (ran `prefix_of` map ph_state l /\ (ok = true -> ran = map ph_state l)) /\
         progress (es ++ ran) (ds ++ ran) m) never); [set_solver|blind|intros ?; blind|].
    apply triple_get. intros m0 (Hh & Hp & ->).
    eapply triple_bind.
    { eapply triple_mono; [apply (phases_at ({["phases_mutex_"]} ∪ ∅)); set_solver|by intros ? ->|done..]. }
    intros r m (_ & ran & Hpre & Hall & Hm & Hpr). split; [done|]. by exists ran.
  - done.
  - intros ok m (Hm & ran & Hr & Hp). by exists ran.
  - done.
Qed.

Definition closed ok (m : manager) : Prop :=
  current_state_ m = CLOSED /\ final_state (stats_ m) = CLOSED /\ graceful_completion (stats_ m) = ok /\
  (ok = false -> failure_reason (stats_ m) = "One or more shutdown phases failed").

Lemma close_at es ds ok :
  triple (fun m => held m = ∅ /\ progress es ds m) (close_down clock ok)
    (fun _ => free (es ++ [CLOSED]) ds (fun m => shutdown_in_progress_ m = false /\ closed ok m)) never.
Proof.
  eapply triple_bind; [apply transition_at; set_solver|]. intros [].
  eapply triple_bind with (M := fun _ => free (es ++ [CLOSED]) ds (closed ok)).
  { apply triple_lock; [set_solver|blind|intros ?; blind|]. intros m (Hm & Hp & Hc).
    split; [done|]. split; [exact Hp|]. do 3 (split; [done|]). by intros ->. }
  intros []. eapply triple_bind with (M := fun _ => free (es ++ [CLOSED]) ds (closed ok)).
  { apply triple_lock; [set_solver|blind|intros ?; blind|]. intros m Hm. exact Hm. }
  intros final. eapply triple_bind.
  { apply (notify_progress ∅ (es ++ [CLOSED]) ds (closed ok)); [set_solver|blind|done..]. }
  intros []. apply triple_modify. intros m (Hm & Hp & Hc). split; [done|]. split; [exact Hp|].
  split; [done|exact Hc].
Qed.

(** A shutdown that runs ends, whatever the phases' actions and checks do:
    the manager is CLOSED, not in progress and owns no lock; it has gone through a
    prefix of the phases, in their order and each timed, and then CLOSED; it says
    graceful only when that is all of them, and otherwise why not. *)
Theorem shutdown_always_closes reason timeout_ms m :
  held m = ∅ ->
  exists m' ran,
    ExecuteShutdown clock cleanup_returns check_holds reason timeout_ms m = Done tt m' /\
    held m' = ∅ /\ current_state_ m' = CLOSED /\ shutdown_in_progress_ m' = false /\
    ran `prefix_of` map ph_state (shutdown_phases_ m) /\
    entered (log m') = entered (log m) ++ ran ++ [CLOSED] /\
    map fst (phase_durations (stats_ m')) = map fst (phase_durations (stats_ m)) ++ ran /\
    final_state (stats_ m') = CLOSED /\
    if graceful_completion (stats_ m') then ran = map ph_state (shutdown_phases_ m)
    else failure_reason (stats_ m') = "One or more shutdown phases failed".
Proof.
  intros Hm.
  set (es := entered (log m)). set (ds := map fst (phase_durations (stats_ m))).
  set (l := shutdown_phases_ m).
  cut (triple (free es ds (fun m => shutdown_phases_ m = l))
         (ExecuteShutdown clock cleanup_returns check_holds reason timeout_ms)
         (fun _ m' => exists ran, (ran `prefix_of` map ph_state l) /\
            free (es ++ ran ++ [CLOSED]) (ds ++ ran) (fun m' => current_state_ m' = CLOSED /\
              shutdown_in_progress_ m' = false /\ final_state (stats_ m') = CLOSED /\
              if graceful_completion (stats_ m') then ran = map ph_state l
              else failure_reason (stats_ m') = "One or more shutdown phases failed") m') never).
  { intros Hrun. specialize (Hrun m (conj Hm (conj (conj eq_refl eq_refl) eq_refl))).
    destruct (ExecuteShutdown _ _ _ _ _ m) as [[] m'|m'|mu m']; [|done..].
    destruct Hrun as (ran & Hpre & Hh & [He Hd] & Hc & Hn & Hf & Hg). by exists m', ran. }
  unfold ExecuteShutdown.
  eapply triple_bind; [apply begin_at|]. intros [].
  eapply triple_bind; [by apply (notify_progress ∅ es ds (fun m => shutdown_phases_ m = l)); [set_solver|blind|..]|].
  intros []. eapply triple_bind; [apply (now_at (free es ds (fun m => shutdown_phases_ m = l))); done|].
  intros start. eapply triple_bind.
  { eapply triple_mono; [apply loop_at|by intros ? []|done..]. }
  intros ok. apply triple_exists. intros ran. apply triple_pure. intros [Hpre Hall].
  eapply triple_mono; [apply (close_at (es ++ ran) (ds ++ ran))|done| |done].
  intros [] m' (Hh & Hp & Hn & Hc & Hf & Hg & Hr). exists ran. split; [done|]. split; [done|].
  rewrite app_assoc. split; [done|]. do 3 (split; [done|]). rewrite Hg. destruct ok; auto.
Qed.
End Runs.

(** Two phases, the second of which never completes in its time. *)
Lemma shutdown_always_closes_witness : exists m' ran,
  ExecuteShutdown (fun n => Z.of_nat n * 1000000) (fun _ _ => true) (fun c _ => bool_decide (c = QueuesAreEmpty))
    "bye" 10000 (set_phases default_phases ShutdownManager) = Done tt m' /\
  entered (log m') = ran ++ [CLOSED] /\ ran = [DRAINING; UNMOUNTING] /\ graceful_completion (stats_ m') = false.
Proof.
  destruct (shutdown_always_closes (fun n => Z.of_nat n * 1000000) (fun _ _ => true)
    (fun c _ => bool_decide (c = QueuesAreEmpty)) ltac:(intros n; cbv beta; lia) "bye" 10000
    (set_phases default_phases ShutdownManager) eq_refl) as (m' & ran & Hrun & _ & _ & _ & _ & He & _).
  exists m', ran. split; [exact Hrun|]. split; [exact He|].
  assert (Hl : match ExecuteShutdown (fun n => Z.of_nat n * 1000000) (fun _ _ => true)
      (fun c _ => bool_decide (c = QueuesAreEmpty)) "bye" 10000 (set_phases default_phases ShutdownManager) with
    | Done _ m => bool_decide (entered (log m) = [DRAINING; UNMOUNTING; CLOSED]) && negb (graceful_completion (stats_ m))
    | _ => false end = true) by (vm_compute; reflexivity).
  rewrite Hrun in Hl. apply andb_true_iff in Hl as [Hl Hg]. apply bool_decide_eq_true in Hl.
  split; [|by destruct (graceful_completion _)]. rewrite He in Hl. cbn in Hl.
  by apply (app_inj_tail ran [DRAINING; UNMOUNTING]) in Hl as [-> _].
Defined.

(** ** The requests to shut down *)

(** InitiateShutdown holds the mutex that TransitionState locks, so it does not
    return; [shutdown_in_progress_] has become true and the state is still RUNNING. *)
Lemma initiate_stuck reason ms m :
  shutdown_in_progress_ m = false -> current_state_ m = RUNNING -> "state_mutex_" ∉ held m ->
  InitiateShutdown reason ms m =
    Stuck "state_mutex_" (set_held ({["state_mutex_"]} ∪ held m) (set_progress true m)).
Proof.
  intros Hp Hs Hh. unfold InitiateShutdown. step ltac:(done). rewrite Hp.
  step ltac:(done). unfold mbind at 1, prog_bind at 1. rewrite with_lock_free by done.
  step ltac:(done). rewrite bool_decide_eq_false_2 by (intros H; by apply H).
  unfold mbind at 1, prog_bind at 1. unfold TransitionState. rewrite with_lock_owned; [done|].
  rewrite held_set_held. set_solver.
Qed.

(** What the exported functions and a signal do to the manager. *)
Inductive manager_call :=
  | InitializeCall
  | InitiateCall (reason : string) (timeout_ms : Z)
  | SignalCall (signal : Z) (number : string)
  | ForceCall (queues : bool) (reason : string)
  | WaitCall (later : ShutdownState)
  | RegisterCall (cb : option nat) | UnregisterCall (cb : option nat)
  | TimeoutCall (st : ShutdownState) (timeout_ms : Z)
  | CleanupCall (st : ShutdownState) (f : option cleanup)
  | CheckCall (st : ShutdownState) (f : option check)
  | StatsCall | RemoveSignalsCall.
Definition run_call (clock : nat -> Z) (c : manager_call) : prog manager unit :=
  match c with
  | InitializeCall => _ ← Initialize; mret tt
  | InitiateCall r ms => _ ← InitiateShutdown r ms; mret tt
  | SignalCall n text => m ← pget; SignalHandler (signal_handlers_installed_ m) n text
  | ForceCall q r => ForceShutdown clock q r
  | WaitCall later => _ ← WaitForShutdown later; mret tt
  | RegisterCall cb => RegisterCallback cb
  | UnregisterCall cb => UnregisterCallback cb
  | TimeoutCall st ms => SetPhaseTimeout st ms
  | CleanupCall st f => RegisterPhaseCleanup st f
  | CheckCall st f => RegisterPhaseCompletionCheck st f
  | StatsCall => _ ← GetStats; mret tt
  | RemoveSignalsCall => RemoveSignalHandlers
  end.
Fixpoint run_calls (clock : nat -> Z) (cs : list manager_call) : prog manager unit :=
  match cs with
  | [] => mret tt
  | c :: cs => _ ← run_call clock c; run_calls clock cs
  end.

(** No thread has been started and only CLOSED has been entered. *)
Definition never_begun (m : manager) : Prop :=
  shutdown_thread_ m = None /\ Forall (eq CLOSED) (entered (log m)) /\
  (current_state_ m = RUNNING \/ current_state_ m = CLOSED).
Definition can_begin (m : manager) : bool :=
  negb (shutdown_in_progress_ m) && bool_decide (current_state_ m = RUNNING).

Abbreviation quiet := (fun m : manager => held m = ∅ /\ never_begun m).
Abbreviation never := (fun _ : manager => False).

Lemma never_begun_log l m : never_begun m -> entered l = [] -> never_begun (add_log l m).
Proof.
  intros (Ht & Hf & Hc) Hl. split; [done|]. split; [|done].
  cbn [log add_log]. by rewrite entered_app, Hl, app_nil_r.
Qed.

(** A call that locks one mutex and changes neither the thread nor the state. *)
Lemma quiet_lock {A} mu (body : prog manager A) :
  triple (fun m => held m = {[mu]} ∪ ∅ /\ never_begun m) body (fun _ m => held m = {[mu]} ∪ ∅ /\ never_begun m) never ->
  triple quiet (with_lock mu body) (fun _ => quiet) never.
Proof. intros Hb. apply triple_lock; [set_solver|blind|intros ?; blind|exact Hb]. Qed.
Lemma quiet_then {A} (m : prog manager A) :
  triple quiet m (fun _ => quiet) never -> triple quiet (_ ← m; mret tt) (fun _ => quiet) never.
Proof. intros Hm. eapply triple_bind; [exact Hm|]. intros a. by apply triple_ret. Qed.

Lemma initiate_outcome reason ms m :
  "state_mutex_" ∉ held m ->
  if can_begin m then exists m', InitiateShutdown reason ms m = Stuck "state_mutex_" m'
  else InitiateShutdown reason ms m = Done false m.
Proof.
  intros Hm. unfold can_begin.
  destruct (shutdown_in_progress_ m) eqn:Hp; cbn [negb andb].
  { unfold InitiateShutdown. step ltac:(done). by rewrite Hp. }
  destruct (bool_decide_reflect (current_state_ m = RUNNING)) as [Hr|Hr].
  { eexists. by apply initiate_stuck. }
  unfold InitiateShutdown. step ltac:(done). rewrite Hp. step ltac:(done).
  erewrite bind_done with (a := false); [reflexivity|].
  rewrite with_lock_free by done.
  step ltac:(done). rewrite bool_decide_eq_true_2 by done. cbn. f_equal.
  destruct m as [hm ? ? ? ? ? ? ? ? ? ?]; cbn in Hm, Hp; subst. unfold set_owned, set_flags; cbn.
  by f_equal; set_solver.
Qed.

Lemma change_quiet st f : triple quiet (change_phase st f) (fun _ => quiet) never.
Proof. apply quiet_lock, triple_modify. intros m Hm. exact Hm. Qed.
Lemma notify_quiet call : silent call -> triple quiet (NotifyCallbacks call) (fun _ => quiet) never.
Proof.
  intros Hs. apply (notify_at ∅ never_begun); [set_solver|blind|by intros m cbs Hm|].
  intros m cbs Hm. by apply never_begun_log, entered_silent.
Qed.
Lemma log_quiet l : entered l = [] -> triple quiet (pmodify (add_log l)) (fun _ => quiet) never.
Proof. intros Hl. apply triple_modify. intros m [Hm Hq]. split; [done|by apply never_begun_log]. Qed.
Lemma force_quiet clock queues reason : triple quiet (ForceShutdown clock queues reason) (fun _ => quiet) never.
Proof.
  unfold ForceShutdown.
  eapply triple_bind; [by apply (triple_modify _ _ (fun _ => quiet))|]. intros [].
  eapply triple_bind; [by apply log_quiet|]. intros [].
  eapply triple_bind with (M := fun _ => quiet).
  { destruct queues; [by apply log_quiet|by apply triple_ret]. }
  intros []. eapply triple_bind; [by apply log_quiet|]. intros [].
  eapply triple_bind; [apply quiet_lock; intros m Hm; exact Hm|]. intros [].
  eapply triple_bind with (M := fun _ => quiet); [|intros []; by apply notify_quiet].
  apply quiet_lock, triple_modify. intros m (Hm & Ht & Hf & Hc). split; [done|]. split; [done|].
  split; [|by right]. cbn [log set_state]. rewrite entered_app. apply Forall_app. split; [done|by constructor].
Qed.
Lemma initialize_quiet : triple quiet Initialize (fun _ => quiet) never.
Proof.
  apply quiet_lock. apply triple_get. intros m0 Hm0.
  destruct (bool_decide _); [by apply triple_ret; intros ? ->|].
  intros m ->. destruct Hm0 as [Hm Hq]. unfold InstallSignalHandlers.
  step ltac:(done). unfold mbind at 1, prog_bind at 1. step ltac:(done). cbn [signal_handlers_installed_ set_phases].
  destruct (signal_handlers_installed_ m0); [by split|].
  rewrite with_lock_free by (cbn; cbn in Hm; rewrite Hm; set_solver). cbn. split; [|exact Hq].
  cbn in Hm. rewrite Hm. set_solver.
Qed.
Lemma flags_quiet b :
  triple quiet (with_lock "signal_handler_mutex_"
      (pmodify (fun m => set_flags b (shutdown_in_progress_ m) (shutdown_thread_ m) m))) (fun _ => quiet) never.
Proof. apply quiet_lock, triple_modify. intros m Hm. exact Hm. Qed.

Lemma signal_quiet n text m :
  quiet m ->
  if signal_handlers_installed_ m && can_begin m
  then exists m', SignalHandler (signal_handlers_installed_ m) n text m = Stuck "state_mutex_" m'
  else exists m', SignalHandler (signal_handlers_installed_ m) n text m = Done tt m' /\ quiet m'.
Proof.
  intros [Hm Hq]. unfold SignalHandler. rewrite with_lock_free by (rewrite Hm; set_solver).
  rewrite Hm. set (m1 := set_held _ m).
  destruct (signal_handlers_installed_ m); cbn [andb].
  - set (reason := if n =? SIGINT then _ else _).
    pose proof (initiate_outcome reason 15000 m1) as Hi.
    specialize (Hi ltac:(subst m1; rewrite held_set_held; set_solver)).
    change (can_begin m1) with (can_begin m) in Hi. unfold mbind, prog_bind. destruct (can_begin m).
    + destruct Hi as [m' ->]. by exists m'.
    + rewrite Hi. eexists. split; [reflexivity|]. split; [|exact Hq].
      rewrite held_set_held. set_solver.
  - eexists. split; [reflexivity|]. split; [|exact Hq]. rewrite held_set_held. set_solver.
Qed.

Definition asks_for_shutdown (c : manager_call) (m : manager) : bool :=
  match c with
  | InitiateCall _ _ => can_begin m
  | SignalCall _ _ => signal_handlers_installed_ m && can_begin m
  | _ => false
  end.

(** A call from such a state ends in one, unless it begins a shutdown. *)
Lemma call_quiet clock c m :
  quiet m ->
  if asks_for_shutdown c m then exists m', run_call clock c m = Stuck "state_mutex_" m'
  else exists m', run_call clock c m = Done tt m' /\ quiet m'.
Proof.
  intros Hm.
  assert (forall p : prog manager unit, triple quiet p (fun _ => quiet) never ->
            exists m', p m = Done tt m' /\ quiet m') as Hrun.
  { intros p Hp. specialize (Hp m Hm). destruct (p m) as [[] m'|m'|mu m']; [by exists m'|done..]. }
  destruct c as [|reason ms|n text|q r|later|cb|cb|st ms|st f|st f| |]; cbn [asks_for_shutdown run_call].
  - by apply Hrun, quiet_then, initialize_quiet.
  - pose proof (initiate_outcome reason ms m) as Hi. rewrite (proj1 Hm) in Hi.
    specialize (Hi ltac:(set_solver)). destruct (can_begin m).
    + destruct Hi as [m' Hi]. exists m'. unfold mbind, prog_bind. by rewrite Hi.
    + exists m. by step ltac:(exact Hi).
  - step ltac:(done). by apply signal_quiet.
  - by apply Hrun, force_quiet.
  - apply Hrun, quiet_then, quiet_lock, triple_get. intros m0 Hm0.
    by destruct (bool_decide _); apply triple_ret; intros ? ->.
  - apply Hrun. destruct cb as [cb|]; [|by apply triple_ret]. apply quiet_lock, triple_modify. intros ? H. exact H.
  - apply Hrun. destruct cb as [cb|]; [|by apply triple_ret]. apply quiet_lock, triple_modify. intros ? H. exact H.
  - by apply Hrun, change_quiet.
  - by apply Hrun, change_quiet.
  - by apply Hrun, change_quiet.
  - apply Hrun, quiet_then, quiet_lock, triple_get. intros m0 Hm0. by apply triple_ret; intros ? ->.
  - apply Hrun, triple_get. intros m0 Hm0. destruct (negb _); [by apply triple_ret; intros ? ->|].
    eapply triple_mono; [apply flags_quiet|by intros ? ->|done..].
Qed.

(** C33: a shutdown never begins.  In every state that returning calls reach,
    no shutdown thread has been started, no state but CLOSED has been entered, and a
    further call or signal either returns to such a state or, when it would begin a
    shutdown, hangs on [state_mutex_], which the same thread owns. *)
Theorem graceful_shutdown_never_begins clock cs m c :
  run_calls clock cs ShutdownManager = Done tt m ->
  (held m = ∅ /\ never_begun m) /\
  if asks_for_shutdown c m then exists m', run_call clock c m = Stuck "state_mutex_" m'
  else exists m', run_call clock c m = Done tt m' /\ held m' = ∅ /\ never_begun m'.
Proof.
  intros Hcs.
  cut (quiet m); [intros Hm; split; [exact Hm|by apply call_quiet]|].
  assert (quiet ShutdownManager) as Hnew.
  { split; [done|]. split; [done|]. split; [by constructor|by left]. }
  generalize dependent ShutdownManager. induction cs as [|c' cs IH]; intros m0 Hrun Hm0; [by injection Hrun as <-|].
  cbn [run_calls] in Hrun. pose proof (call_quiet clock c' m0 Hm0) as Hc.
  destruct (asks_for_shutdown c' m0); [destruct Hc as [m' Hc]|destruct Hc as (m' & Hc & Hm')];
    unfold mbind, prog_bind in Hrun; rewrite Hc in Hrun; [done|]. by apply (IH m').
Qed.
Definition example_calls : list manager_call := [InitializeCall; RegisterCall (Some 1%nat)].
Definition example_manager : manager :=
  match run_calls (fun n => Z.of_nat n) example_calls ShutdownManager with Done _ m => m | _ => ShutdownManager end.
Lemma graceful_shutdown_never_begins_witness :
  asks_for_shutdown (SignalCall SIGTERM "15") example_manager = true /\
  exists m', run_call (fun n => Z.of_nat n) (SignalCall SIGTERM "15") example_manager = Stuck "state_mutex_" m'.
Proof.
  assert (asks_for_shutdown (SignalCall SIGTERM "15") example_manager = true) as Ha by (vm_compute; reflexivity).
  split; [exact Ha|].
  pose proof (graceful_shutdown_never_begins (fun n => Z.of_nat n) example_calls example_manager
    (SignalCall SIGTERM "15") ltac:(vm_compute; reflexivity)) as [_ Hc].
  rewrite Ha in Hc. exact Hc.
Defined.
