(* ===== verification/LlMount.v ===== *)
(** * lib/fuse_lowlevel.c and lib/fuse_signals.c: mounting, reading, signals

    The part of a libfuse session that its owner uses: creation and destruction,
    mounting and unmounting, the exit flag, reading a request from the device
    (without splice, into a buffer of the caller), and the signal handlers.
    Sessions are objects of a heap; what the library asks of the system is a
    trace, and the system's answers are functions of the trace so far. *)
From Stdlib Require Import Ascii.
From S2P Require Import Prelude Errno.

Record fuse_session := {
  se_fd : Z; se_mountpoint : option string; se_mt_exited : bool; se_error : Z; se_bufsize : Z;
  se_got_init : bool; se_got_destroy : bool; se_mt_finish : nat; se_mo : list string;
}.

Inductive handler := SIG_DFL | exit_handler | do_nothing | exit_backtrace | OtherHandler (n : nat).
#[export] Instance handler_eq_dec : EqDecision handler.
Proof. solve_decision. Defined.

Inductive sys_call :=
  | SessionNew (args : list string) | Closed (fd : Z) | OpDestroy
  | KernMount (mountpoint : string) | KernUnmount (mountpoint : string) (fd : Z)
  | Polled | Malloc (size : Z) | ReadDevice (fd size : Z) | Processed (data : list Z) | FreeBuf
  | NewBridge | BridgeShutdown | ThreadStarted | ThreadJoined | Called (failed : option string).

Record lib := {
  heap : gmap nat fuse_session; next_ptr : nat;
  fuse_instance : option nat; actions : gmap Z handler;
  trace : list sys_call;
}.
Definition set_heap (h : gmap nat fuse_session) (n : nat) (l : lib) : lib :=
  {| heap := h; next_ptr := n; fuse_instance := fuse_instance l; actions := actions l; trace := trace l |}.
Definition set_signals (i : option nat) (a : gmap Z handler) (l : lib) : lib :=
  {| heap := heap l; next_ptr := next_ptr l; fuse_instance := i; actions := a; trace := trace l |}.
Definition add_trace (c : sys_call) (l : lib) : lib :=
  {| heap := heap l; next_ptr := next_ptr l; fuse_instance := fuse_instance l; actions := actions l;
     trace := trace l ++ [c] |}.

Definition set_mount (fd : Z) (mp : option string) (se : fuse_session) : fuse_session :=
  {| se_fd := fd; se_mountpoint := mp; se_mt_exited := se_mt_exited se; se_error := se_error se;
     se_bufsize := se_bufsize se; se_got_init := se_got_init se; se_got_destroy := se_got_destroy se;
     se_mt_finish := se_mt_finish se; se_mo := se_mo se |}.
Definition set_exit (ex : bool) (err : Z) (posts : nat) (se : fuse_session) : fuse_session :=
  {| se_fd := se_fd se; se_mountpoint := se_mountpoint se; se_mt_exited := ex; se_error := err;
     se_bufsize := se_bufsize se; se_got_init := se_got_init se; se_got_destroy := se_got_destroy se;
     se_mt_finish := posts; se_mo := se_mo se |}.

(** What the system answers to a process that has made the calls of the trace. *)
Record system := {
  strdup_ok : list sys_call -> bool;
  malloc_ok : list sys_call -> bool;
  kern_mount : list sys_call -> string -> option Z;   (* [fuse_kern_mount]: the descriptor *)
  fd_is_open : list sys_call -> Z -> bool;            (* [fcntl(fd, F_GETFD) <> -1] *)
  (* [read]: an error or the bytes, and whether some thread has ended the
     session meanwhile *)
  read_device : list sys_call -> Z -> (Z + list Z) * bool;
}.

Abbreviation SIGHUP := 1 (only parsing).
Abbreviation SIGINT := 2 (only parsing).
Abbreviation SIGILL := 4 (only parsing).
Abbreviation SIGTRAP := 5 (only parsing).
Abbreviation SIGABRT := 6 (only parsing).
Abbreviation SIGBUS := 7 (only parsing).
Abbreviation SIGFPE := 8 (only parsing).
Abbreviation SIGSEGV := 11 (only parsing).
Abbreviation SIGPIPE := 13 (only parsing).
Abbreviation SIGTERM := 15 (only parsing).
Abbreviation EINTR := 4 (only parsing).
Abbreviation ENODEV := 19 (only parsing).
Definition freed_session : string := "use of a freed session".

Section Session.
Context (sys : system).
Abbreviation libp := (prog lib).

Definition get_se (p : nat) : libp fuse_session := fun l =>
  match heap l !! p with Some se => Done se l | None => Stuck freed_session l end.
Definition put_se (p : nat) (f : fuse_session -> fuse_session) : libp unit := fun l =>
  match heap l !! p with
  | Some se => Done tt (set_heap (<[p := f se]> (heap l)) (next_ptr l) l)
  | None => Stuck freed_session l
  end.
Definition stop {A} (what : string) : libp A := fun l => Stuck what l.
Definition emit (c : sys_call) : libp unit := pmodify (add_trace c).

(** ** The exit flag *)

Definition fuse_session_exit (p : nat) : libp unit :=
  put_se p (fun se => set_exit true (se_error se) (S (se_mt_finish se)) se).
Definition fuse_session_reset (p : nat) : libp unit :=
  put_se p (fun se => set_exit false 0 (se_mt_finish se) se).
Definition fuse_session_exited (p : nat) : libp bool := se ← get_se p; mret (se_mt_exited se).
Definition fuse_session_fd (p : nat) : libp Z := se ← get_se p; mret (se_fd se).

(** ** Mounting *)

Definition digit (c : ascii) : option Z :=
  let n := Z.of_nat (nat_of_ascii c) in if (48 <=? n) && (n <=? 57) then Some (n - 48) else None.
Definition is_space (c : ascii) : bool :=
  let n := Z.of_nat (nat_of_ascii c) in (n =? 32) || ((9 <=? n) && (n <=? 13)).
Fixpoint scan_digits (acc : Z) (s : string) : Z * string :=
  match s with
  | String c s' => match digit c with Some d => scan_digits (10 * acc + d) s' | None => (acc, s) end
  | EmptyString => (acc, s)
  end.
Fixpoint skip_spaces (s : string) : string :=
  match s with String c s' => if is_space c then skip_spaces s' else s | EmptyString => s end.
Definition scan_sign (s : string) : bool * string :=
  match s with
  | String "-"%char s' => (true, s')
  | String "+"%char s' => (false, s')
  | _ => (false, s)
  end.
(** [sscanf]'s ["%u"]: [strtoul] and a conversion to [unsigned int], then to [int]. *)
Definition scan_u (s : string) : option (Z * string) :=
  let '(neg, s) := scan_sign (skip_spaces s) in
  match s with
  | String c _ =>
      match digit c with
      | Some _ => let '(v, rest) := scan_digits 0 s in
                  Some (s32 (if UINT64_MAX <? v then UINT64_MAX else if neg then u64 (- v) else v), rest)
      | None => None
      end
  | EmptyString => None
  end.
Fixpoint strip_prefix (pre s : string) : option string :=
  match pre, s with
  | EmptyString, _ => Some s
  | String a pre, String b s => if Ascii.eqb a b then strip_prefix pre s else None
  | _, EmptyString => None
  end.
Definition fuse_mnt_parse_fuse_fd (mountpoint : string) : Z :=
  match strip_prefix "/dev/fd/" mountpoint with
  | Some s => match scan_u s with Some (fd, EmptyString) => fd | _ => -1 end
  | None => -1
  end.

(** The loop that keeps the descriptors 0 to 2 open has no effect here.  A failed
    [fuse_kern_mount] answers -1. *)
Definition fuse_session_mount (p : nat) (mountpoint : string) : libp Z :=
  l ← pget;
  if negb (strdup_ok sys (trace l)) then mret (-1)
  else
    let fd := fuse_mnt_parse_fuse_fd mountpoint in
    if negb (fd =? -1) then
      if negb (fd_is_open sys (trace l) fd) then mret (-1)
      else _ ← put_se p (fun se => set_mount fd (se_mountpoint se) se); mret 0
    else
      _ ← emit (KernMount mountpoint);
      match kern_mount sys (trace l) mountpoint with
      | None => mret (-1)
      | Some fd => _ ← put_se p (set_mount fd (Some mountpoint)); mret 0
      end.
Definition fuse_session_unmount (p : nat) : libp unit :=
  se ← get_se p;
  match se_mountpoint se with
  | Some mountpoint => _ ← emit (KernUnmount mountpoint (se_fd se)); put_se p (set_mount (-1) None)
  | None => mret tt
  end.

(** ** Creation and destruction *)

Definition fresh_session (bufsize : Z) (args : list string) : fuse_session :=
  {| se_fd := -1; se_mountpoint := None; se_mt_exited := false; se_error := 0; se_bufsize := bufsize;
     se_got_init := false; se_got_destroy := false; se_mt_finish := 0; se_mo := args |}.
(** [ok] is the outcome of parsing the arguments and of the allocations. *)
Definition fuse_session_new (ok : bool) (bufsize : Z) (args : list string) : libp (option nat) :=
  _ ← emit (SessionNew args);
  l ← pget;
  if ok then
    _ ← pmodify (set_heap (<[next_ptr l := fresh_session bufsize args]> (heap l)) (S (next_ptr l)));
    mret (Some (next_ptr l))
  else mret None.
Definition fuse_session_destroy (p : nat) : libp unit :=
  se ← get_se p;
  _ ← (if se_got_init se && negb (se_got_destroy se) then emit OpDestroy else mret tt);
  _ ← (if negb (se_fd se =? -1) then emit (Closed (se_fd se)) else mret tt);
  pmodify (fun l => set_heap (delete p (heap l)) (next_ptr l) l).

(** ** Reading a request, for a caller outside the library

    The buffer is allocated when there is none; an answer is the result, whether
    there is a buffer now, and its bytes. *)
Definition in_header_size : Z := 40.
Fixpoint receive_again (fuel : nat) (p : nat) (bufsize : Z) : libp (Z * list Z) :=
  match fuel with
  | O => stop "read"
  | S fuel =>
      fd ← fuse_session_fd p;
      l ← pget;
      let '(r, ended) := read_device sys (trace l) bufsize in
      _ ← emit (ReadDevice fd bufsize);
      _ ← (if ended : bool then fuse_session_exit p else mret tt);
      exited ← fuse_session_exited p;
      if exited : bool then mret (0, [])
      else
        match r : Z + list Z with
        | inl err =>
            if err =? ENOENT then receive_again fuel p bufsize
            else if err =? ENODEV then _ ← fuse_session_exit p; mret (0, [])
            else mret (- err, [])
        | inr data => if lenZ data <? in_header_size then mret (- EIO, []) else mret (lenZ data, data)
        end
  end.
Definition fuse_session_receive_buf (fuel : nat) (p : nat) (mem : bool) : libp (Z * bool * list Z) :=
  se ← get_se p;
  l ← pget;
  if negb mem && negb (malloc_ok sys (trace l)) then mret (- ENOMEM, false, [])
  else
    _ ← (if mem then mret tt else emit (Malloc (se_bufsize se)));
    r ← receive_again fuel p (se_bufsize se);
    mret (r.1, true, r.2).

(** ** Signal handlers *)

Definition teardown_sigs : list Z := [SIGHUP; SIGINT; SIGTERM].
Definition ignore_sigs : list Z := [SIGPIPE].
Definition fail_sigs : list Z := [SIGILL; SIGTRAP; SIGABRT; SIGBUS; SIGFPE; SIGSEGV].

Definition action (a : gmap Z handler) (sig : Z) : handler := default SIG_DFL (a !! sig).
(** [sigaction] does not fail on these signals. *)
Definition set_one_signal_handler (h : handler) (remove : bool) (sig : Z) (a : gmap Z handler) : gmap Z handler :=
  if decide (action a sig = if remove then h else SIG_DFL)
  then <[sig := if remove then SIG_DFL else h]> a else a.
Definition each_signal (h : handler) (remove : bool) (sigs : list Z) (a : gmap Z handler) : gmap Z handler :=
  foldl (fun a sig => set_one_signal_handler h remove sig a) a sigs.

Definition installed (p : nat) (l : lib) : lib := set_signals (Some p)
  (each_signal do_nothing false ignore_sigs (each_signal exit_handler false teardown_sigs (actions l))) l.
Definition fuse_set_signal_handlers (p : nat) : libp Z := _ ← pmodify (installed p); mret 0.
Definition fuse_set_fail_signal_handlers (p : nat) : libp Z :=
  _ ← pmodify (fun l => set_signals (Some p) (each_signal exit_backtrace false fail_sigs (actions l)) l);
  mret 0.
(** [None] is the null pointer. *)
Definition removed (p : option nat) (l : lib) : lib :=
  set_signals (if decide (fuse_instance l = p) then None else fuse_instance l)
    (each_signal exit_backtrace true fail_sigs
      (each_signal do_nothing true ignore_sigs (each_signal exit_handler true teardown_sigs (actions l)))) l.
Definition fuse_remove_signal_handlers (p : option nat) : libp unit := pmodify (removed p).

(** What a signal does; [false] is the death of the process.  The handlers of
    others do nothing to the library. *)
Definition run_exit_handler (sig : Z) : libp unit :=
  l ← pget;
  match fuse_instance l with
  | None => mret tt
  | Some p =>
      _ ← fuse_session_exit p;
      if sig <? 0 then stop "abort"
      else put_se p (fun se => set_exit (se_mt_exited se) sig (se_mt_finish se) se)
  end.
Definition deliver (sig : Z) : libp bool :=
  l ← pget;
  match action (actions l) sig with
  | SIG_DFL => mret false
  | exit_handler => _ ← run_exit_handler sig; mret true
  | exit_backtrace =>
      match fuse_instance l with
      | None => mret true
      | Some p => _ ← fuse_session_exit p; _ ← fuse_remove_signal_handlers (Some p); mret false
      end
  | do_nothing | OtherHandler _ => mret true
  end.
End Session.

Lemma get_se_done p l se : heap l !! p = Some se -> get_se p l = Done se l.
Proof. intros Hp. unfold get_se. by rewrite Hp. Qed.
Lemma put_se_done p f l se : heap l !! p = Some se ->
  put_se p f l = Done tt (set_heap (<[p := f se]> (heap l)) (next_ptr l) l).
Proof. intros Hp. unfold put_se. by rewrite Hp. Qed.

(** ** Signal handlers *)

Lemma action_insert a sig h sig' :
  action (<[sig := h]> a) sig' = if decide (sig = sig') then h else action a sig'.
Proof.
  unfold action. destruct (decide (sig = sig')) as [->|]; [by rewrite lookup_insert_eq|by rewrite lookup_insert_ne].
Qed.
(** Each signal of the list is changed when it has the replaced handler. *)
Lemma each_signal_action h remove sigs sig : h <> SIG_DFL -> forall a,
  action (each_signal h remove sigs a) sig =
    if decide (sig ∈ sigs /\ action a sig = if remove then h else SIG_DFL)
    then if remove then SIG_DFL else h else action a sig.
Proof.
  intros Hh. unfold each_signal. induction sigs as [|s sigs IH]; intros a; cbn [foldl].
  { rewrite decide_False; [done|]. intros [Hs _]. by apply not_elem_of_nil in Hs. }
  rewrite IH. unfold set_one_signal_handler.
  destruct (decide (action a s = _)) as [Ha|Ha]; [rewrite !action_insert|];
    repeat case_decide; subst; destruct remove; set_solver.
Qed.

Definition fuse_handler (h : handler) : bool :=
  match h with exit_handler | do_nothing | exit_backtrace => true | _ => false end.

(** The handlers after an installation, and after the installation's removal. *)
Lemma installed_action p l sig :
  action (actions (installed p l)) sig =
    match action (actions l) sig with
    | SIG_DFL => if bool_decide (sig ∈ teardown_sigs) then exit_handler
                 else if bool_decide (sig ∈ ignore_sigs) then do_nothing else SIG_DFL
    | h => h
    end.
Proof.
  unfold installed. cbn [actions set_signals]. rewrite !each_signal_action by done.
  destruct (decide (sig ∈ teardown_sigs)) as [Ht|Ht]; destruct (decide (sig ∈ ignore_sigs)) as [Hi|Hi];
    rewrite ?(bool_decide_true _ Ht), ?(bool_decide_false _ Ht), ?(bool_decide_true _ Hi), ?(bool_decide_false _ Hi);
    destruct (action (actions l) sig); repeat case_decide; naive_solver.
Qed.

Lemma removed_action p l sig :
  (fuse_handler (action (actions l) sig) = false -> action (actions (removed p l)) sig = action (actions l) sig) /\
  (sig ∈ teardown_sigs -> action (actions l) sig = exit_handler -> action (actions (removed p l)) sig = SIG_DFL) /\
  (sig ∈ ignore_sigs -> action (actions l) sig = do_nothing -> action (actions (removed p l)) sig = SIG_DFL).
Proof.
  unfold removed. cbn [actions set_signals]. rewrite !each_signal_action by done.
  split; [|split].
  - intros Hf. destruct (action (actions l) sig); try done; repeat case_decide; naive_solver.
  - intros Hs Ha. rewrite Ha. repeat case_decide; naive_solver.
  - intros Hs Ha. rewrite Ha. repeat case_decide; naive_solver.
Qed.

(** Installing libfuse's signal handlers for a session and removing them
    gives every signal the action it had; while they are installed, a signal to
    terminate whose action was the default ends the session and keeps the process
    alive, a broken pipe does nothing, and the handlers of others stay. *)
Theorem signal_handlers_roundtrip p l se :
  heap l !! p = Some se ->
  (forall sig, fuse_handler (action (actions l) sig) = false) ->
  exists l1 l2,
    fuse_set_signal_handlers p l = Done 0 l1 /\ fuse_remove_signal_handlers (Some p) l1 = Done tt l2 /\
    fuse_instance l2 = None /\ (forall sig, action (actions l2) sig = action (actions l) sig) /\
    (forall sig, sig ∈ teardown_sigs -> action (actions l) sig = SIG_DFL ->
       exists l', deliver sig l1 = Done true l' /\
         exists se', heap l' !! p = Some se' /\ se_mt_exited se' = true /\ se_error se' = sig) /\
    (action (actions l) SIGPIPE = SIG_DFL -> deliver SIGPIPE l1 = Done true l1) /\
    (forall sig, action (actions l) sig <> SIG_DFL -> action (actions l1) sig = action (actions l) sig).
Proof.
  intros Hse Hfree. set (l1 := installed p l). exists l1, (removed (Some p) l1).
  split; [done|]. split; [done|].
  pose proof (installed_action p l) as Hl1. fold l1 in Hl1.
  split; [unfold removed; cbn; by rewrite decide_True|]. split; [|split; [|split]].
  - intros sig. destruct (removed_action (Some p) l1 sig) as (Hk & He & Hd).
    rewrite (Hl1 sig) in Hk, He, Hd. specialize (Hfree sig).
    destruct (action (actions l) sig) eqn:Ha; try done; [|by apply Hk].
    destruct (bool_decide_reflect (sig ∈ teardown_sigs)); [by apply He|].
    destruct (bool_decide_reflect (sig ∈ ignore_sigs)); [by apply Hd|by apply Hk].
  - intros sig Ht Hd. unfold deliver. step ltac:(done). rewrite Hl1, Hd, bool_decide_true by done.
    eexists. split.
    + erewrite bind_done; [reflexivity|]. unfold run_exit_handler. step ltac:(done).
      change (fuse_instance l1) with (Some p). cbv iota.
      step ltac:(by apply put_se_done). assert (0 < sig).
      { unfold teardown_sigs in Ht. set_unfold in Ht. lia. }
      destruct (Z.ltb_spec sig 0); [lia|]. apply put_se_done. cbn. by rewrite lookup_insert_eq.
    + eexists. split; [cbn; by rewrite lookup_insert_eq|]. done.
  - intros Hd. unfold deliver. step ltac:(done).
    by rewrite Hl1, Hd, bool_decide_false, bool_decide_true by (unfold teardown_sigs, ignore_sigs; set_solver).
  - intros sig Ha. rewrite Hl1. by destruct (action (actions l) sig).
Qed.
Definition example_session : fuse_session :=
  {| se_fd := -1; se_mountpoint := None; se_mt_exited := false; se_error := 0; se_bufsize := 4096;
     se_got_init := false; se_got_destroy := false; se_mt_finish := 0; se_mo := [] |}.
Definition example_lib : lib :=
  {| heap := {[0%nat := example_session]}; next_ptr := 1; fuse_instance := None;
     actions := {[SIGHUP := OtherHandler 7]}; trace := [] |}.
Lemma signal_handlers_roundtrip_witness :
  exists l1 l2, fuse_set_signal_handlers 0 example_lib = Done 0 l1 /\
    fuse_remove_signal_handlers (Some 0%nat) l1 = Done tt l2 /\
    action (actions l2) SIGHUP = OtherHandler 7 /\ exists l', deliver SIGINT l1 = Done true l'.
Proof.
  destruct (signal_handlers_roundtrip 0 example_lib example_session eq_refl) as
    (l1 & l2 & Hset & Hrm & _ & Hr & Hd & _).
  - intros sig. unfold action, example_lib. cbn [actions]. destruct (decide (sig = SIGHUP)) as [->|Hn].
    + by rewrite lookup_singleton_eq.
    + by rewrite lookup_singleton_ne by congruence.
  - exists l1, l2. split; [exact Hset|]. split; [exact Hrm|]. split; [by rewrite Hr|].
    destruct (Hd SIGINT) as (l' & Hl' & _); [by vm_compute; set_solver|done|by exists l'].
Defined.
