(* ===== verification/FuseOpt.v ===== *)
(** * lib/fuse_opt.c: parsing of options

    [struct fuse_args] is the list of its arguments; the variables a table of
    options writes to are named instead of placed at offsets.  A result of -1 is
    [Throws].  Which allocations succeed and what [sscanf] reads in one conversion
    are parameters. *)
From Stdlib Require Import Ascii.
From S2P Require Import Prelude LlMount.

Abbreviation FUSE_OPT_KEY_OPT := (-1) (only parsing).
Abbreviation FUSE_OPT_KEY_NONOPT := (-2) (only parsing).
Abbreviation FUSE_OPT_KEY_KEEP := (-3) (only parsing).
Abbreviation FUSE_OPT_KEY_DISCARD := (-4) (only parsing).

(** [offset] is [None] for the offset -1. *)
Record fuse_opt := { templ : string; offset : option string; value : Z }.
Definition FUSE_OPT_KEY (templ : string) (key : Z) : fuse_opt := {| templ := templ; offset := None; value := key |}.

Inductive val := VInt (z : Z) | VStr (s : string).
#[export] Instance val_eq_dec : EqDecision val.
Proof. solve_decision. Defined.
Abbreviation data := (gmap string val).
Definition int_of (d : data) (name : string) : Z :=
  match d !! name with Some (VInt z) => z | _ => 0 end.
Definition str_of (d : data) (name : string) : option string :=
  match d !! name with Some (VStr s) => Some s | _ => None end.

Record fuse_opt_context := {
  oc_data : data; argctr : nat; outargs : list string; oc_opts : option string; nonopt : nat;
  oc_allocs : nat;
}.
Definition set_data (d : data) (c : fuse_opt_context) : fuse_opt_context :=
  {| oc_data := d; argctr := argctr c; outargs := outargs c; oc_opts := oc_opts c; nonopt := nonopt c;
     oc_allocs := oc_allocs c |}.
Definition set_argctr (n : nat) (c : fuse_opt_context) : fuse_opt_context :=
  {| oc_data := oc_data c; argctr := n; outargs := outargs c; oc_opts := oc_opts c; nonopt := nonopt c;
     oc_allocs := oc_allocs c |}.
Definition set_outargs (l : list string) (c : fuse_opt_context) : fuse_opt_context :=
  {| oc_data := oc_data c; argctr := argctr c; outargs := l; oc_opts := oc_opts c; nonopt := nonopt c;
     oc_allocs := oc_allocs c |}.
Definition set_opts (o : option string) (c : fuse_opt_context) : fuse_opt_context :=
  {| oc_data := oc_data c; argctr := argctr c; outargs := outargs c; oc_opts := o; nonopt := nonopt c;
     oc_allocs := oc_allocs c |}.
Definition set_nonopt (n : nat) (c : fuse_opt_context) : fuse_opt_context :=
  {| oc_data := oc_data c; argctr := argctr c; outargs := outargs c; oc_opts := oc_opts c; nonopt := n;
     oc_allocs := oc_allocs c |}.
Definition set_allocs (n : nat) (c : fuse_opt_context) : fuse_opt_context :=
  {| oc_data := oc_data c; argctr := argctr c; outargs := outargs c; oc_opts := oc_opts c; nonopt := nonopt c;
     oc_allocs := n |}.

(** ** Strings *)

Fixpoint escape (s : string) : string :=
  match s with
  | EmptyString => EmptyString
  | String c s => if Ascii.eqb c ","%char || Ascii.eqb c "\"%char then String "\" (String c (escape s))
                  else String c (escape s)
  end.
(** The string [add_opt_common] leaves. *)
Definition appended (opts : option string) (opt : string) (esc : bool) : string :=
  let text := if esc then escape opt else opt in
  match opts with
  | Some (String c o) => (String c o ++ "," ++ text)%string
  | _ => text
  end.

Definition digit_in (hi : Z) (c : ascii) : option Z :=
  let n := Z.of_nat (nat_of_ascii c) - 48 in if (0 <=? n) && (n <=? hi) then Some n else None.
Definition octal (a b c : ascii) : option ascii :=
  match digit_in 3 a, digit_in 7 b, digit_in 7 c with
  | Some x, Some y, Some z => Some (ascii_of_N (Z.to_N (x * 64 + y * 8 + z)))
  | _, _, _ => None
  end.
(** A group cut at its commas, the escapes undone: the first option, the others. *)
Definition put (c : ascii) (r : string * list string) : string * list string := (String c r.1, r.2).
Fixpoint split_group (s : string) : string * list string :=
  match s with
  | EmptyString => (EmptyString, [])
  | String c s1 =>
      if Ascii.eqb c ","%char then let '(t, l) := split_group s1 in (EmptyString, t :: l)
      else if Ascii.eqb c "\"%char then
        match s1 with
        | EmptyString => (String c EmptyString, [])
        | String a s2 =>
            match s2 with
            | String b (String d s4) =>
                match octal a b d with
                | Some o => put o (split_group s4)
                | None => put a (split_group s2)
                end
            | _ => put a (split_group s2)
            end
        end
      else put c (split_group s1)
  end.
Definition group_options (s : string) : list string := let '(t, l) := split_group s in t :: l.
(** What a function reads of a buffer: up to the first NUL. *)
Fixpoint c_str (s : string) : string :=
  match s with
  | EmptyString => EmptyString
  | String c s => if Ascii.eqb c "000"%char then EmptyString else String c (c_str s)
  end.

Fixpoint strchr (c : ascii) (s : string) : option nat :=
  match s with
  | EmptyString => None
  | String a s => if Ascii.eqb a c then Some 0%nat else S <$> strchr c s
  end.
Fixpoint str_drop (n : nat) (s : string) : string :=
  match n, s with S n, String _ s => str_drop n s | _, _ => s end.
Fixpoint str_take (n : nat) (s : string) : string :=
  match n, s with S n, String c s => String c (str_take n s) | _, _ => EmptyString end.
Definition char_at (n : nat) (s : string) : option ascii := String.get n s.
Definition char_is (c : ascii) (o : option ascii) : bool :=
  match o with Some a => Ascii.eqb a c | None => false end.

(** ** Templates *)

Definition match_template (t arg : string) : option nat :=
  let exact := if String.eqb t arg then Some 0%nat else None in
  match (match strchr "="%char t with Some i => Some i | None => strchr " "%char t end) with
  | Some sep =>
      let next := char_at (S sep) t in
      if (match next with None => true | Some _ => char_is "%"%char next end) then
        let tlen := if char_is "="%char (char_at sep t) then S sep else sep in
        if (tlen <=? String.length arg)%nat && String.eqb (str_take tlen arg) (str_take tlen t) then Some sep
        else exact
      else exact
  | None => exact
  end.
Fixpoint find_opt (l : list fuse_opt) (arg : string) : option (fuse_opt * nat * list fuse_opt) :=
  match l with
  | [] => None
  | o :: l => match match_template (templ o) arg with Some sep => Some (o, sep, l) | None => find_opt l arg end
  end.
Definition fuse_opt_match (l : list fuse_opt) (arg : string) : bool :=
  match find_opt l arg with Some _ => true | None => false end.
(** The templates [process_gopt] goes through. *)
Definition matching (l : list fuse_opt) (arg : string) : list (fuse_opt * nat) :=
  omap (fun o => sep ← match_template (templ o) arg; Some (o, sep)) l.

Section Parse.
Context (malloc_ok : nat -> bool) (sscanf : string -> string -> option Z).
Abbreviation oprog := (prog fuse_opt_context).

(** ** Building arguments *)

Definition allocate : oprog unit :=
  c ← pget; if malloc_ok (oc_allocs c) then pmodify (set_allocs (S (oc_allocs c))) else pthrow.
Definition fuse_opt_add_arg (arg : string) : oprog unit :=
  _ ← allocate; _ ← allocate; pmodify (fun c => set_outargs (outargs c ++ [arg]) c).
(** An assertion that fails stops the process. *)
Definition fuse_opt_insert_arg (pos : nat) (arg : string) : oprog unit :=
  c ← pget;
  if (pos <=? length (outargs c))%nat then
    _ ← fuse_opt_add_arg arg;
    pmodify (fun c' => set_outargs (take pos (outargs c) ++ [arg] ++ drop pos (outargs c)) c')
  else pstuck "assert".
Definition add_opt_common (opts : option string) (opt : string) (esc : bool) : oprog string :=
  _ ← allocate; mret (appended opts opt esc).
Definition add_opt (arg : string) : oprog unit :=
  c ← pget; o ← add_opt_common (oc_opts c) arg true; pmodify (set_opts (Some o)).

(** [fuse_opt_add_opt] and [fuse_opt_add_opt_escaped] on a variable of the data, with
    their result. *)
Definition add_to_variable (name opt : string) (esc : bool) : oprog Z :=
  c ← pget;
  pcatch (o ← add_opt_common (str_of (oc_data c) name) opt esc;
          _ ← pmodify (fun c => set_data (<[name := VStr o]> (oc_data c)) c); mret 0)
         (mret (-1)).

(** ** Processing *)

(** A processing function is given the argument and the key; it may use the data and
    the arguments of the context. *)
Context (table : list fuse_opt) (proc : option (string -> Z -> oprog Z)) (argv : list string).

Definition keep (arg : string) (iso : bool) : oprog unit := if iso then add_opt arg else fuse_opt_add_arg arg.
Definition call_proc (arg : string) (key : Z) (iso : bool) : oprog unit :=
  if key =? FUSE_OPT_KEY_DISCARD then mret tt
  else
    match proc with
    | Some f =>
        if key =? FUSE_OPT_KEY_KEEP then keep arg iso
        else
          res ← f arg key;
          if res =? -1 then pthrow else if res =? 0 then mret tt else keep arg iso
    | None => keep arg iso
    end.

Definition next_arg : oprog unit :=
  c ← pget;
  if (length argv <=? argctr c + 1)%nat then pthrow else pmodify (set_argctr (S (argctr c))).
Definition set_var (name : string) (v : val) : oprog unit :=
  pmodify (fun c => set_data (<[name := v]> (oc_data c)) c).
Definition process_opt_param (name format param : string) : oprog unit :=
  if negb (char_is "%"%char (char_at 0 format)) then pstuck "assert"
  else if char_is "s"%char (char_at 1 format) then _ ← allocate; set_var name (VStr param)
  else match sscanf format param with
       | Some z => set_var name (VInt z)
       | None => pthrow
       end.
Definition process_opt (o : fuse_opt) (sep : nat) (arg : string) (iso : bool) : oprog unit :=
  match offset o with
  | None => call_proc arg (value o) iso
  | Some name =>
      let format := str_drop (S sep) (templ o) in
      if (0 <? sep)%nat && negb (String.eqb format "") then
        process_opt_param name format
          (str_drop (if char_is "="%char (char_at sep (templ o)) then S sep else sep) arg)
      else set_var name (VInt (value o))
  end.
Definition process_opt_sep_arg (o : fuse_opt) (sep : nat) (arg : string) (iso : bool) : oprog unit :=
  _ ← next_arg;
  c ← pget;
  _ ← allocate;
  process_opt o sep (str_take sep arg ++ default EmptyString (argv !! argctr c))%string iso.
Fixpoint each {A} (f : A -> oprog unit) (l : list A) : oprog unit :=
  match l with [] => mret tt | x :: l => _ ← f x; each f l end.
Definition process_gopt (arg : string) (iso : bool) : oprog unit :=
  match matching table arg with
  | [] => call_proc arg FUSE_OPT_KEY_OPT iso
  | l => each (fun '(o, sep) =>
           if (0 <? sep)%nat && char_is " "%char (char_at sep (templ o)) &&
              (match char_at sep arg with None => true | Some _ => false end)
           then process_opt_sep_arg o sep arg iso else process_opt o sep arg iso) l
  end.
(** The group is rewritten in its copy, each option where the first began. *)
Definition process_option_group (opts : string) : oprog unit :=
  _ ← allocate; each (fun o => process_gopt (c_str o) true) (group_options opts).

Definition process_one (arg : string) : oprog unit :=
  c ← pget;
  if negb (nonopt c =? 0)%nat || negb (char_is "-"%char (char_at 0 arg)) then
    call_proc arg FUSE_OPT_KEY_NONOPT false
  else if char_is "o"%char (char_at 1 arg) then
    match char_at 2 arg with
    | Some _ => process_option_group (str_drop 2 arg)
    | None => _ ← next_arg; c ← pget; process_option_group (default EmptyString (argv !! argctr c))
    end
  else if String.eqb arg "--" then
    _ ← fuse_opt_add_arg arg; pmodify (fun c => set_nonopt (length (outargs c)) c)
  else process_gopt arg false.

(** Each round moves on in [argv], so its length bounds the rounds. *)
Fixpoint parse_args (fuel : nat) : oprog unit :=
  c ← pget;
  if (argctr c <? length argv)%nat then
    match fuel with
    | O => pstuck "arguments"
    | S fuel =>
        _ ← process_one (default EmptyString (argv !! argctr c));
        _ ← pmodify (fun c => set_argctr (S (argctr c)) c);
        parse_args fuel
    end
  else mret tt.
Definition drop_separator (c : fuse_opt_context) : fuse_opt_context :=
  if negb (nonopt c =? 0)%nat && (nonopt c =? length (outargs c))%nat &&
     match last (outargs c) with Some a => String.eqb a "--" | None => false end
  then set_outargs (take (length (outargs c) - 1) (outargs c)) c else c.
Definition opt_parse : oprog unit :=
  _ ← match argv with a :: _ => fuse_opt_add_arg a | [] => mret tt end;
  _ ← pmodify (set_argctr 1);
  _ ← parse_args (length argv);
  c ← pget;
  _ ← match oc_opts c with
      | Some o => _ ← fuse_opt_insert_arg 1 "-o"; fuse_opt_insert_arg 2 o
      | None => mret tt
      end;
  pmodify drop_separator.

Definition opt_start (d : data) (allocs : nat) : fuse_opt_context :=
  {| oc_data := d; argctr := 0; outargs := []; oc_opts := None; nonopt := 0; oc_allocs := allocs |}.
(** The result, the arguments and the data afterwards. *)
Definition fuse_opt_parse (d : data) (allocs : nat) : outcome fuse_opt_context (bool * list string) :=
  match argv with
  | [] => Done (true, []) (opt_start d allocs)
  | _ =>
      match opt_parse (opt_start d allocs) with
      | Done _ c => Done (true, outargs c) c
      | Throws c => Done (false, argv) c
      | Stuck w c => Stuck w c
      end
  end.
End Parse.

(** ** Options in a string *)

Definition safe_char (c : ascii) : bool := negb (Ascii.eqb c ","%char || Ascii.eqb c "\"%char).

Lemma split_escaped a s : digit_in 3 a = None -> split_group (String "\" (String a s)) = put a (split_group s).
Proof.
  intros Ha. cbn [split_group]. change (Ascii.eqb "\" ",") with false. change (Ascii.eqb "\" "\") with true. cbv iota.
  destruct s as [|b [|d s]]; try done. unfold octal. by rewrite Ha.
Qed.
Lemma split_plain c s : safe_char c = true -> split_group (String c s) = put c (split_group s).
Proof.
  unfold safe_char. rewrite negb_true_iff, orb_false_iff. intros [H1 H2]. cbn [split_group]. by rewrite H1, H2.
Qed.

(** An escaped option is read back as it was, and so are the options after it. *)
Lemma string_app_cons c a b : (String c a ++ b)%string = String c (a ++ b)%string.
Proof. reflexivity. Qed.
Lemma string_nil_app b : (EmptyString ++ b)%string = b.
Proof. reflexivity. Qed.
Create Rewrite HintDb text.
#[export] Hint Rewrite string_app_cons string_nil_app : text.

Lemma split_escape_app s : forall rest r, split_group rest = r ->
  split_group (escape s ++ rest)%string = ((s ++ r.1)%string, r.2).
Proof.
  induction s as [|c s IH]; intros rest r Hr; cbn [escape].
  { autorewrite with text. rewrite Hr. by destruct r. }
  destruct (Ascii.eqb c "," || Ascii.eqb c "\") eqn:Hc; autorewrite with text.
  - rewrite split_escaped; [by rewrite (IH rest r Hr)|].
    apply orb_true_iff in Hc as [Hc|Hc]; apply Ascii.eqb_eq in Hc as ->; done.
  - rewrite split_plain by (unfold safe_char; by rewrite Hc). by rewrite (IH rest r Hr).
Qed.

(** The string that [fuse_opt_add_opt_escaped] builds from a list of options. *)
Definition joined (l : list string) : option string := foldl (fun acc o => Some (appended acc o true)) None l.

Lemma string_app_nil s : (s ++ "")%string = s.
Proof. induction s as [|c s IH]; [done|]. autorewrite with text. by rewrite IH. Qed.
Lemma string_app_assoc a b c : ((a ++ b) ++ c)%string = (a ++ (b ++ c))%string.
Proof. induction a as [|x a IH]; [done|]. autorewrite with text. by rewrite IH. Qed.
Lemma escape_nonempty s : s <> EmptyString -> escape s <> EmptyString.
Proof. destruct s as [|c s]; [done|]. intros _. cbn. by destruct (_ || _). Qed.

Lemma joined_concat l acc : acc <> EmptyString ->
  foldl (fun acc o => Some (appended acc o true)) (Some acc) l =
    Some (foldl (fun acc o => acc ++ "," ++ escape o) acc l)%string.
Proof.
  revert acc. induction l as [|o l IH]; intros acc Ha; [done|]. cbn [foldl].
  destruct acc as [|c acc]; [done|]. cbn [appended]. by rewrite IH.
Qed.
Lemma foldl_suffix l : forall a,
  foldl (fun acc o => acc ++ "," ++ escape o)%string a l =
    (a ++ foldr (fun o s => "," ++ escape o ++ s)%string EmptyString l)%string.
Proof.
  induction l as [|o l IH]; intros a; cbn [foldl foldr]; [by rewrite string_app_nil|].
  rewrite IH, !string_app_assoc. done.
Qed.
Lemma split_joined l : forall o,
  split_group (escape o ++ foldr (fun o s => "," ++ escape o ++ s)%string EmptyString l)%string = (o, l).
Proof.
  induction l as [|o' l IH]; intros o; cbn [foldr].
  - rewrite (split_escape_app o EmptyString (EmptyString, [])) by done. cbn [fst snd]. by rewrite string_app_nil.
  - rewrite (split_escape_app o _ (EmptyString, o' :: l)).
    + cbn [fst snd]. by rewrite string_app_nil.
    + autorewrite with text. cbn [split_group]. change (Ascii.eqb "," ",") with true. cbv iota. by rewrite IH.
Qed.

(** C36: options collected in one string with their commas and backslashes
    escaped, as the parser collects those it keeps, come apart into the same options
    when the string is parsed again, and the buffer each addition allocates holds its
    result with the final NUL. *)
Theorem escaped_options_roundtrip o l :
  o <> EmptyString ->
  (exists s, joined (o :: l) = Some s /\ group_options s = o :: l) /\
  forall opts opt esc,
    (String.length (appended opts opt esc) + 1 <=
       String.length (default EmptyString opts) + 1 + String.length opt * 2 + 1)%nat.
Proof.
  intros Ho. split.
  - unfold joined. cbn [foldl]. change (appended None o true) with (escape o).
    rewrite joined_concat by (by apply escape_nonempty).
    eexists. split; [done|]. rewrite foldl_suffix. unfold group_options. by rewrite split_joined.
  - intros opts opt esc.
    assert (forall a b, String.length (a ++ b)%string = (String.length a + String.length b)%nat) as Happ.
    { induction a as [|c a IH]; intros b; [done|]. autorewrite with text. cbn. by rewrite IH. }
    assert (String.length (escape opt) <= String.length opt * 2)%nat as Hesc.
    { induction opt as [|c s IH]; [done|]. cbn. destruct (_ || _); cbn; lia. }
    assert (String.length (if esc then escape opt else opt) <= String.length opt * 2)%nat by (destruct esc; lia).
    unfold appended. destruct opts as [[|c s]|]; cbn [default]; cbn [String.length]; rewrite ?Happ; cbn; lia.
Qed.
Lemma escaped_options_roundtrip_witness :
  exists s, joined ["fsname=a,b\012"; "x-y"] = Some s /\ group_options s = ["fsname=a,b\012"; "x-y"].
Proof.
  apply (escaped_options_roundtrip "fsname=a,b\012" ["x-y"%string]). discriminate.
Defined.
