(* ===== verification/SessionManager.v ===== *)
(** * src/session_manager.cc: the life of a FUSE session

    The SessionManager objects, the registry of sessions, the loop that reads and
    processes requests, and the functions exported to JavaScript.  The bridge's
    initialisation and the parsing of the command line are answers of the
    environment; libfuse's part is LlMount.v. *)
From S2P Require Import Prelude Errno Sys Napi LlMount.

Inductive SessionState := CREATED | INITIALIZED | MOUNTED | UNMOUNTING | UNMOUNTED | DESTROYED.
#[export] Instance SessionState_eq_dec : EqDecision SessionState.
Proof. solve_decision. Defined.

Record SessionOptions := {
  debug : bool; foreground : bool; single_threaded : bool; allow_other : bool; allow_root : bool;
  auto_unmount : bool; max_read : Z; max_write : Z; install_signal_handlers : bool;
}.

Record SessionManager := {
  mountpoint_ : string; options_ : SessionOptions; session_id_ : Z; state_ : SessionState;
  fuse_session_ : option nat; bridge_ : bool;
  mount_thread_ : bool;           (* joinable: it runs [RunFuseLoop], or has ended *)
  mount_thread_running_ : bool;
}.

(** A process: the mutexes its JavaScript thread owns, libfuse, the live managers by
    identifier, the identifiers in [active_sessions] and the next one. *)
Record process := {
  owned : gset string; fuse : lib; managers : gmap Z SessionManager;
  active_sessions : gset Z; next_session_id : Z;
}.
Definition set_owned (h : gset string) (p : process) : process :=
  {| owned := h; fuse := fuse p; managers := managers p; active_sessions := active_sessions p;
     next_session_id := next_session_id p |}.
Definition set_fuse (l : lib) (p : process) : process :=
  {| owned := owned p; fuse := l; managers := managers p; active_sessions := active_sessions p;
     next_session_id := next_session_id p |}.
Definition set_managers (m : gmap Z SessionManager) (a : gset Z) (n : Z) (p : process) : process :=
  {| owned := owned p; fuse := fuse p; managers := m; active_sessions := a; next_session_id := n |}.
#[export] Instance process_locks : Locks process.
Proof. refine {| held := owned; set_held := set_owned |}; try done. by intros []. Defined.

Definition set_state (st : SessionState) (m : SessionManager) : SessionManager :=
  {| mountpoint_ := mountpoint_ m; options_ := options_ m; session_id_ := session_id_ m; state_ := st;
     fuse_session_ := fuse_session_ m; bridge_ := bridge_ m; mount_thread_ := mount_thread_ m;
     mount_thread_running_ := mount_thread_running_ m |}.
Definition set_parts (se : option nat) (bridge : bool) (m : SessionManager) : SessionManager :=
  {| mountpoint_ := mountpoint_ m; options_ := options_ m; session_id_ := session_id_ m; state_ := state_ m;
     fuse_session_ := se; bridge_ := bridge; mount_thread_ := mount_thread_ m;
     mount_thread_running_ := mount_thread_running_ m |}.
Definition set_thread (joinable running : bool) (m : SessionManager) : SessionManager :=
  {| mountpoint_ := mountpoint_ m; options_ := options_ m; session_id_ := session_id_ m; state_ := state_ m;
     fuse_session_ := fuse_session_ m; bridge_ := bridge_ m; mount_thread_ := joinable;
     mount_thread_running_ := running |}.

(** The arguments [Initialize] builds for libfuse. *)
Definition option_args (b : bool) (args : list string) : list string := if b then args else [].
Definition fuse_args (o : SessionOptions) : list string :=
  ["fuse-native"%string] ++ option_args (debug o) ["-d"%string] ++ option_args (foreground o) ["-f"%string] ++
  option_args (single_threaded o) ["-s"%string] ++
  option_args (allow_other o) ["-o"; "allow_other"]%string ++
  option_args (allow_root o) ["-o"; "allow_root"]%string ++
  option_args (auto_unmount o) ["-o"; "auto_unmount"]%string.

(** What the rest of the process answers; [parse_cmdline] is what
    [fuse_parse_cmdline] leaves of the arguments. *)
Record environment := {
  bridge_initializes : list sys_call -> bool;
  parse_cmdline : list string -> option (list string);
  session_new_ok : list sys_call -> bool;
  default_bufsize : Z;
}.

Section Manager.
Context (sys : system) (E : environment).
Abbreviation mprog := (prog process).

Definition on_fuse {A} (m : prog lib A) : mprog A := fun p =>
  match m (fuse p) with
  | Done a l => Done a (set_fuse l p)
  | Throws l => Throws (set_fuse l p)
  | Stuck what l => Stuck what (set_fuse l p)
  end.
Definition stop {A} (what : string) : mprog A := fun p => Stuck what p.
Definition manager (id : Z) : mprog SessionManager := fun p =>
  match managers p !! id with Some m => Done m p | None => Stuck "use of a freed manager" p end.
Definition update (id : Z) (f : SessionManager -> SessionManager) : mprog unit := fun p =>
  match managers p !! id with
  | Some m => Done tt (set_managers (<[id := f m]> (managers p)) (active_sessions p) (next_session_id p) p)
  | None => Stuck "use of a freed manager" p
  end.
Definition log_call (c : sys_call) : mprog unit := on_fuse (emit c).
(** [fuse_session_] as an argument of libfuse: null is not a session. *)
Definition session_of (m : SessionManager) : mprog nat :=
  match fuse_session_ m with Some p => mret p | None => stop "null session" end.

Definition new_SessionManager (mountpoint : string) (options : SessionOptions) : mprog Z :=
  p ← pget;
  let id := next_session_id p in
  _ ← pmodify (set_managers (<[id := {| mountpoint_ := mountpoint; options_ := options; session_id_ := id;
        state_ := CREATED; fuse_session_ := None; bridge_ := false; mount_thread_ := false;
        mount_thread_running_ := false |}]> (managers p)) (active_sessions p) (u64 (id + 1)));
  mret id.

Definition GetState (id : Z) : mprog SessionState :=
  with_lock "state_mutex_" (m ← manager id; mret (state_ m)).
Definition is_ready (id : Z) : mprog bool :=
  with_lock "state_mutex_"
    (m ← manager id; mret (bool_decide (state_ m = MOUNTED) && bool_decide (is_Some (fuse_session_ m)))).

Definition Initialize (id : Z) : mprog bool :=
  with_lock "state_mutex_"
    (m ← manager id;
     if bool_decide (state_ m <> CREATED) then mret false
     else
       _ ← log_call NewBridge;
       _ ← update id (fun m => set_parts (fuse_session_ m) true m);
       p ← pget;
       if negb (bridge_initializes E (trace (fuse p))) then mret false
       else
         match parse_cmdline E (fuse_args (options_ m)) with
         | None => mret false
         | Some args =>
             if negb (strdup_ok sys (trace (fuse p))) then mret false
             else
               se ← on_fuse (fuse_session_new (session_new_ok E (trace (fuse p))) (default_bufsize E) args);
               _ ← update id (fun m => set_parts se (bridge_ m) m);
               match se with
               | None => mret false
               | Some _ => _ ← update id (set_state INITIALIZED); mret true
               end
         end).

(** A joinable [std::thread] must not be assigned to. *)
Definition start_thread (id : Z) : mprog unit :=
  m ← manager id;
  if mount_thread_ m then stop "std::terminate"
  else _ ← log_call ThreadStarted; update id (set_thread true true).
Definition mount_initialized (id : Z) (m : SessionManager) : mprog bool :=
  se ← session_of m;
  r ← on_fuse (fuse_session_mount sys se (mountpoint_ m));
  if negb (r =? 0) then mret false
  else
    _ ← (if install_signal_handlers (options_ m) then _ ← on_fuse (fuse_set_signal_handlers se); mret tt
         else mret tt);
    _ ← update id (set_state MOUNTED);
    _ ← start_thread id;
    mret true.
Definition Mount (id : Z) : mprog bool :=
  with_lock "state_mutex_"
    (m ← manager id;
     if bool_decide (state_ m = INITIALIZED) then mount_initialized id m
     else if bool_decide (state_ m = CREATED) then
       ok ← Initialize id;
       if negb ok then mret false
       else m ← manager id; if bool_decide (state_ m = INITIALIZED) then mount_initialized id m else mret false
     else mret false).

(** [own_thread]: called on the thread that runs the loop.  The join returns once
    the loop has ended. *)
Definition Unmount (own_thread : bool) (id : Z) : mprog bool :=
  _ ← with_lock "state_mutex_"
    (m ← manager id;
     _ ← (if bool_decide (state_ m = MOUNTED) then
            _ ← match fuse_session_ m with
                | Some se =>
                    _ ← update id (fun m => set_thread (mount_thread_ m) false m);
                    _ ← on_fuse (fuse_session_exit se); on_fuse (fuse_session_unmount se)
                | None => mret tt
                end;
            update id (set_state INITIALIZED)
          else mret tt);
     update id (fun m => set_thread (mount_thread_ m) false m));
  m ← manager id;
  if mount_thread_ m then
    if own_thread then mret false
    else _ ← log_call ThreadJoined; _ ← update id (fun m => set_thread false (mount_thread_running_ m) m); mret true
  else mret true.

(** The part of [Destroy] that holds the mutex. *)
Definition destroy_locked (id : Z) : mprog unit :=
  m ← manager id;
  _ ← on_fuse (fuse_remove_signal_handlers (fuse_session_ m));
  _ ← match fuse_session_ m with
      | Some se => _ ← on_fuse (fuse_session_destroy se); update id (fun m => set_parts None (bridge_ m) m)
      | None => mret tt
      end;
  m ← manager id;
  _ ← (if bridge_ m then _ ← log_call BridgeShutdown; update id (fun m => set_parts (fuse_session_ m) false m)
       else mret tt);
  update id (set_state DESTROYED).
Definition Destroy (id : Z) : mprog unit :=
  st ← GetState id;
  _ ← (if bool_decide (st = MOUNTED) then _ ← Unmount false id; mret tt else mret tt);
  with_lock "state_mutex_" (destroy_locked id).

(** [~SessionManager]; the thread object is destroyed with it. *)
Definition delete_SessionManager (id : Z) : mprog unit :=
  m ← manager id;
  _ ← (if bool_decide (state_ m <> DESTROYED) then Destroy id else mret tt);
  m ← manager id;
  if mount_thread_ m then stop "std::terminate"
  else pmodify (fun p => set_managers (delete id (managers p)) (active_sessions p) (next_session_id p) p).

(** ** The loop that serves requests *)

Inductive poll_result := PollError (err : Z) | PollTimeout | PollReady (pollin : bool).
(** What [poll] answers, and whether [mount_thread_running_] is true, in a round that
    begins with that trace. *)
Context (poll : list sys_call -> poll_result) (running : list sys_call -> bool).

(** One request: [true] when the loop goes on. *)
Definition serve (se : nat) (fuel : nat) : prog lib bool :=
  r ← fuse_session_receive_buf sys fuel se false;
  let '(res, mem, data) := r : Z * bool * list Z in
  if res <=? 0 then
    l ← pget;
    exited ← fuse_session_exited se;
    mret (((res =? - EINTR) || (res =? 0)) && running (trace l) && negb (exited : bool))
  else
    _ ← emit (Processed data);
    _ ← (if mem then emit FreeBuf else mret tt);
    mret true.
Fixpoint fuse_loop (rounds reads : nat) (se : nat) : prog lib unit :=
  match rounds with
  | O => fun l => Stuck "fuse loop" l
  | S rounds =>
      l ← pget;
      exited ← fuse_session_exited se;
      if negb (running (trace l)) || exited then mret tt
      else
        _ ← emit Polled;
        match poll (trace l) with
        | PollError err => if err =? EINTR then fuse_loop rounds reads se else mret tt
        | PollTimeout => fuse_loop rounds reads se
        | PollReady pollin =>
            if pollin then
              go_on ← serve se reads;
              if go_on : bool then fuse_loop rounds reads se else mret tt
            else fuse_loop rounds reads se
        end
  end.
Definition RunFuseLoop (rounds reads : nat) (m : SessionManager) : prog lib unit :=
  match fuse_session_ m with None => mret tt | Some se => fuse_loop rounds reads se end.

(** ** The exported functions; [None] is a pending JavaScript exception *)

Context `{NapiConv}.
Definition argument (info : list js) (i : nat) : js := default JUndefined (info !! i).
(** [As<Boolean>().Value()] and [As<Number>()] throw on other values. *)
Definition as_bool (v : js) : mprog bool := match v with JBoolean b => mret b | _ => pthrow end.
Definition as_number (v : js) : mprog double := match v with JNumber d => mret d | _ => pthrow end.
Definition opt_bool (obj : js) (name : string) : mprog bool :=
  if Has obj name then as_bool (Get obj name) else mret false.
Definition GetString (v : js) : string := match v with JString s => s | _ => EmptyString end.

Definition read_options (obj : js) : mprog SessionOptions :=
  a ← opt_bool obj "debug"; b ← opt_bool obj "foreground"; c ← opt_bool obj "singleThreaded";
  d ← opt_bool obj "allowOther"; e ← opt_bool obj "allowRoot"; f ← opt_bool obj "autoUnmount";
  g ← opt_bool obj "installSignalHandlers";
  n ← (if Has obj "maxRead" then d ← as_number (Get obj "maxRead"); mret (Uint32Value d) else mret (128 * 1024));
  mret {| debug := a; foreground := b; single_threaded := c; allow_other := d; allow_root := e;
          auto_unmount := f; max_read := n; max_write := 131072; install_signal_handlers := g |}.

(** The manager is destroyed on each way out but the last. *)
Definition CreateSession (info : list js) : mprog (option js) :=
  if (length info <? 1)%nat then mret None
  else if negb (IsObject (argument info 0)) then mret None
  else
    let options_obj := argument info 0 in
    if negb (Has options_obj "mountpoint") then mret None
    else
      let mountpoint := GetString (Get options_obj "mountpoint") in
      options ← read_options options_obj;
      id ← new_SessionManager mountpoint options;
      ok ← Initialize id;
      if negb ok then _ ← delete_SessionManager id; mret None
      else
        _ ← with_lock "sessions_mutex"
              (pmodify (fun p => set_managers (managers p) ({[id]} ∪ active_sessions p) (next_session_id p) p));
        mret (Some (JObject [("id"%string, JNumber (dbl id)); ("mountpoint"%string, JString mountpoint)])).

(** [static_cast<uint64_t>] of a double that has a value there. *)
Definition double_to_u64 (d : double) : Z := dtrunc d.
Definition registered (id : Z) : mprog bool := p ← pget; mret (bool_decide (id ∈ active_sessions p)).

Definition DestroySession (info : list js) : mprog (option js) :=
  if (length info <? 1)%nat then mret None
  else if negb (IsObject (argument info 0)) then mret None
  else if negb (Has (argument info 0) "id") then mret None
  else
    d ← as_number (Get (argument info 0) "id");
    let session_id := double_to_u64 d in
    found ← with_lock "sessions_mutex"
      (there ← registered session_id;
       if there : bool then
         _ ← Destroy session_id;
         _ ← pmodify (fun p => set_managers (managers p) (active_sessions p ∖ {[session_id]}) (next_session_id p) p);
         _ ← delete_SessionManager session_id;
         mret true
       else mret false);
    mret (Some (JBoolean found)).

(** The callback of [mount] and [unmount]: the second or third argument. *)
Definition callback (info : list js) : bool :=
  match argument info 1, argument info 2 with JFunction, _ => true | _, JFunction => true | _, _ => false end.
Definition answer (cb : bool) (r : option js) (failed : option string) : mprog (option js) :=
  if cb then _ ← log_call (Called failed); mret (Some JUndefined) else mret r.
Definition js_Mount (info : list js) : mprog (option js) :=
  if (length info <? 1)%nat || negb (IsObject (argument info 0)) then mret None
  else
    let cb := callback info in
    d ← as_number (Get (argument info 0) "id");
    let session_id := u64 (Int64Value d) in
    there ← with_lock "sessions_mutex" (registered session_id);
    if negb there then answer cb None (Some "Session not found"%string)
    else
      ok ← Mount session_id;
      answer cb (Some (JBoolean ok)) (if ok : bool then None else Some "mount failed"%string).
Definition js_Unmount (info : list js) : mprog (option js) :=
  if (length info <? 1)%nat || negb (IsObject (argument info 0)) then mret None
  else
    let cb := callback info in
    match Get (argument info 0) "id" with
    | JNumber d =>
        let session_id := u64 (Int64Value d) in
        there ← with_lock "sessions_mutex" (registered session_id);
        if negb there then answer cb None (Some "Session not found"%string)
        else
          ok ← Unmount false session_id;
          answer cb (Some (JBoolean ok)) (if ok : bool then None else Some "unmount failed"%string)
    | _ => answer cb None (Some "Invalid session handle"%string)
    end.
Definition js_IsReady (info : list js) : mprog (option js) :=
  if (length info <? 1)%nat then mret (Some (JBoolean false))
  else
    d ← as_number (Get (argument info 0) "id");
    let session_id := double_to_u64 d in
    b ← with_lock "sessions_mutex"
      (there ← registered session_id; if there : bool then is_ready session_id else mret false);
    mret (Some (JBoolean b)).

Inductive js_function := FCreateSession | FDestroySession | FMount | FUnmount | FIsReady.
Definition js_call (f : js_function) (info : list js) : mprog (option js) :=
  match f with
  | FCreateSession => CreateSession info
  | FDestroySession => DestroySession info
  | FMount => js_Mount info
  | FUnmount => js_Unmount info
  | FIsReady => js_IsReady info
  end.
End Manager.

(** Calls one after the other; JavaScript catches the exceptions. *)
Fixpoint js_run (sys : system) (E : environment) `{NapiConv} (l : list (js_function * list js)) : prog process unit :=
  fun p =>
  match l with
  | [] => Done tt p
  | (f, info) :: l =>
      match js_call sys E f info p with
      | Done _ p | Throws p => js_run sys E l p
      | Stuck what p => Stuck what p
      end
  end.

Definition no_sessions : process :=
  {| owned := ∅; fuse := {| heap := ∅; next_ptr := 0; fuse_instance := None; actions := ∅; trace := [] |};
     managers := ∅; active_sessions := ∅; next_session_id := 1 |}.

(** ** The registry and its sessions *)

(** A registered manager has a live session and a bridge; its thread exists while it
    is mounted. *)
Definition sound (l : lib) (id : Z) (m : SessionManager) : Prop :=
  session_id_ m = id /\ bridge_ m = true /\
  (exists se, fuse_session_ m = Some se /\ is_Some (heap l !! se)) /\
  match state_ m with INITIALIZED => mount_thread_ m = false | MOUNTED => mount_thread_ m = true | _ => False end.

(** No mutex is owned; the live managers are the registered ones, with identifiers
    given out before; they own the live sessions, each its own; and the session the
    signal handlers know is alive. *)
Record consistent (n : Z) (p : process) : Prop := {
  co_locks : held p = ∅;
  co_registry : forall id, id ∈ active_sessions p <-> is_Some (managers p !! id);
  co_next : 0 < next_session_id p <= n;
  co_sound : forall id m, managers p !! id = Some m -> id < next_session_id p /\ sound (fuse p) id m;
  co_apart : forall id id' m m', managers p !! id = Some m -> managers p !! id' = Some m' ->
    fuse_session_ m = fuse_session_ m' -> id = id';
  co_owned : forall se, is_Some (heap (fuse p) !! se) ->
    exists id m, managers p !! id = Some m /\ fuse_session_ m = Some se;
  co_fresh : forall se, is_Some (heap (fuse p) !! se) -> (se < next_ptr (fuse p))%nat;
  co_signals : forall se, fuse_instance (fuse p) = Some se -> is_Some (heap (fuse p) !! se);
}.

Section Facts.
Context (sys : system) (E : environment).

Lemma manager_done id p m : managers p !! id = Some m -> manager id p = Done m p.
Proof. intros Hm. unfold manager. by rewrite Hm. Qed.
Lemma update_done id f p m : managers p !! id = Some m ->
  update id f p = Done tt (set_managers (<[id := f m]> (managers p)) (active_sessions p) (next_session_id p) p).
Proof. intros Hm. unfold update. by rewrite Hm. Qed.
Lemma on_fuse_done {A} (m : prog lib A) p a l : m (fuse p) = Done a l -> on_fuse m p = Done a (set_fuse l p).
Proof. intros Hm. unfold on_fuse. by rewrite Hm. Qed.

(** A session that has been told to end; nothing here takes that back. *)
Definition exited (se : nat) (l : lib) : Prop := exists x, heap l !! se = Some x /\ se_mt_exited x = true.

(** What an operation on the manager [id] may change: that manager, its session and
    the trace; [m'] is the manager afterwards. *)
Record touched (id : Z) (m' : SessionManager) (p p' : process) : Prop := {
  to_managers : managers p' = <[id := m']> (managers p);
  to_active : active_sessions p' = active_sessions p;
  to_next : next_session_id p' = next_session_id p;
  to_ptr : next_ptr (fuse p') = next_ptr (fuse p);
  to_heap : forall se, is_Some (heap (fuse p') !! se) <-> is_Some (heap (fuse p) !! se);
  to_instance : fuse_instance (fuse p') = fuse_instance (fuse p) \/ fuse_instance (fuse p') = fuse_session_ m';
  to_exited : forall se, exited se (fuse p) -> exited se (fuse p');
}.

(** Such an operation keeps the registry, when the manager stays sound and keeps its
    session. *)
Lemma touched_consistent n id m m' p p' :
  consistent n p -> managers p !! id = Some m -> touched id m' p p' -> held p' = ∅ ->
  fuse_session_ m' = fuse_session_ m -> sound (fuse p') id m' -> consistent n p'.
Proof.
  intros [Hl Hr Hn Hs Ha Ho Hf Hi] Hm [Tm Ta Tn Tp Th Ti _] Hheld Hse Hsound.
  assert (forall id' m1, managers p' !! id' = Some m1 ->
            exists m0, managers p !! id' = Some m0 /\ fuse_session_ m1 = fuse_session_ m0) as Hback.
  { intros id' m1. rewrite Tm. destruct (decide (id = id')) as [<-|Hne].
    - rewrite lookup_insert_eq. intros [= <-]. by exists m.
    - rewrite lookup_insert_ne by done. intros H1. by exists m1. }
  split.
  - done.
  - intros id'. rewrite Ta, Tm, Hr. destruct (decide (id = id')) as [<-|Hne].
    + rewrite lookup_insert_eq, Hm. split; by eexists.
    + by rewrite lookup_insert_ne.
  - by rewrite Tn.
  - intros id' m1. rewrite Tm, Tn. destruct (decide (id = id')) as [<-|Hne].
    + rewrite lookup_insert_eq. intros [= <-]. split; [by apply (Hs id m)|done].
    + rewrite lookup_insert_ne by done. intros H1. destruct (Hs id' m1 H1) as (? & H2 & H3 & (se & H4 & H5) & H6).
      split; [done|]. do 2 (split; [done|]). split; [|done]. exists se. by rewrite Th.
  - intros i1 i2 m1 m2 H1 H2 He. destruct (Hback _ _ H1) as (x1 & Hx1 & E1), (Hback _ _ H2) as (x2 & Hx2 & E2).
    apply (Ha i1 i2 x1 x2); [done..|congruence].
  - intros se. rewrite Th. intros (id' & m1 & H1 & H2)%Ho. exists id'. rewrite Tm.
    destruct (decide (id = id')) as [<-|Hne].
    + exists m'. rewrite lookup_insert_eq. split; [done|]. congruence.
    + exists m1. by rewrite lookup_insert_ne.
  - intros se. rewrite Th, Tp. apply Hf.
  - intros se Hinst. rewrite Th. destruct Ti as [Ti|Ti].
    + apply Hi. congruence.
    + destruct Hsound as (_ & _ & (se' & H1 & H2) & _). rewrite Th in H2. congruence.
Qed.

Abbreviation never := (fun _ => False).

(** libfuse objects that live on and the handlers' session stays. *)
Definition lib_same (l0 l : lib) : Prop :=
  next_ptr l = next_ptr l0 /\ (forall se, is_Some (heap l !! se) <-> is_Some (heap l0 !! se)) /\
  fuse_instance l = fuse_instance l0 /\ (forall se, exited se l0 -> exited se l).
Lemma emit_same l0 c : triple (lib_same l0) (emit c) (fun _ => lib_same l0) never.
Proof. apply triple_modify. intros l Hl. exact Hl. Qed.
Lemma put_se_same l0 se f : is_Some (heap l0 !! se) ->
  (forall x, se_mt_exited x = true -> se_mt_exited (f x) = true) ->
  triple (lib_same l0) (put_se se f) (fun _ => lib_same l0) never.
Proof.
  intros Hse Hf l (Hn & Hh & Hi & He). destruct (proj2 (Hh se) Hse) as [x Hx]. rewrite (put_se_done _ _ _ _ Hx).
  split; [done|]. split; [|split; [done|]].
  - intros se'. cbn. rewrite <- Hh. destruct (decide (se = se')) as [<-|]; [|by rewrite lookup_insert_ne].
    rewrite lookup_insert_eq, Hx. split; by eexists.
  - intros se' (x' & Hx' & Hex)%He. unfold exited. cbn. destruct (decide (se = se')) as [<-|].
    + rewrite lookup_insert_eq. exists (f x). split; [done|]. apply Hf. congruence.
    + rewrite lookup_insert_ne by done. by exists x'.
Qed.
Lemma get_se_same l0 se : is_Some (heap l0 !! se) ->
  triple (lib_same l0) (get_se se) (fun _ => lib_same l0) never.
Proof.
  intros Hse l Hl. destruct (proj2 (proj1 (proj2 Hl) se) Hse) as [x Hx]. by rewrite (get_se_done _ _ _ Hx).
Qed.
Lemma mount_same l0 se mp : is_Some (heap l0 !! se) ->
  triple (lib_same l0) (fuse_session_mount sys se mp) (fun _ => lib_same l0) never.
Proof.
  intros Hse. apply triple_get. intros l Hl.
  apply (triple_mono (lib_same l0) _ _ (fun _ => lib_same l0) _ never); [|by intros ? ->|done..].
  destruct (negb (strdup_ok _ _)); [by apply triple_ret|].
  cbv zeta. destruct (negb _).
  - destruct (negb _); [by apply triple_ret|].
    eapply triple_bind; [by apply put_se_same; auto|]. intros []. by apply triple_ret.
  - eapply triple_bind; [apply emit_same|]. intros [].
    destruct (kern_mount _ _ _); [|by apply triple_ret].
    eapply triple_bind; [by apply put_se_same; auto|]. intros []. by apply triple_ret.
Qed.
Lemma unmount_same l0 se : is_Some (heap l0 !! se) ->
  triple (lib_same l0) (fuse_session_unmount se) (fun _ => lib_same l0) never.
Proof.
  intros Hse. eapply triple_bind; [by apply get_se_same|]. intros s.
  destruct (se_mountpoint s); [|by apply triple_ret].
  eapply triple_bind; [apply emit_same|]. intros []. by apply put_se_same; auto.
Qed.
Lemma set_handlers_owner l0 se :
  triple (lib_same l0) (fuse_set_signal_handlers se)
    (fun _ l => next_ptr l = next_ptr l0 /\ (forall se, is_Some (heap l !! se) <-> is_Some (heap l0 !! se)) /\
       fuse_instance l = Some se /\ (forall se, exited se l0 -> exited se l)) never.
Proof.
  eapply triple_bind with (M := fun _ l => next_ptr l = next_ptr l0 /\
    (forall se, is_Some (heap l !! se) <-> is_Some (heap l0 !! se)) /\ fuse_instance l = Some se /\
    (forall se, exited se l0 -> exited se l)).
  - apply triple_modify. intros l (Hn & Hh & _ & He). done.
  - intros []. by apply triple_ret.
Qed.

Section Operation.
Context (p0 : process) (id : Z) (h : gset string).
Abbreviation T m := (fun p => held p = h /\ touched id m p0 p).

Lemma touched_blind m : lock_blind (touched id m p0).
Proof. by intros h' p []. Qed.
#[local] Hint Resolve touched_blind : core.

Lemma manager_at m : triple (T m) (manager id) (fun m' p => m' = m /\ T m p) never.
Proof.
  intros p [Hh Ht]. rewrite (manager_done id p m); [done|]. rewrite (to_managers _ _ _ _ Ht). apply lookup_insert_eq.
Qed.
Lemma update_at m f : (fuse_session_ (f m) = fuse_session_ m) -> triple (T m) (update id f) (fun _ => T (f m)) never.
Proof.
  intros Hf p [Hh [Tm Ta Tn Tp Th Ti Te]].
  rewrite (update_done id f p m) by (rewrite Tm; apply lookup_insert_eq). split; [done|].
  split; try done; cbn; [by rewrite Tm, insert_insert_eq|by rewrite Hf].
Qed.
Lemma fuse_at {A} m (op : prog lib A) :
  (forall l0, (forall se, is_Some (heap l0 !! se) <-> is_Some (heap (fuse p0) !! se)) ->
     triple (lib_same l0) op (fun _ l => next_ptr l = next_ptr l0 /\
       (forall se, is_Some (heap l !! se) <-> is_Some (heap l0 !! se)) /\
       (fuse_instance l = fuse_instance l0 \/ fuse_instance l = fuse_session_ m) /\
       (forall se, exited se l0 -> exited se l)) never) ->
  triple (T m) (on_fuse op) (fun _ => T m) never.
Proof.
  intros Hop p [Hh [Tm Ta Tn Tp Th Ti Te]]. unfold on_fuse.
  specialize (Hop (fuse p) Th (fuse p) (conj eq_refl (conj (fun se => iff_refl _) (conj eq_refl (fun se H => H))))).
  destruct (op (fuse p)) as [a l|l|w l]; [|done..]. destruct Hop as (Hn & Hheap & Hi & He).
  split; [done|]. split; cbn; try done; [congruence| | |].
  - intros se. by rewrite Hheap, Th.
  - destruct Hi as [Hi|Hi]; rewrite Hi; auto.
  - intros se Hse. by apply He, Te.
Qed.
Lemma fuse_same_at {A} m (op : prog lib A) :
  (forall l0, (forall se, is_Some (heap l0 !! se) <-> is_Some (heap (fuse p0) !! se)) ->
     triple (lib_same l0) op (fun _ => lib_same l0) never) ->
  triple (T m) (on_fuse op) (fun _ => T m) never.
Proof.
  intros Hop. apply fuse_at. intros l0 Hl0.
  eapply triple_mono; [apply Hop, Hl0|done| |done]. intros a l (Hn & Hh & Hi & He). auto.
Qed.
Lemma log_at m c : triple (T m) (log_call c) (fun _ => T m) never.
Proof. apply fuse_same_at. intros l0 _. apply emit_same. Qed.
End Operation.

Section Operations.
Context (p0 : process) (id : Z).
Abbreviation T h m := (fun p => held p = h /\ touched id m p0 p).
#[local] Hint Resolve touched_blind : core.

(** Reads the manager, whose record is then known. *)
Ltac read_manager :=
  eapply triple_bind; [apply manager_at|]; intros ?; apply triple_pure; intros ->.

Lemma locked_at {A} h m (body : prog process A) (M : A -> SessionManager -> Prop) :
  "state_mutex_" ∉ h ->
  triple (T ({["state_mutex_"]} ∪ h) m) body
    (fun a p => held p = {["state_mutex_"]} ∪ h /\ exists m', M a m' /\ touched id m' p0 p) never ->
  triple (T h m) (with_lock "state_mutex_" body) (fun a p => held p = h /\ exists m', M a m' /\ touched id m' p0 p) never.
Proof.
  intros Hh Hb. apply triple_lock; [done|auto| |exact Hb].
  intros a h' p (m' & Hm & []). by exists m'.
Qed.

Definition mounted (m : SessionManager) : SessionManager := set_thread true true (set_state MOUNTED m).

Lemma mount_initialized_at h m se :
  fuse_session_ m = Some se -> is_Some (heap (fuse p0) !! se) -> mount_thread_ m = false ->
  triple (T h m) (mount_initialized sys id m)
    (fun b p => held p = h /\ exists m', m' = (if b : bool then mounted m else m) /\ touched id m' p0 p) never.
Proof.
  intros Hse Hlive Hth. unfold mount_initialized, session_of. rewrite Hse.
  eapply triple_bind with (M := fun s p => s = se /\ T h m p); [by apply triple_ret|]. intros s. apply triple_pure. intros ->.
  eapply triple_bind.
  { apply fuse_same_at. intros l0 Hl0. apply mount_same. by apply Hl0. }
  intros r. destruct (negb _).
  { apply triple_ret. intros p [Hp Ht]. split; [done|]. by exists m. }
  eapply triple_bind with (M := fun _ => T h m).
  { destruct (install_signal_handlers _); [|by apply triple_ret].
    eapply triple_bind with (M := fun _ => T h m); [|intros r'; by apply triple_ret].
    apply fuse_at. intros l0 Hl0. eapply triple_mono; [apply set_handlers_owner|done| |done].
    intros a l (Hn & Hh & Hi & He). split; [done|]. split; [done|]. split; [right; congruence|done]. }
  intros []. eapply triple_bind; [by apply update_at|]. intros [].
  unfold start_thread. eapply triple_bind with (M := fun _ => T h (mounted m)).
  { eapply triple_bind; [apply manager_at|]. intros m'. apply triple_pure. intros ->.
    change (mount_thread_ (set_state MOUNTED m)) with (mount_thread_ m). rewrite Hth.
    eapply triple_bind; [apply log_at|]. intros [].
    by apply (update_at p0 id h (set_state MOUNTED m) (set_thread true true)). }
  intros []. apply triple_ret. intros p [Hp Ht]. split; [done|]. by exists (mounted m).
Qed.

(** [mount] of a registered session: its state says whether it is mounted. *)
Lemma mount_at h m se :
  "state_mutex_" ∉ h -> fuse_session_ m = Some se -> is_Some (heap (fuse p0) !! se) ->
  (state_ m = INITIALIZED /\ mount_thread_ m = false) \/ state_ m = MOUNTED ->
  triple (T h m) (Mount sys E id)
    (fun b p => held p = h /\ exists m', m' = (if b : bool then mounted m else m) /\ touched id m' p0 p) never.
Proof.
  intros Hh Hse Hlive Hst. apply locked_at; [done|].
  read_manager. destruct Hst as [[Hst Hth]|Hst]; rewrite Hst.
  - rewrite bool_decide_true by done. by apply (mount_initialized_at _ m se).
  - rewrite !bool_decide_false by done. apply triple_ret. intros p [Hp Ht]. split; [done|]. by exists m.
Qed.

Definition stopped (m : SessionManager) : SessionManager :=
  set_thread false false (if decide (state_ m = MOUNTED) then set_state INITIALIZED m else m).
End Operations.

Abbreviation T p0 id h m := (fun p => held p = h /\ touched id m p0 p).
(** A session told to end stays so. *)
Abbreviation ended X se := (fun p => X -> exited se (fuse p)).

Lemma touched_refl id m p : managers p !! id = Some m -> touched id m p p.
Proof. intros Hm. split; try done; [by rewrite insert_id|by left]. Qed.

Lemma with_ended {A} p0 id h m m' (op : prog process A) (X : Prop) se :
  is_Some (heap (fuse p0) !! se) ->
  (forall p0, is_Some (heap (fuse p0) !! se) -> triple (T p0 id h m) op (fun _ => T p0 id h m') never) ->
  triple (fun p => T p0 id h m p /\ ended X se p) op (fun _ p => T p0 id h m' p /\ ended X se p) never.
Proof.
  intros Hlive Hop p [[Hh Ht] He].
  assert (managers p !! id = Some m) as Hm by (rewrite (to_managers _ _ _ _ Ht); apply lookup_insert_eq).
  pose proof (Hop p0 Hlive p (conj Hh Ht)) as H1.
  pose proof (Hop p ltac:(by apply (to_heap _ _ _ _ Ht)) p (conj Hh (touched_refl id m p Hm))) as H2.
  destruct (op p) as [a p'|p'|w p']; [|done..]. split; [done|]. intros HX. apply (to_exited _ _ _ _ (proj2 H2)), He, HX.
Qed.

(** [fuse_session_exit]. *)
Lemma exit_at p0 id h m se : is_Some (heap (fuse p0) !! se) ->
  triple (T p0 id h m) (on_fuse (fuse_session_exit se)) (fun _ p => T p0 id h m p /\ exited se (fuse p)) never.
Proof.
  intros Hlive p Hp.
  assert (triple (T p0 id h m) (on_fuse (fuse_session_exit se)) (fun _ => T p0 id h m) never) as Hsame.
  { apply fuse_same_at. intros l0 Hl0. apply put_se_same; [by apply Hl0|done]. }
  pose proof (Hsame p Hp) as H1. clear Hsame.
  destruct (proj2 (to_heap _ _ _ _ (proj2 Hp) se) Hlive) as [x Hx].
  unfold on_fuse, fuse_session_exit in *. rewrite (put_se_done _ _ _ _ Hx) in *. split; [exact H1|].
  eexists. split; [cbn; by rewrite lookup_insert_eq|done].
Qed.

Lemma unmount_locked p0 id h m se :
  fuse_session_ m = Some se -> is_Some (heap (fuse p0) !! se) ->
  triple (T p0 id h m)
    (if bool_decide (state_ m = MOUNTED) then
       _ ← match fuse_session_ m with
           | Some se =>
               _ ← update id (fun m => set_thread (mount_thread_ m) false m);
               _ ← on_fuse (fuse_session_exit se); on_fuse (fuse_session_unmount se)
           | None => mret tt
           end;
       update id (set_state INITIALIZED)
     else mret tt)
    (fun _ p => T p0 id h (if decide (state_ m = MOUNTED) then set_state INITIALIZED (set_thread (mount_thread_ m) false m)
                           else m) p /\ ended (state_ m = MOUNTED) se p) never.
Proof.
  intros Hse Hlive. case_bool_decide as Hst; [rewrite decide_True by done|rewrite decide_False by done; by apply triple_ret].
  set (m1 := set_thread (mount_thread_ m) false m). rewrite Hse.
  eapply triple_bind with (M := fun _ p => T p0 id h m1 p /\ ended (state_ m = MOUNTED) se p).
  - eapply triple_bind; [by apply (update_at p0 id h m (fun m => set_thread (mount_thread_ m) false m))|]. intros [].
    eapply triple_bind; [eapply triple_mono; [by apply (exit_at p0 id h m1 se)|done|intros a p [Hp He]; exact (conj Hp (fun _ : state_ m = MOUNTED => He))|done]|].
    intros []. apply with_ended; [done|]. intros q Hq. apply fuse_same_at. intros l0 Hl0. apply unmount_same. by apply Hl0.
  - intros []. apply with_ended; [done|]. intros q _. by apply update_at.
Qed.

Lemma unmount_at p0 id h m se :
  "state_mutex_" ∉ h -> fuse_session_ m = Some se -> is_Some (heap (fuse p0) !! se) ->
  triple (T p0 id h m) (Unmount false id)
    (fun b p => b = true /\ T p0 id h (stopped m) p /\ ended (state_ m = MOUNTED) se p) never.
Proof.
  intros Hh Hse Hlive. unfold Unmount.
  set (m1 := set_thread (mount_thread_ m) false (if decide (state_ m = MOUNTED) then set_state INITIALIZED m else m)).
  eapply triple_bind with (M := fun _ p => T p0 id h m1 p /\ ended (state_ m = MOUNTED) se p).
  { eapply triple_mono; [apply (triple_lock "state_mutex_" h _ (touched id m p0)
        (fun _ p => touched id m1 p0 p /\ ended (state_ m = MOUNTED) se p) never)|done|by intros ? p (? & ? & ?)|done];
      [done|apply touched_blind|by intros ? h' p [[] ?]|].
    eapply triple_bind; [apply manager_at|]. intros ?. apply triple_pure. intros ->.
    eapply triple_bind; [by apply (unmount_locked p0 id ({["state_mutex_"]} ∪ h) m se)|]. intros [].
    set (m2 := if decide _ then _ else _).
    eapply triple_mono; [apply (with_ended p0 id ({["state_mutex_"]} ∪ h) m2 (set_thread (mount_thread_ m2) false m2)
        (update id (fun m => set_thread (mount_thread_ m) false m)) (state_ m = MOUNTED) se Hlive); intros q _;
        by apply (update_at q id ({["state_mutex_"]} ∪ h) m2 (fun m => set_thread (mount_thread_ m) false m))
      |done| |done].
    intros [] p [[Hp Ht] He]. split; [done|]. split; [|done].
    replace m1 with (set_thread (mount_thread_ m2) false m2); [done|]. unfold m1, m2. destruct (decide _); by destruct m. }
  intros []. eapply triple_bind with (M := fun m' p => m' = m1 /\ T p0 id h m1 p /\ ended (state_ m = MOUNTED) se p).
  { intros p [Hp He]. rewrite (manager_done id p m1); [done|].
    rewrite (to_managers _ _ _ _ (proj2 Hp)). apply lookup_insert_eq. }
  intros ?. apply triple_pure. intros ->. change (mount_thread_ m1) with (mount_thread_ m).
  destruct (mount_thread_ m) eqn:Hth.
  - eapply triple_bind; [apply (with_ended p0 id h m1 m1 _ (state_ m = MOUNTED) se Hlive); intros q _; apply log_at|]. intros [].
    eapply triple_bind; [apply (with_ended p0 id h m1 (stopped m) _ (state_ m = MOUNTED) se Hlive); intros q _;
      by apply (update_at q id h m1 (fun m => set_thread false (mount_thread_running_ m) m))|].
    intros []. by apply triple_ret.
  - apply triple_ret. intros p Hp. split; [done|]. exact Hp.
Qed.

(** ** The end of a session *)

(** What is left of the process when the manager [m] of [id] has been destroyed. *)
Record gone (id : Z) (m : SessionManager) (p p' : process) : Prop := {
  go_locks : held p' = held p;
  go_managers : exists m', managers p' = <[id := m']> (managers p) /\ state_ m' = DESTROYED /\
    mount_thread_ m' = mount_thread_ m;
  go_active : active_sessions p' = active_sessions p;
  go_next : next_session_id p' = next_session_id p;
  go_ptr : next_ptr (fuse p') = next_ptr (fuse p);
  go_heap : forall se, is_Some (heap (fuse p') !! se) <-> is_Some (heap (fuse p) !! se) /\ fuse_session_ m <> Some se;
  go_instance : forall se, fuse_instance (fuse p') = Some se -> fuse_instance (fuse p) = Some se /\ fuse_session_ m <> Some se;
}.

Lemma removed_instance q l se : fuse_instance (removed q l) = Some se -> fuse_instance l = Some se /\ q <> Some se.
Proof. unfold removed. cbn. case_decide; [done|]. intros He. split; [done|]. congruence. Qed.

Lemma destroy_done se l : is_Some (heap l !! se) -> exists l',
  fuse_session_destroy se l = Done tt l' /\ heap l' = delete se (heap l) /\ next_ptr l' = next_ptr l /\
  fuse_instance l' = fuse_instance l.
Proof.
  intros [x Hx]. unfold fuse_session_destroy.
  destruct (se_got_init x && negb (se_got_destroy x)) eqn:H1; destruct (negb (se_fd x =? -1)) eqn:H2;
    eexists; (split; [step ltac:(by apply get_se_done); rewrite H1, H2; reflexivity|done]).
Qed.

Lemma destroy_locked_done id m p :
  managers p !! id = Some m -> (forall se, fuse_session_ m = Some se -> is_Some (heap (fuse p) !! se)) ->
  exists p', destroy_locked id p = Done tt p' /\ gone id m p p'.
Proof.
  intros Hm Hlive. unfold destroy_locked. step ltac:(by apply manager_done).
  step ltac:(by apply on_fuse_done). set (p1 := set_fuse _ p).
  assert (exists p2, match fuse_session_ m with
      | Some se => _ ← on_fuse (fuse_session_destroy se); update id (fun m => set_parts None (bridge_ m) m)
      | None => mret tt
      end p1 = Done tt p2 /\ held p2 = held p /\
      (exists m2, managers p2 = <[id := m2]> (managers p) /\ mount_thread_ m2 = mount_thread_ m) /\
      active_sessions p2 = active_sessions p /\ next_session_id p2 = next_session_id p /\
      next_ptr (fuse p2) = next_ptr (fuse p) /\
      (forall se, is_Some (heap (fuse p2) !! se) <-> is_Some (heap (fuse p) !! se) /\ fuse_session_ m <> Some se) /\
      fuse_instance (fuse p2) = fuse_instance (removed (fuse_session_ m) (fuse p))) as
    (p2 & Hmid & Hh & (m2 & Hm2 & Hth) & Ha & Hn & Hp & Hheap & Hi).
  { destruct (fuse_session_ m) as [se|] eqn:Hse.
    - destruct (destroy_done se (removed (Some se) (fuse p))) as (l' & Hl & Hl1 & Hl2 & Hl3); [by apply Hlive|].
      eexists. split; [step ltac:(by apply on_fuse_done); by apply update_done|].
      cbn. do 2 (split; [done || eauto|]). do 3 (split; [done|]). split; [|done].
      intros se'. rewrite Hl1. cbn. destruct (decide (se = se')) as [<-|Hne].
      + rewrite lookup_delete_eq. split; [by intros []|naive_solver].
      + rewrite lookup_delete_ne by done. naive_solver.
    - exists p1. split; [done|]. split; [done|]. split; [exists m; by rewrite insert_id|].
      do 3 (split; [done|]). split; [naive_solver|done]. }
  step ltac:(exact Hmid).
  assert (managers p2 !! id = Some m2) as Hl2 by (rewrite Hm2; apply lookup_insert_eq).
  step ltac:(by apply manager_done).
  assert (forall se, fuse_instance (fuse p2) = Some se -> fuse_instance (fuse p) = Some se /\ fuse_session_ m <> Some se)
    as Hinst by (intros se; rewrite Hi; apply removed_instance).
  destruct (bridge_ m2).
  - eexists. split.
    + step ltac:(step ltac:(done); by apply update_done).
      apply update_done. cbn. apply lookup_insert_eq.
    + split; try done. cbn. rewrite Hm2, !insert_insert_eq. by eexists.
  - eexists. split.
    + step ltac:(done). by apply update_done.
    + split; try done. cbn. rewrite Hm2, !insert_insert_eq. by eexists.
Qed.


Lemma gone_after_touched id m m1 p p1 p' :
  touched id m1 p p1 -> held p1 = held p -> fuse_session_ m1 = fuse_session_ m -> mount_thread_ m1 = false ->
  gone id m1 p1 p' ->
  gone id (set_thread false false m) p p'.
Proof.
  intros [Tm Ta Tn Tp Th Ti _] Hl Hse Hth [Gl (m' & Gm & Gd & Gt) Ga Gn Gp Gh Gi]. split.
  - congruence.
  - exists m'. rewrite Gm, Tm, insert_insert_eq. split; [done|]. split; [done|]. by rewrite Gt, Hth.
  - congruence.
  - congruence.
  - congruence.
  - intros se. rewrite Gh, Th, Hse. done.
  - intros se Hi. destruct (Gi se Hi) as [H1 H2]. rewrite Hse in H2. split; [|done].
    destruct Ti as [Ti|Ti]; congruence.
Qed.

Lemma get_state_done id m p :
  "state_mutex_" ∉ held p -> managers p !! id = Some m -> GetState id p = Done (state_ m) p.
Proof.
  intros Hh Hm. unfold GetState. erewrite with_lock_done; [|done|step ltac:(by apply manager_done); reflexivity|done].
  f_equal. rewrite set_held_set_held. apply set_held_held.
Qed.

Lemma Destroy_done id m p :
  "state_mutex_" ∉ held p -> managers p !! id = Some m ->
  (forall se, fuse_session_ m = Some se -> is_Some (heap (fuse p) !! se)) ->
  (state_ m = MOUNTED /\ is_Some (fuse_session_ m) \/ mount_thread_ m = false /\ state_ m <> MOUNTED) ->
  exists p', Destroy id p = Done tt p' /\ gone id (set_thread false false m) p p'.
Proof.
  intros Hh Hm Hlive Hst. unfold Destroy. step ltac:(by apply get_state_done).
  assert (exists p1 m1, (if bool_decide (state_ m = MOUNTED) then _ ← Unmount false id; mret tt else mret tt) p = Done tt p1 /\
    touched id m1 p p1 /\ held p1 = held p /\ fuse_session_ m1 = fuse_session_ m /\ mount_thread_ m1 = false)
    as (p1 & m1 & Hrun & Ht & Hheld & Hse & Hth).
  { destruct Hst as [[Hst [se Hse]]|[Hth Hst]].
    - rewrite bool_decide_true by done.
      pose proof (unmount_at p id (held p) m se Hh Hse (Hlive se Hse) p (conj eq_refl (touched_refl id m p Hm))) as Hu.
      destruct (Unmount false id p) as [b p1|p1|w p1] eqn:Hun; [|done..]. destruct Hu as (-> & [Hl Ht] & _).
      exists p1, (stopped m). split; [by step ltac:(exact Hun)|]. split; [done|]. split; [done|].
      unfold stopped. rewrite decide_True by done. done.
    - rewrite bool_decide_false by done. exists p, m. split; [done|]. split; [by apply touched_refl|done]. }
  step ltac:(exact Hrun).
  set (q := set_held ({["state_mutex_"]} ∪ held p1) p1).
  destruct (destroy_locked_done id m1 q) as (p2 & Hd & Hg).
  { cbn. rewrite (to_managers _ _ _ _ Ht). apply lookup_insert_eq. }
  { intros se Hse1. cbn. rewrite (to_heap _ _ _ _ Ht). apply Hlive. congruence. }
  eexists. split.
  { apply with_lock_done; [by rewrite Hheld|exact Hd|]. rewrite (go_locks _ _ _ _ Hg). done. }
  eapply gone_after_touched; [exact Ht|done..|].
  destruct Hg. split; try done.
Qed.

(** The destructor of a destroyed manager whose thread was joined. *)
Lemma delete_done id m p :
  managers p !! id = Some m -> state_ m = DESTROYED -> mount_thread_ m = false ->
  delete_SessionManager id p =
    Done tt (set_managers (delete id (managers p)) (active_sessions p) (next_session_id p) p).
Proof.
  intros Hm Hd Ht. unfold delete_SessionManager. step ltac:(by apply manager_done).
  rewrite bool_decide_false by (intros Hn; by apply Hn).
  step ltac:(done). step ltac:(by apply manager_done). by rewrite Ht.
Qed.

(** ** The beginning of a session *)

(** What [Initialize] has done to the new manager [id]: it has a session of its own,
    or none. *)
Record begun (id : Z) (b : bool) (m : SessionManager) (p p' : process) : Prop := {
  be_locks : held p' = held p;
  be_managers : managers p' = <[id := m]> (managers p);
  be_active : active_sessions p' = active_sessions p;
  be_next : next_session_id p' = next_session_id p;
  be_instance : fuse_instance (fuse p') = fuse_instance (fuse p);
  be_thread : mount_thread_ m = false;
  be_session : if b then
      state_ m = INITIALIZED /\ bridge_ m = true /\ fuse_session_ m = Some (next_ptr (fuse p)) /\
      next_ptr (fuse p') = S (next_ptr (fuse p)) /\
      exists se, heap (fuse p') = <[next_ptr (fuse p) := se]> (heap (fuse p))
    else state_ m = CREATED /\ fuse_session_ m = None /\ next_ptr (fuse p') = next_ptr (fuse p) /\
      heap (fuse p') = heap (fuse p);
}.

Lemma session_new_done n args l :
  fuse_session_new true n args l = Done (Some (next_ptr l))
    (set_heap (<[next_ptr l := fresh_session n args]> (heap l)) (S (next_ptr l)) (add_trace (SessionNew args) l)).
Proof. reflexivity. Qed.
Lemma session_new_failed n args l :
  fuse_session_new false n args l = Done None (add_trace (SessionNew args) l).
Proof. reflexivity. Qed.

Lemma initialize_done id m p :
  "state_mutex_" ∉ held p -> managers p !! id = Some m -> state_ m = CREATED -> fuse_session_ m = None ->
  mount_thread_ m = false ->
  exists b p' m', Initialize sys E id p = Done b p' /\ begun id b m' p p' /\ session_id_ m' = session_id_ m.
Proof.
  intros Hh Hm Hst Hse Hth. unfold Initialize.
  set (q := set_held ({["state_mutex_"]} ∪ held p) p).
  set (m1 := set_parts (fuse_session_ m) true m).
  assert (forall b r m', begun id b m' q r ->
    begun id b m' p (set_held (held p) r)) as Hlift by (intros b r m' []; by split).
  (* The process once the bridge has been made. *)
  set (q1 := set_managers (<[id := m1]> (managers q)) (active_sessions q) (next_session_id q)
               (set_fuse (add_trace NewBridge (fuse q)) q)).
  assert (begun id false m1 q q1) as H1 by (split; cbn; repeat split; auto).
  assert (managers q1 !! id = Some m1) as Hq1 by apply lookup_insert_eq.
  set (new := fuse_session_new (session_new_ok E (trace (fuse q1))) (default_bufsize E)).
  assert (forall b r m', begun id b m' q r -> session_id_ m' = session_id_ m ->
    (if negb (bridge_initializes E (trace (fuse q1))) then mret false
     else match parse_cmdline E (fuse_args (options_ m)) with
          | None => mret false
          | Some args =>
              if negb (strdup_ok sys (trace (fuse q1))) then mret false
              else se ← on_fuse (new args);
                   _ ← update id (fun m => set_parts se (bridge_ m) m);
                   match se with None => mret false | Some _ => _ ← update id (set_state INITIALIZED); mret true end
          end) q1 = Done b r ->
    exists b p' m', Initialize sys E id p = Done b p' /\ begun id b m' p p' /\ session_id_ m' = session_id_ m) as Hdone.
  { intros b r m' Hb Hid Hrun. exists b, (set_held (held p) r), m'. split; [|split; [by apply Hlift|done]].
    apply with_lock_done; [done| |exact (be_locks _ _ _ _ _ Hb)].
    step ltac:(by apply manager_done). rewrite bool_decide_false by (intros Hx; by apply Hx).
    step ltac:(done). step ltac:(by apply update_done). step ltac:(done). exact Hrun. }
  destruct (bridge_initializes E (trace (fuse q1))) eqn:Hb; [|by apply (Hdone false q1 m1)].
  destruct (parse_cmdline E (fuse_args (options_ m))) as [args|] eqn:Hp; [|by apply (Hdone false q1 m1)].
  destruct (strdup_ok sys (trace (fuse q1))) eqn:Hs; [|by apply (Hdone false q1 m1)].
  cbn [negb] in Hdone. unfold new in Hdone. clear new.
  destruct (session_new_ok E (trace (fuse q1))) eqn:Hn.
  - set (m2 := set_parts (Some (next_ptr (fuse p))) true m1).
    eapply (Hdone true _ (set_state INITIALIZED m2)); cycle 1; [done| |].
    + step ltac:(exact (on_fuse_done _ q1 _ _ (session_new_done (default_bufsize E) args (fuse q1)))).
      step ltac:(apply update_done; exact Hq1).
      step ltac:(apply update_done; cbn; apply lookup_insert_eq). reflexivity.
    + split; try done; cbn; [by rewrite !insert_insert_eq|]. do 4 (split; [done|]). by eexists.
  - eapply (Hdone false _ (set_parts None true m1)); cycle 1; [done| |].
    + step ltac:(exact (on_fuse_done _ q1 _ _ (session_new_failed (default_bufsize E) args (fuse q1)))).
      step ltac:(apply update_done; exact Hq1). reflexivity.
    + split; try done; cbn. by rewrite !insert_insert_eq.
Qed.

(** ** The exported functions *)

Lemma consistent_mono n n' p : n <= n' -> consistent n p -> consistent n' p.
Proof. intros Hn []. split; try done. lia. Qed.

(** A process whose manager [id] and its session are gone, and all else is as in [p]. *)
Lemma gone_consistent n id m p p' :
  consistent n p -> managers p !! id = Some m ->
  held p' = ∅ -> managers p' = delete id (managers p) -> active_sessions p' = active_sessions p ∖ {[id]} ->
  next_session_id p' = next_session_id p -> next_ptr (fuse p') = next_ptr (fuse p) ->
  (forall se, is_Some (heap (fuse p') !! se) <-> is_Some (heap (fuse p) !! se) /\ fuse_session_ m <> Some se) ->
  (forall se, fuse_instance (fuse p') = Some se -> fuse_instance (fuse p) = Some se /\ fuse_session_ m <> Some se) ->
  consistent n p'.
Proof.
  intros [Hl Hr Hn Hs Ha Ho Hf Hi] Hm Gl Gm Ga Gn Gp Gh Gi. split; [done|..].
  - intros id'. rewrite Ga, Gm. destruct (decide (id = id')) as [<-|Hne].
    + rewrite lookup_delete_eq. split; [set_solver|by intros []].
    + rewrite lookup_delete_ne, <- Hr by done. set_solver.
  - by rewrite Gn.
  - intros id' m'. rewrite Gm, Gn. intros [Hne Hm']%lookup_delete_Some.
    destruct (Hs id' m' Hm') as (? & H1 & H2 & (se & H3 & H4) & H5). split; [done|].
    do 2 (split; [done|]). split; [|done]. exists se. split; [done|]. apply Gh. split; [done|].
    intros Hse. apply Hne, (Ha id id' m m'); congruence.
  - intros i1 i2 m1 m2. rewrite Gm. intros [_ H1]%lookup_delete_Some [_ H2]%lookup_delete_Some. by apply Ha.
  - intros se [Hse Hne]%Gh. destruct (Ho se Hse) as (id' & m' & H1 & H2). exists id', m'. split; [|done].
    rewrite Gm. apply lookup_delete_Some. split; [congruence|done].
  - intros se [Hse _]%Gh. rewrite Gp. by apply Hf.
  - intros se [H1 H2]%Gi. apply Gh. split; [by apply Hi|done].
Qed.

(** A new manager with a session of its own. *)
Lemma begun_consistent n id m p p' :
  consistent n p -> id = next_session_id p -> n + 1 < 2 ^ 64 ->
  held p' = ∅ -> managers p' = <[id := m]> (managers p) -> active_sessions p' = {[id]} ∪ active_sessions p ->
  next_session_id p' = u64 (id + 1) -> fuse_instance (fuse p') = fuse_instance (fuse p) ->
  next_ptr (fuse p') = S (next_ptr (fuse p)) ->
  (exists se, heap (fuse p') = <[next_ptr (fuse p) := se]> (heap (fuse p))) ->
  session_id_ m = id -> state_ m = INITIALIZED -> bridge_ m = true -> mount_thread_ m = false ->
  fuse_session_ m = Some (next_ptr (fuse p)) -> consistent (n + 1) p'.
Proof.
  intros [Hl Hr Hn Hs Ha Ho Hf Hi] -> Hsmall Gl Gm Ga Gn Gi Gp [se0 Gh] M1 M2 M3 M4 M5.
  set (id := next_session_id p) in *.
  assert (u64 (id + 1) = id + 1) as Hu by (apply wrapu_small; unfold in_u; lia). rewrite Hu in Gn.
  assert (managers p !! id = None) as Hfresh.
  { destruct (managers p !! id) as [m'|] eqn:Hm'; [|done]. destruct (Hs id m' Hm'). lia. }
  assert (heap (fuse p) !! next_ptr (fuse p) = None) as Hptr.
  { apply eq_None_not_Some. intros H. apply Hf in H. lia. }
  assert (forall se, is_Some (heap (fuse p') !! se) <-> se = next_ptr (fuse p) \/ is_Some (heap (fuse p) !! se)) as Gh'.
  { intros se. rewrite Gh. destruct (decide (next_ptr (fuse p) = se)) as [<-|Hne].
    - rewrite lookup_insert_eq. split; [by left|by eexists].
    - rewrite lookup_insert_ne by done. naive_solver. }
  split; [done|..].
  - intros id'. rewrite Ga, Gm, elem_of_union, elem_of_singleton. destruct (decide (id = id')) as [<-|Hne].
    + rewrite lookup_insert_eq. split; [by eexists|by left].
    + rewrite lookup_insert_ne, <- Hr by done. naive_solver.
  - rewrite Gn. lia.
  - intros id' m'. rewrite Gm, Gn. intros [[<- <-]|[Hne Hm']]%lookup_insert_Some.
    + split; [lia|]. do 2 (split; [done|]). split; [|by rewrite M2]. eexists. split; [done|]. apply Gh'. by left.
    + destruct (Hs id' m' Hm') as (? & H1 & H2 & (se & H3 & H4) & H5). split; [lia|].
      do 2 (split; [done|]). split; [|done]. exists se. split; [done|]. apply Gh'. by right.
  - intros i1 i2 m1 m2. rewrite Gm.
    assert (forall i m', managers p !! i = Some m' -> fuse_session_ m' = Some (next_ptr (fuse p)) -> False) as Hnew.
    { intros i m' Hm' Hse. destruct (Hs i m' Hm') as (_ & _ & _ & (se & H3 & H4) & _).
      rewrite Hse in H3. injection H3 as <-. rewrite Hptr in H4. by destruct H4. }
    intros [[<- <-]|[Hn1 H1]]%lookup_insert_Some [[<- <-]|[Hn2 H2]]%lookup_insert_Some He; [done|..].
    + exfalso. apply (Hnew i2 m2 H2). congruence.
    + exfalso. apply (Hnew i1 m1 H1). congruence.
    + by apply (Ha i1 i2 m1 m2).
  - intros se [->|Hse]%Gh'.
    + exists id, m. rewrite Gm, lookup_insert_eq. done.
    + destruct (Ho se Hse) as (i & m' & H1 & H2). exists i, m'. split; [|done]. rewrite Gm, lookup_insert_ne; [done|].
      intros <-. congruence.
  - intros se. rewrite Gp. intros [->|Hse]%Gh'; [lia|]. apply Hf in Hse. lia.
  - intros se. rewrite Gi. intros Hse. apply Gh'. right. by apply Hi.
Qed.

Context `{NapiConv}.
Abbreviation keeps n op := (triple (consistent n) op (fun _ => consistent n) (consistent n)).

Lemma as_number_keeps n v : keeps n (as_number v).
Proof. destruct v; try (apply triple_throw; auto). by apply triple_ret. Qed.
Lemma as_bool_keeps n v : keeps n (as_bool v).
Proof. destruct v; try (apply triple_throw; auto). by apply triple_ret. Qed.
Lemma opt_bool_keeps n obj name : keeps n (opt_bool obj name).
Proof. unfold opt_bool. destruct (Has obj name); [apply as_bool_keeps|by apply triple_ret]. Qed.
Lemma read_options_keeps n obj : keeps n (read_options obj).
Proof.
  unfold read_options. do 7 (eapply triple_bind; [apply opt_bool_keeps|intros ?]).
  eapply triple_bind with (M := fun _ => consistent n); [|intros ?; by apply triple_ret].
  destruct (Has obj "maxRead"); [|by apply triple_ret].
  eapply triple_bind; [apply as_number_keeps|]. intros d. by apply triple_ret.
Qed.

Lemma registered_done id p : held p = ∅ ->
  with_lock "sessions_mutex" (registered id) p = Done (bool_decide (id ∈ active_sessions p)) p.
Proof.
  intros Hh. erewrite with_lock_done; [|rewrite Hh; set_solver|reflexivity|done].
  f_equal. rewrite set_held_set_held. apply set_held_held.
Qed.

Lemma log_consistent n p c : consistent n p -> consistent n (set_fuse (add_trace c (fuse p)) p).
Proof. intros []. by split. Qed.
Lemma answer_keeps n cb r f : keeps n (answer cb r f).
Proof.
  destruct cb; [|by apply triple_ret]. intros p Hp. by apply log_consistent.
Qed.

(** A registered manager, as the operations need it. *)
Lemma registered_manager n id p : consistent n p -> id ∈ active_sessions p ->
  exists m se, managers p !! id = Some m /\ fuse_session_ m = Some se /\ is_Some (heap (fuse p) !! se) /\
    sound (fuse p) id m /\ (state_ m = INITIALIZED /\ mount_thread_ m = false \/ state_ m = MOUNTED).
Proof.
  intros Hc Hid. apply (co_registry _ _ Hc) in Hid as [m Hm].
  destruct (co_sound _ _ Hc id m Hm) as (_ & Hs). pose proof Hs as (H1 & H2 & (se & H3 & H4) & H5).
  exists m, se. do 4 (split; [done|]). destruct (state_ m); try done; auto.
Qed.

Lemma Mount_keeps n id p : consistent n p -> id ∈ active_sessions p ->
  exists b p', Mount sys E id p = Done b p' /\ consistent n p'.
Proof.
  intros Hc Hid. destruct (registered_manager n id p Hc Hid) as (m & se & Hm & Hse & Hlive & Hs & Hst).
  pose proof (co_locks _ _ Hc) as Hh.
  pose proof (mount_at p id ∅ m se ltac:(set_solver) Hse Hlive Hst p (conj Hh (touched_refl id m p Hm))) as Hop.
  destruct (Mount sys E id p) as [b p'|p'|w p']; [|done..]. destruct Hop as (Hh' & m' & Hm' & Ht).
  exists b, p'. split; [done|]. eapply touched_consistent; [exact Hc|exact Hm|exact Ht|done|by rewrite Hm'; destruct b|].
  destruct Hs as (H1 & H2 & H3 & H4). destruct b; subst m'; (split; [done|]; split; [done|]; split).
  - exists se. by rewrite (to_heap _ _ _ _ Ht).
  - done.
  - exists se. by rewrite (to_heap _ _ _ _ Ht).
  - done.
Qed.
Lemma Unmount_keeps n id p : consistent n p -> id ∈ active_sessions p ->
  exists p', Unmount false id p = Done true p' /\ consistent n p'.
Proof.
  intros Hc Hid. destruct (registered_manager n id p Hc Hid) as (m & se & Hm & Hse & Hlive & Hs & Hst).
  pose proof (co_locks _ _ Hc) as Hh.
  pose proof (unmount_at p id ∅ m se ltac:(set_solver) Hse Hlive p (conj Hh (touched_refl id m p Hm))) as Hop.
  destruct (Unmount false id p) as [b p'|p'|w p']; [|done..]. destruct Hop as (-> & [Hh' Ht] & _).
  exists p'. split; [done|]. eapply touched_consistent; [exact Hc|exact Hm|exact Ht|done|by unfold stopped; destruct (decide _)|].
  destruct Hs as (H1 & H2 & H3 & H4). unfold stopped. split; [by destruct (decide _)|]. split; [by destruct (decide _)|].
  split; [exists se; rewrite (to_heap _ _ _ _ Ht); by destruct (decide _)|].
  destruct (decide _) as [|Hn]; cbn; [done|]. destruct Hst as [[Hst _]|Hst]; [by rewrite Hst|done].
Qed.

Lemma js_Mount_keeps n info : keeps n (js_Mount sys E info).
Proof.
  unfold js_Mount. destruct (_ || _); [by apply triple_ret|].
  eapply triple_bind; [apply as_number_keeps|]. intros d p Hp.
  step ltac:(by apply registered_done, (co_locks _ _ Hp)).
  destruct (bool_decide_reflect (u64 (Int64Value d) ∈ active_sessions p)) as [Hid|]; cbn [negb].
  - destruct (Mount_keeps n _ p Hp Hid) as (b & p' & Hrun & Hp'). step ltac:(exact Hrun). by apply answer_keeps.
  - by apply answer_keeps.
Qed.
Lemma js_Unmount_keeps n info : keeps n (js_Unmount info).
Proof.
  unfold js_Unmount. destruct (_ || _); [by apply triple_ret|].
  destruct (Get _ _) as [| | |d| | | | | | | |]; try apply answer_keeps. intros p Hp.
  step ltac:(by apply registered_done, (co_locks _ _ Hp)).
  destruct (bool_decide_reflect (u64 (Int64Value d) ∈ active_sessions p)) as [Hid|]; cbn [negb].
  - destruct (Unmount_keeps n _ p Hp Hid) as (p' & Hrun & Hp'). step ltac:(exact Hrun). by apply answer_keeps.
  - by apply answer_keeps.
Qed.

Lemma js_IsReady_keeps n info : keeps n (js_IsReady info).
Proof.
  unfold js_IsReady. destruct (_ <? _)%nat; [by apply triple_ret|].
  eapply triple_bind; [apply as_number_keeps|]. intros d.
  eapply triple_bind with (M := fun _ => consistent n); [|intros b; by apply triple_ret].
  intros p Hp. pose proof (co_locks _ _ Hp) as Hh. set (id := double_to_u64 d).
  assert (exists b, (there ← registered id; if there : bool then is_ready id else mret false)
            (set_held ({["sessions_mutex"]} ∪ held p) p) = Done b (set_held ({["sessions_mutex"]} ∪ held p) p)) as [b Hb].
  { set (q := set_held _ p).
    destruct (bool_decide_reflect (id ∈ active_sessions p)) as [Hid|Hid].
    - destruct (registered_manager n id p Hp Hid) as (m & se & Hm & _). eexists.
      step ltac:(done). change (active_sessions q) with (active_sessions p).
      rewrite bool_decide_true by done. unfold is_ready. erewrite with_lock_done.
      + rewrite set_held_set_held, set_held_held. reflexivity.
      + change (held q) with ({["sessions_mutex"]} ∪ held p). rewrite Hh. set_solver.
      + step ltac:(by apply manager_done). reflexivity.
      + done.
    - exists false. step ltac:(done). change (active_sessions q) with (active_sessions p).
      by rewrite bool_decide_false. }
  erewrite with_lock_done; [|rewrite Hh; set_solver|exact Hb|done].
  by rewrite set_held_set_held, set_held_held.
Qed.

(** Destroying a registered session and its manager. *)
Lemma destroy_keeps n id p :
  consistent n p -> id ∈ active_sessions p ->
  exists p', with_lock "sessions_mutex"
      (there ← registered id;
       if there : bool then
         _ ← Destroy id;
         _ ← pmodify (fun p => set_managers (managers p) (active_sessions p ∖ {[id]}) (next_session_id p) p);
         _ ← delete_SessionManager id;
         mret true
       else mret false) p = Done true p' /\ consistent n p'.
Proof.
  intros Hc Hid. destruct (registered_manager n id p Hc Hid) as (m & se & Hm & Hse & Hlive & Hs & Hst).
  pose proof (co_locks _ _ Hc) as Hh. set (q := set_held ({["sessions_mutex"]} ∪ held p) p).
  destruct (Destroy_done id m q) as (p1 & Hd & [Gl (m' & Gm & Gd & Gt) Ga Gn Gp Gh Gi]).
  { change (held q) with ({["sessions_mutex"]} ∪ held p). rewrite Hh. set_solver. }
  { done. }
  { intros se'. rewrite Hse. by intros [= <-]. }
  { destruct Hst as [[Hst Hth]|Hst]; [right; by rewrite Hst|left; split; [done|by eexists]]. }
  eexists. split.
  - apply with_lock_done; [rewrite Hh; set_solver| |].
    + step ltac:(done). change (active_sessions q) with (active_sessions p). rewrite bool_decide_true by done.
      step ltac:(exact Hd). step ltac:(done).
      step ltac:(apply (delete_done id m'); [cbn; rewrite Gm; apply lookup_insert_eq|done..]). reflexivity.
    + exact Gl.
  - apply (gone_consistent n id m p); [done|done|..]; cbn.
    + done.
    + rewrite Gm. apply delete_insert_eq_delete || by rewrite delete_insert_eq.
    + by rewrite Ga.
    + done.
    + done.
    + exact Gh.
    + exact Gi.
Qed.
Lemma DestroySession_keeps n info : keeps n (DestroySession info).
Proof.
  unfold DestroySession. destruct (_ <? _)%nat; [by apply triple_ret|].
  do 2 (destruct (negb _); [by apply triple_ret|]).
  eapply triple_bind; [apply as_number_keeps|]. intros d.
  eapply triple_bind with (M := fun _ => consistent n); [|intros b; by apply triple_ret].
  intros p Hp. set (id := double_to_u64 d).
  destruct (decide (id ∈ active_sessions p)) as [Hid|Hid].
  - destruct (destroy_keeps n id p Hp Hid) as (p' & Hrun & Hp'). by rewrite Hrun.
  - pose proof (co_locks _ _ Hp) as Hh. erewrite with_lock_done; [|rewrite Hh; set_solver| |].
    + by rewrite set_held_set_held, set_held_held.
    + step ltac:(done). change (active_sessions (set_held _ p)) with (active_sessions p).
      rewrite bool_decide_false by done. reflexivity.
    + done.
Qed.

Lemma delete_begun id m p :
  "state_mutex_" ∉ held p -> managers p !! id = Some m -> state_ m = CREATED -> fuse_session_ m = None ->
  mount_thread_ m = false ->
  exists p', delete_SessionManager id p = Done tt p' /\ held p' = held p /\
    managers p' = delete id (managers p) /\ active_sessions p' = active_sessions p /\
    next_session_id p' = next_session_id p /\ next_ptr (fuse p') = next_ptr (fuse p) /\
    (forall se, is_Some (heap (fuse p') !! se) <-> is_Some (heap (fuse p) !! se)) /\
    (forall se, fuse_instance (fuse p') = Some se -> fuse_instance (fuse p) = Some se).
Proof.
  intros Hh Hm Hst Hse Hth.
  destruct (Destroy_done id m p Hh Hm) as (p1 & Hd & [Gl (m' & Gm & Gd & Gt) Ga Gn Gp Gh Gi]).
  { intros se. by rewrite Hse. }
  { right. by rewrite Hst. }
  cbn in Gh, Gi, Gt. rewrite Hse in Gh, Gi.
  eexists. split.
  - unfold delete_SessionManager. step ltac:(by apply manager_done).
    rewrite Hst, bool_decide_true by done. step ltac:(exact Hd).
    step ltac:(apply manager_done; rewrite Gm; apply lookup_insert_eq). rewrite Gt. reflexivity.
  - cbn. split; [done|]. split; [by rewrite Gm, delete_insert_eq|]. do 3 (split; [done|]).
    split; [intros se; rewrite Gh; naive_solver|]. intros se H1. by apply Gi in H1 as [].
Qed.

(** A manager that came and went. *)
Lemma abandoned_consistent n id p p' :
  consistent n p -> id = next_session_id p -> n + 1 < 2 ^ 64 ->
  held p' = ∅ -> managers p' = managers p -> active_sessions p' = active_sessions p ->
  next_session_id p' = u64 (id + 1) -> next_ptr (fuse p') = next_ptr (fuse p) ->
  (forall se, is_Some (heap (fuse p') !! se) <-> is_Some (heap (fuse p) !! se)) ->
  (forall se, fuse_instance (fuse p') = Some se -> fuse_instance (fuse p) = Some se) -> consistent (n + 1) p'.
Proof.
  intros [Hl Hr Hn Hs Ha Ho Hf Hi] -> Hsmall Gl Gm Ga Gn Gp Gh Gi.
  rewrite wrapu_small in Gn by (unfold in_u; lia). split; [done|..].
  - intros id. by rewrite Ga, Gm.
  - lia.
  - intros id m. rewrite Gm, Gn. intros Hm. destruct (Hs id m Hm) as (? & H1 & H2 & (se & H3 & H4) & H5).
    split; [lia|]. do 2 (split; [done|]). split; [|done]. exists se. by rewrite Gh.
  - intros i1 i2 m1 m2. rewrite Gm. apply Ha.
  - intros se. rewrite Gh, Gm. apply Ho.
  - intros se. rewrite Gh, Gp. apply Hf.
  - intros se Hse. rewrite Gh. by apply Hi, Gi.
Qed.

Lemma CreateSession_keeps n info : n + 1 < 2 ^ 64 ->
  triple (consistent n) (CreateSession sys E info) (fun _ => consistent (n + 1)) (consistent (n + 1)).
Proof.
  intros Hsmall. assert (forall p, consistent n p -> consistent (n + 1) p) as Hmono.
  { intros p. apply consistent_mono. lia. }
  unfold CreateSession. destruct (_ <? _)%nat; [by apply triple_ret; auto|].
  do 2 (destruct (negb _); [by apply triple_ret; auto|]).
  eapply triple_bind; [eapply triple_mono; [apply (read_options_keeps n)|done|intros ? ? Hx; exact Hx|exact Hmono]|].
  intros options p Hp. unfold new_SessionManager. pose proof (co_locks _ _ Hp) as Hh.
  set (id := next_session_id p). set (mp := GetString _).
  erewrite bind_done; [|step ltac:(done); step ltac:(done); reflexivity].
  fold id. set (m0 := {| mountpoint_ := mp |}). set (p1 := set_managers _ _ _ p).
  assert (managers p !! id = None) as Hfresh.
  { destruct (managers p !! id) as [m'|] eqn:Hm'; [|done]. destruct (co_sound _ _ Hp id m' Hm'). subst id. lia. }
  destruct (initialize_done id m0 p1) as (b & p2 & m2 & Hi & [Bl Bm Ba Bn Bi Bt Bs] & Hid);
    [change (held p1) with (held p); rewrite Hh; set_solver|apply lookup_insert_eq|done..|].
  cbn in Bm. rewrite insert_insert_eq in Bm.
  step ltac:(exact Hi). destruct b; cbn [negb].
  - destruct Bs as (M1 & M2 & M3 & M4 & M5). erewrite bind_done.
    2: { apply with_lock_done; [|reflexivity|reflexivity]. rewrite Bl. change (held p1) with (held p). rewrite Hh. set_solver. }
    apply (begun_consistent n id m2 p); cbn; try done.
    + change (held p2 = ∅). by rewrite Bl.
    + by rewrite Ba.
  - destruct Bs as (M1 & M2 & M3 & M4).
    destruct (delete_begun id m2 p2) as (p3 & Hd & Dl & Dm & Da & Dn & Dp & Dh & Di); try done.
    { rewrite Bl. change (held p1) with (held p). rewrite Hh. set_solver. }
    { rewrite Bm. apply lookup_insert_eq. }
    step ltac:(exact Hd). apply (abandoned_consistent n id p); try done.
    + rewrite Dl, Bl. done.
    + by rewrite Dm, Bm, delete_insert_eq, delete_id.
    + by rewrite Da, Ba.
    + by rewrite Dn, Bn.
    + by rewrite Dp, M3.
    + intros se. by rewrite Dh, M4.
    + intros se H1. apply Di in H1. by rewrite Bi in H1.
Qed.

Lemma js_call_keeps n f info : n + 1 < 2 ^ 64 ->
  triple (consistent n) (js_call sys E f info) (fun _ => consistent (n + 1)) (consistent (n + 1)).
Proof.
  intros Hn. assert (forall p, consistent n p -> consistent (n + 1) p) as Hmono.
  { intros p. apply consistent_mono. lia. }
  destruct f; [by apply CreateSession_keeps|..].
  - eapply triple_mono; [apply (DestroySession_keeps n)|auto..].
  - eapply triple_mono; [apply (js_Mount_keeps n)|auto..].
  - eapply triple_mono; [apply (js_Unmount_keeps n)|auto..].
  - eapply triple_mono; [apply (js_IsReady_keeps n)|auto..].
Qed.
Lemma js_run_keeps l : forall n p, consistent n p -> n + lenZ l < 2 ^ 64 ->
  exists p', js_run sys E l p = Done tt p' /\ consistent (n + lenZ l) p'.
Proof.
  induction l as [|[f info] l IH]; intros n p Hp Hn.
  { exists p. split; [done|]. by rewrite Z.add_0_r. }
  rewrite lenZ_cons in Hn |- *. pose proof (lenZ_nonneg l). cbn [js_run].
  pose proof (js_call_keeps n f info ltac:(lia) p Hp) as Hc.
  rewrite Z.add_assoc. destruct (js_call sys E f info p); [apply IH; [done|lia]..|done].
Qed.

Lemma no_sessions_consistent : consistent 1 no_sessions.
Proof.
  split; cbn; [done| |done|done|done| | |done].
  - intros id. rewrite lookup_empty. split; [set_solver|by intros []].
  - intros se. rewrite lookup_empty. by intros [].
  - intros se. rewrite lookup_empty. by intros [].
Qed.


(** ** Mounting again *)

(** Only a session that [CreateSession] has initialised can be mounted: the
    initialisation in Mount locks the mutex that Mount holds. *)
Lemma mount_of_created_hangs id m p :
  "state_mutex_" ∉ held p -> managers p !! id = Some m -> state_ m = CREATED ->
  exists p', Mount sys E id p = Stuck "state_mutex_" p'.
Proof.
  intros Hh Hm Hst. unfold Mount. rewrite with_lock_free by done. set (q := set_held _ p).
  erewrite bind_done; [|by apply (manager_done id q)]. rewrite Hst, bool_decide_false, bool_decide_true by done.
  unfold mbind at 1, prog_bind at 1. unfold Initialize. rewrite with_lock_owned; [by eexists|].
  unfold q. rewrite held_set_held. set_solver.
Qed.

Lemma unmount_exits id m se p :
  held p = ∅ -> managers p !! id = Some m -> state_ m = MOUNTED -> fuse_session_ m = Some se ->
  is_Some (heap (fuse p) !! se) -> exists p', Unmount false id p = Done true p' /\ exited se (fuse p').
Proof.
  intros Hh Hm Hst Hse [x Hx].
  pose proof (unmount_at p id ∅ m se ltac:(set_solver) Hse (ex_intro _ x Hx) p (conj Hh (touched_refl id m p Hm))) as Hu.
  destruct (Unmount false id p) as [b p'|p'|w p'] eqn:Hun; [|done..]. destruct Hu as (-> & _ & He).
  exists p'. split; [done|]. by apply He.
Qed.

Lemma exited_done se l : exited se l -> fuse_session_exited se l = Done true l.
Proof.
  intros (x & Hx & He). unfold fuse_session_exited. step ltac:(by apply get_se_done). by rewrite He.
Qed.

(** C34: a session that was unmounted can be mounted again, mount answers true
    and isReady too, and nothing is ever served: the exit flag unmount has set is
    never reset, so the new loop ends before it reads. *)
Theorem remount_serves_nothing n id p m b p2 :
  consistent n p -> managers p !! id = Some m -> state_ m = MOUNTED ->
  exists p1, Unmount false id p = Done true p1 /\
  (Mount sys E id p1 = Done b p2 -> b = true ->
   exists m2, managers p2 !! id = Some m2 /\ state_ m2 = MOUNTED /\ is_ready id p2 = Done true p2 /\
     forall poll running rounds reads,
       RunFuseLoop sys poll running (S rounds) reads m2 (fuse p2) = Done tt (fuse p2)).
Proof.
  intros Hc Hm Hst. pose proof (co_locks _ _ Hc) as Hh.
  assert (id ∈ active_sessions p) as Hid by (apply (co_registry _ _ Hc); by exists m).
  destruct (co_sound _ _ Hc id m Hm) as (_ & _ & _ & (se & Hse & Hlive) & _).
  destruct (unmount_exits id m se p Hh Hm Hst Hse Hlive) as (p1 & Hun & Hex).
  exists p1. split; [done|]. intros Hmt ->.
  pose proof (unmount_at p id ∅ m se ltac:(set_solver) Hse Hlive p (conj Hh (touched_refl id m p Hm))) as Hu.
  rewrite Hun in Hu. destruct Hu as (_ & [Hh1 Ht1] & _).
  set (m1 := stopped m). assert (managers p1 !! id = Some m1) as Hm1.
  { rewrite (to_managers _ _ _ _ Ht1). apply lookup_insert_eq. }
  assert (fuse_session_ m1 = Some se /\ state_ m1 = INITIALIZED /\ mount_thread_ m1 = false) as (Hs1 & Hi1 & Hth1).
  { unfold m1, stopped. by rewrite decide_True. }
  assert (is_Some (heap (fuse p1) !! se)) as Hlive1 by by apply (to_heap _ _ _ _ Ht1).
  pose proof (mount_at p1 id ∅ m1 se ltac:(set_solver) Hs1 Hlive1 (or_introl (conj Hi1 Hth1)) p1
    (conj Hh1 (touched_refl id m1 p1 Hm1))) as Hop.
  rewrite Hmt in Hop. destruct Hop as (Hh2 & m2 & -> & Ht2).
  assert (managers p2 !! id = Some (mounted m1)) as Hm2.
  { rewrite (to_managers _ _ _ _ Ht2). apply lookup_insert_eq. }
  exists (mounted m1). split; [done|]. split; [done|]. split.
  - unfold is_ready. erewrite with_lock_done; [|set_solver|step ltac:(by apply manager_done); reflexivity|done].
    rewrite set_held_set_held, set_held_held.
    change (Done (bool_decide (MOUNTED = MOUNTED) && bool_decide (is_Some (fuse_session_ m1))) p2 = Done true p2).
    by rewrite Hs1.
  - intros poll running rounds reads. unfold RunFuseLoop.
    change (fuse_session_ (mounted m1)) with (fuse_session_ m1). rewrite Hs1. cbn [fuse_loop].
    step ltac:(done). step ltac:(by apply exited_done, (to_exited _ _ _ _ Ht2)). by rewrite orb_true_r.
Qed.
End Facts.

(** ** The loop *)

Section Loop.
Context (sys : system) (poll : list sys_call -> poll_result) (running : list sys_call -> bool).

(** What a round adds to a trace [t]: a poll; the buffer, reads, processing and
    release of a request the device answered; or the same without a request, when
    the buffer is never released. *)
Inductive round (t : list sys_call) : list sys_call -> Prop :=
  | idle_round : round t [Polled]
  | served_round fd size k data :
      (read_device sys (t ++ [Polled; Malloc size] ++ replicate k (ReadDevice fd size)) size).1 = inr data ->
      in_header_size <= lenZ data ->
      round t ([Polled; Malloc size] ++ replicate (S k) (ReadDevice fd size) ++ [Processed data; FreeBuf])
  | lost_round fd size k : round t ([Polled; Malloc size] ++ replicate k (ReadDevice fd size)).
Inductive rounds_of (t : list sys_call) : list sys_call -> Prop :=
  | no_round : rounds_of t []
  | more_rounds r d : round t r -> rounds_of (t ++ r) d -> rounds_of t (r ++ d).

Definition requests (d : list sys_call) : list (list Z) :=
  omap (fun c => match c with Processed data => Some data | _ => None end) d.
Definition buffers (d : list sys_call) : nat :=
  length (omap (fun c => match c with Malloc n => Some n | _ => None end) d).
Definition released (d : list sys_call) : nat :=
  length (omap (fun c => match c with FreeBuf => Some tt | _ => None end) d).

(** The session keeps its descriptor and buffer size. *)
Definition same_device (se : nat) (fd size : Z) (l : lib) : Prop :=
  exists x, heap l !! se = Some x /\ se_fd x = fd /\ se_bufsize x = size.

Lemma exit_device se fd size l : same_device se fd size l ->
  exists l', fuse_session_exit se l = Done tt l' /\ same_device se fd size l' /\ trace l' = trace l.
Proof.
  intros (x & Hx & Hfd & Hsz). eexists. split; [by apply put_se_done|]. split; [|done].
  eexists. split; [cbn; by rewrite lookup_insert_eq|done].
Qed.
Lemma maybe_exit_device (b : bool) se fd size l : same_device se fd size l ->
  exists l', (if b then fuse_session_exit se else mret tt) l = Done tt l' /\ same_device se fd size l' /\ trace l' = trace l.
Proof. intros Hd. destruct b; [by apply exit_device|by exists l]. Qed.

Context (N : nat).
(** By the time the trace has [N] calls, the loop has been told to stop and the
    device no longer answers that a request was interrupted. *)
Hypothesis stops : forall t, (N <= length t)%nat -> running t = false.
Hypothesis errors : forall t size err, (read_device sys t size).1 = inl err -> 0 < err.
Hypothesis patience : forall t size, (N <= length t)%nat -> (read_device sys t size).1 <> inl ENOENT.

Lemma receive_again_spec fuel se fd size l :
  same_device se fd size l -> (0 < fuel)%nat -> (N < fuel + length (trace l))%nat ->
  exists k res data l',
    receive_again sys fuel se size l = Done (res, data) l' /\ same_device se fd size l' /\
    trace l' = trace l ++ replicate k (ReadDevice fd size) /\
    (0 < res -> in_header_size <= lenZ data /\ exists k', k = S k' /\
       (read_device sys (trace l ++ replicate k' (ReadDevice fd size)) size).1 = inr data).
Proof.
  revert l. induction fuel as [|fuel IH]; intros l Hd H0 Hf; [lia|]. cbn [receive_again].
  destruct Hd as (x & Hx & Hfd & Hsz). unfold fuse_session_fd at 1.
  erewrite bind_done; [|step ltac:(by apply get_se_done); reflexivity]. cbv beta. rewrite Hfd.
  step ltac:(done). destruct (read_device sys (trace l) size) as [r ended] eqn:Hr.
  step ltac:(done). set (l1 := add_trace (ReadDevice fd size) l).
  destruct (maybe_exit_device ended se fd size l1) as (l2 & Hl2 & Hd2 & Ht2); [by exists x|].
  step ltac:(exact Hl2). pose proof Hd2 as (x2 & Hx2 & _).
  unfold fuse_session_exited at 1. erewrite bind_done; [|step ltac:(by apply get_se_done); reflexivity].
  assert (trace l2 = trace l ++ replicate 1 (ReadDevice fd size)) as Ht2' by (rewrite Ht2; done).
  destruct (se_mt_exited x2); [by exists 1%nat, 0, [], l2|].
  destruct r as [err|data].
  - destruct (Z.eqb_spec err ENOENT) as [->|].
    + assert (length (trace l) < N)%nat.
      { apply not_ge. intros Hge. apply (patience (trace l) size); [lia|]. by rewrite Hr. }
      assert (length (trace l2) = S (length (trace l))) as Hlen by (rewrite Ht2', length_app; simpl; lia).
      destruct (IH l2 Hd2 ltac:(lia) ltac:(lia)) as (k & res & data & l' & Hrun & Hd' & Ht' & Hdata).
      exists (S k), res, data, l'. split; [done|]. split; [done|]. rewrite Ht2', <- app_assoc in Ht'.
      split; [exact Ht'|]. intros Hres. destruct (Hdata Hres) as (H1 & k' & -> & H2). split; [done|].
      exists (S k'). split; [done|]. rewrite Ht2', <- app_assoc in H2. exact H2.
    + assert (0 < err) as Herr by (apply (errors (trace l) size); by rewrite Hr).
      destruct (err =? ENODEV).
      * destruct (exit_device se fd size l2 Hd2) as (l3 & Hl3 & Hd3 & Ht3).
        exists 1%nat, 0, [], l3. split; [by step ltac:(exact Hl3)|]. split; [done|]. split; [congruence|done].
      * exists 1%nat, (- err), [], l2. do 3 (split; [done|]). lia.
  - destruct (Z.ltb_spec (lenZ data) in_header_size).
    + exists 1%nat, (- EIO), [], l2. do 3 (split; [done|]). lia.
    + exists 1%nat, (lenZ data), data, l2. do 3 (split; [done|]). intros _. split; [done|].
      exists 0%nat. split; [done|]. simpl. by rewrite app_nil_r, Hr.
Qed.

(** A request served, or a buffer lost. *)
Lemma serve_spec fuel se fd size l t :
  same_device se fd size l -> (0 < fuel)%nat -> (N < fuel + length (trace l))%nat -> trace l = t ++ [Polled] ->
  exists b r l', serve sys running se fuel l = Done b l' /\ same_device se fd size l' /\
    trace l' = t ++ r /\ round t r.
Proof.
  intros Hd H0 Hf Ht. unfold serve, fuse_session_receive_buf. pose proof Hd as (x & Hx & Hfd & Hsz).
  destruct (malloc_ok sys (trace l)) eqn:Hm.
  - set (l1 := add_trace (Malloc size) l).
    assert (trace l1 = t ++ [Polled; Malloc size]) as Ht1 by (unfold l1; cbn; by rewrite Ht, <- app_assoc).
    destruct (receive_again_spec fuel se fd size l1) as (k & res & data & l2 & Hrun & Hd2 & Ht2 & Hdata); [done|done| |].
    { rewrite Ht1. rewrite Ht in Hf. rewrite length_app in *. simpl in *. lia. }
    erewrite bind_done.
    2: { step ltac:(by apply get_se_done). step ltac:(done). rewrite Hm. cbn [negb andb]. rewrite Hsz.
         step ltac:(done). step ltac:(exact Hrun). reflexivity. }
    cbn [fst snd]. rewrite Ht1, <- app_assoc in Ht2.
    destruct (Z.leb_spec res 0).
    + pose proof Hd2 as (x2 & Hx2 & _). eexists _, _, l2. split; [|split; [done|split; [exact Ht2|constructor]]].
      step ltac:(done). unfold fuse_session_exited. erewrite bind_done; [|step ltac:(by apply get_se_done); reflexivity].
      reflexivity.
    + destruct (Hdata ltac:(lia)) as (H1 & k' & -> & H2). eexists true, _, _. split; [reflexivity|].
      split; [exact Hd2|]. split.
      * cbn [trace add_trace]. rewrite Ht2, <- !app_assoc. reflexivity.
      * rewrite Ht1, <- app_assoc in H2. by apply (served_round t fd size k' data).
  - exists false, [Polled], l. split; [|split; [done|split; [done|constructor]]].
    erewrite bind_done.
    2: { step ltac:(by apply get_se_done). step ltac:(done). rewrite Hm. reflexivity. }
    cbv beta iota. change (- ENOMEM <=? 0) with true. cbv iota.
    step ltac:(done). unfold fuse_session_exited. erewrite bind_done; [|step ltac:(by apply get_se_done); reflexivity]. reflexivity.
Qed.

Lemma loop_spec rounds reads se fd size l :
  same_device se fd size l -> (0 < rounds)%nat -> (N < rounds + length (trace l))%nat -> (N < reads)%nat ->
  exists d l', fuse_loop sys poll running rounds reads se l = Done tt l' /\ same_device se fd size l' /\
    trace l' = trace l ++ d /\ rounds_of (trace l) d.
Proof.
  revert l. induction rounds as [|rounds IH]; intros l Hd H0 Hn Hreads; [lia|]. cbn [fuse_loop].
  pose proof Hd as (x & Hx & Hfd & Hsz). step ltac:(done). unfold fuse_session_exited.
  erewrite bind_done; [|step ltac:(by apply get_se_done); reflexivity].
  assert (exists d l', Done tt l = Done tt l' /\ same_device se fd size l' /\ trace l' = trace l ++ d /\
            rounds_of (trace l) d) as Hstop.
  { exists [], l. split; [done|]. split; [done|]. rewrite app_nil_r. split; [done|constructor]. }
  destruct (running (trace l)) eqn:Hrun; [|exact Hstop]. destruct (se_mt_exited x); [exact Hstop|]. cbn [negb orb].
  assert (length (trace l) < N)%nat as Hlt.
  { apply not_ge. intros Hge. rewrite stops in Hrun; [done|lia]. }
  step ltac:(done). set (l1 := add_trace Polled l).
  (* The rounds after one that added [r]. *)
  assert (forall r l2, trace l2 = trace l ++ r -> r <> [] -> same_device se fd size l2 -> round (trace l) r ->
            exists d l', fuse_loop sys poll running rounds reads se l2 = Done tt l' /\ same_device se fd size l' /\
              trace l' = trace l ++ d /\ rounds_of (trace l) d) as Hmore.
  { intros r l2 Ht2 Hr Hd2 Hround. assert (0 < length r)%nat by (destruct r; [done|simpl; lia]).
    destruct (IH l2 Hd2) as (d & l' & H1 & H2 & H3 & H4); [lia|rewrite Ht2, length_app; lia|done|].
    exists (r ++ d), l'. rewrite app_assoc. rewrite Ht2 in H3, H4. split_and!; try done. by constructor. }
  assert (exists d l', Done tt l1 = Done tt l' /\ same_device se fd size l' /\ trace l' = trace l ++ d /\
            rounds_of (trace l) d) as Hlast.
  { exists [Polled], l1. split; [done|]. split; [by exists x|]. split; [done|].
    apply (more_rounds (trace l) [Polled] []); constructor. }
  assert (exists d l', fuse_loop sys poll running rounds reads se l1 = Done tt l' /\ same_device se fd size l' /\
            trace l' = trace l ++ d /\ rounds_of (trace l) d) as Hidle.
  { apply (Hmore [Polled] l1); [done|done|by exists x|constructor]. }
  destruct (poll (trace l)) as [err| |pollin].
  - destruct (err =? EINTR); [exact Hidle|exact Hlast].
  - exact Hidle.
  - destruct pollin; [|exact Hidle].
    destruct (serve_spec reads se fd size l1 (trace l)) as (b & r & l2 & Hs & Hd2 & Ht2 & Hr); [by exists x|lia| |done|].
    { lia. }
    step ltac:(exact Hs). destruct b.
    + apply (Hmore r l2); [done| |done|done]. by destruct Hr.
    + exists r, l2. split; [done|]. split; [done|]. split; [done|].
      rewrite <- (app_nil_r r). apply more_rounds; [done|constructor].
Qed.

Lemma round_counts t r : round t r ->
  (released r <= buffers r)%nat /\ length (requests r) = released r /\
  Forall (fun data => in_header_size <= lenZ data) (requests r).
Proof.
  assert (forall k fd size, omap (fun c => match c with Malloc n => Some n | _ => None end) (replicate k (ReadDevice fd size)) = []) as H1
    by (intros; induction k; done).
  assert (forall k fd size, omap (fun c => match c with FreeBuf => Some tt | _ => None end) (replicate k (ReadDevice fd size)) = []) as H2
    by (intros; induction k; done).
  assert (forall k fd size, requests (replicate k (ReadDevice fd size)) = []) as H3
    by (intros; induction k; done).
  unfold released, buffers. intros [|fd size k data Hr Hlen|fd size k].
  - repeat constructor.
  - rewrite !omap_app. unfold requests in *. rewrite !omap_app, H1, H2, H3. cbn. repeat constructor. done.
  - rewrite !omap_app. unfold requests in *. rewrite !omap_app, H1, H2, H3. cbn. repeat constructor.
Qed.
Lemma rounds_counts t d : rounds_of t d ->
  (released d <= buffers d)%nat /\ length (requests d) = released d /\
  Forall (fun data => in_header_size <= lenZ data) (requests d).
Proof.
  induction 1 as [|t r d Hr _ (H1 & H2 & H3)]; [repeat constructor|].
  destruct (round_counts t r Hr) as (H4 & H5 & H6). unfold released, buffers, requests in *.
  rewrite !omap_app, !length_app. split; [lia|]. split; [lia|]. by apply Forall_app.
Qed.
End Loop.

(** The loop ends once it has been told to stop, in rounds that each poll and
    at most serve one request: the bytes the device answered are processed once, in
    order, and their buffer is released; a round whose reading gives no request never
    releases the buffer it allocated. *)
Theorem loop_serves_requests sys poll running N rounds reads m se l :
  (forall t, (N <= length t)%nat -> running t = false) ->
  (forall t size err, (read_device sys t size).1 = inl err -> 0 < err) ->
  (forall t size, (N <= length t)%nat -> (read_device sys t size).1 <> inl ENOENT) ->
  fuse_session_ m = Some se -> is_Some (heap l !! se) -> (N < rounds)%nat -> (N < reads)%nat ->
  exists d l', RunFuseLoop sys poll running rounds reads m l = Done tt l' /\
    trace l' = trace l ++ d /\ rounds_of sys (trace l) d /\
    length (requests d) = released d /\ (released d <= buffers d)%nat /\
    Forall (fun data => in_header_size <= lenZ data) (requests d).
Proof.
  intros Hstop Herr Hpat Hse [x Hx] Hrounds Hreads. unfold RunFuseLoop. rewrite Hse.
  destruct (loop_spec sys poll running N Hstop Herr Hpat rounds reads se (se_fd x) (se_bufsize x) l) as
    (d & l' & H1 & _ & H3 & H4); [by exists x|lia|lia|done|].
  destruct (rounds_counts sys _ _ H4) as (H5 & H6 & H7). exists d, l'. by split_and!.
Qed.

(** ** A mount, and requests *)

Definition demo_system : system := {|
  strdup_ok _ := true; malloc_ok _ := true; kern_mount _ _ := Some 7; fd_is_open _ _ := true;
  read_device t _ := (if (length t <? 4)%nat then inr (replicate 56 0) else inl EINTR, false);
|}.
Definition demo_environment : environment := {|
  bridge_initializes _ := true; parse_cmdline args := Some args; session_new_ok _ := true; default_bufsize := 4096;
|}.
Definition handle (id : Z) : list js := [JObject [("id"%string, JNumber (DFin id 0))]].
Definition demo_calls : list (js_function * list js) :=
  [(FCreateSession, [JObject [("mountpoint"%string, JString "/mnt")]]); (FMount, handle 1)].
Definition state_after (o : outcome process unit) : process :=
  match o with Done _ p | Throws p | Stuck _ p => p end.
Definition demo_process : process :=
  state_after (@js_run demo_system demo_environment napi_ref demo_calls no_sessions).

Lemma demo_consistent : consistent 3 demo_process.
Proof.
  destruct (@js_run_keeps demo_system demo_environment napi_ref demo_calls 1 no_sessions) as (p & Hrun & Hc).
  - apply no_sessions_consistent.
  - vm_compute. reflexivity.
  - unfold demo_process. rewrite Hrun. exact Hc.
Qed.


Definition demo_manager : SessionManager :=
  default {| mountpoint_ := ""; options_ := {| debug := false; foreground := false; single_threaded := false;
    allow_other := false; allow_root := false; auto_unmount := false; max_read := 0; max_write := 0;
    install_signal_handlers := false |}; session_id_ := 0; state_ := CREATED; fuse_session_ := None;
    bridge_ := false; mount_thread_ := false; mount_thread_running_ := false |} (managers demo_process !! 1).
Definition demo_unmounted : process := state_after ((_ ← Unmount false 1; mret tt) demo_process).
Definition demo_remounted : process :=
  state_after ((_ ← Mount demo_system demo_environment 1; mret tt) demo_unmounted).
Lemma remount_serves_nothing_witness : exists m2,
  managers demo_remounted !! 1 = Some m2 /\ state_ m2 = MOUNTED /\
  forall poll running rounds reads,
    RunFuseLoop demo_system poll running (S rounds) reads m2 (fuse demo_remounted) = Done tt (fuse demo_remounted).
Proof.
  assert (managers demo_process !! 1 = Some demo_manager) as Hm by (vm_compute; reflexivity).
  assert (state_ demo_manager = MOUNTED) as Hst by (vm_compute; reflexivity).
  destruct (remount_serves_nothing demo_system demo_environment 3 1 demo_process demo_manager true demo_remounted
    demo_consistent Hm Hst) as (p1 & Hun & Hmount).
  assert (demo_unmounted = p1) as <-.
  { unfold demo_unmounted, mbind, prog_bind. rewrite Hun. reflexivity. }
  destruct Hmount as (m2 & H1 & H2 & _ & H3); [vm_compute; reflexivity|reflexivity|].
  exists m2. split; [exact H1|]. split; [exact H2|exact H3].
Defined.

Lemma loop_serves_requests_witness : exists d l',
  RunFuseLoop demo_system (fun _ => PollReady true) (fun t => (length t <? 10)%nat) 20 20 demo_manager
    (fuse demo_process) = Done tt l' /\
  trace l' = trace (fuse demo_process) ++ d /\ length (requests d) = released d.
Proof.
  destruct (loop_serves_requests demo_system (fun _ => PollReady true) (fun t => (length t <? 10)%nat) 10 20 20
    demo_manager 0 (fuse demo_process)) as (d & l' & H1 & H2 & _ & H3 & _).
  - intros t Ht. apply Nat.ltb_ge. exact Ht.
  - intros t size err. unfold demo_system; cbn [read_device]. destruct (length t <? 4)%nat; cbn [fst]; [congruence|]. intros [= <-]. reflexivity.
  - intros t size Ht. unfold demo_system; cbn [read_device]. destruct (length t <? 4)%nat; cbn [fst]; discriminate.
  - vm_compute. reflexivity.
  - exists (set_mount 7 (Some "/mnt"%string) (fresh_session 4096 ["fuse-native"%string])). vm_compute. reflexivity.
  - lia.
  - lia.
  - exists d, l'. split; [exact H1|]. split; [exact H2|exact H3].
Defined.
