(* ===== verification/BufCopy.v ===== *)
(** * lib/buffer.c: copying between buffer vectors

    [fuse_buf_copy] and everything below it.  The file descriptors are behind
    the class [FileIO]: [read]/[pread], [write]/[pwrite] and [splice] on a world
    [W]; its laws are what the manual pages promise.  An access outside a
    buffer's memory is [Throws]. *)
From S2P Require Import Prelude Errno Sys FuseBuf.

(** A descriptor operation fails with an errno value or returns a result. *)
Definition io_result (A : Type) : Type := (Z + A)%type.

(** [pos = None] is the descriptor's own file offset ([read], [write]),
    [Some p] an explicit one ([pread], [pwrite]). *)
Class FileIO (W : Type) := {
  io_read : Z -> option Z -> Z -> W -> io_result (list Z) * W;
  io_write : Z -> option Z -> list Z -> W -> io_result Z * W;
  io_splice : Z -> option Z -> Z -> option Z -> Z -> Z -> W -> io_result Z * W;
}.
(** A result is an [errno] value or a count of at most [len]. *)
Definition count_upto (len : Z) (r : io_result Z) : Prop :=
  match r with inl e => 0 < e | inr n => 0 <= n <= len end.
Class FileIOLaws (W : Type) `{FileIO W} := {
  io_read_ok : forall fd pos len w r w', 0 <= len -> io_read fd pos len w = (r, w') ->
    match r with inl e => 0 < e | inr bytes => lenZ bytes <= len end;
  io_write_ok : forall fd pos data w r w', io_write fd pos data w = (r, w') -> count_upto (lenZ data) r;
  io_splice_ok : forall sfd sp dfd dp len fl w r w', 0 <= len ->
    io_splice sfd sp dfd dp len fl w = (r, w') -> count_upto len r;
}.

Abbreviation FUSE_BUF_NO_SPLICE := 2 (only parsing).
Abbreviation FUSE_BUF_FORCE_SPLICE := 4 (only parsing).
Abbreviation FUSE_BUF_SPLICE_MOVE := 8 (only parsing).
Abbreviation FUSE_BUF_SPLICE_NONBLOCK := 16 (only parsing).
Abbreviation SPLICE_F_MOVE := 1 (only parsing).
Abbreviation SPLICE_F_NONBLOCK := 2 (only parsing).

Definition min_size (s1 s2 : Z) : Z := if s1 <? s2 then s1 else s2.

(** [len] bytes at [mem + off]. *)
Definition mem_read (b : fuse_buf) (off len : Z) : option (list Z) :=
  match buf_mem b with
  | Some m => if (0 <=? off) && (off + len <=? lenZ m)
              then Some (take (Z.to_nat len) (drop (Z.to_nat off) m)) else None
  | None => None
  end.
Definition set_mem (m : list Z) (b : fuse_buf) : fuse_buf :=
  {| buf_size := buf_size b; buf_flags := buf_flags b; buf_mem := Some m; buf_fd := buf_fd b;
     buf_pos := buf_pos b; buf_mem_size := buf_mem_size b |}.
Definition splice_list (m : list Z) (off : Z) (bytes : list Z) : list Z :=
  take (Z.to_nat off) m ++ bytes ++ drop (Z.to_nat off + length bytes) m.
Definition mem_write (b : fuse_buf) (off : Z) (bytes : list Z) : option fuse_buf :=
  match buf_mem b with
  | Some m => if (0 <=? off) && (off + lenZ bytes <=? lenZ m)
              then Some (set_mem (splice_list m off bytes) b) else None
  | None => None
  end.
Definition checked {W A} (o : option A) : prog W A :=
  match o with Some a => mret a | None => pthrow end.
Definition io {W A} (f : W -> A * W) : prog W A := fun w => let '(a, w') := f w in Done a w'.

Section Copy.
Context `{FileIO W}.
(** Whether the library was built with [splice(2)]. *)
Variable HAVE_SPLICE : bool.

Definition fd_pos (b : fuse_buf) (off : Z) : option Z :=
  if has_flag (buf_flags b) FUSE_BUF_FD_SEEK then Some (buf_pos b + off) else None.

(** The loops consume [len]; every round moves at least a byte, so [len] rounds
    are enough. *)
Fixpoint fuse_buf_write (fuel : nat) (dst : fuse_buf) (dst_off : Z) (src : fuse_buf)
    (src_off len copied : Z) : prog W Z :=
  if len =? 0 then mret copied else
  match fuel with
  | O => mret copied
  | S fuel' =>
      data ← checked (mem_read src src_off len);
      res ← io (io_write (buf_fd dst) (fd_pos dst dst_off) data);
      match res with
      | inl errno => mret (if copied =? 0 then - errno else copied)
      | inr res =>
          if res =? 0 then mret copied
          else if negb (has_flag (buf_flags dst) FUSE_BUF_FD_RETRY) then mret (copied + res)
          else fuse_buf_write fuel' dst (dst_off + res) src (src_off + res) (len - res) (copied + res)
      end
  end.

Fixpoint fuse_buf_read (fuel : nat) (dst : fuse_buf) (dst_off : Z) (src : fuse_buf)
    (src_off len copied : Z) : prog W (Z * fuse_buf) :=
  if len =? 0 then mret (copied, dst) else
  match fuel with
  | O => mret (copied, dst)
  | S fuel' =>
      res ← io (io_read (buf_fd src) (fd_pos src src_off) len);
      match res with
      | inl errno => mret (if copied =? 0 then - errno else copied, dst)
      | inr bytes =>
          if lenZ bytes =? 0 then mret (copied, dst)
          else
            dst' ← checked (mem_write dst dst_off bytes);
            let copied := copied + lenZ bytes in
            if negb (has_flag (buf_flags src) FUSE_BUF_FD_RETRY) then mret (copied, dst')
            else fuse_buf_read fuel' dst' (dst_off + lenZ bytes) src (src_off + lenZ bytes)
                   (len - lenZ bytes) copied
      end
  end.

(** [char buf[4096]] *)
Definition bounce : fuse_buf :=
  {| buf_size := 4096; buf_flags := 0; buf_mem := Some (replicate 4096 0); buf_fd := 0; buf_pos := 0;
     buf_mem_size := 0 |}.

Fixpoint fuse_buf_fd_to_fd (fuel : nat) (dst : fuse_buf) (dst_off : Z) (src : fuse_buf)
    (src_off len copied : Z) (tmp : fuse_buf) : prog W Z :=
  if len =? 0 then mret copied else
  match fuel with
  | O => mret copied
  | S fuel' =>
      let this_len := min_size (buf_size tmp) len in
      r ← fuse_buf_read (Z.to_nat this_len) tmp 0 src src_off this_len 0;
      let '(res, tmp) := r : Z * fuse_buf in
      if res <? 0 then mret (if copied =? 0 then res else copied)
      else if res =? 0 then mret copied
      else
        res ← fuse_buf_write (Z.to_nat res) dst dst_off tmp 0 res 0;
        if res <? 0 then mret (if copied =? 0 then res else copied)
        else if res =? 0 then mret copied
        else if res <? this_len then mret (copied + res)
        else fuse_buf_fd_to_fd fuel' dst (dst_off + res) src (src_off + res) (len - res) (copied + res)
               tmp
  end.

Definition advance_pos (p : option Z) (n : Z) : option Z := option_map (fun x => x + n) p.

(** The loop of [fuse_buf_splice]; the kernel advances the explicit positions. *)
Fixpoint splice_rounds (fuel : nat) (dst src : fuse_buf) (dst_off src_off : Z)
    (dstpos srcpos : option Z) (len copied : Z) (flags splice_flags : Z) : prog W Z :=
  if len =? 0 then mret copied else
  match fuel with
  | O => mret copied
  | S fuel' =>
      res ← io (io_splice (buf_fd src) srcpos (buf_fd dst) dstpos len splice_flags);
      match res with
      | inl errno =>
          if negb (copied =? 0) then mret copied
          else if negb (errno =? EINVAL) || has_flag flags FUSE_BUF_FORCE_SPLICE then mret (- errno)
          else fuse_buf_fd_to_fd (Z.to_nat len) dst dst_off src src_off len 0 bounce
      | inr res =>
          if res =? 0 then mret copied
          else if negb (has_flag (buf_flags src) FUSE_BUF_FD_RETRY) &&
                  negb (has_flag (buf_flags dst) FUSE_BUF_FD_RETRY) then mret (copied + res)
          else splice_rounds fuel' dst src dst_off src_off (advance_pos dstpos res)
                 (advance_pos srcpos res) (len - res) (copied + res) flags splice_flags
      end
  end.

Definition fuse_buf_splice (dst : fuse_buf) (dst_off : Z) (src : fuse_buf) (src_off len flags : Z)
    : prog W Z :=
  if HAVE_SPLICE then
    let splice_flags := if has_flag flags FUSE_BUF_SPLICE_MOVE then SPLICE_F_MOVE else 0 in
    let splice_flags := if has_flag flags FUSE_BUF_SPLICE_NONBLOCK
                        then Z.lor splice_flags SPLICE_F_NONBLOCK else splice_flags in
    splice_rounds (Z.to_nat len) dst src dst_off src_off (fd_pos dst dst_off) (fd_pos src src_off)
      len 0 flags splice_flags
  else fuse_buf_fd_to_fd (Z.to_nat len) dst dst_off src src_off len 0 bounce.

(** Result and the destination with its new memory.  Different buffers do not
    overlap, so [memcpy] and [memmove] agree. *)
Definition fuse_buf_copy_one (dst : fuse_buf) (dst_off : Z) (src : fuse_buf) (src_off len flags : Z)
    : prog W (Z * fuse_buf) :=
  let src_is_fd := has_flag (buf_flags src) FUSE_BUF_IS_FD in
  let dst_is_fd := has_flag (buf_flags dst) FUSE_BUF_IS_FD in
  if negb src_is_fd && negb dst_is_fd then
    data ← checked (mem_read src src_off len);
    dst' ← checked (mem_write dst dst_off data);
    mret (len, dst')
  else if negb src_is_fd then
    res ← fuse_buf_write (Z.to_nat len) dst dst_off src src_off len 0; mret (res, dst)
  else if negb dst_is_fd then fuse_buf_read (Z.to_nat len) dst dst_off src src_off len 0
  else if has_flag flags FUSE_BUF_NO_SPLICE then
    res ← fuse_buf_fd_to_fd (Z.to_nat len) dst dst_off src src_off len 0 bounce; mret (res, dst)
  else res ← fuse_buf_splice dst dst_off src src_off len flags; mret (res, dst).

Definition fuse_bufvec_current (bufv : fuse_bufvec) : option fuse_buf :=
  if bv_idx bufv <? bv_count bufv then bv_buf bufv !! Z.to_nat (bv_idx bufv) else None.

Definition fuse_bufvec_advance (bufv : fuse_bufvec) (len : Z) : prog W (bool * fuse_bufvec) :=
  match fuse_bufvec_current bufv with
  | None => mret (false, bufv)
  | Some buf =>
      let off := bv_off bufv + len in
      if buf_size buf <? off then pthrow (* assert(bufv->off <= buf->size) *)
      else if off =? buf_size buf then
        let idx := bv_idx bufv + 1 in
        if idx =? bv_count bufv
        then mret (false, {| bv_idx := idx; bv_off := off; bv_buf := bv_buf bufv |})
        else mret (true, {| bv_idx := idx; bv_off := 0; bv_buf := bv_buf bufv |})
      else mret (true, {| bv_idx := bv_idx bufv; bv_off := off; bv_buf := bv_buf bufv |})
  end.

Definition set_current (b : fuse_buf) (bufv : fuse_bufvec) : fuse_bufvec :=
  {| bv_idx := bv_idx bufv; bv_off := bv_off bufv;
     bv_buf := <[Z.to_nat (bv_idx bufv) := b]> (bv_buf bufv) |}.

(** The [for (;;)] loop; a round ends a buffer of one of the vectors or leaves
    the loop, so the number of buffers left is enough fuel. *)
Fixpoint copy_rounds (fuel : nat) (dstv srcv : fuse_bufvec) (flags copied : Z)
    : prog W (Z * fuse_bufvec * fuse_bufvec) :=
  match fuel with
  | O => mret (copied, dstv, srcv)
  | S fuel' =>
      match fuse_bufvec_current srcv, fuse_bufvec_current dstv with
      | Some src, Some dst =>
          let src_len := buf_size src - bv_off srcv in
          let dst_len := buf_size dst - bv_off dstv in
          let len := min_size src_len dst_len in
          r ← fuse_buf_copy_one dst (bv_off dstv) src (bv_off srcv) len flags;
          let '(res, dst') := r : Z * fuse_buf in
          let dstv := set_current dst' dstv in
          if res <? 0 then mret (if copied =? 0 then res else copied, dstv, srcv)
          else
            let copied := copied + res in
            s ← fuse_bufvec_advance srcv res;
            let '(more, srcv) := s : bool * fuse_bufvec in
            if negb more then mret (copied, dstv, srcv)
            else
              d ← fuse_bufvec_advance dstv res;
              let '(more, dstv) := d : bool * fuse_bufvec in
              if negb more then mret (copied, dstv, srcv)
              else if res <? len then mret (copied, dstv, srcv)
              else copy_rounds fuel' dstv srcv flags copied
      | _, _ => mret (copied, dstv, srcv)
      end
  end.

(** [same] says that both pointers are the same vector. *)
Definition fuse_buf_copy (same : bool) (dstv srcv : fuse_bufvec) (flags : Z)
    : prog W (Z * fuse_bufvec * fuse_bufvec) :=
  if same then mret (fuse_buf_size (bv_buf dstv) 0, dstv, srcv)
  else copy_rounds (length (bv_buf srcv) + length (bv_buf dstv)) dstv srcv flags 0.
End Copy.

(** ** The bytes of a memory vector *)

Definition splice_at {A} (l : list A) (o : nat) (d : list A) : list A :=
  take o l ++ d ++ drop (o + length d) l.

Lemma splice_at_length {A} (l : list A) o d :
  (o + length d <= length l)%nat -> length (splice_at l o d) = length l.
Proof. intros Ho. unfold splice_at. rewrite !length_app, length_take, length_drop. lia. Qed.

Lemma splice_at_app_l {A} (a b : list A) o d :
  (o + length d <= length a)%nat -> splice_at (a ++ b) o d = splice_at a o d ++ b.
Proof.
  intros Ho. unfold splice_at. rewrite take_app_le, drop_app_le by lia. by rewrite <- !app_assoc.
Qed.

Lemma splice_at_app_r {A} (a b : list A) o d :
  splice_at (a ++ b) (length a + o) d = a ++ splice_at b o d.
Proof.
  unfold splice_at. rewrite take_app_add, <- Nat.add_assoc, drop_app_add. by rewrite <- !app_assoc.
Qed.

Lemma splice_at_compose {A} (l : list A) o d d' :
  (o + length d <= length l)%nat ->
  splice_at (splice_at l o d) (o + length d) d' = splice_at l o (d ++ d').
Proof.
  intros Ho. unfold splice_at.
  assert (length (take o l) = o) as Hl by (rewrite length_take; lia).
  rewrite (app_assoc (take o l) d (drop (o + length d) l)).
  rewrite take_app_le, take_ge by (rewrite length_app; lia).
  rewrite drop_app_ge by (rewrite length_app; lia). rewrite drop_drop, <- !app_assoc. do 4 f_equal.
  rewrite !length_app. lia.
Qed.

Definition contents (b : fuse_buf) : list Z := default [] (buf_mem b).
Definition flat (v : fuse_bufvec) : list Z := concat (map contents (bv_buf v)).
Definition before (v : fuse_bufvec) : list (list Z) := take (Z.to_nat (bv_idx v)) (map contents (bv_buf v)).
(** Where the vector's position is in [flat], and the bytes from there on. *)
Definition start (v : fuse_bufvec) : nat := length (concat (before v)) + Z.to_nat (bv_off v).
Definition rest (v : fuse_bufvec) : list Z := drop (start v) (flat v).

Definition mem_buf (b : fuse_buf) : Prop :=
  has_flag (buf_flags b) FUSE_BUF_IS_FD = false /\
  exists m, buf_mem b = Some m /\ buf_size b = lenZ m.
Definition mem_vec (v : fuse_bufvec) : Prop :=
  Forall mem_buf (bv_buf v) /\ 0 <= bv_idx v /\ 0 <= bv_off v /\
  (forall b, fuse_bufvec_current v = Some b -> bv_off v <= buf_size b).

Lemma mem_buf_contents b : mem_buf b -> buf_mem b = Some (contents b) /\ buf_size b = lenZ (contents b).
Proof. intros [_ (m & Hm & Hs)]. unfold contents. rewrite Hm. simpl. by split. Qed.

Lemma current_spec v b :
  mem_vec v -> fuse_bufvec_current v = Some b ->
  exists pre post, bv_buf v = pre ++ b :: post /\ length pre = Z.to_nat (bv_idx v) /\ mem_buf b /\
    (Z.to_nat (bv_off v) <= length (contents b))%nat /\
    start v = (length (concat (map contents pre)) + Z.to_nat (bv_off v))%nat /\
    rest v = drop (Z.to_nat (bv_off v)) (contents b) ++ concat (map contents post).
Proof.
  intros (Hf & Hi & Ho & Hc) Hb. pose proof (Hc _ Hb) as Hle.
  unfold fuse_bufvec_current in Hb. destruct (Z.ltb_spec (bv_idx v) (bv_count v)); [|done].
  destruct (list_elem_of_split_length _ _ _ Hb) as (pre & post & Hv & Hl).
  rewrite Hv in Hf. apply Forall_app in Hf as [_ Hf]. apply Forall_cons in Hf as [Hm _].
  pose proof (mem_buf_contents _ Hm) as [_ Hs].
  exists pre, post.
  assert (start v = (length (concat (map contents pre)) + Z.to_nat (bv_off v))%nat) as Hstart.
  { unfold start, before. rewrite Hv, map_app, take_app_le, take_ge; rewrite ?length_map; [done|lia..]. }
  assert ((Z.to_nat (bv_off v) <= length (contents b))%nat) by (unfold lenZ in Hs; lia).
  repeat (split; [done|]). unfold rest, flat. rewrite Hstart, Hv, map_app, concat_app, drop_app_add.
  simpl. rewrite drop_app_le by lia. done.
Qed.

Lemma flat_set_current v b m :
  mem_vec v -> fuse_bufvec_current v = Some b ->
  (Z.to_nat (bv_off v) + length m <= length (contents b))%nat ->
  flat (set_current (set_mem (splice_at (contents b) (Z.to_nat (bv_off v)) m) b) v) =
    splice_at (flat v) (start v) m.
Proof.
  intros Hv Hb Hm. destruct (current_spec v b Hv Hb) as (pre & post & Hl & Hi & _ & Ho & Hs & _).
  unfold flat, set_current. cbn [bv_buf]. rewrite Hs, Hl, <- Hi, insert_app_r_alt, Nat.sub_diag by lia.
  simpl. rewrite !map_app, !concat_app, splice_at_app_r. simpl.
  f_equal. by rewrite splice_at_app_l by lia.
Qed.

Lemma set_current_mem v b m :
  mem_vec v -> fuse_bufvec_current v = Some b ->
  (Z.to_nat (bv_off v) + length m <= length (contents b))%nat ->
  let b' := set_mem (splice_at (contents b) (Z.to_nat (bv_off v)) m) b in
  mem_vec (set_current b' v) /\ fuse_bufvec_current (set_current b' v) = Some b' /\
  start (set_current b' v) = start v /\ bv_count (set_current b' v) = bv_count v /\
  buf_size b' = buf_size b.
Proof.
  intros Hv Hb Hm b'. destruct (current_spec v b Hv Hb) as (pre & post & Hl & Hi & Hmb & Ho & Hs & _).
  pose proof (mem_buf_contents _ Hmb) as [_ Hsz]. destruct Hv as (Hf & H0 & H1 & Hc).
  assert (bv_count (set_current b' v) = bv_count v) as Hcount.
  { unfold bv_count, lenZ, set_current. simpl. by rewrite length_insert. }
  assert (fuse_bufvec_current (set_current b' v) = Some b') as Hcur.
  { revert Hb. unfold fuse_bufvec_current. rewrite Hcount. change (bv_idx (set_current b' v)) with (bv_idx v).
    destruct (bv_idx v <? bv_count v); [|done]. intros Hb. simpl.
    apply list_lookup_insert_eq. by eapply lookup_lt_Some. }
  assert (mem_buf b') as Hmb'.
  { destruct Hmb as [Hfd _]. split; [done|]. eexists. split; [done|].
    unfold lenZ in *. simpl. rewrite splice_at_length by lia. done. }
  split; [|split_and!; [done| |done|done]].
  - split; [by apply Forall_insert|]. split; [done|]. split; [done|].
    intros b2 Hb2. simpl. rewrite Hcur in Hb2. injection Hb2 as <-. by apply (Hc b).
  - unfold start, before. simpl. by rewrite !firstn_map, take_insert_ge by lia.
Qed.

Lemma min_size_min a b : min_size a b = Z.min a b.
Proof. unfold min_size. destruct (Z.ltb_spec a b); lia. Qed.

Lemma mem_read_ok b off len :
  mem_buf b -> 0 <= off -> 0 <= len -> off + len <= buf_size b ->
  mem_read b off len = Some (take (Z.to_nat len) (drop (Z.to_nat off) (contents b))).
Proof.
  intros Hb H0 H1 H2. destruct (mem_buf_contents _ Hb) as [Hm Hs]. unfold mem_read. rewrite Hm.
  destruct (Z.leb_spec 0 off); [|lia]. destruct (Z.leb_spec (off + len) (lenZ (contents b))); [done|lia].
Qed.
Lemma mem_write_ok b off bytes :
  mem_buf b -> 0 <= off -> off + lenZ bytes <= buf_size b ->
  mem_write b off bytes = Some (set_mem (splice_at (contents b) (Z.to_nat off) bytes) b).
Proof.
  intros Hb H0 H2. destruct (mem_buf_contents _ Hb) as [Hm Hs]. unfold mem_write. rewrite Hm.
  destruct (Z.leb_spec 0 off); [|lia].
  destruct (Z.leb_spec (off + lenZ bytes) (lenZ (contents b))); [done|lia].
Qed.

Section Memory.
Context `{FileIO W}.

(** One round between memory buffers. *)
Lemma copy_one_memory dst doff src soff len flags (w : W) HS :
  mem_buf dst -> mem_buf src -> 0 <= doff -> 0 <= soff -> 0 <= len ->
  doff + len <= buf_size dst -> soff + len <= buf_size src ->
  fuse_buf_copy_one HS dst doff src soff len flags w =
    Done (len, set_mem (splice_at (contents dst) (Z.to_nat doff)
                 (take (Z.to_nat len) (drop (Z.to_nat soff) (contents src)))) dst) w.
Proof.
  intros Hd Hs H0 H1 H2 H3 H4. destruct Hd as [Hfd Hd'], Hs as [Hfs Hs']. unfold fuse_buf_copy_one.
  rewrite Hfd, Hfs. cbn [negb andb].
  rewrite mem_read_ok by (done || lia).
  assert (lenZ (take (Z.to_nat len) (drop (Z.to_nat soff) (contents src))) = len) as Hlen.
  { destruct (mem_buf_contents src (conj Hfs Hs')) as [_ Hsz]. unfold lenZ in *.
    rewrite length_take, length_drop. lia. }
  cbn [checked mbind prog_bind mret prog_ret].
  unfold mbind, prog_bind, mret, prog_ret. rewrite mem_write_ok by (done || lia). done.
Qed.

(** Where the position goes when [len] bytes of the current buffer are done. *)
Lemma advance_spec v b len (w : W) :
  mem_vec v -> fuse_bufvec_current v = Some b -> 0 <= len -> bv_off v + len <= buf_size b ->
  exists more v', fuse_bufvec_advance v len w = Done (more, v') w /\ bv_buf v' = bv_buf v /\
    mem_vec v' /\
    (if more then start v' = (start v + Z.to_nat len)%nat /\
       bv_idx v' = (if bv_off v + len =? buf_size b then bv_idx v + 1 else bv_idx v) /\
       bv_idx v' < bv_count v'
     else lenZ (rest v) = len).
Proof.
  intros Hv Hb H0 H1. destruct (current_spec v b Hv Hb) as (pre & post & Hl & Hi & Hmb & Ho & Hs & Hr).
  pose proof (mem_buf_contents _ Hmb) as [_ Hsz]. pose proof Hv as (Hf & Hi0 & Ho0 & Hc).
  assert (bv_idx v < bv_count v) as Hidx.
  { unfold bv_count, lenZ. rewrite Hl, length_app. simpl. lia. }
  unfold fuse_bufvec_advance. rewrite Hb. destruct (Z.ltb_spec (buf_size b) (bv_off v + len)); [lia|].
  destruct (Z.eqb_spec (bv_off v + len) (buf_size b)) as [He|He].
  - destruct (Z.eqb_spec (bv_idx v + 1) (bv_count v)) as [Hlast|Hlast].
    + eexists false, _. split; [done|]. split; [done|]. split.
      * split; [done|]. simpl. split; [lia|]. split; [lia|]. intros b2.
        unfold fuse_bufvec_current, bv_count in *. simpl. rewrite Hlast, Z.ltb_irrefl. done.
      * rewrite Hr. assert (post = []) as ->.
        { apply length_zero_iff_nil. unfold bv_count, lenZ in Hlast. rewrite Hl, length_app in Hlast.
          simpl in Hlast. lia. }
        simpl. rewrite app_nil_r. unfold lenZ in *. rewrite length_drop. lia.
    + eexists true, _. split; [done|]. split; [done|]. split; [|split_and!].
      * split; [done|]. simpl. split; [lia|]. split; [lia|]. intros b2 Hb2.
        assert (mem_buf b2) as Hm2.
        { rewrite Forall_forall in Hf. apply Hf. unfold fuse_bufvec_current in Hb2. simpl in Hb2.
          destruct (_ <? _); [|done]. by eapply list_elem_of_lookup_2. }
        destruct (mem_buf_contents _ Hm2) as [_ ->]. apply lenZ_nonneg.
      * rewrite Hs. unfold start, before. simpl. rewrite Hl, Z2Nat.inj_add, <- Hi by lia.
        rewrite map_app, take_app_ge by (rewrite length_map; lia). rewrite length_map.
        replace (length pre + Z.to_nat 1 - length pre)%nat with 1%nat by lia. simpl.
        rewrite ?take_0, concat_app, length_app. simpl. rewrite app_nil_r.
        unfold lenZ in *. lia.
      * simpl. done.
      * change (bv_idx v + 1 < bv_count v). lia.
  - eexists true, _. split; [done|]. split; [done|]. split; [|split_and!].
    + split; [done|]. simpl. split; [lia|]. split; [lia|]. intros b2 Hb2.
      change (fuse_bufvec_current v = Some b2) in Hb2. rewrite Hb in Hb2. injection Hb2 as <-. lia.
    + rewrite Hs. unfold start. simpl. rewrite Z2Nat.inj_add by lia.
      change (before _) with (before v). unfold start, before in *. lia.
    + done.
    + done.
Qed.
End Memory.

Lemma rest_length v b : mem_vec v -> fuse_bufvec_current v = Some b ->
  buf_size b - bv_off v <= lenZ (rest v).
Proof.
  intros Hv Hb. destruct (current_spec v b Hv Hb) as (pre & post & _ & _ & Hmb & Ho & _ & ->).
  destruct Hv as (_ & _ & Hoff & _).
  destruct (mem_buf_contents _ Hmb) as [_ ->]. unfold lenZ. rewrite length_app, length_drop. lia.
Qed.

Lemma rest_take v b n : mem_vec v -> fuse_bufvec_current v = Some b -> 0 <= n <= buf_size b - bv_off v ->
  take (Z.to_nat n) (rest v) = take (Z.to_nat n) (drop (Z.to_nat (bv_off v)) (contents b)).
Proof.
  intros Hv Hb Hn. destruct (current_spec v b Hv Hb) as (pre & post & _ & _ & Hmb & Ho & _ & ->).
  destruct (mem_buf_contents _ Hmb) as [_ Hs]. destruct Hv as (_ & _ & Hoff & _).
  apply take_app_le. unfold lenZ in *.
  rewrite length_drop. lia.
Qed.

Lemma rest_none v : mem_vec v -> fuse_bufvec_current v = None -> rest v = [].
Proof.
  intros (_ & Hi & _ & _) Hb. unfold rest. apply drop_ge. unfold start, before, flat.
  unfold fuse_bufvec_current, bv_count in Hb. destruct (Z.ltb_spec (bv_idx v) (lenZ (bv_buf v))).
  - apply lookup_ge_None in Hb. unfold lenZ in *.
    lia.
  - rewrite take_ge; [lia|]. rewrite length_map. unfold lenZ in *. lia.
Qed.

Lemma rest_advance v v' n :
  bv_buf v' = bv_buf v -> start v' = (start v + n)%nat -> rest v' = drop n (rest v).
Proof. intros Hb Hs. unfold rest, flat. by rewrite Hb, Hs, drop_drop. Qed.

Lemma start_bound v : mem_vec v -> (exists b, fuse_bufvec_current v = Some b) -> (start v <= length (flat v))%nat.
Proof.
  intros Hv [b Hb]. destruct (current_spec v b Hv Hb) as (pre & post & Hl & _ & _ & Ho & -> & _).
  unfold flat. rewrite Hl, map_app, concat_app, length_app. simpl. rewrite length_app. lia.
Qed.

(** What a copy of [n] bytes does to the destination. *)
Definition copied_to (d d' s : fuse_bufvec) (n : nat) : Prop :=
  flat d' = splice_at (flat d) (start d) (take n (rest s)) /\
  map buf_size (bv_buf d') = map buf_size (bv_buf d).

Definition left (v : fuse_bufvec) : nat := length (bv_buf v) - Z.to_nat (bv_idx v).

(** [min] of what both vectors have left. *)
Definition room (s d : fuse_bufvec) : nat := length (rest s) `min` length (rest d).

Lemma left_none v : mem_vec v -> left v = 0%nat -> fuse_bufvec_current v = None.
Proof.
  intros (_ & Hi & _) Hl. unfold left in Hl. unfold fuse_bufvec_current, bv_count, lenZ.
  destruct (Z.ltb_spec (bv_idx v) (Z.of_nat (length (bv_buf v)))); [lia|done].
Qed.
Lemma no_room s d : mem_vec s -> mem_vec d ->
  fuse_bufvec_current s = None \/ fuse_bufvec_current d = None -> room s d = 0%nat.
Proof.
  intros Hs Hd Hn. unfold room.
  destruct Hn as [Hn|Hn]; [rewrite (rest_none s Hs Hn)|rewrite (rest_none d Hd Hn)]; simpl; lia.
Qed.
Lemma copied_nothing d s : copied_to d d s 0.
Proof. split; [|done]. unfold splice_at. simpl. by rewrite Nat.add_0_r, take_drop. Qed.

Section Rounds.
Context `{FileIO W}.

Lemma map_size_set_current v b b' : fuse_bufvec_current v = Some b -> buf_size b' = buf_size b ->
  map buf_size (bv_buf (set_current b' v)) = map buf_size (bv_buf v).
Proof.
  unfold fuse_bufvec_current. destruct (_ <? _); [|done]. intros Hb Hs. simpl.
  revert Hb. generalize (Z.to_nat (bv_idx v)) as i. induction (bv_buf v) as [|x l IH]; intros [|i] Hi; simpl in *.
  - done.
  - done.
  - injection Hi as ->. by rewrite Hs.
  - f_equal. by apply IH.
Qed.

(** The current buffers after a round that copied [len] bytes. *)
Lemma round_memory dstv srcv dst src HS flags (w : W) :
  mem_vec dstv -> mem_vec srcv ->
  fuse_bufvec_current srcv = Some src -> fuse_bufvec_current dstv = Some dst ->
  let len := min_size (buf_size src - bv_off srcv) (buf_size dst - bv_off dstv) in
  0 <= len <= lenZ (rest srcv) /\ len <= lenZ (rest dstv) /\
  exists dst', fuse_buf_copy_one HS dst (bv_off dstv) src (bv_off srcv) len flags w = Done (len, dst') w /\
    let d1 := set_current dst' dstv in
    mem_vec d1 /\ fuse_bufvec_current d1 = Some dst' /\ buf_size dst' = buf_size dst /\
    start d1 = start dstv /\ bv_off d1 = bv_off dstv /\ bv_idx d1 = bv_idx dstv /\
    length (bv_buf d1) = length (bv_buf dstv) /\
    copied_to dstv d1 srcv (Z.to_nat len).
Proof.
  intros Hd Hs Hcs Hcd len. subst len. rewrite min_size_min.
  pose proof (rest_length _ _ Hd Hcd) as Hrd. pose proof (rest_length _ _ Hs Hcs) as Hrs.
  pose proof Hd as (_ & _ & Hod & Hed). pose proof Hs as (_ & _ & Hos & Hes).
  specialize (Hed _ Hcd). specialize (Hes _ Hcs). split; [lia|]. split; [lia|].
  destruct (current_spec _ _ Hd Hcd) as (_ & _ & _ & _ & Hmd & Hnd & _).
  destruct (current_spec _ _ Hs Hcs) as (_ & _ & _ & _ & Hms & Hns & _).
  set (len := Z.min _ _) in *.
  assert (Z.to_nat (bv_off dstv) +
          length (take (Z.to_nat len) (drop (Z.to_nat (bv_off srcv)) (contents src)))
          <= length (contents dst))%nat as Hfit.
  { destruct (mem_buf_contents _ Hmd) as [_ Hz]. unfold lenZ in Hz. rewrite length_take. lia. }
  destruct (set_current_mem dstv dst _ Hd Hcd Hfit) as (H1 & H2 & H3 & H4 & H5).
  eexists. split; [by apply copy_one_memory; (done || lia)|].
  split_and!; try done.
  - simpl. apply length_insert.
  - split; [|by eapply map_size_set_current]. rewrite (flat_set_current dstv dst _ Hd Hcd Hfit).
    by rewrite (rest_take srcv src) by (done || lia).
Qed.

Lemma copied_to_compose d d1 d2 d3 s s2 n m :
  (start d + n <= length (flat d))%nat -> (n <= length (rest s))%nat ->
  copied_to d d1 s n -> bv_buf d2 = bv_buf d1 -> start d2 = (start d + n)%nat ->
  rest s2 = drop n (rest s) -> copied_to d2 d3 s2 m -> copied_to d d3 s (n + m).
Proof.
  intros Hfit Hn [Hf1 Hm1] Hb Hst Hrs [Hf3 Hm3]. split; [|by rewrite Hm3, Hb].
  assert (flat d2 = flat d1) as Hfd by (unfold flat; by rewrite Hb).
  rewrite Hf3, Hfd, Hf1, Hst, Hrs.
  assert (length (take n (rest s)) = n) as Hl by (rewrite length_take; lia).
  rewrite <- Hl at 2. rewrite splice_at_compose by (rewrite Hl; lia). by rewrite take_take_drop.
Qed.

Lemma rest_same_start d d' s n :
  copied_to d d' s n -> start d' = start d -> (start d + n <= length (flat d))%nat ->
  length (rest d') = length (rest d).
Proof.
  intros [Hf _] Hs Hfit. unfold rest. rewrite !length_drop, Hs, Hf, splice_at_length; [done|].
  rewrite length_take. lia.
Qed.

Lemma copy_rounds_memory fuel dstv srcv HS flags copied (w : W) :
  mem_vec dstv -> mem_vec srcv -> 0 <= copied -> (left srcv + left dstv <= fuel)%nat ->
  exists dstv' srcv',
    copy_rounds HS fuel dstv srcv flags copied w =
      Done (copied + Z.of_nat (room srcv dstv), dstv', srcv') w /\
    copied_to dstv dstv' srcv (room srcv dstv) /\ bv_buf srcv' = bv_buf srcv.
Proof.
  revert dstv srcv copied. induction fuel as [|fuel IH]; intros dstv srcv copied Hd Hs Hcop Hfuel.
  { rewrite (no_room srcv dstv) by (try done; left; by apply left_none; (done || lia)).
    eexists _, _. simpl. split; [by rewrite Z.add_0_r|]. split; [apply copied_nothing|done]. }
  cbn [copy_rounds]. destruct (fuse_bufvec_current srcv) as [src|] eqn:Hcs;
    [destruct (fuse_bufvec_current dstv) as [dst|] eqn:Hcd|].
  2,3: rewrite (no_room srcv dstv) by auto; eexists _, _; split; [by rewrite Z.add_0_r|];
    split; [apply copied_nothing|done].
  destruct (round_memory dstv srcv dst src HS flags w Hd Hs Hcs Hcd)
    as (Hlen & Hlend & dst' & Hone & Hd1 & Hc1 & Hsz1 & Hst1 & Hoff1 & Hidx1 & Hln1 & Hcopy).
  set (len := min_size _ _) in *. set (d1 := set_current dst' dstv) in *.
  assert (start dstv + Z.to_nat len <= length (flat dstv))%nat as Hfit.
  { pose proof (start_bound dstv Hd (ex_intro _ _ Hcd)). unfold lenZ, rest in Hlend.
    rewrite length_drop in Hlend. lia. }
  pose proof (rest_same_start _ _ _ _ Hcopy Hst1 Hfit) as Hrd1.
  unfold mbind, prog_bind at 1. rewrite Hone. fold d1.
  destruct (Z.ltb_spec len 0); [lia|].
  assert (bv_off srcv + len <= buf_size src /\ bv_off d1 + len <= buf_size dst') as [Hes Hed].
  { unfold len. rewrite min_size_min. lia. }
  destruct (advance_spec srcv src len w Hs Hcs) as (ms & s2 & Has & Hbs & Hs2 & Hms); [lia..|].
  unfold prog_bind at 1. rewrite Has. destruct ms; cbn [negb].
  2: { eexists _, _. split; [|split; [|done]].
       - unfold mret, prog_ret. repeat f_equal. unfold room, lenZ in *. lia.
       - replace (room srcv dstv) with (Z.to_nat len); [done|]. unfold room, lenZ in *. lia. }
  destruct Hms as (Hss & Hsi & Hsc).
  destruct (advance_spec d1 dst' len w Hd1 Hc1) as (md & d2 & Had & Hbd & Hd2 & Hmd); [lia..|].
  unfold prog_bind at 1. rewrite Had. destruct md; cbn [negb].
  2: { eexists _, _. split; [|split; [|done]].
       - unfold mret, prog_ret. repeat f_equal. unfold room, lenZ in *. lia.
       - replace (room srcv dstv) with (Z.to_nat len) by (unfold room, lenZ in *; lia).
         destruct Hcopy as [Hf Hm]. unfold copied_to, flat in *. by rewrite Hbd. }
  destruct Hmd as (Hds & Hdi & Hdc). rewrite Z.ltb_irrefl.
  pose proof (rest_advance srcv s2 _ Hbs Hss) as Hrs2.
  pose proof (rest_advance d1 d2 _ Hbd Hds) as Hrd2.
  assert (room srcv dstv = (Z.to_nat len + room s2 d2)%nat) as Hroom.
  { unfold room. rewrite Hrs2, Hrd2, !length_drop. unfold lenZ in *. lia. }
  destruct (IH d2 s2 (copied + len)) as (d3 & s3 & Hrun & Hcopy3 & Hb3); [done..|lia| |].
  { destruct Hs as (_ & Hi & _), Hd as (_ & Hi' & _). unfold left, bv_count, lenZ in *.
    rewrite Hbs, Hbd. revert Hsi Hdi. unfold len. rewrite min_size_min.
    destruct (Z.eqb_spec (bv_off srcv + Z.min (buf_size src - bv_off srcv) (buf_size dst - bv_off dstv)) (buf_size src));
    destruct (Z.eqb_spec (bv_off d1 + Z.min (buf_size src - bv_off srcv) (buf_size dst - bv_off dstv)) (buf_size dst'));
    intros; rewrite ?Hbs, ?Hbd in *; lia. }
  exists d3, s3. rewrite Hroom. split; [|split].
  - rewrite Hrun. f_equal. do 2 f_equal. lia.
  - eapply copied_to_compose; try done; [unfold lenZ in *; lia|]. by rewrite Hds, Hst1.
  - by rewrite Hb3, Hbs.
Qed.
End Rounds.

(** ** Copies stay in bounds

    A total-correctness triple: the program ends normally, without leaving a
    buffer's memory and without failing the assertion of
    [fuse_bufvec_advance]. *)
Definition safe {W A} (m : prog W A) (Q : A -> Prop) : Prop :=
  triple (fun _ => True) m (fun a _ => Q a) (fun _ => False).

Lemma safe_ret {W A} (a : A) (Q : A -> Prop) : Q a -> safe (W := W) (mret a) Q.
Proof. intros HQ w _. done. Qed.
Lemma safe_bind {W A B} (m : prog W A) (k : A -> prog W B) (P : A -> Prop) Q :
  safe m P -> (forall a, P a -> safe (k a) Q) -> safe (m ≫= k) Q.
Proof.
  intros Hm Hk w _. specialize (Hm w I). unfold mbind, prog_bind. destruct (m w); [|done..].
  by apply Hk.
Qed.
Lemma safe_bind_ret {W A B} (a : A) (k : A -> prog W B) Q : safe (k a) Q -> safe (mret a ≫= k) Q.
Proof. done. Qed.
Lemma safe_mono {W A} (m : prog W A) (P Q : A -> Prop) : safe m P -> (forall a, P a -> Q a) -> safe m Q.
Proof. intros Hm HPQ w _. specialize (Hm w I). destruct (m w); auto. Qed.
Lemma safe_io {W A} (f : W -> A * W) (Q : A -> Prop) :
  (forall w a w', f w = (a, w') -> Q a) -> safe (io f) Q.
Proof. intros HQ w _. unfold io. destruct (f w) eqn:E. by eapply HQ. Qed.
Lemma safe_run {W A} (m : prog W A) (Q : A -> Prop) w : safe m Q -> exists a w', m w = Done a w' /\ Q a.
Proof. intros Hm. specialize (Hm w I). destruct (m w); [eauto|done..]. Qed.

Section Safety.
Context `{FileIOLaws W}.

Lemma safe_write fuel dst src : mem_buf src -> forall doff soff len copied,
  0 <= soff -> 0 <= len -> soff + len <= buf_size src -> 0 <= copied ->
  safe (fuse_buf_write (W := W) fuel dst doff src soff len copied) (fun r => r <= copied + len).
Proof.
  intros Hs. induction fuel as [|fuel IH]; intros doff soff len copied H1 H2 H3 H4;
    cbn [fuse_buf_write]; destruct (Z.eqb_spec len 0); try (apply safe_ret; lia).
  rewrite mem_read_ok by done. apply safe_bind_ret.
  eapply safe_bind; [apply (safe_io _ (count_upto len))|].
  { intros w r w' Hw. apply io_write_ok in Hw. destruct r; [done|]. simpl in *.
    unfold lenZ in Hw. rewrite length_take in Hw. lia. }
  intros [e|r] Hr; simpl in Hr; [apply safe_ret; case_match; lia|].
  destruct (Z.eqb_spec r 0); [apply safe_ret; lia|].
  destruct (negb _); [apply safe_ret; lia|].
  eapply safe_mono; [apply IH; lia|]. intros; simpl in *; lia.
Qed.

(** The destination keeps its kind and size. *)
Definition same_shape (b b' : fuse_buf) : Prop := mem_buf b' /\ buf_size b' = buf_size b.

Lemma mem_write_shape dst off bytes : mem_buf dst -> 0 <= off -> off + lenZ bytes <= buf_size dst ->
  exists d', mem_write dst off bytes = Some d' /\ same_shape dst d'.
Proof.
  intros Hd H1 H2. rewrite mem_write_ok by done. eexists. split; [done|].
  destruct (mem_buf_contents _ Hd) as [_ Hs]. split; [|done]. destruct Hd as [Hf _]. split; [done|].
  eexists. split; [done|]. unfold lenZ in *. simpl. rewrite splice_at_length by lia. done.
Qed.

Lemma safe_read fuel src : forall dst doff soff len copied,
  mem_buf dst -> 0 <= doff -> 0 <= len -> doff + len <= buf_size dst -> 0 <= copied ->
  safe (fuse_buf_read (W := W) fuel dst doff src soff len copied)
    (fun r => r.1 <= copied + len /\ same_shape dst r.2).
Proof.
  induction fuel as [|fuel IH]; intros dst doff soff len copied Hd H1 H2 H3 H4;
    cbn [fuse_buf_read]; destruct (Z.eqb_spec len 0); try (apply safe_ret; by (split; [simpl; lia|])).
  eapply safe_bind; [eapply safe_io; intros w r w' Hw; apply io_read_ok in Hw; [exact Hw|lia]|].
  intros [e|b] Hb; [apply safe_ret; split; [simpl; case_match; lia|done]|].
  destruct (Z.eqb_spec (lenZ b) 0); [apply safe_ret; split; [simpl; lia|done]|].
  destruct (mem_write_shape dst doff b Hd) as (d' & -> & Hd' & Hs'); [lia..|].
  apply safe_bind_ret. pose proof (lenZ_nonneg b).
  destruct (negb _); [apply safe_ret; split; [simpl; lia|done]|].
  eapply safe_mono; [apply IH; (done || lia)|]. intros [r d2] [Hr [Hm2 Hs2]]. simpl in *.
  split; [lia|]. split; [done|]. congruence.
Qed.

Lemma safe_fd_to_fd fuel dst src : forall doff soff len copied tmp,
  mem_buf tmp -> 0 <= len -> 0 <= copied ->
  safe (fuse_buf_fd_to_fd (W := W) fuel dst doff src soff len copied tmp) (fun r => r <= copied + len).
Proof.
  induction fuel as [|fuel IH]; intros doff soff len copied tmp Ht H1 H2;
    cbn [fuse_buf_fd_to_fd]; destruct (Z.eqb_spec len 0); try (apply safe_ret; lia).
  pose proof (mem_buf_contents _ Ht) as [_ Hsz]. pose proof (lenZ_nonneg (contents tmp)).
  rewrite min_size_min.
  eapply safe_bind; [apply safe_read; (done || lia)|].
  intros [r t] [Hr [Ht' Hs']]. simpl in *.
  destruct (Z.ltb_spec r 0); [apply safe_ret; case_match; lia|].
  destruct (Z.eqb_spec r 0); [apply safe_ret; lia|].
  eapply safe_bind; [apply safe_write; (done || lia)|]. intros r2 Hr2. simpl in Hr2.
  destruct (Z.ltb_spec r2 0); [apply safe_ret; case_match; lia|].
  destruct (Z.eqb_spec r2 0); [apply safe_ret; lia|].
  destruct (r2 <? _); [apply safe_ret; lia|].
  eapply safe_mono; [apply IH; (done || lia)|]. intros; simpl in *; lia.
Qed.

Lemma bounce_mem : mem_buf bounce.
Proof. split; [done|]. eexists. split; [done|]. unfold lenZ. rewrite length_replicate. done. Qed.

Lemma safe_splice_rounds fuel dst src doff soff flags sf : forall dp sp len copied,
  0 <= len -> 0 <= copied ->
  safe (splice_rounds (W := W) fuel dst src doff soff dp sp len copied flags sf) (fun r => r <= copied + len).
Proof.
  induction fuel as [|fuel IH]; intros dp sp len copied H1 H2;
    cbn [splice_rounds]; destruct (Z.eqb_spec len 0); try (apply safe_ret; lia).
  eapply safe_bind; [eapply safe_io; intros w r w' Hw; apply io_splice_ok in Hw; [exact Hw|lia]|].
  intros [e|r] Hr; simpl in Hr.
  - destruct (Z.eqb_spec copied 0); simpl; [|apply safe_ret; lia].
    destruct (negb _ || _); [apply safe_ret; lia|].
    eapply safe_mono; [apply safe_fd_to_fd; (apply bounce_mem || lia)|]. intros; simpl in *; lia.
  - destruct (Z.eqb_spec r 0); [apply safe_ret; lia|].
    destruct (negb _ && _); [apply safe_ret; lia|].
    eapply safe_mono; [apply IH; lia|]. intros; simpl in *; lia.
Qed.

(** A buffer is memory of its size, or a descriptor. *)
Definition good_buf (b : fuse_buf) : Prop :=
  mem_buf b \/ (has_flag (buf_flags b) FUSE_BUF_IS_FD = true /\ 0 <= buf_size b).
Definition good_vec (v : fuse_bufvec) : Prop :=
  Forall good_buf (bv_buf v) /\ 0 <= bv_idx v /\ 0 <= bv_off v /\
  (forall b, fuse_bufvec_current v = Some b -> bv_off v <= buf_size b).

Lemma good_mem b : good_buf b -> has_flag (buf_flags b) FUSE_BUF_IS_FD = false -> mem_buf b.
Proof. intros [Hm|[Hf _]] Hn; [done|congruence]. Qed.

Lemma safe_copy_one HS dst doff src soff len flags :
  good_buf dst -> good_buf src -> 0 <= doff -> 0 <= soff -> 0 <= len ->
  doff + len <= buf_size dst -> soff + len <= buf_size src ->
  safe (fuse_buf_copy_one (W := W) HS dst doff src soff len flags)
    (fun r => r.1 <= len /\ good_buf r.2 /\ buf_size r.2 = buf_size dst).
Proof.
  intros Hd Hs H1 H2 H3 H4 H5. unfold fuse_buf_copy_one.
  destruct (has_flag (buf_flags src) _) eqn:Hfs; destruct (has_flag (buf_flags dst) _) eqn:Hfd; simpl.
  - destruct (has_flag flags _).
    + eapply safe_bind; [apply safe_fd_to_fd; (apply bounce_mem || lia)|].
      intros r Hr. apply safe_ret. simpl in *. split_and!; (done || lia).
    + eapply (safe_bind _ _ (fun r => r <= len)).
      { unfold fuse_buf_splice. destruct HS; [apply safe_splice_rounds; lia|].
        eapply safe_mono; [apply safe_fd_to_fd; (apply bounce_mem || lia)|]. intros; simpl in *; lia. }
      intros r Hr. apply safe_ret. simpl in *. split_and!; (done || lia).
  - eapply safe_mono; [apply safe_read; (by apply good_mem || lia)|].
    intros [r d'] [Hr [Hm Hz]]. simpl in *. split_and!; [lia|by left|done].
  - eapply safe_bind; [apply safe_write; (by apply good_mem || lia)|].
    intros r Hr. apply safe_ret. simpl in *. split_and!; (done || lia).
  - pose proof (good_mem _ Hs Hfs) as Hms. pose proof (good_mem _ Hd Hfd) as Hmd.
    rewrite mem_read_ok by done. apply safe_bind_ret.
    destruct (mem_write_shape dst doff (take (Z.to_nat len) (drop (Z.to_nat soff) (contents src))))
      as (d' & -> & Hd' & Hz); [done|done| |].
    { unfold lenZ. rewrite length_take. lia. }
    apply safe_bind_ret, safe_ret. simpl. split_and!; [lia|by left|done].
Qed.

Lemma good_size b : good_buf b -> 0 <= buf_size b.
Proof. intros [Hm|[_ Hz]]; [|done]. destruct (mem_buf_contents _ Hm) as [_ ->]. apply lenZ_nonneg. Qed.

Lemma current_good v b : good_vec v -> fuse_bufvec_current v = Some b ->
  good_buf b /\ 0 <= bv_off v <= buf_size b.
Proof.
  intros (Hf & _ & Ho & Hc) Hb. specialize (Hc _ Hb). split; [|lia]. unfold fuse_bufvec_current in Hb.
  destruct (_ <? _); [|done]. eapply Forall_lookup_1; done.
Qed.

Lemma safe_advance v b len : good_vec v -> fuse_bufvec_current v = Some b -> 0 <= len ->
  bv_off v + len <= buf_size b ->
  safe (fuse_bufvec_advance (W := W) v len) (fun r => good_vec r.2 /\ bv_buf r.2 = bv_buf v).
Proof.
  intros Hv Hb H1 H2. destruct (current_good v b Hv Hb) as [Hg Ho]. pose proof Hv as (Hf & Hi & _ & _).
  unfold fuse_bufvec_advance. rewrite Hb. destruct (Z.ltb_spec (buf_size b) (bv_off v + len)); [lia|].
  destruct (Z.eqb_spec (bv_off v + len) (buf_size b)); [destruct (Z.eqb_spec (bv_idx v + 1) (bv_count v)) as [Hl|Hl]|];
    apply safe_ret; (split; [|done]); (split; [done|]); simpl; (split; [lia|]); (split; [lia|]); intros b2 Hb2.
  - unfold fuse_bufvec_current, bv_count in *. simpl in Hb2. by rewrite Hl, Z.ltb_irrefl in Hb2.
  - apply good_size. unfold fuse_bufvec_current in Hb2. simpl in Hb2. destruct (_ <? _); [|done].
    eapply Forall_lookup_1; done.
  - change (fuse_bufvec_current v = Some b2) in Hb2. rewrite Hb in Hb2. injection Hb2 as <-. lia.
Qed.

Lemma good_set_current v b d' : good_vec v -> fuse_bufvec_current v = Some b -> good_buf d' ->
  buf_size d' = buf_size b ->
  good_vec (set_current d' v) /\ fuse_bufvec_current (set_current d' v) = Some d'.
Proof.
  intros Hv Hb Hg Hz. destruct (current_good v b Hv Hb) as [_ Ho]. destruct Hv as (Hf & Hi & Ho' & Hc).
  assert (fuse_bufvec_current (set_current d' v) = Some d') as Hcur.
  { revert Hb. unfold fuse_bufvec_current, bv_count, lenZ, set_current. simpl. rewrite length_insert.
    destruct (_ <? _); [|done]. intros Hb. apply list_lookup_insert_eq. by eapply lookup_lt_Some. }
  split; [|done]. split; [by apply Forall_insert|]. split; [done|]. split; [done|].
  intros b2 Hb2. rewrite Hcur in Hb2. injection Hb2 as <-. simpl. lia.
Qed.

Lemma safe_copy_rounds fuel HS flags : forall dstv srcv copied, good_vec dstv -> good_vec srcv -> 0 <= copied ->
  safe (copy_rounds (W := W) HS fuel dstv srcv flags copied)
    (fun r => good_vec r.1.2 /\ good_vec r.2 /\ bv_buf r.2 = bv_buf srcv).
Proof.
  induction fuel as [|fuel IH]; intros dstv srcv copied Hd Hs Hc; cbn [copy_rounds]; [by apply safe_ret|].
  destruct (fuse_bufvec_current srcv) as [src|] eqn:Hcs; [|by apply safe_ret].
  destruct (fuse_bufvec_current dstv) as [dst|] eqn:Hcd; [|by apply safe_ret].
  destruct (current_good _ _ Hs Hcs) as [Hgs Hos]. destruct (current_good _ _ Hd Hcd) as [Hgd Hod].
  rewrite min_size_min. eapply safe_bind; [apply safe_copy_one; (done || lia)|].
  intros [res d'] (Hr & Hg' & Hz'). simpl in Hr, Hg', Hz'.
  destruct (good_set_current dstv dst d' Hd Hcd Hg' Hz') as [Hd1 Hc1].
  destruct (Z.ltb_spec res 0); [by apply safe_ret|].
  eapply safe_bind; [apply (safe_advance srcv src); (done || lia)|]. intros [ms s2] [Hs2 Hb2]. simpl in Hs2, Hb2.
  destruct (negb ms); [by apply safe_ret|].
  eapply safe_bind; [apply (safe_advance (set_current d' dstv) d'); (done || simpl; lia)|].
  intros [md d2] [Hd2 _]. simpl in Hd2.
  destruct (negb md); [by apply safe_ret|]. destruct (res <? _); [by apply safe_ret|].
  eapply safe_mono; [apply IH; (done || lia)|]. intros r (? & ? & ->). done.
Qed.
End Safety.

(** ** Files that answer short *)

(** A file system for the witnesses: a read returns at most [chunk] bytes. *)
Definition world : Type := gmap Z (list Z).
Definition chunk : nat := 3.
#[export] Instance world_io : FileIO world := {
  io_read fd pos len w :=
    match w !! fd with
    | Some m => (inr (take (Nat.min chunk (Z.to_nat len)) (drop (Z.to_nat (default 0 pos)) m)), w)
    | None => (inl EBADF, w)
    end;
  io_write fd pos data w :=
    match w !! fd with
    | Some m => let data := take chunk data in
                (inr (lenZ data), <[fd := splice_at m (Z.to_nat (default 0 pos)) data]> w)
    | None => (inl EBADF, w)
    end;
  io_splice sfd sp dfd dp len fl w := (inl EINVAL, w);
}.

#[local] Opaque chunk.
Lemma world_io_laws : FileIOLaws world.
Proof.
  split; simpl; intros *.
  - intros Hl. destruct (w !! fd); intros [= <- <-]; [|lia]. unfold lenZ. rewrite length_take. lia.
  - destruct (w !! fd); intros [= <- <-]; simpl; unfold lenZ; [rewrite length_take|]; lia.
  - intros _ _ _ _ len _ w r w' _ [= <- <-]. simpl. lia.
Qed.
#[local] Transparent chunk.

(** [fd] is a regular file with the bytes [file]: a [pread] may answer short, but
    answers nothing only at the end. *)
Definition regular_file `{FileIO W} (fd : Z) (file : list Z) : Prop := forall p len w,
  0 <= p -> 0 < len -> exists n, io_read fd (Some p) len w = (inr (take n (drop (Z.to_nat p) file)), w) /\
    Z.of_nat n <= len /\ (n = 0%nat -> lenZ file <= p).

Lemma splice_at_nil {A} (l : list A) o : splice_at l o [] = l.
Proof. unfold splice_at. simpl. by rewrite Nat.add_0_r, take_drop. Qed.

Lemma read_rounds `{FileIO W} (file : list Z) src fuel :
  regular_file (W := W) (buf_fd src) file ->
  has_flag (buf_flags src) FUSE_BUF_FD_SEEK = true ->
  has_flag (buf_flags src) FUSE_BUF_FD_RETRY = true -> 0 <= buf_pos src ->
  forall dst doff soff len copied (w : W),
  mem_buf dst -> 0 <= doff -> 0 <= soff -> 0 <= len -> doff + len <= buf_size dst ->
  (Z.to_nat len <= fuel)%nat ->
  let data := take (Z.to_nat len) (drop (Z.to_nat (buf_pos src + soff)) file) in
  fuse_buf_read fuel dst doff src soff len copied w =
    Done (copied + lenZ data,
          match data with [] => dst | _ => set_mem (splice_at (contents dst) (Z.to_nat doff) data) dst end) w.
Proof.
  intros Hfile Hseek Hretry Hp. induction fuel as [|fuel IH];
    intros dst doff soff len copied w Hd H0 H1 H2 H3 Hfuel data; subst data.
  { replace len with 0 by lia. cbn. unfold mret, prog_ret. by rewrite Z.add_0_r. }
  cbn [fuse_buf_read]. destruct (Z.eqb_spec len 0) as [->|Hne].
  { cbn. unfold mret, prog_ret. by rewrite Z.add_0_r. }
  unfold fd_pos. rewrite Hseek. destruct (Hfile (buf_pos src + soff) len w) as (n & Hio & Hn & Heof); [lia..|].
  unfold mbind, prog_bind at 1, io. rewrite Hio. set (p := Z.to_nat (buf_pos src + soff)) in *.
  assert (length (take n (drop p file)) = Nat.min n (length file - p)) as Hl
    by (rewrite length_take, length_drop; done).
  destruct (Z.eqb_spec (lenZ (take n (drop p file))) 0) as [Hz|Hz].
  { assert (drop p file = []) as ->.
    { apply drop_ge. unfold lenZ in *. destruct (decide (n = 0%nat)); [specialize (Heof ltac:(done))|]; lia. }
    rewrite take_nil. unfold mret, prog_ret. cbn. by rewrite Z.add_0_r. }
  assert (0 < Z.of_nat n <= len) as Hn' by (unfold lenZ in Hz; lia).
  rewrite mem_write_ok by (try done; unfold lenZ; lia). cbn [checked]. unfold mret at 1, prog_ret at 1, prog_bind.
  rewrite Hretry. cbn [negb]. set (b := take n (drop p file)) in *.
  set (d1 := set_mem _ dst). pose proof (mem_buf_contents _ Hd) as [Hmd Hsd].
  assert (mem_buf d1) as Hd1.
  { destruct Hd as [Hfd _]. split; [done|]. eexists. split; [done|]. unfold lenZ in *. simpl.
    rewrite splice_at_length by lia. done. }
  assert (lenZ b <= Z.of_nat n) as Hbn by (unfold lenZ; lia).
  assert (0 < lenZ b) as Hb0 by (pose proof (lenZ_nonneg b); lia).
  unfold mret at 1, prog_ret at 1. cbv iota beta.
  rewrite (IH d1 (doff + lenZ b) (soff + lenZ b) (len - lenZ b) (copied + lenZ b) w);
    [|done|lia|lia|lia|change (buf_size d1) with (buf_size dst); lia|lia].
  replace (Z.to_nat (buf_pos src + (soff + lenZ b))) with (p + length b)%nat by (unfold p, lenZ in *; lia).
  replace (Z.to_nat (len - lenZ b)) with (Z.to_nat len - length b)%nat by (unfold lenZ in *; lia).
  assert (take (Z.to_nat len) (drop p file) =
          b ++ take (Z.to_nat len - length b) (drop (p + length b) file)) as Hsplit.
  { replace b with (take (length b) (drop p file)) at 1
      by (rewrite Hl; unfold b; rewrite <- length_drop; apply take_min || by rewrite <- firstn_firstn, firstn_all).
    rewrite <- drop_drop, take_take_drop. f_equal. lia. }
  rewrite Hsplit, lenZ_app, Z.add_assoc. set (rest := take _ (drop (p + _) file)). f_equal. f_equal.
  assert (Z.to_nat (doff + lenZ b) = (Z.to_nat doff + length b)%nat) as Hoff by (unfold lenZ; lia).
  rewrite Hoff. clearbody b rest. destruct b as [|x b']; [by cbn in Hb0|].
  destruct rest as [|r rest']; [by rewrite app_nil_r|].
  unfold d1. unfold contents at 1. simpl buf_mem. simpl default.
  rewrite splice_at_compose by (unfold lenZ in *; lia). done.
Qed.

(** ** Properties *)

(** C23: [fuse_buf_copy] between memory vectors ends and copies as many
    bytes as both vectors have left: from the destination's position on, its
    bytes become the source's, whatever the fragmentation of the two; no buffer
    changes its size and the source is not written. *)
Theorem buf_copy_memory `{FileIO W} HS dstv srcv flags (w : W) :
  mem_vec dstv -> mem_vec srcv ->
  let n := Nat.min (length (rest srcv)) (length (rest dstv)) in
  exists dstv' srcv',
    fuse_buf_copy HS false dstv srcv flags w = Done (Z.of_nat n, dstv', srcv') w /\
    flat dstv' = splice_at (flat dstv) (start dstv) (take n (rest srcv)) /\
    map buf_size (bv_buf dstv') = map buf_size (bv_buf dstv) /\ bv_buf srcv' = bv_buf srcv.
Proof.
  intros Hd Hs n. unfold fuse_buf_copy.
  destruct (copy_rounds_memory (length (bv_buf srcv) + length (bv_buf dstv)) dstv srcv HS flags 0 w)
    as (d' & s' & Hrun & [Hf Hm] & Hb); [done|done|lia|unfold left; lia|].
  exists d', s'. rewrite Hrun. by rewrite Z.add_0_l.
Qed.

Definition mem_of (l : list Z) : fuse_buf :=
  {| buf_size := lenZ l; buf_flags := 0; buf_mem := Some l; buf_fd := 0; buf_pos := 0; buf_mem_size := 0 |}.
Definition vec_of (off : Z) (l : list (list Z)) : fuse_bufvec :=
  {| bv_idx := 0; bv_off := off; bv_buf := map mem_of l |}.
Lemma vec_of_mem off x l : 0 <= off <= lenZ x -> mem_vec (vec_of off (x :: l)).
Proof.
  intros Ho. split; [|split; [done|split; [simpl; lia|]]].
  - apply Forall_forall. intros b Hb. unfold vec_of in Hb. cbn [bv_buf] in Hb.
    change (map mem_of (x :: l)) with (mem_of <$> x :: l) in Hb.
    apply list_elem_of_fmap in Hb as (y & -> & _). split; [done|]. by eexists.
  - intros b [= <-]. simpl. lia.
Qed.

Lemma buf_copy_memory_witness : exists d' s',
  fuse_buf_copy (W := world) false false (vec_of 1 [[0; 0]; [0; 0; 0]]) (vec_of 0 [[7]; [8; 9]; [5]]) 0 ∅
    = Done (4, d', s') ∅ /\ flat d' = [0; 7; 8; 9; 5].
Proof.
  destruct (buf_copy_memory (W := world) false (vec_of 1 [[0; 0]; [0; 0; 0]]) (vec_of 0 [[7]; [8; 9]; [5]])
              0 ∅) as (d' & s' & Hrun & Hf & _).
  - by apply vec_of_mem.
  - by apply vec_of_mem.
  - exists d', s'. split; [exact Hrun|]. rewrite Hf. vm_compute. reflexivity.
Defined.

(** A copy from a regular file into memory with [FUSE_BUF_FD_SEEK] and
    [FUSE_BUF_FD_RETRY] delivers the whole range up to the end of the file,
    although each [pread] may answer short. *)
Theorem read_retries_short_reads `{FileIO W} (file : list Z) src dst doff soff len (w : W) :
  regular_file (W := W) (buf_fd src) file ->
  has_flag (buf_flags src) FUSE_BUF_FD_SEEK = true ->
  has_flag (buf_flags src) FUSE_BUF_FD_RETRY = true -> 0 <= buf_pos src ->
  mem_buf dst -> 0 <= doff -> 0 <= soff -> 0 <= len -> doff + len <= buf_size dst ->
  let data := take (Z.to_nat len) (drop (Z.to_nat (buf_pos src + soff)) file) in
  exists dst', fuse_buf_read (Z.to_nat len) dst doff src soff len 0 w = Done (lenZ data, dst') w /\
    contents dst' = splice_at (contents dst) (Z.to_nat doff) data.
Proof.
  intros Hfile Hs Hr Hp Hd H0 H1 H2 H3 data. eexists. split.
  - rewrite (read_rounds file src (Z.to_nat len)) by done. by rewrite Z.add_0_l.
  - fold data. destruct data; [by rewrite splice_at_nil|done].
Qed.

Definition file_buf (fd pos flags size : Z) : fuse_buf :=
  {| buf_size := size; buf_flags := flags; buf_mem := None; buf_fd := fd; buf_pos := pos; buf_mem_size := 0 |}.

(** A file system with one file. *)
Definition one_file (file : list Z) : FileIO unit := {|
  io_read := fun fd pos len w =>
    (inr (take (Nat.min chunk (Z.to_nat len)) (drop (Z.to_nat (default 0 pos)) file)), w);
  io_write := fun fd pos data w => (inl EBADF, w);
  io_splice := fun sfd sp dfd dp len fl w => (inl EINVAL, w);
|}.

Lemma read_retries_short_reads_witness :
  let file := [1; 2; 3; 4; 5; 6; 7; 8; 9] in
  exists dst', @fuse_buf_read unit (one_file file) 8 (mem_of (replicate 10 0)) 1
                 (file_buf 5 2 14 100) 1 8 0 tt = Done (6, dst') tt /\
    contents dst' = [0; 4; 5; 6; 7; 8; 9; 0; 0; 0].
Proof.
  intros file.
  destruct (@read_retries_short_reads unit (one_file file) file (file_buf 5 2 14 100)
              (mem_of (replicate 10 0)) 1 1 8 tt) as (d' & Hrun & Hc);
    try (vm_compute; congruence).
  - intros p len w Hp Hl. eexists. split; [reflexivity|]. simpl default. split; [lia|].
    intros Hz. unfold chunk in Hz. lia.
  - split; [done|]. by eexists.
  - exists d'. split; [exact Hrun|]. rewrite Hc. vm_compute. reflexivity.
Defined.

(** C24: whatever the files answer, and for any mix of memory and descriptors,
    [fuse_buf_copy] ends, touches no byte outside a buffer, passes the assertion
    of [fuse_bufvec_advance] and leaves both vectors well-formed. *)
Theorem buf_copy_safe `{FileIOLaws W} HS dstv srcv flags (w : W) :
  good_vec dstv -> good_vec srcv ->
  exists r dstv' srcv' w', fuse_buf_copy HS false dstv srcv flags w = Done (r, dstv', srcv') w' /\
    good_vec dstv' /\ good_vec srcv' /\ bv_buf srcv' = bv_buf srcv.
Proof.
  intros Hd Hs. unfold fuse_buf_copy.
  destruct (safe_run _ _ w (safe_copy_rounds (length (bv_buf srcv) + length (bv_buf dstv)) HS flags
              dstv srcv 0 Hd Hs ltac:(lia))) as ([[r d'] s'] & w' & Hrun & Hq).
  exists r, d', s', w'. by rewrite Hrun.
Qed.

Lemma buf_copy_safe_witness : exists r dstv' srcv' w',
  fuse_buf_copy (W := world) true false (vec_of 0 [[0; 0; 0; 0]; [0; 0]])
    {| bv_idx := 0; bv_off := 0; bv_buf := [file_buf 5 0 6 4] |} 0 {[5 := [1; 2; 3; 4]]}
    = Done (r, dstv', srcv') w' /\ r = 3.
Proof.
  destruct (@buf_copy_safe world _ world_io_laws true (vec_of 0 [[0; 0; 0; 0]; [0; 0]])
              {| bv_idx := 0; bv_off := 0; bv_buf := [file_buf 5 0 6 4] |} 0 {[5 := [1; 2; 3; 4]]})
    as (r & d' & s' & w' & Hrun & _).
  - split; [|split; [done|split; [done|]]].
    + apply Forall_cons. split; [|apply Forall_singleton]; left; (split; [done|by eexists]).
    + intros b [= <-]. done.
  - split; [|split; [done|split; [done|]]].
    + apply Forall_singleton. right. split; done.
    + intros b [= <-]. done.
  - exists r, d', s', w'. split; [exact Hrun|]. revert Hrun. vm_compute.
intros E. by inversion E.
Defined.
