(* ===== verification/CopyRange.v ===== *)
(** * src/copy_file_range.cc: copying between descriptors

    The kernel's [copy_file_range] where it works, and the copy in chunks through
    a buffer where it does not.  Files are behind [FileIO] of BufCopy.v; the
    system call is the class [KernelCopy].  A failed call is [inl errno] for the
    source's [-1]; explicit offsets are [Some] and are returned with their new
    value. *)
From S2P Require Import Prelude Errno Sys Napi FuseBuf BufCopy.

Abbreviation DEFAULT_CHUNK_SIZE := 4194304 (only parsing).
Abbreviation MAX_CHUNK_SIZE := 8388608 (only parsing).
Abbreviation MIN_CHUNK_SIZE := 65536 (only parsing).
Abbreviation EINTR := 4 (only parsing).
Abbreviation EOPNOTSUPP := 95 (only parsing).
Abbreviation EXDEV := 18 (only parsing).
Abbreviation ENOSPC := 28 (only parsing).

(** [copy_file_range] of the kernel: it advances the explicit offsets by its
    result. *)
Class KernelCopy (W : Type) := {
  io_copy_file_range : Z -> option Z -> Z -> option Z -> Z -> Z -> W -> io_result Z * W;
}.

Record Stats := { totalOperations : Z; totalBytesCopied : Z }.
Record CopyFileRange := { chunkSize_ : Z; useKernelCopy_ : bool; stats_ : Stats }.

Definition no_stats : Stats := {| totalOperations := 0; totalBytesCopied := 0 |}.
Definition set_kernel (b : bool) (c : CopyFileRange) : CopyFileRange :=
  {| chunkSize_ := chunkSize_ c; useKernelCopy_ := b; stats_ := stats_ c |}.
Definition set_stats (st : Stats) (c : CopyFileRange) : CopyFileRange :=
  {| chunkSize_ := chunkSize_ c; useKernelCopy_ := useKernelCopy_ c; stats_ := st |}.

Definition setChunkSize (chunkSize : Z) (c : CopyFileRange) : CopyFileRange :=
  {| chunkSize_ := Z.min (Z.max chunkSize MIN_CHUNK_SIZE) MAX_CHUNK_SIZE;
     useKernelCopy_ := useKernelCopy_ c; stats_ := stats_ c |}.
Definition getChunkSize (c : CopyFileRange) : Z := chunkSize_ c.
Definition isKernelCopySupported (c : CopyFileRange) : bool := useKernelCopy_ c.
Definition getStats (c : CopyFileRange) : Stats := stats_ c.
Definition resetStats (c : CopyFileRange) : CopyFileRange := set_stats no_stats c.

Section Copy.
Context {W : Type} `{FileIO W} `{KernelCopy W}.
(** Whether [aligned_alloc] gives that many bytes. *)
Variable aligned_alloc : Z -> bool.

Definition stuck {A} (what : string) : prog W A := fun w => Stuck what w.

(** The probe with invalid descriptors. *)
Definition testKernelSupport (c : CopyFileRange) : prog W CopyFileRange :=
  r ← io (io_copy_file_range (-1) None (-1) None 0 0);
  mret (match r with inl e => if e =? ENOSYS then set_kernel false c else c | inr _ => c end).
Definition new_CopyFileRange : prog W CopyFileRange :=
  testKernelSupport {| chunkSize_ := DEFAULT_CHUNK_SIZE; useKernelCopy_ := true; stats_ := no_stats |}.

Definition moved (off : option Z) (n : Z) : option Z := option_map (fun o => o + n) off.

(** The loop that writes one chunk; an interrupted write is tried again. *)
Fixpoint write_chunk (fuel : nat) (fdOut : Z) (offsetOut : option Z) (data : list Z) (bytesWritten : Z)
    : prog W (io_result unit) :=
  if bytesWritten <? lenZ data then
    match fuel with
    | O => stuck "write"
    | S fuel =>
        r ← io (io_write fdOut (moved offsetOut bytesWritten) (drop (Z.to_nat bytesWritten) data));
        match r with
        | inl errno => if errno =? EINTR then write_chunk fuel fdOut offsetOut data bytesWritten
                       else mret (inl errno)
        | inr written =>
            if written =? 0 then mret (inl ENOSPC)
            else write_chunk fuel fdOut offsetOut data (bytesWritten + written)
        end
    end
  else mret (inr tt).

(** How the loop over the chunks ends: by [break] or the length, or by a [return]
    inside it, which leaves the caller's offsets alone. *)
Inductive rounds_end :=
  | Finished (totalCopied : Z) (offsetIn offsetOut : option Z)
  | Returned (result : io_result Z).
Definition partial (totalCopied errno : Z) : rounds_end :=
  Returned (if 0 <? totalCopied then inr (s64 totalCopied) else inl errno).

Fixpoint chunk_rounds (fuel wfuel : nat) (fdIn : Z) (offsetIn : option Z) (fdOut : Z)
    (offsetOut : option Z) (length chunkSize totalCopied : Z) : prog W rounds_end :=
  if totalCopied <? length then
    match fuel with
    | O => stuck "copy"
    | S fuel =>
        let chunkToCopy := Z.min (length - totalCopied) chunkSize in
        r ← io (io_read fdIn offsetIn chunkToCopy);
        match r with
        | inl errno => mret (partial totalCopied errno)
        | inr data =>
            if lenZ data =? 0 then mret (Finished totalCopied offsetIn offsetOut)
            else
              w ← write_chunk wfuel fdOut offsetOut data 0;
              match w with
              | inl errno => mret (partial totalCopied errno)
              | inr _ =>
                  let totalCopied := totalCopied + lenZ data in
                  let offsetIn := moved offsetIn (lenZ data) in
                  let offsetOut := moved offsetOut (lenZ data) in
                  if lenZ data <? chunkToCopy then mret (Finished totalCopied offsetIn offsetOut)
                  else chunk_rounds fuel wfuel fdIn offsetIn fdOut offsetOut length chunkSize totalCopied
              end
        end
    end
  else mret (Finished totalCopied offsetIn offsetOut).

(** The result and the caller's offsets after the call. *)
Definition copy_result : Type := io_result Z * option Z * option Z.

(** Every round moves a byte, so [length] rounds are enough; [wfuel] bounds the
    rounds of one write loop, which an endless stream of EINTR prolongs. *)
Definition chunkedCopyFileRange (wfuel : nat) (c : CopyFileRange) (fdIn : Z) (offsetIn : option Z) (fdOut : Z)
    (offsetOut : option Z) (length : Z) : prog W copy_result :=
  if length =? 0 then mret (inr 0, offsetIn, offsetOut)
  else
    let actualChunkSize := Z.min (Z.max length MIN_CHUNK_SIZE) (chunkSize_ c) in
    if negb (aligned_alloc (u64 (Z.land (actualChunkSize + 4095) (Z.lnot 4095)))) then
      mret (inl ENOMEM, offsetIn, offsetOut)
    else
      e ← chunk_rounds (Z.to_nat length) wfuel fdIn offsetIn fdOut offsetOut length actualChunkSize 0;
      mret (match e with
            | Finished total offsetIn offsetOut => (inr (s64 total), offsetIn, offsetOut)
            | Returned r => (r, offsetIn, offsetOut)
            end).

Definition kernelCopyFileRange (fdIn : Z) (offsetIn : option Z) (fdOut : Z) (offsetOut : option Z)
    (length flags : Z) : prog W copy_result :=
  r ← io (io_copy_file_range fdIn offsetIn fdOut offsetOut length flags);
  mret (match r with
        | inl errno => (inl errno, offsetIn, offsetOut)
        | inr n => (inr n, moved offsetIn n, moved offsetOut n)
        end).

Definition copyFileRange (wfuel : nat) (c : CopyFileRange) (fdIn : Z) (offsetIn : option Z) (fdOut : Z)
    (offsetOut : option Z) (length flags : Z) : prog W (copy_result * CopyFileRange) :=
  if length =? 0 then mret ((inr 0, offsetIn, offsetOut), c)
  else
    k ← (if useKernelCopy_ c then
           r ← kernelCopyFileRange fdIn offsetIn fdOut offsetOut length flags; mret (Some r)
         else mret None);
    match (k : option copy_result) with
    | Some ((inr n, oi, oo)) => mret ((inr n, oi, oo), c)
    | Some ((inl errno, oi, oo)) =>
        if negb (errno =? ENOSYS) && negb (errno =? EOPNOTSUPP) && negb (errno =? EXDEV)
        then mret ((inl errno, oi, oo), c)
        else
          let c := if (errno =? ENOSYS) || (errno =? EOPNOTSUPP) then set_kernel false c else c in
          r ← chunkedCopyFileRange wfuel c fdIn offsetIn fdOut offsetOut length; mret (r, c)
    | None => r ← chunkedCopyFileRange wfuel c fdIn offsetIn fdOut offsetOut length; mret (r, c)
    end.

(** ** The functions JavaScript calls

    Each has a [static thread_local CopyFileRange copier] of its own, made on the
    first call. *)

Inductive js_function := CreateCopyFileRange | SetChunkSize | GetChunkSize | GetStats | ResetStats.
#[export] Instance js_function_eq_dec : EqDecision js_function.
Proof. solve_decision. Defined.
#[export] Instance js_function_countable : Countable js_function.
Proof.
  refine (inj_countable' (fun f => match f with CreateCopyFileRange => 0%nat | SetChunkSize => 1%nat
    | GetChunkSize => 2%nat | GetStats => 3%nat | ResetStats => 4%nat end)
    (fun n => match n with 0 => CreateCopyFileRange | 1 => SetChunkSize | 2 => GetChunkSize | 3 => GetStats
    | _ => ResetStats end%nat) _). by intros [].
Defined.

Record js_copy := { copiers : gmap js_function CopyFileRange; fs : W }.

Definition on_files {A} (m : prog W A) : prog js_copy A := fun s =>
  match m (fs s) with
  | Done a w => Done a {| copiers := copiers s; fs := w |}
  | Throws w => Throws {| copiers := copiers s; fs := w |}
  | Stuck mu w => Stuck mu {| copiers := copiers s; fs := w |}
  end.
Definition put_copier (f : js_function) (c : CopyFileRange) : prog js_copy unit :=
  pmodify (fun s => {| copiers := <[f := c]> (copiers s); fs := fs s |}).
Definition copier_of (f : js_function) : prog js_copy CopyFileRange :=
  s ← pget;
  match copiers s !! f with
  | Some c => mret c
  | None => c ← on_files new_CopyFileRange; _ ← put_copier f c; mret c
  end.

Context `{NapiConv}.
(** [GetInt32], [GetBigUint64], [GetUint32]: whether an exception is pending now,
    and the value. *)
Definition GetInt32 (v : js) : bool * Z :=
  match v with JNumber d => (false, Int32Value d) | _ => (true, 0) end.
Definition GetUint32 (v : js) : bool * Z :=
  match v with JNumber d => (false, Uint32Value d) | _ => (true, 0) end.
Definition GetBigUint64 (v : js) : bool * Z :=
  match bigint_to_u64 v with Some z => (false, z) | None => (true, 0) end.
Definition argument (info : list js) (i : nat) : js := default JUndefined (info !! i).
Definition explicit (off : Z) : option Z := if off =? UINT64_MAX then None else Some (s64 off).

(** [None] is a JavaScript exception. *)
Definition js_CreateCopyFileRange (wfuel : nat) (info : list js) : prog js_copy (option js) :=
  if (length info <? 6)%nat then mret None
  else
    let '(p0, fdIn) := GetInt32 (argument info 0) in
    let '(p1, offsetIn) := GetBigUint64 (argument info 1) in
    let '(p2, fdOut) := GetInt32 (argument info 2) in
    let '(p3, offsetOut) := GetBigUint64 (argument info 3) in
    let '(p4, len) := GetBigUint64 (argument info 4) in
    let '(p5, flags) := if (6 <? length info)%nat then GetUint32 (argument info 6) else (false, 0) in
    copier ← copier_of CreateCopyFileRange;
    r ← on_files (copyFileRange wfuel copier fdIn (explicit offsetIn) fdOut (explicit offsetOut) len flags);
    let '((result, _, _), copier) := r : copy_result * CopyFileRange in
    match result with
    | inl _ => _ ← put_copier CreateCopyFileRange copier; mret None
    | inr n =>
        let st := stats_ copier in
        _ ← put_copier CreateCopyFileRange
              (set_stats {| totalOperations := u64 (totalOperations st + 1);
                            totalBytesCopied := u64 (totalBytesCopied st + n) |} copier);
        mret (if p0 || p1 || p2 || p3 || p4 || p5 then None else Some (JBigInt (u64 n)))
    end.
Definition js_SetChunkSize (info : list js) : prog js_copy (option js) :=
  if (length info <? 1)%nat then mret None
  else
    let '(p, chunkSize) := GetBigUint64 (argument info 0) in
    copier ← copier_of SetChunkSize;
    _ ← put_copier SetChunkSize (setChunkSize chunkSize copier);
    mret (if p then None else Some JUndefined).
Definition js_GetChunkSize : prog js_copy (option js) :=
  copier ← copier_of GetChunkSize; mret (Some (JBigInt (getChunkSize copier))).
Definition js_GetStats : prog js_copy (option js) :=
  copier ← copier_of GetStats;
  mret (Some (JObject [("totalOperations"%string, JBigInt (totalOperations (getStats copier)));
                       ("totalBytesCopied"%string, JBigInt (totalBytesCopied (getStats copier)));
                       ("kernelCopySupported"%string, JBoolean (isKernelCopySupported copier))])).
Definition js_ResetStats : prog js_copy (option js) :=
  copier ← copier_of ResetStats; _ ← put_copier ResetStats (resetStats copier); mret (Some JUndefined).

(** A call from JavaScript. *)
Definition js_call (wfuel : nat) (f : js_function) (info : list js) : prog js_copy (option js) :=
  match f with
  | CreateCopyFileRange => js_CreateCopyFileRange wfuel info
  | SetChunkSize => js_SetChunkSize info
  | GetChunkSize => js_GetChunkSize
  | GetStats => js_GetStats
  | ResetStats => js_ResetStats
  end.
Fixpoint js_calls (wfuel : nat) (l : list (js_function * list js)) : prog js_copy (list (option js)) :=
  match l with
  | [] => mret []
  | (f, info) :: l => r ← js_call wfuel f info; rs ← js_calls wfuel l; mret (r :: rs)
  end.
End Copy.

(** ** Regular files *)

(** Writing [data] at [p]: a gap before it is filled with zeros, and writing
    nothing changes nothing. *)
Definition write_at (p : Z) (data l : list Z) : list Z :=
  match data with
  | [] => l
  | _ => splice_at (l ++ replicate (Z.to_nat p - length l) 0) (Z.to_nat p) data
  end.

Lemma splice_at_extend {A} (l : list A) o d d' : (o <= length l)%nat ->
  splice_at (splice_at l o d) (o + length d) d' = splice_at l o (d ++ d').
Proof.
  intros Ho. unfold splice_at.
  assert (length (take o l) = o) as Hl by (rewrite length_take; lia).
  rewrite (app_assoc (take o l) d (drop (o + length d) l)).
  rewrite take_app_le, take_ge by (rewrite length_app; lia).
  rewrite drop_app_ge by (rewrite length_app; lia). rewrite drop_drop, <- !app_assoc. do 4 f_equal.
  rewrite !length_app. lia.
Qed.

Lemma write_at_compose p d d' l : 0 <= p -> write_at (p + lenZ d) d' (write_at p d l) = write_at p (d ++ d') l.
Proof.
  intros Hp. destruct d as [|x d]; [by rewrite Z.add_0_r|]. destruct d' as [|y d']; [by rewrite app_nil_r|].
  set (e := x :: d). set (e' := y :: d').
  set (l' := l ++ replicate (Z.to_nat p - length l) 0).
  assert (Z.to_nat p <= length l')%nat as Hl by (unfold l'; rewrite length_app, length_replicate; lia).
  change (splice_at (splice_at l' (Z.to_nat p) e ++
    replicate (Z.to_nat (p + lenZ e) - length (splice_at l' (Z.to_nat p) e)) 0) (Z.to_nat (p + lenZ e)) e' =
    splice_at l' (Z.to_nat p) (e ++ e')).
  assert (Z.to_nat (p + lenZ e) = Z.to_nat p + length e)%nat as -> by (unfold lenZ; lia).
  assert (length (splice_at l' (Z.to_nat p) e) >= Z.to_nat p + length e)%nat.
  { unfold splice_at. rewrite !length_app, length_take. lia. }
  replace (_ - _)%nat with 0%nat by lia. rewrite app_nil_r. by apply splice_at_extend.
Qed.

Section Regular.
Context {W : Type} `{FileIO W} `{KernelCopy W}.
Variable contents : Z -> W -> list Z.
(** How many more writes may be interrupted. *)
Variable patience : W -> nat.

(** What [pread] and [pwrite] do to regular files: a read may answer short, but
    nothing only at the end of the file. *)
Record regular_files : Prop := {
  rf_read : forall fd p n w, 0 <= p -> 0 < n -> exists k,
    io_read fd (Some p) n w = (inr (take k (drop (Z.to_nat p) (contents fd w))), w) /\
    Z.of_nat k <= n /\ (k = 0%nat -> lenZ (contents fd w) <= p);
  rf_write : forall fd p data w, 0 <= p -> data <> [] ->
    match io_write fd (Some p) data w with
    | (inl e, w') => (patience w' <= patience w)%nat /\ (e = EINTR -> (patience w' < patience w)%nat) /\
                     forall fd', contents fd' w' = contents fd' w
    | (inr k, w') => (patience w' <= patience w)%nat /\ 0 <= k <= lenZ data /\
                     contents fd w' = write_at p (take (Z.to_nat k) data) (contents fd w) /\
                     forall fd', fd' <> fd -> contents fd' w' = contents fd' w
    end;
}.
(** Reads that answer all that is there. *)
Definition full_reads : Prop := forall fd p n w, 0 <= p -> 0 < n ->
  io_read fd (Some p) n w = (inr (take (Z.to_nat n) (drop (Z.to_nat p) (contents fd w))), w).

(** Writes that make progress, interruptions apart. *)
Definition good_writes : Prop := forall fd p data w, 0 <= p -> data <> [] ->
  match (io_write fd (Some p) data w).1 with inl e => e = EINTR | inr k => k <> 0 end.

Hypothesis Hfiles : regular_files.

(** [fdOut] holds [c0] with [data] written at [p], and the other files are as in
    [w0]. *)
Definition written (fdOut p : Z) (data : list Z) (w0 w : W) : Prop :=
  contents fdOut w = write_at p data (contents fdOut w0) /\
  (forall fd, fd <> fdOut -> contents fd w = contents fd w0) /\ (patience w <= patience w0)%nat.

Lemma written_start fdOut p w : written fdOut p [] w w.
Proof. by split. Qed.
Lemma written_more fdOut p d d' w0 w w' : 0 <= p -> written fdOut p d w0 w ->
  written fdOut (p + lenZ d) d' w w' -> written fdOut p (d ++ d') w0 w'.
Proof.
  intros Hp (H1 & H2 & H3) (H4 & H5 & H6). split; [|split; [|lia]].
  - rewrite H4, H1. by apply write_at_compose.
  - intros fd Hfd. by rewrite H5, H2.
Qed.

(** The write loop ends, and has written what it says. *)
Lemma write_chunk_spec fuel fdOut p data : forall b w, 0 <= p -> 0 <= b <= lenZ data ->
  (patience w + Z.to_nat (lenZ data - b) < fuel)%nat ->
  exists r w' m, write_chunk fuel fdOut (Some p) data b w = Done r w' /\ 0 <= m <= lenZ data - b /\
    written fdOut (p + b) (take (Z.to_nat m) (drop (Z.to_nat b) data)) w w' /\
    (r = inr tt -> m = lenZ data - b) /\ (good_writes -> r = inr tt).
Proof.
  induction fuel as [|fuel IH]; intros b w Hp Hb Hfuel; [lia|]. cbn [write_chunk].
  destruct (Z.ltb_spec b (lenZ data)) as [Hlt|Hge].
  2: { exists (inr tt), w, 0. split; [done|]. split; [lia|]. split; [apply written_start|]. split; [lia|done]. }
  set (tail := drop (Z.to_nat b) data). assert (lenZ tail = lenZ data - b) as Htail.
  { unfold tail, lenZ in *. rewrite length_drop. lia. }
  assert (tail <> []) as Hne by (intros He; rewrite He in Htail; unfold lenZ in *; simpl in *; lia).
  pose proof (rf_write Hfiles fdOut (p + b) tail w ltac:(lia) Hne) as Hw.
  assert (good_writes -> match (io_write fdOut (Some (p + b)) tail w).1 with inl e => e = EINTR | inr k => k <> 0 end)
    as Hgood by (intros Hgw; apply Hgw; [lia|done]).
  destruct (io_write fdOut (Some (p + b)) tail w) as [r w1] eqn:Hio. simpl in Hgood.
  erewrite bind_done; [|unfold io, moved; simpl; fold tail; rewrite Hio; reflexivity].
  destruct r as [e|k]; cbv beta iota.
  - destruct Hw as (Hpat & Hintr & Hsame). destruct (Z.eqb_spec e EINTR) as [->|].
    + specialize (Hintr eq_refl). destruct (IH b w1 Hp Hb ltac:(lia)) as (r & w' & m & Hrun & Hm & Hwr & Hr).
      exists r, w', m. split; [done|]. split; [done|]. split; [|done].
      change (take (Z.to_nat m) tail) with ([] ++ take (Z.to_nat m) tail).
      eapply written_more; [lia| |change (lenZ (@nil Z)) with 0; rewrite Z.add_0_r; exact Hwr].
      split; [apply Hsame|]. split; [intros; apply Hsame|lia].
    + exists (inl e), w1, 0. split; [done|]. split; [lia|]. split; [|split; [done|intros Hg; by apply Hgood in Hg]].
      split; [apply Hsame|]. split; [intros; apply Hsame|lia].
  - destruct Hw as (Hpat & Hk & Hcont & Hsame). destruct (Z.eqb_spec k 0) as [->|].
    + exists (inl ENOSPC), w1, 0. split; [done|]. split; [lia|]. split; [by split|].
      split; [done|intros Hg; by apply Hgood in Hg].
    + destruct (IH (b + k) w1 Hp ltac:(lia) ltac:(lia)) as (r & w' & m & Hrun & Hm & Hwr & Hr).
      exists r, w', (k + m). split; [done|]. split; [lia|]. destruct Hr as [Hr Hgo].
      split; [|split; [intros Hr'; specialize (Hr Hr'); lia|done]].
      fold tail. rewrite Z2Nat.inj_add, <- take_take_drop by lia. eapply written_more; [lia| |].
      * split; [exact Hcont|]. by split.
      * assert (lenZ (take (Z.to_nat k) tail) = k) as ->.
        { unfold lenZ in *. rewrite length_take. lia. }
        rewrite <- Z.add_assoc. unfold tail. rewrite drop_drop, <- Z2Nat.inj_add by lia. exact Hwr.
Qed.

(** What a copy of [len] bytes from [oi] of [fdIn] to [oo] of [fdOut] may leave: [m]
    bytes have been written. *)
Definition copied (fdIn oi fdOut oo m : Z) (w0 w : W) : Prop :=
  written fdOut oo (take (Z.to_nat m) (drop (Z.to_nat oi) (contents fdIn w0))) w0 w.
Definition available (fdIn oi : Z) (w : W) : Z := lenZ (drop (Z.to_nat oi) (contents fdIn w)).

Definition ends_well (fdIn oi fdOut oo len : Z) (w0 w : W) (e : rounds_end) : Prop :=
  match e with
  | Finished n i o => copied fdIn oi fdOut oo n w0 w /\ 0 <= n <= Z.min len (available fdIn oi w0) /\
      i = Some (oi + n) /\ o = Some (oo + n) /\
      (full_reads -> n = Z.min len (available fdIn oi w0))
  | Returned r => exists m, copied fdIn oi fdOut oo m w0 w /\ 0 <= m <= Z.min len (available fdIn oi w0) /\
      ~ good_writes /\ match r with inr n => exists n', n = s64 n' /\ 0 < n' <= m | inl _ => True end
  end.

Lemma partial_ends fdIn oi fdOut oo len w0 w total errno m :
  copied fdIn oi fdOut oo m w0 w -> 0 <= m <= Z.min len (available fdIn oi w0) -> total <= m -> ~ good_writes ->
  ends_well fdIn oi fdOut oo len w0 w (partial total errno).
Proof.
  intros Hc Hm Ht Hg. exists m. split; [done|]. split; [done|]. split; [done|].
  destruct (Z.ltb_spec 0 total); [|done]. exists total. split; [done|lia].
Qed.

Lemma chunk_rounds_spec fuel wfuel fdIn oi fdOut oo len chunk w0 : forall total w,
  fdIn <> fdOut -> 0 <= oi -> 0 <= oo -> 0 < chunk ->
  (patience w0 + Z.to_nat chunk < wfuel)%nat -> (Z.to_nat (len - total) < S fuel)%nat ->
  copied fdIn oi fdOut oo total w0 w -> 0 <= total <= Z.min len (available fdIn oi w0) ->
  exists e w', chunk_rounds fuel wfuel fdIn (Some (oi + total)) fdOut (Some (oo + total)) len chunk total w =
      Done e w' /\ ends_well fdIn oi fdOut oo len w0 w' e.
Proof.
  induction fuel as [|fuel IH]; intros total w Hne Hoi Hoo Hch Hwf Hf Hc Ht; cbn [chunk_rounds].
  { destruct (Z.ltb_spec total len); [lia|]. eexists _, _. split; [done|]. simpl. split_and!; try done; lia. }
  destruct (Z.ltb_spec total len) as [Hlt|Hge].
  2: { eexists _, _. split; [done|]. simpl. split_and!; try done; lia. }
  set (n := Z.min (len - total) chunk). assert (0 < n) as Hn by lia.
  assert (contents fdIn w = contents fdIn w0) as Hsrc by by apply Hc.
  destruct (rf_read Hfiles fdIn (oi + total) n w ltac:(lia) Hn) as (k & Hread & Hk & Heof).
  rewrite Hsrc in Hread, Heof.
  set (src := drop (Z.to_nat oi) (contents fdIn w0)) in *.
  assert (drop (Z.to_nat (oi + total)) (contents fdIn w0) = drop (Z.to_nat total) src) as Hdrop.
  { unfold src. rewrite drop_drop. f_equal. lia. }
  rewrite Hdrop in Hread. set (data := take k (drop (Z.to_nat total) src)) in *.
  assert (available fdIn oi w0 = lenZ src) as Hav by done. rewrite Hav in Ht.
  assert (lenZ data = Z.min (Z.of_nat k) (lenZ src - total)) as Hld.
  { unfold data, lenZ in *. rewrite length_take, length_drop. lia. }
  assert (full_reads -> Z.of_nat k < n -> lenZ data = lenZ src - total) as Hfull.
  { intros Hfr Hkn. pose proof (Hfr fdIn (oi + total) n w ltac:(lia) Hn) as Hx.
    rewrite Hsrc, Hdrop, Hread in Hx. injection Hx as Hx. apply (f_equal lenZ) in Hx.
    rewrite Hld in Hx. rewrite Hld. unfold lenZ in Hx at 2. unfold lenZ in *. rewrite length_take, length_drop in Hx. lia. }
  erewrite bind_done; [|unfold io; rewrite Hread; reflexivity]. cbv beta iota.
  destruct (Z.eqb_spec (lenZ data) 0) as [Hd0|Hd0].
  { assert (lenZ src <= total).
    { destruct (Nat.eq_dec k 0) as [Hk0|]; [|lia]. specialize (Heof Hk0). unfold src, lenZ in *.
      rewrite length_drop. lia. }
    eexists _, _. split; [done|]. simpl. rewrite Hav. split_and!; try done; try lia; intros; try lia. }
  assert (patience w <= patience w0)%nat as Hpat by apply Hc.
  destruct (write_chunk_spec wfuel fdOut (oo + total) data 0 w ltac:(lia) ltac:(unfold lenZ; lia) ltac:(unfold lenZ in *; lia))
    as (r & w' & m & Hrun & Hm & Hwr & Hr & Hgo).
  erewrite bind_done by exact Hrun. cbv beta iota.
  rewrite Z.add_0_r, drop_0 in Hwr. rewrite Z.sub_0_r in Hm, Hr.
  assert (copied fdIn oi fdOut oo (total + m) w0 w') as Hc'.
  { unfold copied in *. fold src in Hc |- *. rewrite Z2Nat.inj_add, <- take_take_drop by lia.
    eapply written_more; [done|exact Hc|].
    assert (lenZ (take (Z.to_nat total) src) = total) as -> by (unfold lenZ in *; rewrite length_take; lia).
    unfold data in Hwr. rewrite take_take, Nat.min_l in Hwr by (unfold lenZ in *; lia). exact Hwr. }
  destruct r as [errno|[]].
  { eexists _, _. split; [done|]. eapply partial_ends; [exact Hc'|rewrite Hav; lia|lia|]. intros Hg. by specialize (Hgo Hg). }
  specialize (Hr eq_refl) as ->. unfold moved. cbn [option_map].
  rewrite <- !Z.add_assoc. destruct (Z.ltb_spec (lenZ data) n).
  { eexists _, _. split; [done|]. simpl. rewrite Hav. split_and!; try done; try lia. intros Hfr. specialize (Hfull Hfr). destruct (Z.lt_ge_cases (Z.of_nat k) n); lia. }
  apply IH; try done; try lia.
Qed.

(** C32: copying in chunks between two regular files ends, whatever reads and
    writes are short and however often writes are interrupted: what has been
    written is a prefix of the source's bytes from its offset, at the destination's
    offset and nowhere else; the result never exceeds it, and unless a write
    fails it is exactly that, with both offsets advanced by it, and all that was
    asked for and exists when reads are not short. *)
Theorem chunked_copy_copies aligned_alloc wfuel c fdIn oi fdOut oo len w :
  fdIn <> fdOut -> 0 <= oi -> 0 <= oo -> 0 < len < 2 ^ 63 -> 0 < chunkSize_ c ->
  (forall n, aligned_alloc n = true) -> (patience w + Z.to_nat (chunkSize_ c) < wfuel)%nat ->
  exists r i o w' m,
    chunkedCopyFileRange aligned_alloc wfuel c fdIn (Some oi) fdOut (Some oo) len w = Done (r, i, o) w' /\
    copied fdIn oi fdOut oo m w w' /\ 0 <= m <= Z.min len (available fdIn oi w) /\
    (match r with inr n => 0 <= n <= m | inl _ => True end) /\
    (good_writes -> r = inr m /\ i = Some (oi + m) /\ o = Some (oo + m) /\
       (full_reads -> m = Z.min len (available fdIn oi w))).
Proof.
  intros Hne Hoi Hoo Hlen Hch Ha Hwf. unfold chunkedCopyFileRange. destruct (Z.eqb_spec len 0); [lia|].
  rewrite Ha. cbn [negb]. set (chunk := Z.min (Z.max len MIN_CHUNK_SIZE) (chunkSize_ c)).
  assert (0 <= available fdIn oi w) by (unfold available, lenZ; lia).
  destruct (chunk_rounds_spec (Z.to_nat len) wfuel fdIn oi fdOut oo len chunk w 0 w)
    as (e & w' & Hrun & He); [done|done|done|lia|lia|lia|apply written_start|lia|].
  rewrite !Z.add_0_r in Hrun. erewrite bind_done by exact Hrun. cbv beta iota.
  destruct e as [k i o|r].
  - destruct He as (Hc & Hn & -> & -> & Hfull).
    exists (inr (s64 k)), (Some (oi + k)), (Some (oo + k)), w', k. rewrite wraps_small by (unfold in_s; lia).
    split_and!; try done; lia.
  - destruct He as (m & Hc & Hm & Hg & Hr). exists r, (Some oi), (Some oo), w', m.
    split_and!; try done; try lia. destruct r as [|k]; [done|]. destruct Hr as (k' & -> & Hn').
    rewrite wraps_small by (unfold in_s; lia). lia.
Qed.
End Regular.

(** Regular files whose writes take three bytes at a time and are interrupted
    [intr] times. *)
Record short_files := { sf : gmap Z (list Z); intr : nat }.
Definition sf_contents (fd : Z) (w : short_files) : list Z := default [] (sf w !! fd).
#[export] Instance short_files_io : FileIO short_files := {
  io_read fd pos n w :=
    (inr (take (Z.to_nat n) (drop (Z.to_nat (default 0 pos)) (sf_contents fd w))), w);
  io_write fd pos data w :=
    match intr w with
    | S k => (inl EINTR, {| sf := sf w; intr := k |})
    | O => (inr (Z.min 3 (lenZ data)),
            {| sf := <[fd := write_at (default 0 pos) (take 3 data) (sf_contents fd w)]> (sf w); intr := 0 |})
    end;
  io_splice sfd sp dfd dp n fl w := (inl EINVAL, w);
}.
#[export] Instance short_files_kernel : KernelCopy short_files := {
  io_copy_file_range fdIn oi fdOut oo n fl w := (inl ENOSYS, w);
}.

Lemma short_files_regular : regular_files sf_contents intr.
Proof.
  split.
  - intros fd p n w Hp Hn. exists (Z.to_nat n). split; [done|]. split; [lia|]. lia.
  - intros fd p data w Hp Hne. simpl. destruct w as [f [|k]]; simpl.
    + split; [lia|]. split; [unfold lenZ; lia|]. split.
      * unfold sf_contents at 1. simpl. rewrite lookup_insert_eq. simpl. f_equal.
        destruct (Z.le_gt_cases 3 (lenZ data)); [by rewrite Z.min_l|].
        rewrite Z.min_r by lia. unfold lenZ in *. by rewrite !take_ge by lia.
      * intros fd' Hfd. unfold sf_contents. simpl. by rewrite lookup_insert_ne.
    + split; [lia|]. split; [lia|done].
Qed.

Definition demo_copier : CopyFileRange :=
  {| chunkSize_ := DEFAULT_CHUNK_SIZE; useKernelCopy_ := false; stats_ := no_stats |}.
Definition demo_short : short_files :=
  {| sf := {[ 3 := [1; 2; 3; 4; 5; 6; 7; 8]; 4 := [9] ]}; intr := 2 |}.
Lemma chunked_copy_copies_witness : exists w',
  chunkedCopyFileRange (fun _ => true) (3 + Z.to_nat DEFAULT_CHUNK_SIZE) demo_copier 3 (Some 1) 4 (Some 2) 5 demo_short =
    Done (inr 5, Some 6, Some 7) w' /\ sf_contents 4 w' = [9; 0; 2; 3; 4; 5; 6].
Proof.
  destruct (chunked_copy_copies sf_contents intr short_files_regular (fun _ => true)
    (3 + Z.to_nat DEFAULT_CHUNK_SIZE) demo_copier 3 1 4 2 5 demo_short)
    as (r & i & o & w' & m & Hrun & Hc & _ & _ & Hgood).
  - congruence.
  - lia.
  - lia.
  - lia.
  - reflexivity.
  - reflexivity.
  - change (2 + Z.to_nat DEFAULT_CHUNK_SIZE < 3 + Z.to_nat DEFAULT_CHUNK_SIZE)%nat. lia.
  - destruct Hgood as (-> & -> & -> & Hm).
    { intros fd p data w Hp Hne. simpl. destruct w as [f [|k]]; [|reflexivity]. simpl.
      destruct data as [|x data]; [done|]. unfold lenZ. cbn [length]. lia. }
    specialize (Hm ltac:(intros fd p n w Hp Hn; reflexivity)). change (available sf_contents 3 1 demo_short) with 7 in Hm.
    change (Z.min 5 7) with 5 in Hm. subst m. exists w'. split; [exact Hrun|].
    destruct Hc as (Hc & _). rewrite Hc. vm_compute. reflexivity.
Defined.

(** ** The settings *)

Section Settings.
Context {W : Type} `{FileIO W} `{KernelCopy W} `{NapiConv}.
Variable aligned_alloc : Z -> bool.

(** The copiers of the other functions are never written to. *)
Definition untouched (s : @js_copy W) : Prop :=
  (forall c, copiers s !! CreateCopyFileRange = Some c -> chunkSize_ c = DEFAULT_CHUNK_SIZE) /\
  (forall c, copiers s !! GetChunkSize = Some c -> chunkSize_ c = DEFAULT_CHUNK_SIZE) /\
  (forall c, copiers s !! GetStats = Some c -> stats_ c = no_stats).

Definition answer_ok (f : js_function) (r : option js) : Prop :=
  match f with
  | GetChunkSize => r = Some (JBigInt DEFAULT_CHUNK_SIZE)
  | GetStats => exists b, r = Some (JObject [("totalOperations"%string, JBigInt 0);
                                  ("totalBytesCopied"%string, JBigInt 0);
                                  ("kernelCopySupported"%string, JBoolean b)])
  | _ => True
  end.

(** [m] returns only what satisfies [Q], if it returns. *)
Definition returns {St A} (P : St -> Prop) (m : prog St A) (Q : A -> St -> Prop) : Prop :=
  forall s, P s -> match m s with Done a s' => Q a s' | _ => True end.
Lemma returns_bind {St A B} P (m : prog St A) (k : A -> prog St B) M Q :
  returns P m M -> (forall a, returns (M a) (k a) Q) -> returns P (m ≫= k) Q.
Proof.
  intros Hm Hk s Hs. specialize (Hm s Hs). unfold mbind, prog_bind. destruct (m s) as [a s'| |]; [|done..].
  by apply Hk.
Qed.
Lemma returns_ret {St A} (P : St -> Prop) (a : A) (Q : A -> St -> Prop) :
  (forall s, P s -> Q a s) -> returns P (mret a) Q.
Proof. intros HQ s Hs. by apply HQ. Qed.

Lemma returns_true {St A} P (m : prog St A) : returns P m (fun _ _ => True).
Proof. intros s _. by destruct (m s). Qed.

Definition same_settings (c c' : CopyFileRange) : Prop := chunkSize_ c' = chunkSize_ c /\ stats_ c' = stats_ c.
Lemma copyFileRange_settings wfuel c fdIn oi fdOut oo len flags :
  returns (fun _ : W => True) (copyFileRange aligned_alloc wfuel c fdIn oi fdOut oo len flags)
    (fun r _ => same_settings c r.2).
Proof.
  unfold copyFileRange. destruct (len =? 0); [by apply returns_ret|].
  apply (returns_bind _ _ _ (fun _ _ => True)).
  { apply returns_true. }
  intros [[[[e|n] i] o]|]; [|by apply returns_ret|].
  - destruct (negb (e =? ENOSYS) && _ && _); [by apply returns_ret|].
    apply (returns_bind _ _ _ (fun _ _ => True)); [apply returns_true|].
    intros r. apply returns_ret. intros _ _. by destruct (_ || _).
  - apply (returns_bind _ _ _ (fun _ _ => True)); [apply returns_true|].
    intros r. by apply returns_ret.
Qed.
Lemma new_settings : returns (fun _ : W => True) new_CopyFileRange
  (fun c _ => chunkSize_ c = DEFAULT_CHUNK_SIZE /\ stats_ c = no_stats).
Proof.
  unfold new_CopyFileRange, testKernelSupport.
  apply (returns_bind _ _ _ (fun _ _ => True)); [apply returns_true|].
  intros [e|n]; apply returns_ret; intros _ _; [|done]. by destruct (e =? ENOSYS).
Qed.
Lemma on_files_returns {A} (m : prog W A) (Q : A -> Prop) (P : @js_copy W -> Prop) :
  (forall s w, P s -> P {| copiers := copiers s; fs := w |}) ->
  returns (fun _ => True) m (fun a _ => Q a) -> returns P (on_files m) (fun a s => Q a /\ P s).
Proof.
  intros HP Hm s Hs. unfold on_files. specialize (Hm (fs s) I). destruct (m (fs s)); [|done..].
  split; [done|]. by apply HP.
Qed.

Lemma untouched_fs s w : untouched s -> untouched {| copiers := copiers s; fs := w |}.
Proof. done. Qed.
Definition fresh_settings (f : js_function) (c : CopyFileRange) : Prop :=
  match f with
  | CreateCopyFileRange | GetChunkSize => chunkSize_ c = DEFAULT_CHUNK_SIZE
  | GetStats => stats_ c = no_stats
  | _ => True
  end.
Lemma untouched_put f c s : fresh_settings f c -> untouched s ->
  untouched {| copiers := <[f := c]> (copiers s); fs := fs s |}.
Proof.
  intros Hc (H1' & H2' & H3'). split_and!; simpl; intros c'; rewrite lookup_insert_Some;
    (intros [[-> <-]|[_ Hl]]; [done|by auto]).
Qed.
Lemma copier_of_returns f : returns untouched (copier_of f) (fun c s => fresh_settings f c /\ untouched s).
Proof.
  intros s Hs. unfold copier_of, mbind, prog_bind. simpl. destruct (copiers s !! f) as [c|] eqn:Hc.
  - split; [|done]. destruct Hs as (H1' & H2' & H3'). destruct f; simpl; auto.
  - unfold on_files. pose proof (new_settings (fs s) I) as Hn. destruct (new_CopyFileRange (fs s)); [|done..].
    destruct Hn as [Hn1 Hn2]. assert (fresh_settings f a) as Hf by (by destruct f).
    split; [done|]. by apply (untouched_put f a {| copiers := copiers s; fs := s0 |}).
Qed.
Lemma put_copier_returns f c : fresh_settings f c -> returns untouched (put_copier f c) (fun _ => untouched).
Proof. intros Hc s Hs. by apply untouched_put. Qed.

Lemma js_call_returns wfuel f info :
  returns untouched (js_call aligned_alloc wfuel f info) (fun r s => answer_ok f r /\ untouched s).
Proof.
  destruct f; simpl.
  - unfold js_CreateCopyFileRange. destruct (_ <? _)%nat; [by apply returns_ret|].
    repeat match goal with |- context [let '(_, _) := ?x in _] => destruct x as [? ?] end.
    eapply returns_bind; [apply copier_of_returns|]. intros c. cbv beta.
    apply (returns_bind _ _ _ (fun r s => same_settings c r.2 /\ fresh_settings CreateCopyFileRange c /\ untouched s)).
    { intros s [Hc Hs]. pose proof (on_files_returns _ _ untouched untouched_fs
        (copyFileRange_settings wfuel c z (explicit z0) z1 (explicit z2) z3 z4) s Hs) as Hr.
      destruct (on_files _ s); naive_solver. }
    intros [[[[e|n] i] o] c']; intros s ([Hk _] & Hc & Hs); simpl in *; split; try done;
      (apply (untouched_put CreateCopyFileRange); [simpl; congruence|done]).
  - unfold js_SetChunkSize. destruct (_ <? _)%nat; [by apply returns_ret|]. destruct (GetBigUint64 _).
    eapply returns_bind; [apply copier_of_returns|]. intros c s [_ Hs]. split; [done|]. by apply untouched_put.
  - unfold js_GetChunkSize. eapply returns_bind; [apply copier_of_returns|]. intros c. apply returns_ret.
    intros s [Hc Hs]. split; [|done]. unfold getChunkSize. simpl in *. congruence.
  - unfold js_GetStats. eapply returns_bind; [apply copier_of_returns|]. intros c. apply returns_ret.
    intros s [Hc Hs]. split; [|done]. unfold getStats. simpl in Hc. rewrite Hc. by eexists.
  - unfold js_ResetStats. eapply returns_bind; [apply copier_of_returns|]. intros c s [_ Hs].
    split; [done|]. by apply untouched_put.
Qed.

(** Every function JavaScript calls works on a copier of its own: after
    any calls, SetChunkSize among them, GetChunkSize answers the default of 4 MiB,
    GetStats answers that nothing was copied, and copies use the default chunk. *)
Theorem copy_settings_reach_nobody wfuel l s rs s' :
  copiers s = ∅ -> js_calls aligned_alloc wfuel l s = Done rs s' ->
  Forall2 (fun call r => answer_ok call.1 r) l rs /\
  (forall c, copiers s' !! CreateCopyFileRange = Some c -> chunkSize_ c = DEFAULT_CHUNK_SIZE).
Proof.
  intros Hs Hrun.
  assert (returns untouched (js_calls aligned_alloc wfuel l)
            (fun rs s => Forall2 (fun call r => answer_ok call.1 r) l rs /\ untouched s)) as Hl.
  { clear Hs Hrun s rs s'. induction l as [|[f info] l IH]; [by apply returns_ret|]. cbn [js_calls].
    eapply returns_bind; [apply js_call_returns|]. intros r. cbv beta.
    apply (returns_bind _ _ _ (fun rs s => answer_ok f r /\
             Forall2 (fun call r => answer_ok call.1 r) l rs /\ untouched s)).
    { intros s [Hr Hs]. specialize (IH s Hs). destruct (js_calls _ _ _ s); naive_solver. }
    intros rs. apply returns_ret. intros s (Hr & Hrs & Hs). split; [by constructor|done]. }
  assert (untouched s) as Hu by (unfold untouched; rewrite Hs; split_and!; intros c; by rewrite lookup_empty).
  specialize (Hl s Hu). rewrite Hrun in Hl. destruct Hl as (Hl & Hc & _). by split.
Qed.
End Settings.

Lemma copy_settings_reach_nobody_witness : exists r s',
  @js_calls short_files _ _ (fun _ => true) napi_ref 100
    [(SetChunkSize, [JBigInt 65536]); (GetChunkSize, [])] {| copiers := ∅; fs := demo_short |} = Done [Some JUndefined; r] s' /\
  r = Some (JBigInt 4194304).
Proof.
  assert (exists r s', @js_calls short_files _ _ (fun _ => true) napi_ref 100
    [(SetChunkSize, [JBigInt 65536]); (GetChunkSize, [])] {| copiers := ∅; fs := demo_short |} =
      Done [Some JUndefined; r] s') as (r & s' & Hrun) by (eexists _, _; vm_compute; reflexivity).
  exists r, s'. split; [exact Hrun|].
  eapply (@copy_settings_reach_nobody short_files) in Hrun as [Hall _]; [|reflexivity].
  apply Forall2_cons in Hall as [_ Hall]. apply Forall2_cons in Hall as [Hr _]. exact Hr.
Defined.
