(* ===== verification/Lowlevel.v ===== *)
(** * lib/fuse_lowlevel.c: sessions, requests and replies

    The request objects of a session (a heap with reference counts, the list of
    requests in progress and the list of interrupts waiting for their request),
    the messages written to the device, and every [fuse_reply_*] function.
    Access to a freed request, a failed assertion or a double free is [Throws].
    The library is built without [splice] and without io_uring. *)
From S2P Require Import Prelude Errno Sys LlDirent FuseBuf BufCopy.

(** ** Session state *)

Record fuse_conn_info := {
  proto_major : Z; proto_minor : Z; max_write : Z; max_read : Z; max_readahead : Z;
  capable : Z; want : Z; max_background : Z; congestion_threshold : Z; time_gran : Z;
  max_backing_stack_depth : Z; no_interrupt : bool; capable_ext : Z; want_ext : Z;
  request_timeout : Z;
}.

(** The entries of [struct fuse_lowlevel_ops]; a session has some of them. *)
Inductive ll_op : Set :=
  | op_init | op_destroy | op_lookup | op_forget | op_getattr | op_setattr | op_readlink | op_mknod
  | op_mkdir | op_unlink | op_rmdir | op_symlink | op_rename | op_link | op_open | op_read | op_write
  | op_flush | op_release | op_fsync | op_opendir | op_readdir | op_releasedir | op_fsyncdir
  | op_statfs | op_setxattr | op_getxattr | op_listxattr | op_removexattr | op_access | op_create
  | op_getlk | op_setlk | op_bmap | op_ioctl | op_poll | op_write_buf | op_retrieve_reply
  | op_forget_multi | op_flock | op_fallocate | op_readdirplus | op_copy_file_range | op_lseek
  | op_tmpfile | op_statx.
#[export] Instance ll_op_eq_dec : EqDecision ll_op.
Proof. solve_decision. Defined.

(** A call of an operation; the bridge installs those of [fuse_request]. *)
Inductive ll_call :=
  | Op (q : fuse_request)
  | OpTmpfile (parent mode : Z) (fi : fuse_file_info)
  | OpFlock (ino : Z) (fi : fuse_file_info) (op : Z)
  | OpFallocate (ino mode offset length : Z) (fi : fuse_file_info)
  | OpLseek (ino off whence : Z) (fi : fuse_file_info)
  | OpStatx (ino flags mask : Z) (fi : option fuse_file_info)
  | OpRetrieveReply (cookie ino offset : Z) (bufv : fuse_bufvec).

(** [rq_u] and [rq_data] are the union's words: the unique of the request to
    interrupt, or the interrupt function ([0] is null) and its argument. *)
Record fuse_req := {
  rq_unique : Z; rq_ref_cnt : Z; rq_ctx : fuse_ctx; rq_ch : option nat; rq_interrupted : bool;
  rq_ioctl_64bit : bool; rq_is_uring : bool; rq_is_copy_file_range_64 : bool;
  rq_u : Z; rq_data : Z;
}.

Record retrieve_req := { rr_unique : Z; rr_cookie : Z }.

(** What the negotiation of [INIT] needs besides the connection. *)
Record negotiation := {
  conn_want : Z; conn_want_ext : Z; bufsize : Z; buf_reallocable : bool; uring_enable : bool;
  max_read_mo : Z;
}.

Record session (W : Type) := {
  conn : fuse_conn_info;
  op : ll_op -> bool;
  got_init : bool; got_destroy : bool; se_error : Z; mt_exited : bool;
  deny_others : bool; owner : Z;
  reqs : gmap nat fuse_req;       (* live request objects *)
  next_req : nat;
  rlist : list nat;               (* [se->list] *)
  interrupts : list nat;
  chans : gmap nat Z;             (* reference counts of the channels *)
  notify_list : list retrieve_req;
  notify_ctr : Z;
  allocs : nat;                   (* allocations so far *)
  sends : list (list Z);          (* messages handed to the device *)
  wire : list (list Z);           (* those it accepted *)
  calls : list (nat * ll_call);   (* operations called, with their request *)
  files : W;
  nego : negotiation;
}.
Arguments conn {W} _. Arguments op {W} _ _. Arguments got_init {W} _. Arguments got_destroy {W} _.
Arguments se_error {W} _. Arguments mt_exited {W} _. Arguments deny_others {W} _.
Arguments owner {W} _. Arguments reqs {W} _. Arguments next_req {W} _.
Arguments rlist {W} _. Arguments interrupts {W} _. Arguments chans {W} _.
Arguments notify_list {W} _. Arguments notify_ctr {W} _. Arguments allocs {W} _.
Arguments sends {W} _. Arguments wire {W} _. Arguments calls {W} _. Arguments files {W} _. Arguments nego {W} _.

(** The system around the library: which allocations succeed, what a write to
    the device answers ([Some errno] is a failure), which values
    [strerrordesc_np] knows, and the build's options. *)
Record env := {
  malloc_ok : nat -> bool;
  writev : list (list Z) -> list Z -> option Z;
  strerrordesc_np : Z -> bool;
  posix_memalign : Z -> Z;
  ioctl_backing : Z -> Z -> Z;
  HAVE_STATX : bool;
  dead_stat : stat;  (* what a returned function's [struct stat] holds later *)
}.

Section Update.
Context {W : Type}.
Implicit Types s : session W.

Definition set_heap (r : gmap nat fuse_req) (l i : list nat) (ch : gmap nat Z) s : session W := {|
  conn := conn s; op := op s; got_init := got_init s; got_destroy := got_destroy s;
  se_error := se_error s; mt_exited := mt_exited s; deny_others := deny_others s; owner := owner s;
  reqs := r; next_req := next_req s; rlist := l; interrupts := i; chans := ch;
  notify_list := notify_list s; notify_ctr := notify_ctr s; allocs := allocs s; sends := sends s;
  wire := wire s; calls := calls s; files := files s; nego := nego s |}.
Definition set_reqs r s := set_heap r (rlist s) (interrupts s) (chans s) s.
Definition set_lists l i s := set_heap (reqs s) l i (chans s) s.
Definition set_chans ch s := set_heap (reqs s) (rlist s) (interrupts s) ch s.

Definition set_log (n : nat) (a : nat) (sd w : list (list Z)) (c : list (nat * ll_call)) (f : W) s
    : session W := {|
  conn := conn s; op := op s; got_init := got_init s; got_destroy := got_destroy s;
  se_error := se_error s; mt_exited := mt_exited s; deny_others := deny_others s; owner := owner s;
  reqs := reqs s; next_req := n; rlist := rlist s; interrupts := interrupts s;
  chans := chans s; notify_list := notify_list s; notify_ctr := notify_ctr s; allocs := a;
  sends := sd; wire := w; calls := c; files := f; nego := nego s |}.
Definition set_allocs a s := set_log (next_req s) a (sends s) (wire s) (calls s) (files s) s.
Definition set_next_req n s := set_log n (allocs s) (sends s) (wire s) (calls s) (files s) s.
Definition set_wire sd w s := set_log (next_req s) (allocs s) sd w (calls s) (files s) s.
Definition set_calls c s := set_log (next_req s) (allocs s) (sends s) (wire s) c (files s) s.
Definition set_files f s := set_log (next_req s) (allocs s) (sends s) (wire s) (calls s) f s.

Definition set_notify (nl : list retrieve_req) (ctr : Z) s : session W := {|
  conn := conn s; op := op s; got_init := got_init s; got_destroy := got_destroy s;
  se_error := se_error s; mt_exited := mt_exited s; deny_others := deny_others s; owner := owner s;
  reqs := reqs s; next_req := next_req s; rlist := rlist s;
  interrupts := interrupts s; chans := chans s; notify_list := nl; notify_ctr := ctr;
  allocs := allocs s; sends := sends s; wire := wire s; calls := calls s; files := files s; nego := nego s |}.

Definition set_life (c : fuse_conn_info) (gi gd : bool) (err : Z) (ex : bool) (n : negotiation) s : session W := {|
  conn := c; op := op s; got_init := gi; got_destroy := gd; se_error := err; mt_exited := ex;
  deny_others := deny_others s; owner := owner s; reqs := reqs s;
  next_req := next_req s; rlist := rlist s; interrupts := interrupts s; chans := chans s;
  notify_list := notify_list s; notify_ctr := notify_ctr s; allocs := allocs s; sends := sends s;
  wire := wire s; calls := calls s; files := files s; nego := n |}.
End Update.

Definition set_refs (cnt : Z) (ch : option nat) (u data : Z) (r : fuse_req) : fuse_req := {|
  rq_unique := rq_unique r; rq_ref_cnt := cnt; rq_ctx := rq_ctx r; rq_ch := ch;
  rq_interrupted := rq_interrupted r; rq_ioctl_64bit := rq_ioctl_64bit r; rq_is_uring := rq_is_uring r;
  rq_is_copy_file_range_64 := rq_is_copy_file_range_64 r; rq_u := u; rq_data := data |}.
Definition set_request (unique : Z) (ctx : fuse_ctx) (ch : option nat) (intr : bool) (r : fuse_req)
    : fuse_req := {|
  rq_unique := unique; rq_ref_cnt := rq_ref_cnt r; rq_ctx := ctx; rq_ch := ch;
  rq_interrupted := intr; rq_ioctl_64bit := rq_ioctl_64bit r; rq_is_uring := rq_is_uring r;
  rq_is_copy_file_range_64 := rq_is_copy_file_range_64 r; rq_u := rq_u r; rq_data := rq_data r |}.
Definition set_interrupted (b : bool) (r : fuse_req) : fuse_req :=
  set_request (rq_unique r) (rq_ctx r) (rq_ch r) b r.
Definition set_ctx (ctx : fuse_ctx) (r : fuse_req) : fuse_req :=
  set_request (rq_unique r) ctx (rq_ch r) (rq_interrupted r) r.
Definition set_copy_64 (r : fuse_req) : fuse_req := {|
  rq_unique := rq_unique r; rq_ref_cnt := rq_ref_cnt r; rq_ctx := rq_ctx r; rq_ch := rq_ch r;
  rq_interrupted := rq_interrupted r; rq_ioctl_64bit := rq_ioctl_64bit r; rq_is_uring := rq_is_uring r;
  rq_is_copy_file_range_64 := true; rq_u := rq_u r; rq_data := rq_data r |}.
Definition zero_ctx : fuse_ctx := {| c_uid := 0; c_gid := 0; c_pid := 0; c_umask := 0 |}.
(** [calloc] and [ref_cnt = 1] *)
Definition fresh_req : fuse_req := {|
  rq_unique := 0; rq_ref_cnt := 1; rq_ctx := zero_ctx; rq_ch := None; rq_interrupted := false;
  rq_ioctl_64bit := false; rq_is_uring := false; rq_is_copy_file_range_64 := false; rq_u := 0;
  rq_data := 0 |}.

Abbreviation FOPEN_DIRECT_IO := 1 (only parsing).
Abbreviation FOPEN_KEEP_CACHE := 2 (only parsing).
Abbreviation FOPEN_NONSEEKABLE := 4 (only parsing).
Abbreviation FOPEN_CACHE_DIR := 8 (only parsing).
Abbreviation FOPEN_NOFLUSH := 32 (only parsing).
Abbreviation FOPEN_PARALLEL_DIRECT_WRITES := 64 (only parsing).
Abbreviation FOPEN_PASSTHROUGH := 128 (only parsing).
Abbreviation FUSE_COMPAT_ENTRY_OUT_SIZE := 120 (only parsing).
Abbreviation FUSE_COMPAT_ATTR_OUT_SIZE := 96 (only parsing).
Abbreviation FUSE_COMPAT_STATFS_SIZE := 48 (only parsing).
Abbreviation F_RDLCK := 0 (only parsing).
Abbreviation F_WRLCK := 1 (only parsing).
Abbreviation F_UNLCK := 2 (only parsing).
Abbreviation OFFSET_MAX := 9223372036854775807 (only parsing).
Abbreviation FUSE_IOCTL_RETRY := 4 (only parsing).
Abbreviation ENOTCONN := 107 (only parsing).

(** ** Requests *)

Section Session.
Context {W : Type} `{FileIO W} (E : env).
Abbreviation ll := (prog (session W)).

Definition get_req (p : nat) : ll fuse_req := fun s =>
  match reqs s !! p with Some r => Done r s | None => Throws s end.
Definition put_req (p : nat) (f : fuse_req -> fuse_req) : ll unit :=
  r ← get_req p; pmodify (fun s => set_reqs (<[p := f r]> (reqs s)) s).

(** [malloc], [calloc] *)
Definition allocate : ll bool := fun s =>
  Done (malloc_ok E (allocs s)) (set_allocs (S (allocs s)) s).

Definition fuse_chan_get (ch : nat) : ll unit := fun s =>
  match chans s !! ch with
  | Some ctr => if ctr <=? 0 then Throws s else Done tt (set_chans (<[ch := ctr + 1]> (chans s)) s)
  | None => Throws s
  end.
(** The last reference closes the channel's descriptor and frees it. *)
Definition fuse_chan_put (ch : option nat) : ll unit := fun s =>
  match ch with
  | None => Done tt s
  | Some ch => match chans s !! ch with
               | Some ctr => Done tt (set_chans (if ctr - 1 =? 0 then delete ch (chans s)
                                                 else <[ch := ctr - 1]> (chans s)) s)
               | None => Throws s
               end
  end.

(** A request is linked into one list or into itself; [list_add_req] appends,
    because [next] is the list's head in every call. *)
Definition list_del_req (p : nat) : ll unit :=
  pmodify (fun s => set_lists (filter (.≠ p) (rlist s)) (filter (.≠ p) (interrupts s)) s).
Definition list_add_req (p : nat) : ll unit :=
  pmodify (fun s => set_lists (rlist s ++ [p]) (interrupts s) s).
Definition list_add_interrupt (p : nat) : ll unit :=
  pmodify (fun s => set_lists (rlist s) (interrupts s ++ [p]) s).

Definition destroy_req (p : nat) : ll unit :=
  r ← get_req p;
  if rq_is_uring r then mret tt
  else match rq_ch r with
       | Some _ => pthrow (* assert(req->ch == NULL) *)
       | None => pmodify (fun s => set_reqs (delete p (reqs s)) s)
       end.

Definition fuse_free_req (p : nat) : ll unit :=
  r ← get_req p;
  s ← pget;
  _ ← (if no_interrupt (conn s) || rq_is_uring r then
         _ ← put_req p (set_refs (rq_ref_cnt r - 1) (rq_ch r) (rq_u r) (rq_data r));
         _ ← fuse_chan_put (rq_ch r);
         put_req p (set_refs (rq_ref_cnt r - 1) None (rq_u r) (rq_data r))
       else
         _ ← put_req p (set_refs (rq_ref_cnt r) (rq_ch r) 0 0);
         _ ← list_del_req p;
         _ ← put_req p (set_refs (rq_ref_cnt r - 1) (rq_ch r) 0 0);
         _ ← fuse_chan_put (rq_ch r);
         put_req p (set_refs (rq_ref_cnt r - 1) None 0 0));
  if rq_ref_cnt r - 1 =? 0 then destroy_req p else mret tt.

Definition fuse_ll_alloc_req : ll (option nat) :=
  ok ← allocate;
  if (ok : bool) then
    s ← pget;
    _ ← pmodify (fun s => set_next_req (S (next_req s)) (set_reqs (<[next_req s := fresh_req]> (reqs s)) s));
    mret (Some (next_req s))
  else mret None.

(** ** Messages *)

(** [0], or the negated errno of the failed write. *)
Definition fuse_write_msg_dev (msg : list Z) : ll Z := fun s =>
  match writev E (sends s) msg with
  | Some err => Done (- err) (set_wire (sends s ++ [msg]) (wire s) s)
  | None => Done 0 (set_wire (sends s ++ [msg]) (wire s ++ [msg]) s)
  end.

(** [struct fuse_out_header] *)
Definition out_header (len error unique : Z) : list Z := le 4 len ++ le 4 error ++ le 8 unique.

Definition iov_length (iov : list (list Z)) : Z := foldl (fun ret seg => ret + lenZ seg) 0 iov.

(** [iov] without its first element, which is the header of 16 bytes. *)
Definition fuse_send_msg (is_uring : bool) (error unique : Z) (iov : list (list Z)) : ll Z :=
  if is_uring then mret (- ENOTSUP)
  else fuse_write_msg_dev (out_header (16 + iov_length iov) error unique ++ concat iov).

Definition checked_error (error : Z) : Z :=
  if (negb (strerrordesc_np E (s32 (error * -1))) && negb (error =? 0)) || (0 <? error)
  then - ERANGE else error.

Definition fuse_send_reply_iov_nofree (p : nat) (error : Z) (iov : list (list Z)) : ll Z :=
  r ← get_req p; fuse_send_msg (rq_is_uring r) (checked_error error) (rq_unique r) iov.

Definition send_reply_iov (p : nat) (error : Z) (iov : list (list Z)) : ll Z :=
  res ← fuse_send_reply_iov_nofree p error iov;
  _ ← fuse_free_req p; mret res.

Definition send_reply (p : nat) (error : Z) (arg : list Z) : ll Z :=
  r ← get_req p;
  if rq_is_uring r then mret (- ENOTSUP)
  else send_reply_iov p error (if lenZ arg =? 0 then [] else [arg]).

(** ** Replies *)

Definition send_reply_ok (p : nat) (arg : list Z) : ll Z := send_reply p 0 arg.
Definition fuse_reply_err (p : nat) (err : Z) : ll Z := send_reply p (s32 (- err)) [].
Definition fuse_reply_none (p : nat) : ll unit := fuse_free_req p.

Definition fuse_reply_iov (p : nat) (iov : list (list Z)) : ll Z :=
  ok ← allocate;
  if (ok : bool) then send_reply_iov p 0 iov else fuse_reply_err p ENOMEM.

Definition conn_of : ll fuse_conn_info := s ← pget; mret (conn s).

Definition or_flag (b : bool) (flag flags : Z) : Z := if b then Z.lor flags flag else flags.

Record fuse_open_out := { oo_fh : Z; oo_open_flags : Z; oo_backing_id : Z }.
Definition fill_open (f : fuse_file_info) : fuse_open_out :=
  let pass := 0 <? fi_backing_id f in
  {| oo_fh := fi_fh f;
     oo_open_flags :=
       or_flag (fi_parallel_direct_writes f) FOPEN_PARALLEL_DIRECT_WRITES
       (or_flag (fi_noflush f) FOPEN_NOFLUSH
       (or_flag (fi_nonseekable f) FOPEN_NONSEEKABLE
       (or_flag (fi_cache_readdir f) FOPEN_CACHE_DIR
       (or_flag (fi_keep_cache f) FOPEN_KEEP_CACHE
       (or_flag (fi_direct_io f) FOPEN_DIRECT_IO
       (or_flag pass FOPEN_PASSTHROUGH 0))))));
     oo_backing_id := if pass then fi_backing_id f else 0 |}.
Definition open_bytes (o : fuse_open_out) : list Z :=
  le 8 (oo_fh o) ++ le 4 (oo_open_flags o) ++ le 4 (oo_backing_id o).

Definition entry_out_size (c : fuse_conn_info) : Z :=
  if proto_minor c <? 9 then FUSE_COMPAT_ENTRY_OUT_SIZE else 128.
Definition fuse_reply_entry (p : nat) (e : fuse_entry_param) : ll Z :=
  c ← conn_of;
  if (e_ino e =? 0) && (proto_minor c <? 4) then fuse_reply_err p ENOENT
  else send_reply_ok p (take (Z.to_nat (entry_out_size c)) (entry_bytes (fill_entry e))).

Definition fuse_reply_create (p : nat) (e : fuse_entry_param) (f : fuse_file_info) : ll Z :=
  c ← conn_of;
  send_reply_ok p (take (Z.to_nat (entry_out_size c)) (entry_bytes (fill_entry e)) ++
                   open_bytes (fill_open f)).

Definition attr_out_bytes (attr : stat) (attr_timeout : double) : list Z :=
  le 8 (calc_timeout_sec attr_timeout) ++ le 4 (calc_timeout_nsec attr_timeout) ++ le 4 0 ++
  attr_bytes (convert_stat attr).
Definition fuse_reply_attr (p : nat) (attr : stat) (attr_timeout : double) : ll Z :=
  c ← conn_of;
  let size := if proto_minor c <? 9 then FUSE_COMPAT_ATTR_OUT_SIZE else 104 in
  send_reply_ok p (take (Z.to_nat size) (attr_out_bytes attr attr_timeout)).

Definition fuse_reply_readlink (p : nat) (linkname : string) : ll Z := send_reply_ok p (c_str linkname).

(** [ioctl_backing] stands for the two device ioctls. *)
Definition fuse_passthrough_open (fd : Z) : Z := let ret := ioctl_backing E 1 fd in if ret <=? 0 then 0 else ret.
Definition fuse_passthrough_close (backing_id : Z) : Z := ioctl_backing E 2 backing_id.

Definition fuse_reply_open (p : nat) (f : fuse_file_info) : ll Z := send_reply_ok p (open_bytes (fill_open f)).

Definition do_fuse_reply_write (p : nat) (count : Z) : ll Z := send_reply_ok p (le 4 (u32 count) ++ le 4 0).
Definition do_fuse_reply_copy (p : nat) (count : Z) : ll Z := send_reply_ok p (le 8 (u64 count)).
Definition fuse_reply_write (p : nat) (count : Z) : ll Z :=
  r ← get_req p;
  if rq_is_copy_file_range_64 r then do_fuse_reply_copy p count else do_fuse_reply_write p count.

Definition fuse_reply_buf (p : nat) (buf : list Z) : ll Z := send_reply_ok p buf.

Definition run_io {A} (m : prog W A) : ll A := fun s =>
  match m (files s) with
  | Done a f => Done a (set_files f s)
  | Throws f => Throws (set_files f s)
  | Stuck mu f => Stuck mu (set_files f s)
  end.

(** [FUSE_BUFVEC_INIT(len)] with its memory. *)
Definition mem_bufvec (mem : list Z) : fuse_bufvec :=
  {| bv_idx := 0; bv_off := 0;
     bv_buf := [{| buf_size := lenZ mem; buf_flags := 0; buf_mem := Some mem; buf_fd := -1;
                   buf_pos := 0; buf_mem_size := 0 |}] |}.

(** The reply that copies the data into one memory buffer.  Of the allocated
    memory only the bytes that were copied are sent. *)
Definition single_mem (buf : fuse_bufvec) : option fuse_buf :=
  match bv_buf buf with
  | [b] => if (bv_idx buf =? 0) && (bv_off buf =? 0) && negb (has_flag (buf_flags b) FUSE_BUF_IS_FD)
           then Some b else None
  | _ => None
  end.
Definition fuse_send_data_iov_fallback (is_uring : bool) (error unique : Z) (iov : list (list Z))
    (buf : fuse_bufvec) (len : Z) : ll Z :=
  match single_mem buf with
  | Some b => data ← checked (mem_read b 0 len); fuse_send_msg is_uring error unique (iov ++ [data])
  | None =>
      let res := posix_memalign E len in
      if negb (res =? 0) then mret res
      else
        r ← run_io (fuse_buf_copy false false (mem_bufvec (replicate (Z.to_nat len) 0)) buf 0);
        let '(res, dst, _) := r : Z * fuse_bufvec * fuse_bufvec in
        if res <? 0 then mret (- res)
        else
          data ← checked (match bv_buf dst with [b] => mem_read b 0 res | _ => None end);
          fuse_send_msg is_uring error unique (iov ++ [data])
  end.

(** Without [splice] there is only the fallback. *)
Definition fuse_send_data_iov (is_uring : bool) (error unique : Z) (iov : list (list Z))
    (req_data : fuse_bufvec) (flags : Z) : ll Z :=
  fuse_send_data_iov_fallback is_uring error unique iov req_data (fuse_buf_size (bv_buf req_data) 0).

(** A negative result of sending is final; a positive one is answered as an
    error. *)
Definition fuse_reply_data (p : nat) (bufv : fuse_bufvec) (flags : Z) : ll Z :=
  r ← get_req p;
  if rq_is_uring r then mret (- ENOTSUP)
  else
    res ← fuse_send_data_iov (rq_is_uring r) 0 (rq_unique r) [] bufv flags;
    if res <=? 0 then _ ← fuse_free_req p; mret res
    else fuse_reply_err p res.

(** [struct fuse_kstatfs], 80 bytes *)
Definition statfs_bytes (k : fuse_kstatfs) : list Z :=
  le 8 (k_blocks k) ++ le 8 (k_bfree k) ++ le 8 (k_bavail k) ++ le 8 (k_files k) ++ le 8 (k_ffree k) ++
  le 4 (k_bsize k) ++ le 4 (k_namelen k) ++ le 4 (k_frsize k) ++ replicate 28 0.
Definition fuse_reply_statfs (p : nat) (stbuf : statvfs) : ll Z :=
  c ← conn_of;
  let size := if proto_minor c <? 4 then FUSE_COMPAT_STATFS_SIZE else 80 in
  send_reply_ok p (take (Z.to_nat size) (statfs_bytes (convert_statfs stbuf))).

Definition fuse_reply_xattr (p : nat) (count : Z) : ll Z := send_reply_ok p (le 4 (u32 count) ++ le 4 0).

Record fuse_file_lock := { lk_start : Z; lk_end : Z; lk_type : Z; lk_pid : Z }.
Definition lock_bytes (l : fuse_file_lock) : list Z :=
  le 8 (lk_start l) ++ le 8 (lk_end l) ++ le 4 (lk_type l) ++ le 4 (lk_pid l).
(** A lock that reaches the end of the file has the length 0 in [struct flock]. *)
Definition lock_out (lock : flock) : fuse_file_lock :=
  let held := negb (l_type lock =? F_UNLCK) in
  {| lk_start := if held then u64 (l_start lock) else 0;
     lk_end := if held then (if l_len lock =? 0 then OFFSET_MAX
                             else u64 (l_start lock + l_len lock - 1)) else 0;
     lk_type := u32 (l_type lock); lk_pid := u32 (l_pid lock) |}.
Definition fuse_reply_lock (p : nat) (lock : flock) : ll Z := send_reply_ok p (lock_bytes (lock_out lock)).

Definition fuse_reply_bmap (p : nat) (idx : Z) : ll Z := send_reply_ok p (le 8 idx).

Definition ioctl_out (result flags in_iovs out_iovs : Z) : list Z :=
  le 4 result ++ le 4 flags ++ le 4 (u32 in_iovs) ++ le 4 (u32 out_iovs).

(** An [iovec] is a base address and a length; on this platform it has the
    layout of [struct fuse_ioctl_iovec]. *)
Definition iovec_bytes (v : list (Z * Z)) : list Z := concat (map (fun bl => le 8 bl.1 ++ le 8 bl.2) v).
Definition fuse_ioctl_iovec_copy (v : list (Z * Z)) : ll (option (list Z)) :=
  ok ← allocate; mret (if (ok : bool) then Some (iovec_bytes v) else None).
Definition nonempty_iov (v : list (Z * Z)) (b : list Z) : list (list Z) :=
  match v with [] => [] | _ => [b] end.

(** [sizeof(void ptr) == 8], so the check for 32-bit servers never fires. *)
Definition fuse_reply_ioctl_retry (p : nat) (in_iov out_iov : list (Z * Z)) : ll Z :=
  let arg := ioctl_out 0 FUSE_IOCTL_RETRY (lenZ in_iov) (lenZ out_iov) in
  c ← conn_of;
  if proto_minor c <? 16 then
    send_reply_iov p 0 ([arg] ++ nonempty_iov in_iov (iovec_bytes in_iov) ++
                                 nonempty_iov out_iov (iovec_bytes out_iov))
  else
    i ← (match in_iov with [] => mret (Some []) | _ => fuse_ioctl_iovec_copy in_iov end);
    match i with
    | None => fuse_reply_err p ENOMEM
    | Some ib =>
        o ← (match out_iov with [] => mret (Some []) | _ => fuse_ioctl_iovec_copy out_iov end);
        match o with
        | None => fuse_reply_err p ENOMEM
        | Some ob => send_reply_iov p 0 ([arg] ++ nonempty_iov in_iov ib ++ nonempty_iov out_iov ob)
        end
    end.

Definition fuse_reply_ioctl (p : nat) (result : Z) (buf : list Z) : ll Z :=
  send_reply_iov p 0 ([ioctl_out result 0 0 0] ++ (if lenZ buf =? 0 then [] else [buf])).
Definition fuse_reply_ioctl_iov (p : nat) (result : Z) (iov : list (list Z)) : ll Z :=
  ok ← allocate;
  if (ok : bool) then send_reply_iov p 0 ([ioctl_out result 0 0 0] ++ iov)
  else fuse_reply_err p ENOMEM.

Definition fuse_reply_poll (p : nat) (revents : Z) : ll Z := send_reply_ok p (le 4 revents ++ le 4 0).
Definition fuse_reply_lseek (p : nat) (off : Z) : ll Z := send_reply_ok p (le 8 off).

(** [statx] is the 256 bytes of [struct statx]. *)
Definition fuse_reply_statx (p : nat) (flags : Z) (statx : list Z) (attr_timeout : double) : ll Z :=
  if HAVE_STATX E then
    send_reply_ok p (le 8 (calc_timeout_sec attr_timeout) ++ le 4 (calc_timeout_nsec attr_timeout) ++
                     le 4 flags ++ le 16 0 ++ take 256 statx)
  else mret (- ENOSYS).

(** ** Notifications *)

(** [iov] without its first element. *)
Definition send_notify_iov (notify_code : Z) (iov : list (list Z)) : ll Z :=
  s ← pget;
  if negb (got_init s) then mret (- ENOTCONN) else fuse_send_msg false notify_code 0 iov.
End Session.
