(* ===== verification/LlOps.v ===== *)
(** * lib/fuse_lowlevel.c: decoding kernel requests

    One definition per [_do_*] function, which reads the request's structure
    [op_in] and its payload, and one per [do_*] function, which splits the bytes
    behind the header.  Fields are read at their offset in the kernel structure;
    the buffer is longer than every structure. *)
From S2P Require Import Prelude Errno Sys LlDirent FuseBuf BufCopy Lowlevel.

(** ** Reading structures *)

Definition u32_at (off : nat) (l : list Z) : Z := un_le (sub_bytes off 4 l).
Definition u64_at (off : nat) (l : list Z) : Z := un_le (sub_bytes off 8 l).

(** The bytes before the terminating NUL, as a C string. *)
Fixpoint until_nul (l : list Z) : list Z :=
  match l with
  | [] => []
  | b :: l' => if b =? 0 then [] else b :: until_nul l'
  end.
Definition of_bytes (l : list Z) : string :=
  foldr (fun b s => String (Ascii.ascii_of_N (Z.to_N b)) s) EmptyString l.
Definition str_at (l : list Z) : string := of_bytes (until_nul l).
(** [s + strlen(s) + 1] *)
Definition after_str (l : list Z) : list Z := drop (S (length (until_nul l))) l.

Abbreviation FUSE_COMPAT_MKNOD_IN_SIZE := 8%nat (only parsing).
Abbreviation FUSE_COMPAT_WRITE_IN_SIZE := 24%nat (only parsing).
Abbreviation FUSE_COMPAT_SETXATTR_IN_SIZE := 8%nat (only parsing).
Abbreviation FATTR_FH := 64 (only parsing).
Abbreviation FUSE_GETATTR_FH := 1 (only parsing).
Abbreviation FUSE_WRITE_CACHE := 1 (only parsing).
Abbreviation FUSE_RELEASE_FLUSH := 1 (only parsing).
Abbreviation FUSE_RELEASE_FLOCK_UNLOCK := 2 (only parsing).
Abbreviation FUSE_LK_FLOCK := 1 (only parsing).
Abbreviation FUSE_IOCTL_DIR := 16 (only parsing).
Abbreviation FUSE_POLL_SCHEDULE_NOTIFY := 1 (only parsing).
Abbreviation LOCK_SH := 1 (only parsing).
Abbreviation LOCK_EX := 2 (only parsing).
Abbreviation LOCK_NB := 4 (only parsing).
Abbreviation LOCK_UN := 8 (only parsing).
Abbreviation FUSE_CAP_IOCTL_DIR := 2048 (only parsing).
Abbreviation FUSE_CAP_NO_OPEN_SUPPORT := 131072 (only parsing).
Abbreviation FUSE_CAP_NO_OPENDIR_SUPPORT := 16777216 (only parsing).
Abbreviation FUSE_CAP_SETXATTR_EXT := 134217728 (only parsing).

(** A zeroed [struct fuse_file_info] with these fields set. *)
Definition fi_with (fh flags lock_owner : Z) : fuse_file_info :=
  {| fi_flags := s32 flags; fi_writepage := false; fi_direct_io := false; fi_keep_cache := false;
     fi_flush := false; fi_nonseekable := false; fi_flock_release := false;
     fi_cache_readdir := false; fi_noflush := false; fi_parallel_direct_writes := false;
     fi_fh := fh; fi_lock_owner := lock_owner; fi_poll_events := 0; fi_backing_id := 0 |}.
Definition fi_marks (writepage flush flock_release : bool) (poll_events : Z) (f : fuse_file_info)
    : fuse_file_info :=
  {| fi_flags := fi_flags f; fi_writepage := writepage; fi_direct_io := fi_direct_io f;
     fi_keep_cache := fi_keep_cache f; fi_flush := flush; fi_nonseekable := fi_nonseekable f;
     fi_flock_release := flock_release; fi_cache_readdir := fi_cache_readdir f;
     fi_noflush := fi_noflush f; fi_parallel_direct_writes := fi_parallel_direct_writes f;
     fi_fh := fi_fh f; fi_lock_owner := fi_lock_owner f; fi_poll_events := poll_events;
     fi_backing_id := fi_backing_id f |}.

Section Ops.
Context {W : Type} `{FileIO W} (E : env).
Abbreviation ll := (prog (session W)).

Definition has_op (o : ll_op) : ll bool := s ← pget; mret (op s o).
Definition call (p : nat) (c : ll_call) : ll unit := pmodify (fun s => set_calls (calls s ++ [(p, c)]) s).
Definition reply_err (p : nat) (err : Z) : ll unit := _ ← fuse_reply_err E p err; mret tt.
(** [if (req->se->op.o) req->se->op.o(...); else fuse_reply_err(req, ENOSYS);] *)
Definition call_or_nosys (p : nat) (o : ll_op) (c : ll_call) : ll unit :=
  h ← has_op o; if (h : bool) then call p c else reply_err p ENOSYS.
Definition set_umask (p : nat) (umask : Z) : ll unit :=
  put_req p (fun r => let c := rq_ctx r in
    set_ctx {| c_uid := c_uid c; c_gid := c_gid c; c_pid := c_pid c; c_umask := umask |} r).
(** [umask] came with protocol 7.12. *)
Definition new_umask (p : nat) (umask : Z) : ll unit :=
  c ← conn_of; if 12 <=? proto_minor c then set_umask p umask else mret tt.

Definition _do_lookup (p : nat) (nodeid : Z) (op_in in_payload : list Z) : ll unit :=
  call_or_nosys p op_lookup (Op (QLookup nodeid (Some (str_at in_payload)))).
Definition do_lookup p nodeid inarg := _do_lookup p nodeid [] inarg.

Definition _do_forget (p : nat) (nodeid : Z) (op_in in_payload : list Z) : ll unit :=
  h ← has_op op_forget;
  if (h : bool) then call p (Op (QForget nodeid (u64_at 0 op_in))) else fuse_reply_none p.
Definition do_forget p nodeid inarg := _do_forget p nodeid inarg [].

(** The array of [struct fuse_forget_one]. *)
Fixpoint forgets_at (count : nat) (l : list Z) : list (Z * Z) :=
  match count with
  | O => []
  | S n => (u64_at 0 l, u64_at 8 l) :: forgets_at n (drop 16 l)
  end.
Fixpoint forget_each (p : nat) (forgets : list (Z * Z)) : ll unit :=
  match forgets with
  | [] => mret tt
  | (nodeid, nlookup) :: more =>
      d ← fuse_ll_alloc_req E;
      match d with
      | None => mret tt
      | Some d =>
          r ← get_req p;
          _ ← put_req d (set_request (rq_unique r) (rq_ctx r) None false);
          _ ← call d (Op (QForget nodeid nlookup));
          forget_each p more
      end
  end.
Definition _do_batch_forget (p : nat) (nodeid : Z) (op_in in_payload : list Z) : ll unit :=
  let forgets := forgets_at (Z.to_nat (u32_at 0 op_in)) in_payload in
  multi ← has_op op_forget_multi;
  if (multi : bool) then call p (Op (QForgetMulti forgets))
  else
    one ← has_op op_forget;
    _ ← (if (one : bool) then forget_each p forgets else mret tt);
    fuse_reply_none p.
Definition do_batch_forget p nodeid inarg := _do_batch_forget p nodeid inarg (drop 8 inarg).

Definition _do_getattr (p : nat) (nodeid : Z) (op_in in_payload : list Z) : ll unit :=
  c ← conn_of;
  let fip := if (9 <=? proto_minor c) && has_flag (u32_at 0 op_in) FUSE_GETATTR_FH
             then Some (fi_with (u64_at 8 op_in) 0 0) else None in
  call_or_nosys p op_getattr (Op (QGetattr nodeid fip)).
Definition do_getattr p nodeid inarg := _do_getattr p nodeid inarg [].

Definition setattr_in_at (l : list Z) : fuse_setattr_in :=
  {| si_valid := u32_at 0 l; si_fh := u64_at 8 l; si_size := u64_at 16 l; si_atime := u64_at 32 l;
     si_mtime := u64_at 40 l; si_ctime := u64_at 48 l; si_atimensec := u32_at 56 l;
     si_mtimensec := u32_at 60 l; si_ctimensec := u32_at 64 l; si_mode := u32_at 68 l;
     si_uid := u32_at 76 l; si_gid := u32_at 80 l |}.
(** MODE, UID, GID, SIZE, ATIME, MTIME, ATIME_NOW, MTIME_NOW, CTIME, KILL_SUID
    and KILL_SGID *)
Definition settable : Z := 1 + 2 + 4 + 8 + 16 + 32 + 128 + 256 + 1024 + 2048 + 4096.
Definition _do_setattr (p : nat) (nodeid : Z) (op_in in_payload : list Z) : ll unit :=
  let arg := setattr_in_at op_in in
  h ← has_op op_setattr;
  if (h : bool) then
    let fh := has_flag (si_valid arg) FATTR_FH in
    let valid := if fh then Z.land (si_valid arg) (Z.lnot FATTR_FH) else si_valid arg in
    call p (Op (QSetattr nodeid (Some (convert_attr arg)) (Z.land valid settable)
                  (if fh then Some (fi_with (si_fh arg) 0 0) else None) (dead_stat E)))
  else reply_err p ENOSYS.
Definition do_setattr p nodeid inarg := _do_setattr p nodeid inarg [].

Definition _do_access (p : nat) (nodeid : Z) (op_in in_payload : list Z) : ll unit :=
  call_or_nosys p op_access (Op (QAccess nodeid (s32 (u32_at 0 op_in)))).
Definition do_access p nodeid inarg := _do_access p nodeid inarg [].

Definition _do_readlink (p : nat) (nodeid : Z) (op_in in_payload : list Z) : ll unit :=
  call_or_nosys p op_readlink (Op (QReadlink nodeid)).
Definition do_readlink p nodeid inarg := _do_readlink p nodeid inarg [].

Definition _do_mknod (p : nat) (nodeid : Z) (op_in in_payload : list Z) : ll unit :=
  _ ← new_umask p (u32_at 8 op_in);
  call_or_nosys p op_mknod (Op (QMknod nodeid (Some (str_at in_payload)) (u32_at 0 op_in) (u32_at 4 op_in))).
Definition do_mknod p nodeid inarg : ll unit :=
  c ← conn_of;
  _do_mknod p nodeid inarg
    (drop (if proto_minor c <? 12 then FUSE_COMPAT_MKNOD_IN_SIZE else 16%nat) inarg).

Definition _do_mkdir (p : nat) (nodeid : Z) (op_in in_payload : list Z) : ll unit :=
  _ ← new_umask p (u32_at 4 op_in);
  call_or_nosys p op_mkdir (Op (QMkdir nodeid (Some (str_at in_payload)) (u32_at 0 op_in))).
Definition do_mkdir p nodeid inarg := _do_mkdir p nodeid inarg (drop 8 inarg).

Definition _do_unlink (p : nat) (nodeid : Z) (op_in in_payload : list Z) : ll unit :=
  call_or_nosys p op_unlink (Op (QUnlink nodeid (Some (str_at in_payload)))).
Definition do_unlink p nodeid inarg := _do_unlink p nodeid [] inarg.

Definition _do_rmdir (p : nat) (nodeid : Z) (op_in in_payload : list Z) : ll unit :=
  call_or_nosys p op_rmdir (Op (QRmdir nodeid (Some (str_at in_payload)))).
Definition do_rmdir p nodeid inarg := _do_rmdir p nodeid [] inarg.

Definition _do_symlink (p : nat) (nodeid : Z) (op_in in_payload : list Z) : ll unit :=
  call_or_nosys p op_symlink
    (Op (QSymlink (Some (str_at (after_str in_payload))) nodeid (Some (str_at in_payload)))).
Definition do_symlink p nodeid inarg := _do_symlink p nodeid [] inarg.

Definition _do_rename (p : nat) (nodeid : Z) (op_in in_payload : list Z) : ll unit :=
  call_or_nosys p op_rename
    (Op (QRename nodeid (Some (str_at in_payload)) (u64_at 0 op_in)
           (Some (str_at (after_str in_payload))) 0)).
Definition do_rename p nodeid inarg := _do_rename p nodeid inarg (drop 8 inarg).

Definition _do_rename2 (p : nat) (nodeid : Z) (op_in in_payload : list Z) : ll unit :=
  call_or_nosys p op_rename
    (Op (QRename nodeid (Some (str_at in_payload)) (u64_at 0 op_in)
           (Some (str_at (after_str in_payload))) (u32_at 8 op_in))).
Definition do_rename2 p nodeid inarg := _do_rename2 p nodeid inarg (drop 16 inarg).

(** [struct fuse_create_in]: flags, mode, umask, open_flags *)
Definition _do_tmpfile (p : nat) (nodeid : Z) (op_in in_payload : list Z) : ll unit :=
  h ← has_op op_tmpfile;
  if (h : bool) then
    _ ← new_umask p (u32_at 8 op_in);
    call p (OpTmpfile nodeid (u32_at 4 op_in) (fi_with 0 (u32_at 0 op_in) 0))
  else reply_err p ENOSYS.
Definition do_tmpfile p nodeid inarg := _do_tmpfile p nodeid inarg [].

Definition _do_link (p : nat) (nodeid : Z) (op_in in_payload : list Z) : ll unit :=
  call_or_nosys p op_link (Op (QLink (u64_at 0 op_in) nodeid (Some (str_at in_payload)))).
Definition do_link p nodeid inarg := _do_link p nodeid inarg (drop 8 inarg).

Definition _do_create (p : nat) (nodeid : Z) (op_in in_payload : list Z) : ll unit :=
  h ← has_op op_create;
  if (h : bool) then
    _ ← new_umask p (u32_at 8 op_in);
    call p (Op (QCreate nodeid (Some (str_at in_payload)) (u32_at 4 op_in)
                  (Some (fi_with 0 (u32_at 0 op_in) 0))))
  else reply_err p ENOSYS.
Definition do_create p nodeid inarg : ll unit :=
  c ← conn_of;
  _do_create p nodeid inarg (drop (if proto_minor c <? 12 then 8%nat else 16%nat) inarg).

Definition _do_open (p : nat) (nodeid : Z) (op_in in_payload : list Z) : ll unit :=
  let fi := fi_with 0 (u32_at 0 op_in) 0 in
  h ← has_op op_open;
  c ← conn_of;
  if (h : bool) then call p (Op (QOpen nodeid (Some fi)))
  else if has_flag (want_ext c) FUSE_CAP_NO_OPEN_SUPPORT then reply_err p ENOSYS
  else _ ← fuse_reply_open E p fi; mret tt.
Definition do_open p nodeid inarg := _do_open p nodeid inarg [].

(** [lock_owner] and [flags] of reads and writes came with protocol 7.9. *)
Definition rw_fi (c : fuse_conn_info) (op_in : list Z) : fuse_file_info :=
  if 9 <=? proto_minor c then fi_with (u64_at 0 op_in) (u32_at 32 op_in) (u64_at 24 op_in)
  else fi_with (u64_at 0 op_in) 0 0.
Definition _do_read (p : nat) (nodeid : Z) (op_in in_payload : list Z) : ll unit :=
  c ← conn_of;
  call_or_nosys p op_read
    (Op (QRead nodeid (u32_at 16 op_in) (s64 (u64_at 8 op_in)) (Some (rw_fi c op_in)))).
Definition do_read p nodeid inarg := _do_read p nodeid inarg [].

Definition write_fi (c : fuse_conn_info) (op_in : list Z) : fuse_file_info :=
  fi_marks (has_flag (u32_at 20 op_in) FUSE_WRITE_CACHE) false false 0 (rw_fi c op_in).
Definition _do_write (p : nat) (nodeid : Z) (op_in in_payload : list Z) : ll unit :=
  c ← conn_of;
  call_or_nosys p op_write
    (Op (QWrite nodeid (Some in_payload) (u32_at 16 op_in) (s64 (u64_at 8 op_in))
           (Some (write_fi c op_in)))).
Definition do_write p nodeid inarg : ll unit :=
  c ← conn_of;
  _do_write p nodeid inarg
    (drop (if proto_minor c <? 9 then FUSE_COMPAT_WRITE_IN_SIZE else 40%nat) inarg).

Definition _do_write_buf (p : nat) (nodeid : Z) (op_in : list Z) (bufv : fuse_bufvec) : ll unit :=
  c ← conn_of;
  call p (Op (QWriteBuf nodeid bufv (s64 (u64_at 8 op_in)) (Some (write_fi c op_in)))).
Definition with_mem (b : fuse_buf) (size : Z) (mem : option (list Z)) : fuse_bufvec :=
  {| bv_idx := 0; bv_off := 0;
     bv_buf := [{| buf_size := size; buf_flags := buf_flags b; buf_mem := mem; buf_fd := buf_fd b;
                   buf_pos := buf_pos b; buf_mem_size := buf_mem_size b |}] |}.
(** [ibuf] is the buffer of the whole request, of which [inarg] is the memory
    behind the header; the header has 40 bytes. *)
Definition do_write_buf (p : nat) (nodeid : Z) (inarg : list Z) (ibuf : fuse_buf) : ll unit :=
  c ← conn_of;
  let is_fd := has_flag (buf_flags ibuf) FUSE_BUF_IS_FD in
  let compat := proto_minor c <? 9 in
  if compat && is_fd then pthrow (* assert *)
  else
    let size := u64 (buf_size ibuf - (if compat then 40 + 24 else 40 + 40)) in
    let mem := if compat then Some (drop FUSE_COMPAT_WRITE_IN_SIZE inarg)
               else if is_fd then buf_mem ibuf else Some (drop 40 inarg) in
    if size <? u32_at 16 inarg then reply_err p EIO
    else _do_write_buf p nodeid inarg (with_mem ibuf (u32_at 16 inarg) mem).

Definition _do_flush (p : nat) (nodeid : Z) (op_in in_payload : list Z) : ll unit :=
  c ← conn_of;
  call_or_nosys p op_flush
    (Op (QFlush nodeid (Some (fi_marks false true false 0
       (fi_with (u64_at 0 op_in) 0 (if 7 <=? proto_minor c then u64_at 16 op_in else 0)))))).
Definition do_flush p nodeid inarg := _do_flush p nodeid inarg [].

Definition _do_release (p : nat) (nodeid : Z) (op_in in_payload : list Z) : ll unit :=
  c ← conn_of;
  let release_flags := u32_at 12 op_in in
  let new := 8 <=? proto_minor c in
  let unlock := has_flag release_flags FUSE_RELEASE_FLOCK_UNLOCK in
  h ← has_op op_release;
  if (h : bool) then
    call p (Op (QRelease nodeid (Some (fi_marks false (new && has_flag release_flags FUSE_RELEASE_FLUSH)
      unlock 0 (fi_with (u64_at 0 op_in) (u32_at 8 op_in) (if new || unlock then u64_at 16 op_in else 0))))))
  else reply_err p 0.
Definition do_release p nodeid inarg := _do_release p nodeid inarg [].

Definition _do_fsync (p : nat) (nodeid : Z) (op_in in_payload : list Z) : ll unit :=
  call_or_nosys p op_fsync
    (Op (QFsync nodeid (Z.land (u32_at 8 op_in) 1) (Some (fi_with (u64_at 0 op_in) 0 0)))).
Definition do_fsync p nodeid inarg := _do_fsync p nodeid inarg [].

Definition _do_opendir (p : nat) (nodeid : Z) (op_in in_payload : list Z) : ll unit :=
  let fi := fi_with 0 (u32_at 0 op_in) 0 in
  h ← has_op op_opendir;
  c ← conn_of;
  if (h : bool) then call p (Op (QOpendir nodeid (Some fi)))
  else if has_flag (want_ext c) FUSE_CAP_NO_OPENDIR_SUPPORT then reply_err p ENOSYS
  else _ ← fuse_reply_open E p fi; mret tt.
Definition do_opendir p nodeid inarg := _do_opendir p nodeid inarg [].

Definition _do_readdir (p : nat) (nodeid : Z) (op_in in_payload : list Z) : ll unit :=
  call_or_nosys p op_readdir
    (Op (QReaddir nodeid (u32_at 16 op_in) (s64 (u64_at 8 op_in)) (Some (fi_with (u64_at 0 op_in) 0 0)))).
Definition do_readdir p nodeid inarg := _do_readdir p nodeid inarg [].

Definition _do_readdirplus (p : nat) (nodeid : Z) (op_in in_payload : list Z) : ll unit :=
  call_or_nosys p op_readdirplus
    (Op (QReaddirplus nodeid (u32_at 16 op_in) (s64 (u64_at 8 op_in)) (Some (fi_with (u64_at 0 op_in) 0 0)))).
Definition do_readdirplus p nodeid inarg := _do_readdirplus p nodeid inarg [].

Definition _do_releasedir (p : nat) (nodeid : Z) (op_in in_payload : list Z) : ll unit :=
  h ← has_op op_releasedir;
  if (h : bool) then
    call p (Op (QReleasedir nodeid (Some (fi_with (u64_at 0 op_in) (u32_at 8 op_in) 0))))
  else reply_err p 0.
Definition do_releasedir p nodeid inarg := _do_releasedir p nodeid inarg [].

Definition _do_fsyncdir (p : nat) (nodeid : Z) (op_in in_payload : list Z) : ll unit :=
  call_or_nosys p op_fsyncdir
    (Op (QFsyncdir nodeid (Z.land (u32_at 8 op_in) 1) (Some (fi_with (u64_at 0 op_in) 0 0)))).
Definition do_fsyncdir p nodeid inarg := _do_fsyncdir p nodeid inarg [].

Definition default_statvfs : statvfs :=
  {| f_bsize := 512; f_frsize := 0; f_blocks := 0; f_bfree := 0; f_bavail := 0; f_files := 0;
     f_ffree := 0; f_favail := 0; f_fsid := 0; f_flag := 0; f_namemax := 255 |}.
Definition _do_statfs (p : nat) (nodeid : Z) (op_in in_payload : list Z) : ll unit :=
  h ← has_op op_statfs;
  if (h : bool) then call p (Op (QStatfs nodeid))
  else _ ← fuse_reply_statfs E p default_statvfs; mret tt.
Definition do_statfs p nodeid inarg := _do_statfs p nodeid inarg [].

Definition _do_setxattr (p : nat) (nodeid : Z) (op_in in_payload : list Z) : ll unit :=
  call_or_nosys p op_setxattr
    (Op (QSetxattr nodeid (Some (str_at in_payload)) (Some (after_str in_payload)) (u32_at 0 op_in)
           (s32 (u32_at 4 op_in)))).
Definition do_setxattr p nodeid inarg : ll unit :=
  c ← conn_of;
  _do_setxattr p nodeid inarg
    (drop (if has_flag (want c) FUSE_CAP_SETXATTR_EXT then 16%nat else FUSE_COMPAT_SETXATTR_IN_SIZE) inarg).

Definition _do_getxattr (p : nat) (nodeid : Z) (op_in in_payload : list Z) : ll unit :=
  call_or_nosys p op_getxattr (Op (QGetxattr nodeid (Some (str_at in_payload)) (u32_at 0 op_in))).
Definition do_getxattr p nodeid inarg := _do_getxattr p nodeid inarg (drop 8 inarg).

Definition _do_listxattr (p : nat) (nodeid : Z) (op_in in_payload : list Z) : ll unit :=
  call_or_nosys p op_listxattr (Op (QListxattr nodeid (u32_at 0 op_in))).
Definition do_listxattr p nodeid inarg := _do_listxattr p nodeid inarg [].

Definition _do_removexattr (p : nat) (nodeid : Z) (op_in in_payload : list Z) : ll unit :=
  call_or_nosys p op_removexattr (Op (QRemovexattr nodeid (Some (str_at in_payload)))).
Definition do_removexattr p nodeid inarg := _do_removexattr p nodeid [] inarg.

(** [struct flock] has a signed 16-bit type, 64-bit offsets and a 32-bit pid. *)
Definition convert_fuse_file_lock (fl : fuse_file_lock) : flock :=
  {| l_type := wraps 16 (lk_type fl); l_whence := 0; l_start := s64 (lk_start fl);
     l_len := if lk_end fl =? OFFSET_MAX then 0 else s64 (u64 (lk_end fl - lk_start fl + 1));
     l_pid := s32 (lk_pid fl) |}.
(** The [lk] of [struct fuse_lk_in]. *)
Definition lk_at (l : list Z) : fuse_file_lock :=
  {| lk_start := u64_at 16 l; lk_end := u64_at 24 l; lk_type := u32_at 32 l; lk_pid := u32_at 36 l |}.
Definition lk_fi (op_in : list Z) : fuse_file_info := fi_with (u64_at 0 op_in) 0 (u64_at 8 op_in).
Definition _do_getlk (p : nat) (nodeid : Z) (op_in in_payload : list Z) : ll unit :=
  call_or_nosys p op_getlk
    (Op (QGetlk nodeid (Some (lk_fi op_in)) (Some (convert_fuse_file_lock (lk_at op_in))))).
Definition do_getlk p nodeid inarg := _do_getlk p nodeid inarg [].

Definition flock_op (type : Z) (sleep : bool) : Z :=
  let op := if type =? F_RDLCK then LOCK_SH else if type =? F_WRLCK then LOCK_EX
            else if type =? F_UNLCK then LOCK_UN else 0 in
  if sleep then op else Z.lor op LOCK_NB.
Definition do_setlk_common (p : nat) (nodeid : Z) (op_in : list Z) (sleep : bool) : ll unit :=
  if has_flag (u32_at 40 op_in) FUSE_LK_FLOCK then
    call_or_nosys p op_flock (OpFlock nodeid (lk_fi op_in) (flock_op (lk_type (lk_at op_in)) sleep))
  else
    call_or_nosys p op_setlk
      (Op (QSetlk nodeid (Some (lk_fi op_in)) (Some (convert_fuse_file_lock (lk_at op_in)))
             (Z.b2z sleep))).
Definition _do_setlk (p : nat) (nodeid : Z) (op_in in_payload : list Z) : ll unit :=
  do_setlk_common p nodeid op_in false.
Definition do_setlk p nodeid inarg := _do_setlk p nodeid inarg [].
Definition _do_setlkw (p : nat) (nodeid : Z) (op_in in_payload : list Z) : ll unit :=
  do_setlk_common p nodeid op_in true.
Definition do_setlkw p nodeid inarg := _do_setlkw p nodeid inarg [].

Definition _do_bmap (p : nat) (nodeid : Z) (op_in in_payload : list Z) : ll unit :=
  call_or_nosys p op_bmap (Op (QBmap nodeid (u32_at 8 op_in) (u64_at 0 op_in))).
Definition do_bmap p nodeid inarg := _do_bmap p nodeid inarg [].

(** Pointers have 8 bytes, so [ioctl_64bit] is never set. *)
Definition _do_ioctl (p : nat) (nodeid : Z) (op_in : list Z) (in_payload : option (list Z)) : ll unit :=
  c ← conn_of;
  if has_flag (u32_at 8 op_in) FUSE_IOCTL_DIR && negb (has_flag (want_ext c) FUSE_CAP_IOCTL_DIR)
  then reply_err p ENOTTY
  else
    call_or_nosys p op_ioctl
      (Op (QIoctl nodeid (u32_at 12 op_in) (Some (fi_with (u64_at 0 op_in) 0 0)) in_payload
             (u32_at 24 op_in) (u32_at 28 op_in))).
Definition do_ioctl p nodeid inarg : ll unit :=
  _do_ioctl p nodeid inarg (if u32_at 24 inarg =? 0 then None else Some (drop 32 inarg)).

(** The poll handle is an object of the library; it is named by its [kh]. *)
Definition _do_poll (p : nat) (nodeid : Z) (op_in in_payload : list Z) : ll unit :=
  let fi := fi_marks false false false (u32_at 20 op_in) (fi_with (u64_at 0 op_in) 0 0) in
  h ← has_op op_poll;
  if (h : bool) then
    if has_flag (u32_at 16 op_in) FUSE_POLL_SCHEDULE_NOTIFY then
      ok ← allocate E;
      if (ok : bool) then call p (Op (QPoll nodeid (Some fi) (Some (u64_at 8 op_in))))
      else reply_err p ENOMEM
    else call p (Op (QPoll nodeid (Some fi) None))
  else reply_err p ENOSYS.
Definition do_poll p nodeid inarg := _do_poll p nodeid inarg [].

Definition _do_fallocate (p : nat) (nodeid : Z) (op_in in_payload : list Z) : ll unit :=
  call_or_nosys p op_fallocate
    (OpFallocate nodeid (s32 (u32_at 24 op_in)) (s64 (u64_at 8 op_in)) (s64 (u64_at 16 op_in))
       (fi_with (u64_at 0 op_in) 0 0)).
Definition do_fallocate p nodeid inarg := _do_fallocate p nodeid inarg [].

(** [len] as given, which [FUSE_COPY_FILE_RANGE] limits to what the 32-bit count
    of its reply can hold. *)
Definition copy_file_range_common (p : nat) (nodeid_in : Z) (arg : list Z) (len : Z) : ll unit :=
  call_or_nosys p op_copy_file_range
    (Op (QCopyFileRange nodeid_in (s64 (u64_at 8 arg)) (Some (fi_with (u64_at 0 arg) 0 0))
           (u64_at 16 arg) (s64 (u64_at 32 arg)) (Some (fi_with (u64_at 24 arg) 0 0)) len
           (s32 (u64_at 48 arg)))).
Definition _do_copy_file_range (p : nat) (nodeid_in : Z) (op_in in_payload : list Z) : ll unit :=
  let len := u64_at 40 op_in in
  copy_file_range_common p nodeid_in op_in (if 4294963200 <? len then 4294963200 else len).
Definition do_copy_file_range p nodeid_in inarg := _do_copy_file_range p nodeid_in inarg [].
Definition _do_copy_file_range_64 (p : nat) (nodeid_in : Z) (op_in in_payload : list Z) : ll unit :=
  _ ← put_req p set_copy_64;
  copy_file_range_common p nodeid_in op_in (u64_at 40 op_in).
Definition do_copy_file_range_64 p nodeid_in inarg := _do_copy_file_range_64 p nodeid_in inarg [].

Definition _do_lseek (p : nat) (nodeid : Z) (op_in in_payload : list Z) : ll unit :=
  call_or_nosys p op_lseek
    (OpLseek nodeid (s64 (u64_at 8 op_in)) (s32 (u32_at 16 op_in)) (fi_with (u64_at 0 op_in) 0 0)).
Definition do_lseek p nodeid inarg := _do_lseek p nodeid inarg [].

(** Built without [statx] the function is empty. *)
Definition _do_statx (p : nat) (nodeid : Z) (op_in in_payload : list Z) : ll unit :=
  if HAVE_STATX E then
    call_or_nosys p op_statx
      (OpStatx nodeid (s32 (u32_at 16 op_in)) (s32 (u32_at 20 op_in))
         (if has_flag (u32_at 0 op_in) FUSE_GETATTR_FH then Some (fi_with (u64_at 8 op_in) 0 0) else None))
  else mret tt.
Definition do_statx p nodeid inarg := _do_statx p nodeid inarg [].
End Ops.
