(* ===== verification/LlInit.v ===== *)
(** * lib/fuse_lowlevel.c: the INIT negotiation

    [_do_init] and the capability helpers.  A capability is a bit of
    [capable_ext] and [want_ext]; the kernel's INIT flags are other bits, and the
    two tables say which of them belong together. *)
From S2P Require Import Prelude Errno Sys LlDirent FuseBuf BufCopy Lowlevel LlOps.

Abbreviation EPROTO := 71 (only parsing).
Abbreviation UINT_MAX := 4294967295 (only parsing).
Abbreviation FUSE_KERNEL_VERSION := 7 (only parsing).
Abbreviation FUSE_KERNEL_MINOR_VERSION := 45 (only parsing).
Abbreviation FUSE_BUFFER_HEADER_SIZE := 4096 (only parsing).
Abbreviation FUSE_MIN_READ_BUFFER := 8192 (only parsing).
Abbreviation FUSE_DEFAULT_MAX_PAGES_PER_REQ := 32 (only parsing).

(** Bits of the kernel's flags that have no capability. *)
Abbreviation BIG_WRITES := 5 (only parsing).
Abbreviation MAX_PAGES := 22 (only parsing).
Abbreviation INIT_EXT := 30 (only parsing).
Abbreviation HAS_EXPIRE_ONLY := 35 (only parsing).
Abbreviation PASSTHROUGH := 37 (only parsing).
Abbreviation OVER_IO_URING := 41 (only parsing).
Abbreviation REQUEST_TIMEOUT := 42 (only parsing).
(** Bits of the capabilities named below. *)
Abbreviation CAP_IOCTL_DIR := 11 (only parsing).
Abbreviation CAP_EXPIRE_ONLY := 26 (only parsing).
Abbreviation CAP_PASSTHROUGH := 29 (only parsing).
Abbreviation CAP_OVER_IO_URING := 31 (only parsing).

Definition bit (i : Z) : Z := Z.shiftl 1 i.

(** Kernel bit and capability bit: ASYNC_READ, POSIX_LOCKS, ATOMIC_O_TRUNC,
    EXPORT_SUPPORT, DONT_MASK, FLOCK_LOCKS, AUTO_INVAL_DATA, READDIRPLUS,
    READDIRPLUS_AUTO, ASYNC_DIO, WRITEBACK_CACHE, NO_OPEN_SUPPORT,
    PARALLEL_DIROPS, POSIX_ACL, HANDLE_KILLPRIV, HANDLE_KILLPRIV_V2,
    CACHE_SYMLINKS, NO_OPENDIR_SUPPORT, EXPLICIT_INVAL_DATA, SETXATTR_EXT,
    DIRECT_IO_ALLOW_MMAP, PASSTHROUGH, NO_EXPORT_SUPPORT, OVER_IO_URING. *)
Definition capable_table : list (Z * Z) :=
  [(0, 0); (1, 1); (3, 3); (4, 4); (6, 6); (10, 10); (12, 12); (13, 13); (14, 14); (15, 15); (16, 16);
   (17, 17); (18, 18); (20, 19); (19, 20); (28, 21); (23, 23); (24, 24); (25, 25); (29, 27); (36, 28);
   (37, 29); (38, 30); (41, 31)].
(** What the answer tells the kernel: the same without NO_OPEN_SUPPORT,
    NO_OPENDIR_SUPPORT and (treated apart) OVER_IO_URING. *)
Definition wanted_table : list (Z * Z) :=
  [(0, 0); (1, 1); (3, 3); (4, 4); (6, 6); (10, 10); (12, 12); (13, 13); (14, 14); (15, 15); (16, 16);
   (18, 18); (20, 19); (19, 20); (28, 21); (23, 23); (25, 25); (29, 27); (36, 28); (37, 29); (38, 30)].

(** [if (from & bit a) acc |= bit b;] for every pair *)
Definition translate (table : list (Z * Z)) (from acc : Z) : Z :=
  foldl (fun acc ab => if has_flag from (bit ab.1) then Z.lor acc (bit ab.2) else acc) acc table.
Definition swap_pair (ab : Z * Z) : Z * Z := (ab.2, ab.1).

Definition fuse_lower_32_bits (nr : Z) : Z := u32 (Z.land nr 4294967295).
Definition fuse_higher_32_bits (nr : Z) : Z := Z.land nr (u64 (Z.lnot 4294967295)).

Definition want_flags_valid (capable want : Z) : bool := Z.land want (Z.lnot capable) =? 0.

Definition set_caps (cap capext wnt wntext : Z) (c : fuse_conn_info) : fuse_conn_info :=
  {| proto_major := proto_major c; proto_minor := proto_minor c; max_write := max_write c;
     max_read := max_read c; max_readahead := max_readahead c; capable := cap; want := wnt;
     max_background := max_background c; congestion_threshold := congestion_threshold c;
     time_gran := time_gran c; max_backing_stack_depth := max_backing_stack_depth c;
     no_interrupt := no_interrupt c; capable_ext := capext; want_ext := wntext;
     request_timeout := request_timeout c |}.
Definition set_limits (major minor mw ra bg ct tg : Z) (c : fuse_conn_info) : fuse_conn_info :=
  {| proto_major := major; proto_minor := minor; max_write := mw; max_read := max_read c;
     max_readahead := ra; capable := capable c; want := want c; max_background := bg;
     congestion_threshold := ct; time_gran := tg;
     max_backing_stack_depth := max_backing_stack_depth c; no_interrupt := no_interrupt c;
     capable_ext := capable_ext c; want_ext := want_ext c; request_timeout := request_timeout c |}.
Definition set_nego (w we b : Z) (r : bool) (n : negotiation) : negotiation :=
  {| conn_want := w; conn_want_ext := we; bufsize := b; buf_reallocable := r;
     uring_enable := uring_enable n; max_read_mo := max_read_mo n |}.

(** The connection and the session's record of what the library set itself. *)
Definition feature_state : Type := fuse_conn_info * negotiation.

Definition fuse_set_feature_flag (flag : Z) (cn : feature_state) : bool * feature_state :=
  let '(c, n) := cn in
  if has_flag (capable_ext c) flag then
    (true, (set_caps (capable c) (capable_ext c) (u32 (Z.lor (want c) flag)) (Z.lor (want_ext c) flag) c,
            set_nego (u32 (Z.lor (conn_want n) flag)) (Z.lor (conn_want_ext n) flag) (bufsize n)
              (buf_reallocable n) n))
  else (false, cn).
Definition fuse_unset_feature_flag (flag : Z) (cn : feature_state) : feature_state :=
  let '(c, n) := cn in
  (set_caps (capable c) (capable_ext c) (u32 (Z.land (want c) (Z.lnot flag)))
     (Z.land (want_ext c) (Z.lnot flag)) c,
   set_nego (u32 (Z.land (conn_want n) (Z.lnot flag))) (Z.land (conn_want_ext n) (Z.lnot flag))
     (bufsize n) (buf_reallocable n) n).
Definition fuse_get_feature_flag (flag : Z) (c : fuse_conn_info) : bool := has_flag (capable_ext c) flag.

(** [-EINVAL] when the client changed both [want] and [want_ext]. *)
Definition fuse_convert_to_conn_want_ext (n : negotiation) (c : fuse_conn_info) : Z * fuse_conn_info :=
  if negb (want c =? conn_want n) && negb (fuse_lower_32_bits (want_ext c) =? want c) then
    if negb (want_ext c =? conn_want_ext n) then (- EINVAL, c)
    else
      let we := Z.lor (fuse_higher_32_bits (want_ext c)) (want c) in
      (0, set_caps (capable c) (capable_ext c) (fuse_lower_32_bits we) we c)
  else (0, set_caps (capable c) (capable_ext c) (fuse_lower_32_bits (want_ext c)) (want_ext c) c).

Record fuse_init_in := { ii_major : Z; ii_minor : Z; ii_max_readahead : Z; ii_flags : Z; ii_flags2 : Z }.
Definition init_in_at (l : list Z) : fuse_init_in :=
  {| ii_major := u32_at 0 l; ii_minor := u32_at 4 l; ii_max_readahead := u32_at 8 l;
     ii_flags := u32_at 12 l; ii_flags2 := u32_at 16 l |}.

Record fuse_init_out := {
  io_major : Z; io_minor : Z; io_max_readahead : Z; io_flags : Z; io_max_background : Z;
  io_congestion_threshold : Z; io_max_write : Z; io_time_gran : Z; io_max_pages : Z; io_flags2 : Z;
  io_max_stack_depth : Z; io_request_timeout : Z;
}.
(** 64 bytes *)
Definition init_out_bytes (o : fuse_init_out) : list Z :=
  le 4 (io_major o) ++ le 4 (io_minor o) ++ le 4 (io_max_readahead o) ++ le 4 (io_flags o) ++
  le 2 (io_max_background o) ++ le 2 (io_congestion_threshold o) ++ le 4 (io_max_write o) ++
  le 4 (io_time_gran o) ++ le 2 (io_max_pages o) ++ le 2 0 ++ le 4 (io_flags2 o) ++
  le 4 (io_max_stack_depth o) ++ le 2 (io_request_timeout o) ++ replicate 22 0.
Definition zero_init_out : fuse_init_out :=
  {| io_major := FUSE_KERNEL_VERSION; io_minor := FUSE_KERNEL_MINOR_VERSION; io_max_readahead := 0;
     io_flags := 0; io_max_background := 0; io_congestion_threshold := 0; io_max_write := 0;
     io_time_gran := 0; io_max_pages := 0; io_flags2 := 0; io_max_stack_depth := 0;
     io_request_timeout := 0 |}.

(** The flags of the request, and [inargflags], which stays 0 before protocol 7.6. *)
Definition sent_flags (arg : fuse_init_in) : Z :=
  if has_flag (ii_flags arg) (bit INIT_EXT) then Z.lor (ii_flags arg) (Z.shiftl (ii_flags2 arg) 32)
  else ii_flags arg.
Definition init_flags (arg : fuse_init_in) : Z := if 6 <=? ii_minor arg then sent_flags arg else 0.

Definition or_bit (b : bool) (i : Z) (x : Z) : Z := if b then Z.lor x (bit i) else x.

(** What the kernel offers: [capable_ext] before the defaults.  (Without
    [splice] the library adds no splice capability.) *)
Definition offered (arg : fuse_init_in) : Z :=
  let caps :=
    if 6 <=? ii_minor arg then
      or_bit ((38 <=? ii_minor arg) || has_flag (init_flags arg) (bit HAS_EXPIRE_ONLY)) CAP_EXPIRE_ONLY
        (translate capable_table (init_flags arg) 0)
    else 0 in
  or_bit (18 <=? ii_minor arg) CAP_IOCTL_DIR caps.

(** Read-ahead and buffer size from the offer. *)
Definition offered_readahead (arg : fuse_init_in) (c : fuse_conn_info) : Z :=
  if 6 <=? ii_minor arg then
    if ii_max_readahead arg <? max_readahead c then ii_max_readahead arg else max_readahead c
  else 0.
Definition offered_bufsize (pagesize : Z) (arg : fuse_init_in) (n : negotiation) : Z * bool :=
  if (6 <=? ii_minor arg) && negb (has_flag (init_flags arg) (bit MAX_PAGES)) then
    let max_bufsize := FUSE_DEFAULT_MAX_PAGES_PER_REQ * pagesize + FUSE_BUFFER_HEADER_SIZE in
    (if max_bufsize <? bufsize n then max_bufsize else bufsize n, false)
  else (bufsize n, buf_reallocable n).

(** [LL_SET_DEFAULT(cond, cap)]: ASYNC_READ, AUTO_INVAL_DATA, ASYNC_DIO,
    IOCTL_DIR, ATOMIC_O_TRUNC, SPLICE_READ, POSIX_LOCKS, FLOCK_LOCKS, READDIRPLUS,
    READDIRPLUS_AUTO, OVER_IO_URING *)
Definition defaults (op : ll_op -> bool) : list (bool * Z) :=
  [(true, 0); (true, 12); (true, 15); (true, CAP_IOCTL_DIR); (true, 3); (op op_write_buf, 9);
   (op op_getlk && op op_setlk, 1); (op op_flock, 10); (op op_readdirplus, 13);
   (op op_readdirplus && op op_readdir, 14); (true, CAP_OVER_IO_URING)].
Definition set_defaults (op : ll_op -> bool) (cn : feature_state) : feature_state :=
  foldl (fun cn d => if d.1 : bool then (fuse_set_feature_flag (bit d.2) cn).2 else cn) cn (defaults op).

(** [op.init], which may change the connection, and the conversion of what it
    wants. *)
Definition after_op_init (has_init : bool) (init : fuse_conn_info -> fuse_conn_info) (n : negotiation)
    (c : fuse_conn_info) : fuse_conn_info :=
  if has_init then
    (fuse_convert_to_conn_want_ext n
       (init (set_caps (fuse_lower_32_bits (capable_ext c)) (capable_ext c) (want c) (want_ext c) c))).2
  else c.

(** [se->conn.max_write] after the buffer size is settled. *)
Definition settled_write (bufsize : Z) (reallocable : bool) (c : fuse_conn_info) : Z :=
  let bufsize := if bufsize <? FUSE_MIN_READ_BUFFER then FUSE_MIN_READ_BUFFER else bufsize in
  let bufsize := if reallocable then UINT_MAX else bufsize in
  Z.min (max_write c) (bufsize - FUSE_BUFFER_HEADER_SIZE).

Definition settled_background (c : fuse_conn_info) : Z * Z :=
  if 13 <=? proto_minor c then
    let bg := if 65536 <=? max_background c then 65535 else max_background c in
    let ct := if bg <? congestion_threshold c then bg else congestion_threshold c in
    (bg, if ct =? 0 then u32 (bg * 3) / 4 else ct)
  else (max_background c, congestion_threshold c).

(** [outargflags], without io_uring. *)
Definition answer_flags (arg : fuse_init_in) (c : fuse_conn_info) (uring : bool) : Z :=
  let flags := or_bit (has_flag (ii_flags arg) (bit MAX_PAGES)) MAX_PAGES 0 in
  let flags := Z.lor flags (bit BIG_WRITES) in
  let flags := translate (map swap_pair wanted_table) (want_ext c) flags in
  let flags := or_bit uring OVER_IO_URING flags in
  let flags := or_bit (has_flag (init_flags arg) (bit REQUEST_TIMEOUT) && negb (request_timeout c =? 0))
                 REQUEST_TIMEOUT flags in
  or_bit (has_flag (init_flags arg) (bit INIT_EXT)) INIT_EXT flags.

Definition init_answer (pagesize : Z) (arg : fuse_init_in) (c : fuse_conn_info) (uring : bool)
    : fuse_init_out :=
  let flags := answer_flags arg c uring in
  let background := 13 <=? proto_minor c in
  {| io_major := FUSE_KERNEL_VERSION; io_minor := FUSE_KERNEL_MINOR_VERSION;
     io_max_readahead := max_readahead c; io_flags := u32 flags;
     io_max_background := if background then max_background c else 0;
     io_congestion_threshold := if background then congestion_threshold c else 0;
     io_max_write := max_write c;
     io_time_gran := if 23 <=? proto_minor c then time_gran c else 0;
     io_max_pages := if has_flag (ii_flags arg) (bit MAX_PAGES)
                     then u16 (u32 (max_write c - 1) / pagesize + 1) else 0;
     io_flags2 := if has_flag (init_flags arg) (bit INIT_EXT) then u32 (Z.shiftr flags 32) else 0;
     io_max_stack_depth := if has_flag (want_ext c) (bit CAP_PASSTHROUGH)
                           then u32 (max_backing_stack_depth c + 1) else 0;
     io_request_timeout :=
       if has_flag (init_flags arg) (bit REQUEST_TIMEOUT) then request_timeout c else 0 |}.

Definition init_out_size (arg : fuse_init_in) : Z :=
  if ii_minor arg <? 5 then 8 else if ii_minor arg <? 23 then 24 else 64.

(** [fuse_uring_start] of a library without io_uring *)
Definition fuse_uring_start : Z := - ENOTSUP.

(** The part of [_do_init] for protocol 7: the connection and session after it,
    and the answer, or [None] when the client wanted what is not offered or
    changed the maximal read size.  [fuse_uring_start] comes after [outarg] is
    filled, so that clearing the bit in [outargflags] changes nothing any more. *)
Definition negotiate (pagesize : Z) (op : ll_op -> bool) (init : fuse_conn_info -> fuse_conn_info)
    (arg : fuse_init_in) (c : fuse_conn_info) (n : negotiation)
    : fuse_conn_info * negotiation * option fuse_init_out :=
  let '(bufsz, reallocable) := offered_bufsize pagesize arg n in
  let c := set_caps (capable c) (offered arg) (want c) 0
             (set_limits (ii_major arg) (ii_minor arg) (max_write c) (offered_readahead arg c)
                (max_background c) (congestion_threshold c) (time_gran c) c) in
  let '(c, n) := set_defaults op (c, n) in
  let c := set_limits (proto_major c) (proto_minor c) (max_write c) (max_readahead c)
             (max_background c) (congestion_threshold c) 1 c in
  let c := after_op_init (op op_init) init n c in
  if negb (want_flags_valid (capable_ext c) (want_ext c)) then (c, n, None)
  else if negb (max_read c =? max_read_mo n) then (c, n, None)
  else
    let mw := settled_write bufsz reallocable c in
    let n := set_nego (conn_want n) (conn_want_ext n) (mw + FUSE_BUFFER_HEADER_SIZE)
               (buf_reallocable n) n in
    let '(bg, ct) := settled_background c in
    let c := set_limits (proto_major c) (proto_minor c) mw (max_readahead c) bg ct (time_gran c) c in
    let enable_io_uring := uring_enable n && has_flag (want_ext c) (bit CAP_OVER_IO_URING) in
    (c, n, Some (init_answer pagesize arg c enable_io_uring)).

Section Init.
Context {W : Type} `{FileIO W} (E : env) (pagesize : Z).
(** [se->op.init] *)
Context (init : fuse_conn_info -> fuse_conn_info).
Abbreviation ll := (prog (session W)).

Definition set_conn (c : fuse_conn_info) (n : negotiation) : ll unit :=
  pmodify (fun s => set_life c (got_init s) (got_destroy s) (se_error s) (mt_exited s) n s).

(** A version the library does not speak leaves the connection without
    capabilities; a refused negotiation ends the session. *)
Definition _do_init (p : nat) (nodeid : Z) (op_in in_payload : list Z) : ll unit :=
  s ← pget;
  let arg := init_in_at op_in in
  let c := conn s in
  if negb (ii_major arg =? 7) then
    _ ← set_conn (set_caps (capable c) 0 (want c) 0
                    (set_limits (ii_major arg) (ii_minor arg) (max_write c) (max_readahead c)
                       (max_background c) (congestion_threshold c) (time_gran c) c)) (nego s);
    _ ← (if ii_major arg <? 7 then fuse_reply_err E p EPROTO
         else send_reply_ok E p (init_out_bytes zero_init_out));
    mret tt
  else
    let '(c, n, answer) := negotiate pagesize (op s) init arg c (nego s) in
    _ ← pmodify (fun s => set_life c true (got_destroy s) (se_error s) (mt_exited s) n s);
    match answer with
    | None =>
        _ ← fuse_reply_err E p EPROTO;
        pmodify (fun s => set_life (conn s) (got_init s) (got_destroy s) (- EPROTO) true (nego s) s)
    | Some out =>
        _ ← send_reply_ok E p (take (Z.to_nat (init_out_size arg)) (init_out_bytes out)); mret tt
    end.
Definition do_init p nodeid inarg := _do_init p nodeid inarg [].

Definition _do_destroy (p : nat) (nodeid : Z) (op_in in_payload : list Z) : ll unit :=
  _ ← pmodify (fun s => set_life (conn s) false true (se_error s) (mt_exited s) (nego s) s);
  s ← pget;
  _ ← (if op s op_destroy then call p (Op QDestroy) else mret tt);
  _ ← send_reply_ok E p []; mret tt.
Definition do_destroy p nodeid inarg := _do_destroy p nodeid inarg [].
End Init.

(** ** Bits *)

Lemma has_flag_bit x i : 0 <= i -> has_flag x (bit i) = Z.testbit x i.
Proof. intros Hi. unfold bit. rewrite Z.shiftl_1_l. by apply has_flag_pow2. Qed.

Lemma bit_testbit i j : 0 <= i -> 0 <= j -> Z.testbit (bit i) j = bool_decide (i = j).
Proof.
  intros Hi Hj. unfold bit. rewrite Z.shiftl_1_l, Z.pow2_bits_eqb by lia.
  rewrite Z.eqb_sym. destruct (Z.eqb_spec j i); [by rewrite bool_decide_true|by rewrite bool_decide_false by congruence].
Qed.

Lemma or_bit_testbit b i x j : 0 <= i -> 0 <= j ->
  Z.testbit (or_bit b i x) j = Z.testbit x j || (b && bool_decide (i = j)).
Proof.
  intros Hi Hj. unfold or_bit. destruct b; simpl; [|by rewrite orb_false_r].
  by rewrite Z.lor_spec, bit_testbit.
Qed.

Definition bits_ok (t : list (Z * Z)) : Prop := Forall (fun ab => 0 <= ab.1 /\ 0 <= ab.2) t.

Lemma translate_testbit t from acc j : bits_ok t -> 0 <= j ->
  Z.testbit (translate t from acc) j = true ->
  Z.testbit acc j = true \/ exists i, (i, j) ∈ t /\ Z.testbit from i = true.
Proof.
  intros Ht Hj. revert acc. induction Ht as [|[a b] t [Ha Hb] Ht IH]; intros acc; [auto|].
  unfold translate. simpl. intros Hx. apply IH in Hx as [Hx|(i & Hi & Hf)].
  - rewrite has_flag_bit in Hx by done. simpl in *. destruct (Z.testbit from a) eqn:Hfa; [|auto].
    rewrite Z.lor_spec, bit_testbit in Hx by done. apply orb_true_iff in Hx as [Hx|Hx]; [auto|].
    apply bool_decide_eq_true in Hx as ->. right. exists a. split; [constructor|done].
  - right. exists i. split; [by constructor|done].
Qed.

Lemma translate_mono t from acc j : bits_ok t -> 0 <= j -> Z.testbit acc j = true ->
  Z.testbit (translate t from acc) j = true.
Proof.
  intros Ht Hj. revert acc. induction Ht as [|[a b] t [Ha Hb] Ht IH]; intros acc Hacc; [done|].
  unfold translate. simpl. apply IH. destruct (has_flag _ _); [|done].
  by rewrite Z.lor_spec, Hacc.
Qed.

Lemma want_valid_bit cap want j : 0 <= j -> want_flags_valid cap want = true ->
  Z.testbit want j = true -> Z.testbit cap j = true.
Proof.
  intros Hj Hv Hw. unfold want_flags_valid in Hv. apply Z.eqb_eq in Hv.
  assert (Z.testbit (Z.land want (Z.lnot cap)) j = false) as Hb by (rewrite Hv; apply Z.bits_0).
  rewrite Z.land_spec, Hw, Z.lnot_spec in Hb by done. simpl in Hb. by apply negb_false_iff in Hb.
Qed.

(** A capability is offered when the kernel sets its flag. *)
Lemma offered_bit arg j : 0 <= j -> Z.testbit (offered arg) j = true ->
  j = CAP_IOCTL_DIR \/ j = CAP_EXPIRE_ONLY \/
  exists i, (i, j) ∈ capable_table /\ Z.testbit (init_flags arg) i = true.
Proof.
  intros Hj. unfold offered. rewrite or_bit_testbit by done. intros [Hx|Hx]%orb_true_iff.
  - destruct (6 <=? ii_minor arg); [|by rewrite Z.bits_0 in Hx].
    rewrite or_bit_testbit in Hx by done. apply orb_true_iff in Hx as [Hx|Hx].
    + apply translate_testbit in Hx as [Hx|Hx]; [by rewrite Z.bits_0 in Hx|by auto| |done].
      repeat constructor; done.
    + apply andb_true_iff in Hx as [_ Hx]. apply bool_decide_eq_true in Hx. auto.
  - apply andb_true_iff in Hx as [_ Hx]. apply bool_decide_eq_true in Hx. auto.
Qed.

(** The two tables agree: a wanted capability has one kernel flag. *)
Lemma tables_agree : Forall (fun kc : Z * Z =>
  kc.2 <> CAP_IOCTL_DIR /\ kc.2 <> CAP_EXPIRE_ONLY /\
  Forall (fun kc' : Z * Z => kc'.2 = kc.2 -> kc'.1 = kc.1) capable_table) wanted_table.
Proof. repeat constructor; simpl; congruence. Qed.

Lemma set_defaults_capable op c n : capable_ext (set_defaults op (c, n)).1 = capable_ext c.
Proof.
  unfold set_defaults. generalize (defaults op). intros l. revert c n.
  induction l as [|[[] i] l IH]; intros c n; [done| |apply IH]. simpl.
  destruct (has_flag (capable_ext c) (bit i)); simpl; rewrite IH; done.
Qed.

Lemma u32_testbit x i : 0 <= i -> Z.testbit (u32 x) i = true -> Z.testbit x i = true /\ i < 32.
Proof.
  intros Hi Hb. unfold wrapu in Hb. destruct (Z.lt_ge_cases i 32) as [Hl|Hg].
  - rewrite Z.mod_pow2_bits_low in Hb by lia. done.
  - rewrite Z.mod_pow2_bits_high in Hb by lia. done.
Qed.

Lemma sent_flags_bit arg i : 0 <= i -> Z.testbit (ii_flags arg) i = true -> Z.testbit (sent_flags arg) i = true.
Proof.
  intros Hi Hb. unfold sent_flags. destruct (has_flag _ _); [|done]. by rewrite Z.lor_spec, Hb.
Qed.
Lemma init_flags_sent arg i : Z.testbit (init_flags arg) i = true -> Z.testbit (sent_flags arg) i = true.
Proof. unfold init_flags. destruct (6 <=? ii_minor arg); [done|]. by rewrite Z.bits_0. Qed.

Lemma wanted_was_offered arg want j i :
  0 <= j -> want_flags_valid (offered arg) want = true -> Z.testbit want j = true ->
  (i, j) ∈ wanted_table -> Z.testbit (init_flags arg) i = true.
Proof.
  intros Hj Hv Hw Hin. pose proof tables_agree as Ht. rewrite Forall_forall in Ht.
  destruct (Ht _ Hin) as (H1 & H2 & Hall). simpl in *. rewrite Forall_forall in Hall.
  destruct (offered_bit arg j Hj (want_valid_bit _ _ _ Hj Hv Hw)) as [->|[->|(i' & Hi' & Hb)]]; [done..|].
  by rewrite <- (Hall _ Hi' eq_refl).
Qed.

Lemma answer_flags_offered arg c uring i : 0 <= i ->
  want_flags_valid (offered arg) (want_ext c) = true ->
  (uring = true -> has_flag (want_ext c) (bit CAP_OVER_IO_URING) = true) ->
  Z.testbit (answer_flags arg c uring) i = true -> i = BIG_WRITES \/ Z.testbit (sent_flags arg) i = true.
Proof.
  intros Hi Hv Hu. unfold answer_flags. rewrite !or_bit_testbit by done.
  rewrite !orb_true_iff, !andb_true_iff, !bool_decide_eq_true.
  intros [[[Hx|[-> <-]]|[[Hx _] <-]]|[Hx <-]].
  - apply translate_testbit in Hx as [Hx|(j & Hj & Hw)]; [| | |done].
    + rewrite Z.lor_spec, bit_testbit, orb_true_iff, bool_decide_eq_true in Hx by done.
      destruct Hx as [Hx| ->]; [|by left]. rewrite or_bit_testbit in Hx by done.
      rewrite Z.bits_0 in Hx. apply andb_true_iff in Hx as [Hx <-%bool_decide_eq_true].
      rewrite has_flag_bit in Hx by done. right. by apply sent_flags_bit.
    + right. assert (0 <= j /\ (i, j) ∈ wanted_table) as [Hj0 Hin].
      { change (map swap_pair wanted_table) with (swap_pair <$> wanted_table) in Hj.
        apply list_elem_of_fmap in Hj as ([a b] & [= -> ->] & Hin). split; [|done].
        assert (bits_ok wanted_table) as Hb by (repeat constructor; done).
        unfold bits_ok in Hb. rewrite Forall_forall in Hb. apply (Hb _ Hin). }
      eapply init_flags_sent, wanted_was_offered; done.
    + repeat constructor; done.
  - right. specialize (Hu eq_refl). rewrite has_flag_bit in Hu by done.
    pose proof (want_valid_bit (offered arg) (want_ext c) CAP_OVER_IO_URING ltac:(lia) Hv Hu) as Hcap.
    destruct (offered_bit arg CAP_OVER_IO_URING ltac:(lia) Hcap)
      as [|[|(i & Hin & Hb)]]; [done..|].
    assert (Forall (fun kc : Z * Z => kc.2 = CAP_OVER_IO_URING -> kc.1 = OVER_IO_URING) capable_table) as Hf
      by (repeat constructor; simpl; congruence).
    rewrite Forall_forall in Hf. apply init_flags_sent; by rewrite <- (Hf _ Hin eq_refl).
  - right. apply init_flags_sent. by rewrite has_flag_bit in Hx by done.
  - right. apply init_flags_sent. by rewrite has_flag_bit in Hx by done.
Qed.

Lemma after_op_init_capable hi init n c : (forall c, capable_ext (init c) = capable_ext c) ->
  capable_ext (after_op_init hi init n c) = capable_ext c.
Proof.
  intros Hinit. unfold after_op_init. destruct hi; [|done]. unfold fuse_convert_to_conn_want_ext.
  destruct (_ && _); [destruct (negb _)|]; simpl; rewrite Hinit; done.
Qed.

(** The defaults and [op.init] keep what both of them keep. *)
Lemma set_defaults_limits op c n (P : Z -> Z -> Z -> Prop) :
  P (max_write c) (max_background c) (congestion_threshold c) ->
  let c' := (set_defaults op (c, n)).1 in
  P (max_write c') (max_background c') (congestion_threshold c').
Proof.
  unfold set_defaults. generalize (defaults op). intros l. revert c n.
  induction l as [|[[] i] l IH]; intros c n HP; [done| |by apply IH]. simpl.
  destruct (has_flag (capable_ext c) (bit i)); by apply IH.
Qed.
Lemma after_op_init_limits hi init n c (P : Z -> Z -> Z -> Prop) :
  (forall c, P (max_write (init c)) (max_background (init c)) (congestion_threshold (init c))) ->
  P (max_write c) (max_background c) (congestion_threshold c) ->
  let c' := after_op_init hi init n c in
  P (max_write c') (max_background c') (congestion_threshold c').
Proof.
  intros Hinit Hc. unfold after_op_init. destruct hi; [|done]. unfold fuse_convert_to_conn_want_ext.
  destruct (_ && _); [destruct (negb _)|]; simpl; apply Hinit.
Qed.

(** What a successful negotiation leaves; [P] is what the file system and the
    session guarantee about the limits. *)
Lemma negotiate_spec pagesize op init arg c n c' n' out (P : Z -> Z -> Z -> Prop) :
  (forall c, P (max_write (init c)) (max_background (init c)) (congestion_threshold (init c))) ->
  P (max_write c) (max_background c) (congestion_threshold c) ->
  (forall c, capable_ext (init c) = capable_ext c) ->
  negotiate pagesize op init arg c n = (c', n', Some out) ->
  want_flags_valid (offered arg) (want_ext c') = true /\
  out = init_answer pagesize arg c' (uring_enable n' && has_flag (want_ext c') (bit CAP_OVER_IO_URING)) /\
  bufsize n' = max_write c' + FUSE_BUFFER_HEADER_SIZE /\
  (exists b r c0, max_write c' = settled_write b r c0 /\
     (max_background c', congestion_threshold c') = settled_background c0 /\
     proto_minor c' = proto_minor c0 /\
     P (max_write c0) (max_background c0) (congestion_threshold c0)).
Proof.
  intros HPi HPc Hinit. unfold negotiate. destruct (offered_bufsize pagesize arg n) as [b r].
  set (c1 := set_caps _ (offered arg) _ _ _).
  pose proof (set_defaults_capable op c1 n) as Hcap.
  pose proof (set_defaults_limits op c1 n P HPc) as HP2. destruct (set_defaults op (c1, n)) as [c2 n2] eqn:Hd.
  simpl in Hcap, HP2. set (c3 := set_limits _ _ _ _ _ _ 1 c2).
  pose proof (after_op_init_capable (op op_init) init n2 c3 Hinit) as Hcap4.
  pose proof (after_op_init_limits (op op_init) init n2 c3 P HPi HP2) as HP4.
  set (c4 := after_op_init _ _ _ c3) in *. clearbody c4.
  assert (capable_ext c4 = offered arg) as Ho by (rewrite Hcap4; exact Hcap). rewrite Ho.
  destruct (want_flags_valid (offered arg) (want_ext c4)) eqn:Hv; simpl; [|done].
  destruct (max_read c4 =? max_read_mo n2); simpl; [|done].
  destruct (settled_background c4) as [bg ct] eqn:Hbg. intros [= <- <- <-].
  split_and!; try done. exists b, r, c4. by rewrite Hbg.
Qed.

(** C25: the answer to INIT turns on only what the kernel offered (and
    FUSE_BIG_WRITES), whatever capabilities the file system asks for: asking for
    one that was not offered is refused before an answer is made. *)
Theorem init_answers_only_offers pagesize op init arg c n c' n' out i :
  (forall c, capable_ext (init c) = capable_ext c) ->
  negotiate pagesize op init arg c n = (c', n', Some out) -> 0 <= i ->
  Z.testbit (Z.lor (io_flags out) (Z.shiftl (io_flags2 out) 32)) i = true ->
  i = BIG_WRITES \/ Z.testbit (sent_flags arg) i = true.
Proof.
  intros Hinit Hneg Hi Hb. destruct (negotiate_spec _ _ _ _ _ _ _ _ _ (fun _ _ _ => True)
    ltac:(done) ltac:(done) Hinit Hneg) as (Hv & -> & _).
  apply (answer_flags_offered arg c' (uring_enable n' && has_flag (want_ext c') (bit CAP_OVER_IO_URING)) i Hi Hv).
  { intros [_ Hu]%andb_true_iff. done. }
  rewrite Z.lor_spec, orb_true_iff in Hb. simpl in Hb. destruct Hb as [Hb|Hb].
  - by destruct (u32_testbit _ _ Hi Hb).
  - rewrite Z.shiftl_spec in Hb by done. destruct (has_flag (init_flags arg) (bit INIT_EXT)) eqn:He.
    + destruct (Z.lt_ge_cases i 32) as [Hl|Hg]; [by rewrite Z.testbit_neg_r in Hb by lia|].
      apply u32_testbit in Hb as [Hb _]; [|lia]. rewrite Z.shiftr_spec in Hb by lia.
      by replace (i - 32 + 32) with i in Hb by lia.
    + by rewrite Z.bits_0 in Hb.
Qed.

Definition default_conn : fuse_conn_info :=
  {| proto_major := 0; proto_minor := 0; max_write := 1048576; max_read := 0; max_readahead := UINT_MAX;
     capable := 0; want := 0; max_background := 0; congestion_threshold := 0; time_gran := 0;
     max_backing_stack_depth := 0; no_interrupt := false; capable_ext := 0; want_ext := 0;
     request_timeout := 0 |}.
(** [fuse_session_new]: [calloc], 256 pages of [max_write], no io_uring. *)
Definition default_nego : negotiation :=
  {| conn_want := 0; conn_want_ext := 0; bufsize := 1052672; buf_reallocable := true;
     uring_enable := false; max_read_mo := 0 |}.
(** A kernel of protocol 7.45 that offers everything. *)
Definition full_offer : fuse_init_in :=
  {| ii_major := 7; ii_minor := 45; ii_max_readahead := 131072; ii_flags := UINT_MAX; ii_flags2 := UINT_MAX |}.
Definition bridge_ops (o : ll_op) : bool := bool_decide (o <> op_init).

Lemma init_answers_only_offers_witness : exists c' n' out,
  negotiate 4096 bridge_ops id full_offer default_conn default_nego = (c', n', Some out) /\
  Z.testbit (Z.lor (io_flags out) (Z.shiftl (io_flags2 out) 32)) 13 = true /\
  (13 = BIG_WRITES \/ Z.testbit (sent_flags full_offer) 13 = true).
Proof.
  destruct (negotiate 4096 bridge_ops id full_offer default_conn default_nego) as [[c' n'] [out|]] eqn:E.
  - exists c', n', out. split; [done|].
    assert (Z.testbit (Z.lor (io_flags out) (Z.shiftl (io_flags2 out) 32)) 13 = true) as Hb.
    { revert E. vm_compute. intros E. by inversion E. }
    split; [done|]. eapply (init_answers_only_offers 4096 bridge_ops id); [done|exact E|done|exact Hb].
  - exfalso. revert E. vm_compute. intros E. by inversion E.
Defined.


(** A file system that sets the number of background requests. *)
Definition demo_init (c : fuse_conn_info) : fuse_conn_info :=
  set_limits (proto_major c) (proto_minor c) (max_write c) (max_readahead c) 100000 0 (time_gran c) c.
Definition all_ops (o : ll_op) : bool := true.


(** A library without io_uring, whose session has it enabled, tells a
    kernel that offers it that it is used: the start fails only after the
    answer is filled. *)
Theorem failed_uring_is_still_announced pagesize op init arg c n c' n' out :
  (forall c, capable_ext (init c) = capable_ext c) ->
  negotiate pagesize op init arg c n = (c', n', Some out) ->
  6 <= ii_minor arg -> has_flag (ii_flags arg) (bit INIT_EXT) = true ->
  uring_enable n' = true -> has_flag (want_ext c') (bit CAP_OVER_IO_URING) = true ->
  fuse_uring_start <> 0 /\ Z.testbit (io_flags2 out) (OVER_IO_URING - 32) = true.
Proof.
  intros Hinit Hneg Hmin Hext Hu Hw. split; [done|].
  destruct (negotiate_spec _ _ _ _ _ _ _ _ _ (fun _ _ _ => True) ltac:(done) ltac:(done) Hinit Hneg)
    as (_ & -> & _). rewrite Hu, Hw. cbn [init_answer io_flags2 andb].
  assert (has_flag (init_flags arg) (bit INIT_EXT) = true) as ->.
  { unfold init_flags. destruct (Z.leb_spec 6 (ii_minor arg)); [|lia].
    rewrite has_flag_bit in * by done. by apply sent_flags_bit. }
  unfold wrapu. rewrite Z.mod_pow2_bits_low, Z.shiftr_spec by lia.
  change (OVER_IO_URING - 32 + 32) with OVER_IO_URING. unfold answer_flags.
  rewrite !or_bit_testbit by done. rewrite (bool_decide_true (OVER_IO_URING = OVER_IO_URING)) by done.
  by rewrite orb_true_r.
Qed.

Definition uring_nego : negotiation :=
  {| conn_want := 0; conn_want_ext := 0; bufsize := 1052672; buf_reallocable := true;
     uring_enable := true; max_read_mo := 0 |}.
Lemma failed_uring_is_still_announced_witness : exists c' n' out,
  negotiate 4096 all_ops demo_init full_offer default_conn uring_nego = (c', n', Some out) /\
  fuse_uring_start <> 0 /\ Z.testbit (io_flags2 out) (OVER_IO_URING - 32) = true.
Proof.
  destruct (negotiate 4096 all_ops demo_init full_offer default_conn uring_nego)
    as [[c' n'] [out|]] eqn:E; [|exfalso; revert E; vm_compute; intros E; by inversion E].
  exists c', n', out. split; [done|].
  assert (match negotiate 4096 all_ops demo_init full_offer default_conn uring_nego with
          | (c, n, _) => uring_enable n && has_flag (want_ext c) (bit CAP_OVER_IO_URING)
          end = true) as Hb by (vm_compute; reflexivity).
  rewrite E in Hb. apply andb_true_iff in Hb as [H1 H2].
  refine (failed_uring_is_still_announced 4096 all_ops demo_init full_offer default_conn uring_nego
    c' n' out _ E _ _ H1 H2); [reflexivity|vm_compute; congruence|vm_compute; reflexivity].
Defined.
