(* ===== verification/LlSession.v ===== *)
(** * lib/fuse_lowlevel.c: interrupts, notifications and the request loop

    [find_interrupted] and [check_interrupt], which match an INTERRUPT with the
    request it names in either order of arrival; the notifications a file system
    sends; the table of handlers and [fuse_session_process_buf]. *)
From S2P Require Import Prelude Errno Sys LlDirent FuseBuf BufCopy Lowlevel LlOps LlInit.

Abbreviation FUSE_NOTIFY_POLL := 1 (only parsing).
Abbreviation FUSE_NOTIFY_INVAL_INODE := 2 (only parsing).
Abbreviation FUSE_NOTIFY_INVAL_ENTRY := 3 (only parsing).
Abbreviation FUSE_NOTIFY_STORE := 4 (only parsing).
Abbreviation FUSE_NOTIFY_RETRIEVE := 5 (only parsing).
Abbreviation FUSE_NOTIFY_DELETE := 6 (only parsing).
Abbreviation FUSE_NOTIFY_INC_EPOCH := 8 (only parsing).
Abbreviation FUSE_LL_INVALIDATE := 0 (only parsing).
Abbreviation FUSE_LL_EXPIRE_ONLY := 1 (only parsing).
Abbreviation FUSE_EXPIRE_ONLY := 1 (only parsing).

Abbreviation FUSE_READ := 15 (only parsing).
Abbreviation FUSE_WRITE := 16 (only parsing).
Abbreviation FUSE_RELEASE := 18 (only parsing).
Abbreviation FUSE_FSYNC := 20 (only parsing).
Abbreviation FUSE_INIT := 26 (only parsing).
Abbreviation FUSE_READDIR := 28 (only parsing).
Abbreviation FUSE_RELEASEDIR := 29 (only parsing).
Abbreviation FUSE_FSYNCDIR := 30 (only parsing).
Abbreviation FUSE_INTERRUPT := 36 (only parsing).
Abbreviation FUSE_NOTIFY_REPLY := 41 (only parsing).
Abbreviation FUSE_READDIRPLUS := 44 (only parsing).
Abbreviation CUSE_INIT := 4096 (only parsing).
Abbreviation FUSE_MAXOP := 4097 (only parsing).

Section Loop.
Context {W : Type} `{FileIO W} (E : env) (pagesize : Z).
(** The file system's [init] and its interrupt functions. *)
Context (init : fuse_conn_info -> fuse_conn_info).
Context (interrupt_func : Z -> nat -> Z -> prog (session W) unit).
Abbreviation ll := (prog (session W)).

(** ** Interrupts *)

(** Walks a list to the first request that satisfies [f]. *)
Fixpoint find_req (f : fuse_req -> bool) (l : list nat) : ll (option nat) :=
  match l with
  | [] => mret None
  | c :: l' => r ← get_req c; if f r then mret (Some c) else find_req f l'
  end.

Definition ref_change (p : nat) (d : Z) : ll unit :=
  put_req p (fun r => set_refs (rq_ref_cnt r + d) (rq_ch r) (rq_u r) (rq_data r) r).

(** The three critical sections of [find_interrupted] on the request [curr];
    between them [se->lock] is free and the reference keeps [curr] alive. *)
Definition interrupt_begin (curr : nat) : ll unit := ref_change curr 1.
Definition interrupt_mark (curr : nat) : ll (Z * Z) :=
  _ ← put_req curr (set_interrupted true);
  r ← get_req curr; mret (rq_u r, rq_data r).
Definition interrupt_end (curr : nat) : ll unit :=
  _ ← ref_change curr (-1);
  r ← get_req curr;
  if rq_ref_cnt r =? 0 then destroy_req curr else mret tt.

Definition find_interrupted (p : nat) : ll bool :=
  r ← get_req p;
  s ← pget;
  curr ← find_req (fun c => rq_unique c =? rq_u r) (rlist s);
  match curr with
  | Some curr =>
      _ ← interrupt_begin curr;
      f ← interrupt_mark curr;
      let '(func, data) := f : Z * Z in
      _ ← (if func =? 0 then mret tt else interrupt_func func curr data);
      _ ← interrupt_end curr;
      mret true
  | None =>
      s ← pget;
      dup ← find_req (fun c => rq_u c =? rq_u r) (interrupts s);
      mret (match dup with Some _ => true | None => false end)
  end.

(** The channel reference of a request is dropped and the request freed. *)
Definition drop_req (p : nat) : ll unit :=
  r ← get_req p;
  _ ← fuse_chan_put (rq_ch r);
  _ ← put_req p (set_refs (rq_ref_cnt r) None (rq_u r) (rq_data r));
  destroy_req p.

Definition _do_interrupt (p : nat) (nodeid : Z) (op_in in_payload : list Z) : ll unit :=
  _ ← put_req p (fun r => set_refs (rq_ref_cnt r) (rq_ch r) (u64_at 0 op_in) (rq_data r) r);
  found ← find_interrupted p;
  if (found : bool) then drop_req p else list_add_interrupt p.
Definition do_interrupt p nodeid inarg := _do_interrupt p nodeid inarg [].

(** The INTERRUPT that names [p] came first: it is consumed.  Otherwise the oldest
    waiting INTERRUPT is given back to be answered with [EAGAIN]. *)
Definition check_interrupt (p : nat) : ll (option nat) :=
  r ← get_req p;
  s ← pget;
  curr ← find_req (fun c => rq_u c =? rq_unique r) (interrupts s);
  match curr with
  | Some curr =>
      _ ← put_req p (set_interrupted true);
      _ ← list_del_req curr;
      _ ← drop_req curr;
      mret None
  | None =>
      match interrupts s with
      | curr :: _ => _ ← list_del_req curr; mret (Some curr)
      | [] => mret None
      end
  end.

Definition fuse_req_interrupt_func (p : nat) (func data : Z) : ll unit :=
  _ ← put_req p (fun r => set_refs (rq_ref_cnt r) (rq_ch r) func data r);
  r ← get_req p;
  if rq_interrupted r && negb (func =? 0) then interrupt_func func p data else mret tt.
Definition fuse_req_interrupted (p : nat) : ll bool := r ← get_req p; mret (rq_interrupted r).
Definition fuse_req_ctx (p : nat) : ll fuse_ctx := r ← get_req p; mret (rq_ctx r).
Definition fuse_req_is_uring (p : nat) : ll bool := r ← get_req p; mret (rq_is_uring r).

(** ** Notifications

    A poll handle names its session; [se = NULL] is not modelled. *)
Definition fuse_lowlevel_notify_poll (ph : option Z) : ll Z :=
  match ph with
  | Some kh => send_notify_iov E FUSE_NOTIFY_POLL [le 8 kh]
  | None => mret 0
  end.
Definition fuse_lowlevel_notify_inval_inode (ino off len : Z) : ll Z :=
  c ← conn_of;
  if proto_minor c <? 12 then mret (- ENOSYS)
  else send_notify_iov E FUSE_NOTIFY_INVAL_INODE [le 8 ino ++ le 8 off ++ le 8 len].
Definition fuse_lowlevel_notify_increment_epoch : ll Z :=
  c ← conn_of;
  if proto_minor c <? 44 then mret (- ENOSYS) else send_notify_iov E FUSE_NOTIFY_INC_EPOCH [].
(** [namelen + 1] bytes of the name are sent, the NUL with them. *)
Definition fuse_lowlevel_notify_entry (parent : Z) (name : string) (flags : Z) : ll Z :=
  c ← conn_of;
  if proto_minor c <? 12 then mret (- ENOSYS)
  else send_notify_iov E FUSE_NOTIFY_INVAL_ENTRY
         [le 8 parent ++ le 4 (strlen name) ++
            le 4 (if has_flag flags FUSE_LL_EXPIRE_ONLY then FUSE_EXPIRE_ONLY else 0);
          c_str name ++ [0]].
Definition fuse_lowlevel_notify_inval_entry (parent : Z) (name : string) : ll Z :=
  fuse_lowlevel_notify_entry parent name FUSE_LL_INVALIDATE.
Definition fuse_lowlevel_notify_expire_entry (parent : Z) (name : string) : ll Z :=
  c ← conn_of;
  if negb (has_flag (capable_ext c) (bit CAP_EXPIRE_ONLY)) then mret (- ENOSYS)
  else fuse_lowlevel_notify_entry parent name FUSE_LL_EXPIRE_ONLY.
Definition fuse_lowlevel_notify_delete (parent child : Z) (name : string) : ll Z :=
  c ← conn_of;
  if proto_minor c <? 18 then mret (- ENOSYS)
  else send_notify_iov E FUSE_NOTIFY_DELETE
         [le 8 parent ++ le 8 child ++ le 4 (strlen name) ++ le 4 0; c_str name ++ [0]].
(** A positive result of sending the data is made negative. *)
Definition fuse_lowlevel_notify_store (ino offset : Z) (bufv : fuse_bufvec) (flags : Z) : ll Z :=
  c ← conn_of;
  if proto_minor c <? 15 then mret (- ENOSYS)
  else
    res ← fuse_send_data_iov E false FUSE_NOTIFY_STORE 0
            [le 8 ino ++ le 8 offset ++ le 4 (u32 (fuse_buf_size (bv_buf bufv) 0)) ++ le 4 0] bufv flags;
    mret (if 0 <? res then - res else res).

Definition fuse_ll_retrieve_reply (cookie : Z) (p : nat) (ino : Z) (inarg : list Z) (ibuf : fuse_buf)
    : ll unit :=
  let is_fd := has_flag (buf_flags ibuf) FUSE_BUF_IS_FD in
  let mem := if is_fd then buf_mem ibuf else Some (drop 40 inarg) in
  let size := u64 (buf_size ibuf - (40 + 40)) in
  if size <? u32_at 16 inarg then fuse_reply_none p
  else
    h ← has_op op_retrieve_reply;
    if (h : bool) then
      call p (OpRetrieveReply cookie ino (s64 (u64_at 8 inarg)) (with_mem ibuf (u32_at 16 inarg) mem))
    else fuse_reply_none p.

Definition fuse_lowlevel_notify_retrieve (ino size offset cookie : Z) : ll Z :=
  c ← conn_of;
  if proto_minor c <? 15 then mret (- ENOSYS)
  else
    ok ← allocate E;
    if negb ok then mret (- ENOMEM)
    else
      s ← pget;
      let unique := notify_ctr s in
      _ ← pmodify (fun s => set_notify (notify_list s ++ [{| rr_unique := unique; rr_cookie := cookie |}])
                              (u64 (unique + 1)) s);
      err ← send_notify_iov E FUSE_NOTIFY_RETRIEVE
              [le 8 unique ++ le 8 ino ++ le 8 offset ++ le 4 (u32 size) ++ le 4 0];
      _ ← (if err =? 0 then mret tt
           else pmodify (fun s => set_notify (filter (fun r => rr_unique r <> unique) (notify_list s))
                                    (notify_ctr s) s));
      mret err.

(** The first waiting retrieval with the request's unique. *)
Definition take_notify (unique : Z) : ll (option retrieve_req) := fun s =>
  match list_find (fun r => rr_unique r = unique) (notify_list s) with
  | Some (i, r) => Done (Some r) (set_notify (delete i (notify_list s)) (notify_ctr s) s)
  | None => Done None s
  end.
(** A reply nobody waits for is dropped, and its request stays allocated. *)
Definition do_notify_reply (p : nat) (nodeid : Z) (inarg : list Z) (buf : fuse_buf) : ll unit :=
  r ← get_req p;
  n ← take_notify (rq_unique r);
  match n with
  | Some n => fuse_ll_retrieve_reply (rr_cookie n) p nodeid inarg buf
  | None => mret tt
  end.

(** ** The request loop *)

(** [fuse_ll_ops]; [CUSE_INIT] never gets past [fuse_req_opcode_sanity_ok], because
    a session made by [fuse_session_new] has no [cuse_data]. *)
Definition fuse_ll_ops (opcode : Z) : option (nat -> Z -> list Z -> ll unit) :=
  match opcode with
  | 1 => Some (do_lookup E) | 2 => Some (do_forget) | 3 => Some (do_getattr E)
  | 4 => Some (do_setattr E) | 5 => Some (do_readlink E) | 6 => Some (do_symlink E)
  | 8 => Some (do_mknod E) | 9 => Some (do_mkdir E) | 10 => Some (do_unlink E)
  | 11 => Some (do_rmdir E) | 12 => Some (do_rename E) | 13 => Some (do_link E)
  | 14 => Some (do_open E) | 15 => Some (do_read E) | 16 => Some (do_write E)
  | 17 => Some (do_statfs E) | 18 => Some (do_release E) | 20 => Some (do_fsync E)
  | 21 => Some (do_setxattr E) | 22 => Some (do_getxattr E) | 23 => Some (do_listxattr E)
  | 24 => Some (do_removexattr E) | 25 => Some (do_flush E)
  | 26 => Some (do_init E pagesize init) | 27 => Some (do_opendir E) | 28 => Some (do_readdir E)
  | 29 => Some (do_releasedir E) | 30 => Some (do_fsyncdir E) | 31 => Some (do_getlk E)
  | 32 => Some (do_setlk E) | 33 => Some (do_setlkw E) | 34 => Some (do_access E)
  | 35 => Some (do_create E) | 36 => Some do_interrupt | 37 => Some (do_bmap E)
  | 38 => Some (do_destroy E) | 39 => Some (do_ioctl E) | 40 => Some (do_poll E)
  | 42 => Some (do_batch_forget E) | 43 => Some (do_fallocate E) | 44 => Some (do_readdirplus E)
  | 45 => Some (do_rename2 E) | 46 => Some (do_lseek E) | 47 => Some (do_copy_file_range E)
  | 51 => Some (do_tmpfile E) | 52 => Some (do_statx E) | 53 => Some (do_copy_file_range_64 E)
  | _ => None
  end.
(** [fuse_ll_ops[opcode].func], where NOTIFY_REPLY has a dummy. *)
Definition has_func (opcode : Z) : bool :=
  (opcode <? FUSE_MAXOP) &&
  ((opcode =? FUSE_NOTIFY_REPLY) || match fuse_ll_ops opcode with Some _ => true | None => false end).

Definition fuse_req_opcode_sanity_ok (got_init : bool) (in_op : Z) : Z :=
  if negb got_init then (if negb (in_op =? FUSE_INIT) then EIO else 0)
  else if (in_op =? FUSE_INIT) || (in_op =? CUSE_INIT) then EIO
  else 0.

Definition unrestricted (in_op : Z) : bool :=
  bool_decide (in_op ∈ [FUSE_INIT; FUSE_READ; FUSE_WRITE; FUSE_FSYNC; FUSE_RELEASE; FUSE_READDIR;
    FUSE_FSYNCDIR; FUSE_RELEASEDIR; FUSE_NOTIFY_REPLY; FUSE_READDIRPLUS]).
Definition fuse_req_check_allow_root (deny_others : bool) (owner in_op in_uid : Z) : Z :=
  if deny_others && negb (in_uid =? owner) && negb (in_uid =? 0) && negb (unrestricted in_op)
  then EACCES else 0.

(** [struct fuse_in_header], 40 bytes *)
Record fuse_in_header := {
  ih_len : Z; ih_opcode : Z; ih_unique : Z; ih_nodeid : Z; ih_uid : Z; ih_gid : Z; ih_pid : Z;
}.
Definition in_header_at (l : list Z) : fuse_in_header :=
  {| ih_len := u32_at 0 l; ih_opcode := u32_at 4 l; ih_unique := u64_at 8 l; ih_nodeid := u64_at 16 l;
     ih_uid := u32_at 24 l; ih_gid := u32_at 28 l; ih_pid := u32_at 32 l |}.

Definition fuse_session_in2req (p : nat) (h : fuse_in_header) : ll unit :=
  put_req p (fun r => set_request (ih_unique h)
    {| c_uid := ih_uid h; c_gid := ih_gid h; c_pid := s32 (ih_pid h); c_umask := c_umask (rq_ctx r) |}
    (rq_ch r) (rq_interrupted r) r).

(** The handler of a request that passed the checks. *)
Definition dispatch_request (p : nat) (h : fuse_in_header) (inarg : list Z) (buf : fuse_buf) : ll unit :=
  write_buf ← has_op op_write_buf;
  if (ih_opcode h =? FUSE_WRITE) && (write_buf : bool) then do_write_buf E p (ih_nodeid h) inarg buf
  else if ih_opcode h =? FUSE_NOTIFY_REPLY then do_notify_reply p (ih_nodeid h) inarg buf
  else match fuse_ll_ops (ih_opcode h) with
       | Some f => f p (ih_nodeid h) inarg
       | None => mret tt
       end.

(** The check for an INTERRUPT that came before its request. *)
Definition register_request (p : nat) : ll unit :=
  intr ← check_interrupt p;
  _ ← list_add_req p;
  match intr with Some i => reply_err E i EAGAIN | None => mret tt end.

(** A request in memory: [mem] is the buffer, of which the first [size] bytes are
    the request.  (Requests in a pipe need [splice].) *)
Definition fuse_session_process_buf_internal (mem : list Z) (size : Z) (ch : option nat) : ll unit :=
  let h := in_header_at mem in
  let buf := {| buf_size := size; buf_flags := 0; buf_mem := Some mem; buf_fd := -1; buf_pos := 0;
                buf_mem_size := 0 |} in
  d ← fuse_ll_alloc_req E;
  match d with
  | None => _ ← fuse_send_msg E false (- ENOMEM) (ih_unique h) []; mret tt
  | Some p =>
      _ ← fuse_session_in2req p h;
      _ ← (match ch with
           | Some c => _ ← fuse_chan_get c;
                       put_req p (fun r => set_refs (rq_ref_cnt r) (Some c) (rq_u r) (rq_data r) r)
           | None => mret tt
           end);
      s ← pget;
      let sane := fuse_req_opcode_sanity_ok (got_init s) (ih_opcode h) in
      let allowed := fuse_req_check_allow_root (deny_others s) (owner s) (ih_opcode h) (ih_uid h) in
      if negb (sane =? 0) then reply_err E p sane
      else if negb (allowed =? 0) then reply_err E p allowed
      else if negb (has_func (ih_opcode h)) then reply_err E p ENOSYS
      else if no_interrupt (conn s) && (ih_opcode h =? FUSE_INTERRUPT) then reply_err E p ENOSYS
      else
        _ ← (if negb (no_interrupt (conn s)) && negb (ih_opcode h =? FUSE_INTERRUPT)
             then register_request p else mret tt);
        dispatch_request p h (drop 40 mem) buf
  end.
Definition fuse_session_process_buf (mem : list Z) (size : Z) : ll unit :=
  fuse_session_process_buf_internal mem size None.

(** ** Sessions *)

Definition fuse_session_exit : ll unit :=
  pmodify (fun s => set_life (conn s) (got_init s) (got_destroy s) (se_error s) true (nego s) s).
Definition fuse_session_reset : ll unit :=
  pmodify (fun s => set_life (conn s) (got_init s) (got_destroy s) 0 false (nego s) s).
Definition fuse_session_exited : ll bool := s ← pget; mret (mt_exited s).
End Loop.
