(* ===== verification/LlFacts.v ===== *)
(** * Requests of a session: lifetime, replies and interrupts

    [fuse_free_req] and the sending functions on a live request; the interleaving
    of answers and interrupts as a step relation, and that no step touches a
    freed request; the format of every reply. *)
From S2P Require Import Prelude Errno Sys LlDirent FuseBuf BufCopy Lowlevel LlOps LlInit LlSession.

Section Facts.
Context {W : Type} `{FileIO W} (E : env).
Implicit Types (s : session W) (p : nat).

(** A request that [fuse_free_req] can free without touching a channel. *)
Definition plain (r : fuse_req) : Prop := rq_is_uring r = false /\ rq_ch r = None.

Lemma put_req_ok p f r s : reqs s !! p = Some r ->
  put_req p f s = Done tt (set_reqs (<[p := f r]> (reqs s)) s).
Proof. intros Hr. unfold put_req, mbind, prog_bind, get_req. by rewrite Hr. Qed.
Lemma get_req_ok p r s : reqs s !! p = Some r -> get_req p s = Done r s.
Proof. intros Hr. unfold get_req. by rewrite Hr. Qed.

(** The request after its reference count went down. *)
Definition released (ni : bool) (r : fuse_req) : fuse_req :=
  if ni then set_refs (rq_ref_cnt r - 1) None (rq_u r) (rq_data r) r
  else set_refs (rq_ref_cnt r - 1) None 0 0 (set_refs (rq_ref_cnt r) (rq_ch r) 0 0 r).
Definition without (p : nat) (ni : bool) (l : list nat) : list nat := if ni then l else filter (.≠ p) l.
Definition freed_state (p : nat) (r : fuse_req) (s : session W) : session W :=
  let ni := no_interrupt (conn s) in
  set_heap (if rq_ref_cnt r =? 1 then delete p (reqs s) else <[p := released ni r]> (reqs s))
    (without p ni (rlist s)) (without p ni (interrupts s)) (chans s) s.

Lemma set_heap_twice r l i c r' l' i' c' s :
  set_heap r l i c (set_heap r' l' i' c' s) = set_heap r l i c s.
Proof. done. Qed.

Lemma destroy_req_ok p r s : reqs s !! p = Some r -> plain r ->
  destroy_req p s = Done tt (set_reqs (delete p (reqs s)) s).
Proof.
  intros Hr [Hu Hc]. unfold destroy_req. step ltac:(by apply get_req_ok). by rewrite Hu, Hc.
Qed.

Lemma fuse_free_req_spec p r s : reqs s !! p = Some r -> plain r ->
  fuse_free_req p s = Done tt (freed_state p r s).
Proof.
  intros Hr [Hu Hc]. unfold fuse_free_req. step ltac:(by apply get_req_ok). step ltac:(done).
  rewrite Hu, orb_false_r. set (ni := no_interrupt (conn s)). set (r' := released ni r).
  rewrite (bind_done _ _ _ tt (set_heap (<[p := r']> (reqs s)) (without p ni (rlist s))
                                 (without p ni (interrupts s)) (chans s) s)).
  - unfold freed_state. fold ni r'. destruct (Z.eqb_spec (rq_ref_cnt r - 1) 0);
      destruct (Z.eqb_spec (rq_ref_cnt r) 1); try lia; [|done].
    rewrite (destroy_req_ok p r') by (unfold r', released; destruct ni; (apply lookup_insert_eq || done)).
    unfold set_reqs. simpl. by rewrite delete_insert_eq.
  - unfold r', released, without. destruct ni.
    + step ltac:(by apply put_req_ok). rewrite Hc. step ltac:(done).
      erewrite put_req_ok by (simpl; apply lookup_insert_eq). unfold set_reqs. simpl.
      by rewrite insert_insert_eq.
    + step ltac:(by apply put_req_ok). step ltac:(done).
      step ltac:(by apply put_req_ok; simpl; apply lookup_insert_eq).
      rewrite Hc. step ltac:(done).
      erewrite put_req_ok by (simpl; apply lookup_insert_eq). unfold set_reqs, set_lists. simpl.
      by rewrite !insert_insert_eq.
Qed.

(** The message of a reply and the device's answer. *)
Definition message (error unique : Z) (iov : list (list Z)) : list Z :=
  out_header (16 + iov_length iov) error unique ++ concat iov.
Definition sent_state (msg : list Z) (s : session W) : session W :=
  set_wire (sends s ++ [msg])
    (match writev E (sends s) msg with Some _ => wire s | None => wire s ++ [msg] end) s.
Definition send_result (msg : list Z) (s : session W) : Z :=
  match writev E (sends s) msg with Some err => - err | None => 0 end.

Lemma fuse_write_msg_dev_spec msg s :
  fuse_write_msg_dev E msg s = Done (send_result msg s) (sent_state msg s).
Proof. unfold fuse_write_msg_dev, send_result, sent_state. by destruct (writev E (sends s) msg). Qed.

Definition answered (p : nat) (r : fuse_req) (error : Z) (iov : list (list Z)) (s : session W) : session W :=
  freed_state p r (sent_state (message (checked_error E error) (rq_unique r) iov) s).

Lemma send_reply_iov_spec p r error iov s : reqs s !! p = Some r -> plain r ->
  send_reply_iov E p error iov s =
    Done (send_result (message (checked_error E error) (rq_unique r) iov) s) (answered p r error iov s).
Proof.
  intros Hr [Hu Hc]. unfold send_reply_iov, fuse_send_reply_iov_nofree.
  rewrite (bind_done _ _ _ (send_result (message (checked_error E error) (rq_unique r) iov) s)
             (sent_state (message (checked_error E error) (rq_unique r) iov) s)).
  - step ltac:(by apply fuse_free_req_spec). done.
  - step ltac:(by apply get_req_ok). unfold fuse_send_msg. rewrite Hu. apply fuse_write_msg_dev_spec.
Qed.

Lemma send_reply_spec p r error arg s : reqs s !! p = Some r -> plain r ->
  send_reply E p error arg s = send_reply_iov E p error (if lenZ arg =? 0 then [] else [arg]) s.
Proof. intros Hr [Hu Hc]. unfold send_reply. step ltac:(by apply get_req_ok). by rewrite Hu. Qed.
End Facts.

(** ** Answers and interrupts interleaved

    [owned] are the requests somebody still has to answer; [visiting] the pairs
    of an INTERRUPT request and the request it found, between the critical
    sections of [find_interrupted].  The client's interrupt functions are
    [Answer] steps of their own. *)
Section Interleaving.
Context {W : Type} `{FileIO W} (E : env).

Implicit Types s : session W.
Record istate := { se : session W; owned : list nat; visiting : list (nat * nat) }.

Inductive istep_label :=
  | Receive (unique : Z)                              (* a request is read and registered *)
  | Answer (p : nat) (error : Z) (iov : list (list Z))  (* a reply is sent *)
  | Interrupt (unique : Z)                            (* an INTERRUPT is read *)
  | Mark (q curr : nat)                               (* its second critical section *)
  | Leave (q curr : nat).                             (* its third one *)

Abbreviation ll := (prog (session W)).
Definition alloc_for (set : fuse_req -> fuse_req) : ll (option nat) :=
  d ← fuse_ll_alloc_req E;
  match d with
  | None => mret None
  | Some p => _ ← put_req p set; mret (Some p)
  end.
Definition with_unique (u : Z) (r : fuse_req) : fuse_req :=
  set_request u (rq_ctx r) (rq_ch r) (rq_interrupted r) r.
Definition with_target (u : Z) (r : fuse_req) : fuse_req :=
  set_refs (rq_ref_cnt r) (rq_ch r) u (rq_data r) r.

(** What a label runs: the result is the state after it. *)
Definition irun (l : istep_label) (i : istate) : outcome (session W) istate :=
  match l with
  | Receive u =>
      (d ← alloc_for (with_unique u);
       match d with
       | None => s ← pget; mret {| se := s; owned := owned i; visiting := visiting i |}
       | Some p =>
           _ ← register_request E p;
           s ← pget; mret {| se := s; owned := p :: owned i; visiting := visiting i |}
       end) (se i)
  | Answer p error iov =>
      (_ ← send_reply_iov E p error iov;
       s ← pget; mret {| se := s; owned := filter (.≠ p) (owned i); visiting := visiting i |}) (se i)
  | Interrupt u =>
      (d ← alloc_for (with_target u);
       match d with
       | None => s ← pget; mret {| se := s; owned := owned i; visiting := visiting i |}
       | Some q =>
           s ← pget;
           c ← find_req (fun c => rq_unique c =? u) (rlist s);
           match c with
           | Some c =>
               _ ← interrupt_begin c;
               s ← pget; mret {| se := s; owned := owned i; visiting := (q, c) :: visiting i |}
           | None =>
               dup ← find_req (fun c => rq_u c =? u) (interrupts s);
               _ ← (match dup with Some _ => drop_req q | None => list_add_interrupt q end);
               s ← pget; mret {| se := s; owned := owned i; visiting := visiting i |}
           end
       end) (se i)
  | Mark q curr =>
      (_ ← interrupt_mark curr;
       s ← pget; mret {| se := s; owned := owned i; visiting := visiting i |}) (se i)
  | Leave q curr =>
      (_ ← interrupt_end curr;
       _ ← drop_req q;
       s ← pget;
       mret {| se := s; owned := owned i; visiting := filter (fun v => v.1 <> q) (visiting i) |}) (se i)
  end.

(** Only who owns a request answers it, only a visitor leaves. *)
Definition enabled (l : istep_label) (i : istate) : Prop :=
  match l with
  | Receive _ | Interrupt _ => True
  | Answer p _ _ => p ∈ owned i
  | Mark q curr | Leave q curr => (q, curr) ∈ visiting i
  end.

Inductive interleaved (i0 : istate) : istate -> Prop :=
  | interleaved_start : interleaved i0 i0
  | interleaved_step l i s' i' :
      interleaved i0 i -> enabled l i -> irun l i = Done i' s' -> interleaved i0 i'.

Definition initial (i : istate) : Prop :=
  owned i = [] /\ visiting i = [] /\ reqs (se i) = ∅ /\ rlist (se i) = [] /\ interrupts (se i) = [] /\
  no_interrupt (conn (se i)) = false.

(** Everybody who holds a reference. *)
Definition holders (i : istate) : list nat :=
  owned i ++ interrupts (se i) ++ map fst (visiting i) ++ map snd (visiting i).
Definition count (p : nat) (l : list nat) : nat := length (filter (.= p) l).

Record lifetime_ok (i : istate) : Prop := {
  lo_ref : forall p r, reqs (se i) !! p = Some r ->
    plain r /\ rq_ref_cnt r = Z.of_nat (count p (holders i)) /\ p ∈ holders i /\ (p < next_req (se i))%nat;
  lo_live : forall p, p ∈ holders i -> is_Some (reqs (se i) !! p);
  lo_nodup : NoDup (owned i ++ interrupts (se i) ++ map fst (visiting i));
  lo_listed : forall p, p ∈ rlist (se i) -> p ∈ owned i;
  lo_targets : forall p, p ∈ map snd (visiting i) -> p ∉ interrupts (se i) /\ p ∉ map fst (visiting i);
  lo_mode : no_interrupt (conn (se i)) = false;
}.

Lemma count_app p l k : count p (l ++ k) = (count p l + count p k)%nat.
Proof. unfold count. by rewrite filter_app, length_app. Qed.
Lemma count_cons p q l : count p (q :: l) = ((if decide (q = p) then 1 else 0) + count p l)%nat.
Proof. unfold count. rewrite filter_cons. by destruct (decide (q = p)). Qed.
Lemma count_notin p l : p ∉ l -> count p l = 0%nat.
Proof.
  induction l as [|q l IH]; [done|]. intros Hp. rewrite count_cons, decide_False by set_solver.
  apply IH. set_solver.
Qed.
Lemma count_in p l : p ∈ l -> (1 <= count p l)%nat.
Proof.
  induction l as [|q l IH]; [by intros ?%not_elem_of_nil|]. rewrite count_cons.
  intros [->|Hp]%elem_of_cons; [by rewrite decide_True; [lia|]|]. specialize (IH Hp). lia.
Qed.
Lemma count_nodup p l : NoDup l -> p ∈ l -> count p l = 1%nat.
Proof.
  induction 1 as [|q l Hq Hl IH]; [by intros ?%not_elem_of_nil|]. rewrite count_cons.
  intros [->|Hp]%elem_of_cons.
  - rewrite decide_True by done. by rewrite count_notin.
  - rewrite decide_False by (intros ->; done). by rewrite IH.
Qed.
Lemma count_filter p q l : count p (filter (.≠ q) l) = if decide (p = q) then 0%nat else count p l.
Proof.
  destruct (decide (p = q)) as [->|Hne].
  - apply count_notin. rewrite list_elem_of_filter. naive_solver.
  - induction l as [|x l IH]; [done|]. rewrite filter_cons. destruct (decide (x ≠ q)).
    + by rewrite !count_cons, IH.
    + rewrite count_cons, IH, decide_False; [done|]. intros ->. done.
Qed.

Lemma holder_old i p : lifetime_ok i -> p ∈ holders i -> (p < next_req (se i))%nat.
Proof. intros Hok Hp. destruct (lo_live i Hok p Hp) as [r Hr]. by apply (lo_ref i Hok p r Hr). Qed.

Lemma fresh_not_held i : lifetime_ok i -> next_req (se i) ∉ holders i.
Proof. intros Hok Hp. apply (holder_old i _ Hok) in Hp. lia. Qed.

Lemma lo_add_owned i s' r : lifetime_ok i -> plain r -> rq_ref_cnt r = 1 ->
  reqs s' = <[next_req (se i) := r]> (reqs (se i)) -> rlist s' = rlist (se i) ++ [next_req (se i)] ->
  interrupts s' = interrupts (se i) -> next_req s' = S (next_req (se i)) ->
  no_interrupt (conn s') = false ->
  lifetime_ok {| se := s'; owned := next_req (se i) :: owned i; visiting := visiting i |}.
Proof.
  intros Hok Hp H1 Hr Hl Hi Hn Hm. pose proof (fresh_not_held i Hok) as Hf. set (n := next_req (se i)) in *.
  split; cbn [se owned visiting]; rewrite ?Hr, ?Hl, ?Hi, ?Hn; try done.
  - intros p r' Hlk. unfold holders. cbn [se owned visiting app]. rewrite Hi, count_cons.
    change (owned i ++ interrupts (se i) ++ map fst (visiting i) ++ map snd (visiting i)) with (holders i).
    apply lookup_insert_Some in Hlk as [[<- <-]|[Hne Hlk]].
    + rewrite decide_True, count_notin by done. split_and!; [done|lia|by constructor|lia].
    + rewrite decide_False by done. destruct (lo_ref i Hok p r' Hlk) as (? & ? & ? & ?).
      split_and!; [done|lia|by constructor|lia].
  - intros p. unfold holders. cbn [se owned visiting app]. rewrite Hi.
    change (owned i ++ interrupts (se i) ++ map fst (visiting i) ++ map snd (visiting i)) with (holders i).
    intros [->|Hin]%elem_of_cons; [rewrite lookup_insert_eq; by eexists|].
    rewrite lookup_insert_ne; [by apply (lo_live i Hok)|]. intros ->. done.
  - cbn [app]. constructor; [|by apply (lo_nodup i Hok)]. intros Hin. apply Hf. unfold holders. set_solver.
  - intros p. rewrite elem_of_app, list_elem_of_singleton. intros [Hin| ->]; [|by constructor].
    constructor. by apply (lo_listed i Hok).
  - intros p Hin. by apply (lo_targets i Hok).
Qed.

Lemma lo_drop_interrupt i s' c : lifetime_ok i -> c ∈ interrupts (se i) ->
  reqs s' = delete c (reqs (se i)) -> rlist s' = filter (.≠ c) (rlist (se i)) ->
  interrupts s' = filter (.≠ c) (interrupts (se i)) -> next_req s' = next_req (se i) ->
  no_interrupt (conn s') = false ->
  lifetime_ok {| se := s'; owned := owned i; visiting := visiting i |}.
Proof.
  intros Hok Hc Hr Hl Hi Hn Hm. pose proof (lo_nodup i Hok) as Hnd.
  split; cbn [se owned visiting]; rewrite ?Hr, ?Hl, ?Hi, ?Hn; try done.
  - intros p r [Hne Hlk]%lookup_delete_Some. destruct (lo_ref i Hok p r Hlk) as (H1 & H2 & H3 & H4).
    split_and!; [done| |  |done].
    + rewrite H2. unfold holders. cbn [se owned visiting]. rewrite Hi, !count_app, count_filter.
      by rewrite decide_False by done.
    + unfold holders in *. cbn [se owned visiting]. rewrite Hi. rewrite !elem_of_app in *.
      rewrite list_elem_of_filter. naive_solver.
  - intros p Hin. unfold holders in Hin. cbn [se owned visiting] in Hin. rewrite Hi in Hin.
    rewrite lookup_delete_ne.
    + apply (lo_live i Hok). unfold holders. rewrite !elem_of_app in *.
      rewrite list_elem_of_filter in Hin. naive_solver.
    + intros <-. apply NoDup_app in Hnd as (_ & Ho & Hnd). apply NoDup_app in Hnd as (_ & Hv & _).
      rewrite !elem_of_app, list_elem_of_filter in Hin.
      destruct Hin as [Hin|[[Hin _]|[Hin|Hin]]]; [|done|by eapply Hv|].
      * apply (Ho c Hin). set_solver.
      * by destruct (lo_targets i Hok c Hin).
  - apply NoDup_app in Hnd as (H1 & H2 & H3). apply NoDup_app in H3 as (H3 & H4 & H5).
    apply NoDup_app. split; [done|]. split; [intros x Hx; specialize (H2 x Hx); rewrite elem_of_app, list_elem_of_filter in *; naive_solver|].
    apply NoDup_app. split; [by apply NoDup_filter|]. split; [|done].
    intros x. rewrite list_elem_of_filter. intros [_ Hx]. by apply H4.
  - intros p. rewrite list_elem_of_filter. intros [_ Hin]. by apply (lo_listed i Hok).
  - intros p Hin. destruct (lo_targets i Hok p Hin). split; [|done]. rewrite list_elem_of_filter. naive_solver.
Qed.

Lemma lo_answered i s' p r : lifetime_ok i -> p ∈ owned i -> reqs (se i) !! p = Some r ->
  reqs s' = (if rq_ref_cnt r =? 1 then delete p (reqs (se i)) else <[p := released false r]> (reqs (se i))) ->
  rlist s' = filter (.≠ p) (rlist (se i)) -> interrupts s' = filter (.≠ p) (interrupts (se i)) ->
  next_req s' = next_req (se i) -> no_interrupt (conn s') = false ->
  lifetime_ok {| se := s'; owned := filter (.≠ p) (owned i); visiting := visiting i |}.
Proof.
  intros Hok Hp Hr Hr' Hl Hi Hn Hm. pose proof (lo_nodup i Hok) as Hnd.
  destruct (lo_ref i Hok p r Hr) as ([Hu Hch] & Hcnt & Hin & Hlt).
  apply NoDup_app in Hnd as (Hno & Hoi & Hnd).
  assert (p ∉ interrupts (se i) /\ p ∉ map fst (visiting i)) as [Hpi Hpf] by (specialize (Hoi p Hp); set_solver).
  assert (count p (holders i) = S (count p (map snd (visiting i)))) as Hc.
  { unfold holders. rewrite !count_app, (count_nodup p (owned i)), (count_notin p (interrupts _)),
      (count_notin p (map fst _)) by done. lia. }
  assert (forall x, x <> p -> count x (filter (.≠ p) (owned i) ++ filter (.≠ p) (interrupts (se i)) ++
            map fst (visiting i) ++ map snd (visiting i)) = count x (holders i)) as Hother.
  { intros x Hx. unfold holders. rewrite !count_app, !count_filter, !decide_False by done. done. }
  split; cbn [se owned visiting]; rewrite ?Hl, ?Hi, ?Hn; try done.
  - intros x rx Hx. unfold holders. cbn [se owned visiting]. rewrite Hi. destruct (decide (x = p)) as [->|Hxp].
    + rewrite Hr' in Hx. destruct (Z.eqb_spec (rq_ref_cnt r) 1); [by rewrite lookup_delete_eq in Hx|].
      rewrite lookup_insert_eq in Hx. injection Hx as <-. split; [done|]. split; [|split; [|done]].
      * simpl. rewrite Hcnt, Hc, !count_app, !count_filter, !decide_True, (count_notin p (map fst _)) by done. lia.
      * assert (p ∈ map snd (visiting i)); [|rewrite !elem_of_app; auto].
        destruct (decide (p ∈ map snd (visiting i))) as [|Hns]; [done|].
        rewrite (count_notin _ _ Hns) in Hc. lia.
    + assert (reqs (se i) !! x = Some rx) as Hxo.
      { rewrite Hr' in Hx. destruct (rq_ref_cnt r =? 1).
        - by apply lookup_delete_Some in Hx as [_ Hx].
        - by rewrite lookup_insert_ne in Hx. }
      destruct (lo_ref i Hok x rx Hxo) as (? & ? & Hxin & ?). rewrite Hother by done.
      split_and!; try done. unfold holders in Hxin. rewrite !elem_of_app in *.
      rewrite !list_elem_of_filter. naive_solver.
  - intros x Hx. unfold holders in Hx. cbn [se owned visiting] in Hx. rewrite Hi in Hx. rewrite Hr'.
    destruct (decide (x = p)) as [->|Hxp].
    + rewrite !elem_of_app, !list_elem_of_filter in Hx.
      destruct Hx as [[]|[[]|[|Hx]]]; [done..|]. apply count_in in Hx.
      destruct (Z.eqb_spec (rq_ref_cnt r) 1); [lia|]. rewrite lookup_insert_eq. by eexists.
    + assert (is_Some (reqs (se i) !! x)).
      { apply (lo_live i Hok). unfold holders. rewrite !elem_of_app, !list_elem_of_filter in *. naive_solver. }
      destruct (rq_ref_cnt r =? 1); [by rewrite lookup_delete_ne|by rewrite lookup_insert_ne].
  - apply NoDup_app. split; [by apply NoDup_filter|]. split.
    + intros x [_ Hx]%list_elem_of_filter. specialize (Hoi x Hx). rewrite elem_of_app, list_elem_of_filter in *.
      naive_solver.
    + apply NoDup_app in Hnd as (H1 & H2 & H3). apply NoDup_app. split; [by apply NoDup_filter|]. split; [|done].
      intros x [_ Hx]%list_elem_of_filter. by apply H2.
  - intros x [Hne Hx]%list_elem_of_filter. apply list_elem_of_filter. split; [done|]. by apply (lo_listed i Hok).
  - intros x Hx. destruct (lo_targets i Hok x Hx). split; [|done]. rewrite list_elem_of_filter. naive_solver.
Qed.

Lemma lo_visit i s' c rc r : lifetime_ok i -> c ∈ rlist (se i) -> reqs (se i) !! c = Some rc ->
  plain r -> rq_ref_cnt r = 1 ->
  reqs s' = <[c := set_refs (rq_ref_cnt rc + 1) (rq_ch rc) (rq_u rc) (rq_data rc) rc]>
              (<[next_req (se i) := r]> (reqs (se i))) ->
  rlist s' = rlist (se i) -> interrupts s' = interrupts (se i) -> next_req s' = S (next_req (se i)) ->
  no_interrupt (conn s') = false ->
  lifetime_ok {| se := s'; owned := owned i; visiting := (next_req (se i), c) :: visiting i |}.
Proof.
  intros Hok Hc Hrc Hp H1 Hr Hl Hi Hn Hm. pose proof (fresh_not_held i Hok) as Hf.
  pose proof (lo_listed i Hok c Hc) as Hco.
  destruct (lo_ref i Hok c rc Hrc) as ([Hu Hch] & Hcnt & Hcin & Hlt). set (n := next_req (se i)) in *.
  assert (forall x, count x (owned i ++ interrupts (se i) ++ (n :: map fst (visiting i)) ++ c :: map snd (visiting i))
            = ((if decide (n = x) then 1 else 0) + (if decide (c = x) then 1 else 0) + count x (holders i))%nat) as Hcount.
  { intros x. unfold holders. rewrite !count_app, !count_cons. lia. }
  assert (forall x, x ∈ owned i ++ interrupts (se i) ++ (n :: map fst (visiting i)) ++ c :: map snd (visiting i)
            <-> x = n \/ x ∈ holders i) as Hin.
  { intros x. unfold holders. rewrite !elem_of_app, !elem_of_cons. split; [|naive_solver].
    intros [?|[?|[[->|?]|[->|?]]]]; auto 6. }
  pose proof (lo_nodup i Hok) as Hnd. apply NoDup_app in Hnd as (Hno & Hoi & Hnd).
  pose proof Hnd as Hnd'. apply NoDup_app in Hnd' as (Hni & Hif & Hnf).
  assert (n ∉ owned i /\ n ∉ interrupts (se i) /\ n ∉ map fst (visiting i) /\ n ∉ map snd (visiting i))
    as (Hf1 & Hf2 & Hf3 & Hf4) by (unfold holders in Hf; set_solver).
  split; cbn [se owned visiting map fst snd]; rewrite ?Hl, ?Hi, ?Hn; try done.
  - intros x rx Hx. unfold holders. cbn [se owned visiting map fst snd]. rewrite Hi, Hcount, Hin.
    rewrite Hr in Hx. apply lookup_insert_Some in Hx as [[<- <-]|[Hxc Hx]].
    + rewrite decide_False, decide_True by (done || lia). split_and!; [done|simpl; lia|auto|lia].
    + rewrite (decide_False (P := c = x)) by done. apply lookup_insert_Some in Hx as [[<- <-]|[Hxn Hx]].
      * rewrite decide_True, count_notin by done. split_and!; [done|simpl; lia|auto|lia].
      * rewrite decide_False by done. destruct (lo_ref i Hok x rx Hx) as (? & ? & ? & ?).
        split_and!; [done|simpl; lia|auto|lia].
  - intros x. unfold holders. cbn [se owned visiting map fst snd]. rewrite Hi, Hin, Hr. intros Hx.
    destruct (decide (x = c)) as [->|]; [rewrite lookup_insert_eq; by eexists|]. rewrite lookup_insert_ne by done.
    destruct Hx as [->|Hx]; [rewrite lookup_insert_eq; by eexists|].
    rewrite lookup_insert_ne by (intros <-; done). by apply (lo_live i Hok).
  - apply NoDup_app. split; [done|]. split; [|apply NoDup_app; split; [done|split; [|by constructor]]].
    + intros x Hx. specialize (Hoi x Hx). rewrite !elem_of_app, elem_of_cons in *. intros [?|[->|?]]; auto.
    + intros x Hx. specialize (Hif x Hx). rewrite elem_of_cons. intros [->|?]; auto.
  - intros x. by apply (lo_listed i Hok).
  - intros x [->|Hx]%elem_of_cons.
    + specialize (Hoi c Hco). rewrite elem_of_app in Hoi. split; [naive_solver|].
      rewrite elem_of_cons. intros [->|?]; [done|]. naive_solver.
    + destruct (lo_targets i Hok x Hx). split; [done|]. rewrite elem_of_cons. intros [->|?]; done.
Qed.

Lemma lo_wait i s' r : lifetime_ok i -> plain r -> rq_ref_cnt r = 1 ->
  reqs s' = <[next_req (se i) := r]> (reqs (se i)) -> rlist s' = rlist (se i) ->
  interrupts s' = interrupts (se i) ++ [next_req (se i)] -> next_req s' = S (next_req (se i)) ->
  no_interrupt (conn s') = false ->
  lifetime_ok {| se := s'; owned := owned i; visiting := visiting i |}.
Proof.
  intros Hok Hp H1 Hr Hl Hi Hn Hm. pose proof (fresh_not_held i Hok) as Hf. set (n := next_req (se i)) in *.
  assert (forall x, count x (owned i ++ (interrupts (se i) ++ [n]) ++ map fst (visiting i) ++ map snd (visiting i))
            = ((if decide (n = x) then 1 else 0) + count x (holders i))%nat) as Hcount.
  { intros x. unfold holders. rewrite !count_app, count_cons. change (count x []) with 0%nat. lia. }
  assert (forall x, x ∈ owned i ++ (interrupts (se i) ++ [n]) ++ map fst (visiting i) ++ map snd (visiting i)
            <-> x = n \/ x ∈ holders i) as Hin.
  { intros x. unfold holders. rewrite !elem_of_app, list_elem_of_singleton. naive_solver. }
  assert (n ∉ owned i /\ n ∉ interrupts (se i) /\ n ∉ map fst (visiting i) /\ n ∉ map snd (visiting i))
    as (Hf1 & Hf2 & Hf3 & Hf4) by (unfold holders in Hf; set_solver).
  split; cbn [se owned visiting]; rewrite ?Hl, ?Hi, ?Hn; try done.
  - intros x rx Hx. unfold holders. cbn [se owned visiting]. rewrite Hi, Hcount, Hin.
    rewrite Hr in Hx. apply lookup_insert_Some in Hx as [[<- <-]|[Hxn Hx]].
    + rewrite decide_True, count_notin by done. split_and!; [done|simpl; lia|auto|lia].
    + rewrite decide_False by done. destruct (lo_ref i Hok x rx Hx) as (? & ? & ? & ?).
      split_and!; [done|simpl; lia|auto|lia].
  - intros x. unfold holders. cbn [se owned visiting]. rewrite Hi, Hin, Hr. intros [->|Hx].
    + rewrite lookup_insert_eq. by eexists.
    + rewrite lookup_insert_ne by (intros <-; done). by apply (lo_live i Hok).
  - pose proof (lo_nodup i Hok) as Hnd. apply NoDup_app in Hnd as (Hno & Hoi & Hnd).
    apply NoDup_app in Hnd as (Hni & Hif & Hnf).
    apply NoDup_app. split; [done|]. split; [|apply NoDup_app; split; [|split; [|done]]].
    + intros x Hx. specialize (Hoi x Hx). rewrite !elem_of_app, list_elem_of_singleton in *.
      intros [[?| ->]|?]; auto.
    + apply NoDup_app. split; [done|]. split; [|apply NoDup_singleton]. intros x Hx. rewrite list_elem_of_singleton.
      by intros ->.
    + intros x. rewrite elem_of_app, list_elem_of_singleton. intros [Hx| ->]; auto.
  - by apply (lo_listed i Hok).
  - intros x Hx. destruct (lo_targets i Hok x Hx). split; [|done]. rewrite elem_of_app, list_elem_of_singleton.
    intros [?| ->]; done.
Qed.

Lemma lo_same_refs i s' c rc r : lifetime_ok i -> reqs (se i) !! c = Some rc ->
  plain r -> rq_ref_cnt r = rq_ref_cnt rc -> reqs s' = <[c := r]> (reqs (se i)) ->
  rlist s' = rlist (se i) -> interrupts s' = interrupts (se i) -> next_req s' = next_req (se i) ->
  no_interrupt (conn s') = false ->
  lifetime_ok {| se := s'; owned := owned i; visiting := visiting i |}.
Proof.
  intros Hok Hrc Hp Href Hr Hl Hi Hn Hm. destruct (lo_ref i Hok c rc Hrc) as (_ & Hcnt & Hcin & Hlt).
  split; cbn [se owned visiting]; rewrite ?Hl, ?Hi, ?Hn; try done; try apply Hok.
  - intros x rx Hx. unfold holders. cbn [se owned visiting]. rewrite Hi.
    rewrite Hr in Hx. apply lookup_insert_Some in Hx as [[<- <-]|[Hxn Hx]]; [|by apply (lo_ref i Hok)].
    split_and!; [done| |done|done]. rewrite Href, Hcnt. done.
  - intros x. unfold holders. cbn [se owned visiting]. rewrite Hi, Hr. intros Hx.
    destruct (decide (x = c)) as [->|]; [rewrite lookup_insert_eq; by eexists|].
    rewrite lookup_insert_ne by done. by apply (lo_live i Hok).
Qed.

(** A visit leaves one pair; the other visitors of the target stay. *)
Lemma filter_visits (q c : nat) (v : list (nat * nat)) : NoDup (map fst v) -> (q, c) ∈ v ->
  (forall x, count x (map snd v) = ((if decide (c = x) then 1 else 0) +
                                     count x (map snd (filter (fun w => w.1 <> q) v)))%nat) /\
  map fst (filter (fun w => w.1 <> q) v) = filter (.≠ q) (map fst v).
Proof.
  induction v as [|[a b] v IH]; [by intros _ ?%not_elem_of_nil|]. cbn [map fst snd].
  intros Hnd Hin. apply NoDup_cons in Hnd as [Ha Hnd]. apply elem_of_cons in Hin as [[= <- <-]|Hin].
  - rewrite filter_cons_False by (simpl; naive_solver). rewrite (filter_cons_False _ q (map fst v)) by naive_solver.
    assert (filter (fun w : nat * nat => w.1 <> q) v = v) as ->.
    { clear IH Hnd. induction v as [|[x y] v IH]; [done|]. cbn [map fst] in Ha. apply not_elem_of_cons in Ha as [? ?].
      rewrite filter_cons_True by (simpl; naive_solver). by rewrite IH. }
    split; [intros x; by rewrite count_cons|]. symmetry.
    clear IH. induction (map fst v) as [|x l IH]; [done|]. apply not_elem_of_cons in Ha as [? ?].
    apply NoDup_cons in Hnd as [_ Hnd]. rewrite filter_cons_True by naive_solver. by rewrite IH.
  - destruct (IH Hnd Hin) as [IH1 IH2].
    assert (a <> q).
    { intros ->. apply Ha. change (map fst v) with (fst <$> v). apply list_elem_of_fmap. by exists (q, c). }
    rewrite filter_cons_True by done. rewrite (filter_cons_True _ a (map fst v)) by done. cbn [map fst snd].
    split; [|by rewrite IH2]. intros x. rewrite !count_cons, IH1. lia.
Qed.

Lemma lo_leave i s' q c rc : lifetime_ok i -> (q, c) ∈ visiting i -> reqs (se i) !! c = Some rc ->
  reqs s' = delete q (if rq_ref_cnt rc =? 1 then delete c (reqs (se i))
                      else <[c := set_refs (rq_ref_cnt rc - 1) (rq_ch rc) (rq_u rc) (rq_data rc) rc]> (reqs (se i))) ->
  rlist s' = rlist (se i) -> interrupts s' = interrupts (se i) -> next_req s' = next_req (se i) ->
  no_interrupt (conn s') = false ->
  lifetime_ok {| se := s'; owned := owned i; visiting := filter (fun v => v.1 <> q) (visiting i) |}.
Proof.
  intros Hok Hv Hrc Hr Hl Hi Hn Hm. destruct (lo_ref i Hok c rc Hrc) as ([Hu Hch] & Hcnt & Hcin & Hlt).
  pose proof (lo_nodup i Hok) as Hnd. apply NoDup_app in Hnd as (Hno & Hoi & Hnd).
  apply NoDup_app in Hnd as (Hni & Hif & Hnf).
  destruct (filter_visits q c (visiting i) Hnf Hv) as [Hcs Hfs].
  assert (q ∈ map fst (visiting i) /\ c ∈ map snd (visiting i)) as [Hqf Hcsnd].
  { change (q ∈ fst <$> visiting i /\ c ∈ snd <$> visiting i). rewrite !list_elem_of_fmap. split; by exists (q, c). }
  assert (forall x, x ∈ map snd (visiting i) -> x <> q) as Hsq.
  { intros x Hx ->. by destruct (lo_targets i Hok q Hx). }
  assert (q ∉ owned i) as Hqo by (intros Hq; specialize (Hoi q Hq); set_solver).
  assert (q ∉ interrupts (se i)) as Hqi by (intros Hq; by specialize (Hif q Hq)).
  assert (forall x, x ∈ map snd (filter (fun w => w.1 <> q) (visiting i)) -> x ∈ map snd (visiting i)) as Hsub.
  { intros x. change (x ∈ snd <$> filter (fun w => w.1 <> q) (visiting i) -> x ∈ snd <$> visiting i).
    rewrite !list_elem_of_fmap. intros (y & -> & [_ Hy]%list_elem_of_filter). by exists y. }
  assert (forall x, x <> q ->
    count x (holders i) = ((if decide (c = x) then 1 else 0) +
      count x (owned i ++ interrupts (se i) ++ filter (.≠ q) (map fst (visiting i)) ++
               map snd (filter (fun w => w.1 <> q) (visiting i))))%nat) as Hcount.
  { intros x Hx. unfold holders. rewrite !count_app, Hcs, count_filter, (decide_False (P := x = q)) by done. lia. }
  split; cbn [se owned visiting]; rewrite ?Hl, ?Hi, ?Hn, ?Hfs; try done; try apply Hok.
  - intros x rx Hx. unfold holders. cbn [se owned visiting]. rewrite Hi, Hfs.
    rewrite Hr in Hx. apply lookup_delete_Some in Hx as [Hxq Hx].
    assert (x ∈ owned i ++ interrupts (se i) ++ filter (.≠ q) (map fst (visiting i)) ++
              map snd (filter (fun w => w.1 <> q) (visiting i)) <->
            (1 <= count x (owned i ++ interrupts (se i) ++ filter (.≠ q) (map fst (visiting i)) ++
              map snd (filter (fun w => w.1 <> q) (visiting i))))%nat) as ->.
    { split; [apply count_in|]. intros Hc1. destruct (decide (x ∈ owned i ++ interrupts (se i) ++
        filter (.≠ q) (map fst (visiting i)) ++ map snd (filter (fun w => w.1 <> q) (visiting i)))) as [|Hni']; [done|].
      rewrite (count_notin _ _ Hni') in Hc1. lia. }
    specialize (Hcount x ltac:(done)). destruct (decide (c = x)) as [<-|Hxc].
    + destruct (Z.eqb_spec (rq_ref_cnt rc) 1) as [|Hne]; [by rewrite lookup_delete_eq in Hx|].
      rewrite lookup_insert_eq in Hx. injection Hx as <-. split_and!; [done|simpl; lia|lia|done].
    + assert (reqs (se i) !! x = Some rx) as Hx'.
      { destruct (rq_ref_cnt rc =? 1); [by rewrite lookup_delete_ne in Hx|by rewrite lookup_insert_ne in Hx]. }
      destruct (lo_ref i Hok x rx Hx') as (? & ? & Hxin & ?). apply count_in in Hxin.
      split_and!; [done|lia|lia|done].
  - intros x. unfold holders. cbn [se owned visiting]. rewrite Hi, Hfs, Hr. intros Hx.
    assert (x ∈ holders i /\ x <> q) as [Hxh Hxq].
    { unfold holders. rewrite !elem_of_app, list_elem_of_filter in *.
      destruct Hx as [Hx|[Hx|[[]|Hx]]]; [| |by auto|apply Hsub in Hx]; (split; [auto|]).
      - by intros ->. - by intros ->. - by apply Hsq. }
    rewrite lookup_delete_ne by done. destruct (decide (x = c)) as [->|Hxc].
    + specialize (Hcount c Hxq). rewrite decide_True in Hcount by done.
      destruct (Z.eqb_spec (rq_ref_cnt rc) 1); [|rewrite lookup_insert_eq; by eexists].
      apply count_in in Hx. lia.
    + destruct (rq_ref_cnt rc =? 1); [rewrite lookup_delete_ne by done|rewrite lookup_insert_ne by done];
        by apply (lo_live i Hok).
  - apply NoDup_app. split; [done|]. split; [|apply NoDup_app; split; [done|split; [|by apply NoDup_filter]]].
    + intros x Hx. specialize (Hoi x Hx). rewrite elem_of_app, list_elem_of_filter in *. naive_solver.
    + intros x Hx. specialize (Hif x Hx). rewrite list_elem_of_filter. naive_solver.
  - intros x Hx. apply Hsub in Hx. destruct (lo_targets i Hok x Hx). split; [done|].
    rewrite list_elem_of_filter. naive_solver.
Qed.

Lemma lo_core i s' : lifetime_ok i -> reqs s' = reqs (se i) -> rlist s' = rlist (se i) ->
  interrupts s' = interrupts (se i) -> next_req s' = next_req (se i) -> conn s' = conn (se i) ->
  lifetime_ok {| se := s'; owned := owned i; visiting := visiting i |}.
Proof.
  intros [H1 H2 H3 H4 H5 H6] Hr Hl Hi Hn Hc. unfold holders in *.
  split; unfold holders; cbn [se owned visiting]; rewrite ?Hr, ?Hl, ?Hi, ?Hn, ?Hc; done.
Qed.

Lemma alloc_for_spec set s : (exists s', alloc_for set s = Done None s' /\ reqs s' = reqs s /\
    rlist s' = rlist s /\ interrupts s' = interrupts s /\ next_req s' = next_req s /\ conn s' = conn s) \/
  (exists s', alloc_for set s = Done (Some (next_req s)) s' /\
    reqs s' = <[next_req s := set fresh_req]> (reqs s) /\
    rlist s' = rlist s /\ interrupts s' = interrupts s /\ next_req s' = S (next_req s) /\ conn s' = conn s).
Proof.
  unfold alloc_for, fuse_ll_alloc_req. destruct (malloc_ok E (allocs s)) eqn:Hm.
  - right. eexists. split.
    + erewrite bind_done.
      2: { erewrite bind_done by (unfold allocate; rewrite Hm; reflexivity). cbv beta iota.
           step ltac:(done). step ltac:(done). reflexivity. }
      cbv beta iota. step ltac:(by apply put_req_ok; simpl; apply lookup_insert_eq). reflexivity.
    + simpl. by rewrite insert_insert_eq.
  - left. eexists. split.
    + erewrite bind_done.
      2: { erewrite bind_done by (unfold allocate; rewrite Hm; reflexivity). reflexivity. }
      reflexivity.
    + done.
Qed.

Lemma find_req_spec (f : fuse_req -> bool) l s : (forall c, c ∈ l -> is_Some (reqs s !! c)) ->
  exists o, find_req f l s = Done o s /\
    match o with
    | Some c => c ∈ l /\ exists r, reqs s !! c = Some r /\ f r = true
    | None => forall c r, c ∈ l -> reqs s !! c = Some r -> f r = false
    end.
Proof.
  induction l as [|c l IH]; intros Hl.
  - exists None. split; [done|]. by intros ? ? ?%not_elem_of_nil.
  - destruct (Hl c ltac:(by constructor)) as [r Hr]. cbn [find_req].
    destruct (f r) eqn:Hf.
    + exists (Some c). split; [step ltac:(by apply get_req_ok); by rewrite Hf|].
      split; [by constructor|by exists r].
    + destruct IH as (o & Ho & Hspec); [intros x Hx; apply Hl; by constructor|].
      exists o. split; [step ltac:(by apply get_req_ok); by rewrite Hf|].
      destruct o as [x|]; [destruct Hspec as [? ?]; split; [by constructor|done]|].
      intros x rx [->|Hx]%elem_of_cons Hrx; [congruence|by apply (Hspec x)].
Qed.

Lemma drop_req_ok p r s : reqs s !! p = Some r -> plain r ->
  drop_req p s = Done tt (set_reqs (delete p (reqs s)) s).
Proof.
  intros Hr [Hu Hc]. unfold drop_req. step ltac:(by apply get_req_ok). rewrite Hc. step ltac:(done).
  step ltac:(by apply put_req_ok). erewrite destroy_req_ok.
  - unfold set_reqs. simpl. by rewrite delete_insert_eq.
  - simpl. apply lookup_insert_eq.
  - done.
Qed.

Lemma interrupt_live i c : lifetime_ok i -> c ∈ interrupts (se i) ->
  exists r, reqs (se i) !! c = Some r /\ plain r /\ rq_ref_cnt r = 1 /\ c ∉ rlist (se i) /\ c ∉ owned i.
Proof.
  intros Hok Hc. destruct (lo_live i Hok c) as [r Hr]; [unfold holders; set_solver|].
  destruct (lo_ref i Hok c r Hr) as (Hp & Hcnt & _). exists r.
  pose proof (lo_nodup i Hok) as Hnd. apply NoDup_app in Hnd as (_ & Hoi & Hnd).
  apply NoDup_app in Hnd as (Hni & Hif & _).
  assert (c ∉ owned i) as Hco by (intros Ho; specialize (Hoi c Ho); set_solver).
  assert (c ∉ map snd (visiting i)) as Hcs by (intros Hs; by destruct (lo_targets i Hok c Hs)).
  split_and!; try done.
  - rewrite Hcnt. unfold holders. rewrite !count_app, (count_nodup c (interrupts _)),
      (count_notin c (owned i)), (count_notin c (map fst _)), (count_notin c (map snd _)) by auto. done.
  - intros Hl. by apply (lo_listed i Hok) in Hl.
Qed.

Lemma filter_ne_notin (c : nat) (l : list nat) : c ∉ l -> filter (.≠ c) l = l.
Proof.
  induction l as [|x l IH]; [done|]. intros [Hx Hl]%not_elem_of_cons.
  by rewrite filter_cons_True, IH by auto.
Qed.
Lemma filter_app_new (c n : nat) (l : list nat) : c <> n -> filter (.≠ c) (l ++ [n]) = filter (.≠ c) l ++ [n].
Proof. intros Hne. by rewrite filter_app, (filter_cons_True _ n []) by done. Qed.

Lemma receive_ok u i : lifetime_ok i -> exists i' s', irun (Receive u) i = Done i' s' /\ lifetime_ok i'.
Proof.
  intros Hok. unfold irun. pose proof (lo_mode i Hok) as Hm.
  destruct (alloc_for_spec (with_unique u) (se i)) as [(s1 & Ha & Hr & Hl & Hi & Hn & Hc)|
    (s1 & Ha & Hr & Hl & Hi & Hn & Hc)].
  { eexists _, _. split; [step ltac:(exact Ha); step ltac:(done); reflexivity|]. by apply lo_core. }
  set (n := next_req (se i)) in *. set (rn := with_unique u fresh_req) in *.
  assert (reqs s1 !! n = Some rn) as Hrn by (rewrite Hr; apply lookup_insert_eq).
  assert (forall c, c ∈ holders i -> reqs s1 !! c = reqs (se i) !! c) as Hold.
  { intros c Hc'. rewrite Hr, lookup_insert_ne; [done|]. intros <-. by apply (fresh_not_held i Hok). }
  erewrite bind_done by exact Ha. cbv beta iota.
  destruct (find_req_spec (fun c => rq_u c =? rq_unique rn) (interrupts s1) s1) as (o & Hfind & Ho).
  { intros c Hc'. rewrite Hi in Hc'. rewrite Hold by (unfold holders; set_solver).
    apply (lo_live i Hok). unfold holders. set_solver. }
  destruct o as [c|].
  - destruct Ho as [Hcin _]. rewrite Hi in Hcin.
    destruct (interrupt_live i c Hok Hcin) as (rc & Hrc & Hpc & _ & Hcl & _).
    assert (c <> n) as Hcn by (intros ->; apply (fresh_not_held i Hok); unfold holders; set_solver).
    eexists _, _. split.
    + erewrite bind_done.
      2: { unfold register_request. erewrite bind_done.
           2: { unfold check_interrupt. step ltac:(by apply get_req_ok). step ltac:(done). step ltac:(exact Hfind).
                step ltac:(by apply put_req_ok). step ltac:(done).
                step ltac:(apply drop_req_ok with (r := rc); [simpl; rewrite lookup_insert_ne by congruence; rewrite Hold;
                  [exact Hrc|unfold holders; set_solver]|exact Hpc]). reflexivity. }
           cbv beta iota. step ltac:(done). reflexivity. }
      cbv beta iota. step ltac:(done). reflexivity.
    + eapply (lo_add_owned {| se := set_lists (filter (.≠ c) (rlist (se i))) (filter (.≠ c) (interrupts (se i)))
                (set_reqs (delete c (reqs (se i))) (se i)); owned := owned i; visiting := visiting i |}
                _ (set_interrupted true rn)); simpl; try done.
      * by eapply lo_drop_interrupt.
      * rewrite Hr, insert_insert_eq, delete_insert_ne by done. done.
      * by rewrite Hl.
      * by rewrite Hi.
      * by rewrite Hc.
  - destruct (interrupts (se i)) as [|c rest] eqn:Hint.
    + eexists _, _. split.
      * erewrite bind_done.
        2: { unfold register_request. erewrite bind_done.
             2: { unfold check_interrupt. step ltac:(by apply get_req_ok). step ltac:(done). step ltac:(exact Hfind).
                  rewrite Hi. reflexivity. }
             cbv beta iota. step ltac:(done). reflexivity. }
        cbv beta iota. step ltac:(done). reflexivity.
      * apply (lo_add_owned i _ rn); simpl; try done; [by rewrite Hl|by rewrite Hint, Hi|by rewrite Hc].
    + assert (c ∈ interrupts (se i)) as Hcin by (rewrite Hint; constructor).
      destruct (interrupt_live i c Hok Hcin) as (rc & Hrc & Hpc & Hc1 & Hcl & _).
      assert (c <> n) as Hcn by (intros ->; apply (fresh_not_held i Hok); unfold holders; set_solver).
      eexists _, _. split.
      * erewrite bind_done.
        2: { unfold register_request. erewrite bind_done.
             2: { unfold check_interrupt. step ltac:(by apply get_req_ok). step ltac:(done). step ltac:(exact Hfind).
                  rewrite Hi. step ltac:(done). reflexivity. }
             cbv beta iota. step ltac:(done). unfold reply_err, fuse_reply_err.
             step ltac:(erewrite send_reply_spec; [apply send_reply_iov_spec|..];
               [simpl; rewrite Hold; [exact Hrc|unfold holders; set_solver]|exact Hpc|
                simpl; rewrite Hold; [exact Hrc|unfold holders; set_solver]|exact Hpc]). reflexivity. }
        cbv beta iota. step ltac:(done). reflexivity.
      * eapply (lo_add_owned {| se := set_lists (filter (.≠ c) (rlist (se i))) (filter (.≠ c) (interrupts (se i)))
                (set_reqs (delete c (reqs (se i))) (se i)); owned := owned i; visiting := visiting i |}
                _ rn); simpl; rewrite ?Hc, ?Hm; try done.
        -- by eapply lo_drop_interrupt.
        -- rewrite Hc1. simpl. rewrite Hr, delete_insert_ne by done. done.
        -- unfold without. rewrite Hl, filter_app_new by done. rewrite (filter_ne_notin c (filter _ _)); [done|].
           rewrite list_elem_of_filter. naive_solver.
        -- unfold without. rewrite Hint, Hi. rewrite (filter_ne_notin c (filter _ _)); [done|].
           rewrite list_elem_of_filter. naive_solver.
Qed.

Lemma answer_ok p error iov i : lifetime_ok i -> p ∈ owned i ->
  exists i' s', irun (Answer p error iov) i = Done i' s' /\ lifetime_ok i'.
Proof.
  intros Hok Hp. destruct (lo_live i Hok p) as [r Hr]; [unfold holders; set_solver|].
  destruct (lo_ref i Hok p r Hr) as (Hpl & _). pose proof (lo_mode i Hok) as Hm.
  eexists _, _. split.
  - unfold irun. step ltac:(by apply send_reply_iov_spec). step ltac:(done). reflexivity.
  - eapply lo_answered; try done; simpl; rewrite ?Hm; done.
Qed.

Lemma interrupt_ok u i : lifetime_ok i -> exists i' s', irun (Interrupt u) i = Done i' s' /\ lifetime_ok i'.
Proof.
  intros Hok. unfold irun. pose proof (lo_mode i Hok) as Hm.
  destruct (alloc_for_spec (with_target u) (se i)) as [(s1 & Ha & Hr & Hl & Hi & Hn & Hc)|
    (s1 & Ha & Hr & Hl & Hi & Hn & Hc)].
  { eexists _, _. split; [step ltac:(exact Ha); step ltac:(done); reflexivity|]. by apply lo_core. }
  set (n := next_req (se i)) in *. set (rn := with_target u fresh_req) in *.
  assert (reqs s1 !! n = Some rn) as Hrn by (rewrite Hr; apply lookup_insert_eq).
  assert (forall c, c ∈ holders i -> reqs s1 !! c = reqs (se i) !! c) as Hold.
  { intros c Hc'. rewrite Hr, lookup_insert_ne; [done|]. intros <-. by apply (fresh_not_held i Hok). }
  erewrite bind_done by exact Ha. cbv beta iota. step ltac:(done).
  destruct (find_req_spec (fun c => rq_unique c =? u) (rlist s1) s1) as (o & Hfind & Ho).
  { intros c Hc'. rewrite Hl in Hc'. apply (lo_listed i Hok) in Hc'.
    rewrite Hold by (unfold holders; set_solver). apply (lo_live i Hok). unfold holders. set_solver. }
  erewrite bind_done by exact Hfind. cbv beta iota. destruct o as [c|].
  - destruct Ho as (Hcl & rc & Hrc & _). rewrite Hl in Hcl. pose proof (lo_listed i Hok c Hcl) as Hco.
    assert (reqs (se i) !! c = Some rc) as Hrc' by (rewrite <- Hold; [done|unfold holders; set_solver]).
    eexists _, _. split.
    + step ltac:(by apply put_req_ok). step ltac:(done). reflexivity.
    + eapply (lo_visit i _ c rc rn); simpl; try done; [by rewrite Hr|by rewrite Hc].
  - destruct (find_req_spec (fun c => rq_u c =? u) (interrupts s1) s1) as (d & Hdup & Hd).
    { intros c Hc'. rewrite Hi in Hc'. rewrite Hold by (unfold holders; set_solver).
      apply (lo_live i Hok). unfold holders. set_solver. }
    erewrite bind_done by exact Hdup. cbv beta iota. destruct d as [x|].
    + eexists _, _. split.
      * step ltac:(by eapply drop_req_ok). step ltac:(done). reflexivity.
      * assert (reqs (se i) !! n = None) as Hnone.
        { destruct (reqs (se i) !! n) as [r|] eqn:Hn'; [|done].
          destruct (lo_ref i Hok n r Hn') as (_ & _ & _ & Hlt). lia. }
        assert (delete n (reqs s1) = reqs (se i)) as Hdel by (rewrite Hr; by rewrite delete_insert_id).
        destruct Hok as [H1 H2 H3 H4 H5 H6]. unfold holders in *.
        split; unfold holders; cbn [se owned visiting]; simpl; rewrite ?Hdel, ?Hl, ?Hi, ?Hn, ?Hc; try done.
        intros p r Hp. destruct (H1 p r Hp) as (? & ? & ? & ?). split_and!; try done. lia.
    + eexists _, _. split.
      * step ltac:(done). step ltac:(done). reflexivity.
      * apply (lo_wait i _ rn); simpl; try done; [by rewrite Hi|by rewrite Hc].
Qed.

Lemma visited_live i q c : lifetime_ok i -> (q, c) ∈ visiting i ->
  exists rq rc, reqs (se i) !! q = Some rq /\ reqs (se i) !! c = Some rc /\ plain rq /\ plain rc /\ q <> c.
Proof.
  intros Hok Hv.
  assert (q ∈ map fst (visiting i) /\ c ∈ map snd (visiting i)) as [Hq Hc].
  { change (q ∈ fst <$> visiting i /\ c ∈ snd <$> visiting i). rewrite !list_elem_of_fmap. split; by exists (q, c). }
  destruct (lo_live i Hok q) as [rq Hrq]; [unfold holders; set_solver|].
  destruct (lo_live i Hok c) as [rc Hrc]; [unfold holders; set_solver|].
  exists rq, rc. destruct (lo_ref i Hok q rq Hrq) as (? & _). destruct (lo_ref i Hok c rc Hrc) as (? & _).
  split_and!; try done. intros ->. by destruct (lo_targets i Hok c Hc).
Qed.

Lemma mark_ok q c i : lifetime_ok i -> (q, c) ∈ visiting i ->
  exists i' s', irun (Mark q c) i = Done i' s' /\ lifetime_ok i'.
Proof.
  intros Hok Hv. destruct (visited_live i q c Hok Hv) as (rq & rc & _ & Hrc & _ & Hp & _).
  pose proof (lo_mode i Hok) as Hm. eexists _, _. split.
  - unfold irun. erewrite bind_done.
    2: { unfold interrupt_mark. step ltac:(by apply put_req_ok).
         step ltac:(apply get_req_ok; simpl; apply lookup_insert_eq). reflexivity. }
    cbv beta iota. step ltac:(done). reflexivity.
  - eapply (lo_same_refs i _ c rc (set_interrupted true rc)); try done.
Qed.

Lemma leave_ok q c i : lifetime_ok i -> (q, c) ∈ visiting i ->
  exists i' s', irun (Leave q c) i = Done i' s' /\ lifetime_ok i'.
Proof.
  intros Hok Hv. destruct (visited_live i q c Hok Hv) as (rq & rc & Hrq & Hrc & Hpq & Hp & Hne).
  pose proof (lo_mode i Hok) as Hm.
  set (rc' := set_refs (rq_ref_cnt rc - 1) (rq_ch rc) (rq_u rc) (rq_data rc) rc).
  set (r1 := if rq_ref_cnt rc =? 1 then delete c (reqs (se i)) else <[c := rc']> (reqs (se i))).
  assert (interrupt_end c (se i) = Done tt (set_reqs r1 (se i))) as Hend.
  { unfold interrupt_end, ref_change. step ltac:(by apply put_req_ok).
    step ltac:(apply get_req_ok; simpl; apply lookup_insert_eq). unfold r1. cbn [rq_ref_cnt set_refs].
    change (rq_ref_cnt rc + -1) with (rq_ref_cnt rc - 1).
    destruct (Z.eqb_spec (rq_ref_cnt rc - 1) 0); destruct (Z.eqb_spec (rq_ref_cnt rc) 1); try lia; [|done].
    erewrite destroy_req_ok; [|simpl; apply lookup_insert_eq|exact Hp]. unfold set_reqs. simpl.
    by rewrite delete_insert_eq. }
  assert (r1 !! q = Some rq) as Hq1.
  { unfold r1. destruct (_ =? _); [by rewrite lookup_delete_ne|by rewrite lookup_insert_ne]. }
  eexists _, _. split.
  - unfold irun. step ltac:(exact Hend). step ltac:(by eapply drop_req_ok). step ltac:(done). reflexivity.
  - eapply (lo_leave i _ q c rc); done.
Qed.

Lemma irun_ok l i : lifetime_ok i -> enabled l i -> exists i' s', irun l i = Done i' s' /\ lifetime_ok i'.
Proof.
  intros Hok Hen. destruct l; simpl in Hen.
  - by apply receive_ok. - by apply answer_ok. - by apply interrupt_ok.
  - by apply mark_ok. - by apply leave_ok.
Qed.

Lemma initial_ok i : initial i -> lifetime_ok i.
Proof.
  intros (Ho & Hv & Hr & Hl & Hi & Hm). split; unfold holders; rewrite ?Ho, ?Hv, ?Hi, ?Hl; simpl.
  - intros p r. by rewrite Hr, lookup_empty.
  - by intros p ?%not_elem_of_nil.
  - constructor.
  - by intros p ?%not_elem_of_nil.
  - by intros p ?%not_elem_of_nil.
  - done.
Qed.

Lemma interleaved_ok i0 i : initial i0 -> interleaved i0 i -> lifetime_ok i.
Proof.
  intros H0. induction 1 as [|l i s' i' _ IH Hen Hrun]; [by apply initial_ok|].
  destruct (irun_ok l i IH Hen) as (i2 & s2 & Hrun2 & Hok2). rewrite Hrun in Hrun2. by injection Hrun2 as -> _.
Qed.

(** C27: however reading requests, answering them and the three critical sections
    of interrupts interleave, no step touches a freed request, fails an
    assertion or frees a request twice; a request is freed exactly when nobody
    holds a reference any more, and the reference count says how many do. *)
Theorem interrupts_never_touch_freed_requests i0 i l :
  initial i0 -> interleaved i0 i -> enabled l i ->
  (exists i' s', irun l i = Done i' s') /\
  (forall p, is_Some (reqs (se i) !! p) <-> p ∈ holders i) /\
  (forall p r, reqs (se i) !! p = Some r -> rq_ref_cnt r = Z.of_nat (count p (holders i))).
Proof.
  intros H0 Hi Hen. pose proof (interleaved_ok i0 i H0 Hi) as Hok. split_and!.
  - destruct (irun_ok l i Hok Hen) as (i' & s' & Hrun & _). eauto.
  - intros p. split; [|apply (lo_live i Hok)]. intros [r Hr]. by apply (lo_ref i Hok p r Hr).
  - intros p r Hr. by apply (lo_ref i Hok p r Hr).
Qed.
End Interleaving.

(** ** A concrete session *)

Definition demo_env : env :=
  {| malloc_ok := fun _ => true; writev := fun _ _ => None; strerrordesc_np := fun _ => true;
     posix_memalign := fun _ => 0; ioctl_backing := fun _ _ => 0; HAVE_STATX := true;
     dead_stat := zero_stat |}.
Definition demo_session (ops : ll_op -> bool) (c : fuse_conn_info) : session unit :=
  {| conn := c; op := ops; got_init := true; got_destroy := false; se_error := 0; mt_exited := false;
     deny_others := false; owner := 1000; reqs := ∅; next_req := 0; rlist := []; interrupts := [];
     chans := ∅; notify_list := []; notify_ctr := 1; allocs := 0; sends := []; wire := []; calls := [];
     files := tt; nego := default_nego |}.
Definition demo_istate : istate :=
  {| se := demo_session all_ops default_conn; owned := []; visiting := [] |}.

(** The request is answered while an interrupt visits it; the visitor's next
    section still finds it. *)
Lemma interrupts_never_touch_freed_requests_witness : exists i,
  @interleaved unit demo_env demo_istate i /\ owned i = [] /\ visiting i = [(1, 0)%nat] /\
  exists i' s', irun demo_env (Leave 1 0) i = Done i' s' /\ visiting i' = [].
Proof.
  assert (exists i, interleaved demo_env demo_istate i /\ owned i = [] /\ visiting i = [(1, 0)%nat] /\
            exists i' s', irun demo_env (Leave 1 0) i = Done i' s' /\ visiting i' = []) as Hex.
  { eexists. split.
    { eapply (interleaved_step _ _ (Answer 0 (-4) [])).
      { eapply (interleaved_step _ _ (Interrupt 7)).
        { eapply (interleaved_step _ _ (Receive 7)); [apply interleaved_start|exact I|vm_compute; reflexivity]. }
        - exact I.
        - vm_compute; reflexivity. }
      - vm_compute. constructor.
      - vm_compute; reflexivity. }
    split; [reflexivity|]. split; [reflexivity|]. eexists _, _. split; [vm_compute; reflexivity|reflexivity]. }
  destruct Hex as (i & Hi & Ho & Hv & _). exists i. split; [exact Hi|]. split; [exact Ho|]. split; [exact Hv|].
  destruct (interrupts_never_touch_freed_requests demo_env demo_istate i (Leave 1 0)) as ((i' & s' & Hrun) & _).
  - repeat split.
  - exact Hi.
  - simpl. rewrite Hv. constructor.
  - exists i', s'. split; [exact Hrun|]. revert Hrun. simpl.
    destruct (_ ≫= _) eqn:Hb; [|done..]. intros [= <- <-]. revert Hb. unfold mbind, prog_bind.
    repeat case_match; try done. intros [= <- <-]. simpl. by rewrite Hv.
Defined.
