(* ===== verification/LlDispatch.v ===== *)
(** * What a request read from the device leads to

    Every handler either answers its request, with one message that carries the
    kernel's unique, or calls one operation with it; the names, sizes and bytes
    the kernel sent are what the operation receives. *)
From S2P Require Import Prelude Errno Sys LlDirent FuseBuf BufCopy Lowlevel LlOps LlInit LlSession LlFacts.

(** ** Handlers *)

Section Handlers.
Context {W : Type} `{FileIO W} (E : env).
Implicit Types s : session W.
Abbreviation ll := (prog (session W)).

Lemma un_le_range n l : Forall (in_u 8) l -> (length l <= n)%nat -> 0 <= un_le l < 2 ^ (8 * Z.of_nat n).
Proof.
  intros Hl Hn. cut (0 <= un_le l < 2 ^ (8 * Z.of_nat (length l))).
  { pose proof (Z.pow_le_mono_r 2 (8 * Z.of_nat (length l)) (8 * Z.of_nat n)). lia. }
  clear Hn. induction Hl as [|b l Hb Hl IH]; [simpl; lia|]. unfold in_u in Hb. simpl un_le. simpl length.
  replace (8 * Z.of_nat (S (length l))) with (8 + 8 * Z.of_nat (length l)) by lia.
  rewrite Z.pow_add_r by lia. change (2 ^ 8) with 256 in *. nia.
Qed.
Lemma u64_at_range off l : Forall (in_u 8) l -> in_u 64 (u64_at off l).
Proof.
  intros Hl. apply (un_le_range 8); unfold sub_bytes; [by apply Forall_take, Forall_drop|].
  rewrite length_take. lia.
Qed.

Definition msg_unique (msg : list Z) : Z := un_le (sub_bytes 8 8 msg).

Definition answered_once (p : nat) (u : Z) s s' : Prop :=
  (exists msg, sends s' = sends s ++ [msg] /\ msg_unique msg = u) /\ calls s' = calls s /\
  reqs s' = delete p (reqs s).
(** The operation is called with a request that carries the kernel's unique and
    caller. *)
Definition called_once (p : nat) (r : fuse_req) s s' : Prop :=
  sends s' = sends s /\
  (exists c, calls s' = calls s ++ [(p, c)]) /\
  exists r', reqs s' = <[p := r']> (reqs s) /\ rq_unique r' = rq_unique r /\ plain r' /\ rq_ref_cnt r' = 1 /\
    c_uid (rq_ctx r') = c_uid (rq_ctx r) /\ c_gid (rq_ctx r') = c_gid (rq_ctx r) /\
    c_pid (rq_ctx r') = c_pid (rq_ctx r).

Definition handler (p : nat) (m : ll unit) : Prop := forall s r,
  reqs s !! p = Some r -> plain r -> rq_ref_cnt r = 1 -> in_u 64 (rq_unique r) ->
  exists s', m s = Done tt s' /\ (answered_once p (rq_unique r) s s' \/ called_once p r s s').

(** A reply of any kind. *)
Definition replies (p : nat) (m : ll Z) : Prop := forall s r,
  reqs s !! p = Some r -> plain r -> rq_ref_cnt r = 1 -> in_u 64 (rq_unique r) ->
  exists res s', m s = Done res s' /\ answered_once p (rq_unique r) s s'.

Lemma out_header_length len error u : length (out_header len error u) = 16%nat.
Proof. unfold out_header. by rewrite !length_app, !le_length. Qed.

Lemma msg_unique_header len error u rest : in_u 64 u -> msg_unique (out_header len error u ++ rest) = u.
Proof.
  intros Hu. unfold msg_unique, sub_bytes, out_header.
  rewrite <- !app_assoc, (app_assoc (le 4 len)), drop_app_length' by (by rewrite length_app, !le_length).
  rewrite take_app_length' by (by rewrite le_length). rewrite un_le_le. by apply Z.mod_small.
Qed.

Lemma replies_iov p error iov : replies p (send_reply_iov E p error iov).
Proof.
  intros s r Hr Hp H1 Hu. eexists _, _. split; [by apply send_reply_iov_spec|].
  split; [|split; [done|simpl; by rewrite H1]]. eexists. split; [done|].
  unfold message. by apply msg_unique_header.
Qed.
Lemma replies_reply p error arg : replies p (send_reply E p error arg).
Proof.
  intros s r Hr Hp H1 Hu. rewrite (send_reply_spec E p r) by done. by apply replies_iov.
Qed.
Lemma replies_conn p (k : fuse_conn_info -> ll Z) : (forall c, replies p (k c)) -> replies p (conn_of ≫= k).
Proof. intros Hk s r. exact (Hk (conn s) s r). Qed.

Lemma handler_reply p (m : ll Z) : replies p m -> handler p (_ ← m; mret tt).
Proof.
  intros Hm s r Hr Hp H1 Hu. destruct (Hm s r Hr Hp H1 Hu) as (res & s' & Hrun & Ha).
  exists s'. split; [by step ltac:(exact Hrun)|by left].
Qed.
Lemma handler_err p err : handler p (reply_err E p err).
Proof. apply handler_reply, replies_reply. Qed.
Lemma handler_conn p (k : fuse_conn_info -> ll unit) : (forall c, handler p (k c)) -> handler p (conn_of ≫= k).
Proof. intros Hk s r. exact (Hk (conn s) s r). Qed.
Lemma handler_op p o (k : bool -> ll unit) : (forall b, handler p (k b)) -> handler p (has_op o ≫= k).
Proof. intros Hk s r. exact (Hk (op s o) s r). Qed.
Lemma handler_call p c : handler p (call p c).
Proof.
  intros s r Hr Hp H1 Hu. eexists. split; [done|]. right. split; [done|]. split; [by eexists|].
  exists r. by rewrite insert_id.
Qed.
Lemma handler_call_or_nosys p o c : handler p (call_or_nosys E p o c).
Proof. apply handler_op. intros []; [apply handler_call|apply handler_err]. Qed.

(** A change of the request that keeps its identity. *)
Definition keeps_identity (f : fuse_req -> fuse_req) : Prop := forall r,
  rq_unique (f r) = rq_unique r /\ (plain r -> plain (f r)) /\ rq_ref_cnt (f r) = rq_ref_cnt r /\
  c_uid (rq_ctx (f r)) = c_uid (rq_ctx r) /\ c_gid (rq_ctx (f r)) = c_gid (rq_ctx r) /\
  c_pid (rq_ctx (f r)) = c_pid (rq_ctx r).
Lemma handler_put p f (m : ll unit) : keeps_identity f -> handler p m ->
  handler p (_ ← put_req p f; m).
Proof.
  intros Hf Hm s r Hr Hp H1 Hu. destruct (Hf r) as (Hfu & Hfp & Hfr & Hc1 & Hc2 & Hc3).
  destruct (Hm (set_reqs (<[p := f r]> (reqs s)) s) (f r)) as (s' & Hrun & Hout);
    [apply lookup_insert_eq|by apply Hfp|by rewrite Hfr|by rewrite Hfu|].
  exists s'. split; [step ltac:(by apply put_req_ok); exact Hrun|].
  destruct Hout as [(Hs & Hc & Hreq)|(Hs & Hc & r' & Hreq & Hi)].
  - left. rewrite <- Hfu. split; [done|]. split; [done|]. rewrite Hreq. simpl. apply delete_insert_eq.
  - right. split; [done|]. split; [done|]. exists r'. rewrite Hreq. simpl. rewrite insert_insert_eq.
    rewrite Hfu, Hc1, Hc2, Hc3 in Hi. done.
Qed.
Lemma new_umask_run p u s r : reqs s !! p = Some r ->
  exists f, keeps_identity f /\ new_umask p u s = Done tt (set_reqs (<[p := f r]> (reqs s)) s).
Proof.
  intros Hr. unfold new_umask. erewrite bind_done by done. destruct (12 <=? proto_minor (conn s)).
  - eexists. split; [|by apply put_req_ok]. done.
  - exists id. split; [done|]. rewrite insert_id by done. by destruct s.
Qed.
Lemma handler_umask p u (m : ll unit) : handler p m -> handler p (_ ← new_umask p u; m).
Proof.
  intros Hm s r Hr Hp H1 Hu. destruct (new_umask_run p u s r Hr) as (f & Hf & Hrun).
  assert (handler p (_ ← put_req p f; m)) as Hput by (by apply handler_put).
  destruct (Hput s r Hr Hp H1 Hu) as (s' & Hrun' & Hout). exists s'. split; [|done].
  step ltac:(exact Hrun). rewrite <- Hrun'. symmetry. step ltac:(by apply put_req_ok). done.
Qed.
Lemma handler_alloc p (k : bool -> ll unit) : (forall b, handler p (k b)) -> handler p (allocate E ≫= k).
Proof. intros Hk s r. exact (Hk (malloc_ok E (allocs s)) (set_allocs (S (allocs s)) s) r). Qed.
(** Commands that leave requests, messages and calls alone. *)
Lemma handler_frame p (f : session W -> session W) (m : ll unit) :
  (forall s, reqs (f s) = reqs s /\ sends (f s) = sends s /\ calls (f s) = calls s) ->
  handler p m -> handler p (_ ← pmodify f; m).
Proof.
  intros Hf Hm s r Hr Hp H1 Hu. destruct (Hf s) as (Hfr & Hfs & Hfc).
  destruct (Hm (f s) r) as (s' & Hrun & Hout); [by rewrite Hfr|done..|].
  exists s'. split; [exact Hrun|]. unfold answered_once, called_once in *.
  by rewrite Hfr, Hfs, Hfc in Hout.
Qed.
Lemma handler_reply_frame p (m : ll Z) (f : session W -> session W) :
  (forall s, reqs (f s) = reqs s /\ sends (f s) = sends s /\ calls (f s) = calls s) ->
  replies p m -> handler p (_ ← m; pmodify f).
Proof.
  intros Hf Hm s r Hr Hp H1 Hu. destruct (Hm s r Hr Hp H1 Hu) as (res & s' & Hrun & Ha).
  exists (f s'). split; [by step ltac:(exact Hrun)|]. left. destruct (Hf s') as (Hr' & Hs & Hc).
  unfold answered_once in *. by rewrite Hr', Hs, Hc.
Qed.
Lemma handler_get p (k : session W -> ll unit) : (forall s, handler p (k s)) -> handler p (pget ≫= k).
Proof. intros Hk s r. exact (Hk s s r). Qed.
End Handlers.

Create HintDb handlers.
#[export] Hint Resolve handler_err handler_call handler_call_or_nosys handler_reply replies_iov replies_reply
  : handlers.

Ltac head_of t := lazymatch t with ?f _ => head_of f | _ => t end.
(** Walks a handler to its answers and calls. *)
Ltac walk_handler :=
  cbn zeta beta;
  lazymatch goal with
  | |- handler _ (call_or_nosys _ _ _ _) => apply handler_call_or_nosys
  | |- handler _ (call _ _) => apply handler_call
  | |- handler _ (reply_err _ _ _) => apply handler_err
  | |- handler _ (conn_of ≫= _) => apply handler_conn; intros ?; walk_handler
  | |- handler _ (has_op _ ≫= _) => apply handler_op; intros []; walk_handler
  | |- handler _ (new_umask _ _ ≫= _) => apply handler_umask; walk_handler
  | |- handler _ (allocate _ ≫= _) => apply handler_alloc; intros []; walk_handler
  | |- handler _ (put_req _ _ ≫= _) => apply handler_put; [by intros ?|walk_handler]
  | |- handler _ (fuse_reply_open _ _ _ ≫= _) => apply handler_reply; apply replies_reply
  | |- handler _ (fuse_reply_statfs _ _ _ ≫= _) =>
      apply handler_reply; apply replies_conn; intros ?; apply replies_reply
  | |- handler _ (if ?b then _ else _) => destruct b; walk_handler
  | |- handler _ ?m => let f := head_of m in unfold f; walk_handler
  end.

Section Dispatch.
Context {W : Type} `{FileIO W} (E : env) (pagesize : Z) (init : fuse_conn_info -> fuse_conn_info).
Context (interrupt_func : Z -> nat -> Z -> prog (session W) unit).
Implicit Types s : session W.

(** The requests that expect an answer and are not about other requests. *)
Definition expects_reply (opcode : Z) : bool :=
  negb (bool_decide (opcode ∈ [2; FUSE_INTERRUPT; 38; FUSE_NOTIFY_REPLY; 42])) &&
  (HAVE_STATX E || negb (opcode =? 52)).


Definition good (f : nat -> Z -> list Z -> prog (session W) unit) : Prop :=
  forall p nodeid inarg, handler p (f p nodeid inarg).

Lemma good_names : Forall good [do_lookup E; do_unlink E; do_rmdir E; do_symlink E; do_rename E; do_rename2 E;
  do_link E; do_removexattr E; do_getxattr E; do_setxattr E; do_mknod E; do_mkdir E; do_create E; do_tmpfile E].
Proof. repeat (apply Forall_cons_2; [intros p nodeid inarg; walk_handler|]). apply Forall_nil_2. Qed.
Lemma good_files : Forall good [do_open E; do_read E; do_write E; do_release E; do_flush E; do_fsync E;
  do_opendir E; do_readdir E; do_readdirplus E; do_releasedir E; do_fsyncdir E; do_lseek E; do_fallocate E;
  do_copy_file_range E; do_copy_file_range_64 E; do_ioctl E; do_poll E].
Proof. repeat (apply Forall_cons_2; [intros p nodeid inarg; walk_handler|]). apply Forall_nil_2. Qed.
Lemma good_nodes : Forall good [do_getattr E; do_setattr E; do_access E; do_readlink E; do_statfs E;
  do_listxattr E; do_bmap E; do_getlk E; do_setlk E; do_setlkw E].
Proof. repeat (apply Forall_cons_2; [intros p nodeid inarg; walk_handler|]). apply Forall_nil_2. Qed.

Lemma good_init : good (do_init E pagesize init).
Proof.
  intros p nodeid inarg. unfold do_init, _do_init. apply handler_get. intros s. cbn zeta.
  destruct (negb _).
  - apply handler_frame; [done|].
    destruct (_ <? _); (apply handler_reply; apply replies_reply).
  - destruct (negotiate _ _ _ _ _ _) as [[c n] [out|]]; (apply handler_frame; [done|]).
    + apply handler_reply, replies_reply.
    + apply handler_reply_frame; [done|]. apply replies_reply.
Qed.
Lemma good_statx : HAVE_STATX E = true -> good (do_statx E).
Proof. intros Hb p nodeid inarg. unfold do_statx, _do_statx. rewrite Hb. walk_handler. Qed.

Lemma ll_ops_handlers opcode f : expects_reply opcode = true ->
  fuse_ll_ops E pagesize init interrupt_func opcode = Some f -> good f.
Proof.
  unfold expects_reply. intros [Hex Hx]%andb_true_iff Hf.
  pose proof good_names as Hn. pose proof good_files as Hs. pose proof good_nodes as Ho.
  repeat match goal with Hl : Forall good (_ :: _) |- _ => apply Forall_cons in Hl as [] end.
  unfold fuse_ll_ops in Hf.
  repeat case_match; try done; injection Hf as <-; try done; try (by vm_compute in Hex).
  - apply good_init.
  - apply good_statx. by rewrite orb_false_r in Hx.
Qed.

(** The session once the request is in its object. *)
Definition request_of (h : fuse_in_header) : fuse_req :=
  set_request (ih_unique h) {| c_uid := ih_uid h; c_gid := ih_gid h; c_pid := s32 (ih_pid h); c_umask := 0 |}
    None false fresh_req.
Definition received (h : fuse_in_header) s : session W :=
  set_heap (<[next_req s := request_of h]> (reqs s)) (rlist s) (interrupts s) (chans s)
    (set_log (S (next_req s)) (S (allocs s)) (sends s) (wire s) (calls s) (files s) s).

Definition allocated s : session W :=
  set_heap (<[next_req s := fresh_req]> (reqs s)) (rlist s) (interrupts s) (chans s)
    (set_log (S (next_req s)) (S (allocs s)) (sends s) (wire s) (calls s) (files s) s).
Lemma alloc_run s : malloc_ok E (allocs s) = true ->
  fuse_ll_alloc_req E s = Done (Some (next_req s)) (allocated s).
Proof. intros Hm. unfold fuse_ll_alloc_req, mbind, prog_bind, allocate. by rewrite Hm. Qed.
Lemma in2req_run h s : fuse_session_in2req (next_req s) h (allocated s) = Done tt (received h s).
Proof.
  unfold fuse_session_in2req. rewrite (put_req_ok _ _ fresh_req) by apply lookup_insert_eq.
  unfold received, set_reqs. simpl. by rewrite insert_insert_eq.
Qed.

(** Without a waiting INTERRUPT a request is only listed. *)
Lemma register_run p r s : reqs s !! p = Some r -> interrupts s = [] ->
  register_request E p s = Done tt (set_lists (rlist s ++ [p]) [] s).
Proof.
  intros Hr Hi. unfold register_request.
  rewrite (bind_done _ _ _ None s).
  - trans (Done tt (set_lists (rlist s ++ [p]) (interrupts s) s)); [done|by rewrite Hi].
  - unfold check_interrupt. step ltac:(by apply get_req_ok). step ltac:(done). rewrite Hi. done.
Qed.

Lemma dispatch_good p h inarg buf : expects_reply (ih_opcode h) = true -> has_func E pagesize init interrupt_func (ih_opcode h) = true ->
  buf_flags buf = 0 -> handler p (dispatch_request E pagesize init interrupt_func p h inarg buf).
Proof.
  intros Hex Hfn Hbuf. unfold dispatch_request. apply handler_op. intros b.
  destruct ((ih_opcode h =? FUSE_WRITE) && b).
  - unfold do_write_buf. apply handler_conn. intros c. rewrite Hbuf. change (has_flag 0 FUSE_BUF_IS_FD) with false.
    rewrite andb_false_r. walk_handler.
  - unfold has_func in Hfn. apply andb_true_iff in Hfn as [_ Hfn].
    destruct (Z.eqb_spec (ih_opcode h) FUSE_NOTIFY_REPLY) as [Heq|]; [by rewrite Heq in Hex|].
    simpl in Hfn. destruct (fuse_ll_ops _ _ _ _ _) as [f|] eqn:Hf; [|done]. by eapply ll_ops_handlers.
Qed.

(** What the file system is called with. *)
Definition call_for (h : fuse_in_header) s s' : Prop :=
  sends s' = sends s /\ (exists c, calls s' = calls s ++ [(next_req s, c)]) /\
  exists r, reqs s' = <[next_req s := r]> (reqs s) /\ rq_unique r = ih_unique h /\ rq_ref_cnt r = 1 /\
    c_uid (rq_ctx r) = ih_uid h /\ c_gid (rq_ctx r) = ih_gid h /\ c_pid (rq_ctx r) = s32 (ih_pid h).
Definition answer_for (h : fuse_in_header) s s' : Prop :=
  (exists msg, sends s' = sends s ++ [msg] /\ msg_unique msg = ih_unique h) /\ calls s' = calls s /\
  reqs s' = reqs s.

Lemma handler_from s s0 h m : handler (next_req s) m -> reqs s !! next_req s = None ->
  reqs s0 = <[next_req s := request_of h]> (reqs s) -> sends s0 = sends s -> calls s0 = calls s ->
  in_u 64 (ih_unique h) ->
  exists s', m s0 = Done tt s' /\ (answer_for h s s' \/ call_for h s s').
Proof.
  intros Hm Hfree Hr Hs Hc Hu. destruct (Hm s0 (request_of h)) as (s' & Hrun & Hout);
    [by rewrite Hr, lookup_insert_eq|done..|].
  exists s'. split; [done|]. unfold answered_once, called_once in Hout. rewrite Hr, Hs, Hc in Hout.
  destruct Hout as [(Hsd & Hca & Hre)|(Hsd & Hca & r' & Hre & H1 & _ & H2 & H3 & H4 & H5)]; [left|right].
  - split; [done|]. split; [done|]. by rewrite Hre, delete_insert_id.
  - split; [done|]. split; [done|]. exists r'. by rewrite Hre, insert_insert_eq.
Qed.

(** A request that passes the checks reaches its handler with the session as it
    was, but for the new request. *)
Lemma process_run mem size s : let h := in_header_at mem in
  malloc_ok E (allocs s) = true -> interrupts s = [] ->
  let sane := fuse_req_opcode_sanity_ok (got_init s) (ih_opcode h) in
  let allowed := fuse_req_check_allow_root (deny_others s) (owner s) (ih_opcode h) (ih_uid h) in
  exists s1, reqs s1 = <[next_req s := request_of h]> (reqs s) /\ sends s1 = sends s /\ calls s1 = calls s /\
    op s1 = op s /\ conn s1 = conn s /\
    fuse_session_process_buf E pagesize init interrupt_func mem size s =
      (if negb (sane =? 0) then reply_err E (next_req s) sane
       else if negb (allowed =? 0) then reply_err E (next_req s) allowed
       else if negb (has_func E pagesize init interrupt_func (ih_opcode h)) then reply_err E (next_req s) ENOSYS
       else if no_interrupt (conn s) && (ih_opcode h =? FUSE_INTERRUPT) then reply_err E (next_req s) ENOSYS
       else dispatch_request E pagesize init interrupt_func (next_req s) h (drop 40 mem)
              {| buf_size := size; buf_flags := 0; buf_mem := Some mem; buf_fd := -1; buf_pos := 0;
                 buf_mem_size := 0 |}) s1.
Proof.
  intros h Hm Hi sane allowed.
  unfold fuse_session_process_buf, fuse_session_process_buf_internal. fold h.
  erewrite bind_done by (by apply alloc_run). cbv beta iota.
  erewrite bind_done by apply in2req_run. do 2 (erewrite bind_done by done).
  change (got_init (received h s)) with (got_init s). change (deny_others (received h s)) with (deny_others s).
  change (owner (received h s)) with (owner s). change (conn (received h s)) with (conn s).
  fold sane allowed.
  repeat match goal with
  | |- context [if ?b then reply_err _ _ _ else _] => destruct b; [by exists (received h s)|]
  end.
  destruct (negb (no_interrupt (conn s)) && _).
  - exists (set_lists (rlist s ++ [next_req s]) [] (received h s)). split_and!; try done.
    by step ltac:(by apply (register_run _ (request_of h)); [apply lookup_insert_eq|]).
  - exists (received h s). split_and!; try done.
Qed.

End Dispatch.

(** ** Messages of the kernel *)

(** The bytes of [struct fuse_in_header]. *)
Definition in_header_bytes (h : fuse_in_header) : list Z :=
  le 4 (ih_len h) ++ le 4 (ih_opcode h) ++ le 8 (ih_unique h) ++ le 8 (ih_nodeid h) ++
  le 4 (ih_uid h) ++ le 4 (ih_gid h) ++ le 4 (ih_pid h) ++ le 4 0.
Definition demo_header (opcode : Z) : fuse_in_header :=
  {| ih_len := 48; ih_opcode := opcode; ih_unique := 12; ih_nodeid := 1; ih_uid := 1000; ih_gid := 100;
     ih_pid := 4321 |}.
Definition no_interrupts (W : Type) (_ : Z) (_ : nat) (_ : Z) : prog (session W) unit := mret tt.


(** A build without [statx] takes STATX requests and never answers them: the
    request stays allocated and the caller waits. *)
Lemma statx_is_never_answered {W} `{FileIO W} (E : env) p nodeid inarg (s : session W) :
  HAVE_STATX E = false -> do_statx E p nodeid inarg s = Done tt s.
Proof. intros Hx. unfold do_statx, _do_statx. by rewrite Hx. Qed.
