(* ===== verification/LlProps.v ===== *)
(** * What crosses the wire of a session

    The kernel's requests are decoded to the operation they encode, a written
    payload stays inside its request, record locks survive both conversions,
    replies are framed as [struct fuse_out_header] says, and an INTERRUPT that
    came before its request finds it. *)
From S2P Require Import Prelude Errno Sys LlDirent FuseBuf BufCopy Lowlevel LlOps LlInit LlSession LlFacts LlDispatch.

(** ** Reading fields *)

Lemma drop_le_app n m z l : (m <= n)%nat -> drop n (le m z ++ l) = drop (n - m) l.
Proof. intros Hn. by rewrite drop_app, drop_ge, le_length by (rewrite le_length; lia). Qed.
Lemma take_le_app k n z l : k = 0%nat -> take n (drop k (le n z ++ l)) = le n z.
Proof. intros ->. rewrite drop_0. by rewrite take_app_length' by (by rewrite le_length). Qed.
Lemma un_le_small n z : 0 <= z < 2 ^ (8 * Z.of_nat n) -> un_le (le n z) = z.
Proof. intros Hz. rewrite un_le_le. by apply Z.mod_small. Qed.

(** Reads a little-endian field out of a concatenation of them. *)
Ltac read_field :=
  unfold u32_at, u64_at, sub_bytes; rewrite <- ?app_assoc;
  repeat (rewrite drop_le_app by lia); rewrite take_le_app by lia; rewrite un_le_small; [reflexivity|].

(** ** Names *)

Definition no_nul (s : string) : Prop := Forall (fun b => b <> 0) (str_bytes s).

Lemma of_bytes_str_bytes s : of_bytes (str_bytes s) = s.
Proof.
  induction s as [|a s IH]; [done|]. simpl. rewrite N2Z.id, Ascii.ascii_N_embedding. f_equal. exact IH.
Qed.
Lemma c_str_no_nul s : no_nul s -> c_str s = str_bytes s.
Proof.
  induction s as [|a s IH]; [done|]. intros Hs. apply Forall_cons in Hs as [Ha Hs]. simpl in *.
  destruct (Z.eqb_spec (Z.of_N (Ascii.N_of_ascii a)) 0); [done|]. by rewrite IH.
Qed.
Lemma until_nul_app l rest : Forall (fun b => b <> 0) l -> until_nul (l ++ 0 :: rest) = l.
Proof.
  induction 1 as [|b l Hb Hl IH]; [done|]. simpl. destruct (Z.eqb_spec b 0); [done|]. by rewrite IH.
Qed.
Lemma str_at_name s rest : no_nul s -> str_at (c_str s ++ 0 :: rest) = s.
Proof.
  intros Hs. unfold str_at. rewrite c_str_no_nul, until_nul_app by done. apply of_bytes_str_bytes.
Qed.
Lemma after_name s rest : no_nul s -> after_str (c_str s ++ 0 :: rest) = rest.
Proof.
  intros Hs. unfold after_str. rewrite c_str_no_nul, until_nul_app by done.
  change (0 :: rest) with ([0] ++ rest). rewrite app_assoc. apply drop_app_length'.
  rewrite length_app. simpl. lia.
Qed.

(** ** Headers *)

Record header_ok (h : fuse_in_header) : Prop := {
  ho_len : in_u 32 (ih_len h); ho_opcode : in_u 32 (ih_opcode h); ho_unique : in_u 64 (ih_unique h);
  ho_nodeid : in_u 64 (ih_nodeid h); ho_uid : in_u 32 (ih_uid h); ho_gid : in_u 32 (ih_gid h);
  ho_pid : in_u 32 (ih_pid h);
}.
Lemma in_header_read h rest : header_ok h -> in_header_at (in_header_bytes h ++ rest) = h.
Proof.
  intros [Hl Ho Hu Hn Hui Hg Hp]. destruct h as [len opc un node uid gid pid].
  cbn [ih_len ih_opcode ih_unique ih_nodeid ih_uid ih_gid ih_pid] in *.
  unfold in_header_at, in_header_bytes. cbn [ih_len ih_opcode ih_unique ih_nodeid ih_uid ih_gid ih_pid].
  f_equal; (read_field; done).
Qed.
Lemma in_header_drop h rest : drop 40 (in_header_bytes h ++ rest) = rest.
Proof. apply drop_app_length'. unfold in_header_bytes. by rewrite !length_app, !le_length. Qed.

(** ** Requests decoded *)

Section Decoding.
Context {W : Type} `{FileIO W} (E : env) (pagesize : Z) (init : fuse_conn_info -> fuse_conn_info).
Context (interrupt_func : Z -> nat -> Z -> prog (session W) unit).
Implicit Types s : session W.
Abbreviation process := (fuse_session_process_buf E pagesize init interrupt_func).

(** A session past its INIT that everybody may use. *)
Record running (s : session W) : Prop := {
  rn_init : got_init s = true; rn_deny : deny_others s = false;
  rn_alloc : malloc_ok E (allocs s) = true; rn_intr : interrupts s = [];
}.

(** The request reaches its handler. *)
Lemma process_running mem size s h : running s -> in_header_at mem = h ->
  ih_opcode h ∉ [FUSE_INIT; CUSE_INIT; FUSE_INTERRUPT] ->
  has_func E pagesize init interrupt_func (ih_opcode h) = true ->
  exists s1, reqs s1 = <[next_req s := request_of h]> (reqs s) /\ sends s1 = sends s /\ calls s1 = calls s /\
    op s1 = op s /\ conn s1 = conn s /\
    process mem size s =
      dispatch_request E pagesize init interrupt_func (next_req s) h (drop 40 mem)
        {| buf_size := size; buf_flags := 0; buf_mem := Some mem; buf_fd := -1; buf_pos := 0;
           buf_mem_size := 0 |} s1.
Proof.
  intros [Hg Hd Hm Hi] Hh Hop Hfn. destruct (process_run E pagesize init interrupt_func mem size s Hm Hi)
    as (s1 & Hr & Hs & Hc & Ho & Hn & Hrun).
  rewrite Hh in *. rewrite Hg, Hd, Hfn in Hrun. unfold fuse_req_opcode_sanity_ok, fuse_req_check_allow_root in Hrun.
  cbn [negb andb] in Hrun. rewrite !not_elem_of_cons in Hop. destruct Hop as (H1 & H2 & H3 & _).
  destruct (Z.eqb_spec (ih_opcode h) FUSE_INIT); [done|]. destruct (Z.eqb_spec (ih_opcode h) CUSE_INIT); [done|].
  destruct (Z.eqb_spec (ih_opcode h) FUSE_INTERRUPT); [done|]. rewrite andb_false_r in Hrun.
  by exists s1.
Qed.

(** [struct fuse_rename2_in] and the two names. *)
Definition rename2_bytes (newdir flags : Z) (name newname : string) : list Z :=
  le 8 newdir ++ le 4 flags ++ le 4 0 ++ c_str name ++ [0] ++ c_str newname ++ [0].

(** A RENAME2 the kernel sends reaches [rename] with exactly the
    directories, names and flags it holds, whatever bytes but NUL the names
    have. *)
Theorem rename2_is_decoded h newdir flags name newname s size :
  running s -> op s op_rename = true -> header_ok h -> ih_opcode h = 45 ->
  in_u 64 newdir -> in_u 32 flags -> no_nul name -> no_nul newname ->
  exists s', process (in_header_bytes h ++ rename2_bytes newdir flags name newname) size s = Done tt s' /\
    sends s' = sends s /\
    calls s' = calls s ++
      [(next_req s, Op (QRename (ih_nodeid h) (Some name) newdir (Some newname) flags))].
Proof.
  intros Hs Hop Hh Hopc Hd Hf Hn Hn'.
  destruct (process_running (in_header_bytes h ++ rename2_bytes newdir flags name newname) size s h)
    as (s1 & _ & Hsd & Hc & Hops & _ & ->); [done|by apply in_header_read|rewrite Hopc; set_solver|by rewrite Hopc|].
  rewrite in_header_drop. unfold dispatch_request. step ltac:(done). rewrite Hopc. cbn [Z.eqb Pos.eqb andb fuse_ll_ops].
  unfold do_rename2, _do_rename2, call_or_nosys. step ltac:(done). rewrite Hops, Hop.
  eexists. split; [done|]. split; [done|]. unfold set_calls, set_log. cbn [calls]. rewrite Hc. do 3 f_equal.
  assert (drop 16 (rename2_bytes newdir flags name newname) = c_str name ++ 0 :: c_str newname ++ [0]) as ->.
  { unfold rename2_bytes. do 3 (rewrite drop_le_app by lia). done. }
  rewrite str_at_name, after_name, str_at_name by done. unfold rename2_bytes. do 2 f_equal; (read_field; done).
Qed.

(** C29: a WRITE for a file system with [write_buf], read in [size]
    bytes, hands over exactly the bytes behind the header and the structure that
    the request declares, all inside the received buffer; one that declares more
    than was read is answered with EIO and reaches nobody. *)
Theorem write_payload_is_in_request mem size s :
  let h := in_header_at mem in
  let n := u32_at 16 (drop 40 mem) in
  running s -> op s op_write_buf = true -> 9 <= proto_minor (conn s) -> ih_opcode h = FUSE_WRITE ->
  Forall (in_u 8) mem -> 80 <= size <= lenZ mem -> lenZ mem < 2 ^ 64 ->
  exists s', process mem size s = Done tt s' /\
    if size - 80 <? n then
      sends s' = sends s ++ [message (checked_error E (- EIO)) (ih_unique h) []] /\ calls s' = calls s
    else
      sends s' = sends s /\
      exists b fi, calls s' = calls s ++ [(next_req s, Op (QWriteBuf (ih_nodeid h)
          {| bv_idx := 0; bv_off := 0; bv_buf := [b] |} (s64 (u64_at 8 (drop 40 mem))) (Some fi)))] /\
        fi_fh fi = u64_at 0 (drop 40 mem) /\
        buf_size b = n /\ mem_read b 0 n = Some (sub_bytes 80 (Z.to_nat n) mem).
Proof.
  intros h n Hs Hop Hmin Hopc Hb Hsz Hmem.
  destruct (process_running mem size s h)
    as (s1 & Hr & Hsd & Hc & Hops & Hconn & ->); [done|done|rewrite Hopc; set_solver|by rewrite Hopc|].
  unfold dispatch_request. step ltac:(done). rewrite Hopc, Hops, Hop. cbn [Z.eqb andb Pos.eqb].
  unfold do_write_buf. step ltac:(done). rewrite Hconn. destruct (Z.ltb_spec (proto_minor (conn s)) 9); [lia|].
  cbn [andb buf_flags buf_size]. change (has_flag 0 FUSE_BUF_IS_FD) with false. cbv beta iota zeta.
  change (40 + 40) with 80. fold n. rewrite wrapu_small by (unfold in_u; lia).
  assert (0 <= n < 2 ^ 32) as Hn.
  { apply (un_le_range 4); [by apply Forall_take, Forall_drop, Forall_drop|].
    unfold sub_bytes. rewrite length_take. lia. }
  destruct (Z.ltb_spec (size - 80) n).
  - eexists. split.
    + unfold reply_err, fuse_reply_err. step ltac:(erewrite send_reply_spec;
        [apply send_reply_iov_spec|..]; (rewrite Hr; apply lookup_insert_eq) || done). reflexivity.
    + split; [|done]. simpl. by rewrite Hsd.
  - unfold _do_write_buf. step ltac:(done). eexists. split; [done|]. split; [done|].
    eexists _, _. split; [unfold call, pmodify, set_calls, set_log; cbn [calls]; by rewrite Hc|].
    split; [unfold write_fi, rw_fi; by destruct (_ <=? _)|].
    split; [done|]. unfold mem_read. cbn [buf_mem]. unfold lenZ in *. rewrite !drop_drop, length_drop.
    destruct (Z.leb_spec (0 + n) (Z.of_nat (length mem - (40 + 40)))); [done|lia].
Qed.
End Decoding.

Lemma demo_running : running demo_env (demo_session all_ops default_conn).
Proof. by split. Qed.

Lemma rename2_is_decoded_witness : exists s',
  fuse_session_process_buf demo_env 4096 id (no_interrupts unit)
    (in_header_bytes (demo_header 45) ++ rename2_bytes 3 1 "a" "bc") 100 (demo_session all_ops default_conn)
    = Done tt s' /\
  calls s' = [(0%nat, Op (QRename 1 (Some "a") 3 (Some "bc") 1))].
Proof.
  destruct (rename2_is_decoded demo_env 4096 id (no_interrupts unit) (demo_header 45) 3 1 "a" "bc"
    (demo_session all_ops default_conn) 100) as (s' & Hrun & _ & Hc).
  - apply demo_running.
  - reflexivity.
  - split; vm_compute; split; congruence.
  - reflexivity.
  - vm_compute; split; congruence.
  - vm_compute; split; congruence.
  - repeat constructor; vm_compute; congruence.
  - repeat constructor; vm_compute; congruence.
  - exists s'. split; [exact Hrun|exact Hc].
Defined.

(** [struct fuse_write_in] for handle 5, offset 100 and three bytes. *)
Definition demo_write : list Z :=
  in_header_bytes (demo_header FUSE_WRITE) ++ le 8 5 ++ le 8 100 ++ le 4 3 ++ le 4 0 ++ le 8 0 ++ le 4 0 ++ le 4 0 ++
  [7; 8; 9].
Definition conn_7_45 : fuse_conn_info :=
  set_limits 7 45 (max_write default_conn) 0 0 0 0 default_conn.
Lemma write_payload_is_in_request_witness : exists s' b fi,
  fuse_session_process_buf demo_env 4096 id (no_interrupts unit) demo_write 83 (demo_session all_ops conn_7_45)
    = Done tt s' /\
  calls s' = [(0%nat, Op (QWriteBuf 1 {| bv_idx := 0; bv_off := 0; bv_buf := [b] |} 100 (Some fi)))] /\
  mem_read b 0 3 = Some [7; 8; 9].
Proof.
  destruct (write_payload_is_in_request demo_env 4096 id (no_interrupts unit) demo_write 83
    (demo_session all_ops conn_7_45)) as (s' & Hrun & Hout).
  - by split.
  - reflexivity.
  - vm_compute; congruence.
  - reflexivity.
  - repeat constructor; vm_compute; congruence.
  - vm_compute; split; congruence.
  - vm_compute; reflexivity.
  - change (83 - 80 <? u32_at 16 (drop 40 demo_write)) with false in Hout.
    destruct Hout as (_ & b & fi & Hc & _ & _ & Hread). exists s', b, fi.
    split; [exact Hrun|]. split; [exact Hc|exact Hread].
Defined.

(** ** Record locks *)

Record lock_ok (l : fuse_file_lock) : Prop := {
  lk_ok_range : 0 <= lk_start l <= lk_end l; lk_ok_end : lk_end l <= OFFSET_MAX;
  lk_ok_type : lk_type l = F_RDLCK \/ lk_type l = F_WRLCK; lk_ok_pid : in_u 32 (lk_pid l);
}.

(** A lock the kernel describes by its first and last byte comes back as it
    was when the file system answers with the [struct flock] it was given: the
    length of a [struct flock], 0 for a lock to the end of the file, loses
    nothing. *)
Theorem lock_roundtrip l : lock_ok l -> lock_out (convert_fuse_file_lock l) = l.
Proof.
  intros [Hr He Ht Hp]. destruct l as [st en ty pid]. cbn [lk_start lk_end lk_type lk_pid] in *.
  unfold lock_out, convert_fuse_file_lock. cbn [lk_start lk_end lk_type lk_pid l_type l_start l_len l_pid].
  assert (wraps 16 ty = ty) as -> by (apply wraps_small; [lia|unfold in_s; lia]).
  destruct (Z.eqb_spec ty F_UNLCK); [lia|]. cbn [negb].
  assert (s64 st = st) as -> by (apply wraps_small; [lia|unfold in_s; lia]).
  rewrite wrapu_wraps, !(wrapu_small 32), (wrapu_small 64 st) by (unfold in_u in *; lia).
  f_equal. destruct (Z.eqb_spec en OFFSET_MAX) as [->|Hne]; [done|].
  rewrite (wrapu_small 64 (en - st + 1)), wraps_small by (unfold in_u, in_s; lia).
  destruct (Z.eqb_spec (en - st + 1) 0); [lia|]. rewrite wrapu_small by (unfold in_u; lia). lia.
Qed.
Lemma lock_roundtrip_witness :
  let l := {| lk_start := 100; lk_end := 199; lk_type := F_WRLCK; lk_pid := 7 |} in
  l_len (convert_fuse_file_lock l) = 100 /\ lock_out (convert_fuse_file_lock l) = l.
Proof. split; [reflexivity|]. apply lock_roundtrip. split; simpl; unfold in_u; lia. Defined.

(** ** Replies framed *)

Section Framing.
Context {W : Type} `{FileIO W} (E : env).
Implicit Types s : session W.

Lemma iov_length_spec iov : iov_length iov = lenZ (concat iov).
Proof.
  unfold iov_length. cut (forall n, foldl (fun ret seg => ret + lenZ seg) n iov = n + lenZ (concat iov)).
  { intros ->. lia. }
  induction iov as [|seg iov IH]; intros n; simpl; [unfold lenZ; simpl; lia|].
  rewrite IH, lenZ_app. lia.
Qed.
Lemma checked_error_range error : in_s 32 error ->
  (checked_error E error = 0 <-> error = 0) /\ in_s 32 (checked_error E error) /\ checked_error E error <= 0 /\
  (checked_error E error = error \/ checked_error E error = - ERANGE).
Proof.
  intros He. unfold checked_error, in_s in *.
  destruct (strerrordesc_np E _); destruct (Z.eqb_spec error 0); destruct (Z.ltb_spec 0 error); simpl; lia.
Qed.


(** A waiting INTERRUPT: an object nobody else refers to. *)
Definition waiting s q : Prop := q ∉ rlist s /\
  exists rq, reqs s !! q = Some rq /\ plain rq /\ rq_ref_cnt rq = 1.

(** A request that is registered takes the INTERRUPT that came before it
    and names it: it starts marked as interrupted, the INTERRUPT is freed and not
    answered.  When none names it, the INTERRUPT that has waited longest is given
    up: the kernel is told EAGAIN, once, under that INTERRUPT's own unique. *)
Theorem early_interrupt_finds_request p r s :
  reqs s !! p = Some r -> p ∉ interrupts s -> no_interrupt (conn s) = false ->
  (forall q, q ∈ interrupts s -> waiting s q) ->
  exists s', register_request E p s = Done tt s' /\ rlist s' = rlist s ++ [p] /\ calls s' = calls s /\
    ((exists q rq, q ∈ interrupts s /\ reqs s !! q = Some rq /\ rq_u rq = rq_unique r /\
        interrupts s' = filter (.≠ q) (interrupts s) /\
        reqs s' = delete q (<[p := set_interrupted true r]> (reqs s)) /\ sends s' = sends s) \/
     ((forall q rq, q ∈ interrupts s -> reqs s !! q = Some rq -> rq_u rq <> rq_unique r) /\
      match interrupts s with
      | [] => interrupts s' = [] /\ reqs s' = reqs s /\ sends s' = sends s
      | q :: rest => exists rq, reqs s !! q = Some rq /\ interrupts s' = filter (.≠ q) rest /\
          reqs s' = delete q (reqs s) /\
          sends s' = sends s ++ [message (checked_error E (- EAGAIN)) (rq_unique rq) []]
      end)).
Proof.
  intros Hr Hpi Hni Hw.
  destruct (find_req_spec (fun c => rq_u c =? rq_unique r) (interrupts s) s) as (o & Hfind & Ho).
  { intros c Hc. destruct (Hw c Hc) as (_ & rq & Hrq & _). by exists rq. }
  unfold register_request. destruct o as [q|].
  - destruct Ho as (Hq & rq & Hrq & Heq). apply Z.eqb_eq in Heq. destruct (Hw q Hq) as (Hql & rq' & Hrq' & Hpl & _).
    rewrite Hrq in Hrq'. injection Hrq' as <-. assert (q <> p) as Hne by (intros ->; done).
    eexists. split.
    + erewrite bind_done.
      2: { unfold check_interrupt. step ltac:(by apply get_req_ok). step ltac:(done). step ltac:(exact Hfind).
           step ltac:(by apply put_req_ok). step ltac:(done).
           step ltac:(apply drop_req_ok with (r := rq); [simpl; by rewrite lookup_insert_ne by congruence|exact Hpl]).
           reflexivity. }
      cbv beta iota. step ltac:(done). reflexivity.
    + simpl. rewrite (filter_ne_notin q (rlist s)) by done. split; [done|]. split; [done|]. left.
      by exists q, rq.
  - assert (forall q rq, q ∈ interrupts s -> reqs s !! q = Some rq -> rq_u rq <> rq_unique r) as Hnone.
    { intros q rq Hq Hrq Heq. specialize (Ho q rq Hq Hrq). by apply Z.eqb_neq in Ho. }
    destruct (interrupts s) as [|q rest] eqn:Hi.
    + eexists. split.
      * erewrite bind_done.
        2: { unfold check_interrupt. step ltac:(by apply get_req_ok). step ltac:(done). rewrite Hi.
             step ltac:(exact Hfind). reflexivity. }
        cbv beta iota. step ltac:(done). reflexivity.
      * simpl. rewrite Hi. split; [done|]. split; [done|]. by right.
    + destruct (Hw q ltac:(constructor)) as (Hql & rq & Hrq & Hpl & Hq1).
      assert (q <> p) as Hne by (intros ->; apply Hpi; constructor).
      eexists. split.
      * erewrite bind_done.
        2: { unfold check_interrupt. step ltac:(by apply get_req_ok). step ltac:(done). rewrite Hi.
             step ltac:(exact Hfind). step ltac:(done). reflexivity. }
        cbv beta iota. step ltac:(done). unfold reply_err, fuse_reply_err.
        step ltac:(erewrite send_reply_spec; [apply send_reply_iov_spec|..]; done). reflexivity.
      * simpl. rewrite Hni, Hi, Hq1. simpl. unfold without.
        rewrite filter_cons_False by (intros Hx; by apply Hx). rewrite (filter_ne_notin q (filter _ _))
          by (rewrite list_elem_of_filter; intros [Hx _]; done).
        rewrite (filter_ne_notin q (rlist s)) by done.
        rewrite filter_ne_notin; [|rewrite elem_of_app, list_elem_of_singleton; naive_solver].
        split; [done|]. split; [done|]. right. split; [done|]. by exists rq.
Qed.
End Framing.

(** The INTERRUPT of unique 21 names request 77 and came first. *)
Definition early_session : session unit :=
  set_heap {[ 0%nat := set_refs 1 None 77 0 (set_request 21 zero_ctx None false fresh_req);
              1%nat := set_request 77 zero_ctx None false fresh_req ]} [] [0%nat] ∅
    (demo_session all_ops default_conn).
Lemma early_interrupt_finds_request_witness : exists s',
  register_request demo_env 1 early_session = Done tt s' /\ sends s' = [] /\ interrupts s' = [] /\
  reqs s' = {[ 1%nat := set_interrupted true (set_request 77 zero_ctx None false fresh_req) ]}.
Proof.
  destruct (early_interrupt_finds_request demo_env 1 (set_request 77 zero_ctx None false fresh_req) early_session)
    as (s' & Hrun & _ & _ & [(q & rq & Hq & Hrq & Hu & Hi & Hre & Hs)|[Hnone _]]).
  - reflexivity.
  - cbn. rewrite list_elem_of_singleton. congruence.
  - reflexivity.
  - cbn. intros q ->%list_elem_of_singleton. split; [apply not_elem_of_nil|]. eexists. split; [reflexivity|by split].
  - cbn in Hq. apply list_elem_of_singleton in Hq as ->. exists s'. split; [exact Hrun|]. split; [exact Hs|].
    split; [exact Hi|]. rewrite Hre. vm_compute. reflexivity.
  - exfalso. eapply (Hnone 0%nat); [cbn; constructor|reflexivity|reflexivity].
Defined.
