(* ===== verification/FuseCmdline.v ===== *)
(** * lib/helper.c and lib/mount.c: the options of a session

    The tables of options of libfuse and the functions that use them: the command
    line, the connection, the session and the mount; and what becomes of the
    arguments that SessionManager::Initialize builds. *)
From Stdlib Require Import Ascii.
From S2P Require Import Prelude Errno LlMount FuseOpt SessionManager Lowlevel LlInit.

(** ** Tables *)

Definition at_var (templ name : string) (v : Z) : fuse_opt :=
  {| templ := templ; offset := Some name; value := v |}.
Definition helper_opt (templ name : string) : fuse_opt := at_var templ name 1.
Definition fuse_helper_opts : list fuse_opt :=
  [helper_opt "-h" "show_help"; helper_opt "--help" "show_help"; helper_opt "-V" "show_version";
   helper_opt "--version" "show_version"; helper_opt "-d" "debug"; helper_opt "debug" "debug";
   helper_opt "-d" "foreground"; helper_opt "debug" "foreground"; FUSE_OPT_KEY "-d" FUSE_OPT_KEY_KEEP;
   FUSE_OPT_KEY "debug" FUSE_OPT_KEY_KEEP; helper_opt "-f" "foreground"; helper_opt "-s" "singlethread";
   helper_opt "fsname=" "nodefault_subtype"; FUSE_OPT_KEY "fsname=" FUSE_OPT_KEY_KEEP;
   helper_opt "subtype=" "nodefault_subtype"; FUSE_OPT_KEY "subtype=" FUSE_OPT_KEY_KEEP;
   helper_opt "clone_fd" "clone_fd"; helper_opt "max_idle_threads=%u" "max_idle_threads";
   helper_opt "max_threads=%u" "max_threads"].

Definition conn_info_opt_spec : list fuse_opt :=
  [at_var "max_write=%u" "max_write" 0; at_var "max_write=" "set_max_write" 1;
   at_var "max_readahead=%u" "max_readahead" 0; at_var "max_readahead=" "set_max_readahead" 1;
   at_var "max_background=%u" "max_background" 0; at_var "max_background=" "set_max_background" 1;
   at_var "congestion_threshold=%u" "congestion_threshold" 0;
   at_var "congestion_threshold=" "set_congestion_threshold" 1;
   at_var "sync_read" "sync_read" 1; at_var "async_read" "async_read" 1;
   at_var "atomic_o_trunc" "atomic_o_trunc" 1;
   at_var "no_remote_lock" "no_remote_posix_lock" 1; at_var "no_remote_lock" "no_remote_flock" 1;
   at_var "no_remote_flock" "no_remote_flock" 1; at_var "no_remote_posix_lock" "no_remote_posix_lock" 1;
   at_var "splice_write" "splice_write" 1; at_var "no_splice_write" "no_splice_write" 1;
   at_var "splice_move" "splice_move" 1; at_var "no_splice_move" "no_splice_move" 1;
   at_var "splice_read" "splice_read" 1; at_var "no_splice_read" "no_splice_read" 1;
   at_var "auto_inval_data" "auto_inval_data" 1; at_var "no_auto_inval_data" "no_auto_inval_data" 1;
   at_var "readdirplus=no" "no_readdirplus" 1; at_var "readdirplus=yes" "no_readdirplus" 0;
   at_var "readdirplus=yes" "no_readdirplus_auto" 1; at_var "readdirplus=auto" "no_readdirplus" 0;
   at_var "readdirplus=auto" "no_readdirplus_auto" 0;
   at_var "async_dio" "async_dio" 1; at_var "no_async_dio" "no_async_dio" 1;
   at_var "writeback_cache" "writeback_cache" 1; at_var "no_writeback_cache" "no_writeback_cache" 1;
   at_var "time_gran=%u" "time_gran" 0; at_var "time_gran=" "set_time_gran" 1].

Definition fuse_ll_opts : list fuse_opt :=
  [at_var "debug" "debug" 1; at_var "-d" "debug" 1; at_var "--debug" "debug" 1;
   at_var "allow_root" "deny_others" 1; at_var "io_uring" "uring.enable" 1;
   at_var "io_uring_q_depth=%u" "uring.q_depth" (-1)].

Abbreviation KEY_KERN_FLAG := 0 (only parsing).
Abbreviation KEY_KERN_OPT := 1 (only parsing).
Abbreviation KEY_FUSERMOUNT_OPT := 2 (only parsing).
Abbreviation KEY_SUBTYPE_OPT := 3 (only parsing).
Abbreviation KEY_MTAB_OPT := 4 (only parsing).
Abbreviation KEY_RO := 6 (only parsing).
Definition fuse_mount_opts : list fuse_opt :=
  [at_var "allow_other" "allow_other" 1; at_var "blkdev" "blkdev" 1; at_var "auto_unmount" "auto_unmount" 1;
   at_var "fsname=%s" "fsname" 1; at_var "max_read=%u" "max_read" 1; at_var "subtype=%s" "subtype" 1;
   FUSE_OPT_KEY "allow_other" KEY_KERN_OPT; FUSE_OPT_KEY "auto_unmount" KEY_FUSERMOUNT_OPT;
   FUSE_OPT_KEY "blkdev" KEY_FUSERMOUNT_OPT; FUSE_OPT_KEY "fsname=" KEY_FUSERMOUNT_OPT;
   FUSE_OPT_KEY "subtype=" KEY_SUBTYPE_OPT; FUSE_OPT_KEY "blksize=" KEY_KERN_OPT;
   FUSE_OPT_KEY "default_permissions" KEY_KERN_OPT; FUSE_OPT_KEY "context=" KEY_KERN_OPT;
   FUSE_OPT_KEY "fscontext=" KEY_KERN_OPT; FUSE_OPT_KEY "defcontext=" KEY_KERN_OPT;
   FUSE_OPT_KEY "rootcontext=" KEY_KERN_OPT; FUSE_OPT_KEY "max_read=" KEY_KERN_OPT;
   FUSE_OPT_KEY "user=" KEY_MTAB_OPT; FUSE_OPT_KEY "-n" KEY_MTAB_OPT; FUSE_OPT_KEY "-r" KEY_RO;
   FUSE_OPT_KEY "ro" KEY_KERN_FLAG; FUSE_OPT_KEY "rw" KEY_KERN_FLAG; FUSE_OPT_KEY "suid" KEY_KERN_FLAG;
   FUSE_OPT_KEY "nosuid" KEY_KERN_FLAG; FUSE_OPT_KEY "dev" KEY_KERN_FLAG; FUSE_OPT_KEY "nodev" KEY_KERN_FLAG;
   FUSE_OPT_KEY "exec" KEY_KERN_FLAG; FUSE_OPT_KEY "noexec" KEY_KERN_FLAG; FUSE_OPT_KEY "async" KEY_KERN_FLAG;
   FUSE_OPT_KEY "sync" KEY_KERN_FLAG; FUSE_OPT_KEY "dirsync" KEY_KERN_FLAG;
   FUSE_OPT_KEY "noatime" KEY_KERN_FLAG; FUSE_OPT_KEY "nodiratime" KEY_KERN_FLAG;
   FUSE_OPT_KEY "nostrictatime" KEY_KERN_FLAG; FUSE_OPT_KEY "symfollow" KEY_KERN_FLAG;
   FUSE_OPT_KEY "nosymfollow" KEY_KERN_FLAG].

Abbreviation MS_RDONLY := 1 (only parsing).
Abbreviation MS_NOSUID := 2 (only parsing).
Abbreviation MS_NODEV := 4 (only parsing).
Abbreviation MS_NOEXEC := 8 (only parsing).
Abbreviation MS_SYNCHRONOUS := 16 (only parsing).
Abbreviation MS_DIRSYNC := 128 (only parsing).
Abbreviation MS_NOSYMFOLLOW := 256 (only parsing).
Abbreviation MS_NOATIME := 1024 (only parsing).
Abbreviation MS_NODIRATIME := 2048 (only parsing).
Abbreviation MS_RELATIME := 2097152 (only parsing).
Abbreviation MS_STRICTATIME := 16777216 (only parsing).
Definition mount_flags : list (string * Z * bool) :=
  [("rw", MS_RDONLY, false); ("ro", MS_RDONLY, true); ("suid", MS_NOSUID, false); ("nosuid", MS_NOSUID, true);
   ("dev", MS_NODEV, false); ("nodev", MS_NODEV, true); ("exec", MS_NOEXEC, false); ("noexec", MS_NOEXEC, true);
   ("async", MS_SYNCHRONOUS, false); ("sync", MS_SYNCHRONOUS, true); ("noatime", MS_NOATIME, true);
   ("nodiratime", MS_NODIRATIME, true); ("norelatime", MS_RELATIME, false);
   ("nostrictatime", MS_STRICTATIME, false); ("symfollow", MS_NOSYMFOLLOW, false);
   ("nosymfollow", MS_NOSYMFOLLOW, true); ("dirsync", MS_DIRSYNC, true)]%string.

(** ** Parsing *)

Section Cmdline.
Context (malloc_ok : nat -> bool) (realpath : string -> option string).
Abbreviation oprog := (prog fuse_opt_context).

(** The conversions of the tables are all ["%u"]. *)
Definition sscanf_u (format param : string) : option Z :=
  if String.eqb format "%u" then option_map (fun r => u32 r.1) (scan_u param) else None.

Definition fuse_helper_opt_proc (arg : string) (key : Z) : oprog Z :=
  if key =? FUSE_OPT_KEY_NONOPT then
    c ← pget;
    match str_of (oc_data c) "mountpoint" with
    | Some _ => mret (-1)
    | None =>
        if negb (fuse_mnt_parse_fuse_fd arg =? -1) then add_to_variable malloc_ok "mountpoint" arg false
        else match realpath arg with
             | Some mountpoint => add_to_variable malloc_ok "mountpoint" mountpoint false
             | None => mret (-1)
             end
    end
  else mret 1.

Fixpoint after_last_slash (s : string) : option string :=
  match s with
  | EmptyString => None
  | String c s' =>
      match after_last_slash s' with
      | Some t => Some t
      | None => if Ascii.eqb c "/"%char then Some s else None
      end
  end.
Definition basename (progname : string) : string :=
  match after_last_slash progname with
  | Some (String _ (String c s)) => String c s
  | Some s => s
  | None => progname
  end.

(** What is left of the arguments, and the options; [None] is a failure. *)
Definition with_result {A} (o : outcome fuse_opt_context (bool * list string))
    (k : list string -> fuse_opt_context -> option A) : option A :=
  match o with Done (true, args) c => k args c | _ => None end.
Definition more_args (c : fuse_opt_context) (args : list string) (arg : string) : option (list string * nat) :=
  match fuse_opt_add_arg malloc_ok arg (set_outargs args c) with
  | Done _ c => Some (outargs c, oc_allocs c)
  | _ => None
  end.
Definition fuse_parse_cmdline (args : list string) : option (list string * data * nat) :=
  with_result (fuse_opt_parse malloc_ok sscanf_u fuse_helper_opts (Some fuse_helper_opt_proc) args
                 (<["max_idle_threads"%string := VInt (2 ^ 32 - 1)]> {["max_threads"%string := VInt 10]}) 0)
    (fun args c =>
       if int_of (oc_data c) "nodefault_subtype" =? 0 then
         r ← more_args c args ("-osubtype=" ++ basename (default EmptyString (args !! 0%nat)))%string;
         Some (r.1, oc_data c, r.2)
       else Some (args, oc_data c, oc_allocs c)).

(** [set_mount_flag] stops the process on a flag that is not in its table. *)
Fixpoint find_flag (l : list (string * Z * bool)) (s : string) : option (Z * bool) :=
  match l with
  | [] => None
  | (name, flag, on) :: l => if String.eqb name s then Some (flag, on) else find_flag l s
  end.
Definition set_mount_flag (s : string) : oprog unit :=
  match find_flag mount_flags s with
  | Some (flag, on) =>
      pmodify (fun c => set_data (<["flags"%string := VInt
        (if on : bool then Z.lor (int_of (oc_data c) "flags") flag
         else Z.land (int_of (oc_data c) "flags") (Z.lnot flag))]> (oc_data c)) c)
  | None => pstuck "abort"
  end.
Definition fuse_mount_opt_proc (arg : string) (key : Z) : oprog Z :=
  if key =? KEY_RO then _ ← set_mount_flag "ro"; mret 0
  else if key =? KEY_KERN_FLAG then _ ← set_mount_flag arg; mret 0
  else if key =? KEY_KERN_OPT then add_to_variable malloc_ok "kernel_opts" arg false
  else if key =? KEY_FUSERMOUNT_OPT then add_to_variable malloc_ok "fusermount_opts" arg true
  else if key =? KEY_SUBTYPE_OPT then add_to_variable malloc_ok "subtype_opt" arg false
  else if key =? KEY_MTAB_OPT then add_to_variable malloc_ok "mtab_opts" arg false
  else if key =? FUSE_OPT_KEY_OPT then
    match strip_prefix "x-" arg with
    | Some _ => add_to_variable malloc_ok "mtab_opts" arg false
    | None => mret 1
    end
  else mret 1.
Definition parse_mount_opts (args : list string) (allocs : nat) : outcome fuse_opt_context (bool * list string) :=
  fuse_opt_parse malloc_ok sscanf_u fuse_mount_opts (Some fuse_mount_opt_proc) args
    {["flags"%string := VInt (Z.lor MS_NOSUID MS_NODEV)]} allocs.

(** The options of [fuse_session_new_versioned]: those of the session and of the
    mount; an argument nobody has taken is an error. *)
Definition session_options (args : list string) (allocs : nat) : option (data * data) :=
  with_result (fuse_opt_parse malloc_ok sscanf_u fuse_ll_opts None args ∅ allocs)
    (fun args c =>
       r ← (if int_of (oc_data c) "deny_others" =? 0 then Some (args, oc_allocs c)
            else more_args c args "-oallow_other");
       with_result (parse_mount_opts r.1 r.2)
         (fun args c' => match args with [_] => Some (oc_data c, oc_data c') | _ => None end)).

(** The text of mount flags. *)
Definition get_mnt_flag_opts (flags : Z) : option string :=
  let rw := if has_flag flags MS_RDONLY then None else Some (appended None "rw" false) in
  foldl (fun acc f => let '(name, flag, on) := f : string * Z * bool in
           if on && has_flag flags flag then Some (appended acc name false) else acc) rw mount_flags.
(** [fuse_kern_mount]: the helper program is the fallback of an unprivileged process
    ([-2] of [fuse_mount_sys]). *)
Definition fuse_kern_mount (mount_sys : data -> option string -> Z) (fusermount : option string -> bool -> Z)
    (auto_unmount_ok : bool) (mo : data) : Z :=
  let add o name := match str_of mo name with Some s => Some (appended o s false) | None => o end in
  let mnt_opts := add (add (get_mnt_flag_opts (int_of mo "flags")) "kernel_opts") "mtab_opts" in
  let res := mount_sys mo mnt_opts in
  if (0 <=? res) && negb (int_of mo "auto_unmount" =? 0) then
    if auto_unmount_ok then res else -1
  else if res =? -2 then
    let mnt_opts := add mnt_opts "fusermount_opts" in
    match str_of mo "subtype" with
    | Some _ =>
        let tmp := add (match mnt_opts with Some s => Some (appended None s false) | None => None end) "subtype_opt" in
        let res := fusermount tmp true in
        if res =? -1 then fusermount mnt_opts false else res
    | None => fusermount mnt_opts false
    end
  else res.

(** ** Options of the connection *)

Definition fuse_parse_conn_info_opts (args : list string) (allocs : nat) : option (list string * data) :=
  with_result (fuse_opt_parse malloc_ok sscanf_u conn_info_opt_spec None args ∅ allocs)
    (fun args c => Some (args, oc_data c)).
Definition flag_on (d : data) (name : string) : bool := negb (int_of d name =? 0).
Definition limit (d : data) (set name : string) (old : Z) : Z := if flag_on d set then int_of d name else old.
Definition LL_ENABLE (cond : bool) (cap : Z) (cn : feature_state) : feature_state :=
  if cond then (fuse_set_feature_flag (2 ^ cap) cn).2 else cn.
Definition LL_DISABLE (cond : bool) (cap : Z) (cn : feature_state) : feature_state :=
  if cond then fuse_unset_feature_flag (2 ^ cap) cn else cn.
(** The capabilities an option enables or disables, in the order of the code. *)
Definition conn_info_caps : list (string * Z * bool) :=
  [("splice_read", 9, true); ("no_splice_read", 9, false); ("splice_write", 7, true);
   ("no_splice_write", 7, false); ("splice_move", 8, true); ("no_splice_move", 8, false);
   ("auto_inval_data", 12, true); ("no_auto_inval_data", 12, false); ("no_readdirplus", 13, false);
   ("no_readdirplus_auto", 14, false); ("async_dio", 15, true); ("no_async_dio", 15, false);
   ("writeback_cache", 16, true); ("no_writeback_cache", 16, false); ("async_read", 0, true);
   ("sync_read", 0, false); ("no_remote_posix_lock", 1, false); ("no_remote_flock", 10, false)]%string.
Definition fuse_apply_conn_info_opts (d : data) (cn : feature_state) : feature_state :=
  let c := cn.1 in
  let c := set_limits (proto_major c) (proto_minor c) (limit d "set_max_write" "max_write" (max_write c))
             (limit d "set_max_readahead" "max_readahead" (max_readahead c))
             (limit d "set_max_background" "max_background" (max_background c))
             (limit d "set_congestion_threshold" "congestion_threshold" (congestion_threshold c))
             (limit d "set_time_gran" "time_gran" (time_gran c)) c in
  foldl (fun cn e => let '(name, cap, on) := e : string * Z * bool in
           if on then LL_ENABLE (flag_on d name) cap cn else LL_DISABLE (flag_on d name) cap cn)
    (c, cn.2) conn_info_caps.
End Cmdline.

(** ** A session's options *)

(** What the three parses leave of the arguments of a session: the command line's
    options, the session's and the mount's. *)
Definition session_start (realpath : string -> option string) (o : SessionOptions) : option (data * data * data) :=
  r ← fuse_parse_cmdline (fun _ => true) realpath (fuse_args o);
  let '(args, cmd, allocs) := r : list string * data * nat in
  s ← session_options (fun _ => true) args allocs;
  Some (cmd, s.1, s.2).

Definition options_arrive (o : SessionOptions) (r : option (data * data * data)) : bool :=
  match r with
  | Some (cmd, se, mo) =>
      Bool.eqb (flag_on se "debug") (debug o) && Bool.eqb (flag_on se "deny_others") (allow_root o) &&
      Bool.eqb (flag_on mo "allow_other") (allow_other o || allow_root o) &&
      Bool.eqb (flag_on mo "auto_unmount") (auto_unmount o) &&
      bool_decide (str_of mo "subtype" = Some "fuse-native"%string) &&
      (int_of mo "flags" =? Z.lor MS_NOSUID MS_NODEV) && (int_of mo "max_read" =? 0) &&
      Bool.eqb (flag_on cmd "foreground") (debug o || foreground o) &&
      Bool.eqb (flag_on cmd "singlethread") (single_threaded o)
  | None => false
  end.

(** C35: whatever the options of a session, libfuse understands all the
    arguments Initialize builds for it, and the session and its mount have exactly
    those options: debugging, access for root or others (with the kernel's check
    for either), unmounting at exit and the type's name; the flags for the foreground
    and a single thread end in the command line's options, which nothing reads, and
    the sizes are not passed at all. *)
Theorem session_options_reach_libfuse realpath o :
  exists cmd se mo,
    session_start realpath o = Some (cmd, se, mo) /\
    flag_on se "debug" = debug o /\ flag_on se "deny_others" = allow_root o /\
    flag_on mo "allow_other" = allow_other o || allow_root o /\
    flag_on mo "auto_unmount" = auto_unmount o /\
    str_of mo "subtype" = Some "fuse-native"%string /\ int_of mo "flags" = Z.lor MS_NOSUID MS_NODEV /\
    int_of mo "max_read" = 0 /\
    flag_on cmd "foreground" = debug o || foreground o /\ flag_on cmd "singlethread" = single_threaded o.
Proof.
  assert (options_arrive o (session_start realpath o) = true) as Ho.
  { destruct o as [[] [] [] [] [] [] max_read max_write signals]; vm_compute; reflexivity. }
  destruct (session_start realpath o) as [[[cmd se] mo]|]; [|discriminate Ho]. exists cmd, se, mo.
  unfold options_arrive in Ho. rewrite !andb_true_iff, !eqb_true_iff, !Z.eqb_eq, bool_decide_eq_true in Ho.
  naive_solver.
Qed.

(** The flags a mount option names are all in the table of mount flags. *)
Theorem mount_flags_are_known o :
  o ∈ fuse_mount_opts -> offset o = None -> value o = KEY_KERN_FLAG \/ value o = KEY_RO ->
  is_Some (find_flag mount_flags (if value o =? KEY_RO then "ro" else templ o)).
Proof.
  intros Ho Hoff Hv.
  assert (Forall (fun o => offset o = None -> value o = KEY_KERN_FLAG \/ value o = KEY_RO ->
    is_Some (find_flag mount_flags (if value o =? KEY_RO then "ro" else templ o))) fuse_mount_opts) as Hall.
  { unfold fuse_mount_opts.
    repeat (apply Forall_cons; split; [intros Hf [Hk|Hk]; first [discriminate Hf|discriminate Hk|vm_compute; by eexists]|]).
    by apply Forall_nil. }
  rewrite Forall_forall in Hall. by apply Hall.
Qed.

(** ** Capabilities the options ask for *)

(** One capability under the options, in their order: what was wanted, and whether the
    kernel offers it. *)
Definition capability_after (d : data) (offered : bool) (j : Z) (wanted : bool) : bool :=
  foldl (fun b e => let '(name, cap, on) := e : string * Z * bool in
           if bool_decide (cap = j) && flag_on d name then if on then b || offered else false else b)
    wanted conn_info_caps.

Lemma pow_testbit i j : 0 <= i -> 0 <= j -> Z.testbit (2 ^ i) j = bool_decide (i = j).
Proof.
  intros Hi Hj. destruct (bool_decide_reflect (i = j)) as [->|Hne]; [by apply Z.pow2_bits_true|by apply Z.pow2_bits_false].
Qed.
Lemma enable_testbit b cap j c n : 0 <= cap -> 0 <= j ->
  capable_ext (LL_ENABLE b cap (c, n)).1 = capable_ext c /\
  Z.testbit (want_ext (LL_ENABLE b cap (c, n)).1) j =
    (if bool_decide (cap = j) && b then Z.testbit (want_ext c) j || Z.testbit (capable_ext c) j else Z.testbit (want_ext c) j).
Proof.
  intros Hc Hj. unfold LL_ENABLE, fuse_set_feature_flag. rewrite has_flag_pow2 by done.
  destruct b; [|by rewrite andb_false_r]. rewrite andb_true_r.
  destruct (Z.testbit (capable_ext c) cap) eqn:Hb; cbn [fst snd capable_ext want_ext set_caps]; (split; [done|]).
  - rewrite Z.lor_spec, pow_testbit by done. destruct (bool_decide_reflect (cap = j)) as [<-|]; [|by rewrite orb_false_r].
    by rewrite Hb, !orb_true_r.
  - destruct (bool_decide_reflect (cap = j)) as [<-|]; [by rewrite Hb, orb_false_r|done].
Qed.
Lemma disable_testbit b cap j c n : 0 <= cap -> 0 <= j ->
  capable_ext (LL_DISABLE b cap (c, n)).1 = capable_ext c /\
  Z.testbit (want_ext (LL_DISABLE b cap (c, n)).1) j =
    (if bool_decide (cap = j) && b then false else Z.testbit (want_ext c) j).
Proof.
  intros Hc Hj. unfold LL_DISABLE, fuse_unset_feature_flag.
  destruct b; [|by rewrite andb_false_r]. rewrite andb_true_r.
  cbn [fst snd capable_ext want_ext set_caps]. split; [done|].
  rewrite Z.land_spec, Z.lnot_spec, pow_testbit by done. destruct (bool_decide _); [apply andb_false_r|apply andb_true_r].
Qed.

Lemma apply_caps_testbit d j l : 0 <= j -> Forall (fun e : string * Z * bool => 0 <= e.1.2) l -> forall c n,
  let cn := foldl (fun cn e => let '(name, cap, on) := e : string * Z * bool in
      if on then LL_ENABLE (flag_on d name) cap cn else LL_DISABLE (flag_on d name) cap cn) (c, n) l in
  Z.testbit (want_ext cn.1) j =
    foldl (fun b e => let '(name, cap, on) := e : string * Z * bool in
      if bool_decide (cap = j) && flag_on d name then if on then b || Z.testbit (capable_ext c) j else false else b)
      (Z.testbit (want_ext c) j) l.
Proof.
  intros Hj. induction 1 as [|[[name cap] on] l Hcap _ IH]; intros c n; [done|]. cbn [foldl]. cbn in Hcap.
  destruct on.
  - destruct (enable_testbit (flag_on d name) cap j c n Hcap Hj) as [H1 H2].
    destruct (LL_ENABLE _ cap (c, n)) as [c' n']. cbn [fst] in H1, H2. cbv zeta in IH. by rewrite IH, H1, H2.
  - destruct (disable_testbit (flag_on d name) cap j c n Hcap Hj) as [H1 H2].
    destruct (LL_DISABLE _ cap (c, n)) as [c' n']. cbn [fst] in H1, H2. cbv zeta in IH. by rewrite IH, H1, H2.
Qed.

(** The options of the connection change each wanted capability as they say,
    one after the other, a later disabling one winning: an option turns on a
    capability only when the kernel offers it; what they do not name stays. *)
Theorem connection_options_bitwise d c n j :
  0 <= j ->
  Z.testbit (want_ext (fuse_apply_conn_info_opts d (c, n)).1) j =
    capability_after d (Z.testbit (capable_ext c) j) j (Z.testbit (want_ext c) j).
Proof.
  intros Hj. unfold fuse_apply_conn_info_opts, capability_after. rewrite apply_caps_testbit; [done|done|].
  repeat (apply Forall_cons; split; [cbn; lia|]). by apply Forall_nil.
Qed.
Definition demo_conn : fuse_conn_info :=
  {| proto_major := 7; proto_minor := 45; max_write := 0; max_read := 0; max_readahead := 0; capable := 4097;
     want := 1; max_background := 0; congestion_threshold := 0; time_gran := 0; max_backing_stack_depth := 0;
     no_interrupt := false; capable_ext := 4097; want_ext := 1; request_timeout := 0 |}.
Lemma connection_options_bitwise_witness :
  Z.testbit (want_ext (fuse_apply_conn_info_opts {["auto_inval_data"%string := VInt 1]}
    (demo_conn, {| conn_want := 0; conn_want_ext := 0; bufsize := 0; buf_reallocable := false;
                   uring_enable := false; max_read_mo := 0 |})).1) 12 = true.
Proof.
  rewrite (connection_options_bitwise _ demo_conn _ 12); [vm_compute; reflexivity|lia].
Defined.
