(* ===== verification/XattrBridge.v ===== *)
(** * src/xattr_bridge.cc: extended attributes of files

    The functions exported to JavaScript for a file's own extended attributes.  The
    system calls are the class [XattrCalls]; a failed call is [inl errno].  [None]
    is a JavaScript exception; a pending one does not stop the C++ code.  A buffer
    of characters is a [string], which may hold NULs. *)
From Stdlib Require Import Ascii.
From S2P Require Import Prelude Errno Sys Napi BufCopy CopyRange LlMount FuseOpt.

(** The size asked for is 0 for the length alone; otherwise the calls also give the
    bytes they leave in the buffer. *)
Class XattrCalls (W : Type) := {
  sys_getxattr : string -> string -> Z -> W -> io_result (Z * list Z) * W;
  sys_setxattr : string -> string -> list Z -> Z -> W -> io_result unit * W;
  sys_listxattr : string -> Z -> W -> io_result (Z * string) * W;
  sys_removexattr : string -> string -> W -> io_result unit * W;
}.

(** ** Names *)

Definition strnlen (s : string) : nat := String.length (c_str s).
(** Each round goes past a name and its NUL, so the length bounds the rounds. *)
Fixpoint parse_names (fuel : nat) (ptr : string) : list string :=
  match fuel with
  | O => []
  | S fuel =>
      let len := strnlen ptr in
      if (len =? 0)%nat then [] else str_take len ptr :: parse_names fuel (str_drop (S len) ptr)
  end.
Definition ParseAttributeList (buffer : string) : list string := parse_names (String.length buffer) buffer.

Definition IsValidAttributeName (name : string) : bool :=
  if String.eqb name "" || (255 <? String.length name)%nat then false
  else match strchr "000"%char name with
       | Some _ => false
       | None => negb (char_is "000"%char (char_at 0 name))
       end.
Definition ConvertXAttrFlags (flags : Z) : Z := flags.

Section Calls.
Context {W : Type} `{XattrCalls W} `{NapiConv}.
(** Whether a vector of that many bytes can be had; if not the process ends. *)
Variable vector_ok : Z -> bool.
Abbreviation calls := (prog W).

(** ** Platform functions

    The paths and names are read up to their first NUL.  An [int] holds every count:
    the kernel limits a value and a list of names to 64 KiB. *)

Definition platform_getxattr (path name : string) (size : Z) : calls (io_result (Z * list Z)) :=
  io (sys_getxattr (c_str path) (c_str name) size).
Definition platform_setxattr (path name : string) (value : list Z) (flags : Z) : calls (io_result unit) :=
  io (sys_setxattr (c_str path) (c_str name) value flags).
Definition platform_listxattr (path : string) (size : Z) : calls (io_result (Z * string)) :=
  io (sys_listxattr (c_str path) size).
Definition platform_removexattr (path name : string) : calls (io_result unit) :=
  io (sys_removexattr (c_str path) (c_str name)).

(** ** Exported functions *)

(** [As<Napi::String>().Utf8Value()] throws for anything else. *)
Definition Utf8Value (v : js) : option string := match v with JString s => Some s | _ => None end.
(** What JavaScript gets: the value, unless an exception is pending. *)
Definition returned (pending : bool) (v : js) : calls (option js) := mret (if pending then None else Some v).
Definition vector (size : Z) : calls unit := if vector_ok size then mret tt else pstuck "terminate".
(** The first [n] bytes of a buffer that was zero before the call. *)
Definition read_bytes (size n : Z) (bytes : list Z) : list Z :=
  take (Z.to_nat n) (take (Z.to_nat size) (bytes ++ replicate (Z.to_nat size) 0)).
Fixpoint nuls (n : nat) : string := match n with O => EmptyString | S n => String "000" (nuls n) end.
Definition read_string (size n : Z) (bytes : string) : string :=
  str_take (Z.to_nat n) (str_take (Z.to_nat size) (bytes ++ nuls (Z.to_nat size))).

(** The size argument: whether an exception is pending, and the size. *)
Definition size_argument (info : list js) (i : nat) : bool * Z :=
  if (i <? length info)%nat && IsNumber (argument info i) then CopyRange.GetBigUint64 (argument info i)
  else (false, 0).

Definition GetXAttr (info : list js) : calls (option js) :=
  if (length info <? 2)%nat then mret None
  else
    match Utf8Value (argument info 0), Utf8Value (argument info 1) with
    | Some path, Some name =>
        let '(pending, size) := size_argument info 2 in
        if negb (IsValidAttributeName name) then returned pending (JBigInt (- EINVAL))
        else if size =? 0 then
          r ← platform_getxattr path name 0;
          match r with
          | inl errno => returned pending (JBigInt (- errno))
          | inr (result, _) => returned pending (JBigInt (u64 result))
          end
        else
          _ ← vector size;
          r ← platform_getxattr path name size;
          match r with
          | inl errno => returned pending (JBigInt (- errno))
          | inr (result, bytes) =>
              returned pending (JObject (("size"%string, JBigInt (u64 result)) ::
                if 0 <? result then
                  [("data"%string, JTypedArray (read_bytes size result bytes) 0 (Z.to_nat result))]
                else []))
          end
    | _, _ => mret None
    end.

Definition Buffer (v : js) : option (list Z) :=
  match v with JTypedArray store off len => Some (take len (drop off store)) | _ => None end.
(** 0 or [-errno]. *)
Definition result_answer (pending : bool) (r : io_result unit) : calls (option js) :=
  returned pending (JBigInt (match r with inl errno => - errno | inr _ => 0 end)).

Definition SetXAttr (info : list js) : calls (option js) :=
  if (length info <? 4)%nat then mret None
  else
    match Utf8Value (argument info 0), Utf8Value (argument info 1), Buffer (argument info 2) with
    | Some path, Some name, Some value =>
        let '(pending, flags) := GetInt32 (argument info 3) in
        if negb (IsValidAttributeName name) then returned pending (JBigInt (- EINVAL))
        else
          r ← platform_setxattr path name value (ConvertXAttrFlags flags);
          result_answer pending r
    | _, _, _ => mret None
    end.

Definition ListXAttr (info : list js) : calls (option js) :=
  if (length info <? 1)%nat then mret None
  else
    match Utf8Value (argument info 0) with
    | Some path =>
        let '(pending, size) := size_argument info 1 in
        if size =? 0 then
          r ← platform_listxattr path 0;
          match r with
          | inl errno => returned pending (JBigInt (- errno))
          | inr (result, _) => returned pending (JBigInt (u64 result))
          end
        else
          _ ← vector size;
          r ← platform_listxattr path size;
          match r with
          | inl errno => returned pending (JBigInt (- errno))
          | inr (result, bytes) =>
              let names := ParseAttributeList (read_string size result bytes) in
              returned pending (JObject [("size"%string, JBigInt (u64 result));
                                         ("names"%string, JArray (map JString names))])
          end
    | None => mret None
    end.

Definition RemoveXAttr (info : list js) : calls (option js) :=
  if (length info <? 2)%nat then mret None
  else
    match Utf8Value (argument info 0), Utf8Value (argument info 1) with
    | Some path, Some name =>
        if negb (IsValidAttributeName name) then returned false (JBigInt (- EINVAL))
        else r ← platform_removexattr path name; result_answer false r
    | _, _ => mret None
    end.
End Calls.

(** ** Lists of names *)

Definition name_ok (s : string) : Prop := s <> EmptyString /\ c_str s = s.
(** Names as the kernel lists them, each with its NUL. *)
Fixpoint listed (names : list string) : string :=
  match names with [] => EmptyString | s :: l => (s ++ String "000" (listed l))%string end.
(** Nothing, or a NUL where a name would begin. *)
Definition no_more (rest : string) : Prop :=
  match rest with EmptyString => True | String c _ => c = "000"%char end.

Lemma c_str_app s rest : c_str s = s -> no_more rest -> c_str (s ++ rest) = s.
Proof.
  intros Hs Hr. induction s as [|c s IH]; simpl in *.
  - destruct rest as [|c rest]; [done|]. simpl in *. by subst.
  - destruct (Ascii.eqb c "000"); [discriminate Hs|]. f_equal. apply IH. congruence.
Qed.
Lemma str_take_app s rest : str_take (String.length s) (s ++ rest) = s.
Proof. induction s as [|c s IH]; simpl; [by destruct rest|by rewrite IH]. Qed.
Lemma str_drop_app s rest : str_drop (String.length s) (s ++ rest) = rest.
Proof. induction s; simpl; [by destruct rest|done]. Qed.
Lemma str_drop_app_S s c rest : str_drop (S (String.length s)) (s ++ String c rest) = rest.
Proof. induction s; simpl; [by destruct rest|done]. Qed.
Lemma c_str_idem s : c_str (c_str s) = c_str s.
Proof.
  induction s as [|c s IH]; simpl; [done|]. destruct (Ascii.eqb c "000") eqn:Hc; [done|]. simpl. by rewrite Hc, IH.
Qed.
(** A string is the name it begins with and what ends it. *)
Lemma c_str_split s : exists rest, s = (c_str s ++ rest)%string /\ no_more rest.
Proof.
  induction s as [|c s (rest & Hs & Hr)]; [by exists EmptyString|]. simpl.
  destruct (Ascii.eqb_spec c "000") as [->|]; [by eexists|].
  exists rest. split; [|done]. change (String c s = String c (c_str s ++ rest)). by f_equal.
Qed.

Lemma string_app_inj a b c : (a ++ b)%string = (a ++ c)%string -> b = c.
Proof. induction a as [|x a IH]; [done|]. cbn. intros [= He]. by apply IH. Qed.
Lemma listed_cons s l rest : (listed (s :: l) ++ rest)%string = (s ++ String "000" (listed l ++ rest))%string.
Proof. cbn [listed]. by rewrite string_app_assoc. Qed.

(** Two lists of names before a place where no name begins are the same list. *)
Lemma listed_inj l1 : forall l2 r1 r2,
  Forall name_ok l1 -> Forall name_ok l2 -> no_more r1 -> no_more r2 ->
  (listed l1 ++ r1)%string = (listed l2 ++ r2)%string -> l1 = l2.
Proof.
  assert (forall s l r, name_ok s -> no_more (listed (s :: l) ++ r) -> False) as Hno.
  { intros s l r [Hs Hc] Hr. rewrite listed_cons in Hr. destruct s as [|c s]; [done|]. rewrite string_app_cons in Hr. simpl in Hr. subst c. discriminate Hc. }
  induction l1 as [|s1 l1 IH]; intros [|s2 l2] r1 r2 H1 H2 Hr1 Hr2 He; [done|..].
  - inversion_clear H2. exfalso. eapply Hno; [eassumption|]. rewrite <- He. exact Hr1.
  - inversion_clear H1. exfalso. eapply Hno; [eassumption|]. rewrite He. exact Hr2.
  - inversion_clear H1 as [|? ? [_ Hc1] Hl1]. inversion_clear H2 as [|? ? [_ Hc2] Hl2].
    rewrite !listed_cons in He. pose proof (f_equal c_str He) as Hs. rewrite !c_str_app in Hs by done.
    subst s2. f_equal. apply string_app_inj in He. injection He as He. by apply (IH l2 r1 r2).
Qed.
Lemma parse_names_nil fuel : parse_names fuel EmptyString = [].
Proof. by destruct fuel. Qed.
Lemma parse_names_spec fuel : forall ptr, (String.length ptr <= fuel)%nat ->
  let names := parse_names fuel ptr in
  Forall name_ok names /\
  exists rest, (ptr ++ String "000" "")%string = (listed names ++ rest)%string /\ no_more rest.
Proof.
  induction fuel as [|fuel IH]; intros ptr Hlen; cbn [parse_names].
  { destruct ptr; [|simpl in Hlen; lia]. split; [done|]. by exists (String "000" "")%string. }
  unfold strnlen. destruct (c_str_split ptr) as (r0 & Hp & Hr0). pose proof (c_str_idem ptr) as Hid.
  remember (c_str ptr) as name eqn:Hn. clear Hn. subst ptr.
  destruct (Nat.eqb_spec (String.length name) 0) as [H0|H0].
  { destruct name; [|discriminate H0]. split; [done|]. eexists. split; [reflexivity|]. by destruct r0. }
  assert (name_ok name) as Hok by (split; [intros ->; done|done]). rewrite str_take_app.
  destruct r0 as [|c r1].
  - rewrite string_app_nil in *. pose proof (str_drop_app name "") as Hd. rewrite string_app_nil in Hd.
    assert (str_drop (S (String.length name)) name = EmptyString) as ->.
    { clear -Hd. induction name as [|c name IHn]; [done|]. cbn in *. by apply IHn. }
    rewrite parse_names_nil. split; [apply Forall_cons; split; [done|by apply Forall_nil]|]. exists EmptyString. split; [|done].
    by rewrite listed_cons.
  - cbn in Hr0. subst c. rewrite str_drop_app_S. destruct (IH r1) as (Hok1 & rest & He & Hr).
    { rewrite string_length_app in Hlen. simpl in Hlen. lia. }
    split; [by constructor|]. exists rest. split; [|done].
    rewrite listed_cons, string_app_assoc. by rewrite string_app_cons, He.
Qed.

(** The names ParseAttributeList finds in any buffer, terminated or not,
    are the names the buffer begins with, each up to its NUL, to the end of the
    buffer or the first empty name, and no others. *)
Theorem parse_attribute_list_exact buffer names :
  ParseAttributeList buffer = names <->
  Forall name_ok names /\
  exists rest, (buffer ++ String "000" "")%string = (listed names ++ rest)%string /\ no_more rest.
Proof.
  destruct (parse_names_spec (String.length buffer) buffer) as (Hok & rest & He & Hr); [done|].
  fold (ParseAttributeList buffer) in *. split; [intros <-; eauto|].
  intros (Hok' & rest' & He' & Hr'). eapply (listed_inj _ _ rest rest'); [done..|]. congruence.
Qed.

(** ** Sizes *)

Section Sizes.
Context {W : Type} `{XattrCalls W} `{NapiConv}.
Variable vector_ok : Z -> bool.

(** A size that is read at all is read as 0. *)
Lemma size_argument_zero info i : (size_argument info i).2 = 0.
Proof.
  unfold size_argument. destruct (_ <? _)%nat; [|done]. unfold IsNumber. by destruct (argument info i).
Qed.

(** What is left of a program that asks the kernel once, for a length, and answers
    with a number. *)
Definition asks_length {A} (query : W -> io_result A * W) (p : prog W (option js)) : Prop :=
  forall w, exists r w', p w = Done r w' /\ (r = None \/ exists z, r = Some (JBigInt z)) /\
    (w' = w \/ w' = (query w).2).
Lemma asks_nothing {A} (query : W -> io_result A * W) pending z : asks_length query (returned pending (JBigInt z)).
Proof. intros w. destruct pending; do 2 eexists; (split; [reflexivity|]); eauto. Qed.
Lemma asks_nothing_throws {A} (query : W -> io_result A * W) : asks_length query (mret None).
Proof. intros w. do 2 eexists. split; [reflexivity|]. auto. Qed.
Lemma asks_query {A} (query : W -> io_result (Z * A) * W) pending :
  asks_length query (r ← io query;
    match r with
    | inl errno => returned pending (JBigInt (- errno))
    | inr (result, _) => returned pending (JBigInt (u64 result))
    end).
Proof.
  intros w. unfold io, mbind, prog_bind. destruct (query w) as [[errno|[n a]] w'] eqn:Hq;
    destruct pending; do 2 eexists; (split; [reflexivity|]); rewrite ?Hq; eauto.
Qed.

(** C38: whatever JavaScript passes, getxattr and listxattr end, never with the
    attribute's bytes or the names: the answer is an exception or a number, and the
    kernel is asked at most once, for a length.  A size given as a number is an
    exception after the question was asked, and one given as a BigInt is not read. *)
Theorem reads_are_size_queries info :
  let path := default EmptyString (Utf8Value (argument info 0)) in
  let name := default EmptyString (Utf8Value (argument info 1)) in
  asks_length (sys_getxattr (c_str path) (c_str name) 0) (GetXAttr vector_ok info) /\
  asks_length (sys_listxattr (c_str path) 0) (ListXAttr vector_ok info).
Proof.
  intros path name. subst path name. unfold GetXAttr, ListXAttr, platform_getxattr, platform_listxattr.
  pose proof (size_argument_zero info 2) as Hg. pose proof (size_argument_zero info 1) as Hl.
  destruct (size_argument info 2) as [pg sg], (size_argument info 1) as [pl sl]. simpl in Hg, Hl. subst sg sl.
  destruct (Utf8Value (argument info 0)) as [path|], (Utf8Value (argument info 1)) as [name|]; cbn [default Z.eqb];
    repeat match goal with |- context [if ?b then _ else _] => destruct b end;
    auto using asks_nothing, asks_nothing_throws, asks_query.
Qed.
End Sizes.
