(* ===== verification/BufferBridge.v ===== *)
(** * src/buffer_bridge.cc: ArrayBuffers over native memory

    Memory is a set of blocks; an ArrayBuffer covers a part of one.  Freeing a block
    twice and touching a freed one or one outside its bounds are [Throws]; a JavaScript
    exception is the answer [None].  What [aligned_alloc] gives and which lengths
    the engine accepts for external memory are parameters. *)
From S2P Require Import Prelude Errno Sys Napi BufCopy.

(** Who releases the memory of an ArrayBuffer when it is collected: the finalizer of
    this file, the engine, or nobody. *)
Inductive release := Finalizer | Engine | Nobody.
#[export] Instance release_eq_dec : EqDecision release.
Proof. solve_decision. Defined.
Record block := { bytes : list Z; live : bool }.
Record array_buffer := { block_of : nat; start_of : Z; byteLength : Z; released_by : release }.
(** [hints] counts the finalizer hints allocated and not deleted, [refused] the blocks
    of buffers the engine refused. *)
Record heap := { blocks : gmap nat block; buffers : gmap nat array_buffer; hints : Z; refused : gset nat }.
Definition set_blocks (m : gmap nat block) (h : heap) : heap :=
  {| blocks := m; buffers := buffers h; hints := hints h; refused := refused h |}.
Definition set_buffers (m : gmap nat array_buffer) (h : heap) : heap :=
  {| blocks := blocks h; buffers := m; hints := hints h; refused := refused h |}.
Definition set_hints (n : Z) (h : heap) : heap :=
  {| blocks := blocks h; buffers := buffers h; hints := n; refused := refused h |}.
Definition set_refused (s : gset nat) (h : heap) : heap :=
  {| blocks := blocks h; buffers := buffers h; hints := hints h; refused := s |}.
Definition empty_heap : heap := {| blocks := ∅; buffers := ∅; hints := 0; refused := ∅ |}.

(** An argument or a result: an ArrayBuffer by its identity, or another value. *)
Inductive arg := Buf (id : nat) | Val (v : js).

(** ** Views, copies and comparisons of raw memory

    A null pointer is [None]; the memory a pointer reaches is its bytes. *)

Record BufferView := { v_data : option Z; v_size : Z; v_offset : Z }.
Definition CreateBufferView (data : option Z) (length offset size : Z) : BufferView :=
  match data with
  | None => {| v_data := None; v_size := 0; v_offset := 0 |}
  | Some p =>
      let actualOffset := Z.min offset length in
      let maxSize := length - actualOffset in
      let actualSize := if size =? UINT64_MAX then maxSize else Z.min size maxSize in
      {| v_data := Some (p + actualOffset); v_size := actualSize; v_offset := actualOffset |}
  end.

(** The copy of small buffers, from byte [i] on. *)
Fixpoint copy_bytes (n i : nat) (dest src : list Z) : list Z :=
  match n with
  | O => dest
  | S n => copy_bytes n (S i) (<[i := default 0 (src !! i)]> dest) src
  end.
Definition memcpy (dest src : list Z) (n : nat) : list Z := take n src ++ drop n dest.
Definition CopyBuffer (dest : option (list Z)) (destSize : Z) (src : option (list Z)) (srcSize : Z)
    : Z * option (list Z) :=
  match dest, src with
  | Some d, Some s =>
      let copySize := Z.min destSize srcSize in
      if copySize =? 0 then (0, dest)
      else if 1024 <=? copySize then (copySize, Some (memcpy d s (Z.to_nat copySize)))
      else (copySize, Some (copy_bytes (Z.to_nat copySize) 0 d s))
  | _, _ => (0, dest)
  end.
Definition FillBuffer (buffer : option (list Z)) (size value : Z) : Z * option (list Z) :=
  match buffer with
  | Some b => if size =? 0 then (0, buffer)
              else (size, Some (replicate (Z.to_nat size) value ++ drop (Z.to_nat size) b))
  | None => (0, None)
  end.
Fixpoint memcmp (n : nat) (a b : list Z) : Z :=
  match n, a, b with
  | S n, x :: a, y :: b => if x =? y then memcmp n a b else x - y
  | _, _, _ => 0
  end.
Definition CompareBuffers (buf1 buf2 : option (list Z)) (size : Z) : Z :=
  match buf1, buf2 with
  | None, None => 0
  | Some _, None => 1
  | None, Some _ => -1
  | Some a, Some b => if size =? 0 then 0 else memcmp (Z.to_nat size) a b
  end.

Section Buffers.
Context `{NapiConv}.
Variable aligned_alloc : Z -> option (list Z).
Variable external_ok : Z -> bool.
Abbreviation mem := (prog heap).

(** ** Memory *)

Definition new_block (l : list Z) : mem nat := fun h =>
  let p := fresh (dom (blocks h)) in Done p (set_blocks (<[p := {| bytes := l; live := true |}]> (blocks h)) h).
Definition free (p : nat) : mem unit := fun h =>
  match blocks h !! p with
  | Some b => if live b then Done tt (set_blocks (<[p := {| bytes := bytes b; live := false |}]> (blocks h)) h)
              else Throws h
  | None => Throws h
  end.
Definition new_buffer (b : array_buffer) : mem arg := fun h =>
  let id := fresh (dom (buffers h)) in Done (Buf id) (set_buffers (<[id := b]> (buffers h)) h).
(** [Napi::ArrayBuffer::New(env, n)]: memory of the engine, cleared. *)
Definition engine_buffer (n : Z) : mem arg :=
  p ← new_block (replicate (Z.to_nat n) 0);
  new_buffer {| block_of := p; start_of := 0; byteLength := n; released_by := Engine |}.

(** ** Creating buffers *)

Definition throw : mem (option arg) := mret None.
Definition new_hint (d : Z) : mem unit := pmodify (fun h => set_hints (hints h + d) h).

(** [finalizer] frees the block when there is one; without a hint the static
    finalizer does nothing. *)
Definition CreateExternalBuffer (data : option nat) (length : Z) (finalizer : bool) : mem (option arg) :=
  match data with
  | None => throw
  | Some p =>
      if length =? 0 then b ← engine_buffer 0; mret (Some b)
      else
        _ ← (if finalizer then new_hint 1 else mret tt);
        if external_ok length then
          b ← new_buffer {| block_of := p; start_of := 0; byteLength := length;
                            released_by := if finalizer then Finalizer else Nobody |};
          mret (Some b)
        else
          _ ← (if finalizer then new_hint (-1) else mret tt);
          _ ← pmodify (fun h => set_refused ({[p]} ∪ refused h) h);
          throw
  end.
Definition page_rounded (length : Z) : Z := Z.land (u64 (length + 4095)) (u64 (Z.lnot 4095)).
Definition CreateManagedBuffer (length : Z) : mem (option arg) :=
  if length =? 0 then b ← engine_buffer 0; mret (Some b)
  else match aligned_alloc (page_rounded length) with
       | None => throw
       | Some l => p ← new_block l; CreateExternalBuffer (Some p) length true
       end.
(** The collection of an ArrayBuffer. *)
Definition ExternalBufferFinalizer (b : array_buffer) : mem unit :=
  match released_by b with
  | Finalizer => _ ← free (block_of b); new_hint (-1)
  | _ => mret tt
  end.

(** ** Validation, slices and statistics *)

(** [None] is the empty handle. *)
Definition ValidateBuffer (buffer : option array_buffer) (requiredSize : Z) : bool :=
  match buffer with None => requiredSize =? 0 | Some b => requiredSize <=? byteLength b end.
Definition ValidateBufferRange (buffer : option array_buffer) (offset length : Z) : bool :=
  match buffer with
  | None => (offset =? 0) && (length =? 0)
  | Some b =>
      let bufferSize := byteLength b in
      if bufferSize <? offset then false else if u64 (bufferSize - offset) <? length then false else true
  end.
Definition CreateBufferSlice (b : array_buffer) (offset length : Z) : mem (option arg) :=
  if negb (ValidateBufferRange (Some b) offset length) then throw
  else if length =? 0 then b ← engine_buffer 0; mret (Some b)
  else if external_ok length then
    s ← new_buffer {| block_of := block_of b; start_of := start_of b + offset; byteLength := length;
                      released_by := Nobody |};
    mret (Some s)
  else throw.
Record BufferStats := { bs_size : Z; isExternal : bool; isDetached : bool }.
Definition GetBufferStats (buffer : option array_buffer) : BufferStats :=
  match buffer with
  | None => {| bs_size := 0; isExternal := false; isDetached := false |}
  | Some b => {| bs_size := byteLength b; isExternal := true; isDetached := false |}
  end.

(** ** Exported functions *)

Inductive buffer_function :=
  | CreateExternalBuffer_ | CreateManagedBuffer_ | ValidateBuffer_ | ValidateBufferRange_
  | CreateBufferSlice_ | GetBufferStats_.
Definition argument (info : list arg) (i : nat) : arg := default (Val JUndefined) (info !! i).
Definition SafeU64 (a : arg) : option Z := match a with Val v => SafeGetBigIntU64 v | Buf _ => None end.
Definition array_buffer_at (a : arg) (h : heap) : option array_buffer :=
  match a with Buf id => buffers h !! id | Val _ => None end.

Definition js_ranged (info : list arg) (k : array_buffer -> Z -> Z -> mem (option arg)) : mem (option arg) :=
  if (length info <? 3)%nat then throw
  else
    h ← pget;
    match array_buffer_at (argument info 0) h with
    | None => throw
    | Some b =>
        match SafeU64 (argument info 1), SafeU64 (argument info 2) with
        | Some offset, Some length => k b offset length
        | _, _ => throw
        end
    end.
Definition js_sized (least : nat) (info : list arg) : mem (option arg) :=
  if (length info <? least)%nat then throw
  else match SafeU64 (argument info 0) with Some length => CreateManagedBuffer length | None => throw end.
Definition js_ValidateBuffer (info : list arg) : mem (option arg) :=
  if (length info <? 2)%nat then throw
  else
    h ← pget;
    match array_buffer_at (argument info 0) h with
    | None => throw
    | Some b =>
        match SafeU64 (argument info 1) with
        | Some requiredSize => mret (Some (Val (JBoolean (ValidateBuffer (Some b) requiredSize))))
        | None => throw
        end
    end.
Definition js_GetBufferStats (info : list arg) : mem (option arg) :=
  if (length info <? 1)%nat then throw
  else
    h ← pget;
    match array_buffer_at (argument info 0) h with
    | None => throw
    | Some b =>
        let stats := GetBufferStats (Some b) in
        mret (Some (Val (JObject [("size"%string, JBigInt (bs_size stats));
                                  ("isExternal"%string, JBoolean (isExternal stats));
                                  ("isDetached"%string, JBoolean (isDetached stats))])))
    end.
Definition js_buffer_call (f : buffer_function) (info : list arg) : mem (option arg) :=
  match f with
  | CreateExternalBuffer_ => js_sized 2 info
  | CreateManagedBuffer_ => js_sized 1 info
  | ValidateBuffer_ => js_ValidateBuffer info
  | ValidateBufferRange_ =>
      js_ranged info (fun b offset length => mret (Some (Val (JBoolean (ValidateBufferRange (Some b) offset length)))))
  | CreateBufferSlice_ => js_ranged info CreateBufferSlice
  | GetBufferStats_ => js_GetBufferStats info
  end.

(** ** What JavaScript does with buffers *)

Inductive op :=
  | OpCall (f : buffer_function) (info : list arg)
  | OpNew (n : Z)
  | OpGet (id : nat) (i : Z)
  | OpSet (id : nat) (i v : Z)
  | OpCollect (id : nat).

(** The byte [i] of an ArrayBuffer; JavaScript itself checks [i] against the length. *)
Definition at_byte {A} (id : nat) (i : Z) (none : A) (k : nat -> block -> nat -> mem A) : mem A :=
  h ← pget;
  match buffers h !! id with
  | Some b =>
      if (0 <=? i) && (i <? byteLength b) then
        match blocks h !! block_of b with
        | Some m => if live m && (start_of b + i <? lenZ (bytes m)) then k (block_of b) m (Z.to_nat (start_of b + i))
                    else pthrow
        | None => pthrow
        end
      else mret none
  | None => mret none
  end.
Definition run_op (o : op) : mem (option arg) :=
  match o with
  | OpCall f info => js_buffer_call f info
  | OpNew n => if (0 <=? n) && (n <? 2 ^ 53) then b ← engine_buffer n; mret (Some b) else throw
  | OpGet id i =>
      at_byte id i (Some (Val JUndefined)) (fun _ m j => mret (Some (Val (JNumber (dbl (default 0 (bytes m !! j)))))))
  | OpSet id i v =>
      at_byte id i (Some (Val JUndefined)) (fun p m j =>
        _ ← pmodify (fun h => set_blocks (<[p := {| bytes := <[j := u8 v]> (bytes m); live := true |}]> (blocks h)) h);
        mret (Some (Val JUndefined)))
  | OpCollect id =>
      h ← pget;
      match buffers h !! id with
      | None => mret None
      | Some b =>
          _ ← pmodify (fun h => set_buffers (delete id (buffers h)) h);
          _ ← ExternalBufferFinalizer b;
          _ ← (if bool_decide (released_by b = Engine) then free (block_of b) else mret tt);
          mret None
      end
  end.
Fixpoint run_ops (l : list op) : mem unit :=
  match l with [] => mret tt | o :: l => _ ← run_op o; run_ops l end.
End Buffers.

(** ** Raw memory *)

(** A view lies inside its buffer, and is as long as was asked where that fits. *)
Lemma buffer_view_inside p length offset size :
  0 <= length <= UINT64_MAX -> 0 <= offset -> 0 <= size <= UINT64_MAX ->
  let v := CreateBufferView (Some p) length offset size in
  0 <= v_offset v /\ 0 <= v_size v /\ v_offset v + v_size v <= length /\ v_data v = Some (p + v_offset v) /\
  (offset + size <= length -> v_offset v = offset /\ v_size v = size).
Proof.
  intros Hl Ho Hs. cbn. destruct (Z.eqb_spec size UINT64_MAX) as [->|]; repeat split; lia.
Qed.

Lemma copy_bytes_spec n : forall i dest src,
  (i + n <= length src)%nat -> (i + n <= length dest)%nat ->
  copy_bytes n i dest src = take i dest ++ take n (drop i src) ++ drop (i + n) dest.
Proof.
  induction n as [|n IH]; intros i dest src Hs Hd; cbn [copy_bytes].
  - by rewrite Nat.add_0_r, take_0, app_nil_l, take_drop.
  - rewrite IH by (rewrite ?length_insert; lia).
    destruct (lookup_lt_is_Some_2 src i) as [x Hx]; [lia|].
    rewrite (drop_S src x i Hx), Hx. cbn [default take].
    rewrite (take_S_r _ _ x) by (rewrite list_lookup_insert_eq by lia; done).
    rewrite take_insert_ge, drop_insert_lt by lia. rewrite <- !app_assoc. cbn. do 3 f_equal. f_equal. lia.
Qed.
(** Small buffers are copied byte by byte, large ones by memcpy: the same bytes. *)
Lemma copy_is_memcpy dest destSize src srcSize :
  0 <= destSize <= lenZ dest -> 0 <= srcSize <= lenZ src ->
  CopyBuffer (Some dest) destSize (Some src) srcSize =
    (Z.min destSize srcSize, Some (memcpy dest src (Z.to_nat (Z.min destSize srcSize)))).
Proof.
  intros Hd Hs. unfold CopyBuffer, lenZ in *. destruct (Z.eqb_spec (Z.min destSize srcSize) 0) as [Hz|Hz].
  { rewrite Hz. unfold memcpy. simpl. by rewrite drop_0. }
  destruct (1024 <=? _); [done|]. rewrite copy_bytes_spec by lia. unfold memcpy. cbn [take app]. by rewrite drop_0, Nat.add_0_l.
Qed.

(** ** The memory of buffers *)

Definition owns (b : array_buffer) : Prop := released_by b <> Nobody.
Definition finalized (e : nat * array_buffer) : Prop := released_by e.2 = Finalizer.
#[export] Instance finalized_dec e : Decision (finalized e).
Proof. unfold finalized. apply _. Defined.
Definition within (h : heap) (b : array_buffer) : Prop :=
  0 <= start_of b /\ 0 <= byteLength b < 2 ^ 53 /\
  exists m, blocks h !! block_of b = Some m /\ live m = true /\ start_of b + byteLength b <= lenZ (bytes m).

(** Every buffer is inside live memory; a block has at most one owner, which frees it;
    a live block without one is new ([X]) or was refused; the hints are those of the
    buffers that will be finalized. *)
Record heap_ok (X : gset nat) (h : heap) : Prop := {
  ok_within : forall id b, buffers h !! id = Some b -> within h b;
  ok_owner : forall i1 b1 i2 b2, buffers h !! i1 = Some b1 -> buffers h !! i2 = Some b2 ->
    owns b1 -> owns b2 -> block_of b1 = block_of b2 -> i1 = i2;
  ok_loose : forall p, p ∈ X ∪ refused h ->
    p ∈ dom (blocks h) /\ forall id b, buffers h !! id = Some b -> block_of b <> p;
  ok_kept : forall p m, blocks h !! p = Some m -> live m = true ->
    p ∈ X ∪ refused h \/ exists id b, buffers h !! id = Some b /\ block_of b = p /\ owns b;
  ok_new : X ## refused h;
  ok_hints : hints h = Z.of_nat (size (filter finalized (buffers h)));
}.

Lemma heap_ok_empty : heap_ok ∅ empty_heap.
Proof. split; simpl; try (intros *; rewrite lookup_empty; done); [set_solver|set_solver|done]. Qed.

Lemma heap_ok_new_block h l :
  heap_ok ∅ h ->
  let p := fresh (dom (blocks h)) in
  heap_ok {[p]} (set_blocks (<[p := {| bytes := l; live := true |}]> (blocks h)) h).
Proof.
  intros [Hw Ho Hl Hk Hx Hh] p.
  assert (p ∉ dom (blocks h)) as Hp by apply is_fresh. clearbody p. pose proof Hp as Hp'. apply not_elem_of_dom in Hp'.
  assert (forall id b, buffers h !! id = Some b -> block_of b <> p) as Hne.
  { intros id b Hb He. destruct (Hw id b Hb) as (_ & _ & m & Hm & _). congruence. }
  split; cbn; auto.
  - intros id b Hb. destruct (Hw id b Hb) as (? & ? & m & ? & ? & ?). split; [done|]. split; [done|].
    exists m. cbn. rewrite lookup_insert_ne by (intros He; by apply (Hne id b)). done.
  - intros q Hq. destruct (decide (q = p)) as [->|]; [split; [set_solver|done]|].
    destruct (Hl q) as [Hd Hn]; [set_solver|]. split; [set_solver|done].
  - intros q m. destruct (decide (q = p)) as [->|]; [rewrite lookup_insert_eq; set_solver|].
    rewrite lookup_insert_ne by done. intros Hm Hv. destruct (Hk q m Hm Hv); [set_solver|by right].
  - apply disjoint_singleton_l. intros Hr. destruct (Hl p) as [Hd _]; [set_solver|done].
Qed.

(** How a buffer comes to be: it takes over a new block, or borrows one that has its
    owner. *)
Definition placed (X : gset nat) (h : heap) (b : array_buffer) : Prop :=
  within h b /\
  if decide (released_by b = Nobody) then X = ∅ /\ block_of b ∉ refused h else X = {[block_of b]}.
Lemma heap_ok_insert X h h' id b :
  heap_ok X h -> buffers h !! id = None -> placed X h b ->
  blocks h' = blocks h -> buffers h' = <[id := b]> (buffers h) -> refused h' = refused h ->
  hints h' = hints h + (if decide (released_by b = Finalizer) then 1 else 0) ->
  heap_ok ∅ h'.
Proof.
  intros [Hw Ho Hl Hk Hx Hh] Hid [Hb Hp] Eb Ef Er Eh.
  assert (owns b -> forall i c, buffers h !! i = Some c -> block_of c <> block_of b) as Hown.
  { intros Hob. rewrite decide_False in Hp by done. subst X.
    intros i c Hc He. destruct (Hl (block_of b)) as [_ Hn]; [set_solver|]. by apply (Hn i c). }
  assert (block_of b ∉ refused h) as Hbr by (destruct (decide _); [tauto|set_solver]).
  split; unfold within; rewrite ?Eb, ?Ef, ?Er, ?Eh; [..|set_solver|].
  - intros i c. destruct (decide (i = id)) as [->|]; [rewrite lookup_insert_eq; by intros [= <-]|].
    rewrite lookup_insert_ne by done. apply Hw.
  - intros i1 b1 i2 b2. destruct (decide (i1 = id)) as [->|], (decide (i2 = id)) as [->|];
      rewrite ?lookup_insert_eq, ?lookup_insert_ne by done; [done| | |by apply Ho].
    + intros [= <-] H2 H1o H2o Heq. by destruct (Hown H1o i2 b2).
    + intros H1 [= <-] H1o H2o Heq. by destruct (Hown H2o i1 b1).
  - intros p Hq. destruct (Hl p) as [Hd Hn]; [set_solver|]. split; [done|].
    intros i c. destruct (decide (i = id)) as [->|]; [rewrite lookup_insert_eq; intros [= <-]; set_solver|].
    rewrite lookup_insert_ne by done. apply Hn.
  - intros p m Hm Hv. destruct (Hk p m Hm Hv) as [Hq|(i & c & Hc & Hq & Hco)].
    + destruct (decide (released_by b = Nobody)) as [|Hob]; [left; set_solver|].
      destruct (decide (p = block_of b)) as [->|]; [right; exists id, b; by rewrite lookup_insert_eq|set_solver].
    + right. exists i, c. rewrite lookup_insert_ne by congruence. done.
  - rewrite Hh, map_filter_insert. change (finalized (id, b)) with (released_by b = Finalizer).
    destruct (decide (released_by b = Finalizer)).
    + rewrite map_size_insert_None; [lia|]. apply map_lookup_filter_None. by left.
    + rewrite delete_id by done. lia.
Qed.
Lemma heap_ok_refuse p h :
  heap_ok {[p]} h -> heap_ok ∅ (set_refused ({[p]} ∪ refused h) h).
Proof.
  intros [Hw Ho Hl Hk Hx Hh]. split; cbn; [done|done| | |set_solver|done].
  - intros q Hq. apply Hl. set_solver.
  - intros q m Hm Hv. destruct (Hk q m Hm Hv); [left; set_solver|by right].
Qed.
Lemma heap_ok_write h p m l :
  heap_ok ∅ h -> blocks h !! p = Some m -> live m = true -> length l = length (bytes m) ->
  heap_ok ∅ (set_blocks (<[p := {| bytes := l; live := true |}]> (blocks h)) h).
Proof.
  intros [Hw Ho Hl Hk Hx Hh] Hm Hv Hlen. split; cbn; [|done| | |done|done].
  - intros id b Hb. destruct (Hw id b Hb) as (H1 & H2 & m' & Hm' & Hv' & H3). split; [done|]. split; [done|].
    destruct (decide (block_of b = p)) as [He|].
    + exists {| bytes := l; live := true |}. cbn. rewrite He, lookup_insert_eq. repeat split.
      unfold lenZ in *. rewrite Hlen. congruence.
    + exists m'. cbn. by rewrite lookup_insert_ne.
  - intros q Hq. destruct (Hl q Hq). split; [set_solver|done].
  - intros q m'. destruct (decide (q = p)) as [->|]; [intros _ _; by apply (Hk p m)|].
    rewrite lookup_insert_ne by done. apply Hk.
Qed.
(** A buffer nobody else shares its block with, or one that only borrows it. *)
Definition collectable (h : heap) (id : nat) : Prop :=
  match buffers h !! id with
  | Some b => owns b -> map_Forall (fun i c => block_of c = block_of b -> i = id) (buffers h)
  | None => True
  end.
#[export] Instance owns_dec b : Decision (owns b).
Proof. unfold owns. apply _. Defined.
#[export] Instance collectable_dec h id : Decision (collectable h id).
Proof. unfold collectable. destruct (buffers h !! id); apply _. Defined.
Definition kill (b : array_buffer) (m : gmap nat block) : gmap nat block :=
  if decide (released_by b = Nobody) then m
  else match m !! block_of b with
       | Some c => <[block_of b := {| bytes := bytes c; live := false |}]> m
       | None => m
       end.
Lemma heap_ok_delete h h' id b :
  heap_ok ∅ h -> buffers h !! id = Some b -> collectable h id ->
  blocks h' = kill b (blocks h) -> buffers h' = delete id (buffers h) -> refused h' = refused h ->
  hints h' = hints h - (if decide (released_by b = Finalizer) then 1 else 0) -> heap_ok ∅ h'.
Proof.
  intros [Hw Ho Hl Hk Hx Hh] Hb Hc Eb Ef Er Eh. unfold collectable in Hc. rewrite Hb in Hc.
  assert (forall p, p <> block_of b \/ released_by b = Nobody -> kill b (blocks h) !! p = blocks h !! p) as Hsame.
  { intros p Hp. unfold kill. destruct (decide (released_by b = Nobody)); [done|]. destruct (blocks h !! block_of b) as [k|]; [|done].
    apply lookup_insert_ne. naive_solver. }
  split; unfold within; rewrite ?Eb, ?Ef, ?Er, ?Eh; [..|done|].
  - intros i c. rewrite lookup_delete_Some. intros [Hi Hci]. rewrite Hsame; [by apply (Hw i)|].
    destruct (decide (released_by b = Nobody)); [by right|left]. intros He. by rewrite (Hc n i c Hci He) in Hi.
  - intros i1 b1 i2 b2. rewrite !lookup_delete_Some. intros [_ H1] [_ H2]. by apply Ho.
  - intros p Hp. destruct (Hl p Hp) as [Hd Hn]. split.
    + rewrite elem_of_dom, Hsame; [by apply elem_of_dom|]. left. intros ->. by apply (Hn id b).
    + intros i c. rewrite lookup_delete_Some. intros [_ Hci]. by apply (Hn i).
  - intros p m Hm Hv. destruct (decide (released_by b = Nobody)) as [Hnob|Hown].
    + rewrite Hsame in Hm by auto. destruct (Hk p m Hm Hv) as [|(i & c & Hci & Hp & Hoc)]; [by left|].
      right. exists i, c. rewrite lookup_delete_ne; [done|]. intros ->. congruence.
    + destruct (decide (p = block_of b)) as [->|].
      { exfalso. unfold kill in Hm. rewrite decide_False in Hm by done.
        destruct (Hw id b Hb) as (_ & _ & m' & Hm' & _). rewrite Hm', lookup_insert_eq in Hm. by injection Hm as <-. }
      rewrite Hsame in Hm by auto. destruct (Hk p m Hm Hv) as [|(i & c & Hci & Hp & Hoc)]; [by left|].
      right. exists i, c. rewrite lookup_delete_ne; [done|]. intros ->. congruence.
  - rewrite Hh, map_filter_delete. destruct (decide (released_by b = Finalizer)) as [Hf|Hf].
    + rewrite (map_size_delete_Some) by (exists b; by apply map_lookup_filter_Some).
      assert (size (filter finalized (buffers h)) <> 0)%nat; [|lia].
      apply map_size_ne_0_lookup. exists id, b. by apply map_lookup_filter_Some.
    + rewrite (delete_id (filter _ _)); [lia|]. apply map_lookup_filter_None. right. intros c Hc'.
      by rewrite Hb in Hc'; injection Hc' as <-.
Qed.

Section Safety.
Context `{NapiConv} `{!NapiLaws _}.
Variable aligned_alloc : Z -> option (list Z).
Variable external_ok : Z -> bool.
Hypothesis alloc_size : forall n l, aligned_alloc n = Some l -> lenZ l = n.
Hypothesis external_limit : forall n, external_ok n = true -> n < 2 ^ 53.
Abbreviation safe p := (triple (heap_ok ∅) p (fun _ => heap_ok ∅) (fun _ => False)).

Lemma page_rounded_covers n : 0 <= n < 2 ^ 53 -> n <= page_rounded n.
Proof.
  intros Hn. unfold page_rounded. rewrite (wrapu_small 64 (n + 4095)) by (unfold in_u; lia).
  replace (u64 (Z.lnot 4095)) with (2 ^ 64 - 4096) by reflexivity.
  assert (Z.land (n + 4095) (2 ^ 64 - 4096) = (n + 4095) / 2 ^ 12 * 2 ^ 12) as ->.
  { rewrite <- Z.shiftr_div_pow2, <- Z.shiftl_mul_pow2 by lia. apply Z.bits_inj'. intros i Hi.
    rewrite Z.land_spec, Z.shiftl_spec by lia.
    replace (2 ^ 64 - 4096) with (Z.shiftl (Z.ones 52) 12) by reflexivity. rewrite Z.shiftl_spec by lia.
    destruct (Z.lt_ge_cases i 12); [rewrite !(Z.testbit_neg_r _ (i - 12)) by lia; apply andb_false_r|].
    rewrite Z.shiftr_spec by lia. replace (i - 12 + 12) with i by lia.
    destruct (Z.lt_ge_cases i 64); [rewrite Z.ones_spec_low by lia; apply andb_true_r|].
    rewrite (Z.bits_above_log2 (n + 4095)); [done|lia|].
    apply (Z.le_lt_trans _ 53); [|lia]. apply Z.lt_succ_r, Z.log2_lt_pow2; lia. }
  change (2 ^ 12) with 4096.
  pose proof (Z.div_mod (n + 4095) 4096). pose proof (Z.mod_pos_bound (n + 4095) 4096). lia.
Qed.

Lemma engine_buffer_safe n : 0 <= n < 2 ^ 53 -> safe (engine_buffer n).
Proof.
  intros Hn h Hok. unfold engine_buffer, new_block, new_buffer, mbind, prog_bind.
  eapply (heap_ok_insert _ _ _ _ _ (heap_ok_new_block h (replicate (Z.to_nat n) 0) Hok));
    [apply not_elem_of_dom, is_fresh| |reflexivity..|cbn; rewrite decide_False by done; lia].
  split; [|by rewrite decide_False]. split; [done|]. split; [done|]. eexists. cbn.
  rewrite lookup_insert_eq. split; [done|]. split; [done|]. cbn. unfold lenZ. rewrite length_replicate. lia.
Qed.
Lemma keeps_ret {A} (a : A) : safe (mret a).
Proof. by apply triple_ret. Qed.
Lemma keeps_bind {A B} (p : prog heap A) (k : A -> prog heap B) : safe p -> (forall a, safe (k a)) -> safe (p ≫= k).
Proof. apply triple_bind. Qed.
Lemma keeps_get {A} (k : heap -> prog heap A) :
  (forall h, heap_ok ∅ h -> triple (fun s => s = h) (k h) (fun _ => heap_ok ∅) (fun _ => False)) -> safe (pget ≫= k).
Proof. apply triple_get. Qed.

Lemma managed_safe length : 0 <= length -> safe (CreateManagedBuffer aligned_alloc external_ok length).
Proof.
  intros Hn. unfold CreateManagedBuffer. destruct (Z.eqb_spec length 0) as [->|Hz].
  { apply keeps_bind; [by apply engine_buffer_safe|]. intros b. apply keeps_ret. }
  destruct (aligned_alloc _) as [l|] eqn:Hl; [|apply keeps_ret]. apply alloc_size in Hl.
  intros h Hok. pose proof (heap_ok_new_block h l Hok) as Hnew. unfold mbind, prog_bind, new_block.
  unfold CreateExternalBuffer. destruct (Z.eqb_spec length 0) as [|_]; [done|].
  pose proof (external_limit length) as Hlim.
  destruct (external_ok length) eqn:He; unfold mbind, prog_bind, new_hint, pmodify, new_buffer, mret, prog_ret.
  - eapply (heap_ok_insert _ _ _ _ _ Hnew); [apply not_elem_of_dom, is_fresh| |reflexivity..].
    split; [|by rewrite decide_False]. split; [done|]. split; [cbn; lia|]. eexists. cbn.
    rewrite lookup_insert_eq. split; [done|]. split; [done|]. cbn. rewrite Hl. apply page_rounded_covers. lia.
  - apply heap_ok_refuse in Hnew. destruct Hnew as [? ? ? ? ? Hh]. split; try done. cbn in *. lia.
Qed.

Lemma range_valid b offset length :
  0 <= offset -> 0 <= length -> 0 <= byteLength b < 2 ^ 53 ->
  ValidateBufferRange (Some b) offset length = true <-> offset + length <= byteLength b.
Proof.
  intros Ho Hl Hb. unfold ValidateBufferRange. destruct (Z.ltb_spec (byteLength b) offset); [split; [done|lia]|].
  rewrite wrapu_small by (unfold in_u; lia).
  destruct (Z.ltb_spec (byteLength b - offset) length); split; (done || lia).
Qed.

Lemma slice_safe h id b offset length :
  heap_ok ∅ h -> buffers h !! id = Some b -> 0 <= offset -> 0 <= length ->
  triple (fun s => s = h) (CreateBufferSlice external_ok b offset length) (fun _ => heap_ok ∅) (fun _ => False).
Proof.
  intros Hok Hb Ho Hl s ->. destruct (ok_within _ _ Hok id b Hb) as (H1 & H2 & m & Hm & Hv & H3).
  unfold CreateBufferSlice. destruct (ValidateBufferRange (Some b) offset length) eqn:Hr; [|done].
  apply range_valid in Hr; [|done..]. simpl negb. destruct (Z.eqb_spec length 0) as [->|Hz].
  { apply (keeps_bind (engine_buffer 0)); [by apply engine_buffer_safe|intros; apply keeps_ret|done]. }
  destruct (external_ok length); [|done].
  eapply (heap_ok_insert _ _ _ _ _ Hok); [apply not_elem_of_dom, is_fresh| |reflexivity..|].
  - split.
    + split; [cbn; lia|]. split; [cbn; lia|]. exists m. cbn. split; [done|]. split; [done|lia].
    + rewrite decide_True by done. split; [done|]. cbn. intros Hin.
      destruct (ok_loose _ _ Hok (block_of b)) as [_ Hn]; [set_solver|]. by apply (Hn id b).
  - cbn. rewrite decide_False by done. lia.
Qed.
Lemma safe_u64 a z : SafeU64 a = Some z -> 0 <= z.
Proof.
  destruct a as [|[]]; try discriminate. simpl. unfold SafeGetBigIntU64, bigint_to_u64.
  pose proof (BigUint64_range z0) as Hr. unfold in_u in Hr. destruct (BigUint64Value z0) as [r []]; [|discriminate].
  intros [= <-]. simpl in Hr. lia.
Qed.
Lemma call_safe f info : safe (js_buffer_call aligned_alloc external_ok f info).
Proof.
  assert (forall least, safe (js_sized aligned_alloc external_ok least info)) as Hsized.
  { intros least. unfold js_sized. destruct (_ <? _)%nat; [apply keeps_ret|].
    destruct (SafeU64 _) eqn:Hz; [|apply keeps_ret]. apply managed_safe. by eapply safe_u64. }
  assert (forall k, (forall h b id offset length, heap_ok ∅ h -> buffers h !! id = Some b -> 0 <= offset -> 0 <= length ->
     triple (fun s => s = h) (k b offset length) (fun _ => heap_ok ∅) (fun _ => False)) -> safe (js_ranged info k)) as Hranged.
  { intros k Hk. unfold js_ranged. destruct (_ <? _)%nat; [apply keeps_ret|]. apply keeps_get. intros h Hok.
    destruct (argument info 0) as [id|v]; simpl; [|by apply triple_ret; intros ? ->].
    destruct (buffers h !! id) as [b|] eqn:Hb; [|by apply triple_ret; intros ? ->].
    destruct (SafeU64 _) eqn:Ho, (SafeU64 (argument info 2)) eqn:Hl; try (by apply triple_ret; intros ? ->).
    eapply Hk; [done|exact Hb|by eapply safe_u64..]. }
  destruct f; simpl; [apply Hsized|apply Hsized| | | |].
  - unfold js_ValidateBuffer. destruct (_ <? _)%nat; [apply keeps_ret|]. apply keeps_get. intros h Hok s ->.
    by destruct (array_buffer_at (argument info 0) h), (SafeU64 (argument info 1)).
  - apply Hranged. intros *. intros Hok _ _ _. by apply triple_ret; intros ? ->.
  - apply Hranged. intros *. apply slice_safe.
  - unfold js_GetBufferStats. destruct (_ <? _)%nat; [apply keeps_ret|]. apply keeps_get. intros h Hok s ->.
    by destruct (array_buffer_at (argument info 0) h).
Qed.

Lemma at_byte_safe {A} id i (none : A) k :
  (forall h p m j, heap_ok ∅ h -> blocks h !! p = Some m -> live m = true -> (j < length (bytes m))%nat ->
     triple (fun s => s = h) (k p m j) (fun _ => heap_ok ∅) (fun _ => False)) ->
  safe (at_byte id i none k).
Proof.
  intros Hk. apply keeps_get. intros h Hok. destruct (buffers h !! id) as [b|] eqn:Hb; [|by apply triple_ret; intros ? ->].
  destruct ((0 <=? i) && (i <? byteLength b)) eqn:Hi; [|by apply triple_ret; intros ? ->].
  destruct (ok_within _ _ Hok id b Hb) as (H1 & H2 & m & Hm & Hv & H3). rewrite Hm, Hv. simpl.
  destruct (Z.ltb_spec (start_of b + i) (lenZ (bytes m))); [|lia].
  apply Hk; [done..|]. unfold lenZ in *. lia.
Qed.
Lemma collect_safe h id :
  heap_ok ∅ h -> collectable h id ->
  triple (fun s => s = h) (run_op aligned_alloc external_ok (OpCollect id)) (fun _ => heap_ok ∅) (fun _ => False).
Proof.
  intros Hok Hc s ->. cbn [run_op]. unfold pget, mbind at 1, prog_bind at 1. cbv beta iota.
  destruct (buffers h !! id) as [b|] eqn:Hb; [|done].
  destruct (ok_within _ _ Hok id b Hb) as (_ & _ & m & Hm & Hv & _).
  pose proof (fun h' => heap_ok_delete h h' id b Hok Hb Hc) as Hdel. unfold kill in Hdel. rewrite Hm in Hdel.
  unfold ExternalBufferFinalizer, mbind, prog_bind, pmodify, free, new_hint.
  destruct (released_by b) eqn:Hrel; case_bool_decide; try done; cbn; rewrite ?Hm, ?Hv; cbn;
    apply Hdel; try done; cbn; rewrite ?decide_False by done; rewrite ?decide_True by done; lia.
Qed.
Lemma op_safe o h :
  heap_ok ∅ h -> match o with OpCollect id => collectable h id | _ => True end ->
  triple (fun s => s = h) (run_op aligned_alloc external_ok o) (fun _ => heap_ok ∅) (fun _ => False).
Proof.
  intros Hok Hc. destruct o as [f info|n|id i|id i v|id]; [| | | |by apply collect_safe];
    (apply (triple_mono (heap_ok ∅) _ _ (fun _ => heap_ok ∅) _ (fun _ => False)); [|by intros s ->|done|done]); cbn [run_op].
  - apply call_safe.
  - destruct (_ && _) eqn:Hn; [|apply keeps_ret]. apply keeps_bind; [apply engine_buffer_safe; lia|]. intros. apply keeps_ret.
  - apply at_byte_safe. intros h' p m j Hok' _ _ _. by apply triple_ret; intros ? ->.
  - apply at_byte_safe. intros h' p m j Hok' Hm Hv Hj s ->. apply (heap_ok_write h' p m); [done..|]. apply length_insert.
Qed.

(** Nothing is collected while a slice of its memory is around. *)
Fixpoint originals_kept (l : list op) (h : heap) : Prop :=
  match l with
  | [] => True
  | o :: l =>
      match o with OpCollect id => collectable h id | _ => True end /\
      match run_op aligned_alloc external_ok o h with Done _ h' => originals_kept l h' | _ => True end
  end.
#[export] Instance originals_kept_dec l : forall h, Decision (originals_kept l h).
Proof.
  induction l as [|o l IH]; intros h; cbn; [apply _|].
  apply and_dec; [destruct o; apply _|]. destruct (run_op _ _ o h); apply _.
Defined.

(** C37: whatever JavaScript does with the exported functions and the buffers, as
    long as no buffer is collected before the slices of its memory, nothing reads,
    writes or frees memory that is not there: every buffer stays inside live memory,
    each block has one owner that frees it once, with its hint, and only the blocks
    of buffers the engine refused are lost. *)
Theorem buffer_memory_is_safe l :
  originals_kept l empty_heap -> exists h, run_ops aligned_alloc external_ok l empty_heap = Done tt h /\ heap_ok ∅ h.
Proof.
  assert (forall h, heap_ok ∅ h -> originals_kept l h ->
    exists h', run_ops aligned_alloc external_ok l h = Done tt h' /\ heap_ok ∅ h') as Hall.
  { induction l as [|o l IH]; intros h Hok Hk; [by exists h|]. destruct Hk as [Hc Hk].
    pose proof (op_safe o h Hok Hc h eq_refl) as Hs. cbn [run_ops]. unfold mbind, prog_bind.
    destruct (run_op _ _ o h) as [r h'|h'|w h']; [|done..]. by apply IH. }
  apply Hall, heap_ok_empty.
Qed.
End Safety.

Definition demo_alloc (n : Z) : option (list Z) := if (0 <=? n) && (n <=? 8192) then Some (replicate (Z.to_nat n) 0) else None.
Definition demo_external (n : Z) : bool := n <? 1048576.
Definition demo_slice : list op :=
  [OpCall CreateManagedBuffer_ [Val (JBigInt 10)];
   OpCall CreateBufferSlice_ [Buf 0; Val (JBigInt 2); Val (JBigInt 5)]; OpSet 1 4 77; OpGet 0 6].
Lemma buffer_memory_is_safe_witness :
  exists h, run_ops (H := napi_ref) demo_alloc demo_external (demo_slice ++ [OpCollect 1; OpCollect 0]) empty_heap = Done tt h /\
            heap_ok ∅ h.
Proof.
  apply (buffer_memory_is_safe (H := napi_ref) (NapiLaws0 := napi_ref_laws)).
  - intros n l. unfold demo_alloc. destruct (_ && _) eqn:Hn; [|discriminate]. intros [= <-].
    unfold lenZ. rewrite length_replicate. lia.
  - intros n. unfold demo_external. lia.
  - apply (bool_decide_unpack (originals_kept (H := napi_ref) demo_alloc demo_external _ _)). vm_compute. exact I.
Defined.

(** A slice does outlive its original: reading it then touches freed memory. *)
Lemma slice_outlives_original :
  match run_ops (H := napi_ref) demo_alloc demo_external (demo_slice ++ [OpCollect 0; OpGet 1 4]) empty_heap with
  | Throws _ => true | _ => false end = true.
Proof. vm_compute. reflexivity. Qed.
