(* ===== verification/InitBridge.v ===== *)
(** * src/init_bridge.cc: what a session learnt when it was initialised

    The singleton with its mutex, the callback libfuse would call, and the functions
    exported to JavaScript.  A thread-safe function is a number; it is in [open]
    until it is aborted.  The callback runs on libfuse's thread in one piece here. *)
From S2P Require Import Prelude Errno Sys Napi LlMount FuseOpt FuseCmdline Lowlevel.

(** ** Data *)

Record FuseConnectionInfo := {
  ci_proto_major : Z; ci_proto_minor : Z; ci_capable : Z; ci_want : Z; ci_max_write : Z; ci_max_read : Z;
  ci_max_readahead : Z; ci_max_background : Z; ci_congestion_threshold : Z; ci_time_gran : Z;
  ci_reserved : list Z;
}.
(** The fields of libfuse's structure that are copied. *)
Record fuse_config := {
  set_gid : Z; gid : Z; set_uid : Z; uid : Z; set_mode : Z; umask : Z;
  entry_timeout : double; negative_timeout : double; attr_timeout : double;
  use_ino : Z; readdir_ino : Z; direct_io : Z; kernel_cache : Z; auto_cache : Z;
  ac_attr_timeout_set : Z; ac_attr_timeout : double; nullpath_ok : Z; show_help : Z; cfg_debug : Z;
}.
(** [FuseConfig]: the same fields; [modules] is not copied. *)
Abbreviation FuseConfig := fuse_config.
Record MountOptions := { available_options : list string; default_options : list string }.

Record InitBridge := {
  connection_info_ : option FuseConnectionInfo; config_ : option FuseConfig;
  init_callback_ : nat; has_callback_ : bool; initialized_ : bool;
  open : gset nat; next_tsfn : nat; posted : list (nat * js * js);
  owned : gset string;
}.
Definition set_info (i : option FuseConnectionInfo) (c : option FuseConfig) (b : InitBridge) : InitBridge :=
  {| connection_info_ := i; config_ := c; init_callback_ := init_callback_ b; has_callback_ := has_callback_ b;
     initialized_ := initialized_ b; open := open b; next_tsfn := next_tsfn b; posted := posted b; owned := owned b |}.
Definition set_callback (f : nat) (has : bool) (op : gset nat) (next : nat) (b : InitBridge) : InitBridge :=
  {| connection_info_ := connection_info_ b; config_ := config_ b; init_callback_ := f; has_callback_ := has;
     initialized_ := initialized_ b; open := op; next_tsfn := next; posted := posted b; owned := owned b |}.
Definition set_initialized (i : bool) (b : InitBridge) : InitBridge :=
  {| connection_info_ := connection_info_ b; config_ := config_ b; init_callback_ := init_callback_ b;
     has_callback_ := has_callback_ b; initialized_ := i; open := open b; next_tsfn := next_tsfn b;
     posted := posted b; owned := owned b |}.
Definition set_posted (l : list (nat * js * js)) (b : InitBridge) : InitBridge :=
  {| connection_info_ := connection_info_ b; config_ := config_ b; init_callback_ := init_callback_ b;
     has_callback_ := has_callback_ b; initialized_ := initialized_ b; open := open b; next_tsfn := next_tsfn b;
     posted := l; owned := owned b |}.
Definition set_owned (h : gset string) (b : InitBridge) : InitBridge :=
  {| connection_info_ := connection_info_ b; config_ := config_ b; init_callback_ := init_callback_ b;
     has_callback_ := has_callback_ b; initialized_ := initialized_ b; open := open b; next_tsfn := next_tsfn b;
     posted := posted b; owned := h |}.
#[export, refine] Instance init_bridge_locks : Locks InitBridge := {| held := owned; set_held := set_owned |}.
Proof. all: by intros; repeat match goal with x : InitBridge |- _ => destruct x end. Defined.
Definition InitBridge0 : InitBridge :=
  {| connection_info_ := None; config_ := None; init_callback_ := 0; has_callback_ := false;
     initialized_ := false; open := ∅; next_tsfn := 1; posted := []; owned := ∅ |}.

Abbreviation bridge := (prog InitBridge).
Abbreviation mutex_ := "mutex_"%string (only parsing).

(** ** The singleton's operations *)

(** [ops] is whether there is a structure to put the callback in; the result is
    whether libfuse has it now. *)
Definition Initialize (ops : bool) : bridge bool :=
  with_lock mutex_ (if ops then _ ← pmodify (set_initialized true); mret true else mret false).
(** [Abort] and [Release] of the callback. *)
Definition drop_callback : bridge unit :=
  pmodify (fun b => set_callback (init_callback_ b) false (open b ∖ {[init_callback_ b]}) (next_tsfn b) b).
Definition SetInitCallback (is_function : bool) : bridge unit :=
  with_lock mutex_
    (if negb is_function then mret tt
     else
       b ← pget;
       _ ← (if has_callback_ b then drop_callback else mret tt);
       pmodify (fun b => set_callback (next_tsfn b) true ({[next_tsfn b]} ∪ open b) (S (next_tsfn b)) b)).
Definition RemoveInitCallback : bridge unit :=
  with_lock mutex_ (b ← pget; if has_callback_ b then drop_callback else mret tt).
Definition GetConnectionInfo : bridge (option FuseConnectionInfo) :=
  with_lock mutex_ (b ← pget; mret (connection_info_ b)).
Definition GetConfig : bridge (option FuseConfig) := with_lock mutex_ (b ← pget; mret (config_ b)).

Definition GetAvailableMountOptions : MountOptions :=
  {| available_options :=
       ["allow_other"; "allow_root"; "auto_unmount"; "default_permissions"; "dev"; "nodev"; "suid"; "nosuid";
        "ro"; "rw"; "exec"; "noexec"; "sync"; "async"; "atime"; "noatime"; "diratime"; "nodiratime"; "relatime";
        "norelatime"; "strictatime"; "nostrictatime"; "uid"; "gid"; "umask"; "entry_timeout"; "negative_timeout";
        "attr_timeout"; "ac_attr_timeout"; "auto_cache"; "noauto_cache"; "cache_timeout"; "max_write"; "max_read";
        "max_readahead"; "async_read"; "sync_read"; "atomic_o_trunc"; "big_writes"; "no_remote_lock";
        "no_remote_flock"; "no_remote_posix_lock"; "splice_write"; "splice_move"; "splice_read"]%string;
     default_options := ["default_permissions"; "auto_unmount"; "async_read"; "atomic_o_trunc"]%string |}.

Definition CheckCapabilities (caps : list Z) : bridge bool :=
  with_lock mutex_
    (b ← pget;
     mret (match connection_info_ b with
           | None => false
           | Some i => forallb (fun cap => negb (Z.land (ci_capable i) cap =? 0)) caps
           end)).

(** The flag of a capability is 2 to its bit. *)
Definition capability_names : list (Z * string) :=
  [(0, "ASYNC_READ"); (1, "POSIX_LOCKS"); (3, "ATOMIC_O_TRUNC"); (4, "EXPORT_SUPPORT"); (6, "DONT_MASK");
   (7, "SPLICE_WRITE"); (8, "SPLICE_MOVE"); (9, "SPLICE_READ"); (10, "FLOCK_LOCKS"); (11, "IOCTL_DIR");
   (12, "AUTO_INVAL_DATA"); (13, "READDIRPLUS"); (14, "READDIRPLUS_AUTO"); (15, "ASYNC_DIO");
   (16, "WRITEBACK_CACHE"); (17, "NO_OPEN_SUPPORT"); (18, "PARALLEL_DIROPS"); (19, "POSIX_ACL");
   (20, "HANDLE_KILLPRIV"); (21, "HANDLE_KILLPRIV_V2"); (23, "CACHE_SYMLINKS"); (24, "NO_OPENDIR_SUPPORT");
   (25, "EXPLICIT_INVAL_DATA"); (26, "EXPIRE_ONLY"); (27, "SETXATTR_EXT"); (28, "DIRECT_IO_ALLOW_MMAP");
   (29, "PASSTHROUGH"); (30, "NO_EXPORT_SUPPORT")]%string.
Definition names_of (capable : Z) : list string :=
  omap (fun c : Z * string => if has_flag capable (2 ^ c.1) then Some c.2 else None) capability_names.
Definition GetCapabilityNames : bridge (list string) :=
  with_lock mutex_
    (b ← pget; mret (match connection_info_ b with None => [] | Some i => names_of (ci_capable i) end)).

Definition Reset : bridge unit :=
  with_lock mutex_
    (b ← pget;
     _ ← (if has_callback_ b then drop_callback else mret tt);
     _ ← pmodify (set_info None None);
     pmodify (set_initialized false)).

(** ** The callback of libfuse *)

Definition ConvertConnectionInfo (conn : option (fuse_conn_info * list Z)) : option FuseConnectionInfo :=
  match conn with
  | None => None
  | Some (c, reserved) => Some {|
      ci_proto_major := proto_major c; ci_proto_minor := proto_minor c; ci_capable := capable c; ci_want := want c;
      ci_max_write := max_write c; ci_max_read := max_read c; ci_max_readahead := max_readahead c;
      ci_max_background := max_background c; ci_congestion_threshold := congestion_threshold c;
      ci_time_gran := time_gran c; ci_reserved := take 22 reserved |}
  end.
Definition ConvertConfig (cfg : option fuse_config) : option FuseConfig := cfg.

Definition num (z : Z) : js := JNumber (dbl z).
(** The capability array: one flag per bit, lowest first. *)
Definition cap_list (capable : Z) : list Z :=
  filter (fun f => has_flag capable f = true) (map (fun i => 2 ^ Z.of_nat i) (seq 0 32)).
Definition connection_object (i : FuseConnectionInfo) : js :=
  JObject [("protoMajor", num (ci_proto_major i)); ("protoMinor", num (ci_proto_minor i));
           ("capable", num (ci_capable i)); ("want", num (ci_want i)); ("maxWrite", num (ci_max_write i));
           ("maxRead", num (ci_max_read i)); ("maxReadahead", num (ci_max_readahead i));
           ("maxBackground", num (ci_max_background i));
           ("congestionThreshold", num (ci_congestion_threshold i)); ("timeGranNs", num (ci_time_gran i));
           ("caps", JArray (map num (cap_list (ci_capable i))))]%string.
Definition config_object (c : FuseConfig) : js :=
  JObject [("setGid", num (set_gid c)); ("gid", num (gid c)); ("setUid", num (set_uid c)); ("uid", num (uid c));
           ("setMode", num (set_mode c)); ("umask", num (umask c)); ("entryTimeout", JNumber (entry_timeout c));
           ("negativeTimeout", JNumber (negative_timeout c)); ("attrTimeout", JNumber (attr_timeout c));
           ("useIno", num (use_ino c)); ("readdirIno", num (readdir_ino c)); ("directIo", num (direct_io c));
           ("kernelCache", num (kernel_cache c)); ("autoCache", num (auto_cache c));
           ("acAttrTimeoutSet", num (ac_attr_timeout_set c)); ("acAttrTimeout", JNumber (ac_attr_timeout c));
           ("nullpathOk", num (nullpath_ok c)); ("showHelp", num (show_help c)); ("debug", num (cfg_debug c))]%string.

(** A call through a thread-safe function that has been released touches freed
    memory. *)
Definition BlockingCall (f : nat) (conn cfg : js) : bridge unit := fun b =>
  if bool_decide (f ∈ open b) then Done tt (set_posted (posted b ++ [(f, conn, cfg)]) b) else Throws b.
Definition CallJavaScriptCallback (i : FuseConnectionInfo) (c : FuseConfig) : bridge unit :=
  has ← with_lock mutex_ (b ← pget; mret (has_callback_ b));
  if has : bool then b ← pget; BlockingCall (init_callback_ b) (connection_object i) (config_object c)
  else mret tt.
Definition FuseInitCallback (conn : option (fuse_conn_info * list Z)) (cfg : option fuse_config) : bridge unit :=
  match conn, cfg with
  | Some _, Some _ =>
      _ ← with_lock mutex_ (pmodify (set_info (ConvertConnectionInfo conn) (ConvertConfig cfg)));
      b ← pget;
      match connection_info_ b, config_ b with
      | Some i, Some c => if has_callback_ b then CallJavaScriptCallback i c else mret tt
      | _, _ => mret tt
      end
  | _, _ => mret tt
  end.

(** ** Exported functions *)

Inductive init_function :=
  | InitializeInitBridge | SetInitCallback_ | RemoveInitCallback_ | GetConnectionInfo_ | GetFuseConfig_
  | GetAvailableMountOptions_ | CheckCapabilities_ | GetCapabilityNames_ | ResetInitBridge.
Definition strings (l : list string) : js := JArray (map JString l).
Definition or_null {A} (f : A -> js) (o : option A) : js := match o with Some a => f a | None => JNull end.

Section Exported.
Context `{NapiConv}.

(** [None] is an exception. *)
Definition js_init_call (f : init_function) (info : list js) : bridge (option js) :=
  match f with
  | InitializeInitBridge => mret (Some JUndefined)
  | SetInitCallback_ =>
      match info with
      | JFunction :: _ => _ ← SetInitCallback true; mret (Some JUndefined)
      | _ => mret None
      end
  | RemoveInitCallback_ => _ ← RemoveInitCallback; mret (Some JUndefined)
  | GetConnectionInfo_ => i ← GetConnectionInfo; mret (Some (or_null connection_object i))
  | GetFuseConfig_ => c ← GetConfig; mret (Some (or_null config_object c))
  | GetAvailableMountOptions_ =>
      let options := GetAvailableMountOptions in
      mret (Some (JObject [("available", strings (available_options options));
                           ("defaults", strings (default_options options))]%string))
  | CheckCapabilities_ =>
      match info with
      | JArray caps_array :: _ =>
          r ← CheckCapabilities (omap (fun v => match v with JNumber d => Some (Uint32Value d) | _ => None end) caps_array);
          mret (Some (JBoolean r))
      | _ => mret None
      end
  | GetCapabilityNames_ => names ← GetCapabilityNames; mret (Some (strings names))
  | ResetInitBridge => _ ← Reset; mret (Some JUndefined)
  end.

(** What happens to the bridge: a call from JavaScript, or an INIT of the kernel, which
    reaches the bridge only if libfuse has its callback. *)
Inductive event := Called (f : init_function) (info : list js) | Inited (conn : fuse_conn_info) (reserved : list Z) (cfg : fuse_config).
Definition happen (installed : bool) (e : event) : bridge (option js) :=
  match e with
  | Called f info => js_init_call f info
  | Inited conn reserved cfg =>
      _ ← (if installed then FuseInitCallback (Some (conn, reserved)) (Some cfg) else mret tt); mret None
  end.
Fixpoint happens (installed : bool) (l : list event) : bridge (list (option js)) :=
  match l with
  | [] => mret []
  | e :: l => r ← happen installed e; rs ← happens installed l; mret (r :: rs)
  end.

(** ** What the bridge knows *)

(** The last INIT that no reset followed. *)
Definition learnt (k : option (FuseConnectionInfo * FuseConfig)) (e : event) : option (FuseConnectionInfo * FuseConfig) :=
  match e with
  | Called ResetInitBridge _ => None
  | Called _ _ => k
  | Inited conn reserved cfg => i ← ConvertConnectionInfo (Some (conn, reserved)); Some (i, cfg)
  end.
(** The bridge knows [k], and of all the thread-safe functions made exactly the
    registered one is open. *)
Definition knows (k : option (FuseConnectionInfo * FuseConfig)) (b : InitBridge) : Prop :=
  connection_info_ b = fst <$> k /\ config_ b = snd <$> k /\
  open b = (if has_callback_ b then {[init_callback_ b]} else ∅).
Abbreviation rests k := (fun b => held b = ∅ /\ knows k b).

(** An operation under the mutex that never fails: its effect on the rest. *)
Lemma locked_op {A} k (body : bridge A) (Q : A -> InitBridge -> Prop) :
  (forall a, lock_blind (Q a)) ->
  (forall b, knows k b -> exists a b', body b = Done a b' /\ owned b' = owned b /\ Q a b') ->
  triple (rests k) (with_lock mutex_ body) (fun a b => held b = ∅ /\ Q a b) (fun _ => False).
Proof.
  intros HQ Hb. apply triple_lock; [set_solver|by intros h b|done|].
  intros b [Ho Hk]. destruct (Hb b Hk) as (a & b' & -> & Ho' & Hq). cbn in *. by rewrite Ho'.
Qed.
Ltac operation b Hk := apply locked_op; [by intros ??|intros b Hk]; unfold mbind, prog_bind, pget.

Lemma knows_drop k b : knows k b -> has_callback_ b = true -> exists b', drop_callback b = Done tt b' /\ owned b' = owned b /\
  knows k b' /\ open b' = ∅ /\ has_callback_ b' = false.
Proof.
  intros (Hi & Hc & Ho) Hh. rewrite Hh in Ho. eexists. split; [reflexivity|].
  unfold knows. cbn. rewrite Ho. repeat split; try done; set_solver.
Qed.
Lemma set_callback_ok k f : triple (rests k) (SetInitCallback f) (fun _ => rests k) (fun _ => False).
Proof.
  operation b Hk. destruct f; cbn [negb]; [|by do 2 eexists].
  destruct (has_callback_ b) eqn:Hb.
  - destruct (knows_drop k b Hk Hb) as (b' & -> & Hw & (Hi & Hc & _) & Hop & _). do 2 eexists. split; [reflexivity|].
    split; [done|]. unfold knows. cbn. rewrite Hop. repeat split; try done. set_solver.
  - destruct Hk as (Hi & Hc & Ho). rewrite Hb in Ho. do 2 eexists. split; [reflexivity|]. split; [done|].
    unfold knows. cbn. rewrite Ho. repeat split; try done. set_solver.
Qed.
Lemma remove_callback_ok k : triple (rests k) RemoveInitCallback (fun _ => rests k) (fun _ => False).
Proof.
  operation b Hk. destruct (has_callback_ b) eqn:Hb; [|by do 2 eexists].
  destruct (knows_drop k b Hk Hb) as (b' & -> & Hw & Hk' & _). by do 2 eexists.
Qed.
Lemma reset_ok k : triple (rests k) Reset (fun _ => rests None) (fun _ => False).
Proof.
  operation b Hk. destruct (has_callback_ b) eqn:Hb.
  - destruct (knows_drop k b Hk Hb) as (b' & -> & Hw & (_ & _ & Hk') & Hop & Hh). do 2 eexists. split; [reflexivity|].
    split; [done|]. unfold knows. cbn. by rewrite Hop, Hh.
  - destruct Hk as (_ & _ & Ho). do 2 eexists. split; [reflexivity|]. split; [done|]. unfold knows. cbn. by rewrite Ho, Hb.
Qed.
(** A question under the mutex. *)
Lemma ask_ok {A} k (f : InitBridge -> A) v :
  (forall b, knows k b -> f b = v) ->
  triple (rests k) (with_lock mutex_ (b ← pget; mret (f b)))
    (fun a b => held b = ∅ /\ (a = v /\ knows k b)) (fun _ => False).
Proof. intros Hf. operation b Hk. do 2 eexists. split; [reflexivity|]. auto. Qed.

(** ** The bridge as a function of what it learnt *)

Definition answer (k : option (FuseConnectionInfo * FuseConfig)) (f : init_function) (info : list js) : option js :=
  match f with
  | SetInitCallback_ => match info with JFunction :: _ => Some JUndefined | _ => None end
  | InitializeInitBridge | RemoveInitCallback_ | ResetInitBridge => Some JUndefined
  | GetConnectionInfo_ => Some (or_null connection_object (fst <$> k))
  | GetFuseConfig_ => Some (or_null config_object (snd <$> k))
  | GetAvailableMountOptions_ =>
      Some (JObject [("available", strings (available_options GetAvailableMountOptions));
                     ("defaults", strings (default_options GetAvailableMountOptions))]%string)
  | CheckCapabilities_ =>
      match info with
      | JArray l :: _ =>
          let caps := omap (fun v => match v with JNumber d => Some (Uint32Value d) | _ => None end) l in
          Some (JBoolean (match fst <$> k with
                          | None => false
                          | Some i => forallb (fun cap => negb (Z.land (ci_capable i) cap =? 0)) caps
                          end))
      | _ => None
      end
  | GetCapabilityNames_ => Some (strings (match fst <$> k with None => [] | Some i => names_of (ci_capable i) end))
  end.
Definition after_event (installed : bool) (k : option (FuseConnectionInfo * FuseConfig)) (e : event) :
    option (FuseConnectionInfo * FuseConfig) :=
  match e with Inited _ _ _ => if installed then learnt k e else k | _ => learnt k e end.
Fixpoint answers (installed : bool) (k : option (FuseConnectionInfo * FuseConfig)) (l : list event) : list (option js) :=
  match l with
  | [] => []
  | e :: l => match e with Called f info => answer k f info | Inited _ _ _ => None end ::
              answers installed (after_event installed k e) l
  end.

Lemma js_call_ok k f info :
  triple (rests k) (js_init_call f info)
    (fun r b => held b = ∅ /\ (r = answer k f info /\ knows (learnt k (Called f info)) b)) (fun _ => False).
Proof.
  assert (forall A (m : bridge A) (g : A -> option js) v k', triple (rests k) m (fun _ => rests k') (fun _ => False) ->
    (forall a, g a = v) -> triple (rests k) (a ← m; mret (g a)) (fun r b => held b = ∅ /\ (r = v /\ knows k' b)) (fun _ => False)) as Hdo.
  { intros A m g v k' Hm Hg. eapply triple_bind; [exact Hm|]. intros a. apply triple_ret. intros b []. auto. }
  assert (forall A (f : InitBridge -> A) v (g : A -> option js), (forall b, knows k b -> f b = v) ->
    triple (rests k) (a ← with_lock mutex_ (b ← pget; mret (f b)); mret (g a))
      (fun r b => held b = ∅ /\ (r = g v /\ knows k b)) (fun _ => False)) as Hask.
  { intros A h v g Hv. eapply triple_bind; [by apply (ask_ok k h v)|]. intros a. apply triple_ret. intros b (? & -> & ?). auto. }
  assert (forall v : option js, triple (rests k) (mret v) (fun r b => held b = ∅ /\ (r = v /\ knows k b)) (fun _ => False)) as Hret.
  { intros v. apply triple_ret. intros b []. auto. }
  destruct f; cbn [js_init_call answer learnt].
  - apply Hret.
  - destruct info as [|[] info]; try apply Hret. by apply (Hdo _ _ (fun _ => Some JUndefined) _ _ (set_callback_ok k true)).
  - by apply (Hdo _ _ (fun _ => Some JUndefined) _ _ (remove_callback_ok k)).
  - apply (Hask _ connection_info_ (fst <$> k) (fun i => Some (or_null connection_object i))). by intros b (? & _).
  - apply (Hask _ config_ (snd <$> k) (fun i => Some (or_null config_object i))). by intros b (_ & ? & _).
  - apply Hret.
  - destruct info as [|[] info]; try apply Hret. apply (Hask _ _ _ (fun r => Some (JBoolean r))). by intros b (-> & _).
  - apply (Hask _ _ _ (fun r => Some (strings r))). intros b (-> & _). reflexivity.
  - by apply (Hdo _ _ (fun _ => Some JUndefined) _ _ (reset_ok k)).
Qed.

Lemma init_callback_ok k conn reserved cfg :
  triple (rests k) (FuseInitCallback (Some (conn, reserved)) (Some cfg))
    (fun _ => rests (learnt k (Inited conn reserved cfg))) (fun _ => False).
Proof.
  unfold FuseInitCallback. set (k' := learnt k _).
  eapply (triple_bind _ _ _ (fun _ => rests k')).
  - operation b Hk. destruct Hk as (_ & _ & Ho). by do 2 eexists.
  - intros _. apply triple_get. intros b [Hf Hk]. pose proof Hk as (Hi & Hc & Ho). rewrite Hi, Hc. subst k'.
    cbn [learnt ConvertConnectionInfo mbind option_bind fmap option_fmap option_map fst snd].
    destruct (has_callback_ b) eqn:Hh; [|by intros s ->].
    intros s ->. unfold CallJavaScriptCallback. erewrite bind_done; [|apply with_lock_done; [rewrite Hf; set_solver|reflexivity|done]].
    cbn. rewrite Hh. unfold mbind, prog_bind, pget, BlockingCall. cbn. rewrite bool_decide_true by (rewrite Ho; set_solver).
    split; [exact Hf|]. unfold knows. cbn. by rewrite Hh.
Qed.
Lemma happen_ok installed k e :
  triple (rests k) (happen installed e)
    (fun r b => held b = ∅ /\ (r = match e with Called f info => answer k f info | Inited _ _ _ => None end /\
                               knows (after_event installed k e) b)) (fun _ => False).
Proof.
  destruct e as [f info|conn reserved cfg]; [apply js_call_ok|]. cbn [happen after_event].
  eapply (triple_bind _ _ _ (fun _ => rests (if installed then learnt k (Inited conn reserved cfg) else k))).
  - destruct installed; [apply init_callback_ok|by apply triple_ret].
  - intros _. apply triple_ret. intros b []. auto.
Qed.


(** Nothing in the program gives libfuse the callback. *)
Lemma session_info_is_never_known l :
  fold_left (after_event false) l None = None.
Proof.
  assert (forall e, after_event false None e = None) as H0 by (by intros [[]|]).
  induction l as [|e l IH]; [done|]. cbn [fold_left]. by rewrite H0.
Qed.
End Exported.

(** ** Capabilities *)

Lemma cap_list_elem c f : f ∈ cap_list c <-> exists i, 0 <= i < 32 /\ f = 2 ^ i /\ Z.testbit c i = true.
Proof.
  unfold cap_list. rewrite list_elem_of_filter, list_elem_of_fmap. split.
  - intros (Hf & i & -> & Hi%elem_of_seq). rewrite has_flag_pow2 in Hf by lia. exists (Z.of_nat i). split; [lia|done].
  - intros (i & Hi & -> & Hb). rewrite has_flag_pow2 by lia. split; [done|]. exists (Z.to_nat i).
    rewrite Z2Nat.id by lia. split; [done|]. apply elem_of_seq. lia.
Qed.
Lemma fold_lor_testbit l : forall a j, Z.testbit (foldr Z.lor a l) j = Z.testbit a j || existsb (fun f => Z.testbit f j) l.
Proof.
  induction l as [|f l IH]; intros a j; cbn; [by rewrite orb_false_r|].
  rewrite Z.lor_spec, IH. destruct (Z.testbit f j), (Z.testbit a j); done.
Qed.

(** The array of flags given to JavaScript is the capability word bit by
    bit, CheckCapabilities holds of single flags exactly when they are all in it, and
    the names are those of its flags. *)
Theorem capability_answers_agree c :
  in_u 32 c ->
  foldr Z.lor 0 (cap_list c) = c /\
  (forall caps, Forall (fun f => exists i, 0 <= i < 32 /\ f = 2 ^ i) caps ->
     forallb (fun cap => negb (Z.land c cap =? 0)) caps = true <-> Forall (fun f => f ∈ cap_list c) caps) /\
  (forall n, n ∈ names_of c <-> exists i, (i, n) ∈ capability_names /\ 2 ^ i ∈ cap_list c).
Proof.
  intros Hc. split; [|split].
  - apply Z.bits_inj'. intros j Hj. rewrite fold_lor_testbit, Z.bits_0, orb_false_l.
    apply eq_true_iff_eq. rewrite existsb_exists. split.
    + intros (f & Hf & Hb). apply list_elem_of_In, cap_list_elem in Hf as (i & Hi & -> & Hci).
      rewrite pow_testbit in Hb by lia. apply bool_decide_eq_true in Hb as <-. done.
    + intros Hb. assert (j < 32).
      { destruct (Z.lt_ge_cases j 32); [done|]. rewrite <- (wrapu_small 32 c Hc) in Hb.
        unfold wrapu in Hb. by rewrite Z.mod_pow2_bits_high in Hb by lia. }
      exists (2 ^ j). split; [|by apply Z.pow2_bits_true]. apply list_elem_of_In, cap_list_elem. by exists j.
  - intros caps Hcaps. induction Hcaps as [|f caps (i & Hi & ->) _ IH]; [done|]. cbn [forallb].
    rewrite andb_true_iff, IH, Forall_cons, cap_list_elem. fold (has_flag c (2 ^ i)). rewrite has_flag_pow2 by lia.
    split; intros [Hb Hl]; (split; [|done]); [by exists i|].
    destruct Hb as (i' & Hi' & He & Hb). apply Z.pow_inj_r in He; [by subst i'|lia..].
  - intros n. unfold names_of. rewrite list_elem_of_omap.
    assert (forall i n', (i, n') ∈ capability_names -> 0 <= i < 32) as Hbits.
    { assert (Forall (fun e : Z * string => 0 <= e.1 < 32) capability_names) as Hf.
      { unfold capability_names. repeat (apply Forall_cons; split; [cbn; lia|]). by apply Forall_nil. }
      intros i n' Hin. rewrite Forall_forall in Hf. exact (Hf _ Hin). }
    split.
    + intros ([i n'] & Hin & Hg). cbn in Hg. pose proof (Hbits i n' Hin). rewrite has_flag_pow2 in Hg by lia.
      destruct (Z.testbit c i) eqn:Hb; [|discriminate]. injection Hg as ->. exists i. split; [done|].
      apply cap_list_elem. by exists i.
    + intros (i & Hin & (i' & Hi' & He & Hb)%cap_list_elem). pose proof (Hbits i n Hin).
      apply Z.pow_inj_r in He; [|lia..]. subst i'. exists (i, n). split; [done|]. cbn. by rewrite has_flag_pow2, Hb by lia.
Qed.
Lemma capability_answers_agree_witness :
  in_u 32 2147483665 /\ cap_list 2147483665 = [1; 16; 2147483648] /\ names_of 2147483665 = ["ASYNC_READ"; "EXPORT_SUPPORT"]%string /\
  foldr Z.lor 0 (cap_list 2147483665) = 2147483665.
Proof.
  assert (in_u 32 2147483665) as Hc by (unfold in_u; lia).
  split; [exact Hc|]. split; [vm_compute; reflexivity|]. split; [vm_compute; reflexivity|].
  exact (proj1 (capability_answers_agree 2147483665 Hc)).
Defined.

(** ** Mount options *)

(** Whether libfuse makes a session with an option, bare or with a value. *)
Definition accepted (option : string) : bool :=
  let try o := match session_options (fun _ => true) ["fuse-native"; "-o"; o]%string 0 with Some _ => true | None => false end in
  try option || try (option ++ "=1")%string.

(** Of the options getAvailableMountOptions gives, libfuse makes a session
    with these eighteen alone, and it refuses two of the four given as defaults. *)
Theorem advertised_options_are_refused :
  filter (fun o => accepted o = true) (available_options GetAvailableMountOptions) =
    ["allow_other"; "allow_root"; "auto_unmount"; "default_permissions"; "dev"; "nodev"; "suid"; "nosuid"; "ro"; "rw";
     "exec"; "noexec"; "sync"; "async"; "noatime"; "nodiratime"; "nostrictatime"; "max_read"]%string /\
  filter (fun o => accepted o = false) (default_options GetAvailableMountOptions) = ["async_read"; "atomic_o_trunc"]%string.
Proof. split; vm_compute; reflexivity. Qed.
