(* ===== verification/WriteQueueJs.v ===== *)
(** * write_queue.cc: the functions exported to JavaScript

    The global manager and the wrappers around it.  A call through a thread-safe
    function is only posted: JavaScript runs it when the running call has returned.
    [None] is a JavaScript exception; one that is pending does not stop the C++
    code.  The bytes of an operation are those its pointer reaches when it is
    enqueued. *)
From Stdlib Require Import Sorting.Sorted.
From S2P Require Import Prelude Errno PrioQueue WriteQueue Sys Napi CopyRange LlMount.

(** What the JavaScript thread will run: the executor on an operation, which the code
    holds by reference, or a completion callback. *)
Inductive posted_call := ExecutorCall (fd id : Z) | CompletionCall (fd id result : Z).

Section Exported.
Context `{PQ : !PrioQueue WriteOperation ComparePriority} `{NapiConv}.

Abbreviation manager := (option WriteQueueManager).

(** ** The global manager *)

Definition InitializeGlobalWriteQueueManager (default_max_queue_size : Z) (g : manager) : bool * manager :=
  match g with Some _ => (false, g) | None => (true, Some (new_manager default_max_queue_size)) end.
(** The queues that are left are cancelled as the manager is destroyed. *)
Definition ShutdownGlobalWriteQueueManager (polls : Z -> list FDWriteQueue) (g : manager) : bool * manager :=
  match g with None => (true, g) | Some w => (FlushAll polls w, None) end.

(** ** Enqueueing *)

(** The memory at [buffer_data], and [buffer_size]. *)
Definition buffer_argument (v : js) : option (list Z * Z) :=
  match v with
  | JArrayBuffer data => Some (data, lenZ data)
  | JTypedArray store _ byteLength => Some (store, Z.of_nat byteLength)
  | _ => None
  end.
Definition priority_of (z : Z) : WriteOperationPriority :=
  if z =? 0 then URGENT else if z =? 1 then HIGH else if z =? 2 then NORMAL else if z =? 3 then LOW else NORMAL.
Definition priority_argument (info : list js) : WriteOperationPriority :=
  match argument info 4 with JNumber d => priority_of (Int32Value d) | _ => NORMAL end.
Definition has_completion (info : list js) : bool :=
  match argument info 5 with JFunction => true | _ => false end.
Definition EnqueueWrite_js (now : Z) (info : list js) (g : manager) : option js * manager :=
  if (length info <? 4)%nat then (None, g)
  else
    let '(p0, fd) := CopyRange.GetBigUint64 (argument info 0) in
    let '(p1, offset) := CopyRange.GetBigUint64 (argument info 1) in
    let '(p2, size) := CopyRange.GetBigUint64 (argument info 2) in
    match buffer_argument (argument info 3) with
    | None => (None, g)
    | Some (buffer_data, buffer_size) =>
        if buffer_size <? size then (None, g)
        else
          let operation :=
            {| w_fd := fd; w_offset := offset; w_size := size; w_buffer := take (Z.to_nat size) buffer_data;
               w_priority := priority_argument info; w_timestamp := now;
               w_completion := has_completion info; w_error := false; w_id := 0 |} in
          match g with
          | None => (None, g)
          | Some w =>
              let '(operation_id, w) := EnqueueWrite fd (Some operation) w in
              (if p0 || p1 || p2 then None else Some (JBigInt operation_id), Some w)
          end
    end.

(** ** Processing *)

(** The executor posts its call and, as the JavaScript thread is busy with this very
    function, answers what [result] was before. *)
Definition posting_executor (op : WriteOperation) : Z := - EIO.
(** What was posted while a queue was processed, from what became of its operations. *)
Definition new_endings (q q' : FDWriteQueue) : list ending := drop (length (history q)) (history q').
Definition posted_for (e : ending) : list posted_call :=
  let op := ending_op e in
  ExecutorCall (w_fd op) (w_id op) ::
  match callback_of e with Some (Completion id result) => [CompletionCall (w_fd op) id result] | _ => [] end.
Definition posted_by (w : WriteQueueManager) : list posted_call :=
  flat_map (fun kq => flat_map posted_for (new_endings kq.2 (ProcessQueue (Some posting_executor) kq.2).2))
    (map_to_list (fd_queues_ w)).
Definition ProcessWriteQueues (info : list js) (g : manager) : option js * manager * list posted_call :=
  match info with
  | JFunction :: _ =>
      match g with
      | None => (None, g, [])
      | Some w =>
          let '(processed, w') := ProcessAllQueues (Some posting_executor) w in
          (Some (JNumber (dbl processed)), Some w', posted_by w)
      end
  | _ => (None, g, [])
  end.
(** Running a posted executor call reads its operation: it must still be in a queue. *)
Definition queued (fd id : Z) (w : WriteQueueManager) : bool :=
  match fd_queues_ w !! fd with
  | Some q => existsb (fun op => w_id op =? id) (pq_elems (operation_queue_ q))
  | None => false
  end.
Definition run_posted (w : WriteQueueManager) (c : posted_call) : prog unit unit :=
  match c with
  | ExecutorCall fd id => if queued fd id w then mret tt else pthrow
  | CompletionCall _ _ _ => mret tt
  end.

(** ** Flushing, statistics, configuration *)

Definition with_manager {A} (g : manager) (k : WriteQueueManager -> option A * WriteQueueManager) : option A * manager :=
  match g with None => (None, g) | Some w => let '(r, w) := k w in (r, Some w) end.
(** Processing happens in other calls only, so [polls] are copies of the queue as it is. *)
Definition FlushWriteQueue (polls : list FDWriteQueue) (info : list js) (g : manager) : option js * manager :=
  if (length info <? 1)%nat then (None, g)
  else
    let '(p, fd) := CopyRange.GetBigUint64 (argument info 0) in
    with_manager g (fun w => let '(success, w) := FlushFD fd polls w in
                             (if p then None else Some (JBoolean success), w)).
Definition FlushAllWriteQueues (polls : Z -> list FDWriteQueue) (g : manager) : option js * manager :=
  with_manager g (fun w => (Some (JBoolean (FlushAll polls w)), w)).
(** The average latency is not part of the model. *)
Definition stats_fields (avgLatencyMs : double) (stats : WriteQueueStats) : list (string * js) :=
  [("totalOperations", JBigInt (total_operations stats)); ("completedOperations", JBigInt (completed_operations stats));
   ("failedOperations", JBigInt (failed_operations stats)); ("bytesWritten", JBigInt (bytes_written stats));
   ("queueSize", JBigInt (queue_size stats)); ("maxQueueSize", JBigInt (max_queue_size stats));
   ("avgLatencyMs", JNumber avgLatencyMs)]%string.
Definition GetWriteQueueStats (avg : double) (info : list js) (g : manager) : option js * manager :=
  with_manager g (fun w =>
    match argument info 0 with
    | JBigInt _ as v =>
        let '(p, fd) := CopyRange.GetBigUint64 v in
        (if p : bool then None
         else Some (match GetFDStats fd w with
                    | None => JNull
                    | Some stats => JObject (("fd"%string, JBigInt fd) :: stats_fields avg stats)
                    end), w)
    | _ => (Some (JObject (stats_fields avg (GetAggregateStats w) ++
                           [("activeFDs"%string, JArray (map JBigInt (GetActiveFDs w)))])), w)
    end).
Definition ResetWriteQueueStats (g : manager) : option js * manager :=
  with_manager g (fun w => (Some (JBoolean true), ResetAllStats w)).

(** [std::stoull]: [None] is its exception, which nothing catches. *)
Definition stoull (s : string) : option Z :=
  let '(neg, s) := scan_sign (skip_spaces s) in
  match s with
  | String c _ =>
      match digit c with
      | Some _ => let v := (scan_digits 0 s).1 in
                  if UINT64_MAX <? v then None else Some (if neg : bool then u64 (- v) else v)
      | None => None
      end
  | EmptyString => None
  end.
(** How the loop over the properties ends: done, by a JavaScript exception, or with the
    process. *)
Inductive config_end := Configured (w : WriteQueueManager) | Thrown (w : WriteQueueManager) | Terminated.
Fixpoint configure_fds (l : list (string * js)) (w : WriteQueueManager) : config_end :=
  match l with
  | [] => Configured w
  | (fd_str, v) :: l =>
      match stoull fd_str with
      | None => Terminated
      | Some fd => match v with
                   | JNumber d => configure_fds l (SetFDMaxQueueSize fd (Uint32Value d) w)
                   | _ => Thrown w
                   end
      end
  end.
Definition ConfigureWriteQueues (info : list js) (g : manager) : config_end + (option js * manager) :=
  match argument info 0 with
  | JObject fields as config =>
      match g with
      | None => inr (None, g)
      | Some w =>
          let next w :=
            match Get config "fdMaxQueueSize" with
            | JObject fds => match configure_fds fds w with
                             | Configured w => inr (Some (JBoolean true), Some w)
                             | Thrown w => inr (None, Some w)
                             | Terminated => inl Terminated
                             end
            | _ => inr (Some (JBoolean true), Some w)
            end in
          if Has config "defaultMaxQueueSize" then
            match Get config "defaultMaxQueueSize" with
            | JNumber d => next (SetDefaultMaxQueueSize (Uint32Value d) w)
            | _ => inr (None, g)
            end
          else next w
      end
  | v => if IsObject v then inr (match g with None => None | Some _ => Some (JBoolean true) end, g) else inr (None, g)
  end.
End Exported.

(** ** What JavaScript gets *)

Section Facts.
Context `{PQ : !PrioQueue WriteOperation ComparePriority} `{L : !PrioQueueLaws PQ} `{NapiConv}.

Lemma processed_queue f q :
  let '(n, q') := ProcessQueue (Some f) q in
  n = pq_size (operation_queue_ q) /\ pq_elems (operation_queue_ q') = [] /\
  exists ops, ops ≡ₚ pq_elems (operation_queue_ q) /\ history q' = history q ++ map (fun op => Executed op (f op)) ops.
Proof.
  unfold ProcessQueue. pose proof (process_rounds_spec f (length (pq_elems (operation_queue_ q))) 0 q ltac:(lia)) as Hp.
  destruct (process_rounds _ f 0 q) as [n q']. destruct Hp as (-> & He & Hh). split; [lia|]. split; [done|].
  eexists. split; [|exact Hh]. by apply pq_drain_perm.
Qed.
Lemma new_endings_of f q :
  exists ops, ops ≡ₚ pq_elems (operation_queue_ q) /\
    new_endings q (ProcessQueue (Some f) q).2 = map (fun op => Executed op (f op)) ops.
Proof.
  pose proof (processed_queue f q) as Hp. destruct (ProcessQueue (Some f) q) as [n q'].
  destruct Hp as (_ & _ & ops & Hops & Hh). exists ops. split; [done|]. unfold new_endings. cbn [snd]. by rewrite Hh, drop_app_length.
Qed.
Lemma posted_elem w c :
  c ∈ posted_by w <-> exists fd q op, fd_queues_ w !! fd = Some q /\ op ∈ pq_elems (operation_queue_ q) /\
    c ∈ posted_for (Executed op (- EIO)).
Proof.
  unfold posted_by. rewrite list_elem_of_In, in_flat_map. split.
  - intros ([fd q] & Hq & (e & He & Hc)%in_flat_map). apply list_elem_of_In, elem_of_map_to_list in Hq.
    destruct (new_endings_of posting_executor q) as (ops & Hops & Hn). cbn [snd] in He. rewrite Hn in He.
    apply in_map_iff in He as (op & <- & Hop). exists fd, q, op. split; [done|].
    split; [|by apply list_elem_of_In]. rewrite <- Hops. by apply list_elem_of_In.
  - intros (fd & q & op & Hq & Hop & Hc). exists (fd, q). rewrite <- list_elem_of_In, elem_of_map_to_list. split; [done|].
    destruct (new_endings_of posting_executor q) as (ops & Hops & Hn). rewrite in_flat_map. cbn [snd]. rewrite Hn.
    exists (Executed op (- EIO)). split; [|by apply list_elem_of_In]. apply in_map_iff. exists op. split; [done|].
    apply list_elem_of_In. by rewrite Hops.
Qed.


(** A view into a buffer is written from the buffer's start. *)
Lemma enqueue_ignores_view_offset now fd offset size store off len w :
  in_u 64 fd -> in_u 64 offset -> in_u 64 size -> size <= Z.of_nat len ->
  let write data := {| w_fd := fd; w_offset := offset; w_size := size; w_buffer := data; w_priority := NORMAL;
                       w_timestamp := now; w_completion := false; w_error := false; w_id := 0 |} in
  forall `{!NapiLaws _},
  EnqueueWrite_js now [JBigInt fd; JBigInt offset; JBigInt size; JTypedArray store off len] (Some w) =
    let '(id, w') := EnqueueWrite fd (Some (write (take (Z.to_nat size) store))) w in (Some (JBigInt id), Some w').
Proof.
  intros Hfd Hoff Hsize Hlen write HL. unfold EnqueueWrite_js. cbn [length Nat.ltb Nat.leb argument lookup list_lookup default].
  unfold CopyRange.GetBigUint64, argument, bigint_to_u64. cbn -[EnqueueWrite]. rewrite !BigUint64_exact by done. cbn -[EnqueueWrite].
  destruct (Z.ltb_spec (Z.of_nat len) size); [lia|]. subst write. cbv beta. match goal with |- context [EnqueueWrite fd ?o w] => destruct (EnqueueWrite fd o w) end; reflexivity.
Qed.
End Facts.

Definition demo_manager : WriteQueueManager (PQ := write_queue_impl) :=
  let '(_, w) := EnqueueWrite 3 (Some (demo_write 0 5)) (new_manager 0) in
  let '(_, w) := EnqueueWrite 4 (Some (demo_write 8 6)) w in w.
