(* ===== verification/DispatcherJs.v ===== *)
(** * tsfn_dispatcher.cc: the functions exported to JavaScript

    The global dispatcher as JavaScript starts, stops, configures and observes it,
    and what that does to the handlers the bridge has registered. *)
From S2P Require Import Prelude PrioQueue Dispatcher Sys Napi Bridge Registry.

Section Exported.
Context `{PQ : !PrioQueue PendingCallback ComparePriority} `{NapiConv}.

Definition argument0 (info : list js) : js := match info with v :: _ => v | [] => JUndefined end.
(** A number of an option: [None] where [As<Napi::Number>] throws. *)
Definition number_option (options : js) (name : string) (default_value : Z) : option Z :=
  if Has options name then match Get options name with JNumber d => Some (Uint32Value d) | _ => None end
  else Some default_value.

Definition InitializeDispatcher (created : bool) (info : list js) (r : registry) : option js * registry :=
  let start max_queue_size worker_threads :=
    let '(ok, g) := Dispatcher.InitializeGlobalDispatcher created max_queue_size worker_threads (global_dispatcher r) in
    (Some (JBoolean ok), set_dispatcher g r) in
  let options := argument0 info in
  if IsObject options then
    match number_option options "maxQueueSize" 1000, number_option options "workerThreads" 1 with
    | Some max_queue_size, Some worker_threads => start max_queue_size worker_threads
    | _, _ => (None, r)
    end
  else start 1000 1.
(** The timeout only bounds the wait. *)
Definition ShutdownDispatcher (r : registry) : option js * registry :=
  let '(ok, g) := ShutdownGlobalDispatcher (global_dispatcher r) in (Some (JBoolean ok), set_dispatcher g r).
(** The latency and the time since the start are not part of the model. *)
Definition GetDispatcherStats (avgLatencyMs uptimeMs : double) (r : registry) : option js * registry :=
  (Some (match global_dispatcher r with
         | None => JUndefined
         | Some d =>
             let stats := stats_ d in
             JObject [("totalDispatched", JNumber (dbl (total_dispatched stats)));
                      ("totalCompleted", JNumber (dbl (total_completed stats)));
                      ("totalErrors", JNumber (dbl (total_errors stats)));
                      ("queueSize", JNumber (dbl (queue_size stats)));
                      ("maxQueueSize", JNumber (dbl (max_queue_size stats)));
                      ("avgLatencyMs", JNumber avgLatencyMs); ("uptimeMs", JNumber uptimeMs)]%string
         end), r).
Definition ResetDispatcherStats (r : registry) : option js * registry :=
  match global_dispatcher r with
  | None => (Some (JBoolean false), r)
  | Some d => (Some (JBoolean true), set_dispatcher (Some (ResetStats d)) r)
  end.
Definition SetDispatcherConfig (info : list js) (r : registry) : option js * registry :=
  let options := argument0 info in
  if negb (IsObject options) then (Some (JBoolean false), r)
  else match global_dispatcher r with
  | None => (Some (JBoolean false), r)
  | Some d =>
      let ordering d :=
        if Has options "priorityOrdering" then
          match Get options "priorityOrdering" with
          | JBoolean b => (Some (JBoolean true), set_dispatcher (Some (SetPriorityOrdering b d)) r)
          | _ => (None, set_dispatcher (Some d) r)
          end
        else (Some (JBoolean true), set_dispatcher (Some d) r) in
      if Has options "maxQueueSize" then
        match Get options "maxQueueSize" with
        | JNumber n => ordering (SetMaxQueueSize (Uint32Value n) d)
        | _ => (None, r)
        end
      else ordering d
  end.

(** ** Handlers and the life of the dispatcher *)

(** Everything JavaScript calls that touches the registries. *)
Inductive exported_step : registry -> registry -> Prop :=
  | ex_registry r r' : registry_step r r' -> exported_step r r'
  | ex_initialize created info r : exported_step r (InitializeDispatcher created info r).2
  | ex_stats avg up r : exported_step r (GetDispatcherStats avg up r).2
  | ex_reset r : exported_step r (ResetDispatcherStats r).2
  | ex_config info r : exported_step r (SetDispatcherConfig info r).2.

Lemma in_step_same d d' r : global_dispatcher r = Some d -> handlers_ d' = handlers_ d ->
  in_step r -> in_step (set_dispatcher (Some d') r).
Proof. intros Hg Hh. unfold in_step. rewrite Hg. cbn. by rewrite Hh. Qed.
Lemma initialize_in_step created m w r : in_step r ->
  in_step (set_dispatcher (Dispatcher.InitializeGlobalDispatcher created m w (global_dispatcher r)).2 r).
Proof.
  intros Hr. unfold Dispatcher.InitializeGlobalDispatcher. destruct (global_dispatcher r) as [d|] eqn:Hg.
  - by eapply in_step_same.
  - unfold in_step in Hr. rewrite Hg in Hr. unfold Initialize. cbn. destruct created; cbn; unfold in_step; cbn; [|done].
    intros t Ht. rewrite (Hr t Ht). set_solver.
Qed.
Lemma exported_in_step r r' : exported_step r r' -> in_step r -> in_step r'.
Proof.
  intros Hs Hr. destruct Hs as [r r' Hs|created info r|avg up r|r|info r].
  - by eapply registry_step_ok.
  - unfold InitializeDispatcher. set (o := argument0 info).
    assert (forall m w, in_step (let '(ok, g) := Dispatcher.InitializeGlobalDispatcher created m w (global_dispatcher r) in
              (Some (JBoolean ok), set_dispatcher g r)).2) as Hstart.
    { intros m w. pose proof (initialize_in_step created m w r Hr) as Hi.
      destruct (Dispatcher.InitializeGlobalDispatcher created m w (global_dispatcher r)). exact Hi. }
    destruct (IsObject o); [|apply Hstart].
    destruct (number_option o "maxQueueSize" 1000), (number_option o "workerThreads" 1); [apply Hstart|done..].
  - done.
  - unfold ResetDispatcherStats. destruct (global_dispatcher r) as [d|] eqn:Hg; [|done]. by eapply in_step_same.
  - unfold SetDispatcherConfig. set (o := argument0 info). destruct (IsObject o); cbn [negb]; [|done].
    destruct (global_dispatcher r) as [d|] eqn:Hg; [|done].
    destruct (Has o "maxQueueSize"), (Get o "maxQueueSize"), (Has o "priorityOrdering"), (Get o "priorityOrdering");
      first [done|by eapply in_step_same].
Qed.

(** Until the dispatcher is shut down, the bridge has a handler for an operation
    exactly when the dispatcher can call one. *)
Theorem registries_in_step_while_running r t :
  rtc exported_step registry0 r -> t <> UNKNOWN ->
  HasOperationHandler t r = true <-> exists d, global_dispatcher r = Some d /\ FuseOpTypeToString t ∈ handlers_ d.
Proof.
  intros Hr Ht. assert (in_step r) as Hs.
  { refine (rtc_ind_r in_step _ _ _ r Hr); [done|]. intros x y _. apply exported_in_step. }
  unfold HasOperationHandler. rewrite decide_False by done. unfold in_step in Hs.
  destruct (global_dispatcher r) as [d|]; [rewrite (Hs t Ht); naive_solver|]. rewrite (Hs t Ht). naive_solver.
Qed.
(** A dispatcher started again has none of the handlers the bridge still counts on. *)
Theorem restarted_dispatcher_has_no_handlers created info r t r' :
  HasOperationHandler t r = true ->
  (InitializeDispatcher created info (ShutdownDispatcher r).2) = (Some (JBoolean true), r') ->
  HasOperationHandler t r' = true /\ exists d, global_dispatcher r' = Some d /\ handlers_ d = ∅.
Proof.
  intros Ht Hi. assert (global_dispatcher (ShutdownDispatcher r).2 = None /\
    handler_registry_ (ShutdownDispatcher r).2 = handler_registry_ r) as [Hg Hh].
  { unfold ShutdownDispatcher, ShutdownGlobalDispatcher. by destruct (global_dispatcher r). }
  unfold InitializeDispatcher in Hi. rewrite Hg in Hi.
  assert (forall m w, (let '(ok, g) := Dispatcher.InitializeGlobalDispatcher created m w None in
      (Some (JBoolean ok), set_dispatcher g (ShutdownDispatcher r).2)) = (Some (JBoolean true), r') ->
    HasOperationHandler t r' = true /\ exists d, global_dispatcher r' = Some d /\ handlers_ d = ∅) as Hdone.
  { intros m w. unfold Dispatcher.InitializeGlobalDispatcher, Initialize. cbn. destruct created; cbn; [|discriminate].
    intros [= <-]. unfold HasOperationHandler in *. cbn. rewrite Hh. split; [done|]. by eexists. }
  destruct (IsObject _); [|by eapply Hdone].
  destruct (number_option (argument0 info) "maxQueueSize" 1000), (number_option (argument0 info) "workerThreads" 1);
    try discriminate. by eapply Hdone.
Qed.
End Exported.
