(* ===== verification/LoopMt.v ===== *)
(** * lib/fuse_loop.c and lib/fuse_loop_mt.c: the loops of a session

    The loop of one thread as a function of what it receives, and the pool of threads
    as a step relation: a step is a critical section of [mt_lock], or what a thread
    does between two of them.  What the device answers, when signals and handlers end
    the session, and which allocations and threads can be had are the choices of the
    steps.  Built without io_uring. *)
From stdpp Require Import relations.
From S2P Require Import Prelude Errno.

(** ** Configuration *)

Abbreviation FUSE_LOOP_MT_V2_IDENTIFIER := 2147483645 (only parsing).
Abbreviation FUSE_LOOP_MT_MAX_THREADS := 100000 (only parsing).
Abbreviation UINT_MAX := 4294967295 (only parsing).
Record fuse_loop_config := { version_id : Z; cfg_clone_fd : Z; max_idle_threads : Z; cfg_max_threads : Z }.
Record fuse_loop_config_v1 := { v1_clone_fd : Z; v1_max_idle_threads : Z }.
Definition fuse_loop_cfg_create : fuse_loop_config :=
  {| version_id := FUSE_LOOP_MT_V2_IDENTIFIER; cfg_clone_fd := 0; max_idle_threads := -1; cfg_max_threads := 10 |}.
Definition fuse_loop_cfg_verify (c : fuse_loop_config) : Z :=
  if version_id c =? FUSE_LOOP_MT_V2_IDENTIFIER then 0 else - EINVAL.
Definition fuse_loop_cfg_set_idle_threads (value : Z) (c : fuse_loop_config) : fuse_loop_config :=
  if FUSE_LOOP_MT_MAX_THREADS <? value then c
  else {| version_id := version_id c; cfg_clone_fd := cfg_clone_fd c; max_idle_threads := value;
          cfg_max_threads := cfg_max_threads c |}.
Definition fuse_loop_cfg_set_max_threads (value : Z) (c : fuse_loop_config) : fuse_loop_config :=
  {| version_id := version_id c; cfg_clone_fd := cfg_clone_fd c; max_idle_threads := max_idle_threads c;
     cfg_max_threads := value |}.
Definition fuse_loop_cfg_set_clone_fd (value : Z) (c : fuse_loop_config) : fuse_loop_config :=
  {| version_id := version_id c; cfg_clone_fd := s32 value; max_idle_threads := max_idle_threads c;
     cfg_max_threads := cfg_max_threads c |}.
Definition fuse_loop_cfg_convert (v1 : fuse_loop_config_v1) (c : fuse_loop_config) : fuse_loop_config :=
  fuse_loop_cfg_set_clone_fd (u32 (v1_clone_fd v1)) (fuse_loop_cfg_set_idle_threads (v1_max_idle_threads v1) c).

(** ** One thread *)

(** A round: whether the session has been ended before it, and what it received. *)
Record round := { ended : bool; received : Z }.
(** The result and how many requests were processed; [None] if the rounds do not reach
    the end of the loop. *)
Fixpoint session_rounds (l : list round) (res processed : Z) : option (Z * Z) :=
  match l with
  | [] => None
  | r :: l =>
      if ended r then Some (res, processed)
      else
        let res := received r in
        if res =? - EINTR then session_rounds l res processed
        else if res <=? 0 then Some (res, processed)
        else session_rounds l res (processed + 1)
  end.
Definition fuse_session_loop (l : list round) (se_error : Z) : option (Z * Z) :=
  '(res, processed) ← session_rounds l 0 0;
  let res := if 0 <? res then 0 else res in
  Some (if negb (se_error =? 0) then se_error else res, processed).

(** ** The pool *)

(** Where a worker is: before its check, receiving, with a request it has not counted,
    handling it, done with it, ended. *)
Inductive phase := Top | Receiving | Received (isforget : bool) | Handling (isforget : bool)
  | Handled (isforget : bool) | Ended.
#[export] Instance phase_eq_dec : EqDecision phase.
Proof. solve_decision. Defined.
Record fuse_worker := { ph : phase; has_ch : bool; cancelled : bool }.
Definition set_ph (p : phase) (w : fuse_worker) : fuse_worker :=
  {| ph := p; has_ch := has_ch w; cancelled := cancelled w |}.
Definition cancel (w : fuse_worker) : fuse_worker := {| ph := ph w; has_ch := has_ch w; cancelled := true |}.

(** The thread that runs the loop: at its check, asleep on [mt_finish], about to cancel
    the workers, joining them, returned. *)
Inductive main_phase := Checking | Sleeping | Cancelling | Joining | Returned (err : Z).
(** [workers] is the list from [main.next] on; [leaving] the workers that left it and
    still have to free themselves; [freed] those that are freed; [posts] the calls of
    [sem_post] that have to come. *)
Record fuse_mt := {
  numworker : Z; numavail : Z; workers : list (nat * fuse_worker); leaving : list nat; freed : list nat;
  next_worker : nat; mt_error : Z; clone_fd : Z; max_idle : Z; max_threads : Z;
  exited : bool; mt_finish : nat; posts : nat; se_error : Z; main : main_phase;
}.
Definition set_workers (nw na : Z) (l : list (nat * fuse_worker)) (m : fuse_mt) : fuse_mt :=
  {| numworker := nw; numavail := na; workers := l; leaving := leaving m; freed := freed m;
     next_worker := next_worker m; mt_error := mt_error m; clone_fd := clone_fd m; max_idle := max_idle m;
     max_threads := max_threads m; exited := exited m; mt_finish := mt_finish m; posts := posts m;
     se_error := se_error m; main := main m |}.
Definition set_gone (l f : list nat) (m : fuse_mt) : fuse_mt :=
  {| numworker := numworker m; numavail := numavail m; workers := workers m; leaving := l; freed := f;
     next_worker := next_worker m; mt_error := mt_error m; clone_fd := clone_fd m; max_idle := max_idle m;
     max_threads := max_threads m; exited := exited m; mt_finish := mt_finish m; posts := posts m;
     se_error := se_error m; main := main m |}.
Definition set_started (n : nat) (cfd : Z) (m : fuse_mt) : fuse_mt :=
  {| numworker := numworker m; numavail := numavail m; workers := workers m; leaving := leaving m; freed := freed m;
     next_worker := n; mt_error := mt_error m; clone_fd := cfd; max_idle := max_idle m;
     max_threads := max_threads m; exited := exited m; mt_finish := mt_finish m; posts := posts m;
     se_error := se_error m; main := main m |}.
Definition set_exit (err : Z) (ex : bool) (fin ps : nat) (m : fuse_mt) : fuse_mt :=
  {| numworker := numworker m; numavail := numavail m; workers := workers m; leaving := leaving m; freed := freed m;
     next_worker := next_worker m; mt_error := err; clone_fd := clone_fd m; max_idle := max_idle m;
     max_threads := max_threads m; exited := ex; mt_finish := fin; posts := ps; se_error := se_error m;
     main := main m |}.
Definition set_main (p : main_phase) (m : fuse_mt) : fuse_mt :=
  {| numworker := numworker m; numavail := numavail m; workers := workers m; leaving := leaving m; freed := freed m;
     next_worker := next_worker m; mt_error := mt_error m; clone_fd := clone_fd m; max_idle := max_idle m;
     max_threads := max_threads m; exited := exited m; mt_finish := mt_finish m; posts := posts m;
     se_error := se_error m; main := p |}.

(** Which of [malloc], the clone of the device and [pthread_create] succeed. *)
Record resources := { malloc_ok : bool; clone_ok : bool; create_ok : bool }.
Definition fuse_loop_start_thread (r : resources) (m : fuse_mt) : Z * fuse_mt :=
  if negb (malloc_ok r) then (-1, m)
  else
    let cloning := negb (clone_fd m =? 0) in
    let m := if cloning && negb (clone_ok r) then set_started (next_worker m) 0 m else m in
    if negb (create_ok r) then (-1, m)
    else
      let w := {| ph := Top; has_ch := cloning && clone_ok r; cancelled := false |} in
      (0, set_started (S (next_worker m)) (clone_fd m)
            (set_workers (numworker m + 1) (numavail m + 1) (workers m ++ [(next_worker m, w)]) m)).

Definition idle_change (isforget : bool) : Z := if isforget then 0 else 1.
(** The first critical section of a worker, with its request: [other] are the workers
    around it. *)
Definition take_request (r : resources) (before after : list (nat * fuse_worker)) (wid : nat) (w : fuse_worker)
    (isforget : bool) (m : fuse_mt) : fuse_mt :=
  let put p m := set_workers (numworker m) (numavail m) (before ++ (wid, set_ph p w) :: after) m in
  if exited m then put Ended m
  else
    let m := put (Handling isforget) m in
    let m := set_workers (numworker m) (numavail m - idle_change isforget) (workers m) m in
    if (numavail m =? 0) && (numworker m <? max_threads m) then (fuse_loop_start_thread r m).2 else m.
(** The second one: an idle worker too many leaves the list. *)
Definition finish_request (before after : list (nat * fuse_worker)) (wid : nat) (w : fuse_worker)
    (isforget : bool) (m : fuse_mt) : fuse_mt :=
  let put p m := set_workers (numworker m) (numavail m) (before ++ (wid, set_ph p w) :: after) m in
  let m := set_workers (numworker m) (numavail m + idle_change isforget) (workers m) m in
  if negb (max_idle m =? -1) && (max_idle m <? numavail m) && (1 <? numworker m) then
    if exited m then put Ended m
    else set_gone (wid :: leaving m) (freed m)
           (set_workers (numworker m - 1) (numavail m - 1) (before ++ after) m)
  else put Top m.
(** [fuse_session_exit]: the flag, then the post. *)
Definition session_exit (err : Z) (m : fuse_mt) : fuse_mt := set_exit err true (mt_finish m) (S (posts m)) m.
Definition join_first (wid : nat) (rest : list (nat * fuse_worker)) (m : fuse_mt) : fuse_mt :=
  set_gone (leaving m) (wid :: freed m) (set_workers (numworker m) (numavail m) rest m).
Definition loop_result (m : fuse_mt) : Z := if negb (se_error m =? 0) then se_error m else mt_error m.

Inductive mstep : fuse_mt -> fuse_mt -> Prop :=
  | s_loop m b wid w a :
      workers m = b ++ (wid, w) :: a -> ph w = Top -> exited m = false ->
      mstep m (set_workers (numworker m) (numavail m) (b ++ (wid, set_ph Receiving w) :: a) m)
  | s_over m b wid w a :
      workers m = b ++ (wid, w) :: a -> ph w = Top -> exited m = true ->
      mstep m (set_exit (mt_error m) true (S (mt_finish m)) (posts m)
                 (set_workers (numworker m) (numavail m) (b ++ (wid, set_ph Ended w) :: a) m))
  | s_cancelled m b wid w a :
      workers m = b ++ (wid, w) :: a -> ph w = Receiving -> cancelled w = true ->
      mstep m (set_workers (numworker m) (numavail m) (b ++ (wid, set_ph Ended w) :: a) m)
  | s_take m b wid w a isforget r :
      workers m = b ++ (wid, w) :: a -> ph w = Received isforget -> mstep m (take_request r b a wid w isforget m)
  | s_handled m b wid w a isforget :
      workers m = b ++ (wid, w) :: a -> ph w = Handling isforget ->
      mstep m (set_workers (numworker m) (numavail m) (b ++ (wid, set_ph (Handled isforget) w) :: a) m)
  | s_finish m b wid w a isforget :
      workers m = b ++ (wid, w) :: a -> ph w = Handled isforget -> mstep m (finish_request b a wid w isforget m)
  | s_leave m b wid a :
      leaving m = b ++ wid :: a -> mstep m (set_gone (b ++ a) (wid :: freed m) m)
  | s_post m n :
      posts m = S n -> mstep m (set_exit (mt_error m) (exited m) (S (mt_finish m)) n m)
  | s_check m : main m = Checking -> mstep m (set_main (if exited m then Cancelling else Sleeping) m)
  | s_wake m n :
      main m = Sleeping -> mt_finish m = S n ->
      mstep m (set_exit (mt_error m) (exited m) n (posts m) (set_main Checking m))
  | s_cancel m :
      main m = Cancelling ->
      mstep m (set_main Joining (set_workers (numworker m) (numavail m) (map (fun e => (e.1, cancel e.2)) (workers m)) m))
  | s_join m wid w rest :
      main m = Joining -> workers m = (wid, w) :: rest -> ph w = Ended -> mstep m (join_first wid rest m)
  | s_return m : main m = Joining -> workers m = [] -> mstep m (set_main (Returned (loop_result m)) m).
(** The device answers a worker that receives. *)
Inductive dstep : fuse_mt -> fuse_mt -> Prop :=
  | d_interrupted m b wid w a :
      workers m = b ++ (wid, w) :: a -> ph w = Receiving ->
      dstep m (set_workers (numworker m) (numavail m) (b ++ (wid, set_ph Top w) :: a) m)
  | d_received m b wid w a isforget :
      workers m = b ++ (wid, w) :: a -> ph w = Receiving ->
      dstep m (set_workers (numworker m) (numavail m) (b ++ (wid, set_ph (Received isforget) w) :: a) m)
  | d_failed m b wid w a res :
      workers m = b ++ (wid, w) :: a -> ph w = Receiving -> res <= 0 -> res <> - EINTR ->
      dstep m ((if res <? 0 then session_exit res else id)
                 (set_exit (mt_error m) (exited m) (S (mt_finish m)) (posts m)
                    (set_workers (numworker m) (numavail m) (b ++ (wid, set_ph Ended w) :: a) m))).
(** Something outside ends the session: a signal, a handler, the kernel, with the
    session's error. *)
Inductive ended_by : fuse_mt -> fuse_mt -> Prop :=
  | e_exit m : ended_by m (session_exit (mt_error m) m)
  | e_error m err : (forall e, main m <> Returned e) -> ended_by m
      {| numworker := numworker m; numavail := numavail m; workers := workers m; leaving := leaving m; freed := freed m;
         next_worker := next_worker m; mt_error := mt_error m; clone_fd := clone_fd m; max_idle := max_idle m;
         max_threads := max_threads m; exited := exited m; mt_finish := mt_finish m; posts := posts m;
         se_error := err; main := main m |}.

(** The state in which the pool begins: the session's flag, the posts of its semaphore
    and its error are what they are.  A configuration is made when none is given (the
    code does not look whether it could be); without a first thread the loop does not
    begin. *)
Definition new_pool (c : fuse_loop_config) (ex : bool) (fin : nat) (serr : Z) : fuse_mt :=
  {| numworker := 0; numavail := 0; workers := []; leaving := []; freed := []; next_worker := 0; mt_error := 0;
     clone_fd := cfg_clone_fd c; max_idle := max_idle_threads c; max_threads := s32 (cfg_max_threads c);
     exited := ex; mt_finish := fin; posts := 0; se_error := serr; main := Checking |}.
Definition fuse_session_loop_mt (config : option fuse_loop_config) (ex : bool) (fin : nat) (serr : Z) (r : resources)
    : Z + fuse_mt :=
  let start c :=
    let '(err, m) := fuse_loop_start_thread r (new_pool c ex fin serr) in
    if err =? 0 then inr m else inl (if negb (serr =? 0) then serr else err) in
  match config with
  | Some c => if negb (fuse_loop_cfg_verify c =? 0) then inl (fuse_loop_cfg_verify c) else start c
  | None => start fuse_loop_cfg_create
  end.
(** The versions for older callers. *)
Definition fuse_session_loop_mt_32 (config : option fuse_loop_config_v1) : bool -> nat -> Z -> resources -> Z + fuse_mt :=
  fuse_session_loop_mt (option_map (fun v1 => fuse_loop_cfg_convert v1 fuse_loop_cfg_create) config).
Definition fuse_session_loop_mt_31 (cfd : Z) : bool -> nat -> Z -> resources -> Z + fuse_mt :=
  fuse_session_loop_mt (Some (if 0 <? cfd then fuse_loop_cfg_set_clone_fd (u32 cfd) fuse_loop_cfg_create
                              else fuse_loop_cfg_create)).

(** ** The accounts of the pool *)

Definition busy_of (e : nat * fuse_worker) : Z :=
  match ph e.2 with Handling false | Handled false => 1 | _ => 0 end.
Definition over (m : fuse_mt) : bool := match main m with Joining | Returned _ => true | _ => false end.
Definition worker_ids (m : fuse_mt) : list nat := map fst (workers m) ++ leaving m ++ freed m.
(** [numworker] counts the workers of the list until the main thread joins them;
    [numavail] are those without a counted request; each worker started is in the list,
    leaving, or freed, once; whoever sleeps will be woken. *)
Record pool_ok (m : fuse_mt) : Prop := {
  pk_count : lenZ (workers m) <= numworker m /\ (over m = false -> numworker m = lenZ (workers m));
  pk_avail : numavail m = numworker m - sumZ busy_of (workers m);
  pk_bound : 1 <= numworker m <= Z.max 1 (max_threads m);
  pk_ids : worker_ids m ≡ₚ seq 0 (next_worker m);
  pk_exit : match main m with Cancelling | Joining | Returned _ => exited m = true | _ => True end;
  pk_cancel : main m = Joining -> Forall (fun e => cancelled e.2 = true) (workers m);
  pk_joined : forall err, main m = Returned err -> workers m = [] /\ err = loop_result m;
  pk_wake : exited m = true -> main m = Sleeping -> (0 < mt_finish m + posts m)%nat;
}.

(** One worker moves on. *)
Record moves (m m' : fuse_mt) (b : list (nat * fuse_worker)) (wid : nat) (w : fuse_worker) (a : list (nat * fuse_worker))
    (p : phase) : Prop := {
  mv_from : workers m = b ++ (wid, w) :: a;
  mv_to : workers m' = b ++ (wid, set_ph p w) :: a;
  mv_num : numworker m' = numworker m;
  mv_avail : numavail m' = numavail m + busy_of (wid, w) - busy_of (wid, set_ph p w);
  mv_same : leaving m' = leaving m /\ freed m' = freed m /\ next_worker m' = next_worker m /\
    max_threads m' = max_threads m /\ main m' = main m;
  mv_exit : exited m = true -> exited m' = true;
  mv_posts : (mt_finish m + posts m <= mt_finish m' + posts m')%nat /\
    (exited m' = true -> exited m = true \/ (0 < mt_finish m' + posts m')%nat);
}.
Lemma busy_range e : 0 <= busy_of e <= 1.
Proof. unfold busy_of. destruct (ph e.2) as [| |[]|[]|[]|]; lia. Qed.
Lemma busy_bound l : 0 <= sumZ busy_of l <= lenZ l.
Proof. induction l as [|e l IH]; cbn; [done|]. pose proof (busy_range e). rewrite lenZ_cons. unfold sumZ in IH. lia. Qed.

Lemma pool_moves m m' b wid w a p : pool_ok m -> moves m m' b wid w a p -> pool_ok m'.
Proof.
  intros [Hc Ha Hb Hi He Hk Hj Hw] [Hf Ht Hn Hav (Hlv & Hfr & Hnx & Hmx & Hma) Hex [Hp Hp']].
  assert (lenZ (workers m') = lenZ (workers m)) as Hlen by (rewrite Hf, Ht; unfold lenZ; rewrite !length_app; done).
  split; unfold worker_ids, over in *; rewrite ?Hn, ?Hlv, ?Hfr, ?Hnx, ?Hmx, ?Hma, ?Hlen; try done.
  - rewrite Hav, Ha, Hf, Ht, !sumZ_app. cbn. lia.
  - rewrite <- Hi, Hf, Ht, !map_app. done.
  - destruct (main m); auto.
  - intros Hm. specialize (Hk Hm). rewrite Hf in Hk. rewrite Ht. by rewrite !Forall_app, !Forall_cons in *.
  - intros err Hm. destruct (Hj err Hm) as [Hnil _]. rewrite Hnil in Hf. by destruct b.
  - intros H1 H2. destruct (Hp' H1) as [H3|]; [specialize (Hw H3 H2)|]; lia.
Qed.
Lemma start_thread_ok r m :
  pool_ok m -> over m = false -> main m <> Joining -> numworker m < Z.max 1 (max_threads m) ->
  pool_ok (fuse_loop_start_thread r m).2.
Proof.
  intros [Hc Ha Hb Hi He Hk Hj Hw] Ho Hm Hlt. unfold fuse_loop_start_thread.
  destruct (malloc_ok r); cbn [negb snd]; [|by split].
  assert (forall n cfd, n = next_worker m -> pool_ok (set_started n cfd m)) as Hset.
  { intros n cfd ->. by split. }
  set (m1 := if negb (clone_fd m =? 0) && negb (clone_ok r) then set_started (next_worker m) 0 m else m). assert (pool_ok m1 /\ exists cfd, m1 = set_started (next_worker m) cfd m) as [H1 [cfd Hm1]].
  { subst m1. destruct (_ && _); [split; [by apply Hset|by eexists]|].
    split; [by split|]. exists (clone_fd m). by destruct m. }
  destruct (create_ok r); cbn [negb snd]; [|done]. clearbody m1. subst m1. destruct Hc as [Hc Hc']. specialize (Hc' Ho).
  split; unfold worker_ids, over in *; cbn [numworker numavail workers leaving freed next_worker main exited mt_finish posts
    set_started set_workers max_threads]; rewrite ?sumZ_app, ?lenZ_app, ?lenZ_cons, ?lenZ_nil; try done.
  - split; [lia|]. intros _. lia.
  - cbn. lia.
  - lia.
  - rewrite map_app. cbn [map fst]. rewrite seq_S. cbn [plus]. rewrite <- Hi.
    rewrite <- !app_assoc. rewrite (Permutation_app_comm [next_worker m]). rewrite <- !app_assoc. done.
  - intros err Hr. by rewrite Hr in Ho.
Qed.
Lemma over_exited m : pool_ok m -> exited m = false -> over m = false /\ main m <> Joining.
Proof. intros Hm He. pose proof (pk_exit m Hm) as Hx. unfold over. destruct (main m); (congruence || done). Qed.

Lemma take_request_ok r m b wid w a isforget :
  pool_ok m -> workers m = b ++ (wid, w) :: a -> ph w = Received isforget -> pool_ok (take_request r b a wid w isforget m).
Proof.
  intros Hm Hf Hp. unfold take_request. destruct (exited m) eqn:Hex.
  { eapply (pool_moves m _ b wid w a Ended); [done|]. split; cbn; try done; [|by split; [lia|auto]].
    unfold busy_of. cbn. rewrite Hp. lia. }
  set (m1 := set_workers _ (_ - _) _ _).
  assert (pool_ok m1) as H1.
  { eapply (pool_moves m _ b wid w a (Handling isforget)); [done|]. split; cbn; try done; [|by split; [lia|auto]].
    unfold busy_of, idle_change. cbn. rewrite Hp. by destruct isforget; lia. }
  destruct (over_exited m1 H1 Hex) as [Ho Hj].
  destruct ((numavail m1 =? 0) && (numworker m1 <? max_threads m1)) eqn:Hc; [|done].
  apply start_thread_ok; [done..|]. lia.
Qed.
Lemma finish_request_ok m b wid w a isforget :
  pool_ok m -> workers m = b ++ (wid, w) :: a -> ph w = Handled isforget -> pool_ok (finish_request b a wid w isforget m).
Proof.
  intros Hm Hf Hp. unfold finish_request. cbn [numavail set_workers max_idle numworker exited].
  assert (forall p, busy_of (wid, set_ph p w) = 0 -> pool_ok
    (set_workers (numworker m) (numavail m + idle_change isforget) (b ++ (wid, set_ph p w) :: a)
       (set_workers (numworker m) (numavail m + idle_change isforget) (workers m) m))) as Hput.
  { intros p Hb. eapply (pool_moves m _ b wid w a p); [done|]. split; cbn; try done; [|by split; [lia|auto]].
    rewrite Hb. unfold busy_of, idle_change. cbn. rewrite Hp. by destruct isforget; lia. }
  destruct (negb _ && _ && (1 <? numworker m)) eqn:Hc; [|by apply Hput].
  destruct (exited m) eqn:Hex; [by apply Hput|]. destruct (over_exited m Hm Hex) as [Ho Hj].
  destruct Hm as [Hc1 Ha Hb Hi He Hk Hjo Hw]. destruct Hc1 as [_ Hc1]. specialize (Hc1 Ho).
  split; unfold worker_ids, over in *; cbn [numworker numavail workers leaving freed next_worker main exited mt_finish posts
    set_gone set_workers max_threads]; try done.
  - rewrite Hc1, Hf, !lenZ_app, lenZ_cons. split; [lia|]. intros _. lia.
  - assert (busy_of (wid, w) = idle_change isforget) as Hbw by (unfold busy_of; cbn; by rewrite Hp; destruct isforget).
    rewrite Ha, Hf, !sumZ_app. cbn [sumZ foldr]. fold (sumZ busy_of a). lia.
  - lia.
  - rewrite <- Hi, Hf, !map_app. cbn. solve_Permutation.
  - destruct (main m); congruence.
Qed.

(** A worker whose step keeps its accounts. *)
Lemma moves_put m b wid w a p ex fin ps err :
  workers m = b ++ (wid, w) :: a -> busy_of (wid, set_ph p w) = busy_of (wid, w) ->
  (exited m = true -> ex = true) -> (mt_finish m + posts m <= fin + ps)%nat ->
  (ex = true -> exited m = true \/ (0 < fin + ps)%nat) ->
  moves m (set_exit err ex fin ps (set_workers (numworker m) (numavail m) (b ++ (wid, set_ph p w) :: a) m)) b wid w a p.
Proof. intros Hf Hb Hx Hp He. split; cbn; try done. lia. Qed.
Lemma moves_put_same m b wid w a p :
  workers m = b ++ (wid, w) :: a -> busy_of (wid, set_ph p w) = busy_of (wid, w) ->
  moves m (set_workers (numworker m) (numavail m) (b ++ (wid, set_ph p w) :: a) m) b wid w a p.
Proof. intros Hf Hb. split; cbn; try done; [lia|]. split; [lia|auto]. Qed.

Lemma mstep_ok m m' : mstep m m' -> pool_ok m -> pool_ok m'.
Proof.
  intros Hs Hm.
  destruct Hs as [m b wid w a Hf Hp Hx|m b wid w a Hf Hp Hx
    |m b wid w a Hf Hp Hcan|m b wid w a isforget r Hf Hp|m b wid w a isforget Hf Hp
    |m b wid w a isforget Hf Hp|m b wid a Hl|m n Hn|m Hma|m n Hma Hn|m Hma|m wid w rest Hma Hf Hp|m Hma Hf];
    try (eapply (pool_moves m _ b wid w a); [done|]; apply moves_put_same; [done|unfold busy_of; cbn; by rewrite Hp]).
  - eapply (pool_moves m _ b wid w a); [done|]. apply moves_put; [done|unfold busy_of; cbn; by rewrite Hp|done|lia|auto].
  - by apply take_request_ok.
  - by apply finish_request_ok.
  - destruct Hm as [Hc Ha Hb Hi He Hk Hj Hw]. split; try done. unfold worker_ids in *. cbn. rewrite <- Hi, Hl. solve_Permutation.
  - destruct Hm as [Hc Ha Hb Hi He Hk Hj Hw]. split; try done. cbn. lia.
  - destruct Hm as [Hc Ha Hb Hi He Hk Hj Hw]. unfold over in *. rewrite Hma in *. destruct (exited m) eqn:Hx; split; cbn; (done || congruence).
  - destruct Hm as [Hc Ha Hb Hi He Hk Hj Hw]. unfold over in *. rewrite Hma in *. split; cbn; done.
  - destruct Hm as [Hc Ha Hb Hi He Hk Hj Hw]. unfold over in *. rewrite Hma in *.
    assert (forall l : list (nat * fuse_worker), sumZ busy_of (map (fun e => (e.1, cancel e.2)) l) = sumZ busy_of l) as Hs
      by (induction l as [|e l IH]; [done|]; unfold sumZ in *; cbn; rewrite IH; done).
    split; cbn; try done.
    + unfold lenZ. rewrite length_map. split; [apply Hc|done].
    + rewrite Ha. f_equal. symmetry. apply Hs.
    + rewrite map_map. exact Hi.
    + intros _. rewrite Forall_forall. intros e (e' & -> & _)%list_elem_of_fmap. done.
  - destruct Hm as [Hc Ha Hb Hi He Hk Hj Hw]. unfold over in *. rewrite Hma in *. specialize (Hk eq_refl).
    rewrite Hf in *. apply Forall_cons in Hk as [_ Hk]. split; cbn; rewrite ?Hma; try done.
    + rewrite lenZ_cons in Hc. split; [lia|]. unfold over. cbn. by rewrite Hma.
    + assert (busy_of (wid, w) = 0) as Hb0 by (unfold busy_of; cbn; by rewrite Hp).
      rewrite Ha. cbn [sumZ foldr]. rewrite Hb0. fold (sumZ busy_of rest). unfold sumZ. lia.
    + unfold worker_ids in *. rewrite Hf in Hi. cbn in *. rewrite <- Hi. solve_Permutation.
  - destruct Hm as [Hc Ha Hb Hi He Hk Hj Hw]. unfold over in *. rewrite Hma in *. split; cbn; try done.
    intros err [= <-]. done.
Qed.

Lemma device_step_ok m m' : dstep m m' -> pool_ok m -> pool_ok m'.
Proof.
  intros Hs Hm. destruct Hs as [m b wid w a Hf Hp|m b wid w a isforget Hf Hp|m b wid w a res Hf Hp Hres Hintr];
    try (eapply (pool_moves m _ b wid w a); [done|]; apply moves_put_same; [done|unfold busy_of; cbn; by rewrite Hp]).
  eapply (pool_moves m _ b wid w a Ended); [done|]. assert (busy_of (wid, w) = 0) as Hb
    by (unfold busy_of; cbn; by rewrite Hp).
  destruct (res <? 0); split; cbn; try done; (lia || (split; [lia|intros; first [by left|right; lia]])).
Qed.
Lemma ended_by_ok m m' : ended_by m m' -> pool_ok m -> pool_ok m'.
Proof.
  intros Hs [Hc Ha Hb Hi He Hk Hj Hw]. destruct Hs as [m|m err Hr].
  - split; unfold worker_ids, over in *; cbn; try done; [|lia]. by destruct (main m).
  - split; unfold worker_ids, over in *; cbn; try done. intros err' Hm. by destruct (Hr err').
Qed.
Lemma new_pool_ok config ex fin serr r m : fuse_session_loop_mt config ex fin serr r = inr m -> pool_ok m.
Proof.
  assert (forall c, (let '(err, m) := fuse_loop_start_thread r (new_pool c ex fin serr) in
    if err =? 0 then inr m else inl (if negb (serr =? 0) then serr else err)) = inr m -> pool_ok m) as Hstart.
  { intros c. unfold fuse_loop_start_thread. destruct (malloc_ok r); [|discriminate]. cbn [negb].
    destruct (create_ok r); cbn [negb]; [|destruct (_ && _); discriminate]. intros [= <-].
    destruct (_ && _); split; unfold worker_ids, over; cbn; done || lia. }
  unfold fuse_session_loop_mt. cbv zeta. destruct config as [c|]; [|apply Hstart].
  destruct (negb (fuse_loop_cfg_verify c =? 0)); [discriminate|apply Hstart].
Qed.

(** Any step of the pool, the device, or what is outside. *)
Definition any_step (m m' : fuse_mt) : Prop := mstep m m' \/ dstep m m' \/ ended_by m m'.
Lemma any_step_ok m m' : any_step m m' -> pool_ok m -> pool_ok m'.
Proof. intros [Hs|[Hs|Hs]]; eauto using mstep_ok, device_step_ok, ended_by_ok. Qed.
Lemma reachable_ok config ex fin serr r m0 m :
  fuse_session_loop_mt config ex fin serr r = inr m0 -> rtc any_step m0 m -> pool_ok m.
Proof.
  intros H0 Hr. refine (rtc_ind_r pool_ok m0 _ _ m Hr); [by eapply new_pool_ok|].
  intros x y _. apply any_step_ok.
Qed.

(** C9: however the workers, their critical sections, the device and the end of the
    session interleave, the counts of the pool are right: a worker available or busy
    for each one counted, at least one and never more than allowed; every worker
    started is in the list, leaving it, or freed, exactly once; and the loop returns
    with no worker left in the list, with the session's error or the workers'. *)
Theorem pool_accounts config ex fin serr r m0 m :
  fuse_session_loop_mt config ex fin serr r = inr m0 -> rtc any_step m0 m ->
  0 <= numavail m <= numworker m /\ 1 <= numworker m <= Z.max 1 (max_threads m) /\
  NoDup (worker_ids m) /\ worker_ids m ≡ₚ seq 0 (next_worker m) /\
  (forall err, main m = Returned err -> workers m = [] /\ err = loop_result m).
Proof.
  intros H0 Hr. destruct (reachable_ok config ex fin serr r m0 m H0 Hr) as [[Hc _] Ha Hb Hi He Hk Hj Hw].
  pose proof (busy_bound (workers m)). split; [lia|]. split; [done|]. split; [|done].
  rewrite Hi. apply NoDup_seq.
Qed.

(** ** The end of the loop *)

Definition weight (e : nat * fuse_worker) : nat :=
  match ph e.2 with Ended => 0 | Top | Received _ => 1 | Receiving | Handled _ => 2 | Handling _ => 3 end.
Definition main_weight (p : main_phase) : nat :=
  match p with Sleeping => 4 | Checking => 3 | Cancelling => 2 | Joining => 1 | Returned _ => 0 end.
Definition total_weight (l : list (nat * fuse_worker)) : nat := foldr (fun e acc => 2 * weight e + 1 + acc)%nat 0%nat l.
Definition measure (m : fuse_mt) : nat := total_weight (workers m) + posts m + length (leaving m) + main_weight (main m).
Lemma total_weight_app l k : total_weight (l ++ k) = (total_weight l + total_weight k)%nat.
Proof. unfold total_weight. induction l as [|e l IH]; [done|]. cbn [app foldr]. rewrite IH. lia. Qed.
Lemma total_weight_put b wid w a p :
  (total_weight (b ++ (wid, set_ph p w) :: a) + 2 * weight (wid, w) =
    total_weight (b ++ (wid, w) :: a) + 2 * weight (wid, set_ph p w))%nat.
Proof. rewrite !total_weight_app. cbn [total_weight foldr]. fold (total_weight a). lia. Qed.

#[local] Arguments total_weight : simpl never.

Definition run_step (m m' : fuse_mt) : Prop := mstep m m' \/ dstep m m'.
(** A worker that moves to a lighter phase. *)
Lemma measure_put m m' b wid w a p :
  workers m = b ++ (wid, w) :: a -> workers m' = b ++ (wid, set_ph p w) :: a ->
  (2 * weight (wid, set_ph p w) + posts m' < 2 * weight (wid, w) + posts m)%nat ->
  leaving m' = leaving m -> main m' = main m -> (measure m' < measure m)%nat.
Proof.
  intros Hf Ht Hw Hl Hm. unfold measure. rewrite Hl, Hm, Hf, Ht. pose proof (total_weight_put b wid w a p). lia.
Qed.
Lemma run_step_decreases m m' :
  run_step m m' -> exited m = true -> exited m' = true /\ next_worker m' = next_worker m /\ (measure m' < measure m)%nat.
Proof.
  intros Hs Hx.
  destruct Hs as [Hs|Hs]; [destruct Hs as [m b wid w a Hf Hp He|m b wid w a Hf Hp He
    |m b wid w a Hf Hp Hcan|m b wid w a isforget r Hf Hp|m b wid w a isforget Hf Hp
    |m b wid w a isforget Hf Hp|m b wid a Hl|m n Hn|m Hma|m n Hma Hn|m Hma|m wid w rest Hma Hf Hp|m Hma Hf]
    |destruct Hs as [m b wid w a Hf Hp|m b wid w a isforget Hf Hp|m b wid w a res Hf Hp Hres Hintr]].
  1: congruence.
  3: unfold take_request; rewrite Hx.
  5: unfold finish_request; cbn [numavail set_workers max_idle numworker exited]; rewrite Hx; destruct (_ && _).
  all: try (split; [done|]; split; [done|]; eapply (measure_put m _ b wid w a); [done|reflexivity|unfold weight; cbn; rewrite Hp; lia|done..]).
  - split; [done|]. split; [done|]. unfold measure. cbn. rewrite Hl, !length_app. cbn. lia.
  - split; [done|]. split; [done|]. unfold measure. cbn. lia.
  - split; [done|]. split; [done|]. unfold measure. cbn. rewrite Hma, Hx. cbn. lia.
  - split; [done|]. split; [done|]. unfold measure. cbn. rewrite Hma. cbn. lia.
  - split; [done|]. split; [done|]. unfold measure. cbn. rewrite Hma. cbn.
    assert (total_weight (map (fun e => (e.1, cancel e.2)) (workers m)) = total_weight (workers m)) as ->; [|lia].
    generalize (workers m) as l. unfold total_weight. induction l as [|e l IH]; [done|]. cbn [map foldr]. by rewrite IH.
  - split; [done|]. split; [done|]. unfold measure. cbn. rewrite Hma, Hf. cbn. unfold total_weight. cbn [foldr]. lia.
  - split; [done|]. split; [done|]. unfold measure. cbn. rewrite Hma. cbn. lia.
  - destruct (res <? 0); (split; [done|]; split; [done|]; eapply (measure_put m _ b wid w a Ended); [done|reflexivity| |done..]);
      unfold weight; cbn; rewrite Hp; lia.
Qed.

(** The threads themselves always have a step to take, without the device, until the
    loop has returned and nobody is left. *)
Lemma ended_pool_moves m :
  pool_ok m -> exited m = true -> nf mstep m ->
  (exists err, main m = Returned err) /\ leaving m = [] /\ freed m ≡ₚ seq 0 (next_worker m).
Proof.
  intros [Hc Ha Hb Hi He Hk Hj Hw] Hx Hnf.
  assert (forall m', mstep m m' -> False) as Hno by (intros m' Hm; apply Hnf; by exists m').
  assert (leaving m = []) as Hl.
  { destruct (leaving m) as [|wid l] eqn:Hl; [done|]. exfalso. by eapply Hno, (s_leave m [] wid l). }
  assert (posts m = 0%nat) as Hp.
  { destruct (posts m) as [|n] eqn:Hp; [done|]. exfalso. by eapply Hno, s_post. }
  assert (exists err, main m = Returned err) as [err Hr].
  { destruct (main m) as [| | | |err] eqn:Hma; [| | | |by exists err]; exfalso.
    - by eapply Hno, s_check.
    - specialize (Hw Hx eq_refl). destruct (mt_finish m) as [|n] eqn:Hf; [lia|]. by eapply Hno, s_wake.
    - by eapply Hno, s_cancel.
    - specialize (Hk eq_refl). destruct (workers m) as [|[wid w] rest] eqn:Hws; [by eapply Hno, s_return|].
      apply Forall_cons in Hk as [Hcan _]. destruct (ph w) as [| |isforget|isforget|isforget|] eqn:Hph.
      + by eapply Hno, (s_over m [] wid w rest).
      + by eapply Hno, (s_cancelled m [] wid w rest).
      + by eapply Hno, (s_take m [] wid w rest isforget {| malloc_ok := true; clone_ok := true; create_ok := true |}).
      + by eapply Hno, (s_handled m [] wid w rest isforget).
      + by eapply Hno, (s_finish m [] wid w rest isforget).
      + by eapply Hno, (s_join m wid w rest). }
  split; [by exists err|]. split; [done|]. destruct (Hj err Hr) as [Hws _].
  unfold worker_ids in Hi. rewrite Hws, Hl in Hi. exact Hi.
Qed.

(** C10: once a session is ended its loop ends: whatever the device still answers,
    every run is finite, the threads are never stuck, not even one that waits for the
    device, and at the end the loop has returned and every worker ever started is
    freed, once. *)
Theorem ended_loop_returns config ex fin serr r m0 m :
  fuse_session_loop_mt config ex fin serr r = inr m0 -> rtc any_step m0 m -> exited m = true ->
  sn run_step m /\
  forall m', rtc run_step m m' -> nf mstep m' ->
    (exists err, main m' = Returned err) /\ freed m' ≡ₚ seq 0 (next_worker m).
Proof.
  intros H0 Hr Hx. split.
  - clear H0 Hr. remember (measure m) as n eqn:Hn. revert m Hx Hn. induction n as [n IH] using lt_wf_ind; intros m Hx ->.
    constructor. intros m' Hs. destruct (run_step_decreases m m' Hs Hx) as (Hx' & _ & Hlt). by eapply IH.
  - intros m' Hm' Hnf. pose proof (reachable_ok config ex fin serr r m0 m H0 Hr) as Hok.
    assert (pool_ok m' /\ exited m' = true /\ next_worker m' = next_worker m) as (Hok' & Hx' & Hn).
    { refine (rtc_ind_r (fun m' => pool_ok m' /\ exited m' = true /\ next_worker m' = next_worker m) m _ _ m' Hm'); [done|].
      intros x y _ Hs (H1 & H2 & H3). destruct (run_step_decreases x y Hs H2) as (H4 & H5 & _).
      split; [|split; [done|congruence]]. destruct Hs; eauto using mstep_ok, device_step_ok. }
    destruct (ended_pool_moves m' Hok' Hx' Hnf) as (He & _ & Hf). split; [done|]. by rewrite <- Hn.
Qed.

(** A pool whose first worker has taken a request, so that a second one was started, and
    whose session is then ended. *)
Definition all_ok : resources := {| malloc_ok := true; clone_ok := true; create_ok := true |}.
Definition demo_start : fuse_mt := match fuse_session_loop_mt None false 0 0 all_ok with inr m => m | inl _ => new_pool fuse_loop_cfg_create false 0 0 end.
Definition demo_worker (p : phase) : fuse_worker := {| ph := p; has_ch := false; cancelled := false |}.
Definition demo_busy : fuse_mt :=
  take_request all_ok [] [] 0 (demo_worker (Received false)) false
    (set_workers 1 1 [(0%nat, demo_worker (Received false))] demo_start).
Lemma demo_busy_reached : rtc any_step demo_start demo_busy.
Proof.
  eapply rtc_l; [left; by apply (s_loop demo_start [] 0 (demo_worker Top) [])|].
  eapply rtc_l; [right; left; by apply (d_received _ [] 0 (demo_worker Receiving) [] false)|].
  eapply rtc_l; [left; by apply (s_take _ [] 0 (demo_worker (Received false)) [] false all_ok)|]. apply rtc_refl.
Qed.
Lemma pool_accounts_witness :
  numworker demo_busy = 2 /\ numavail demo_busy = 1 /\
  (0 <= numavail demo_busy <= numworker demo_busy /\ 1 <= numworker demo_busy <= Z.max 1 (max_threads demo_busy) /\
   NoDup (worker_ids demo_busy) /\ worker_ids demo_busy ≡ₚ seq 0 (next_worker demo_busy) /\
   (forall err, main demo_busy = Returned err -> workers demo_busy = [] /\ err = loop_result demo_busy)).
Proof.
  split; [reflexivity|]. split; [reflexivity|].
  exact (pool_accounts None false 0 0 all_ok demo_start demo_busy eq_refl demo_busy_reached).
Defined.
Lemma ended_loop_returns_witness :
  sn run_step (session_exit 0 demo_busy).
Proof.
  assert (rtc any_step demo_start (session_exit 0 demo_busy)) as Hr.
  { eapply rtc_r; [exact demo_busy_reached|]. right; right. exact (e_exit demo_busy). }
  exact (proj1 (ended_loop_returns None false 0 0 all_ok demo_start (session_exit 0 demo_busy) eq_refl Hr eq_refl)).
Defined.
