(* ===== verification/HlLocks.v ===== *)
(** * lib/fuse.c: record locks

    A node of the high-level library keeps the record locks it granted, as a list in
    which the ranges of one owner are sorted, apart from each other and merged where
    they touch.  [held_by] is what such a list stands for: a function from owners and
    bytes to types. *)
From stdpp Require Import relations.
From S2P Require Import Prelude Errno Sys.

Abbreviation F_RDLCK := 0 (only parsing).
Abbreviation F_WRLCK := 1 (only parsing).
Abbreviation F_UNLCK := 2 (only parsing).
Abbreviation OFFSET_MAX := 9223372036854775807 (only parsing).
Abbreviation ENOLCK := 37 (only parsing).

Record lock := { lock_type : Z; lock_start : Z; lock_end : Z; lock_pid : Z; lock_owner : Z }.
Definition set_range (s e : Z) (l : lock) : lock :=
  {| lock_type := lock_type l; lock_start := s; lock_end := e; lock_pid := lock_pid l; lock_owner := lock_owner l |}.

(** A conflict needs another owner, a byte in common and a writer. *)
Definition conflicts (lk l : lock) : bool :=
  negb (lock_owner l =? lock_owner lk) &&
  ((lock_start lk <=? lock_end l) && (lock_start l <=? lock_end lk)) &&
  ((lock_type l =? F_WRLCK) || (lock_type lk =? F_WRLCK)).
Fixpoint locks_conflict (locks : list lock) (lk : lock) : option lock :=
  match locks with
  | [] => None
  | l :: rest => if conflicts lk l then Some l else locks_conflict rest lk
  end.

(** The loop of [locks_insert] from [*lp] on and what follows it; [newl2] says whether
    the spare lock is still there.  [None] is a use of a spare lock that is not. *)
Definition insert_here (lk : lock) (suffix : list lock) : list lock :=
  if lock_type lk =? F_UNLCK then suffix else lk :: suffix.
Fixpoint insert_rounds (fuel : nat) (locks : list lock) (lk : lock) (newl2 : bool) : option (list lock) :=
  match fuel with
  | O => None
  | S fuel =>
      match locks with
      | [] => Some (insert_here lk [])
      | l :: rest =>
          let skip l' := cons l' <$> insert_rounds fuel rest lk newl2 in
          if negb (lock_owner l =? lock_owner lk) then skip l
          else if lock_type lk =? lock_type l then
            if lock_end l <? lock_start lk - 1 then skip l
            else if lock_end lk <? lock_start l - 1 then Some (insert_here lk locks)
            else if (lock_start l <=? lock_start lk) && (lock_end lk <=? lock_end l) then Some locks
            else
              let lk := if lock_start l <? lock_start lk then set_range (lock_start l) (lock_end lk) lk else lk in
              let lk := if lock_end lk <? lock_end l then set_range (lock_start lk) (lock_end l) lk else lk in
              insert_rounds fuel rest lk newl2
          else
            if lock_end l <? lock_start lk then skip l
            else if lock_end lk <? lock_start l then Some (insert_here lk locks)
            else if (lock_start lk <=? lock_start l) && (lock_end l <=? lock_end lk)
            then insert_rounds fuel rest lk newl2
            else if lock_end l <=? lock_end lk then skip (set_range (lock_start l) (lock_start lk - 1) l)
            else if lock_start lk <=? lock_start l
            then Some (insert_here lk (set_range (lock_end lk + 1) (lock_end l) l :: rest))
            else if negb newl2 then None
            else
              let second := set_range (lock_end lk + 1) (lock_end l) l in
              cons (set_range (lock_start l) (lock_start lk - 1) l) <$>
                insert_rounds fuel (second :: rest) lk false
      end
  end.
Definition whole_unlock (lk : lock) : bool :=
  (lock_type lk =? F_UNLCK) && (lock_start lk =? 0) && (lock_end lk =? OFFSET_MAX).
(** [mem] says whether both spare locks can be allocated.  A round shortens the list
    but the one that uses the spare lock. *)
Definition locks_insert (mem : bool) (locks : list lock) (lk : lock) : option (Z * list lock) :=
  let alloc := negb (whole_unlock lk) in
  if alloc && negb mem then Some (- ENOLCK, locks)
  else pair 0 <$> insert_rounds (length locks + 2) locks lk alloc.

Definition flock_to_lock (fl : flock) (owner : Z) : lock :=
  {| lock_type := l_type fl; lock_start := l_start fl;
     lock_end := if l_len fl =? 0 then OFFSET_MAX else l_start fl + l_len fl - 1;
     lock_pid := l_pid fl; lock_owner := owner |}.
Definition lock_to_flock (lk : lock) (fl : flock) : flock :=
  {| l_type := lock_type lk; l_whence := l_whence fl; l_start := lock_start lk;
     l_len := if lock_end lk =? OFFSET_MAX then 0 else lock_end lk - lock_start lk + 1;
     l_pid := lock_pid lk |}.

(** ** What a list of locks stands for *)

Definition covers (lk : lock) (o : Z) : bool := (lock_start lk <=? o) && (o <=? lock_end lk).
Fixpoint held_by (locks : list lock) (owner o : Z) : option Z :=
  match locks with
  | [] => None
  | l :: rest => if (lock_owner l =? owner) && covers l o then Some (lock_type l) else held_by rest owner o
  end.
(** A lock that is stored; a request may also be of type [F_UNLCK]. *)
Definition range_ok (lk : lock) : Prop := 0 <= lock_start lk <= lock_end lk /\ lock_end lk <= OFFSET_MAX.
Definition stored_ok (lk : lock) : Prop := range_ok lk /\ (lock_type lk = F_RDLCK \/ lock_type lk = F_WRLCK).
Definition request_ok (lk : lock) : Prop := range_ok lk /\ (lock_type lk = F_RDLCK \/ lock_type lk = F_WRLCK \/ lock_type lk = F_UNLCK).
(** [a] comes before [b]: apart, and not touching when of one type. *)
Definition before (a b : lock) : Prop :=
  lock_owner a = lock_owner b -> lock_end a < lock_start b /\ (lock_type a = lock_type b -> lock_end a + 1 < lock_start b).
Definition locks_ok (locks : list lock) : Prop := Forall stored_ok locks /\ ForallOrdPairs before locks.

Lemma locks_ok_cons l rest : locks_ok (l :: rest) <-> stored_ok l /\ Forall (before l) rest /\ locks_ok rest.
Proof.
  unfold locks_ok. rewrite Forall_cons. split.
  - intros [[Hl Hr] Hp]. inversion Hp; subst. done.
  - intros (Hl & Hb & Hr & Hp). split; [done|]. by constructor.
Qed.
Lemma held_by_cons l rest owner o :
  held_by (l :: rest) owner o = if (lock_owner l =? owner) && covers l o then Some (lock_type l) else held_by rest owner o.
Proof. done. Qed.

Lemma before_mono p l x :
  before p l -> lock_owner x = lock_owner l -> lock_type x = lock_type l -> lock_start l <= lock_start x -> before p x.
Proof. intros Hb Ho Ht Hs Hp. rewrite Ho in Hp. destruct (Hb Hp) as [H1 H2]. rewrite Ht. split; [lia|]. intros He. specialize (H2 He). lia. Qed.
Lemma before_shrink l l' x :
  before l x -> lock_owner l' = lock_owner l -> lock_type l' = lock_type l -> lock_end l' <= lock_end l -> before l' x.
Proof. intros Hb Ho Ht Hs Hp. rewrite Ho in Hp. destruct (Hb Hp) as [H1 H2]. rewrite Ht. split; [lia|]. intros He. specialize (H2 He). lia. Qed.
Lemma before_past a l x :
  lock_owner a = lock_owner l -> lock_end a < lock_start l -> lock_start l <= lock_end l -> before l x -> before a x.
Proof. intros Ho He Hr Hb Hp. rewrite Ho in Hp. destruct (Hb Hp) as [H1 _]. split; lia. Qed.
Lemma before_intro a b :
  (lock_owner a = lock_owner b -> lock_end a < lock_start b) ->
  (lock_owner a = lock_owner b -> lock_type a = lock_type b -> lock_end a + 1 < lock_start b) -> before a b.
Proof. intros H1 H2 Ho. auto. Qed.
Lemma held_by_none locks owner o :
  Forall (fun x => lock_owner x = owner -> covers x o = false) locks -> held_by locks owner o = None.
Proof.
  induction 1 as [|x locks Hx _ IH]; [done|]. rewrite held_by_cons. destruct (Z.eqb_spec (lock_owner x) owner) as [He|]; [|exact IH].
  by rewrite (Hx He).
Qed.
(** The request grown over a lock of its own type that it overlaps or touches. *)
Definition merged (l lk : lock) : lock :=
  set_range (Z.min (lock_start l) (lock_start lk)) (Z.max (lock_end l) (lock_end lk)) lk.
Lemma merged_eq l lk :
  (let lk := if lock_start l <? lock_start lk then set_range (lock_start l) (lock_end lk) lk else lk in
   if lock_end lk <? lock_end l then set_range (lock_start lk) (lock_end l) lk else lk) = merged l lk.
Proof.
  destruct lk as [t s e p o]. unfold merged, set_range. cbn.
  destruct (Z.ltb_spec (lock_start l) s); cbn; destruct (Z.ltb_spec e (lock_end l)); cbn; f_equal; lia.
Qed.

(** What [insert_rounds] does with a well-formed list. *)
Definition granted (lk : lock) : option Z := if lock_type lk =? F_UNLCK then None else Some (lock_type lk).
Record inserted (locks locks' : list lock) (lk : lock) : Prop := {
  in_ok : locks_ok locks';
  in_before : forall p, Forall (before p) locks -> (lock_type lk <> F_UNLCK -> before p lk) -> Forall (before p) locks';
  in_held : forall owner o, held_by locks' owner o =
    if (lock_owner lk =? owner) && covers lk o then granted lk else held_by locks owner o;
}.
Ltac lock_cases :=
  unfold covers, granted, merged, set_range in *; cbn [lock_type lock_start lock_end lock_pid lock_owner] in *;
  repeat match goal with
         | |- context [Z.eqb ?a ?b] => destruct (Z.eqb_spec a b)
         | |- context [Z.leb ?a ?b] => destruct (Z.leb_spec a b)
         | |- context [Z.ltb ?a ?b] => destruct (Z.ltb_spec a b)
         end; cbn [andb orb negb] in *; first [done | congruence | lia].

(** A lock that is passed, and one that loses its end to the request. *)
Lemma inserted_pass l rest locks' lk :
  inserted rest locks' lk -> stored_ok l -> Forall (before l) rest -> before l lk -> inserted (l :: rest) (l :: locks') lk.
Proof.
  intros [Hok Hbe Hh] Hl Hbl Hlk. split.
  - rewrite locks_ok_cons. split; [done|]. split; [|done]. by apply Hbe.
  - intros p Hp Hplk. apply Forall_cons in Hp as [Hp1 Hp2]. constructor; [done|by apply Hbe].
  - intros owner o. rewrite !held_by_cons, Hh. destruct (Z.eqb_spec (lock_owner l) owner) as [Hlo|Hlo]; cbn [andb]; [|done].
    destruct (Z.eqb_spec (lock_owner lk) owner) as [Hko|Hko]; cbn [andb]; [|done].
    destruct (Hlk (eq_trans Hlo (eq_sym Hko))) as [Hlt _]. lock_cases.
Qed.
Lemma inserted_cut l rest locks' lk :
  inserted rest locks' lk -> stored_ok l -> lock_owner l = lock_owner lk -> lock_type lk <> lock_type l ->
  lock_start l < lock_start lk -> lock_start lk <= lock_end l <= lock_end lk ->
  Forall (before (set_range (lock_start l) (lock_start lk - 1) l)) rest ->
  inserted (l :: rest) (set_range (lock_start l) (lock_start lk - 1) l :: locks') lk.
Proof.
  intros [Hok Hbe Hh] [Hr Ht] Ho Hty Hs Hse Hbl. set (l' := set_range _ _ l) in *.
  assert (before l' lk) as Hlk by (apply before_intro; unfold l'; cbn; intros; [lia|congruence]).
  split.
  - rewrite locks_ok_cons. split; [|by split; [apply Hbe|]]. split; [|done]. unfold range_ok, l' in *. cbn. lia.
  - intros p Hp Hplk. apply Forall_cons in Hp as [Hp1 Hp2]. constructor; [|by apply Hbe]. by eapply (before_mono p l).
  - intros owner o. rewrite !held_by_cons, Hh, <- Ho. unfold l'. destruct (Z.eqb_spec (lock_owner l) owner) as [He|He].
    + lock_cases.
    + unfold set_range. cbn [lock_owner]. destruct (Z.eqb_spec (lock_owner l) owner); [done|]. done.
Qed.
(** A lock in the middle of which the request lies. *)
Lemma inserted_split l rest locks' lk :
  let second := set_range (lock_end lk + 1) (lock_end l) l in
  inserted (second :: rest) locks' lk -> stored_ok l -> range_ok lk -> lock_owner l = lock_owner lk -> lock_type lk <> lock_type l ->
  lock_start l < lock_start lk -> lock_end lk < lock_end l -> Forall (before l) rest ->
  inserted (l :: rest) (set_range (lock_start l) (lock_start lk - 1) l :: locks') lk.
Proof.
  intros second Hin Hl Hlk Ho Hty Hs He Hbl. set (first := set_range (lock_start l) (lock_end lk) l).
  assert (inserted (first :: second :: rest) (set_range (lock_start l) (lock_start lk - 1) l :: locks') lk) as [Hok Hbe Hh].
  { apply (inserted_cut first); try done; unfold first, second, stored_ok, range_ok in *; cbn in *; [lia|lia|].
    constructor; [apply before_intro; cbn; lia|]. eapply Forall_impl; [exact Hbl|]. intros x Hx. eapply before_shrink; [exact Hx|done..|]. cbn. lia. }
  split; [done| |].
  - intros p Hp Hplk. apply Forall_cons in Hp as [Hp1 Hp2]. apply Hbe; [|done].
    constructor; [by eapply (before_mono p l)|]. constructor; [|done]. eapply (before_mono p l); [done..|]. unfold second, range_ok in *. cbn. lia.
  - intros owner o. rewrite Hh, !held_by_cons. unfold first, second, range_ok in *. lock_cases.
Qed.
(** The list from the place of insertion on. *)
Lemma inserted_here locks lk :
  locks_ok locks -> request_ok lk -> Forall (before lk) locks ->
  inserted locks (insert_here lk locks) lk.
Proof.
  intros Hok [Hr Ht] Hb. unfold insert_here, granted. assert (Forall (fun x => lock_owner x = lock_owner lk -> forall o, covers lk o = true -> covers x o = false) locks) as Hno.
  { eapply Forall_impl; [exact Hb|]. intros x Hx Ho o. destruct (Hx (eq_sym Ho)) as [Hlt _]. lock_cases. }
  destruct (Z.eqb_spec (lock_type lk) F_UNLCK) as [Hu|Hu]; split; try done.
  - intros owner o. unfold granted. rewrite Hu. cbn.
    destruct (Z.eqb_spec (lock_owner lk) owner) as [<-|]; cbn [andb]; [|done]. destruct (covers lk o) eqn:Hc; [|done].
    apply held_by_none. eapply Forall_impl; [exact Hno|]. auto.
  - rewrite locks_ok_cons. split; [|done]. split; [done|]. destruct Ht as [?|[?|?]]; auto; lia.
  - intros p Hp Hplk. constructor; auto.
  - intros owner o. rewrite held_by_cons. unfold granted. by destruct (Z.eqb_spec (lock_type lk) F_UNLCK).
Qed.

(** A lock of the request's type that overlaps or touches it disappears in it. *)
Lemma inserted_merge l rest locks' lk :
  inserted rest locks' (merged l lk) -> stored_ok l -> lock_owner l = lock_owner lk -> lock_type lk = lock_type l ->
  lock_start lk - 1 <= lock_end l -> lock_start l - 1 <= lock_end lk -> inserted (l :: rest) locks' lk.
Proof.
  intros [Hok Hbe Hh] [Hr Ht] Ho Hty H1 H2. split; [done| |].
  - intros p Hp Hplk. apply Forall_cons in Hp as [Hp1 Hp2]. apply Hbe; [done|]. intros Hu.
    assert (before p lk) as Hp3 by (apply Hplk; exact Hu).
    destruct (Z.le_gt_cases (lock_start l) (lock_start lk)).
    + eapply (before_mono p l); [done|unfold merged; cbn; congruence..|unfold merged; cbn; lia].
    + eapply (before_mono p lk); [done|done..|unfold merged; cbn; lia].
  - intros owner o. rewrite Hh, held_by_cons, <- Ho, <- Hty. unfold range_ok in *. change (lock_owner (merged l lk)) with (lock_owner lk).
    rewrite Ho. destruct (Z.eqb_spec (lock_owner lk) owner); cbn [andb]; [|done]. lock_cases.
Qed.
(** A lock inside a request of another type disappears. *)
Lemma inserted_delete l rest locks' lk :
  inserted rest locks' lk -> lock_owner l = lock_owner lk -> lock_start lk <= lock_start l -> lock_end l <= lock_end lk ->
  inserted (l :: rest) locks' lk.
Proof.
  intros [Hok Hbe Hh] Ho H1 H2. split; [done| |].
  - intros p Hp Hplk. apply Forall_cons in Hp as [Hp1 Hp2]. by apply Hbe.
  - intros owner o. rewrite Hh, held_by_cons, <- Ho. destruct (Z.eqb_spec (lock_owner l) owner); cbn [andb]; lock_cases.
Qed.

(** The spare lock is used at most once, and never when everything is unlocked. *)
Definition no_split (lk : lock) (locks : list lock) : Prop :=
  Forall (fun x => lock_owner x = lock_owner lk -> ~ (lock_start x < lock_start lk /\ lock_end lk < lock_end x)) locks.
Lemma no_split_merged l lk locks : no_split lk locks -> no_split (merged l lk) locks.
Proof. intros H. eapply Forall_impl; [exact H|]. unfold merged. cbn. lia. Qed.
Lemma merged_request l lk : stored_ok l -> request_ok lk -> request_ok (merged l lk).
Proof. intros [Hr _] [Hk Ht]. split; [|exact Ht]. unfold range_ok, merged in *. cbn. lia. Qed.

Lemma insert_rounds_spec fuel : forall (locks : list lock) (lk : lock) (newl2 : bool),
  request_ok lk -> locks_ok locks -> (length locks + (if newl2 then 1 else 0) < fuel)%nat ->
  (newl2 = false -> no_split lk locks) ->
  exists locks', insert_rounds fuel locks lk newl2 = Some locks' /\ inserted locks locks' lk.
Proof.
  induction fuel as [|fuel IH]; intros locks lk newl2 Hlk Hok Hfuel Hsp; [lia|].
  destruct locks as [|l rest]; [eexists; split; [done|by apply inserted_here]|].
  apply locks_ok_cons in Hok as (Hl & Hbl & Hrest). pose proof Hl as [Hlr Hlt]. pose proof Hlk as [Hkr Hkt].
  assert (newl2 = false -> no_split lk rest) as Hsp' by (intros Hn; specialize (Hsp Hn); by apply Forall_cons in Hsp as [_ ?]).
  assert (forall lk', request_ok lk' -> (newl2 = false -> no_split lk' rest) ->
    exists locks', insert_rounds fuel rest lk' newl2 = Some locks' /\ inserted rest locks' lk') as Hrec.
  { intros lk' Hlk' Hsp1. apply IH; [done..| |done]. cbn in Hfuel. lia. }
  destruct (Hrec lk Hlk Hsp') as (r & Hr & Hir).
  assert (lock_owner l = lock_owner lk -> lock_end lk < lock_start l -> (lock_type lk = lock_type l -> lock_end lk < lock_start l - 1) ->
    inserted (l :: rest) (insert_here lk (l :: rest)) lk) as Hhere.
  { intros Ho He Htl. apply inserted_here; [rewrite locks_ok_cons; done|done|]. constructor; [apply before_intro; [lia|intros _ Htt; specialize (Htl Htt); lia]|].
    eapply Forall_impl; [exact Hbl|]. intros x Hx. eapply (before_past lk l); [done|done|apply Hlr|done]. }
  unfold range_ok in *. cbn [insert_rounds].
  destruct (Z.eqb_spec (lock_owner l) (lock_owner lk)) as [Ho|Ho]; cbn [negb].
  2: { rewrite Hr. eexists; split; [reflexivity|]. apply inserted_pass; [done..|]. by intros ?. }
  destruct (Z.eqb_spec (lock_type lk) (lock_type l)) as [Ht|Ht].
  - destruct (Z.ltb_spec (lock_end l) (lock_start lk - 1)).
    { rewrite Hr. eexists; split; [reflexivity|]. apply inserted_pass; [done..|]. apply before_intro; lia. }
    destruct (Z.ltb_spec (lock_end lk) (lock_start l - 1)); [eexists; split; [reflexivity|]; apply Hhere; lia|].
    destruct (_ && _) eqn:Hin.
    + apply andb_true_iff in Hin as [H1 H2]. apply Z.leb_le in H1, H2. eexists; split; [reflexivity|].
      split; [by rewrite locks_ok_cons|done|]. intros owner o. rewrite held_by_cons. unfold granted. lock_cases.
    + cbv zeta. rewrite merged_eq. destruct (Hrec (merged l lk)) as (r' & Hr' & Hi); [by apply merged_request| |].
      { intros Hn. apply no_split_merged. auto. }
      exists r'. split; [done|]. apply (inserted_merge l); (done || lia).
  - destruct (Z.ltb_spec (lock_end l) (lock_start lk)).
    { rewrite Hr. eexists; split; [reflexivity|]. apply inserted_pass; [done..|]. apply before_intro; lia. }
    destruct (Z.ltb_spec (lock_end lk) (lock_start l)); [eexists; split; [reflexivity|]; apply Hhere; lia|].
    destruct (_ && _) eqn:Hin.
    { apply andb_true_iff in Hin as [H1 H2]. apply Z.leb_le in H1, H2. eexists; split; [exact Hr|]. by apply inserted_delete. }
    destruct (Z.leb_spec (lock_end l) (lock_end lk)).
    { assert (lock_start l < lock_start lk) by (destruct (Z.leb_spec (lock_start lk) (lock_start l)); [done|lia]).
      rewrite Hr. eexists; split; [reflexivity|]. apply inserted_cut; [done|done|done|done|done|lia|].
      eapply Forall_impl; [exact Hbl|]. intros x Hx. eapply before_shrink; [exact Hx|done..|cbn; lia]. }
    destruct (Z.leb_spec (lock_start lk) (lock_start l)).
    + eexists; split; [reflexivity|]. set (l' := set_range (lock_end lk + 1) (lock_end l) l).
      assert (inserted (l' :: rest) (insert_here lk (l' :: rest)) lk) as [H1' H2' H3'].
      { apply inserted_here; [|done|].
        - rewrite locks_ok_cons. split; [|split; [|done]]; [unfold stored_ok, range_ok, l'; cbn; split; [lia|done]|].
          eapply Forall_impl; [exact Hbl|]. intros x Hx. by eapply before_shrink.
        - constructor; [apply before_intro; unfold l'; cbn; lia|].
          eapply Forall_impl; [exact Hbl|]. intros x Hx. eapply (before_past lk l'); unfold l'; cbn; [done|lia|lia|].
          by eapply before_shrink. }
      split; [done| |].
      * intros p Hp Hplk. apply Forall_cons in Hp as [Hp1 Hp2]. apply H2'; [|done]. constructor; [|done].
        eapply (before_mono p l); [done..|]. unfold l'. cbn. lia.
      * intros owner o. rewrite H3', !held_by_cons. unfold l'. lock_cases.
    + destruct newl2; cbn [negb].
      2: { exfalso. specialize (Hsp eq_refl). apply Forall_cons in Hsp as [Hno _]. apply Hno; [done|lia]. }
      set (second := set_range (lock_end lk + 1) (lock_end l) l).
      destruct (IH (second :: rest) lk false) as (r' & Hr' & Hi); [done| |cbn in *; lia| |].
      * rewrite locks_ok_cons. split; [|split; [|done]]; [unfold stored_ok, range_ok, second; cbn; split; [lia|done]|].
        eapply Forall_impl; [exact Hbl|]. intros x Hx. by eapply before_shrink.
      * intros _. constructor; [unfold second; cbn; lia|]. eapply Forall_impl; [exact Hbl|]. intros x Hx Hxo.
        destruct (Hx (eq_trans Ho (eq_sym Hxo))) as [Hlt' _]. lia.
      * rewrite Hr'. eexists; split; [reflexivity|]. by apply inserted_split.
Qed.

(** C21: the list of locks of a node refines a map from owners and bytes to types:
    inserting a lock gives its owner its type on its bytes, or nothing when it unlocks,
    and leaves every other owner and byte; the list stays sorted, apart and merged; no
    spare lock is missing; and without memory nothing changes, except that everything
    of an owner can always be unlocked. *)
Theorem locks_insert_refines mem locks lk :
  request_ok lk -> locks_ok locks ->
  if mem || whole_unlock lk then
    exists locks', locks_insert mem locks lk = Some (0, locks') /\ locks_ok locks' /\
      forall owner o, held_by locks' owner o =
        if (owner =? lock_owner lk) && covers lk o then granted lk else held_by locks owner o
  else locks_insert mem locks lk = Some (- ENOLCK, locks).
Proof.
  intros Hlk Hok. unfold locks_insert.
  destruct (insert_rounds_spec (length locks + 2) locks lk (negb (whole_unlock lk)) Hlk Hok) as (locks' & Hr & [H1 _ H3]).
  - destruct (negb _); lia.
  - intros Hw%negb_false_iff. unfold whole_unlock in Hw. rewrite !andb_true_iff, !Z.eqb_eq in Hw. destruct Hw as [[_ Hs] He].
    destruct Hok as [Hst _]. eapply Forall_impl; [exact Hst|]. intros x [[Hx1 Hx2] _] _. lia.
  - destruct mem, (whole_unlock lk); cbn [negb andb orb] in *; try done; rewrite Hr;
      exists locks'; (split; [done|]; split; [done|]; intros owner o; rewrite H3; by rewrite (Z.eqb_sym owner)).
Qed.

Lemma held_by_elem locks owner o t :
  held_by locks owner o = Some t -> exists l, l ∈ locks /\ lock_owner l = owner /\ covers l o = true /\ lock_type l = t.
Proof.
  induction locks as [|l rest IH]; [done|]. rewrite held_by_cons. destruct (_ && _) eqn:Hc.
  - intros [= <-]. apply andb_true_iff in Hc as [Ho%Z.eqb_eq Hc]. exists l. split; [left|done].
  - intros H. destruct (IH H) as (x & Hx & Hrest). exists x. split; [by right|done].
Qed.
Lemma elem_held_by locks l o : locks_ok locks -> l ∈ locks -> covers l o = true -> held_by locks (lock_owner l) o = Some (lock_type l).
Proof.
  induction locks as [|x rest IH]; [by intros ? ?%not_elem_of_nil|]. intros (Hx & Hb & Hr)%locks_ok_cons [->|Hl]%elem_of_cons Hc.
  - by rewrite held_by_cons, Z.eqb_refl, Hc.
  - rewrite held_by_cons, IH by done. destruct (_ && _) eqn:Hxc; [|done]. apply andb_true_iff in Hxc as [Ho%Z.eqb_eq Hxc].
    rewrite Forall_forall in Hb. destruct (Hb l Hl Ho) as [Hlt _]. revert Hc Hxc. lock_cases.
Qed.
Lemma locks_conflict_elem locks lk l : locks_conflict locks lk = Some l -> l ∈ locks /\ conflicts lk l = true.
Proof.
  induction locks as [|x rest IH]; [done|]. cbn. destruct (conflicts lk x) eqn:Hc; [intros [= <-]; by split; [left|]|].
  intros H. destruct (IH H). by split; [right|].
Qed.
Lemma locks_conflict_none locks lk l : locks_conflict locks lk = None -> l ∈ locks -> conflicts lk l = false.
Proof.
  induction locks as [|x rest IH]; [by intros ? ?%not_elem_of_nil|]. cbn. destruct (conflicts lk x) eqn:Hc; [done|].
  intros H [->|Hl]%elem_of_cons; auto.
Qed.
(** Two types that two owners cannot have on one byte. *)
Definition clash (t u : Z) : bool := (t =? F_WRLCK) || (u =? F_WRLCK).
Lemma locks_conflict_spec locks lk :
  range_ok lk -> locks_ok locks ->
  (locks_conflict locks lk = None <->
   forall owner o t, owner <> lock_owner lk -> covers lk o = true -> held_by locks owner o = Some t -> clash t (lock_type lk) = false).
Proof.
  intros Hr Hok. split.
  - intros Hn owner o t Ho Hc (l & Hl & <- & Hlc & <-)%held_by_elem. pose proof (locks_conflict_none locks lk l Hn Hl) as Hno.
    unfold conflicts, clash in *. revert Hno Hc Hlc. unfold covers. destruct (_ || _); [|done]. rewrite andb_true_r.
    destruct (Z.eqb_spec (lock_owner l) (lock_owner lk)); [done|]. cbn [negb andb]. lia.
  - intros Hall. destruct (locks_conflict locks lk) as [l|] eqn:Hl; [|done]. exfalso.
    apply locks_conflict_elem in Hl as [Hel Hc]. unfold conflicts in Hc. rewrite !andb_true_iff in Hc. destruct Hc as [[Ho [H1 H2]] Ht].
    pose proof Hok as [Hst _]. rewrite Forall_forall in Hst. destruct (Hst l Hel) as [[Hlr _] _]. unfold range_ok in *.
    assert (covers l (Z.max (lock_start l) (lock_start lk)) = true) as Hcl by (unfold covers; lia).
    pose proof (elem_held_by locks l _ Hok Hel Hcl) as Hh.
    apply negb_true_iff, Z.eqb_neq in Ho. assert (covers lk (Z.max (lock_start l) (lock_start lk)) = true) as Hck by (unfold covers; lia).
    specialize (Hall _ _ _ Ho Hck Hh). unfold clash in Hall. congruence.
Qed.

(** What [fuse_lib_setlk] does to a node when the file system grants the request. *)
Inductive lock_call : list lock -> list lock -> Prop :=
  | call_granted mem locks lk err locks' :
      request_ok lk -> (lock_type lk <> F_UNLCK -> locks_conflict locks lk = None) ->
      locks_insert mem locks lk = Some (err, locks') -> lock_call locks locks'.
(** No two owners ever have clashing locks on a byte. *)
Definition exclusive (locks : list lock) : Prop :=
  forall a b o t u, a <> b -> held_by locks a o = Some t -> held_by locks b o = Some u -> clash t u = false.
(** C22: as long as the file system grants only requests for which
    [locks_conflict] finds nothing, whatever sequence of locks, unlocks and failed
    allocations a node goes through, its list is well formed and no byte is ever
    locked for writing by one owner and locked by another. *)
Theorem granted_locks_exclude locks : rtc lock_call [] locks -> locks_ok locks /\ exclusive locks.
Proof.
  intros Hr. refine (rtc_ind_r (fun l => locks_ok l /\ exclusive l) [] _ _ locks Hr); [split; [by split; constructor|done]|].
  intros x y _ [mem locks0 lk err locks' Hlk Hno Hins] [Hok Hex].
  pose proof (locks_insert_refines mem locks0 lk Hlk Hok) as Href. destruct (_ || _).
  2: { rewrite Href in Hins. by injection Hins as <- <-. }
  destruct Href as (l' & Hins' & Hok' & Hheld). rewrite Hins in Hins'. injection Hins' as -> ->. split; [done|].
  assert (forall b o t u, b <> lock_owner lk -> covers lk o = true -> granted lk = Some t -> held_by locks0 b o = Some u -> clash t u = false) as Hnew.
  { intros b o t u Hb Hc Hg Hu. unfold granted in Hg. destruct (Z.eqb_spec (lock_type lk) F_UNLCK) as [|Hty]; [done|]. injection Hg as <-.
    pose proof (proj1 (locks_conflict_spec locks0 lk (proj1 Hlk) Hok) (Hno Hty) b o u Hb Hc Hu) as Hcl.
    unfold clash in *. by rewrite orb_comm. }
  intros a b o t u Hab. rewrite !Hheld. destruct (Z.eqb_spec a (lock_owner lk)), (Z.eqb_spec b (lock_owner lk)); cbn [andb]; [congruence|..].
  - destruct (covers lk o) eqn:Hc; [intros; by eapply Hnew|by apply Hex].
  - destruct (covers lk o) eqn:Hc; [|by apply Hex]. intros Ht Hu. unfold clash. rewrite orb_comm. by eapply Hnew.
  - by apply Hex.
Qed.

(** The two descriptions of a lock say the same. *)
Theorem flock_lock_roundtrip lk fl : range_ok lk -> flock_to_lock (lock_to_flock lk fl) (lock_owner lk) = lk.
Proof.
  intros [Hr He]. destruct lk as [t s e p o]. cbn in *. unfold flock_to_lock. cbn. f_equal.
  destruct (Z.eqb_spec e OFFSET_MAX) as [->|Hne]; [done|]. destruct (Z.eqb_spec (e - s + 1) 0); lia.
Qed.

(** Owner 1 reads bytes 0 to 9; owner 2 writes from 20 on; owner 1 then writes 4 to 5,
    which cuts its first lock in two. *)
Definition demo_lock (t s e owner : Z) : lock := {| lock_type := t; lock_start := s; lock_end := e; lock_pid := 7; lock_owner := owner |}.
Definition demo_locks : list lock := [demo_lock F_RDLCK 0 9 1; demo_lock F_WRLCK 20 OFFSET_MAX 2].
Definition demo_cut : list lock :=
  [demo_lock F_RDLCK 0 3 1; demo_lock F_WRLCK 4 5 1; demo_lock F_RDLCK 6 9 1; demo_lock F_WRLCK 20 OFFSET_MAX 2].
Lemma demo_locks_ok : locks_ok demo_locks.
Proof.
  unfold demo_locks; rewrite !locks_ok_cons. unfold stored_ok, range_ok, demo_lock. cbn.
  repeat split; try lia; repeat constructor; by intros ?.
Qed.
Lemma locks_insert_refines_witness :
  locks_insert true demo_locks (demo_lock F_WRLCK 4 5 1) = Some (0, demo_cut) /\
  exists locks', locks_insert true demo_locks (demo_lock F_WRLCK 4 5 1) = Some (0, locks') /\ locks_ok locks' /\
    forall owner o, held_by locks' owner o =
      if (owner =? 1) && covers (demo_lock F_WRLCK 4 5 1) o then Some F_WRLCK else held_by demo_locks owner o.
Proof.
  split; [reflexivity|].
  apply (locks_insert_refines true demo_locks (demo_lock F_WRLCK 4 5 1)); [|exact demo_locks_ok].
  unfold request_ok, range_ok, demo_lock. cbn. lia.
Defined.
Lemma granted_locks_exclude_witness :
  locks_ok demo_locks /\ exclusive demo_locks.
Proof.
  apply granted_locks_exclude.
  eapply rtc_l; [apply (call_granted true [] (demo_lock F_RDLCK 0 9 1) 0 [demo_lock F_RDLCK 0 9 1])|].
  1: unfold request_ok, range_ok, demo_lock; cbn; lia. 1-2: reflexivity.
  eapply rtc_l; [apply (call_granted true _ (demo_lock F_WRLCK 20 OFFSET_MAX 2) 0 demo_locks)|apply rtc_refl].
  1: unfold request_ok, range_ok, demo_lock; cbn; lia. all: reflexivity.
Defined.
