(* ===== verification/HlTable.v ===== *)
(** * lib/fuse.c: hash tables that grow and shrink by one bucket at a time

    The nodes of the high-level library are in two tables, by id and by name.  A table
    of [size] buckets uses the first [size / 2 + split] of them: a bucket below [split]
    has already been divided between itself and its partner [size / 2] further on.  A
    bucket is the list of the nodes chained in it; nodes are numbers, and [key] is what
    the code computes the hash of a node from.  [None] is an access outside the array or
    through a null pointer.  The code has every function twice, for ids and for names. *)
From S2P Require Import Prelude.

Abbreviation NODE_TABLE_MIN_SIZE := 8192 (only parsing).
Record node_table := { array : list (list nat); use : Z; size : Z; split : Z }.
Definition set_split (s : Z) (t : node_table) : node_table :=
  {| array := array t; use := use t; size := size t; split := s |}.
Definition set_array (a : list (list nat)) (t : node_table) : node_table :=
  {| array := a; use := use t; size := size t; split := split t |}.
Definition set_use (u : Z) (t : node_table) : node_table :=
  {| array := array t; use := u; size := size t; split := split t |}.
(** [calloc] of [NODE_TABLE_MIN_SIZE] buckets. *)
Definition node_table_init : node_table :=
  {| array := replicate (Z.to_nat NODE_TABLE_MIN_SIZE) []; use := 0; size := NODE_TABLE_MIN_SIZE; split := 0 |}.

(** The bucket of a hash. *)
Definition table_index (t : node_table) (h : Z) : Z :=
  let hash := h `mod` size t in
  let oldhash := hash `mod` (size t / 2) in
  if split t <=? oldhash then oldhash else hash.
Definition id_key (ino : Z) : Z := u32 (u32 ino * 2654435761).
Definition id_hash (t : node_table) (ino : Z) : Z := table_index t (id_key ino).
Fixpoint name_key (hash : Z) (name : string) : Z :=
  match name with
  | EmptyString => hash
  | String c rest => name_key (u64 (hash * 31 + Z.of_nat (Ascii.nat_of_ascii c))) rest
  end.
Definition name_hash (t : node_table) (parent : Z) (name : string) : Z := table_index t (name_key parent name).

Definition bucket (t : node_table) (i : Z) : option (list nat) := array t !! Z.to_nat i.
Definition set_bucket (i : Z) (chain : list nat) (t : node_table) : node_table :=
  set_array (<[Z.to_nat i := chain]> (array t)) t.
(** [t->array[i] = node], in front of the chain. *)
Definition push (i : Z) (n : nat) (t : node_table) : option node_table :=
  chain ← bucket t i; Some (set_bucket i (n :: chain) t).

(** [ok] says whether [realloc] succeeds. *)
Definition node_table_reduce (ok : bool) (t : node_table) : node_table :=
  let newsize := size t / 2 in
  if newsize <? NODE_TABLE_MIN_SIZE then t
  else {| array := if ok then take (Z.to_nat newsize) (array t) else array t;
          use := use t; size := newsize; split := newsize / 2 |}.
Definition node_table_resize (ok : bool) (t : node_table) : node_table :=
  if ok then {| array := take (Z.to_nat (size t)) (array t) ++ replicate (Z.to_nat (size t)) [];
                use := use t; size := size t * 2; split := 0 |}
  else t.

Fixpoint remerge_rounds (iter : nat) (t : node_table) : option node_table :=
  match iter with
  | O => Some t
  | S iter =>
      if 0 <? split t then
        let t := set_split (split t - 1) t in
        let i := split t + size t / 2 in
        upper ← bucket t i;
        match upper with
        | [] => remerge_rounds iter t
        | _ => lower ← bucket t (split t); Some (set_bucket i [] (set_bucket (split t) (lower ++ upper) t))
        end
      else Some t
  end.
Definition remerge (ok : bool) (t : node_table) : option node_table :=
  remerge_rounds 8 (if split t =? 0 then node_table_reduce ok t else t).

(** The nodes of the divided bucket: those that stay, and the table with the others in
    their new bucket. *)
Fixpoint divide (key : nat -> option Z) (hash : Z) (chain : list nat) (t : node_table) : option (list nat * node_table) :=
  match chain with
  | [] => Some ([], t)
  | n :: rest =>
      k ← key n;
      let newhash := table_index t k in
      if negb (newhash =? hash) then t ← push newhash n t; divide key hash rest t
      else '(kept, t) ← divide key hash rest t; Some (n :: kept, t)
  end.
Definition rehash (key : nat -> option Z) (ok : bool) (t : node_table) : option node_table :=
  if split t =? size t / 2 then Some t
  else
    let hash := split t in
    let t := set_split (split t + 1) t in
    chain ← bucket t hash;
    '(kept, t) ← divide key hash chain t;
    let t := set_bucket hash kept t in
    Some (if split t =? size t / 2 then node_table_resize ok t else t).

(** [hash_id] and the end of [hash_name], with the hash of the node. *)
Definition table_add (key : nat -> option Z) (ok : bool) (h : Z) (n : nat) (t : node_table) : option node_table :=
  t ← push (table_index t h) n t;
  let t := set_use (use t + 1) t in
  if size t / 2 <=? use t then rehash key ok t else Some t.
(** The search of [unhash_id] and [unhash_name]: [None] in the second place when the
    node is not in its bucket. *)
Fixpoint unchain (n : nat) (chain : list nat) : option (list nat) :=
  match chain with
  | [] => None
  | m :: rest => if decide (m = n) then Some rest else cons m <$> unchain n rest
  end.
Definition table_unlink (h : Z) (n : nat) (t : node_table) : option (option node_table) :=
  chain ← bucket t (table_index t h);
  Some ((fun rest => set_bucket (table_index t h) rest t) <$> unchain n chain).
(** What follows it. *)
Definition table_shrink (ok : bool) (t : node_table) : option node_table :=
  let t := set_use (use t - 1) t in
  if use t <? size t / 4 then remerge ok t else Some t.

(** ** Indices *)

Definition half (t : node_table) : Z := size t / 2.
Record sized (t : node_table) : Prop := {
  sz_size : exists k, 0 <= k /\ size t = NODE_TABLE_MIN_SIZE * 2 ^ k;
  sz_split : 0 <= split t <= half t;
}.
Lemma size_half t : sized t -> size t = 2 * half t /\ 4096 <= half t.
Proof.
  intros [(k & Hk & Hs) _]. unfold half. rewrite Hs. replace (8192 * 2 ^ k) with (2 * (4096 * 2 ^ k)) by lia.
  rewrite (Z.mul_comm 2), Z.div_mul by lia. pose proof (Z.pow_pos_nonneg 2 k). lia.
Qed.
Lemma mod_half h n : 0 < n -> 
  (h `mod` (2 * n) = h `mod` n \/ h `mod` (2 * n) = h `mod` n + n) /\ (h `mod` (2 * n)) `mod` n = h `mod` n.
Proof.
  intros Hn. assert ((h `mod` (2 * n)) `mod` n = h `mod` n) as He.
  { rewrite (Z.mul_comm 2), Z.rem_mul_r, Z.mul_comm by lia. rewrite Z_mod_plus_full. by apply Zmod_mod. }
  split; [|done]. rewrite <- He. pose proof (Z.mod_pos_bound h (2 * n)). pose proof (Z.mod_pos_bound h n).
  set (r := h `mod` (2 * n)) in *. destruct (Z.lt_ge_cases r n).
  - left. rewrite (Z.mod_small r) by lia. done.
  - right. replace (r `mod` n) with (r - n); [lia|]. apply Z.mod_unique_pos with 1; lia.
Qed.
(** The index by the place of the hash in the smaller table. *)
Lemma index_spec t h : sized t ->
  (split t <= h `mod` half t /\ table_index t h = h `mod` half t) \/
  (h `mod` half t < split t /\ table_index t h = h `mod` size t).
Proof.
  intros Ht. destruct (size_half t Ht) as [Hs Hh]. unfold table_index. fold (half t).
  rewrite Hs. destruct (mod_half h (half t)) as [_ ->]; [lia|]. destruct (Z.leb_spec (split t) (h `mod` half t)); auto.
Qed.
Lemma index_range t h : sized t -> 0 <= table_index t h < half t + split t.
Proof.
  intros Ht. destruct (size_half t Ht) as [Hs Hh]. pose proof (sz_split t Ht) as Hsp. pose proof (Z.mod_pos_bound h (half t)).
  destruct (index_spec t h Ht) as [[H1 ->]|[H1 ->]]; [lia|].
  rewrite Hs. destruct (mod_half h (half t)) as [[Hm|Hm] _]; rewrite ?Hm; lia.
Qed.
Lemma index_array t a h : table_index (set_array a t) h = table_index t h.
Proof. done. Qed.
Lemma index_use t u h : table_index (set_use u t) h = table_index t h.
Proof. done. Qed.
(** Dividing the bucket [split] moves nothing but to its partner; merging undoes it. *)
Lemma index_divided t h : sized t -> split t < half t ->
  table_index t h <> split t -> table_index (set_split (split t + 1) t) h = table_index t h.
Proof.
  intros Ht Hlt Hne. destruct (size_half t Ht) as [Hs Hh]. assert (sized (set_split (split t + 1) t)) as Ht'.
  { destruct Ht as [H1 H2]. split; [done|]. unfold half in *. cbn. lia. }
  destruct (index_spec t h Ht) as [[H1 H2]|[H1 H2]], (index_spec _ h Ht') as [[H3 H4]|[H3 H4]];
    unfold half in *; cbn [size split set_split] in *; lia.
Qed.
Lemma index_merged t h : sized t -> 0 < split t ->
  table_index (set_split (split t - 1) t) h =
    if table_index t h =? split t - 1 + half t then split t - 1 else table_index t h.
Proof.
  intros Ht Hlt. destruct (size_half t Ht) as [Hs Hh]. pose proof (sz_split t Ht) as Hsp.
  assert (sized (set_split (split t - 1) t)) as Ht'.
  { destruct Ht as [H1 H2]. split; [done|]. unfold half in *. cbn. lia. }
  pose proof (Z.mod_pos_bound h (half t)). destruct (mod_half h (half t)) as [Hm _]; [lia|]. rewrite <- Hs in Hm.
  destruct (index_spec t h Ht) as [[H1 H2]|[H1 H2]], (index_spec _ h Ht') as [[H3 H4]|[H3 H4]];
    rewrite H2, H4; unfold half in *; cbn [size split set_split] in *;
    match goal with |- context [Z.eqb ?a ?b] => destruct (Z.eqb_spec a b) end; lia.
Qed.

(** ** Well-formed tables *)

Definition elements (t : node_table) : list nat := concat (array t).
Definition at_home (key : nat -> option Z) (t : node_table) (i : Z) (n : nat) : Prop :=
  exists h, key n = Some h /\ table_index t h = i.
(** [d] is how far the count is behind: unlinked nodes that are still counted. *)
Record table_ok (key : nat -> option Z) (d : Z) (t : node_table) : Prop := {
  tk_sized : sized t;
  tk_len : size t <= lenZ (array t);
  tk_home : forall i chain, array t !! i = Some chain -> Forall (at_home key t (Z.of_nat i)) chain;
  tk_use : use t = lenZ (elements t) + d;
  tk_nodup : NoDup (elements t);
}.

(** One bucket against the others. *)
Definition others (i : nat) (a : list (list nat)) : list nat := concat (take i a) ++ concat (drop (S i) a).
Lemma concat_bucket (a : list (list nat)) i c : a !! i = Some c -> concat a ≡ₚ c ++ others i a.
Proof.
  intros Hi. unfold others. rewrite <- (take_drop_middle a i c Hi) at 1. rewrite concat_app. cbn [concat].
  by rewrite Permutation_app_swap_app.
Qed.
Lemma others_insert (a : list (list nat)) i c : others i (<[i:=c]> a) = others i a.
Proof. unfold others. by rewrite take_insert_ge, drop_insert_lt by lia. Qed.
Lemma concat_insert (a : list (list nat)) i c c' : a !! i = Some c -> concat (<[i:=c']> a) ≡ₚ c' ++ others i a.
Proof.
  intros Hi. rewrite (concat_bucket (<[i:=c']> a) i c'), others_insert; [done|].
  apply list_lookup_insert_eq. by eapply lookup_lt_Some.
Qed.
Lemma concat_insert_perm (a : list (list nat)) i c c' l :
  a !! i = Some c -> c' ≡ₚ l ++ c -> concat (<[i:=c']> a) ≡ₚ l ++ concat a.
Proof. intros Hi Hc. rewrite (concat_insert a i c c' Hi), (concat_bucket a i c Hi), Hc. by rewrite app_assoc. Qed.

Lemma bucket_some t i : sized t -> size t <= lenZ (array t) -> 0 <= i < size t ->
  exists chain, bucket t i = Some chain /\ array t !! Z.to_nat i = Some chain.
Proof.
  intros Ht Hl Hi. unfold bucket. destruct (lookup_lt_is_Some_2 (array t) (Z.to_nat i)) as [c Hc]; [unfold lenZ in Hl; lia|].
  by exists c.
Qed.
Lemma index_bound t h : sized t -> 0 <= table_index t h < size t.
Proof.
  intros Ht. pose proof (index_range t h Ht). destruct (size_half t Ht). pose proof (sz_split t Ht). lia.
Qed.

(** The search in a bucket finds what is in the table. *)
Lemma found_at_home key d t n h : table_ok key d t -> key n = Some h -> n ∈ elements t ->
  exists chain, bucket t (table_index t h) = Some chain /\ n ∈ chain.
Proof.
  intros [Ht Hl Hh _ _] Hk Hn. unfold elements in Hn. apply list_elem_of_In, in_concat in Hn as (chain & Hc & Hn).
  apply list_elem_of_In, list_elem_of_lookup in Hc as [i Hi]. pose proof (Hh i chain Hi) as Hall. rewrite Forall_forall in Hall.
  apply list_elem_of_In in Hn. destruct (Hall n Hn) as (h' & Hk' & Hx). assert (h' = h) as -> by congruence.
  exists chain. rewrite Hx. unfold bucket. by rewrite Nat2Z.id.
Qed.
Lemma bucket_elem t i chain n : bucket t i = Some chain -> n ∈ chain -> n ∈ elements t.
Proof.
  unfold bucket, elements. intros Hb Hn. apply list_elem_of_In, in_concat. exists chain.
  split; [|by apply list_elem_of_In]. apply list_elem_of_In. by eapply list_elem_of_lookup_2.
Qed.

(** Tables of one shape. *)
Definition same_shape (t t' : node_table) : Prop :=
  size t' = size t /\ split t' = split t /\ use t' = use t /\ length (array t') = length (array t).
Lemma same_index t t' h : same_shape t t' -> table_index t' h = table_index t h.
Proof. intros (Hs & Hp & _ & _). unfold table_index. by rewrite Hs, Hp. Qed.
Lemma same_home key t t' i n : same_shape t t' -> at_home key t i n -> at_home key t' i n.
Proof. intros Hs (h & Hk & Hi). exists h. by rewrite (same_index t t'). Qed.
Lemma same_sized t t' : same_shape t t' -> sized t -> sized t'.
Proof. intros (Hs & Hp & _ & _) [H1 H2]. split; unfold half; rewrite ?Hs, ?Hp; done. Qed.
Lemma set_bucket_shape i c t : same_shape t (set_bucket i c t).
Proof. unfold same_shape, set_bucket. cbn. by rewrite length_insert. Qed.

(** All buckets but [i0] hold nodes at home. *)
Definition homes (key : nat -> option Z) (t : node_table) (i0 : Z) : Prop :=
  forall i chain, array t !! i = Some chain -> Z.of_nat i <> i0 -> Forall (at_home key t (Z.of_nat i)) chain.
Lemma homes_set key t i0 i chain :
  homes key t i0 -> 0 <= i -> (i <> i0 -> Forall (at_home key t i) chain) -> homes key (set_bucket i chain t) i0.
Proof.
  intros Hh Hi Hc j c. cbn. intros Hj Hne. destruct (decide (j = Z.to_nat i)) as [->|Hji].
  - rewrite Z2Nat.id in Hne |- * by lia. rewrite list_lookup_insert_eq in Hj.
    + injection Hj as <-. eapply Forall_impl; [by apply Hc|]. intros n. apply same_home, set_bucket_shape.
    + rewrite <- (length_insert (array t) (Z.to_nat i) chain). by eapply lookup_lt_Some.
  - rewrite list_lookup_insert_ne in Hj by done. eapply Forall_impl; [by eapply Hh|]. intros n. apply same_home, set_bucket_shape.
Qed.
Lemma homes_all key t : homes key t (-1) <-> forall i chain, array t !! i = Some chain -> Forall (at_home key t (Z.of_nat i)) chain.
Proof. split; intros H i c Hi; [apply (H i c Hi); lia|intros _; by apply H]. Qed.
Lemma homes_fill key t i0 chain : homes key t i0 -> 0 <= i0 -> Forall (at_home key t i0) chain -> homes key (set_bucket i0 chain t) (-1).
Proof.
  intros Hh Hi Hc j c. cbn. intros Hj _. destruct (decide (j = Z.to_nat i0)) as [->|Hji].
  - rewrite Z2Nat.id by lia. rewrite list_lookup_insert_eq in Hj.
    + injection Hj as <-. eapply Forall_impl; [exact Hc|]. intros n. apply same_home, set_bucket_shape.
    + rewrite <- (length_insert (array t) (Z.to_nat i0) chain). by eapply lookup_lt_Some.
  - rewrite list_lookup_insert_ne in Hj by done. eapply Forall_impl; [eapply Hh; [done|lia]|]. intros n. apply same_home, set_bucket_shape.
Qed.

(** [push] puts a node in its bucket. *)
Lemma push_spec key t i0 i n : sized t -> size t <= lenZ (array t) -> homes key t i0 -> at_home key t i n -> 0 <= i < size t ->
  exists t', push i n t = Some t' /\ same_shape t t' /\ homes key t' i0 /\ elements t' ≡ₚ n :: elements t /\
    (i <> i0 -> 0 <= i0 -> array t' !! Z.to_nat i0 = array t !! Z.to_nat i0).
Proof.
  intros Ht Hl Hh Hn Hi. destruct (bucket_some t i Ht Hl Hi) as (chain & Hb & Ha). unfold push. rewrite Hb. cbn.
  eexists; split; [reflexivity|]. split; [apply set_bucket_shape|]. split; [|split].
  - apply homes_set; [done|lia|]. intros Hne. constructor; [done|]. specialize (Hh (Z.to_nat i) chain Ha). rewrite Z2Nat.id in Hh by lia. auto.
  - unfold elements. cbn. by apply (concat_insert_perm (array t) (Z.to_nat i) chain (n :: chain) [n]).
  - intros Hne H0. cbn. apply list_lookup_insert_ne. lia.
Qed.

(** ** Growing *)

Lemma divide_spec key hash : forall chain t,
  sized t -> size t <= lenZ (array t) -> homes key t hash -> 0 <= hash ->
  Forall (fun n => exists i, at_home key t i n) chain ->
  exists kept moved t', divide key hash chain t = Some (kept, t') /\ kept ++ moved ≡ₚ chain /\ same_shape t t' /\
    homes key t' hash /\ Forall (at_home key t' hash) kept /\ array t' !! Z.to_nat hash = array t !! Z.to_nat hash /\
    elements t' ≡ₚ moved ++ elements t.
Proof.
  induction chain as [|n rest IH]; intros t Ht Hl Hh H0 Hc.
  { exists [], [], t. cbn. split_and!; try done; by constructor. }
  apply Forall_cons in Hc as [(i & h & Hk & Hi) Hc]. cbn [divide]. rewrite Hk. cbn [mbind option_bind]. rewrite Hi.
  destruct (Z.eqb_spec i hash) as [->|Hne]; cbn [negb].
  - destruct (IH t Ht Hl Hh H0 Hc) as (kept & moved & t' & Hd & Hp & Hs & Hh' & Hkept & Ha & He). rewrite Hd. cbn.
    exists (n :: kept), moved, t'. split_and!; try done; [by rewrite <- Hp|]. constructor; [|done].
    apply (same_home key t); [done|]. by exists h.
  - destruct (push_spec key t hash i n Ht Hl Hh) as (t1 & Hpush & Hs1 & Hh1 & He1 & Ha1); [by exists h|subst i; by apply index_bound|].
    rewrite Hpush. cbn. destruct (IH t1) as (kept & moved & t' & Hd & Hp & Hs & Hh' & Hkept & Ha & He); try done.
    { by apply (same_sized t). } { destruct Hs1 as (-> & _ & _ & Hl1). unfold lenZ in *. by rewrite Hl1. }
    { eapply Forall_impl; [exact Hc|]. intros m [j Hj]. exists j. by apply (same_home key t). }
    exists kept, (n :: moved), t'. split_and!; try done.
    + rewrite <- Hp. apply Permutation_sym, Permutation_middle.
    + unfold same_shape in *. intuition congruence.
    + by rewrite Ha, Ha1.
    + rewrite He, He1. apply Permutation_sym, Permutation_middle.
Qed.

Lemma sized_split t s : sized t -> 0 <= s <= half t -> sized (set_split s t).
Proof. intros [H1 _] Hs. by split. Qed.
Lemma homes_split key t : sized t -> split t < half t -> homes key t (-1) -> homes key (set_split (split t + 1) t) (split t).
Proof.
  intros Ht Hlt Hh i chain Hi Hne. cbn in Hi. specialize (Hh i chain Hi ltac:(lia)). eapply Forall_impl; [exact Hh|].
  intros n (h & Hk & Hx). exists h. split; [done|]. rewrite index_divided by (done || congruence). done.
Qed.

Lemma resize_ok key d ok t : table_ok key d t -> split t = half t -> table_ok key d (node_table_resize ok t) /\ elements (node_table_resize ok t) = elements t.
Proof.
  intros [Ht Hl Hh Hu Hn] Hs. unfold node_table_resize. destruct ok; [|done].
  destruct (size_half t Ht) as [Hsz Hhf]. set (t' := {| array := _; use := _; size := _; split := _ |}).
  assert (Forall (eq []) (drop (Z.to_nat (size t)) (array t))) as Hempty.
  { apply Forall_lookup. intros j c Hj. rewrite lookup_drop in Hj. specialize (Hh _ c Hj). destruct c as [|n c]; [done|].
    apply Forall_cons in Hh as [(h & _ & Hx) _]. pose proof (index_bound t h Ht). lia. }
  assert (elements t' = elements t) as He.
  { unfold elements, t'. cbn. rewrite <- (take_drop (Z.to_nat (size t)) (array t)) at 2. rewrite !concat_app. f_equal.
    trans (@nil nat); [|symmetry]; (clear -Hempty || idtac).
    - generalize (Z.to_nat (size t)). intros m. induction m; [done|exact IHm].
    - induction Hempty as [|c a <- _ IH]; [done|exact IH]. }
  split; [|done]. rewrite <- He in Hn. assert (sized t') as Ht'.
  { destruct (sz_size t Ht) as (k & Hk & Hs'). split.
    - exists (k + 1). split; [lia|]. unfold t'. cbn [size]. rewrite Hs', Z.pow_add_r by lia. lia.
    - unfold half, t'. cbn [size split]. pose proof (Z.div_pos (size t * 2) 2). lia. }
  split; [done| | |by rewrite He|done].
  - unfold t', lenZ in *. cbn. rewrite length_app, length_take, length_replicate. lia.
  - intros i chain Hi. unfold t' in Hi. cbn in Hi. apply lookup_app_Some in Hi as [Hi|[_ Hi]].
    2: { apply lookup_replicate in Hi as [-> _]. constructor. }
    apply lookup_take_Some in Hi as [Hi _]. specialize (Hh i chain Hi). eapply Forall_impl; [exact Hh|].
    intros n (h & Hk & Hx). exists h. split; [done|]. rewrite <- Hx.
    assert (half t' = size t) as Hht by (unfold half, t'; cbn [size]; rewrite Z.div_mul; lia).
    pose proof (Z.mod_pos_bound h (half t)). pose proof (Z.mod_pos_bound h (size t)).
    destruct (index_spec t h Ht) as [[H1 _]|[_ ->]]; [lia|]. destruct (index_spec t' h Ht') as [[_ ->]|[H1 _]]; [by rewrite Hht|].
    change (split t') with 0 in H1. rewrite Hht in H1. lia.
Qed.

(** Whatever the table does, its nodes stay the same. *)
Lemma rehash_ok key d ok t : table_ok key d t -> exists t', rehash key ok t = Some t' /\ table_ok key d t' /\ elements t' ≡ₚ elements t.
Proof.
  intros Hok. pose proof Hok as [Ht Hl Hh Hu Hn]. unfold rehash. fold (half t). destruct (size_half t Ht) as [Hsz Hhf]. pose proof (sz_split t Ht).
  destruct (Z.eqb_spec (split t) (half t)) as [|Hne]; [by exists t|].
  set (t1 := set_split (split t + 1) t). set (s := split t) in *.
  assert (sized t1) as Ht1 by (apply sized_split; [done|lia]).
  destruct (bucket_some t1 s Ht1) as (chain & Hb & Ha); [done|unfold t1; cbn; lia|]. rewrite Hb. cbn [mbind option_bind].
  rewrite <- homes_all in Hh. pose proof (homes_split key t Ht ltac:(lia) Hh) as Hh1. fold t1 s in Hh1.
  assert (Forall (fun n => exists i, at_home key t1 i n) chain) as Hc.
  { specialize (Hh (Z.to_nat s) chain Ha ltac:(lia)). eapply Forall_impl; [exact Hh|]. intros n (h & Hk & _). exists (table_index t1 h), h. done. }
  destruct (divide_spec key s chain t1 Ht1 Hl Hh1 ltac:(lia) Hc) as (kept & moved & t2 & Hd & Hp & Hs & Hh2 & Hkept & Ha2 & He).
  rewrite Hd. cbn [mbind option_bind]. set (t3 := set_bucket s kept t2).
  assert (same_shape t1 t3) as Hs3 by (pose proof (set_bucket_shape s kept t2) as Hsb; fold t3 in Hsb; unfold same_shape in *; intuition congruence).
  assert (elements t3 ≡ₚ elements t) as He3.
  { unfold elements, t3. cbn. rewrite (concat_insert (array t2) (Z.to_nat s) chain) by (rewrite Ha2; exact Ha).
    apply (Permutation_app_inv_l moved). change (concat (array t)) with (elements t1). rewrite <- He, app_assoc, (Permutation_app_comm moved), Hp.
    symmetry. apply concat_bucket. by rewrite Ha2. }
  assert (table_ok key d t3) as Hok3.
  { destruct Hs3 as (E1 & E2 & E3 & E4). split.
    - by apply (same_sized t1).
    - rewrite E1. unfold lenZ. rewrite E4. exact Hl.
    - rewrite <- homes_all. apply homes_fill; [done|lia|done].
    - rewrite E3. change (use t1) with (use t). rewrite Hu. f_equal. by apply lenZ_perm.
    - by rewrite He3. }
  assert (half t3 = half t) as Hh3 by (destruct Hs3 as (E1 & _); unfold half; by rewrite E1).
  fold (half t3). destruct (Z.eqb_spec (split t3) (half t3)) as [He'|]; [|by exists t3].
  destruct (resize_ok key d ok t3 Hok3 He') as [Hok4 He4]. eexists. split; [reflexivity|]. split; [done|]. by rewrite He4.
Qed.

(** A table of the same shape, with its nodes at home. *)
Lemma shaped_ok key d t t' : sized t -> size t <= lenZ (array t) -> same_shape t t' -> homes key t' (-1) ->
  NoDup (elements t') -> table_ok key d (set_use (lenZ (elements t') + d) t').
Proof.
  intros Ht Hl Hs Hh Hn. pose proof (same_sized t t' Hs Ht) as Ht'. destruct Hs as (E1 & E2 & E3 & E4). split; try done.
  - destruct Ht' as [H1 H2]. by split.
  - cbn. rewrite E1. unfold lenZ. by rewrite E4.
  - by apply homes_all.
Qed.
Lemma table_add_ok key d ok h n t : table_ok key d t -> key n = Some h -> n ∉ elements t ->
  exists t', table_add key ok h n t = Some t' /\ table_ok key d t' /\ elements t' ≡ₚ n :: elements t.
Proof.
  intros [Ht Hl Hh Hu Hn] Hk Hnew. unfold table_add. rewrite <- homes_all in Hh.
  destruct (push_spec key t (-1) (table_index t h) n Ht Hl Hh) as (t1 & Hp & Hs & Hh1 & He & _); [by exists h|by apply index_bound|].
  rewrite Hp. cbn [mbind option_bind]. assert (table_ok key d (set_use (use t1 + 1) t1)) as Hok.
  { replace (use t1 + 1) with (lenZ (elements t1) + d); [apply (shaped_ok key d t); try done|].
    - rewrite He. by constructor.
    - rewrite He, lenZ_cons. destruct Hs as (_ & _ & -> & _). lia. }
  destruct (_ <=? _).
  - destruct (rehash_ok key d ok _ Hok) as (t' & Hr & Hok' & He'). exists t'. split; [done|]. split; [done|]. by rewrite He'.
  - by eexists.
Qed.

(** ** Shrinking *)

Lemma reduce_ok key d ok t : table_ok key d t -> split t = 0 ->
  table_ok key d (node_table_reduce ok t) /\ elements (node_table_reduce ok t) = elements t.
Proof.
  intros Hok Hs. unfold node_table_reduce. fold (half t). destruct (Z.ltb_spec (half t) NODE_TABLE_MIN_SIZE) as [|Hmin]; [done|].
  pose proof Hok as [Ht Hl Hh Hu Hn]. destruct (size_half t Ht) as [Hsz Hhf].
  assert (forall h, table_index t h = h `mod` half t) as Hix.
  { intros h. pose proof (Z.mod_pos_bound h (half t)). destruct (index_spec t h Ht) as [[_ ?]|[? _]]; [done|lia]. }
  set (t' := {| array := _; use := _; size := _; split := _ |}).
  assert (sized t') as Ht'.
  { destruct (sz_size t Ht) as (k & Hk & Hsk). split.
    - assert (1 <= k) as Hk1. { destruct (Z.eq_dec k 0) as [->|]; [|lia]. lia. }
      exists (k - 1). split; [lia|]. unfold t'. cbn [size]. rewrite Z.pow_sub_r by lia. unfold half. rewrite Hsk.
      replace (2 ^ k) with (2 * 2 ^ (k - 1)) by (rewrite <- Z.pow_succ_r by lia; f_equal; lia).
      replace (8192 * (2 * 2 ^ (k - 1))) with (8192 * 2 ^ (k - 1) * 2) by lia. rewrite Z.div_mul by lia.
      rewrite (Z.mul_comm 2), Z.pow_1_r, Z.div_mul by lia. done.
    - unfold half, t'. cbn [size split]. pose proof (Z.div_pos (half t) 2). lia. }
  assert (elements t' = elements t) as He.
  { unfold elements, t'. cbn. destruct ok; [|done]. rewrite <- (take_drop (Z.to_nat (half t)) (array t)) at 2. rewrite concat_app.
    assert (Forall (eq []) (drop (Z.to_nat (half t)) (array t))) as Hempty; [|].
    { apply Forall_lookup. intros j c Hj. rewrite lookup_drop in Hj. specialize (Hh _ c Hj). destruct c as [|n c]; [done|].
      apply Forall_cons in Hh as [(h & _ & Hx) _]. rewrite Hix in Hx. pose proof (Z.mod_pos_bound h (half t)). lia. }
    assert (forall a : list (list nat), Forall (eq []) a -> concat a = []) as Hc.
    { induction 1 as [|c a <- _ IH]; [done|exact IH]. }
    by rewrite (Hc _ Hempty), app_nil_r. }
  split; [|done]. rewrite <- He in Hn. split; [done| | |by rewrite He|done].
  - unfold t', lenZ in *. cbn. destruct ok; [rewrite length_take|]; lia.
  - intros i chain Hi. assert (array t !! i = Some chain) as Hi'.
    { unfold t' in Hi. cbn in Hi. destruct ok; [by apply lookup_take_Some in Hi as [? _]|done]. }
    specialize (Hh i chain Hi'). eapply Forall_impl; [exact Hh|]. intros n (h & Hk & Hx). exists h. split; [done|].
    rewrite <- Hx, Hix. destruct (size_half t' Ht') as [Hsz' Hhf']. change (size t') with (half t) in Hsz'.
    destruct (index_spec t' h Ht') as [[H1 _]|[_ ->]]; [|done]. pose proof (Z.mod_pos_bound h (half t')).
    change (split t') with (half t / 2) in H1. assert (half t' = half t / 2) by done. lia.
Qed.

Lemma remerge_rounds_ok key d iter : forall t, table_ok key d t ->
  exists t', remerge_rounds iter t = Some t' /\ table_ok key d t' /\ elements t' ≡ₚ elements t.
Proof.
  induction iter as [|iter IH]; intros t Hok; [by exists t|]. cbn [remerge_rounds].
  pose proof Hok as [Ht Hl Hh Hu Hn]. pose proof (sz_split t Ht) as Hsp. destruct (size_half t Ht) as [Hsz Hhf].
  destruct (Z.ltb_spec 0 (split t)) as [Hpos|]; [|by exists t].
  set (s := split t - 1). set (t1 := set_split s t). change (size t1 / 2) with (half t). change (split t1) with s.
  assert (sized t1) as Ht1 by (apply sized_split; [done|subst s; lia]).
  assert (forall i n, at_home key t i n -> at_home key t1 (if i =? s + half t then s else i) n) as Hmove.
  { intros i n (h & Hk & Hx). exists h. split; [done|]. unfold t1, s. rewrite index_merged, Hx by done. done. }
  destruct (bucket_some t1 (s + half t)) as (upper & Hb & Ha); [done..|cbn; subst s; lia|]. rewrite Hb. cbn [mbind option_bind].
  assert (forall i chain, array t !! i = Some chain -> i <> Z.to_nat (s + half t) -> Forall (at_home key t1 (Z.of_nat i)) chain) as Hstay.
  { intros i chain Hi Hne. eapply Forall_impl; [exact (Hh i chain Hi)|]. intros n Hx%Hmove.
    destruct (Z.eqb_spec (Z.of_nat i) (s + half t)); [lia|done]. }
  destruct upper as [|u upper].
  { assert (table_ok key d t1) as Hok1.
    { split; try done. intros i chain Hi. destruct (decide (i = Z.to_nat (s + half t))) as [->|]; [|by apply Hstay].
      assert (chain = []) as -> by (cbn in *; congruence). constructor. }
    destruct (IH t1 Hok1) as (t' & Hr & Hok' & He'). by exists t'. }
  destruct (bucket_some t1 s) as (lower & Hb' & Ha'); [done..|cbn; subst s; lia|]. rewrite Hb'. cbn [mbind option_bind].
  set (t2 := set_bucket s (lower ++ u :: upper) t1). set (t3 := set_bucket (s + half t) [] t2).
  assert (same_shape t1 t3) as Hs3.
  { pose proof (set_bucket_shape s (lower ++ u :: upper) t1) as S1. pose proof (set_bucket_shape (s + half t) [] t2) as S2.
    fold t2 in S1. fold t3 in S2. unfold same_shape in *. intuition congruence. }
  assert (homes key t1 (s + half t)) as Hh1.
  { intros i chain Hi Hne. apply Hstay; [exact Hi|]. lia. }
  assert (homes key t3 (-1)) as Hh3.
  { apply homes_fill; [|lia|constructor]. apply homes_set; [done|lia|]. intros _. apply Forall_app. split.
    - specialize (Hstay _ lower Ha' ltac:(lia)). by rewrite Z2Nat.id in Hstay by lia.
    - eapply Forall_impl; [exact (Hh _ _ Ha)|]. intros n Hx%Hmove. rewrite Z2Nat.id, Z.eqb_refl in Hx by lia. done. }
  assert (elements t3 ≡ₚ elements t) as He3.
  { assert (array t2 !! Z.to_nat (s + half t) = Some (u :: upper)) as Ha2.
    { cbn. rewrite list_lookup_insert_ne by lia. exact Ha. }
    apply (Permutation_app_inv_l (u :: upper)). unfold elements at 1. cbn [t3 set_bucket set_array array].
    rewrite (concat_insert _ _ _ [] Ha2). cbn [app]. rewrite <- (concat_bucket _ _ _ Ha2).
    exact (concat_insert_perm (array t) (Z.to_nat s) lower (lower ++ u :: upper) (u :: upper) Ha' (Permutation_app_comm _ _)). }
  exists t3. split; [done|]. split; [|done]. replace t3 with (set_use (lenZ (elements t3) + d) t3).
  { apply (shaped_ok key d t1); [done|done|done|done|]. by rewrite He3. }
  destruct Hs3 as (_ & _ & E3 & _). rewrite He3, <- Hu. change (use t) with (use t1). rewrite <- E3. by destruct t3.
Qed.
Lemma remerge_ok key d ok t : table_ok key d t -> exists t', remerge ok t = Some t' /\ table_ok key d t' /\ elements t' ≡ₚ elements t.
Proof.
  intros Hok. unfold remerge. destruct (Z.eqb_spec (split t) 0) as [Hs|]; [|by apply remerge_rounds_ok].
  destruct (reduce_ok key d ok t Hok Hs) as [Hok' <-]. by apply remerge_rounds_ok.
Qed.

Lemma unchain_spec n chain : n ∈ chain -> NoDup chain -> exists rest, unchain n chain = Some rest /\ chain ≡ₚ n :: rest.
Proof.
  induction chain as [|m chain IH]; [by intros ?%not_elem_of_nil|]. intros Hn [Hm Hd]%NoDup_cons. cbn.
  destruct (decide (m = n)) as [->|Hne]; [by exists chain|]. apply elem_of_cons in Hn as [|Hn]; [congruence|].
  destruct (IH Hn Hd) as (rest & -> & Hp). exists (m :: rest). split; [done|]. rewrite Hp. apply Permutation_swap.
Qed.
Lemma unchain_none n chain : n ∉ chain -> unchain n chain = None.
Proof.
  induction chain as [|m chain IH]; [done|]. rewrite not_elem_of_cons. intros [Hne Hn]. cbn.
  rewrite decide_False by congruence. by rewrite IH.
Qed.
(** A node in the table is unlinked; the count follows later. *)
Lemma table_unlink_ok key d t n h : table_ok key d t -> key n = Some h -> n ∈ elements t ->
  exists t', table_unlink h n t = Some (Some t') /\ table_ok key (d + 1) t' /\ elements t ≡ₚ n :: elements t'.
Proof.
  intros Hok Hk Hn. pose proof Hok as [Ht Hl Hh Hu Hd]. destruct (found_at_home key d t n h Hok Hk Hn) as (chain & Hb & Hin).
  unfold table_unlink. rewrite Hb. cbn [mbind option_bind]. unfold bucket in Hb. set (i := Z.to_nat (table_index t h)) in *.
  assert (NoDup chain) as Hdc. { unfold elements in Hd. rewrite (concat_bucket _ _ _ Hb) in Hd. by apply NoDup_app in Hd as [? _]. }
  destruct (unchain_spec n chain Hin Hdc) as (rest & -> & Hp). cbn [fmap option_fmap option_map].
  set (t' := set_bucket _ rest t). assert (elements t ≡ₚ n :: elements t') as He.
  { unfold elements. change (array t') with (<[i:=rest]> (array t)). rewrite (concat_insert _ _ _ rest Hb), (concat_bucket _ _ _ Hb), Hp. done. }
  exists t'. split; [done|]. split; [|done]. pose proof (set_bucket_shape (table_index t h) rest t) as Hs. fold t' in Hs.
  pose proof (same_sized t t' Hs Ht) as Ht'. destruct Hs as (E1 & _ & E3 & E4). split; [done| | | |].
  - rewrite E1. unfold lenZ. by rewrite E4.
  - apply homes_all. apply homes_set; [by apply homes_all|apply (index_bound t h Ht)|]. intros _. specialize (Hh i chain Hb). unfold i in Hh.
    rewrite Z2Nat.id in Hh by apply (index_bound t h Ht). rewrite Hp in Hh. by apply Forall_cons in Hh as [_ ?].
  - rewrite E3, Hu, He, lenZ_cons. lia.
  - rewrite He in Hd. by apply NoDup_cons in Hd as [_ ?].
Qed.
Lemma table_shrink_ok key d ok t : table_ok key (d + 1) t ->
  exists t', table_shrink ok t = Some t' /\ table_ok key d t' /\ elements t' ≡ₚ elements t.
Proof.
  intros [Ht Hl Hh Hu Hd]. unfold table_shrink. assert (table_ok key d (set_use (use t - 1) t)) as Hok.
  { replace (use t - 1) with (lenZ (elements t) + d) by lia. apply (shaped_ok key d t); try done. by apply homes_all. }
  destruct (_ <? _); [by apply (remerge_ok key d ok) in Hok|by eexists].
Qed.
(** The keys of other nodes do not matter. *)
Lemma table_ok_ext key key' d t : (forall n, n ∈ elements t -> key' n = key n) -> table_ok key d t -> table_ok key' d t.
Proof.
  intros He [Ht Hl Hh Hu Hd]. split; try done. intros i chain Hi. apply Forall_forall. intros n Hn.
  specialize (Hh i chain Hi). rewrite Forall_forall in Hh. destruct (Hh n Hn) as (h & Hk & Hx). exists h. split; [|done].
  rewrite He; [done|]. unfold elements. apply list_elem_of_In, in_concat. exists chain. split; [|by apply list_elem_of_In].
  apply list_elem_of_In. by eapply list_elem_of_lookup_2.
Qed.

(** ** A table is a set *)

Inductive table_op := Add (n : nat) | Del (n : nat).
(** What [find_node] and [delete_node] do with a table: look for a node, and add it if it
    is not there; remove one. *)
Definition table_find (key : nat -> option Z) (n : nat) (t : node_table) : option bool :=
  h ← key n; chain ← bucket t (table_index t h); Some (bool_decide (n ∈ chain)).
Definition run_op (key : nat -> option Z) (ok : bool) (o : table_op) (t : node_table) : option node_table :=
  match o with
  | Add n => found ← table_find key n t; if (found : bool) then Some t else h ← key n; table_add key ok h n t
  | Del n => h ← key n; r ← table_unlink h n t; match r with Some t => table_shrink ok t | None => Some t end
  end.
Definition set_op (o : table_op) (X : gset nat) : gset nat :=
  match o with Add n => {[n]} ∪ X | Del n => X ∖ {[n]} end.
Fixpoint run_ops (key : nat -> option Z) (ops : list (bool * table_op)) (t : node_table) : option node_table :=
  match ops with [] => Some t | (ok, o) :: ops => t ← run_op key ok o t; run_ops key ops t end.
Definition set_ops (ops : list (bool * table_op)) (X : gset nat) : gset nat := foldl (fun X o => set_op o.2 X) X ops.

Lemma init_elements : elements node_table_init = [].
Proof. unfold elements, node_table_init. cbn [array]. generalize (Z.to_nat NODE_TABLE_MIN_SIZE). intros m. induction m; [done|exact IHm]. Qed.
Lemma init_ok key : table_ok key 0 node_table_init.
Proof.
  split.
  - split; [exists 0; by split; [|reflexivity]|]. unfold half, node_table_init. cbn [size split]. by split; [|vm_compute].
  - unfold node_table_init, lenZ. cbn [array size]. rewrite length_replicate. lia.
  - intros i chain. unfold node_table_init. cbn [array]. intros [-> _]%lookup_replicate. constructor.
  - by rewrite init_elements.
  - rewrite init_elements. constructor.
Qed.
Lemma table_find_spec key d t n h : table_ok key d t -> key n = Some h -> table_find key n t = Some (bool_decide (n ∈ elements t)).
Proof.
  intros Hok Hk. unfold table_find. rewrite Hk. cbn [mbind option_bind].
  destruct (bucket_some t (table_index t h) (tk_sized _ _ _ Hok) (tk_len _ _ _ Hok)) as (chain & Hb & _); [apply index_bound, Hok|].
  rewrite Hb. cbn [mbind option_bind]. f_equal. apply bool_decide_ext. split; [by eapply bucket_elem|]. intros Hn.
  destruct (found_at_home key d t n h Hok Hk Hn) as (c & Hc & Hin). congruence.
Qed.
Lemma run_op_ok key ok o t (X : gset nat) :
  table_ok key 0 t -> (forall n, n ∈ elements t <-> n ∈ X) -> (match o with Add n | Del n => is_Some (key n) end) ->
  exists t', run_op key ok o t = Some t' /\ table_ok key 0 t' /\ forall n, n ∈ elements t' <-> n ∈ set_op o X.
Proof.
  intros Hok HX. destruct o as [n|n]; cbn [run_op set_op]; intros [h Hk]; rewrite ?Hk.
  - rewrite (table_find_spec key 0 t n h Hok Hk). cbn [mbind option_bind]. case_bool_decide as Hn.
    + exists t. split; [done|]. split; [done|]. intros m. rewrite HX. apply HX in Hn. set_solver.
    + destruct (table_add_ok key 0 ok h n t Hok Hk Hn) as (t' & Ht & Hok' & He). exists t'. split; [done|]. split; [done|].
      intros m. rewrite He, elem_of_cons, HX. set_solver.
  - cbn [mbind option_bind]. destruct (decide (n ∈ elements t)) as [Hn|Hn].
    + destruct (table_unlink_ok key 0 t n h Hok Hk Hn) as (t1 & Hu & Hok1 & He1). rewrite Hu. cbn [mbind option_bind].
      pose proof (tk_nodup _ _ _ Hok) as Hd. rewrite He1 in Hd. apply NoDup_cons in Hd as [Hni Hd].
      destruct (table_shrink_ok key 0 ok t1 Hok1) as (t' & Hs & Hok' & He'). exists t'. split; [done|]. split; [done|].
      intros m. rewrite He'. specialize (HX m). rewrite He1, elem_of_cons in HX. set_solver.
    + unfold table_unlink. destruct (bucket_some t (table_index t h) (tk_sized _ _ _ Hok) (tk_len _ _ _ Hok)) as (chain & Hb & _); [apply index_bound, Hok|].
      rewrite Hb. cbn [mbind option_bind]. rewrite unchain_none; [|intros Hc; apply Hn; by eapply bucket_elem].
      cbn. exists t. split; [done|]. split; [done|]. intros m. rewrite HX. rewrite HX in Hn. set_solver.
Qed.
(** C20: whatever nodes are added and removed in whatever order, and whether or not
    memory can be had, a table that grows and shrinks bucket by bucket never leaves its
    array and is the set of its nodes: a search in the bucket of a node's hash finds it
    exactly when it is in the set, and [use] is the size of the set. *)
Theorem table_is_a_set key ops :
  Forall (fun o => match o.2 with Add n | Del n => is_Some (key n) end) ops ->
  exists t, run_ops key ops node_table_init = Some t /\ use t = Z.of_nat (set_size (set_ops ops ∅)) /\
    forall n, is_Some (key n) -> table_find key n t = Some (bool_decide (n ∈ set_ops ops ∅)).
Proof.
  intros Hops. assert (forall t X, table_ok key 0 t -> (forall n, n ∈ elements t <-> n ∈ X) ->
    exists t', run_ops key ops t = Some t' /\ table_ok key 0 t' /\ forall n, n ∈ elements t' <-> n ∈ set_ops ops X) as Hrun.
  { induction Hops as [|[ok o] ops Ho _ IH]; intros t X Hok HX; [by exists t|]. cbn [run_ops].
    destruct (run_op_ok key ok o t X Hok HX Ho) as (t1 & Hr & Hok1 & HX1). rewrite Hr. cbn [mbind option_bind]. by apply IH. }
  destruct (Hrun node_table_init ∅ (init_ok key)) as (t & Hr & Hok & HX); [rewrite init_elements; set_solver|].
  exists t. split; [done|]. split.
  - rewrite (tk_use _ _ _ Hok), Z.add_0_r. unfold lenZ. f_equal. rewrite <- (size_list_to_set (C := gset nat)) by apply Hok.
    change (set_size ?X) with (base.size X). apply set_size_proper. intros n. rewrite elem_of_list_to_set. apply HX.
  - intros n [h Hk]. rewrite (table_find_spec key 0 t n h Hok Hk). f_equal. apply bool_decide_ext, HX.
Qed.
Lemma table_is_a_set_witness :
  let key n := Some (id_key (Z.of_nat n)) in
  let ops := [(true, Add 7%nat); (false, Add 8199%nat); (true, Del 7%nat)] in
  exists t, run_ops key ops node_table_init = Some t /\ use t = Z.of_nat (set_size (set_ops ops ∅)) /\
    forall n, is_Some (key n) -> table_find key n t = Some (bool_decide (n ∈ set_ops ops ∅)).
Proof. apply table_is_a_set. repeat constructor; by eexists. Defined.
