(* ===== verification/HlNodes.v ===== *)
(** * lib/fuse.c: the nodes of the high-level library

    A node stands for an inode the kernel knows, or for a directory on the way to one.
    Nodes live in a heap and are found by id and by (parent, name) through the tables of
    [HlTable]; [refctr] counts a node's children in the name table and its lookups.
    [mem] says which of the requests for memory succeed, in order.  [abort], a failed
    assertion and an access through a null pointer or to a freed node are [Throws]. *)
From Stdlib Require Import Ascii.
From S2P Require Import Prelude Errno Sys HlLocks HlTable.

Abbreviation FUSE_ROOT_ID := 1 (only parsing).
Abbreviation FUSE_UNKNOWN_INO := 4294967295 (only parsing).

(** [name] and [parent] of a [struct node] are null together, but for the root. *)
Record node := {
  nodeid : Z; generation : Z; refctr : Z; parent : option nat; name : option string; nlookup : Z;
  open_count : Z; stat_updated : timespec; node_mtime : timespec; node_size : Z; locks : list lock;
  is_hidden : bool; cache_valid : bool; treelock : Z; forget_time : timespec;
}.
Definition set_refctr (v : Z) (n : node) : node :=
  {| nodeid := nodeid n; generation := generation n; refctr := v; parent := parent n; name := name n; nlookup := nlookup n;
     open_count := open_count n; stat_updated := stat_updated n; node_mtime := node_mtime n; node_size := node_size n;
     locks := locks n; is_hidden := is_hidden n; cache_valid := cache_valid n; treelock := treelock n; forget_time := forget_time n |}.
Definition set_link (p : option nat) (nm : option string) (n : node) : node :=
  {| nodeid := nodeid n; generation := generation n; refctr := refctr n; parent := p; name := nm; nlookup := nlookup n;
     open_count := open_count n; stat_updated := stat_updated n; node_mtime := node_mtime n; node_size := node_size n;
     locks := locks n; is_hidden := is_hidden n; cache_valid := cache_valid n; treelock := treelock n; forget_time := forget_time n |}.
Definition set_nlookup (v : Z) (n : node) : node :=
  {| nodeid := nodeid n; generation := generation n; refctr := refctr n; parent := parent n; name := name n; nlookup := v;
     open_count := open_count n; stat_updated := stat_updated n; node_mtime := node_mtime n; node_size := node_size n;
     locks := locks n; is_hidden := is_hidden n; cache_valid := cache_valid n; treelock := treelock n; forget_time := forget_time n |}.
Definition set_open_count (v : Z) (n : node) : node :=
  {| nodeid := nodeid n; generation := generation n; refctr := refctr n; parent := parent n; name := name n; nlookup := nlookup n;
     open_count := v; stat_updated := stat_updated n; node_mtime := node_mtime n; node_size := node_size n;
     locks := locks n; is_hidden := is_hidden n; cache_valid := cache_valid n; treelock := treelock n; forget_time := forget_time n |}.
Definition set_cached (upd mt : timespec) (sz : Z) (valid : bool) (n : node) : node :=
  {| nodeid := nodeid n; generation := generation n; refctr := refctr n; parent := parent n; name := name n; nlookup := nlookup n;
     open_count := open_count n; stat_updated := upd; node_mtime := mt; node_size := sz;
     locks := locks n; is_hidden := is_hidden n; cache_valid := valid; treelock := treelock n; forget_time := forget_time n |}.
Definition set_locks (v : list lock) (n : node) : node :=
  {| nodeid := nodeid n; generation := generation n; refctr := refctr n; parent := parent n; name := name n; nlookup := nlookup n;
     open_count := open_count n; stat_updated := stat_updated n; node_mtime := node_mtime n; node_size := node_size n;
     locks := v; is_hidden := is_hidden n; cache_valid := cache_valid n; treelock := treelock n; forget_time := forget_time n |}.
Definition set_hidden (n : node) : node :=
  {| nodeid := nodeid n; generation := generation n; refctr := refctr n; parent := parent n; name := name n; nlookup := nlookup n;
     open_count := open_count n; stat_updated := stat_updated n; node_mtime := node_mtime n; node_size := node_size n;
     locks := locks n; is_hidden := true; cache_valid := cache_valid n; treelock := treelock n; forget_time := forget_time n |}.
Definition set_treelock (v : Z) (n : node) : node :=
  {| nodeid := nodeid n; generation := generation n; refctr := refctr n; parent := parent n; name := name n; nlookup := nlookup n;
     open_count := open_count n; stat_updated := stat_updated n; node_mtime := node_mtime n; node_size := node_size n;
     locks := locks n; is_hidden := is_hidden n; cache_valid := cache_valid n; treelock := v; forget_time := forget_time n |}.
Definition set_forgotten (v : timespec) (n : node) : node :=
  {| nodeid := nodeid n; generation := generation n; refctr := refctr n; parent := parent n; name := name n; nlookup := nlookup n;
     open_count := open_count n; stat_updated := stat_updated n; node_mtime := node_mtime n; node_size := node_size n;
     locks := locks n; is_hidden := is_hidden n; cache_valid := cache_valid n; treelock := treelock n; forget_time := v |}.
(** A node from [alloc_node], which [calloc]s it, with its id. *)
Definition new_node (ino gen : Z) : node :=
  {| nodeid := ino; generation := gen; refctr := 0; parent := None; name := None; nlookup := 0; open_count := 0;
     stat_updated := zero_ts; node_mtime := zero_ts; node_size := 0; locks := []; is_hidden := false; cache_valid := false;
     treelock := 0; forget_time := zero_ts |}.

(** The part of [struct fuse_config] the nodes, paths and requests use. *)
Record hl_config := {
  remember : Z; cf_set_gid : bool; cf_gid : Z; cf_set_uid : bool; cf_uid : Z; cf_set_mode : bool; cf_umask : Z;
  cf_fmask : Z; cf_dmask : Z; cf_use_ino : bool; cf_readdir_ino : bool; cf_hard_remove : bool; cf_direct_io : bool;
  cf_kernel_cache : bool; cf_auto_cache : bool; cf_nullpath_ok : bool; cf_no_rofd_flush : bool; cf_parallel_direct_writes : bool;
  cf_entry_timeout : double; cf_attr_timeout : double; cf_negative_timeout : double; cf_ac_attr_timeout : double;
}.
(** Who waits, in [HlPaths]: [struct lock_queue_element].  A path is asked for by the id
    of a directory, a name in it and whether its node is to be locked for writing; a
    waiter without paths waits for a node to be unlocked.  [wt_signal] is the condition
    variable, [wt_done] the error or the paths with the nodes locked for writing. *)
Record path_ask := { ask_ino : Z; ask_name : option string; ask_write : bool }.
Inductive wait_for := ForUnlock (ino : Z) | ForPath (a : path_ask) | ForPaths (a b : path_ask).
Record waiter := { wt_thread : nat; wt_for : wait_for; wt_signal : bool; wt_done : option (Z + list (string * option nat)) }.
(** [struct fuse]; [next_ptr] is the next address, [allocs] counts the requests for memory,
    [clock] is what [curr_time] reads, [owned] the mutexes held. *)
Record fuse := {
  nodes : gmap nat node; next_ptr : nat; name_table : node_table; id_table : node_table; lru_table : list nat;
  ctr : Z; fuse_generation : Z; hidectr : Z; conf : hl_config; lockq : list waiter; allocs : nat; clock : timespec;
  owned : gset string;
}.
Definition set_nodes (m : gmap nat node) (s : fuse) : fuse :=
  {| nodes := m; next_ptr := next_ptr s; name_table := name_table s; id_table := id_table s; lru_table := lru_table s;
     ctr := ctr s; fuse_generation := fuse_generation s; hidectr := hidectr s; conf := conf s; lockq := lockq s;
     allocs := allocs s; clock := clock s; owned := owned s |}.
Definition set_tables (nt it : node_table) (s : fuse) : fuse :=
  {| nodes := nodes s; next_ptr := next_ptr s; name_table := nt; id_table := it; lru_table := lru_table s;
     ctr := ctr s; fuse_generation := fuse_generation s; hidectr := hidectr s; conf := conf s; lockq := lockq s;
     allocs := allocs s; clock := clock s; owned := owned s |}.
Definition set_lru (l : list nat) (s : fuse) : fuse :=
  {| nodes := nodes s; next_ptr := next_ptr s; name_table := name_table s; id_table := id_table s; lru_table := l;
     ctr := ctr s; fuse_generation := fuse_generation s; hidectr := hidectr s; conf := conf s; lockq := lockq s;
     allocs := allocs s; clock := clock s; owned := owned s |}.
Definition set_ids (p : nat) (c g h : Z) (s : fuse) : fuse :=
  {| nodes := nodes s; next_ptr := p; name_table := name_table s; id_table := id_table s; lru_table := lru_table s;
     ctr := c; fuse_generation := g; hidectr := h; conf := conf s; lockq := lockq s;
     allocs := allocs s; clock := clock s; owned := owned s |}.
Definition set_lockq (q : list waiter) (s : fuse) : fuse :=
  {| nodes := nodes s; next_ptr := next_ptr s; name_table := name_table s; id_table := id_table s; lru_table := lru_table s;
     ctr := ctr s; fuse_generation := fuse_generation s; hidectr := hidectr s; conf := conf s; lockq := q;
     allocs := allocs s; clock := clock s; owned := owned s |}.
Definition set_allocs (n : nat) (s : fuse) : fuse :=
  {| nodes := nodes s; next_ptr := next_ptr s; name_table := name_table s; id_table := id_table s; lru_table := lru_table s;
     ctr := ctr s; fuse_generation := fuse_generation s; hidectr := hidectr s; conf := conf s; lockq := lockq s;
     allocs := n; clock := clock s; owned := owned s |}.
Definition set_owned (h : gset string) (s : fuse) : fuse :=
  {| nodes := nodes s; next_ptr := next_ptr s; name_table := name_table s; id_table := id_table s; lru_table := lru_table s;
     ctr := ctr s; fuse_generation := fuse_generation s; hidectr := hidectr s; conf := conf s; lockq := lockq s;
     allocs := allocs s; clock := clock s; owned := h |}.
#[export, program] Instance fuse_locks : Locks fuse := {| held := owned; set_held := set_owned |}.
Next Obligation. done. Qed.
Next Obligation. done. Qed.
Next Obligation. by intros []. Qed.

Notation hl := (prog fuse).
Definition deref (p : nat) : hl node := s ← pget; match nodes s !! p with Some n => mret n | None => pthrow end.
Definition update (p : nat) (f : node -> node) : hl unit := n ← deref p; pmodify (fun s => set_nodes (<[p := f n]> (nodes s)) s).
Definition or_fault {A} (o : option A) : hl A := match o with Some a => mret a | None => pthrow end.
Definition passert (b : bool) : hl unit := if b then mret tt else pthrow.
Definition lru_enabled (s : fuse) : bool := 0 <? remember (conf s).

(** What the hashes are computed from. *)
Definition id_key_of (m : gmap nat node) (p : nat) : option Z := (fun n => id_key (nodeid n)) <$> m !! p.
Definition name_key_of (m : gmap nat node) (p : nat) : option Z :=
  n ← m !! p; nm ← name n; pp ← parent n; par ← m !! pp; Some (name_key (nodeid par) nm).

Section Nodes.
Variable mem : nat -> bool.
Definition get_memory : hl bool := s ← pget; _ ← pmodify (set_allocs (S (allocs s))); mret (mem (allocs s)).

(** The first node of a chain that passes a test. *)
Fixpoint find_chain (test : node -> hl bool) (chain : list nat) : hl (option nat) :=
  match chain with
  | [] => mret None
  | p :: rest => n ← deref p; b ← test n; if b : bool then mret (Some p) else find_chain test rest
  end.
Definition get_node_nocheck (ino : Z) : hl (option nat) :=
  s ← pget; chain ← or_fault (bucket (id_table s) (id_hash (id_table s) ino));
  find_chain (fun n => mret (nodeid n =? ino)) chain.
Definition get_node (ino : Z) : hl nat := r ← get_node_nocheck ino; or_fault r.
Definition lookup_node (par : Z) (nm : string) : hl (option nat) :=
  s ← pget; chain ← or_fault (bucket (name_table s) (name_hash (name_table s) par nm));
  find_chain (fun n =>
    pp ← or_fault (parent n); pn ← deref pp;
    if nodeid pn =? par then (own ← or_fault (name n); mret (bool_decide (own = nm))) else mret false) chain.

Definition remove_node_lru (p : nat) : hl unit := pmodify (fun s => set_lru (filter (fun q => q <> p) (lru_table s)) s).
Definition set_forget_time (p : nat) : hl unit :=
  _ ← pmodify (fun s => set_lru (filter (fun q => q <> p) (lru_table s) ++ [p]) s);
  s ← pget; update p (set_forgotten (clock s)).
Definition free_node (p : nat) : hl unit := pmodify (fun s => set_nodes (delete p (nodes s)) s).
Definition set_id_table (t : node_table) : hl unit := pmodify (fun s => set_tables (name_table s) t s).
Definition set_name_table (t : node_table) : hl unit := pmodify (fun s => set_tables t (id_table s) s).

Definition hash_id (p : nat) : hl unit :=
  n ← deref p; ok ← get_memory; s ← pget;
  t ← or_fault (table_add (id_key_of (nodes s)) ok (id_key (nodeid n)) p (id_table s)); set_id_table t.
Definition unhash_id (p : nat) : hl unit :=
  n ← deref p; s ← pget;
  r ← or_fault (table_unlink (id_key (nodeid n)) p (id_table s));
  match r with
  | Some t => ok ← get_memory; t ← or_fault (table_shrink ok t); set_id_table t
  | None => mret tt
  end.

(** [delete_node] and [unref_node] over the [unhash_name] that they call. *)
Definition delete_with (unhash : nat -> hl unit) (p : nat) : hl unit :=
  n ← deref p; _ ← passert (treelock n =? 0);
  _ ← unhash p;
  s ← pget; _ ← (if lru_enabled s then remove_node_lru p else mret tt);
  _ ← unhash_id p; free_node p.
Definition unref_with (unhash : nat -> hl unit) (p : nat) : hl unit :=
  n ← deref p; _ ← passert (0 <? refctr n);
  _ ← update p (set_refctr (refctr n - 1));
  if refctr n - 1 =? 0 then delete_with unhash p else mret tt.
(** A node leaves the name table; its parent may go with it, and so on upwards: [fuel]
    bounds the number of nodes that go. *)
Fixpoint unhash_rounds (fuel : nat) (p : nat) : hl unit :=
  match fuel with
  | O => pstuck "fuel"
  | S fuel =>
      n ← deref p;
      match name n with
      | None => mret tt
      | Some nm =>
          pp ← or_fault (parent n); par ← deref pp; s ← pget;
          r ← or_fault (table_unlink (name_key (nodeid par) nm) p (name_table s));
          t ← or_fault r; _ ← set_name_table t;
          _ ← unref_with (unhash_rounds fuel) pp;
          _ ← update p (set_link None None);
          ok ← get_memory; s ← pget; t ← or_fault (table_shrink ok (name_table s)); set_name_table t
      end
  end.
Definition unhash_name (p : nat) : hl unit := s ← pget; unhash_rounds (S (base.size (nodes s))) p.
Definition delete_node : nat -> hl unit := delete_with unhash_name.
Definition unref_node : nat -> hl unit := unref_with unhash_name.

(** [false] when the name cannot be copied; a short one is kept in the node itself. *)
Definition hash_name (p : nat) (parentid : Z) (nm : string) : hl bool :=
  s ← pget; let h := name_key parentid nm in
  pp ← get_node parentid;
  stored ← (if (String.length nm <? 32)%nat then mret true else get_memory);
  if negb (stored : bool) then n ← deref p; _ ← update p (set_link (parent n) None); mret false
  else
    par ← deref pp; _ ← update pp (set_refctr (refctr par + 1));
    _ ← update p (set_link (Some pp) (Some nm));
    ok ← get_memory; s ← pget;
    t ← or_fault (table_add (name_key_of (nodes s)) ok h p (name_table s)); _ ← set_name_table t; mret true.

(** The loop ends when a counter value is free: there are more values than nodes. *)
Fixpoint next_id_rounds (fuel : nat) : hl Z :=
  match fuel with
  | O => pstuck "fuel"
  | S fuel =>
      s ← pget; let c := Z.land (ctr s + 1) 4294967295 in
      let g := if c =? 0 then u32 (fuse_generation s + 1) else fuse_generation s in
      _ ← pmodify (set_ids (next_ptr s) c g (hidectr s));
      if (c =? 0) || (c =? FUSE_UNKNOWN_INO) then next_id_rounds fuel
      else r ← get_node_nocheck c; match r with Some _ => next_id_rounds fuel | None => mret c end
  end.
Definition next_id : hl Z := s ← pget; next_id_rounds (base.size (nodes s) + 3).

Definition inc_nlookup (p : nat) : hl unit :=
  n ← deref p;
  _ ← (if nlookup n =? 0 then update p (set_refctr (refctr n + 1)) else mret tt);
  n ← deref p; update p (set_nlookup (u64 (nlookup n + 1))).

(** [alloc_node] with the id and generation that follow it. *)
Definition alloc_node : hl (option nat) :=
  ok ← get_memory;
  if (ok : bool) then
    s ← pget; let p := next_ptr s in
    _ ← pmodify (set_ids (S p) (ctr s) (fuse_generation s) (hidectr s));
    _ ← pmodify (fun s => set_nodes (<[p := new_node 0 0]> (nodes s)) s); mret (Some p)
  else mret None.
Definition give_id (p : nat) (ino gen : Z) : hl unit :=
  update p (fun n => {| nodeid := ino; generation := gen; refctr := refctr n; parent := parent n; name := name n; nlookup := nlookup n;
     open_count := open_count n; stat_updated := stat_updated n; node_mtime := node_mtime n; node_size := node_size n;
     locks := locks n; is_hidden := is_hidden n; cache_valid := cache_valid n; treelock := treelock n; forget_time := forget_time n |}).
Definition find_node (par : Z) (nm : option string) : hl (option nat) :=
  with_lock "lock" (
    r ← match nm with None => p ← get_node par; mret (Some p) | Some nm => lookup_node par nm end;
    match r with
    | None =>
        a ← alloc_node;
        match a, nm with
        | Some p, Some nm =>
            ino ← next_id; s ← pget; _ ← give_id p ino (fuse_generation s);
            _ ← (if negb (remember (conf s) =? 0) then inc_nlookup p else mret tt);
            hashed ← hash_name p par nm;
            if negb (hashed : bool) then _ ← free_node p; mret None
            else _ ← hash_id p; _ ← inc_nlookup p; mret (Some p)
        | _, _ => mret None
        end
    | Some p =>
        n ← deref p; s ← pget;
        _ ← (if lru_enabled s && (nlookup n =? 1) then remove_node_lru p else mret tt);
        _ ← inc_nlookup p; mret (Some p)
    end).

(** [strtok_r] by slashes: the parts that are not empty. *)
Fixpoint path_elements (path cur : string) : list string :=
  match path with
  | EmptyString => if String.eqb cur "" then [] else [cur]
  | String c rest =>
      if Ascii.eqb c "/"%char then (if String.eqb cur "" then [] else [cur]) ++ path_elements rest ""
      else path_elements rest (cur ++ String c "")
  end.
Fixpoint walk (ino : Z) (elems : list string) : hl (Z + Z) :=
  match elems with
  | [] => mret (inr ino)
  | e :: elems =>
      r ← lookup_node ino e;
      match r with None => mret (inl (- ENOENT)) | Some p => n ← deref p; walk (nodeid n) elems end
  end.
Definition lookup_path_in_cache (path : string) : hl (Z + Z) :=
  ok ← get_memory;
  if (ok : bool) then with_lock "lock" (walk FUSE_ROOT_ID (path_elements path "")) else mret (inl (- ENOMEM)).

(** The end of [forget_node], when nobody locks the node. *)
Definition forget_last (p : nat) (count : Z) : hl unit :=
  n ← deref p; _ ← passert (count <=? nlookup n);
  _ ← update p (set_nlookup (nlookup n - count));
  s ← pget;
  if nlookup n - count =? 0 then unref_node p
  else if lru_enabled s && (nlookup n - count =? 1) then set_forget_time p else mret tt.
Definition queue_path (thread : nat) (w : wait_for) : hl unit :=
  pmodify (fun s => set_lockq (lockq s ++ [{| wt_thread := thread; wt_for := w; wt_signal := false; wt_done := None |}]) s).
(** [forget_node]: [false] when it has to wait until the node is unlocked, which
    [HlPaths] resumes. *)
Definition forget_node (thread : nat) (ino count : Z) : hl bool :=
  if ino =? FUSE_ROOT_ID then mret true
  else with_lock "lock" (
    p ← get_node ino; n ← deref p;
    if (nlookup n =? count) && negb (treelock n =? 0) then
      _ ← queue_path thread (ForUnlock ino); mret false
    else _ ← forget_last p count; mret true).
Definition unlink_node (p : nat) : hl unit :=
  s ← pget;
  _ ← (if negb (remember (conf s) =? 0)
       then n ← deref p; _ ← passert (1 <? nlookup n); update p (set_nlookup (nlookup n - 1)) else mret tt);
  unhash_name p.
Definition remove_node (dir : Z) (nm : string) : hl unit :=
  with_lock "lock" (r ← lookup_node dir nm; match r with Some p => unlink_node p | None => mret tt end).
Definition rename_node (olddir : Z) (oldname : string) (newdir : Z) (newname : string) (hide : bool) : hl Z :=
  with_lock "lock" (
    r ← lookup_node olddir oldname; r' ← lookup_node newdir newname;
    match r with
    | None => mret 0
    | Some p =>
        let move :=
          _ ← unhash_name p; hashed ← hash_name p newdir newname;
          if negb (hashed : bool) then mret (- ENOMEM) else _ ← (if hide then update p set_hidden else mret tt); mret 0 in
        match r' with
        | Some q => if hide then mret (- EBUSY) else _ ← unlink_node q; move
        | None => move
        end
    end).
Definition exchange_node (olddir : Z) (oldname : string) (newdir : Z) (newname : string) : hl Z :=
  with_lock "lock" (
    r ← lookup_node olddir oldname; r' ← lookup_node newdir newname;
    _ ← match r with Some p => unhash_name p | None => mret tt end;
    _ ← match r' with Some p => unhash_name p | None => mret tt end;
    h ← match r with Some p => hash_name p newdir newname | None => mret true end;
    if negb (h : bool) then mret (- ENOMEM)
    else
      h ← match r' with Some p => hash_name p olddir oldname | None => mret true end;
      if negb (h : bool) then mret (- ENOMEM) else mret 0).
End Nodes.

(** The nodes of a new file system: the root, which is never forgotten. *)
Definition root_node : node := set_nlookup 1 (set_refctr 1 (set_link None (Some "/"%string) (new_node FUSE_ROOT_ID 0))).
Definition hl_new (c : hl_config) : fuse :=
  {| nodes := {[ 0%nat := root_node ]}; next_ptr := 1; name_table := node_table_init;
     id_table := set_use 1 (set_bucket (id_hash node_table_init FUSE_ROOT_ID) [0%nat] node_table_init); lru_table := [];
     ctr := 0; fuse_generation := 0; hidectr := 0; conf := c; lockq := []; allocs := 0; clock := zero_ts; owned := ∅ |}.
