(* ===== verification/HlTree.v ===== *)
(** * The tree of nodes is well formed

    The two tables hold exactly the nodes they should, ids and names are unique, and
    reference counts are exact.  While [unhash_name] climbs, the nodes of [T] are out of
    the name table but not yet cleared, those of [O] are not yet in the id table, and
    one reference of [d] is still to be dropped. *)
From S2P Require Import Prelude Errno Sys HlLocks HlTable HlNodes.

Definition parent_of (m : gmap nat node) (p : nat) : option nat := m !! p ≫= parent.
Definition children (s : fuse) (p : nat) : Z :=
  lenZ (filter (fun q => parent_of (nodes s) q = Some p) (elements (name_table s))).
Definition lookups_hold (n : node) : Z := if 0 <? nlookup n then 1 else 0.
Definition linked_at (s : fuse) (p pp : nat) (nm : string) : Prop :=
  exists n, nodes s !! p = Some n /\ parent n = Some pp /\ name n = Some nm.

Record shape (T O : list nat) (s : fuse) : Prop := {
  sh_id : table_ok (id_key_of (nodes s)) 0 (id_table s);
  sh_ids : forall p, p ∈ elements (id_table s) <-> is_Some (nodes s !! p) /\ p ∉ O;
  sh_inj : forall p q n m, nodes s !! p = Some n -> nodes s !! q = Some m -> p ∉ O -> q ∉ O -> nodeid n = nodeid m -> p = q;
  sh_name : table_ok (name_key_of (nodes s)) (lenZ T) (name_table s);
  sh_names : forall p, p ∈ elements (name_table s) <-> p ∉ T /\ exists pp nm, linked_at s p pp nm;
  sh_null : forall p n, nodes s !! p = Some n -> p ∉ T ->
    match parent n, name n with
    | Some pp, Some _ => is_Some (nodes s !! pp) /\ pp ∉ O | None, None => True | None, Some _ => p = 0%nat | Some _, None => False
    end;
  sh_root : exists r, nodes s !! 0%nat = Some r /\ nodeid r = FUSE_ROOT_ID /\ parent r = None /\ 0%nat ∉ T /\ 0%nat ∉ O;
  sh_uniq : forall p q pp nm, p ∉ T -> q ∉ T -> linked_at s p pp nm -> linked_at s q pp nm -> p = q;
  sh_transit : NoDup T /\ forall p, p ∈ T -> is_Some (nodes s !! p);
  sh_fresh : forall p, is_Some (nodes s !! p) -> (p < next_ptr s)%nat;
}.
(** Reference counts: [d] has one too many; the nodes of [X] are being deleted. *)
Definition refs (d : option nat) (X : list nat) (s : fuse) : Prop :=
  forall p n, nodes s !! p = Some n ->
    refctr n = children s p + lookups_hold n + (if decide (d = Some p) then 1 else 0) /\ 0 <= nlookup n /\ (p ∉ X -> 0 < refctr n) /\
    (p = 0%nat -> 0 < nlookup n).
(** Parents come before their children, so there is no cycle. *)
Definition ranked (rank : nat -> nat) (s : fuse) : Prop :=
  forall p n pp, nodes s !! p = Some n -> parent n = Some pp -> (rank pp < rank p)%nat.
Definition tree_ok (s : fuse) : Prop := shape [] [] s /\ refs None [] s /\ exists rank, ranked rank s.
(** [K] holds the nodes that are in use: every locked one, and each of them is kept by a
    lookup or by a child in use, other than [ex]. *)
Definition guarded (K : nat -> Prop) (ex : option nat) (s : fuse) : Prop :=
  (forall q n, nodes s !! q = Some n -> treelock n <> 0 -> K q) /\
  forall q, K q -> exists n, nodes s !! q = Some n /\
    (0 < nlookup n \/ exists c, c ∈ elements (name_table s) /\ Some c <> ex /\ parent_of (nodes s) c = Some q /\ K c).
(** What else of the state stays. *)
Definition frame (s s' : fuse) : Prop :=
  next_ptr s' = next_ptr s /\ ctr s' = ctr s /\ fuse_generation s' = fuse_generation s /\ hidectr s' = hidectr s /\
  conf s' = conf s /\ lockq s' = lockq s /\ clock s' = clock s /\ owned s' = owned s.
Lemma frame_refl s : frame s s.
Proof. done. Qed.
Lemma frame_trans a b c : frame a b -> frame b c -> frame a c.
Proof. unfold frame. intuition congruence. Qed.
(** A node afterwards: the same but for its references, or gone, forgotten and unlocked. *)
Definition kept (o o' : option node) : Prop :=
  match o, o' with
  | Some n, Some n' => set_refctr 0 n' = set_refctr 0 n | Some n, None => nlookup n = 0 /\ treelock n = 0
  | None, None => True | None, Some _ => False
  end.
Lemma kept_refl o : kept o o.
Proof. by destruct o. Qed.
Lemma kept_trans a b c : kept a b -> kept b c -> kept a c.
Proof.
  unfold kept. destruct a as [a|], b as [b|], c as [c|]; try tauto; [congruence|].
  intros He [H1 H2]. split.
  - rewrite <- H1. change (nlookup (set_refctr 0 a) = nlookup (set_refctr 0 b)). by rewrite He.
  - rewrite <- H2. change (treelock (set_refctr 0 a) = treelock (set_refctr 0 b)). by rewrite He.
Qed.
#[local] Hint Resolve frame_refl kept_refl : core.

(** ** Reading the tables *)

Section Tree.
Variable mem : nat -> bool.

Lemma deref_some p s n : nodes s !! p = Some n -> deref p s = Done n s.
Proof. intros Hp. unfold deref, pget, mbind, prog_bind. by rewrite Hp. Qed.
Lemma update_some p f s n : nodes s !! p = Some n -> update p f s = Done tt (set_nodes (<[p := f n]> (nodes s)) s).
Proof. intros Hp. unfold update. by rewrite (bind_done _ _ _ _ _ (deref_some p s n Hp)). Qed.

Lemma find_chain_spec test (P : nat -> bool) s chain :
  (forall p, p ∈ chain -> exists n, nodes s !! p = Some n /\ test n s = Done (P p) s) ->
  exists r, find_chain test chain s = Done r s /\
    match r with Some p => p ∈ chain /\ P p = true | None => forall p, p ∈ chain -> P p = false end.
Proof.
  induction chain as [|p chain IH]; intros Hc.
  { exists None. split; [done|]. by intros p ?%not_elem_of_nil. }
  destruct (Hc p ltac:(left)) as (n & Hn & Ht). cbn [find_chain]. rewrite (bind_done _ _ _ _ _ (deref_some p s n Hn)).
  rewrite (bind_done _ _ _ _ _ Ht). destruct (P p) eqn:HP.
  - exists (Some p). split; [done|]. by split; [left|].
  - destruct IH as (r & Hr & Hspec); [intros q Hq; apply Hc; by right|]. exists r. split; [done|].
    destruct r as [q|]; [destruct Hspec; by split; [right|]|]. intros q [->|Hq]%elem_of_cons; auto.
Qed.

Lemma bucket_of key d t h : table_ok key d t -> exists chain, bucket t (table_index t h) = Some chain.
Proof.
  intros [Ht Hl _ _ _]. destruct (bucket_some t (table_index t h) Ht Hl (index_bound t h Ht)) as (c & Hb & _). by exists c.
Qed.
Lemma get_node_nocheck_spec T O s ino : shape T O s ->
  exists r, get_node_nocheck ino s = Done r s /\
    match r with
    | Some p => exists n, nodes s !! p = Some n /\ p ∉ O /\ nodeid n = ino
    | None => forall p n, nodes s !! p = Some n -> p ∉ O -> nodeid n <> ino
    end.
Proof.
  intros Hs. unfold get_node_nocheck. unfold mbind at 1, prog_bind at 1, pget.
  destruct (bucket_of _ _ _ (id_key ino) (sh_id _ _ _ Hs)) as [chain Hb]. unfold id_hash. rewrite Hb. cbn [or_fault].
  unfold mbind at 1, prog_bind at 1. cbn.
  destruct (find_chain_spec (fun n => mret (M := hl) (nodeid n =? ino)) (fun p => match nodes s !! p with Some n => nodeid n =? ino | None => false end) s chain)
    as (r & Hr & Hspec).
  { intros p Hp. pose proof (bucket_elem _ _ _ _ Hb Hp) as He. apply (sh_ids _ _ _ Hs) in He as [[n Hn] _]. exists n. by rewrite Hn. }
  exists r. split; [exact Hr|]. destruct r as [p|].
  - destruct Hspec as [Hp Hn]. pose proof (bucket_elem _ _ _ _ Hb Hp) as He. apply (sh_ids _ _ _ Hs) in He as [[n Hn'] HO].
    rewrite Hn' in Hn. exists n. split; [done|]. split; [done|]. by apply Z.eqb_eq.
  - intros p n Hp HO <-. assert (p ∈ elements (id_table s)) as He by (apply (sh_ids _ _ _ Hs); by split).
    destruct (found_at_home _ _ _ p (id_key (nodeid n)) (sh_id _ _ _ Hs)) as (c & Hc & Hin); [unfold id_key_of; by rewrite Hp|done|].
    assert (c = chain) as -> by congruence. specialize (Hspec p Hin). rewrite Hp, Z.eqb_refl in Hspec. done.
Qed.
Lemma get_node_spec T O s p n : shape T O s -> nodes s !! p = Some n -> p ∉ O -> get_node (nodeid n) s = Done p s.
Proof.
  intros Hs Hp HO. unfold get_node. destruct (get_node_nocheck_spec T O s (nodeid n) Hs) as (r & Hr & Hspec).
  rewrite (bind_done _ _ _ _ _ Hr). destruct r as [q|].
  - destruct Hspec as (m & Hq & HOq & He). cbn. by rewrite (sh_inj _ _ _ Hs q p m n Hq Hp HOq HO He).
  - exfalso. by eapply Hspec.
Qed.
(** The child of a directory with a name. *)
Definition child_named (s : fuse) (T : list nat) (par : Z) (nm : string) (p : nat) : Prop :=
  p ∉ T /\ exists pp pn, linked_at s p pp nm /\ nodes s !! pp = Some pn /\ nodeid pn = par.
Lemma linked_key s p pp nm pn : linked_at s p pp nm -> nodes s !! pp = Some pn -> name_key_of (nodes s) p = Some (name_key (nodeid pn) nm).
Proof. intros (n & Hn & Hpp & Hnm) Hp. unfold name_key_of. rewrite Hn. cbn. rewrite Hnm. cbn. rewrite Hpp. cbn. by rewrite Hp. Qed.
Lemma lookup_node_spec T O s par nm : shape T O s ->
  exists r, lookup_node par nm s = Done r s /\
    match r with Some p => child_named s T par nm p | None => forall p, ~ child_named s T par nm p end.
Proof.
  intros Hs. unfold lookup_node. unfold mbind at 1, prog_bind at 1, pget.
  destruct (bucket_of _ _ _ (name_key par nm) (sh_name _ _ _ Hs)) as [chain Hb]. unfold name_hash. rewrite Hb. cbn [or_fault].
  unfold mbind at 1, prog_bind at 1. cbn.
  set (P p := match nodes s !! p with
              | Some n => match parent n ≫= (fun pp => nodes s !! pp), name n with
                          | Some pn, Some own => (nodeid pn =? par) && bool_decide (own = nm) | _, _ => false end
              | None => false end).
  assert (forall p, p ∈ chain -> p ∉ T /\ exists pp nm' n pn, nodes s !! p = Some n /\ parent n = Some pp /\ name n = Some nm' /\ nodes s !! pp = Some pn) as Hlive.
  { intros p Hp. pose proof (bucket_elem _ _ _ _ Hb Hp) as He. apply (sh_names _ _ _ Hs) in He as [HT (pp & nm' & n & Hn & Hpp & Hnm)].
    split; [done|]. pose proof (sh_null _ _ _ Hs p n Hn HT) as Hnull. rewrite Hpp, Hnm in Hnull. destruct Hnull as [[pn Hpn] _].
    by exists pp, nm', n, pn. }
  match goal with |- context [find_chain ?t chain s] => destruct (find_chain_spec t P s chain) as (r & Hr & Hspec) end.
  { intros p Hp. destruct (Hlive p Hp) as (_ & pp & nm' & n & pn & Hn & Hpp & Hnm & Hpn). exists n. split; [done|].
    cbv beta. rewrite Hpp. cbn [or_fault]. step ltac:(exact eq_refl). step ltac:(by apply deref_some). unfold P. rewrite Hn, Hpp, Hnm. cbn. rewrite Hpn.
    by destruct (nodeid pn =? par). }
  exists r. split; [exact Hr|]. destruct r as [p|].
  - destruct Hspec as [Hp HP]. destruct (Hlive p Hp) as (HT & pp & nm' & n & pn & Hn & Hpp & Hnm & Hpn). split; [done|].
    unfold P in HP. rewrite Hn, Hpp, Hnm in HP. cbn in HP. rewrite Hpn in HP. apply andb_true_iff in HP as [Hid%Z.eqb_eq He%bool_decide_eq_true].
    subst nm'. exists pp, pn. split; [by exists n|done].
  - intros p (HT & pp & pn & Hl & Hpn & <-). assert (p ∈ elements (name_table s)) as He by (apply (sh_names _ _ _ Hs); split; [done|by exists pp, nm]).
    destruct (found_at_home _ _ _ p (name_key (nodeid pn) nm) (sh_name _ _ _ Hs)) as (c & Hc & Hin); [by apply (linked_key s p pp)|done|].
    assert (c = chain) as -> by congruence. specialize (Hspec p Hin). destruct Hl as (n & Hn & Hpp & Hnm).
    unfold P in Hspec. rewrite Hn, Hpp, Hnm in Hspec. cbn in Hspec. rewrite Hpn, Z.eqb_refl, bool_decide_eq_true_2 in Hspec by done. done.
Qed.

(** ** Changing a node *)

Definition same_key (n n' : node) : Prop := nodeid n' = nodeid n /\ parent n' = parent n /\ name n' = name n.
Lemma same_key_refl n : same_key n n.
Proof. done. Qed.
Definition same_keys (m m' : gmap nat node) : Prop :=
  forall p, match m !! p, m' !! p with Some n, Some n' => same_key n n' | None, None => True | _, _ => False end.
Lemma same_keys_parent m m' p : same_keys m m' -> parent_of m' p = parent_of m p.
Proof. intros H. unfold parent_of. specialize (H p). destruct (m !! p), (m' !! p); try done. cbn. apply H. Qed.
Lemma same_keys_id m m' p : same_keys m m' -> id_key_of m' p = id_key_of m p.
Proof. intros H. unfold id_key_of. specialize (H p). destruct (m !! p), (m' !! p); try done. cbn. by destruct H as [-> _]. Qed.
Lemma same_keys_name m m' p : same_keys m m' -> name_key_of m' p = name_key_of m p.
Proof.
  intros H. unfold name_key_of. pose proof (H p) as Hp. destruct (m !! p) as [n|], (m' !! p) as [n'|]; try done. cbn.
  destruct Hp as (_ & -> & ->). destruct (name n); [|done]. cbn. destruct (parent n) as [pp|]; [|done]. cbn.
  specialize (H pp). destruct (m !! pp), (m' !! pp); try done. cbn. by destruct H as [-> _].
Qed.
Lemma same_keys_linked s s' p pp nm : same_keys (nodes s) (nodes s') -> linked_at s' p pp nm <-> linked_at s p pp nm.
Proof.
  intros H. unfold linked_at. specialize (H p). destruct (nodes s !! p) as [n|], (nodes s' !! p) as [n'|]; try done.
  destruct H as (_ & H1 & H2).
  split; intros (m & [= <-] & Hp & Hm); eexists; (split; [done|]); split; congruence.
Qed.
Lemma same_keys_some m m' p : same_keys m m' -> is_Some (m' !! p) <-> is_Some (m !! p).
Proof. intros H. specialize (H p). destruct (m !! p), (m' !! p); try done; by split; intros [? ?]. Qed.
Lemma same_keys_lookup m m' p n' : same_keys m m' -> m' !! p = Some n' -> exists n, m !! p = Some n /\ same_key n n'.
Proof. intros H Hp. specialize (H p). rewrite Hp in H. destruct (m !! p) as [n|]; [by exists n|done]. Qed.
Lemma same_keys_update m p n n' : m !! p = Some n -> same_key n n' -> same_keys m (<[p := n']> m).
Proof.
  intros Hp Hk q. destruct (decide (q = p)) as [->|Hne].
  - by rewrite Hp, lookup_insert_eq.
  - rewrite lookup_insert_ne by done. destruct (m !! q); [apply same_key_refl|done].
Qed.
Lemma shape_ext T O s s' :
  shape T O s -> name_table s' = name_table s -> id_table s' = id_table s -> (next_ptr s <= next_ptr s')%nat ->
  same_keys (nodes s) (nodes s') -> shape T O s'.
Proof.
  intros [H1 H2 H3 H4 H5 H6 H7 H8 H9 H10] En Ei Ep Hk. split; rewrite ?En, ?Ei.
  - eapply table_ok_ext; [|exact H1]. intros p _. by apply same_keys_id.
  - intros p. by rewrite (same_keys_some _ _ p Hk).
  - intros p q n' m' Hp Hq HO HO' He. destruct (same_keys_lookup _ _ _ _ Hk Hp) as (n & Hn & E1 & _), (same_keys_lookup _ _ _ _ Hk Hq) as (m & Hm & E2 & _).
    eapply H3; [exact Hn|exact Hm|done|done|congruence].
  - eapply table_ok_ext; [|exact H4]. intros p _. by apply same_keys_name.
  - intros p. rewrite H5. split; (intros [HT (pp & nm & Hl)]; split; [done|]; exists pp, nm; by apply (same_keys_linked s s' p pp nm Hk)).
  - intros p n' Hp HT. destruct (same_keys_lookup _ _ _ _ Hk Hp) as (n & Hn & _ & E2 & E3). specialize (H6 p n Hn HT). rewrite E2, E3.
    destruct (parent n) as [pp|], (name n); try done. by rewrite (same_keys_some _ _ pp Hk).
  - destruct H7 as (r & Hr & E1 & E2 & Hrest). pose proof (Hk 0%nat) as H0. rewrite Hr in H0. destruct (nodes s' !! 0%nat) as [r'|]; [|done].
    destruct H0 as (E3 & E4 & _). exists r'. split; [done|]. by rewrite E3, E4.
  - intros p q pp nm HT HT' Hp Hq. rewrite (same_keys_linked s s' p pp nm Hk) in Hp. rewrite (same_keys_linked s s' q pp nm Hk) in Hq. by eapply H8.
  - destruct H9 as [Hd HT]. split; [done|]. intros p Hp. rewrite (same_keys_some _ _ p Hk). auto.
  - intros p. rewrite (same_keys_some _ _ p Hk). intros Hp. specialize (H10 p Hp). lia.
Qed.
Lemma children_ext s s' p : elements (name_table s') ≡ₚ elements (name_table s) ->
  (forall c, c ∈ elements (name_table s) -> parent_of (nodes s') c = parent_of (nodes s) c) -> children s' p = children s p.
Proof.
  intros He Hp. unfold children. rewrite He. f_equal. clear He. induction (elements (name_table s)) as [|c l IH]; [done|].
  rewrite !filter_cons. rewrite (Hp c ltac:(left)), IH; [done|]. intros x Hx. apply Hp. by right.
Qed.

(** ** Leaving the name table *)

Definition with_name_table (t : node_table) (s : fuse) : fuse := set_tables t (id_table s) s.
Definition with_id_table (t : node_table) (s : fuse) : fuse := set_tables (name_table s) t s.
Lemma linked_elem T O s p pp nm : shape T O s -> p ∉ T -> linked_at s p pp nm -> p ∈ elements (name_table s).
Proof. intros Hs HT Hl. apply (sh_names _ _ _ Hs). split; [done|]. by exists pp, nm. Qed.
Lemma linked_parent T O s p n pp : shape T O s -> p ∉ T -> nodes s !! p = Some n -> parent n = Some pp ->
  is_Some (nodes s !! pp) /\ pp ∉ O /\ exists nm, name n = Some nm.
Proof.
  intros Hs HT Hn Hp. pose proof (sh_null _ _ _ Hs p n Hn HT) as Hnull. rewrite Hp in Hnull.
  destruct (name n) as [nm|]; [|done]. destruct Hnull. split; [done|]. split; [done|]. by exists nm.
Qed.
Lemma unlink_shape T O s p n pp nm par : shape T O s -> p ∉ T ->
  nodes s !! p = Some n -> parent n = Some pp -> name n = Some nm -> nodes s !! pp = Some par ->
  exists t, table_unlink (name_key (nodeid par) nm) p (name_table s) = Some (Some t) /\
    shape (p :: T) O (with_name_table t s) /\ elements (name_table s) ≡ₚ p :: elements t.
Proof.
  intros Hs HT Hn Hpp Hnm Hpar. pose proof Hs as [H1 H2 H3 H4 H5 H6 H7 H8 H9 H10].
  assert (linked_at s p pp nm) as Hl by (by exists n).
  destruct (table_unlink_ok _ _ _ p (name_key (nodeid par) nm) H4) as (t & Hu & Hok & He); [by apply (linked_key s p pp)|by eapply linked_elem|].
  exists t. split; [done|]. split; [|done]. pose proof (tk_nodup _ _ _ H4) as Hd. rewrite He in Hd. apply NoDup_cons in Hd as [Hp Hd].
  split; try done; cbn.
  - rewrite lenZ_cons, Z.add_comm. exact Hok.
  - intros q. specialize (H5 q). rewrite He, elem_of_cons in H5. rewrite not_elem_of_cons. split.
    + intros Hq. destruct (proj1 H5 (or_intror Hq)) as [HqT Hlq]. split; [|done]. split; [|done]. by intros ->.
    + intros [[Hne HqT] Hlq]. destruct (proj2 H5 (conj HqT Hlq)); done.
  - intros q m Hq [Hne HqT]%not_elem_of_cons. by apply H6.
  - destruct H7 as (r & Hr & E1 & E2 & E3 & E4). exists r. split_and!; try done. rewrite not_elem_of_cons. split; [|done]. intros <-. congruence.
  - intros a b qq m [_ Ha]%not_elem_of_cons [_ Hb]%not_elem_of_cons. by apply H8.
  - destruct H9 as [Hnd HT']. split; [by constructor|]. intros q [->|Hq]%elem_of_cons; [by exists n|by apply HT'].
Qed.
(** A node that has left is cleared, and the table may shrink. *)
Lemma clear_shape ok T O s p n : shape (p :: T) O s -> nodes s !! p = Some n ->
  let s1 := set_nodes (<[p := set_link None None n]> (nodes s)) s in
  exists t, table_shrink ok (name_table s) = Some t /\ shape T O (with_name_table t s1) /\ elements t ≡ₚ elements (name_table s).
Proof.
  intros Hs Hn s1. pose proof Hs as [H1 H2 H3 H4 H5 H6 H7 H8 H9 H10]. assert (p ∉ elements (name_table s)) as Hout.
  { rewrite H5, not_elem_of_cons. tauto. }
  assert (forall q, q <> p -> nodes s1 !! q = nodes s !! q) as Hne by (intros q Hq; unfold s1; cbn; by apply lookup_insert_ne).
  assert (nodes s1 !! p = Some (set_link None None n)) as Heq by (unfold s1; cbn; apply lookup_insert_eq).
  assert (id_table s1 = id_table s) as Eid by done. assert (next_ptr s1 = next_ptr s) as Ept by done. clearbody s1.
  assert (forall q, is_Some (nodes s1 !! q) <-> is_Some (nodes s !! q)) as Hsome.
  { intros q. destruct (decide (q = p)) as [->|]; [|by rewrite Hne]. rewrite Heq, Hn. by split; eexists. }
  assert (forall q m', nodes s1 !! q = Some m' -> exists m, nodes s !! q = Some m /\ nodeid m' = nodeid m) as Hid.
  { intros q m'. destruct (decide (q = p)) as [->|]; [rewrite Heq; intros [= <-]; by exists n|]. rewrite Hne by done. by exists m'. }
  assert (forall q pp nm, q <> p -> linked_at s1 q pp nm <-> linked_at s q pp nm) as Hlk by (intros; unfold linked_at; by rewrite Hne).
  assert (forall pp nm, ~ linked_at s1 p pp nm) as Hnl by (intros pp nm (m & Hm & Hpp & _); rewrite Heq in Hm; by injection Hm as <-).
  assert (forall q, q <> p -> name_key_of (nodes s1) q = name_key_of (nodes s) q) as Hkey.
  { intros q Hq. unfold name_key_of. rewrite Hne by done. destruct (nodes s !! q) as [m|]; [|done]. cbn. destruct (name m); [|done]. cbn.
    destruct (parent m) as [pp|]; [|done]. cbn. destruct (decide (pp = p)) as [->|]; [|by rewrite Hne]. by rewrite Heq, Hn. }
  destruct (table_shrink_ok (name_key_of (nodes s1)) (lenZ T) ok (name_table s)) as (t & Ht & Hok & He).
  { eapply table_ok_ext; [|rewrite lenZ_cons, Z.add_comm in H4; exact H4]. intros q Hq. apply Hkey. by intros ->. }
  exists t. split; [done|]. split; [|done]. pose proof H9 as [[HpT HdT]%NoDup_cons HTs].
  split; cbn; rewrite ?Eid, ?Ept.
  - eapply table_ok_ext; [|exact H1]. intros q _. unfold id_key_of. destruct (decide (q = p)) as [->|]; [|by rewrite Hne].
    rewrite Heq, Hn. done.
  - intros q. change (nodes (with_name_table t s1)) with (nodes s1). rewrite Hsome. apply H2.
  - intros q r m m' Hq Hr HO HO' E. destruct (Hid q m Hq) as (a & Ha & Ea), (Hid r m' Hr) as (b & Hb & Eb). eapply H3; [done|done|done|done|congruence].
  - exact Hok.
  - intros q. rewrite He, H5, not_elem_of_cons. destruct (decide (q = p)) as [->|Hq].
    + split; [tauto|]. intros [_ (pp & nm & Hl)]. by apply Hnl in Hl.
    + split; [intros [[_ HT] (pp & nm & Hl)]|intros [HT (pp & nm & Hl)]]; (split; [done|]); exists pp, nm; by apply (Hlk q pp nm Hq).
  - intros q m Hq HT. destruct (decide (q = p)) as [->|Hqp].
    + change (nodes s1 !! p = Some m) in Hq. rewrite Heq in Hq. by injection Hq as <-.
    + change (nodes s1 !! q = Some m) in Hq. rewrite Hne in Hq by done. specialize (H6 q m Hq ltac:(rewrite not_elem_of_cons; done)).
      destruct (parent m), (name m); try done. change (nodes (with_name_table t s1)) with (nodes s1). by rewrite Hsome.
  - destruct H7 as (r & Hr & E1 & E2 & [E3 E3']%not_elem_of_cons & E4). exists r. change (nodes (with_name_table t s1)) with (nodes s1).
    rewrite Hne by done. done.
  - intros a b pp nm Ha Hb Hla Hlb. change (linked_at s1 a pp nm) in Hla. change (linked_at s1 b pp nm) in Hlb.
    destruct (decide (a = p)) as [->|Hap]; [by apply Hnl in Hla|]. destruct (decide (b = p)) as [->|Hbp]; [by apply Hnl in Hlb|].
    apply Hlk in Hla, Hlb; [|done..]. eapply H8; [| |exact Hla|exact Hlb]; by rewrite not_elem_of_cons.
  - split; [done|]. intros q Hq. change (is_Some (nodes s1 !! q)). rewrite Hsome. apply HTs. by right.
  - intros q Hq. change (is_Some (nodes s1 !! q)) in Hq. rewrite Hsome in Hq. auto.
Qed.
(** A node without name and children leaves the heap. *)
Lemma delete_shape T O s p n : shape T O s -> p ∉ T -> p ∉ O -> p <> 0%nat -> nodes s !! p = Some n -> parent n = None ->
  (forall c, c ∈ elements (name_table s) -> parent_of (nodes s) c <> Some p) ->
  exists k t, unhash_id mem p s = Done tt (with_id_table t (set_allocs k s)) /\
    shape T O (set_nodes (delete p (nodes s)) (with_id_table t s)).
Proof.
  intros Hs HT HO H0 Hn Hnp Hch. pose proof Hs as [H1 H2 H3 H4 H5 H6 H7 H8 H9 H10].
  destruct (table_unlink_ok _ _ _ p (id_key (nodeid n)) H1) as (t1 & Hu & Hok1 & He1).
  { unfold id_key_of. by rewrite Hn. } { apply H2. by split. }
  destruct (table_shrink_ok _ 0 (mem (allocs s)) t1 Hok1) as (t & Ht & Hok & He).
  exists (S (allocs s)), t. split.
  { unfold unhash_id. step ltac:(by apply deref_some). step ltac:(exact eq_refl). rewrite Hu. step ltac:(exact eq_refl).
    step ltac:(exact eq_refl). rewrite Ht. step ltac:(exact eq_refl). done. }
  pose proof (tk_nodup _ _ _ H1) as Hd. rewrite He1 in Hd. apply NoDup_cons in Hd as [Hp1 Hd].
  assert (p ∉ elements (name_table s)) as Hpn. { rewrite H5. intros [_ (pp & nm & m & Hm & E & _)]. congruence. }
  assert (forall q m, nodes s !! q = Some m -> q ∉ T -> parent m <> Some p) as Hnc.
  { intros q m Hq HqT E. destruct (linked_parent T O s q m p Hs HqT Hq E) as (_ & _ & nm & Enm).
    apply (Hch q); [|unfold parent_of; by rewrite Hq]. apply H5. split; [done|]. by exists p, nm, m. }
  assert (forall q, q <> p -> delete p (nodes s) !! q = nodes s !! q) as Hne by (intros; by apply lookup_delete_ne).
  assert (forall q m, delete p (nodes s) !! q = Some m -> q <> p /\ nodes s !! q = Some m) as Hdel by (intros q m [? ?]%lookup_delete_Some; done).
  assert (forall q pp nm, q <> p -> linked_at (set_nodes (delete p (nodes s)) (with_id_table t s)) q pp nm <-> linked_at s q pp nm) as Hlk.
  { intros q pp nm Hq. unfold linked_at. cbn. by rewrite Hne. }
  split; cbn.
  - eapply table_ok_ext; [|exact Hok]. intros q Hq. unfold id_key_of. rewrite Hne; [done|]. intros ->. rewrite He in Hq. done.
  - intros q. rewrite He. specialize (H2 q). rewrite He1, elem_of_cons in H2. destruct (decide (q = p)) as [->|Hq].
    + rewrite lookup_delete_eq. split; [done|]. by intros [[? ?] _].
    + rewrite Hne by done. tauto.
  - intros a b m m' [_ Ha]%Hdel [_ Hb]%Hdel. by apply H3.
  - eapply table_ok_ext; [|exact H4]. intros q Hq. apply H5 in Hq as [HqT (pp & nm & m & Hm & E1 & E2)].
    assert (q <> p) by congruence. unfold name_key_of. rewrite Hne by done. rewrite Hm. cbn. rewrite E2. cbn. rewrite E1. cbn.
    rewrite Hne; [done|]. intros ->. by eapply Hnc.
  - intros q. rewrite H5. split; (intros [HqT (pp & nm & Hl)]; split; [done|]; exists pp, nm; apply Hlk; [|done]).
    + intros ->. destruct Hl as (m & Hm & E & _). congruence.
    + intros ->. destruct Hl as (m & Hm & E & _). cbn in Hm. by rewrite lookup_delete_eq in Hm.
  - intros q m [Hq Hm]%Hdel HqT. specialize (H6 q m Hm HqT). pose proof (Hnc q m Hm HqT) as Hno.
    destruct (parent m) as [pp|], (name m); try done. destruct H6 as [H6 H6']. split; [|done]. rewrite Hne; [done|]. by intros ->.
  - destruct H7 as (r & Hr & Hrest). exists r. rewrite Hne by done. done.
  - intros a b pp nm Ha Hb Hla Hlb.
    assert (a <> p) by (intros ->; destruct Hla as (m & Hm & _); cbn in Hm; by rewrite lookup_delete_eq in Hm).
    assert (b <> p) by (intros ->; destruct Hlb as (m & Hm & _); cbn in Hm; by rewrite lookup_delete_eq in Hm).
    apply Hlk in Hla, Hlb; [|done..]. by eapply H8.
  - destruct H9 as [Hnd HTs]. split; [done|]. intros q Hq. rewrite Hne; [by apply HTs|]. by intros ->.
  - intros q [m [_ Hm]%Hdel]. apply H10. by exists m.
Qed.

(** ** Dropping references *)

Lemma children_unlink s t p pp q : elements (name_table s) ≡ₚ p :: elements t -> parent_of (nodes s) p = Some pp ->
  children (with_name_table t s) q = children s q - (if decide (q = pp) then 1 else 0).
Proof.
  intros He Hp. unfold children. rewrite He, filter_cons, Hp. cbn [with_name_table set_tables name_table nodes].
  destruct (decide (Some pp = Some q)) as [[= ->]|Hne].
  - rewrite decide_True, lenZ_cons by done. lia.
  - rewrite decide_False by congruence. lia.
Qed.
Lemma children_pos s q c : c ∈ elements (name_table s) -> parent_of (nodes s) c = Some q -> 0 < children s q.
Proof.
  intros Hc Hp. unfold children, lenZ. assert (c ∈ filter (fun c => parent_of (nodes s) c = Some q) (elements (name_table s))) as Hin.
  { by apply list_elem_of_filter. } destruct (filter _ _); [by apply not_elem_of_nil in Hin|cbn; lia].
Qed.
Lemma children_nonneg s q : 0 <= children s q.
Proof. apply lenZ_nonneg. Qed.
Lemma same_refs_key n n' : set_refctr 0 n' = set_refctr 0 n -> same_key n n'.
Proof.
  intros H. split_and!; [change (nodeid (set_refctr 0 n') = nodeid n)|change (parent (set_refctr 0 n') = parent n)|change (name (set_refctr 0 n') = name n)]; by rewrite H.
Qed.
Lemma refctr_same_keys (s : fuse) p n v : nodes s !! p = Some n -> same_keys (nodes s) (<[p := set_refctr v n]> (nodes s)).
Proof. intros Hn. by apply (same_keys_update _ p n). Qed.
Lemma ranked_ext rank s s' : (forall p n' pp, nodes s' !! p = Some n' -> parent n' = Some pp -> exists n, nodes s !! p = Some n /\ parent n = Some pp) ->
  ranked rank s -> ranked rank s'.
Proof. intros H Hr p n' pp Hp Hpp. destruct (H p n' pp Hp Hpp) as (n & Hn & E). by eapply Hr. Qed.
Lemma guarded_ext K s s' : (forall c, c ∈ elements (name_table s) -> c ∈ elements (name_table s')) ->
  (forall q n', nodes s' !! q = Some n' -> treelock n' <> 0 -> exists n, nodes s !! q = Some n /\ treelock n <> 0) ->
  (forall q n, K q -> nodes s !! q = Some n -> exists n', nodes s' !! q = Some n' /\ nlookup n <= nlookup n' /\ forall pp, parent n = Some pp -> parent n' = Some pp) ->
  guarded K None s -> guarded K None s'.
Proof.
  intros He Hl Hk [G1 G2]. split.
  - intros q n' Hq Ht. destruct (Hl q n' Hq Ht) as (n & Hn & E). by apply (G1 q n Hn).
  - intros q Hq. destruct (G2 q Hq) as (n & Hn & Hsup). destruct (Hk q n Hq Hn) as (n' & Hn' & E1 & _). exists n'. split; [done|].
    destruct Hsup as [?|(c & Hc & _ & Hp & HKc)]; [left; lia|right]. exists c. split; [auto|]. split; [done|]. split; [|done].
    destruct (G2 c HKc) as (m & Hm & _). destruct (Hk c m HKc Hm) as (m' & Hm' & _ & E2). unfold parent_of in *. rewrite Hm in Hp. rewrite Hm'. cbn in *. auto.
Qed.
(** A node without references is in use by nobody. *)
Lemma unreferenced K s d X p n : refs d X s -> guarded K None s -> nodes s !! p = Some n -> refctr n = 0 -> d <> Some p ->
  ~ K p /\ children s p = 0 /\ nlookup n = 0 /\ treelock n = 0 /\ p <> 0%nat.
Proof.
  intros Hr [G1 G2] Hn H0 Hd. destruct (Hr p n Hn) as (E & Hnl & _ & Hroot). rewrite H0, decide_False in E by done.
  pose proof (children_nonneg s p). unfold lookups_hold in E. destruct (Z.ltb_spec 0 (nlookup n)); [lia|].
  assert (~ K p) as HK.
  { intros HK. destruct (G2 p HK) as (n' & Hn' & Hsup). assert (n' = n) as -> by congruence. destruct Hsup as [?|(c & Hc & _ & Hp & _)]; [lia|].
    pose proof (children_pos s p c Hc Hp). lia. }
  split; [done|]. split; [lia|]. split; [lia|]. split.
  - destruct (Z.eq_dec (treelock n) 0); [done|]. exfalso. by eapply HK, G1.
  - intros ->. specialize (Hroot eq_refl). lia.
Qed.

(** States that differ in nothing the tree depends on. *)
Definition tree_eq (s s' : fuse) : Prop :=
  nodes s' = nodes s /\ name_table s' = name_table s /\ id_table s' = id_table s /\ next_ptr s' = next_ptr s.
Lemma tree_eq_shape T O s s' : tree_eq s s' -> shape T O s -> shape T O s'.
Proof.
  intros (En & Et & Ei & Ep) Hs. apply (shape_ext T O s); try done; [lia|]. intros p. rewrite En. destruct (nodes s !! p); [apply same_key_refl|done].
Qed.
Lemma tree_eq_refs d X s s' : tree_eq s s' -> refs d X s -> refs d X s'.
Proof. intros (En & Et & _) Hr p n. unfold children. rewrite En, Et. apply Hr. Qed.
Lemma tree_eq_ranked rank s s' : tree_eq s s' -> ranked rank s -> ranked rank s'.
Proof. intros (En & _) Hr p n pp. rewrite En. apply Hr. Qed.
Lemma tree_eq_guarded K ex s s' : tree_eq s s' -> guarded K ex s -> guarded K ex s'.
Proof. intros (En & Et & _) Hg. unfold guarded. rewrite En, Et. apply Hg. Qed.
Lemma tree_eq_kept s s' q : tree_eq s s' -> kept (nodes s !! q) (nodes s' !! q).
Proof. intros (-> & _). apply kept_refl. Qed.

(** The end of [delete_node]. *)
Lemma delete_end T X K rank s p n :
  shape T [] s -> refs None (p :: X) s -> ranked rank s -> guarded K None s -> nodes s !! p = Some n -> parent n = None -> name n = None ->
  refctr n = 0 -> p ∉ T ->
  exists s', (s0 ← pget; _ ← (if lru_enabled s0 then remove_node_lru p else mret tt); _ ← unhash_id mem p; free_node p) s = Done tt s' /\
    shape T [] s' /\ refs None X s' /\ ranked rank s' /\ guarded K None s' /\ frame s s' /\ nodes s' = delete p (nodes s).
Proof.
  intros Hs Hr Hrk HK Hn Hnp Hnn H0 HT. destruct (unreferenced K s None _ p n Hr HK Hn H0 ltac:(done)) as (HnK & Hch & Hnl & _ & Hp0).
  assert (exists l s1, (if lru_enabled s then remove_node_lru p else mret tt) s = Done tt s1 /\ tree_eq s s1 /\ frame s s1 /\ s1 = set_lru l s) as (l & s1 & Hl & Heq & Hf & Hs1).
  { destruct (lru_enabled s); [by eexists _, _|]. exists (lru_table s), s. split_and!; try done. by destruct s. }
  destruct (delete_shape T [] s1 p n) as (k & t & Hu & Hsh); try done.
  { by apply (tree_eq_shape T [] s). } { apply not_elem_of_nil. } { by rewrite Hs1. }
  { intros c Hc Hp. rewrite Hs1 in Hc, Hp. pose proof (children_pos s p c Hc Hp). lia. }
  set (s' := set_nodes (delete p (nodes s1)) (with_id_table t (set_allocs k s1))).
  assert (nodes s' = delete p (nodes s)) as Hnd by (unfold s'; cbn; by rewrite Hs1).
  assert (name_table s' = name_table s) as Hnt by (unfold s'; cbn; by rewrite Hs1).
  assert (p ∉ elements (name_table s)) as Hpn. { rewrite (sh_names _ _ _ Hs). intros [_ (pp & nm & m & Hm & E & _)]. congruence. }
  exists s'. split; [|split; [|split; [|split; [|split; [|split]]]]].
  - unfold pget at 1. step ltac:(exact eq_refl). step ltac:(exact Hl). step ltac:(exact Hu). done.
  - apply (tree_eq_shape T [] (set_nodes (delete p (nodes s1)) (with_id_table t s1)) s'); [by split_and!|exact Hsh].
  - intros q m Hq. rewrite Hnd in Hq. apply lookup_delete_Some in Hq as [Hqp Hq]. destruct (Hr q m Hq) as (E & R1 & R2 & R3).
    assert (children s' q = children s q) as ->.
    { apply children_ext; [by rewrite Hnt|]. intros c Hc. unfold parent_of. rewrite Hnd, lookup_delete_ne; [done|]. by intros <-. }
    split; [done|]. split; [done|]. split; [|done]. intros HqX. apply R2. by apply not_elem_of_cons.
  - intros q m pp Hq. rewrite Hnd in Hq. apply lookup_delete_Some in Hq as [_ Hq]. by eapply Hrk.
  - apply (guarded_ext K s); [by rewrite Hnt| | |done].
    + intros q m Hq Ht. rewrite Hnd in Hq. apply lookup_delete_Some in Hq as [_ Hq]. by exists m.
    + intros q m HKq Hq. exists m. rewrite Hnd, lookup_delete_ne; [done|]. by intros ->.
  - unfold s'. destruct Hf as (?&?&?&?&?&?&?&?). by split_and!.
  - done.
Qed.

Lemma rank_not_elem (rank : nat -> nat) p T : Forall (fun q => (rank p < rank q)%nat) T -> p ∉ T.
Proof. rewrite Forall_forall. intros H Hp. specialize (H p Hp). lia. Qed.
Definition unhash_ok (fuel : nat) : Prop := forall p n s T X K rank,
  shape T [] s -> refs None X s -> ranked rank s -> guarded K (Some p) s -> nodes s !! p = Some n -> Forall (fun q => (rank p < rank q)%nat) T -> p <> 0%nat ->
  (base.size (nodes s) < fuel + length T)%nat ->
  exists s', unhash_rounds mem fuel p s = Done tt s' /\ shape T [] s' /\ refs None X s' /\ ranked rank s' /\ guarded K None s' /\ frame s s' /\
    nodes s' !! p = Some (set_link None None n) /\ (forall q, q <> p -> kept (nodes s !! q) (nodes s' !! q)) /\
    forall q, q <> p -> (rank p <= rank q)%nat -> nodes s' !! q = nodes s !! q.

(** The node of a debt is unreferenced: it may be deleted, and others above it. *)
Lemma unref_ok fuel : unhash_ok fuel -> forall p n s T X K rank,
  shape T [] s -> refs (Some p) X s -> ranked rank s -> guarded K None s -> nodes s !! p = Some n -> Forall (fun q => (rank p < rank q)%nat) T ->
  (base.size (nodes s) < fuel + length T)%nat ->
  exists s', unref_with mem (unhash_rounds mem fuel) p s = Done tt s' /\ shape T [] s' /\ refs None X s' /\ ranked rank s' /\ guarded K None s' /\ frame s s' /\
    (forall q, kept (nodes s !! q) (nodes s' !! q)) /\ forall q, (rank p < rank q)%nat -> nodes s' !! q = nodes s !! q.
Proof.
  intros Hun p n s T X K rank Hs Hr Hrk HK Hn HTr Hfuel. pose proof (rank_not_elem rank p T HTr) as HT. destruct (Hr p n Hn) as (Eref & Hnl & _ & Hroot). rewrite decide_True in Eref by done.
  pose proof (children_nonneg s p). assert (0 <= lookups_hold n) by (unfold lookups_hold; case_match; lia).
  unfold unref_with. step ltac:(by apply deref_some). unfold passert. destruct (Z.ltb_spec 0 (refctr n)); [|lia]. step ltac:(exact eq_refl).
  step ltac:(by apply update_some). set (n1 := set_refctr (refctr n - 1) n). set (s1 := set_nodes (<[p := n1]> (nodes s)) s).
  pose proof (refctr_same_keys s p n (refctr n - 1) Hn) as Hkeys. fold n1 in Hkeys.
  assert (shape T [] s1) as Hs1 by (by apply (shape_ext T [] s)).
  assert (nodes s1 !! p = Some n1) as Hn1 by apply lookup_insert_eq.
  assert (forall q, q <> p -> nodes s1 !! q = nodes s !! q) as Hne by (intros; by apply lookup_insert_ne).
  assert (forall q, children s1 q = children s q) as Hch by (intros q; apply children_ext; [done|intros; by apply same_keys_parent]).
  assert (refs None (if refctr n - 1 =? 0 then p :: X else X) s1) as Hr1.
  { intros q m Hq. rewrite Hch. destruct (decide (q = p)) as [->|Hqp].
    - rewrite Hn1 in Hq. injection Hq as <-. rewrite decide_False by done.
      change (refctr n1) with (refctr n - 1). change (lookups_hold n1) with (lookups_hold n). split; [lia|]. split; [done|]. split; [|done].
      destruct (Z.eqb_spec (refctr n - 1) 0); [|intros; lia]. rewrite not_elem_of_cons. by intros [? _].
    - rewrite Hne in Hq by done. destruct (Hr q m Hq) as (E & R1 & R2 & R3). rewrite decide_False in E by congruence. rewrite decide_False by congruence. split; [done|]. split; [done|].
      split; [|done]. intros Hqx. apply R2. destruct (_ =? _); [|done]. by apply not_elem_of_cons in Hqx as [_ ?]. }
  assert (ranked rank s1) as Hrk1.
  { eapply ranked_ext; [|exact Hrk]. intros q m pp Hq Hpp. destruct (decide (q = p)) as [->|Hqp]; [|exists m; by rewrite <- Hne].
    rewrite Hn1 in Hq. injection Hq as <-. by exists n. }
  assert (guarded K None s1) as HK1.
  { apply (guarded_ext K s); try done.
    - intros q m Hq Ht. destruct (decide (q = p)) as [->|Hqp]; [|exists m; by rewrite <- Hne]. rewrite Hn1 in Hq. injection Hq as <-. by exists n.
    - intros q m _ Hq. destruct (decide (q = p)) as [->|Hqp]; [|exists m; by rewrite Hne]. exists n1. split; [done|].
      assert (m = n) as -> by congruence. done. }
  assert (forall q, kept (nodes s !! q) (nodes s1 !! q)) as Hkept1.
  { intros q. destruct (decide (q = p)) as [->|Hqp]; [by rewrite Hn, Hn1|]. rewrite Hne by done. apply kept_refl. }
  destruct (Z.eqb_spec (refctr n - 1) 0) as [Hz|Hz].
  2: { exists s1. split_and!; try done. intros q Hq. apply Hne. intros ->. lia. }
  destruct (unreferenced K s1 None _ p n1 Hr1 HK1 Hn1 Hz ltac:(done)) as (HnK & Hch0 & Hnl0 & Htl0 & Hp0).
  unfold delete_with. step ltac:(by apply deref_some). rewrite Htl0. cbn [Z.eqb passert]. step ltac:(exact eq_refl).
  assert (base.size (nodes s1) = base.size (nodes s)) as Hsz by (unfold s1; cbn; apply map_size_insert_Some; by eexists).
  assert (guarded K (Some p) s1) as HK1p.
  { destruct HK1 as [G1 G2]. split; [done|]. intros q Hq. destruct (G2 q Hq) as (m & Hm & Hsup). exists m. split; [done|].
    destruct Hsup as [?|(c & Hc & _ & Hcp & HKc)]; [by left|right]. exists c. split; [done|]. split; [|done]. intros [= ->]. done. }
  destruct (Hun p n1 s1 T (p :: X) K rank) as (s2 & Hrun & Hs2 & Hr2 & Hrk2 & HK2 & Hf2 & Hn2 & Hkept2 & Hsame2); try done.
  { by rewrite Hsz. }
  step ltac:(exact Hrun).
  destruct (delete_end T X K rank s2 p (set_link None None n1)) as (s3 & Hrun3 & Hs3 & Hr3 & Hrk3 & HK3 & Hf3 & Hn3); try done.
  exists s3. split; [exact Hrun3|]. split_and!; try done.
  - eapply frame_trans; [|exact Hf3]. by eapply frame_trans; [|exact Hf2].
  - intros q. rewrite Hn3. destruct (decide (q = p)) as [->|Hqp].
    + rewrite lookup_delete_eq, Hn. done.
    + rewrite lookup_delete_ne by done. eapply kept_trans; [apply Hkept1|by apply Hkept2].
  - intros q Hq. rewrite Hn3. assert (q <> p) by (intros ->; lia). rewrite lookup_delete_ne by done. rewrite Hsame2 by (done || lia). by apply Hne.
Qed.

Lemma unhash_rounds_ok fuel : unhash_ok fuel.
Proof.
  induction fuel as [|fuel IH]; intros p n s T X K rank Hs Hr Hrk HK Hn HTr Hp0 Hfuel; pose proof (rank_not_elem rank p T HTr) as HT.
  { exfalso. destruct (sh_transit _ _ _ Hs) as [HdT HTs].
    assert (length (p :: T) <= base.size (nodes s))%nat; [|cbn in *; lia].
    rewrite <- size_dom, <- (size_list_to_set (C := gset nat)) by (by constructor). apply subseteq_size. intros q.
    rewrite elem_of_list_to_set, elem_of_dom. intros [->|Hq]%elem_of_cons; [by exists n|auto]. }
  cbn [unhash_rounds]. step ltac:(by apply deref_some).
  destruct (name n) as [nm|] eqn:Hnm.
  2: { pose proof (sh_null _ _ _ Hs p n Hn HT) as Hnull. rewrite Hnm in Hnull. destruct (parent n) as [pp|] eqn:Hpp; [done|].
    exists s. split_and!; try done.
    - destruct HK as [G1 G2]. split; [done|]. intros q Hq. destruct (G2 q Hq) as (m & Hm & Hsup). exists m. split; [done|].
      destruct Hsup as [?|(c & Hc & _ & Hrest)]; [by left|right]. by exists c.
    - rewrite Hn. f_equal. destruct n. cbn in *. by subst. }
  pose proof (sh_null _ _ _ Hs p n Hn HT) as Hnull. rewrite Hnm in Hnull. destruct (parent n) as [pp|] eqn:Hpp; [|done].
  destruct Hnull as [[par Hpar] _]. cbn [or_fault]. step ltac:(exact eq_refl). step ltac:(by apply deref_some). step ltac:(exact eq_refl).
  destruct (unlink_shape T [] s p n pp nm par) as (t & Hu & Hs1 & He); try done. rewrite Hu. cbn [or_fault].
  step ltac:(exact eq_refl). cbn [or_fault]. step ltac:(exact eq_refl). step ltac:(exact eq_refl).
  change (set_tables t (id_table s) s) with (with_name_table t s). set (s1 := with_name_table t s) in *.
  assert (parent_of (nodes s) p = Some pp) as Hpo by (unfold parent_of; by rewrite Hn).
  pose proof (Hrk p n pp Hn Hpp) as Hlt.
  destruct (unref_ok fuel IH pp par s1 (p :: T) X K rank) as (s2 & Hrun2 & Hs2 & Hr2 & Hrk2 & HK2 & Hf2 & Hkept2 & Hsame2); try done.
  { intros q m Hq. unfold s1. rewrite (children_unlink s t p pp q He Hpo). destruct (Hr q m Hq) as (E & R1 & R2 & R3).
    rewrite decide_False in E by done. split; [|done]. destruct (decide (q = pp)) as [->|]; [rewrite decide_True by done; lia|].
    rewrite decide_False by congruence. lia. }
  { destruct HK as [G1 G2]. split; [done|]. intros q Hq. destruct (G2 q Hq) as (m & Hm & Hsup). exists m. split; [done|].
    destruct Hsup as [?|(c & Hc & Hne & Hrest)]; [by left|right]. exists c. split; [|done]. rewrite He in Hc. apply elem_of_cons in Hc as [->|]; done. }
  { constructor; [done|]. eapply Forall_impl; [exact HTr|]. intros q Hq. cbn in Hq. lia. }
  { cbn in *. lia. }
  step ltac:(exact Hrun2). assert (nodes s2 !! p = Some n) as Hn2 by (rewrite Hsame2 by done; exact Hn).
  step ltac:(by apply update_some).
  destruct (clear_shape (mem (allocs s2)) T [] s2 p n Hs2 Hn2) as (t2 & Ht2 & Hs3 & He3). cbv zeta in Hs3.
  step ltac:(exact eq_refl). step ltac:(exact eq_refl).
  match goal with |- context [table_shrink ?a ?b] => change (table_shrink a b) with (table_shrink (mem (allocs s2)) (name_table s2)) end.
  rewrite Ht2. step ltac:(exact eq_refl).
  set (s4 := with_name_table t2 (set_allocs (S (allocs s2)) (set_nodes (<[p:=set_link None None n]> (nodes s2)) s2))).
  exists s4. split; [done|].
  assert (tree_eq (with_name_table t2 (set_nodes (<[p:=set_link None None n]> (nodes s2)) s2)) s4) as Heq by done.
  assert (forall q, q <> p -> nodes s4 !! q = nodes s2 !! q) as Hne by (intros; by apply lookup_insert_ne).
  assert (nodes s4 !! p = Some (set_link None None n)) as Hn4 by apply lookup_insert_eq.
  assert (elements (name_table s4) ≡ₚ elements (name_table s2)) as He4 by exact He3.
  assert (p ∉ elements (name_table s2)) as Hpn. { rewrite (sh_names _ _ _ Hs2), not_elem_of_cons. tauto. }
  split_and!.
  - by eapply tree_eq_shape.
  - intros q m Hq. assert (children s4 q = children s2 q) as ->.
    { apply children_ext; [done|]. intros c Hc. unfold parent_of. rewrite Hne; [done|]. by intros ->. }
    destruct (decide (q = p)) as [->|Hqp]; [|apply Hr2; by rewrite <- Hne]. rewrite Hn4 in Hq. injection Hq as <-. exact (Hr2 p n Hn2).
  - eapply ranked_ext; [|exact Hrk2]. intros q m qq Hq Hqq. destruct (decide (q = p)) as [->|Hqp]; [|exists m; by rewrite <- Hne].
    rewrite Hn4 in Hq. by injection Hq as <-.
  - destruct HK2 as [G1 G2]. split.
    + intros q m Hq Ht. destruct (decide (q = p)) as [->|Hqp]; [rewrite Hn4 in Hq; injection Hq as <-; by eapply G1|].
      rewrite Hne in Hq by done. by eapply G1.
    + intros q Hq. destruct (G2 q Hq) as (m & Hm & Hsup). exists (if decide (q = p) then set_link None None m else m).
      split. { destruct (decide (q = p)) as [->|]; [|by rewrite Hne]. rewrite Hn4. congruence. }
      destruct Hsup as [?|(c & Hc & Hrest)]; [by left; destruct (decide _)|right]. exists c. rewrite He4. split; [done|].
      unfold parent_of in *. rewrite Hne; [done|]. by intros ->.
  - apply (frame_trans s s1 s4); [done|]. by apply (frame_trans s1 s2 s4).
  - done.
  - intros q Hqp. rewrite Hne by done. eapply kept_trans; [|apply Hkept2]. apply kept_refl.
  - intros q Hqp Hq. rewrite Hne by done. rewrite Hsame2 by lia. done.
Qed.
End Tree.
