(* ===== verification/HlNames.v ===== *)
(** * The operations on nodes refine a name space

    What the parts of the operations do to nodes and tables: a new id is nobody else's, a
    node is linked under a name or looked up once more, and the tree stays well formed.
    [HlSpace] puts them together. *)
From stdpp Require Import relations.
From S2P Require Import Prelude Errno Sys HlLocks HlTable HlNodes HlTree.

Section Names.
Variable mem : nat -> bool.
Implicit Types s : fuse.

(** ** Entering the name table *)

Lemma fresh_shape s p n : shape [] [] s -> nodes s !! p = None -> (p < next_ptr s)%nat -> parent n = None -> name n = None ->
  shape [] [p] (set_nodes (<[p := n]> (nodes s)) s).
Proof.
  intros [H1 H2 H3 H4 H5 H6 H7 H8 H9 H10] Hp Hlt Hpn Hnn.
  assert (forall q, is_Some (nodes s !! q) -> q <> p) as Hne by (intros q [? ?] ->; congruence).
  assert (forall q m, <[p := n]> (nodes s) !! q = Some m -> q <> p -> nodes s !! q = Some m) as Hold by (intros q m Hq ?; by rewrite lookup_insert_ne in Hq).
  assert (forall q, q <> p -> <[p := n]> (nodes s) !! q = nodes s !! q) as Hsame by (intros; by apply lookup_insert_ne).
  assert (forall q pp nm, linked_at (set_nodes (<[p := n]> (nodes s)) s) q pp nm <-> linked_at s q pp nm) as Hl.
  { intros q pp nm. unfold linked_at. cbn. destruct (decide (q = p)) as [->|]; [|by rewrite Hsame]. rewrite lookup_insert_eq, Hp.
    split; [intros (m & [= <-] & ? & ?); congruence|by intros (m & ? & _)]. }
  split; cbn.
  - eapply table_ok_ext; [|exact H1]. intros q [Hq _]%H2. unfold id_key_of. rewrite Hsame by auto. done.
  - intros q. rewrite H2, not_elem_of_cons. destruct (decide (q = p)) as [->|Hq]; [|rewrite Hsame by done; split; intros [? ?]; by split_and!; try apply not_elem_of_nil].
    rewrite Hp. split; [by intros [[? ?] _]|tauto].
  - intros a b m m' Ha Hb [HaO _]%not_elem_of_cons [HbO _]%not_elem_of_cons. apply (H3 a b m m'); try apply not_elem_of_nil; auto.
  - eapply table_ok_ext; [|exact H4]. intros q (_ & pp & nm & m & Hm & E1 & E2)%H5. unfold name_key_of. rewrite Hsame, Hm by (apply Hne; by exists m).
    cbn. rewrite E2. cbn. rewrite E1. cbn. specialize (H6 q m Hm (not_elem_of_nil q)). rewrite E1, E2 in H6. destruct H6 as [H6 _]. by rewrite Hsame by auto.
  - intros q. rewrite H5. split; (intros [HT (pp & nm & Hlq)]; split; [done|]; exists pp, nm; by apply Hl).
  - intros q m Hq _. destruct (decide (q = p)) as [->|Hqp]; [rewrite lookup_insert_eq in Hq; injection Hq as <-; by rewrite Hpn, Hnn|].
    rewrite Hsame in Hq by done. specialize (H6 q m Hq (not_elem_of_nil q)). destruct (parent m) as [pp|], (name m); try done.
    destruct H6 as [H6 _]. rewrite Hsame by auto. split; [done|]. rewrite not_elem_of_cons. split; [auto|apply not_elem_of_nil].
  - destruct H7 as (r & Hr & E1 & E2 & E3 & E4). exists r. assert (0%nat <> p) by (apply Hne; by exists r). rewrite Hsame by done.
    split_and!; try done. rewrite not_elem_of_cons. by split.
  - intros a b pp nm _ _ Ha Hb. rewrite Hl in Ha. rewrite Hl in Hb. by eapply H8; try apply not_elem_of_nil.
  - split; [constructor|]. by intros q ?%not_elem_of_nil.
  - intros q. destruct (decide (q = p)) as [->|Hq]; [done|]. rewrite Hsame by done. apply H10.
Qed.

Definition linked_heap (m : gmap nat node) (p : nat) (n : node) (pp : nat) (par : node) (nm : string) : gmap nat node :=
  <[p := set_link (Some pp) (Some nm) n]> (<[pp := set_refctr (refctr par + 1) par]> m).
Lemma hash_name_spec O s p n pp par nm : shape [] O s -> nodes s !! p = Some n -> parent n = None -> name n = None -> p <> 0%nat ->
  nodes s !! pp = Some par -> pp ∉ O -> p <> pp -> (forall q, ~ linked_at s q pp nm) ->
  exists b s', hash_name mem p (nodeid par) nm s = Done b s' /\ frame s s' /\ id_table s' = id_table s /\
    if b then nodes s' = linked_heap (nodes s) p n pp par nm /\ shape [] O s' /\ elements (name_table s') ≡ₚ p :: elements (name_table s)
    else tree_eq s s'.
Proof.
  intros Hs Hn Hnp Hnn H0 Hpar HO Hne Hfree. pose proof Hs as [H1 H2 H3 H4 H5 H6 H7 H8 H9 H10].
  unfold hash_name. step ltac:(exact eq_refl). step ltac:(by eapply get_node_spec).
  assert (exists st s1, (if (String.length nm <? 32)%nat then mret true else get_memory mem) s = Done st s1 /\ tree_eq s s1 /\ frame s s1) as (st & s1 & Hst & Heq1 & Hf1).
  { destruct (_ <? _)%nat; [by eexists _, _|]. by eexists _, _. }
  step ltac:(exact Hst). destruct Heq1 as (E1 & E2 & E3 & E4). destruct st; cbn [negb].
  2: { step ltac:(rewrite <- E1 in Hn; by apply deref_some). step ltac:(rewrite <- E1 in Hn; by apply update_some).
    eexists _, _. split; [reflexivity|]. split; [destruct Hf1 as (?&?&?&?&?&?&?&?); by split_and!|]. split; [by rewrite <- E3|]. split_and!; try done. cbn.
    rewrite E1. apply insert_id. rewrite Hn. f_equal. destruct n. cbn in *. by subst. }
  step ltac:(rewrite <- E1 in Hpar; by apply deref_some). step ltac:(rewrite <- E1 in Hpar; by apply update_some).
  set (s2 := set_nodes _ s1). assert (nodes s2 !! p = Some n) as Hn2 by (unfold s2; cbn; rewrite lookup_insert_ne, E1; done).
  step ltac:(by apply update_some). step ltac:(exact eq_refl). step ltac:(exact eq_refl).
  set (s3 := set_allocs _ (set_nodes _ s2)).
  assert (nodes s3 = linked_heap (nodes s) p n pp par nm) as Hns3 by (unfold s3, s2; cbn; by rewrite E1).
  assert (name_table s3 = name_table s) as Hnt by (unfold s3, s2; cbn; done). set (m := linked_heap (nodes s) p n pp par nm) in *.
  assert (m !! p = Some (set_link (Some pp) (Some nm) n)) as Hmp by apply lookup_insert_eq.
  assert (m !! pp = Some (set_refctr (refctr par + 1) par)) as Hmpp by (unfold m, linked_heap; rewrite lookup_insert_ne by done; apply lookup_insert_eq).
  assert (forall q, q <> p -> q <> pp -> m !! q = nodes s !! q) as Hmo by (intros; unfold m, linked_heap; by rewrite !lookup_insert_ne).
  assert (forall q, is_Some (m !! q) <-> is_Some (nodes s !! q)) as Hsome.
  { intros q. destruct (decide (q = p)) as [->|]; [rewrite Hmp, Hn; by split; eexists|].
    destruct (decide (q = pp)) as [->|]; [rewrite Hmpp, Hpar; by split; eexists|]. by rewrite Hmo. }
  assert (forall q a, m !! q = Some a -> exists b, nodes s !! q = Some b /\ nodeid a = nodeid b /\ (q <> p -> parent a = parent b /\ name a = name b)) as Hback.
  { intros q a Ha. destruct (decide (q = p)) as [->|]; [rewrite Hmp in Ha; injection Ha as <-; by exists n|].
    destruct (decide (q = pp)) as [->|]; [rewrite Hmpp in Ha; injection Ha as <-; by exists par|]. exists a. by rewrite <- Hmo. }
  assert (forall q b, nodes s !! q = Some b -> exists a, m !! q = Some a /\ nodeid a = nodeid b) as Hforth.
  { intros q b Hb. destruct (proj2 (Hsome q)) as [a Ha]; [by exists b|]. exists a. split; [done|]. destruct (Hback q a Ha) as (b' & Hb' & E & _). congruence. }
  assert (forall q, id_key_of m q = id_key_of (nodes s) q) as Hik.
  { intros q. unfold id_key_of. destruct (m !! q) as [a|] eqn:Ha.
    - destruct (Hback q a Ha) as (b & -> & Ea & _). cbn. by rewrite Ea.
    - destruct (nodes s !! q) eqn:Hb; [|done]. destruct (proj2 (Hsome q)) as [? ?]; [by eexists|congruence]. }
  assert (forall q, q <> p -> name_key_of m q = name_key_of (nodes s) q) as Hnk.
  { intros q Hq. unfold name_key_of. destruct (m !! q) as [a|] eqn:Ha.
    - destruct (Hback q a Ha) as (b & -> & _ & Hpn). destruct (Hpn Hq) as [Ea Eb]. cbn. rewrite Ea, Eb. destruct (name b); [|done]. cbn. destruct (parent b) as [r|]; [|done]. cbn.
      destruct (m !! r) as [c|] eqn:Hc; [destruct (Hback r c Hc) as (c' & -> & Ec & _); cbn; by rewrite Ec|].
      destruct (nodes s !! r) eqn:Hd; [|done]. destruct (proj2 (Hsome r)) as [? ?]; [by eexists|congruence].
    - destruct (nodes s !! q) eqn:Hb; [|done]. destruct (proj2 (Hsome q)) as [? ?]; [by eexists|congruence]. }
  assert (p ∉ elements (name_table s)) as Hpn. { rewrite H5. intros [_ (a & b & c & Hc & E & _)]. congruence. }
  destruct (table_add_ok (name_key_of m) (lenZ (@nil nat)) (mem (allocs s1)) (name_key (nodeid par) nm) p (name_table s)) as (t & Ht & Hok & He).
  { eapply table_ok_ext; [|exact H4]. intros q Hq. apply Hnk. by intros ->. }
  { unfold name_key_of. rewrite Hmp. cbn. by rewrite Hmpp. } { done. }
  match goal with |- context [table_add ?k ?o ?h ?q ?b] => change (table_add k o h q b) with (table_add (name_key_of (nodes s3)) (mem (allocs s1)) (name_key (nodeid par) nm) p (name_table s3)) end.
  rewrite Hns3, Hnt, Ht. step ltac:(exact eq_refl). step ltac:(exact eq_refl). eexists true, _. split; [reflexivity|].
  split; [destruct Hf1 as (?&?&?&?&?&?&?&?); by split_and!|]. split; [by rewrite <- E3|]. cbn [nodes set_tables name_table]. rewrite Hns3. split; [done|]. split; [|exact He].
  assert (forall q rr nm', q <> p -> (exists a, m !! q = Some a /\ parent a = Some rr /\ name a = Some nm') <-> linked_at s q rr nm') as Hlk.
  { intros q rr nm' Hq. unfold linked_at. split.
    - intros (a & Ha & Ea1 & Ea2). destruct (Hback q a Ha) as (b & Hb & _ & Hpn'). destruct (Hpn' Hq) as [E5 E6]. exists b. rewrite <- E5, <- E6. done.
    - intros (b & Hb & Eb1 & Eb2). destruct (Hforth q b Hb) as (a & Ha & _). destruct (Hback q a Ha) as (b' & Hb' & _ & Hpn').
      assert (b' = b) as -> by congruence. destruct (Hpn' Hq) as [E5 E6]. exists a. rewrite E5, E6. done. }
  split; unfold linked_at; cbn [nodes set_tables name_table id_table next_ptr]; rewrite ?Hns3.
  - change (id_table s3) with (id_table s1). rewrite E3. eapply table_ok_ext; [|exact H1]. intros q _. apply Hik.
  - intros q. change (id_table s3) with (id_table s1). rewrite E3, Hsome. apply H2.
  - intros a b c d Ha Hb HaO HbO Hid. destruct (Hback a c Ha) as (c' & Hc' & Ec & _), (Hback b d Hb) as (d' & Hd' & Ed & _). eapply H3; [done|done|done|done|congruence].
  - exact Hok.
  - intros q. rewrite He, elem_of_cons, H5. destruct (decide (q = p)) as [->|Hq].
    + split; [|by left]. intros _. split; [apply not_elem_of_nil|]. exists pp, nm. eexists. split; [exact Hmp|done].
    + split; [intros [->|[_ (rr & nm' & Hl)]]; [done|]|intros [_ (rr & nm' & Hl)]; right]; (split; [apply not_elem_of_nil|]); exists rr, nm'; by apply Hlk.
  - intros q a Ha _. destruct (decide (q = p)) as [->|Hq].
    + rewrite Hmp in Ha. injection Ha as <-. cbn. rewrite Hsome. split; [by exists par|done].
    + destruct (Hback q a Ha) as (b & Hb & _ & Hpn'). destruct (Hpn' Hq) as [-> ->]. specialize (H6 q b Hb (not_elem_of_nil q)).
      destruct (parent b), (name b); try done. by rewrite Hsome.
  - destruct H7 as (r & Hr & F1 & F2 & F3 & F4). destruct (Hforth 0%nat r Hr) as (a & Ha & Ea). exists a. destruct (Hback 0%nat a Ha) as (b & Hb & _ & Hpn').
    destruct (Hpn' (not_eq_sym H0)) as [E5 _]. split_and!; try done; congruence.
  - intros a b rr nm' _ _ Ha Hb. destruct (decide (a = p)) as [->|Hap], (decide (b = p)) as [->|Hbp]; try done.
    + exfalso. destruct Ha as (x & Hx & Ex1 & Ex2). rewrite Hmp in Hx. injection Hx as <-. cbn in Ex1, Ex2. injection Ex1 as <-. injection Ex2 as <-. apply Hlk in Hb; [|done]. by eapply Hfree.
    + exfalso. destruct Hb as (x & Hx & Ex1 & Ex2). rewrite Hmp in Hx. injection Hx as <-. cbn in Ex1, Ex2. injection Ex1 as <-. injection Ex2 as <-. apply Hlk in Ha; [|done]. by eapply Hfree.
    + apply Hlk in Ha, Hb; [|done..]. by eapply H8; try apply not_elem_of_nil.
  - split; [constructor|]. by intros q ?%not_elem_of_nil.
  - intros q. rewrite Hsome. change (next_ptr s3) with (next_ptr s1). rewrite E4. apply H10.
Qed.
(** The counts and the order after a link. *)
Lemma linked_refs d X s s' p n pp par nm : refs d X s -> nodes s !! p = Some n -> parent n = None -> nodes s !! pp = Some par -> p <> pp ->
  nodes s' = linked_heap (nodes s) p n pp par nm -> elements (name_table s') ≡ₚ p :: elements (name_table s) -> p ∉ elements (name_table s) ->
  refs d X s'.
Proof.
  intros Hr Hn Hnp Hpar Hne Hh He Hp q a Hq.
  assert (forall c, c ∈ elements (name_table s) -> parent_of (nodes s') c = parent_of (nodes s) c) as Hsame.
  { intros c Hc. unfold parent_of. rewrite Hh. unfold linked_heap. rewrite lookup_insert_ne by (by intros ->).
    destruct (decide (c = pp)) as [->|]; [by rewrite lookup_insert_eq, Hpar|]. by rewrite lookup_insert_ne. }
  assert (children s' q = children s q + (if decide (q = pp) then 1 else 0)) as Hc.
  { transitivity (lenZ (filter (fun c => parent_of (nodes s') c = Some q) (p :: elements (name_table s)))); [unfold children; by rewrite He|].
    assert (parent_of (nodes s') p = Some pp) as Hpp by (unfold parent_of; rewrite Hh; unfold linked_heap; by rewrite lookup_insert_eq).
    assert (filter (fun c => parent_of (nodes s') c = Some q) (elements (name_table s)) = filter (fun c => parent_of (nodes s) c = Some q) (elements (name_table s))) as Hf.
    { clear -Hsame. induction (elements (name_table s)) as [|c l IH]; [done|]. rewrite !filter_cons, (Hsame c ltac:(left)), IH; [done|]. intros x Hx. apply Hsame. by right. }
    rewrite filter_cons, Hpp, Hf. unfold children. destruct (decide (Some pp = Some q)) as [[= ->]|].
    - rewrite decide_True, lenZ_cons by done. lia.
    - rewrite decide_False by congruence. lia. }
  rewrite Hc. rewrite Hh in Hq. unfold linked_heap in Hq. destruct (decide (q = p)) as [->|Hqp].
  - rewrite lookup_insert_eq in Hq. injection Hq as <-. rewrite (decide_False (P := p = pp)) by done. rewrite Z.add_0_r. exact (Hr p n Hn).
  - rewrite lookup_insert_ne in Hq by done. destruct (decide (q = pp)) as [->|Hqpp].
    + rewrite lookup_insert_eq in Hq. injection Hq as <-. destruct (Hr pp par Hpar) as (E & R1 & R2 & R3). split; [|split; [done|]; split; [|done]].
      * change (refctr (set_refctr (refctr par + 1) par)) with (refctr par + 1). change (lookups_hold (set_refctr (refctr par + 1) par)) with (lookups_hold par). lia.
      * intros HX. specialize (R2 HX). cbn. lia.
    + rewrite lookup_insert_ne in Hq by done. rewrite Z.add_0_r. by apply Hr.
Qed.
Lemma linked_ranked rank s s' p n pp par nm : ranked rank s -> nodes s' = linked_heap (nodes s) p n pp par nm -> nodes s !! pp = Some par ->
  (rank pp < rank p)%nat -> ranked rank s'.
Proof.
  intros Hr Hh Hpar Hlt q a qq Hq Hqq. rewrite Hh in Hq. unfold linked_heap in Hq. destruct (decide (q = p)) as [->|Hqp].
  - rewrite lookup_insert_eq in Hq. injection Hq as <-. cbn in Hqq. by injection Hqq as <-.
  - rewrite lookup_insert_ne in Hq by done. destruct (decide (q = pp)) as [->|Hqpp].
    + rewrite lookup_insert_eq in Hq. injection Hq as <-. by eapply Hr.
    + rewrite lookup_insert_ne in Hq by done. by eapply Hr.
Qed.
Lemma linked_guarded K s s' p n pp par nm : guarded K None s -> nodes s' = linked_heap (nodes s) p n pp par nm ->
  elements (name_table s') ≡ₚ p :: elements (name_table s) -> nodes s !! p = Some n -> parent n = None -> nodes s !! pp = Some par -> guarded K None s'.
Proof.
  intros Hg Hh He Hn Hnp Hpar. apply (guarded_ext K s); [intros c Hc; rewrite He; by right| | |done].
  - intros q a Hq Ht. rewrite Hh in Hq. unfold linked_heap in Hq. destruct (decide (q = p)) as [->|Hqp].
    + rewrite lookup_insert_eq in Hq. injection Hq as <-. by exists n.
    + rewrite lookup_insert_ne in Hq by done. destruct (decide (q = pp)) as [->|Hqpp].
      * rewrite lookup_insert_eq in Hq. injection Hq as <-. by exists par.
      * rewrite lookup_insert_ne in Hq by done. by exists a.
  - intros q a _ Hq. rewrite Hh. unfold linked_heap. destruct (decide (q = p)) as [->|Hqp].
    + rewrite lookup_insert_eq. eexists. split; [done|]. assert (a = n) as -> by congruence. split; [done|]. congruence.
    + rewrite lookup_insert_ne by done. destruct (decide (q = pp)) as [->|Hqpp].
      * rewrite lookup_insert_eq. eexists. split; [done|]. assert (a = par) as -> by congruence. done.
      * rewrite lookup_insert_ne by done. by exists a.
Qed.

(** ** A free id *)

Definition id_value (c : Z) (i : nat) : Z := (c + 1 + Z.of_nat i) `mod` 2 ^ 32.
Lemma id_value_S c i : id_value c (S i) = (id_value c i + 1) `mod` 2 ^ 32.
Proof. unfold id_value. rewrite Zplus_mod_idemp_l. f_equal. lia. Qed.
(** Among more successive values than there are nodes, and two, one is free. *)
Lemma free_id c (used : list Z) : lenZ used + 3 <= 2 ^ 32 -> exists i, (i < length used + 3)%nat /\
  id_value c i ∉ 0 :: FUSE_UNKNOWN_INO :: used.
Proof.
  intros Hl. destruct (decide (Exists (fun i => id_value c i ∉ 0 :: FUSE_UNKNOWN_INO :: used) (seq 0 (length used + 3)))) as [He|He].
  - apply Exists_exists in He as (i & Hi%elem_of_seq & Hv). exists i. split; [lia|done].
  - exfalso. assert (NoDup (map (id_value c) (seq 0 (length used + 3)))) as Hd.
    { apply NoDup_fmap_2_strong; [|apply NoDup_seq]. intros i j Hi%elem_of_seq Hj%elem_of_seq Hv. unfold id_value in Hv. unfold lenZ in Hl.
      assert ((c + 1 + Z.of_nat i - (c + 1 + Z.of_nat j)) `mod` 2 ^ 32 = 0) as Hm by (rewrite Zminus_mod, Hv, Z.sub_diag; done).
      apply Z.mod_divide in Hm as [k Hk]; [|lia]. destruct (Z.eq_dec k 0); [lia|]. nia. }
    assert (map (id_value c) (seq 0 (length used + 3)) ⊆ 0 :: FUSE_UNKNOWN_INO :: used) as Hsub.
    { intros v (i & -> & Hi)%list_elem_of_fmap. destruct (decide (id_value c i ∈ 0 :: FUSE_UNKNOWN_INO :: used)) as [|Hn]; [done|].
      exfalso. apply He, Exists_exists. by exists i. }
    pose proof (NoDup_submseteq _ _ Hd Hsub) as Hsm. apply submseteq_length in Hsm. rewrite length_map, length_seq in Hsm. cbn in Hsm. lia.
Qed.
(** Every id that was ever given, with its generation, in order. *)
Definition stamp (s : fuse) : Z := fuse_generation s * 2 ^ 32 + ctr s.
Definition only_ids (s s' : fuse) : Prop := exists c g, s' = set_ids (next_ptr s) c g (hidectr s) s.
Lemma only_ids_tree_eq s s' : only_ids s s' -> tree_eq s s'.
Proof. by intros (c & g & ->). Qed.
Lemma only_ids_trans a b c : only_ids a b -> only_ids b c -> only_ids a c.
Proof. intros (x & y & ->) (z & w & ->). by exists z, w. Qed.
Definition used_ids (s : fuse) : list Z := (fun e => nodeid e.2) <$> map_to_list (nodes s).
Lemma next_id_rounds_spec O fuel : forall i s, (i < fuel)%nat -> shape [] O s ->
  id_value (ctr s) i ∉ 0 :: FUSE_UNKNOWN_INO :: used_ids s ->
  exists c s', next_id_rounds fuel s = Done c s' /\ only_ids s s' /\ 0 < c < 2 ^ 32 - 1 /\ ctr s' = c /\
    (forall p n, nodes s !! p = Some n -> p ∉ O -> nodeid n <> c) /\
    (0 <= ctr s < 2 ^ 32 -> 0 <= fuse_generation s -> stamp s + Z.of_nat fuel < 2 ^ 64 -> stamp s < stamp s').
Proof.
  induction fuel as [|fuel IH]; intros i s Hi Hs Hv; [lia|]. cbn [next_id_rounds].
  unfold pget at 1. step ltac:(exact eq_refl).
  change (Z.land (ctr s + 1) 4294967295) with (Z.land (ctr s + 1) (Z.ones 32)). rewrite Z.land_ones by lia. set (c := (ctr s + 1) `mod` 2 ^ 32).
  assert (c = id_value (ctr s) 0) as Hc by (unfold id_value; by rewrite Z.add_0_r).
  set (g := if c =? 0 then _ else _). step ltac:(exact eq_refl). set (s1 := set_ids _ c g _ s).
  assert (only_ids s s1) as Ho by (by exists c, g). pose proof (only_ids_tree_eq _ _ Ho) as Heq.
  pose proof (tree_eq_shape _ _ _ _ Heq Hs) as Hs1.
  assert (0 <= ctr s < 2 ^ 32 -> 0 <= fuse_generation s -> stamp s + 1 < 2 ^ 64 -> stamp s1 = stamp s + 1 /\ 0 <= ctr s1 < 2 ^ 32 /\ 0 <= fuse_generation s1) as Hst.
  { intros H1 H2 H3. unfold stamp in *. change (ctr s1) with c. change (fuse_generation s1) with g. unfold g, c.
    pose proof (Z.mod_pos_bound (ctr s + 1) (2 ^ 32)). destruct (Z.eq_dec (ctr s + 1) (2 ^ 32)) as [E|E].
    - rewrite E, Z_mod_same_full. cbn [Z.eqb]. unfold wrapu. rewrite Z.mod_small by lia. lia.
    - rewrite Z.mod_small by lia. destruct (Z.eqb_spec (ctr s + 1) 0); lia. }
  assert (forall i', i = S i' -> exists c' s', next_id_rounds fuel s1 = Done c' s' /\ only_ids s s' /\ 0 < c' < 2 ^ 32 - 1 /\ ctr s' = c' /\
    (forall p n, nodes s !! p = Some n -> p ∉ O -> nodeid n <> c') /\
    (0 <= ctr s < 2 ^ 32 -> 0 <= fuse_generation s -> stamp s + Z.of_nat (S fuel) < 2 ^ 64 -> stamp s < stamp s')) as Hloop.
  { intros i' ->. destruct (IH i' s1) as (c' & s' & Hr & Ho' & Hc' & Hct & Hfr & Hst'); [lia|done| |].
    - change (used_ids s1) with (used_ids s). change (ctr s1) with c. rewrite Hc.
      replace (id_value (id_value (ctr s) 0) i') with (id_value (ctr s) (S i')); [done|].
      unfold id_value. rewrite Z.add_0_r, <- (Z.add_assoc (_ `mod` _)), Zplus_mod_idemp_l. f_equal. lia.
    - exists c', s'. split_and!; [done|exact (only_ids_trans s s1 s' Ho Ho')|lia|lia|done|done|]. intros H1 H2 H3. destruct (Hst H1 H2 ltac:(lia)) as (E1 & E2 & E3).
      specialize (Hst' E2 E3 ltac:(lia)). lia. }
  assert (i = 0%nat -> c ∉ 0 :: FUSE_UNKNOWN_INO :: used_ids s) as Hfree by (intros ->; by rewrite Hc).
  rewrite !not_elem_of_cons in Hfree.
  destruct ((c =? 0) || (c =? FUSE_UNKNOWN_INO)) eqn:Hbad.
  { destruct i as [|i']; [|by eapply Hloop]. exfalso. destruct (Hfree eq_refl) as (F1 & F2 & _). apply orb_true_iff in Hbad. lia. }
  apply orb_false_iff in Hbad as [Hb1 Hb2]. destruct (get_node_nocheck_spec [] O s1 c Hs1) as (r & Hr & Hspec).
  step ltac:(exact Hr). destruct r as [q|].
  - destruct i as [|i']; [|by eapply Hloop]. exfalso. destruct (Hfree eq_refl) as (_ & _ & F3). apply F3.
    destruct Hspec as (n & Hn & _ & <-). apply list_elem_of_fmap. exists (q, n). split; [done|]. by apply elem_of_map_to_list.
  - exists c, s1. pose proof (Z.mod_pos_bound (ctr s + 1) (2 ^ 32)). split_and!; [done|done|unfold c in *; lia|unfold c in *; lia|done|done|].
    intros H1 H2 H3. destruct (Hst H1 H2 ltac:(lia)) as (E1 & _). lia.
Qed.
Lemma next_id_spec O s : shape [] O s -> Z.of_nat (base.size (nodes s)) + 3 <= 2 ^ 32 ->
  exists c s', next_id s = Done c s' /\ only_ids s s' /\ 0 < c < 2 ^ 32 - 1 /\ ctr s' = c /\
    (forall p n, nodes s !! p = Some n -> p ∉ O -> nodeid n <> c) /\
    (0 <= ctr s < 2 ^ 32 -> 0 <= fuse_generation s -> stamp s + 2 ^ 32 < 2 ^ 64 -> stamp s < stamp s').
Proof.
  intros Hs Hsz. unfold next_id. unfold pget at 1. step ltac:(exact eq_refl).
  destruct (free_id (ctr s) (used_ids s)) as (i & Hi & Hv); [unfold lenZ, used_ids; rewrite length_fmap, length_map_to_list; lia|].
  unfold used_ids in Hi. rewrite length_fmap, length_map_to_list in Hi.
  destruct (next_id_rounds_spec O _ i s Hi Hs Hv) as (c & s' & Hr & Ho & Hc & Hct & Hfr & Hst). exists c, s'. split_and!; [done|done|lia|lia|done|done|].
  intros H1 H2 H3. apply Hst; [done|done|]. lia.
Qed.

(** ** Looking up *)

Definition looked (n : node) : node := set_nlookup (nlookup n + 1) (if nlookup n =? 0 then set_refctr (refctr n + 1) n else n).
Lemma looked_key n : same_key n (looked n).
Proof. unfold looked. by destruct (_ =? _). Qed.
Lemma inc_nlookup_spec s p n : nodes s !! p = Some n -> 0 <= nlookup n < 2 ^ 64 - 1 ->
  inc_nlookup p s = Done tt (set_nodes (<[p := looked n]> (nodes s)) s).
Proof.
  intros Hn Hb. unfold inc_nlookup. step ltac:(by apply deref_some). unfold looked. destruct (Z.eqb_spec (nlookup n) 0) as [E|E].
  - step ltac:(by apply update_some). step ltac:(apply deref_some; apply lookup_insert_eq). rewrite (update_some _ _ _ (set_refctr (refctr n + 1) n)) by apply lookup_insert_eq.
    cbn [nodes set_nodes]. rewrite insert_insert_eq. cbn [nlookup set_refctr]. unfold wrapu. rewrite Z.mod_small by lia. done.
  - step ltac:(exact eq_refl). step ltac:(by apply deref_some). rewrite (update_some _ _ _ n) by done. unfold wrapu. rewrite Z.mod_small by lia. done.
Qed.
Lemma looked_refs d X s p n : nodes s !! p = Some n -> 0 <= nlookup n -> d <> Some p -> refs d (p :: X) s ->
  refs d X (set_nodes (<[p := looked n]> (nodes s)) s).
Proof.
  intros Hn Hnl Hd Hr q m Hq. cbn in Hq.
  assert (children (set_nodes (<[p := looked n]> (nodes s)) s) q = children s q) as ->.
  { apply children_ext; [done|]. intros c _. apply (same_keys_parent (nodes s)). apply (same_keys_update _ p n); [done|apply looked_key]. }
  pose proof (children_nonneg s q). destruct (decide (q = p)) as [->|Hqp].
  - rewrite lookup_insert_eq in Hq. injection Hq as <-. destruct (Hr p n Hn) as (E & _ & _ & _). rewrite decide_False in E |- * by done.
    unfold looked, lookups_hold in *. destruct (Z.eqb_spec (nlookup n) 0) as [E0|E0]; cbn [refctr nlookup set_nlookup set_refctr] in *.
    + rewrite E0 in *. change (0 <? 0) with false in E. change (0 <? 0 + 1) with true. cbn iota in *. split; [lia|]. split; [lia|]. split; intros; lia.
    + destruct (Z.ltb_spec 0 (nlookup n)); [|lia]. destruct (Z.ltb_spec 0 (nlookup n + 1)); [|lia]. split; [lia|]. split; [lia|]. split; intros; lia.
  - rewrite lookup_insert_ne in Hq by done. destruct (Hr q m Hq) as (E & R1 & R2 & R3). split; [done|]. split; [done|]. split; [|done].
    intros HX. apply R2. by apply not_elem_of_cons.
Qed.
Lemma looked_ranked rank s p n : nodes s !! p = Some n -> ranked rank s -> ranked rank (set_nodes (<[p := looked n]> (nodes s)) s).
Proof.
  intros Hn. apply ranked_ext. intros q m pp Hq Hpp. cbn in Hq. destruct (decide (q = p)) as [->|]; [|exists m; by rewrite lookup_insert_ne in Hq].
  rewrite lookup_insert_eq in Hq. injection Hq as <-. exists n. destruct (looked_key n) as (_ & E & _). by rewrite <- E.
Qed.
Lemma looked_guarded K s p n : nodes s !! p = Some n -> guarded K None s -> guarded K None (set_nodes (<[p := looked n]> (nodes s)) s).
Proof.
  intros Hn. apply guarded_ext; [done| |].
  - intros q m Hq Ht. cbn in Hq. destruct (decide (q = p)) as [->|]; [|exists m; by rewrite lookup_insert_ne in Hq].
    rewrite lookup_insert_eq in Hq. injection Hq as <-. exists n. split; [done|]. revert Ht. unfold looked. by destruct (_ =? _).
  - intros q m _ Hq. cbn. destruct (decide (q = p)) as [->|]; [|exists m; by rewrite lookup_insert_ne]. rewrite lookup_insert_eq. exists (looked n).
    assert (m = n) as -> by congruence. split; [done|]. unfold looked. destruct (_ =? _); cbn; split; (lia || done).
Qed.
Lemma looked_shape T O s p n : nodes s !! p = Some n -> shape T O s -> shape T O (set_nodes (<[p := looked n]> (nodes s)) s).
Proof. intros Hn Hs. apply (shape_ext T O s); try done. apply (same_keys_update _ p n); [done|apply looked_key]. Qed.

(** A new node gets into the id table. *)
Lemma hash_id_spec s p n : shape [] [p] s -> nodes s !! p = Some n -> (forall q m, nodes s !! q = Some m -> q <> p -> nodeid m <> nodeid n) ->
  exists t k, hash_id mem p s = Done tt (with_id_table t (set_allocs k s)) /\ shape [] [] (with_id_table t (set_allocs k s)).
Proof.
  intros [H1 H2 H3 H4 H5 H6 H7 H8 H9 H10] Hn Hid. assert (p ∉ elements (id_table s)) as Hp by (rewrite H2, not_elem_of_cons; tauto).
  destruct (table_add_ok (id_key_of (nodes s)) 0 (mem (allocs s)) (id_key (nodeid n)) p (id_table s)) as (t & Ht & Hok & He); [done|by unfold id_key_of; rewrite Hn|done|].
  exists t, (S (allocs s)). split.
  { unfold hash_id. step ltac:(by apply deref_some). step ltac:(exact eq_refl). step ltac:(exact eq_refl).
    match goal with |- context [table_add ?k ?o ?h ?q ?b] => change (table_add k o h q b) with (table_add (id_key_of (nodes s)) (mem (allocs s)) (id_key (nodeid n)) p (id_table s)) end.
    rewrite Ht. step ltac:(exact eq_refl). done. }
  assert (forall q, q ∉ [p] -> q ∉ @nil nat) as Hnil by (intros; apply not_elem_of_nil).
  split; cbn; try done.
  - intros q. rewrite He, elem_of_cons, H2, not_elem_of_cons. destruct (decide (q = p)) as [->|Hq].
    + split; [intros _; split; [by exists n|apply not_elem_of_nil]|by left].
    + split; [intros [->|[? _]]; [done|]; split; [done|apply not_elem_of_nil]|intros [? _]; right; split; [done|]; split; [done|apply not_elem_of_nil]].
  - intros a b x y Ha Hb _ _ E. destruct (decide (a = p)) as [->|Hap], (decide (b = p)) as [->|Hbp]; try done.
    + exfalso. apply (Hid b y Hb Hbp). assert (x = n) as -> by congruence. done.
    + exfalso. apply (Hid a x Ha Hap). assert (y = n) as -> by congruence. done.
    + eapply H3; [done|done| | |done]; (rewrite not_elem_of_cons; split; [done|apply not_elem_of_nil]).
  - intros q m Hq HT. specialize (H6 q m Hq HT). destruct (parent m), (name m); try done. destruct H6. split; [done|apply not_elem_of_nil].
  - destruct H7 as (r & Hr & E1 & E2 & E3 & E4). exists r. by split_and!.
Qed.

Lemma fresh_refs s p n : shape [] [] s -> nodes s !! p = None -> refs None [] s -> refctr n = lookups_hold n -> 0 <= nlookup n ->
  refs None [p] (set_nodes (<[p := n]> (nodes s)) s).
Proof.
  intros Hs Hp Hr Hc Hnl q m Hq. cbn in Hq.
  assert (forall c, c ∈ elements (name_table s) -> parent_of (<[p := n]> (nodes s)) c = parent_of (nodes s) c /\ parent_of (nodes s) c <> Some p) as Hsame.
  { intros c (_ & pp & nm & x & Hx & E1 & E2)%(sh_names _ _ _ Hs). unfold parent_of. rewrite lookup_insert_ne by congruence. split; [done|].
    rewrite Hx. cbn. rewrite E1. intros [= ->]. destruct (linked_parent [] [] s c x p Hs (not_elem_of_nil c) Hx E1) as ([y Hy] & _). congruence. }
  assert (children (set_nodes (<[p := n]> (nodes s)) s) q = children s q) as -> by (apply children_ext; [done|]; intros c Hc'; by apply Hsame).
  destruct (decide (q = p)) as [->|Hqp].
  - rewrite lookup_insert_eq in Hq. injection Hq as <-. assert (children s p = 0) as ->.
    { pose proof (children_nonneg s p). destruct (Z.eq_dec (children s p) 0); [done|]. exfalso. unfold children, lenZ in *.
      destruct (filter _ _) as [|c l] eqn:Hf; [done|]. assert (c ∈ c :: l) as Hin by left. rewrite <- Hf in Hin. apply list_elem_of_filter in Hin as [E Hin].
      by apply (proj2 (Hsame c Hin)). }
    rewrite decide_False by done. split; [lia|]. split; [done|]. split; [rewrite not_elem_of_cons; tauto|]. intros ->.
    destruct (sh_root _ _ _ Hs) as (r & Hr' & _). congruence.
  - rewrite lookup_insert_ne in Hq by done. destruct (Hr q m Hq) as (E & R1 & R2 & R3). split; [done|]. split; [done|]. split; [|done].
    intros _. apply R2, not_elem_of_nil.
Qed.

(** ** A state in good order *)

Definition good (K : nat -> Prop) (s : fuse) : Prop := tree_ok s /\ guarded K None s.
Lemma tree_eq_good K s s' : tree_eq s s' -> good K s -> good K s'.
Proof.
  intros He [(H1 & H2 & rank & H3) H4]. split; [split; [by eapply tree_eq_shape|split; [by eapply tree_eq_refs|]]|by eapply tree_eq_guarded].
  exists rank. by eapply tree_eq_ranked.
Qed.
(** What the operations on names never touch. *)
Definition steady (s s' : fuse) : Prop :=
  conf s' = conf s /\ lockq s' = lockq s /\ clock s' = clock s /\ hidectr s' = hidectr s /\ owned s' = owned s /\
  (next_ptr s <= next_ptr s')%nat.
Lemma frame_steady s s' : frame s s' -> steady s s'.
Proof. unfold frame, steady. intuition lia. Qed.
Lemma steady_trans a b c : steady a b -> steady b c -> steady a c.
Proof. unfold steady. intuition (congruence || lia). Qed.

(** ** [find_node] *)

Definition lru_hit (p : nat) (n : node) (s : fuse) : fuse :=
  if lru_enabled s && (nlookup n =? 1) then set_lru (filter (fun q => q <> p) (lru_table s)) s else s.
Lemma looked_good K s p n : nodes s !! p = Some n -> good K s -> good K (set_nodes (<[p := looked n]> (nodes s)) s).
Proof.
  intros Hn [(H1 & H2 & rank & H3) H4]. destruct (H2 p n Hn) as (_ & Hnl & _ & _).
  split; [split; [by apply looked_shape|split; [|exists rank; by apply looked_ranked]]|by apply looked_guarded].
  apply looked_refs; try done. intros q m Hq. destruct (H2 q m Hq) as (E & R1 & R2 & R3). split_and!; auto using not_elem_of_nil.
Qed.
Definition find_hit (p : nat) (n : node) (s : fuse) : fuse := let s1 := lru_hit p n s in set_nodes (<[p := looked n]> (nodes s1)) s1.
Lemma find_hit_run K s p n : good K s -> nodes s !! p = Some n -> nlookup n < 2 ^ 64 - 1 ->
  (n ← deref p; s ← pget; _ ← (if lru_enabled s && (nlookup n =? 1) then remove_node_lru p else mret tt);
   _ ← inc_nlookup p; mret (Some p)) s = Done (Some p) (find_hit p n s).
Proof.
  intros [(_ & Hr & _) _] Hn Hlt. destruct (Hr p n Hn) as (_ & Hnl & _). step ltac:(by apply deref_some). step ltac:(exact eq_refl).
  assert ((if lru_enabled s && (nlookup n =? 1) then remove_node_lru p else mret tt) s = Done tt (lru_hit p n s)) as E1 by (unfold lru_hit; by destruct (_ && _)).
  step ltac:(exact E1). assert (nodes (lru_hit p n s) !! p = Some n) as Hn' by (unfold lru_hit; by destruct (_ && _)).
  step ltac:(apply (inc_nlookup_spec _ p n Hn'); lia). done.
Qed.
Lemma find_hit_good K s p n : good K s -> nodes s !! p = Some n -> good K (find_hit p n s) /\ steady s (find_hit p n s) /\
  nodes (find_hit p n s) = <[p := looked n]> (nodes s) /\ name_table (find_hit p n s) = name_table s.
Proof.
  intros Hg Hn. assert (nodes (lru_hit p n s) = nodes s /\ name_table (lru_hit p n s) = name_table s /\ tree_eq s (lru_hit p n s) /\ steady s (lru_hit p n s)) as (E1 & E2 & E3 & E4).
  { unfold lru_hit. by destruct (_ && _). }
  split; [|split; [done|split; [cbn; by rewrite E1|done]]]. apply looked_good; [by rewrite E1|]. by eapply tree_eq_good.
Qed.

(** The state around a node that no table knows yet. *)
Lemma fresh_all K s p n : good K s -> nodes s !! p = None -> (p < next_ptr s)%nat -> parent n = None -> name n = None ->
  refctr n = lookups_hold n -> 0 <= nlookup n -> treelock n = 0 ->
  let s1 := set_nodes (<[p := n]> (nodes s)) s in
  shape [] [p] s1 /\ refs None [p] s1 /\ (forall rank, ranked rank s -> ranked rank s1) /\ guarded K None s1.
Proof.
  intros [(H1 & H2 & _) H3] Hp Hlt Hnp Hnn Hrc Hnl Htl s1. split; [by apply fresh_shape|]. split; [by apply fresh_refs|]. split.
  - intros rank. apply ranked_ext. intros q m pp Hq Hpp. cbn in Hq. destruct (decide (q = p)) as [->|]; [rewrite lookup_insert_eq in Hq; congruence|].
    exists m. by rewrite lookup_insert_ne in Hq.
  - apply (guarded_ext K s); [done| | |done].
    + intros q m Hq Ht. cbn in Hq. destruct (decide (q = p)) as [->|]; [rewrite lookup_insert_eq in Hq; congruence|].
      exists m. by rewrite lookup_insert_ne in Hq.
    + intros q m _ Hq. cbn. exists m. rewrite lookup_insert_ne; [done|]. intros ->. congruence.
Qed.

Definition born (s : fuse) (ino gen : Z) : node := if negb (remember (conf s) =? 0) then looked (new_node ino gen) else new_node ino gen.
Lemma born_ok s ino gen : let n := born s ino gen in
  nodeid n = ino /\ parent n = None /\ name n = None /\ refctr n = lookups_hold n /\ 0 <= nlookup n <= 1 /\ treelock n = 0.
Proof. unfold born. destruct (_ =? _); cbn; (split_and!; (done || lia)). Qed.
(** A new node, before it has a name: its address and id are new. *)
Definition new_state (s : fuse) (c g : Z) : fuse :=
  set_nodes (<[next_ptr s := born s c g]> (nodes s)) (set_ids (S (next_ptr s)) c g (hidectr s) (set_allocs (S (allocs s)) s)).
Lemma miss_allocates K s : good K s -> mem (allocs s) = true -> Z.of_nat (base.size (nodes s)) + 4 <= 2 ^ 32 ->
  exists c g, (forall A (k : nat -> hl A) z, (a ← alloc_node mem; match a with Some p => ino ← next_id; s ← pget; _ ← give_id p ino (fuse_generation s);
     _ ← (if negb (remember (conf s) =? 0) then inc_nlookup p else mret tt); k p | None => z end) s = k (next_ptr s) (new_state s c g)) /\
    0 < c < 2 ^ 32 - 1 /\ (forall q n, nodes s !! q = Some n -> nodeid n <> c) /\
    (0 <= ctr s < 2 ^ 32 -> 0 <= fuse_generation s -> stamp s + 2 ^ 32 < 2 ^ 64 -> stamp s < g * 2 ^ 32 + c).
Proof.
  intros Hg Hmem Hsz. set (p := next_ptr s). set (sb := set_ids (S p) (ctr s) (fuse_generation s) (hidectr s) (set_allocs (S (allocs s)) s)).
  pose proof Hg as [(Hs & _) _]. assert (nodes s !! p = None) as Hp.
  { destruct (nodes s !! p) eqn:E; [|done]. exfalso. assert (p < next_ptr s)%nat by (apply (sh_fresh _ _ _ Hs); by eexists). unfold p in *. lia. }
  assert (shape [] [] sb) as Hsb. { apply (shape_ext [] [] s); try done; [cbn; unfold p; lia|]. intros q. cbn. destruct (nodes s !! q); [apply same_key_refl|done]. }
  assert (shape [] [p] (set_nodes (<[p := new_node 0 0]> (nodes sb)) sb)) as Hsn by (apply fresh_shape; cbn; auto; lia).
  set (s3 := set_nodes (<[p := new_node 0 0]> (nodes sb)) sb) in *.
  destruct (next_id_spec [p] s3 Hsn) as (c & s4 & Hid & (c' & g & Ho) & Hc & Hct & Hfr & Hst).
  { unfold s3. cbn. rewrite map_size_insert_None by done. lia. }
  assert (c' = c) as -> by (subst s4; done). exists c, g. split; [|split; [done|split]].
  - intros A k z. assert (alloc_node mem s = Done (Some p) s3) as E1.
    { unfold alloc_node, get_memory. step ltac:(exact eq_refl). rewrite Hmem. done. }
    step ltac:(exact E1). step ltac:(exact Hid). step ltac:(exact eq_refl). subst s4.
    match goal with |- context [give_id p c ?x] => change x with g end.
    step ltac:(unfold give_id; eapply update_some; apply lookup_insert_eq).
    match goal with |- (_ ← _; k _) ?st = _ => assert (st = set_nodes (<[p := new_node c g]> (nodes s)) (set_ids (S p) c g (hidectr s) (set_allocs (S (allocs s)) s))) as ->
      by (unfold set_nodes, set_ids; cbn; by rewrite insert_insert_eq) end.
    unfold new_state, born. change (conf (set_ids _ _ _ _ s3)) with (conf s). destruct (remember (conf s) =? 0); cbn [negb]; [by step ltac:(exact eq_refl)|].
    step ltac:(apply inc_nlookup_spec; [apply lookup_insert_eq|cbn; lia]). unfold set_nodes, set_ids. cbn. by rewrite insert_insert_eq.
  - intros q n Hq. apply (Hfr q); [|rewrite list_elem_of_singleton; intros ->; congruence]. cbn. rewrite lookup_insert_ne; [done|]. intros ->. congruence.
  - intros H1 H2 H3. specialize (Hst H1 H2 H3). subst s4. exact Hst.
Qed.

(** The rest of the way of a new node: into both tables, and looked up. *)
Definition enter (p : nat) (par : Z) (nm : string) : hl (option nat) :=
  hashed ← hash_name mem p par nm;
  if negb (hashed : bool) then _ ← free_node p; mret None else _ ← hash_id mem p; _ ← inc_nlookup p; mret (Some p).
Lemma relooked_heap (m : gmap nat node) p n pp par nm :
  <[p := looked (set_link (Some pp) (Some nm) n)]> (linked_heap m p n pp par nm) = linked_heap m p (looked n) pp par nm.
Proof. unfold linked_heap. rewrite insert_insert_eq. f_equal. unfold looked. cbn. by destruct (_ =? _). Qed.
Lemma enter_ok K rank s p n pp par nm : shape [] [p] s -> refs None [p] s -> ranked rank s -> guarded K None s ->
  nodes s !! p = Some n -> parent n = None -> name n = None -> 0 <= nlookup n < 2 ^ 64 - 1 -> p <> 0%nat ->
  (forall q m, nodes s !! q = Some m -> q <> p -> nodeid m <> nodeid n) -> (rank pp < rank p)%nat ->
  nodes s !! pp = Some par -> p <> pp -> (forall q, ~ linked_at s q pp nm) ->
  exists (b : bool) s', enter p (nodeid par) nm s = Done (if b then Some p else None) s' /\ frame s s' /\
    if b then good K s' /\ nodes s' = linked_heap (nodes s) p (looked n) pp par nm
    else nodes s' = delete p (nodes s) /\ name_table s' = name_table s /\ id_table s' = id_table s.
Proof.
  intros Hs Hr Hrk HK Hn Hnp Hnn Hnl H0 Hfr Hlt Hpar Hne Hfree.
  destruct (hash_name_spec [p] s p n pp par nm) as (b & s2 & Hh & Hf2 & Eid2 & Hspec); try done; [by rewrite list_elem_of_singleton|].
  unfold enter. step ltac:(exact Hh). destruct b; cbn [negb].
  2: { exists false. destruct Hspec as (E1 & E2 & E3 & _). eexists. split; [reflexivity|]. split; [done|]. cbn. by rewrite E1. }
  destruct Hspec as (En2 & Hs2 & He2). assert (nodes s2 !! p = Some (set_link (Some pp) (Some nm) n)) as Hn2 by (rewrite En2; apply lookup_insert_eq).
  assert (p ∉ elements (name_table s)) as Hpn. { rewrite (sh_names _ _ _ Hs). intros [_ (a & b & m & Hm & E & _)]. congruence. }
  destruct (hash_id_spec s2 p _ Hs2 Hn2) as (t & k & Hi & Hs3).
  { intros q m Hq Hqp. rewrite En2 in Hq. unfold linked_heap in Hq. rewrite lookup_insert_ne in Hq by done. destruct (decide (q = pp)) as [->|Hqpp].
    - rewrite lookup_insert_eq in Hq. injection Hq as <-. by apply (Hfr pp par).
    - rewrite lookup_insert_ne in Hq by done. by apply (Hfr q m). }
  step ltac:(exact Hi). set (s3 := with_id_table t (set_allocs k s2)) in *.
  pose proof (inc_nlookup_spec s3 p _ Hn2 Hnl) as Hinc. step ltac:(exact Hinc).
  exists true. eexists. split; [reflexivity|]. split; [exact Hf2|].
  assert (forall d X, refs d X s2 -> refs d X s3) as Hr3 by done. assert (ranked rank s2 -> ranked rank s3) as Hrk3 by done.
  assert (guarded K None s2 -> guarded K None s3) as HK3 by done.
  split; [|change (nodes s3) with (nodes s2); rewrite En2; apply relooked_heap].
  split; [split; [by apply looked_shape|split; [|exists rank; apply looked_ranked; [done|]; apply Hrk3; by apply (linked_ranked rank s s2 p n pp par nm)]]
         |apply looked_guarded; [done|]; apply HK3; by apply (linked_guarded K s s2 p n pp par nm)].
  apply looked_refs; [done|cbn; lia|done|]. apply Hr3. by apply (linked_refs None [p] s s2 p n pp par nm).
Qed.
Definition find_miss (par : Z) (nm : string) : hl (option nat) :=
  a ← alloc_node mem;
  match a with
  | Some p =>
      ino ← next_id; s ← pget; _ ← give_id p ino (fuse_generation s);
      _ ← (if negb (remember (conf s) =? 0) then inc_nlookup p else mret tt); enter p par nm
  | None => mret None
  end.
(** A name that is not known is entered with a new id; without memory nothing changes. *)
Lemma find_miss_ok K s pp par nm : good K s -> nodes s !! pp = Some par -> (forall q, ~ linked_at s q pp nm) ->
  Z.of_nat (base.size (nodes s)) + 4 <= 2 ^ 32 ->
  exists r s', find_miss (nodeid par) nm s = Done r s' /\ good K s' /\ steady s s' /\
    match r with
    | None => nodes s' = nodes s /\ elements (name_table s') = elements (name_table s)
    | Some p => exists c g, p = next_ptr s /\ nodes s' = linked_heap (nodes s) p (looked (born s c g)) pp par nm /\
        0 < c < 2 ^ 32 - 1 /\ (forall q n, nodes s !! q = Some n -> nodeid n <> c) /\
        (0 <= ctr s < 2 ^ 32 -> 0 <= fuse_generation s -> stamp s + 2 ^ 32 < 2 ^ 64 -> stamp s < g * 2 ^ 32 + c)
    end.
Proof.
  intros Hg Hpar Hfree Hsz. unfold find_miss. destruct (mem (allocs s)) eqn:Hmem.
  2: { assert (alloc_node mem s = Done None (set_allocs (S (allocs s)) s)) as E by (unfold alloc_node, get_memory; step ltac:(exact eq_refl); by rewrite Hmem).
    eexists None, _. split; [step ltac:(exact E); reflexivity|]. split; [by apply (tree_eq_good K s)|by split]. }
  destruct (miss_allocates K s Hg Hmem Hsz) as (c & g & Hrun & Hc & Hfr & Hst). rewrite Hrun. set (p := next_ptr s) in *.
  set (s1 := new_state s c g). set (n := born s c g). destruct (born_ok s c g) as (N1 & N2 & N3 & N4 & N5 & N6). fold n in N1, N2, N3, N4, N5, N6.
  pose proof Hg as [(Hs & _ & rank & Hrk) _].
  assert (forall q m, nodes s !! q = Some m -> (q < p)%nat) as Hlt by (intros q m Hq; apply (sh_fresh _ _ _ Hs); by eexists).
  assert (nodes s !! p = None) as Hp by (destruct (nodes s !! p) eqn:E; [apply Hlt in E; lia|done]).
  destruct (sh_root _ _ _ Hs) as (r0 & Hr0 & _). pose proof (Hlt pp par Hpar). pose proof (Hlt _ _ Hr0). assert (p <> pp /\ p <> 0%nat) as [Hppp Hp0] by lia.
  set (sb := set_ids (S p) c g (hidectr s) (set_allocs (S (allocs s)) s)).
  assert (good K sb) as Hgb.
  { destruct Hg as [(_ & G2 & _) G4]. split; [split; [|split; [done|by exists rank]]|done]. apply (shape_ext [] [] s); try done; [cbn; lia|].
    intros q. cbn. destruct (nodes s !! q); [apply same_key_refl|done]. }
  destruct (fresh_all K sb p n Hgb) as (S1 & S2 & S3 & S4); try done; [cbn; lia|lia|]. specialize (S3 rank Hrk). change (set_nodes _ sb) with s1 in S1, S2, S3, S4.
  assert (nodes s1 !! p = Some n) as Hn1 by apply lookup_insert_eq. assert (forall q, q <> p -> nodes s1 !! q = nodes s !! q) as Hne by (intros; by apply lookup_insert_ne).
  set (rank' q := if decide (q = p) then S (rank pp) else rank q).
  destruct (enter_ok K rank' s1 p n pp par nm) as (b & s2 & Hrun2 & Hf2 & Hspec); try done; try lia.
  - intros q m r Hq Hm. unfold rank'. destruct (decide (q = p)) as [->|Hqp]; [congruence|].
    rewrite Hne in Hq by done. pose proof (Hrk q m r Hq Hm). destruct (decide (r = p)) as [->|]; [|done].
    destruct (linked_parent [] [] s q m p Hs (not_elem_of_nil q) Hq Hm) as ([x Hx] & _). congruence.
  - intros q m Hq Hqp. rewrite N1. rewrite Hne in Hq by done. by eapply Hfr.
  - unfold rank'. rewrite (decide_True (P := p = p)), (decide_False (P := pp = p)) by done. lia.
  - by rewrite Hne.
  - intros q (m & Hm & E1 & E2). apply (Hfree q). exists m. rewrite Hne in Hm; [done|]. intros ->. congruence.
  - exists (if b then Some p else None), s2. split; [exact Hrun2|].
    assert (steady s s2) as Hst2 by (apply frame_steady in Hf2; apply (steady_trans s s1); [split_and!; cbn; (done || lia)|done]). destruct b.
    + destruct Hspec as [Hg2 En2]. split; [done|]. split; [done|]. exists c, g. split; [done|]. split; [|done].
      rewrite En2. unfold linked_heap. change (nodes s1) with (<[p := n]> (nodes s)). rewrite (insert_insert_ne _ pp p) by done. by rewrite insert_insert_eq.
    + destruct Hspec as (En2 & Et2 & Ei2). assert (nodes s2 = nodes s) as Ens by (rewrite En2; cbn; by apply delete_insert_id).
      split; [|split; [done|split; [done|by rewrite Et2]]]. apply (tree_eq_good K sb s2); [|done]. split_and!; try done. by destruct Hf2.
Qed.
End Names.
