(* ===== verification/HlSpace.v ===== *)
(** * The nodes of the high-level library are a name space

    [view] is what a state of the nodes stands for: which name in which directory leads to
    which id, and how often each id has been looked up.  [name_step] says what every
    operation does to that: an id lives as long as it is looked up or has a living child,
    and the operations of [HlNodes] are shown to keep to this. *)
From stdpp Require Import relations.
From S2P Require Import Prelude Errno Sys HlLocks HlTable HlNodes HlTree HlNames.

(** ** The name space *)

Record names := { entries : gmap (Z * string) Z; counts : gmap Z Z }.
Definition entry_of (s : fuse) (p : nat) : option (Z * string * Z) :=
  n ← nodes s !! p; nm ← name n; pp ← parent n; pn ← nodes s !! pp; Some (nodeid pn, nm, nodeid n).
Definition view (s : fuse) : names :=
  {| entries := list_to_map (omap (entry_of s) (elements (name_table s)));
     counts := list_to_map ((fun e => (nodeid e.2, nlookup e.2)) <$> map_to_list (nodes s)) |}.

(** Ids that are looked up, or lead to one that is. *)
Inductive alive (a : names) : Z -> Prop :=
| alive_counted ino k : counts a !! ino = Some k -> 0 < k -> alive a ino
| alive_parent par nm ino : entries a !! (par, nm) = Some ino -> alive a ino -> alive a par.
(** Everything else goes. *)
Definition collected (a a' : names) : Prop :=
  (forall e ino, entries a' !! e = Some ino <-> entries a !! e = Some ino /\ alive a ino) /\
  (forall ino k, counts a' !! ino = Some k <-> counts a !! ino = Some k /\ alive a ino).

(** ** A state and its view *)

Definition entry_but (ex : option nat) (s : fuse) (par : Z) (nm : string) (ino : Z) : Prop :=
  exists p pp n pn, Some p <> ex /\ nodes s !! p = Some n /\ parent n = Some pp /\ name n = Some nm /\ nodes s !! pp = Some pn /\
    nodeid pn = par /\ nodeid n = ino.
Definition known (s : fuse) (ino k : Z) : Prop := exists p n, nodes s !! p = Some n /\ nodeid n = ino /\ nlookup n = k.
Definition sees (ex : option nat) (s : fuse) (a : names) : Prop :=
  (forall par nm ino, entries a !! (par, nm) = Some ino <-> entry_but ex s par nm ino) /\
  (forall ino k, counts a !! ino = Some k <-> known s ino k).

Lemma names_eq a b : entries a = entries b -> counts a = counts b -> a = b.
Proof. destruct a, b. cbn. by intros -> ->. Qed.
Lemma sees_eq ex s a b : sees ex s a -> sees ex s b -> a = b.
Proof.
  intros [A1 A2] [B1 B2]. apply names_eq; apply map_eq; [intros [par nm]|intros ino]; apply option_eq; intros v; [by rewrite A1, B1|by rewrite A2, B2].
Qed.
Lemma shape_inj s p q n m : shape [] [] s -> nodes s !! p = Some n -> nodes s !! q = Some m -> nodeid n = nodeid m -> p = q.
Proof. intros Hs Hp Hq. eapply (sh_inj _ _ _ Hs); eauto using not_elem_of_nil. Qed.
Lemma entry_functional ex s par nm ino ino' : shape [] [] s -> entry_but ex s par nm ino -> entry_but ex s par nm ino' -> ino = ino'.
Proof.
  intros Hs (p & pp & n & pn & _ & Hn & Hpp & Hnm & Hpn & E1 & <-) (q & qq & m & qn & _ & Hm & Hqq & Hqm & Hqn & E2 & <-).
  assert (pp = qq) as -> by (eapply shape_inj; [done..|congruence]).
  assert (p = q) as -> by (eapply (sh_uniq _ _ _ Hs p q qq nm); [apply not_elem_of_nil..|by exists n|by exists m]). congruence.
Qed.
Lemma known_functional s ino k k' : shape [] [] s -> known s ino k -> known s ino k' -> k = k'.
Proof.
  intros Hs (p & n & Hn & E1 & <-) (q & m & Hm & E2 & <-). assert (p = q) as -> by (eapply shape_inj; [done..|congruence]). congruence.
Qed.
Lemma entry_of_some s p par nm ino : entry_of s p = Some (par, nm, ino) <->
  exists pp n pn, nodes s !! p = Some n /\ parent n = Some pp /\ name n = Some nm /\ nodes s !! pp = Some pn /\ nodeid pn = par /\ nodeid n = ino.
Proof.
  unfold entry_of. split.
  - destruct (nodes s !! p) as [n|]; [|done]. cbn. destruct (name n) as [nm'|] eqn:E2; [|done]. cbn. destruct (parent n) as [pp|] eqn:E1; [|done]. cbn.
    destruct (nodes s !! pp) as [pn|] eqn:E3; [|done]. intros [= <- <- <-]. by exists pp, n, pn.
  - intros (pp & n & pn & -> & E1 & E2 & E3 & <- & <-). cbn. rewrite E2. cbn. rewrite E1. cbn. by rewrite E3.
Qed.
Lemma view_sees s : shape [] [] s -> sees None s (view s).
Proof.
  intros Hs. assert (forall par nm ino, (par, nm, ino) ∈ omap (entry_of s) (elements (name_table s)) <-> entry_but None s par nm ino) as He.
  { intros par nm ino. rewrite list_elem_of_omap. split.
    - intros (p & _ & (pp & n & pn & H)%entry_of_some). by exists p, pp, n, pn.
    - intros (p & pp & n & pn & _ & H1 & H2 & H3 & H4). exists p. split; [|apply entry_of_some; by exists pp, n, pn].
      eapply linked_elem; [done|apply not_elem_of_nil|by exists n]. }
  assert (forall ino k, (ino, k) ∈ (fun e : nat * node => (nodeid e.2, nlookup e.2)) <$> map_to_list (nodes s) <-> known s ino k) as Hk.
  { intros ino k. rewrite list_elem_of_fmap. split.
    - intros ([p n] & [= -> ->] & H%elem_of_map_to_list). by exists p, n.
    - intros (p & n & H%elem_of_map_to_list & <- & <-). by exists (p, n). }
  split; cbn.
  - intros par nm ino. rewrite <- He. split; [apply elem_of_list_to_map_2|]. intros Hin. apply elem_of_list_to_map_1'; [|done].
    intros y Hy. rewrite He in Hin. rewrite He in Hy. by eapply entry_functional.
  - intros ino k. rewrite <- Hk. split; [apply elem_of_list_to_map_2|]. intros Hin. apply elem_of_list_to_map_1'; [|done].
    intros y Hy. rewrite Hk in Hin. rewrite Hk in Hy. by eapply known_functional.
Qed.

(** ** What lives *)

Inductive live (ex : option nat) (s : fuse) : nat -> Prop :=
| live_looked p n : nodes s !! p = Some n -> 0 < nlookup n -> live ex s p
| live_parent p c n : nodes s !! p = Some n -> c ∈ elements (name_table s) -> Some c <> ex -> parent_of (nodes s) c = Some p -> live ex s c -> live ex s p.
(** Every locked node lives. *)
Definition secure (ex : option nat) (s : fuse) : Prop := forall p n, nodes s !! p = Some n -> treelock n <> 0 -> live ex s p.
Lemma live_guarded ex s : secure ex s -> guarded (live ex s) ex s.
Proof.
  intros Hu. split; [done|]. intros q Hq. destruct Hq as [p n Hn Hk|p c n Hn Hc Hex Hp Hl].
  - exists n. split; [done|by left].
  - exists n. split; [done|right]. by exists c.
Qed.
Lemma rank_bound (rank : nat -> nat) s : exists B, forall p n, nodes s !! p = Some n -> (rank p < B)%nat.
Proof.
  exists (S (foldr Nat.max 0%nat ((fun e => rank e.1) <$> map_to_list (nodes s)))). intros p n Hp. apply Nat.lt_succ_r.
  assert (rank p ∈ (fun e : nat * node => rank e.1) <$> map_to_list (nodes s)) as Hin by (apply list_elem_of_fmap; exists (p, n); split; [done|by apply elem_of_map_to_list]).
  induction ((fun e : nat * node => rank e.1) <$> map_to_list (nodes s)) as [|x l IH]; [by apply not_elem_of_nil in Hin|]. cbn. apply elem_of_cons in Hin as [->|Hin]; [lia|]. specialize (IH Hin). lia.
Qed.
Lemma children_some s p : 0 < children s p -> exists c, c ∈ elements (name_table s) /\ parent_of (nodes s) c = Some p.
Proof.
  unfold children, lenZ. destruct (filter _ _) as [|c l] eqn:Hf; [cbn; lia|]. intros _. exists c.
  assert (c ∈ c :: l) as Hin by left. rewrite <- Hf in Hin. apply list_elem_of_filter in Hin as [E Hin]. done.
Qed.
(** In a tree every node lives. *)
Lemma tree_live s p n : tree_ok s -> nodes s !! p = Some n -> live None s p.
Proof.
  intros (Hs & Hr & rank & Hrk) Hn. destruct (rank_bound rank s) as [B HB].
  remember (B - rank p)%nat as d eqn:Hd. revert p n Hn Hd. induction d as [d IH] using lt_wf_ind. intros p n Hn Hd.
  destruct (Hr p n Hn) as (E & Hnl & Hpos & _). specialize (Hpos (not_elem_of_nil p)). rewrite decide_False in E by done.
  unfold lookups_hold in E. destruct (Z.ltb_spec 0 (nlookup n)) as [Hl|Hl]; [by eapply live_looked|].
  destruct (children_some s p) as (c & Hc & Hp); [lia|]. unfold parent_of in Hp. destruct (nodes s !! c) as [m|] eqn:Hm; [|done]. cbn in Hp.
  pose proof (Hrk c m p Hm Hp). pose proof (HB c m Hm). pose proof (HB p n Hn).
  eapply live_parent; [done|done|done|unfold parent_of; by rewrite Hm|]. eapply (IH (B - rank c)%nat); [lia|done|done].
Qed.
Lemma live_alive ex s a p n : shape [] [] s -> sees ex s a -> nodes s !! p = Some n -> live ex s p <-> alive a (nodeid n).
Proof.
  intros Hs [A1 A2] Hn. split.
  - intros Hl. revert n Hn. induction Hl as [p m Hm Hk|p c m Hm Hc Hex Hp Hl IH]; intros n Hn.
    + apply (alive_counted a _ (nlookup m)); [|done]. apply A2. exists p, m. split; [done|]. by simplify_eq.
    + unfold parent_of in Hp. destruct (nodes s !! c) as [x|] eqn:Hx; [|done]. cbn in Hp.
      destruct (linked_parent [] [] s c x p Hs (not_elem_of_nil c) Hx Hp) as (_ & _ & nm & Enm).
      apply (alive_parent a _ nm (nodeid x)); [|by apply IH]. apply A1. exists c, p, x, n. done.
  - remember (nodeid n) as ino eqn:Hino. intros Ha. revert p n Hn Hino. induction Ha as [ino k Hk Hpos|par nm ino He Ha IH]; intros p n Hn Hino.
    + apply A2 in Hk as (q & m & Hm & E1 & <-). assert (q = p) as -> by (eapply shape_inj; [done..|congruence]). exact (live_looked _ _ p m Hm Hpos).
    + apply A1 in He as (c & q & x & y & Hex & Hx & Hp & Hnm & Hy & E1 & E2). assert (q = p) as -> by (eapply shape_inj; [done..|congruence]).
      eapply live_parent; [done| |done|unfold parent_of; by rewrite Hx|by eapply IH]. eapply linked_elem; [done|apply not_elem_of_nil|by exists x].
Qed.

(** ** What a sweep leaves *)

(** Between [s], from which [ex] is taken out of the name table, and [s']. *)
Definition swept (ex : option nat) (s s' : fuse) : Prop :=
  forall q, if decide (ex = Some q) then nodes s' !! q = set_link None None <$> nodes s !! q else kept (nodes s !! q) (nodes s' !! q).
Lemma swept_back ex s s' q n' : swept ex s s' -> nodes s' !! q = Some n' -> exists n, nodes s !! q = Some n /\ nodeid n' = nodeid n /\ nlookup n' = nlookup n /\
  if decide (ex = Some q) then parent n' = None else parent n' = parent n /\ name n' = name n.
Proof.
  intros Hw Hq. specialize (Hw q). destruct (decide (ex = Some q)) as [Hex|Hex].
  - rewrite Hq in Hw. destruct (nodes s !! q) as [m|]; [|done]. injection Hw as ->. by exists m.
  - rewrite Hq in Hw. destruct (nodes s !! q) as [n|]; [|done]. exists n. cbn in Hw.
    destruct (same_refs_key _ _ Hw) as (E1 & E2 & E3). split; [done|]. split; [done|]. split; [|done].
    change (nlookup (set_refctr 0 n') = nlookup (set_refctr 0 n)). by rewrite Hw.
Qed.
Lemma swept_live ex s s' q : shape [] [] s -> swept ex s s' -> tree_ok s' -> guarded (live ex s) None s' -> is_Some (nodes s' !! q) <-> live ex s q.
Proof.
  intros Hs Hw Ht [_ HK]. split.
  - intros [n' Hn']. pose proof (tree_live s' q n' Ht Hn') as Hl. clear n' Hn'. induction Hl as [q n' Hn' Hk|q c n' Hn' Hc _ Hp Hl IH].
    + destruct (swept_back ex s s' q n' Hw Hn') as (n & Hn & _ & E & _). eapply live_looked; [done|lia].
    + unfold parent_of in Hp. destruct (nodes s' !! c) as [m'|] eqn:Hm'; [|done]. cbn in Hp. destruct (swept_back ex s s' c m' Hw Hm') as (m & Hm & _ & _ & E).
      destruct (decide (ex = Some c)) as [|Hex]; [congruence|]. destruct E as [E _]. destruct (swept_back ex s s' q n' Hw Hn') as (n & Hn & _).
      assert (parent m = Some q) as Hp' by congruence. destruct (linked_parent [] [] s c m q Hs (not_elem_of_nil c) Hm Hp') as (_ & _ & nm & Enm).
      apply (live_parent ex s q c n); [done| |congruence|unfold parent_of; by rewrite Hm|done]. eapply linked_elem; [done|apply not_elem_of_nil|by exists m].
  - intros Hl. destruct (HK q Hl) as (n & Hn & _). by exists n.
Qed.
Lemma swept_collected ex s s' a : shape [] [] s -> swept ex s s' -> tree_ok s' -> guarded (live ex s) None s' -> sees ex s a -> collected a (view s').
Proof.
  intros Hs Hw Ht HK Ha. pose proof Ht as (Hs' & _). pose proof (view_sees s' Hs') as [V1 V2]. pose proof Ha as [A1 A2].
  assert (forall p n, nodes s !! p = Some n -> is_Some (nodes s' !! p) <-> alive a (nodeid n)) as Hal.
  { intros p n Hn. rewrite <- (live_alive ex s a p n Hs Ha Hn). by apply swept_live. }
  assert (forall q n n', nodes s !! q = Some n -> nodes s' !! q = Some n' -> nodeid n' = nodeid n /\ nlookup n' = nlookup n /\ (Some q <> ex -> parent n' = parent n /\ name n' = name n)) as Hsame.
  { intros q n n' Hn Hn'. destruct (swept_back ex s s' q n' Hw Hn') as (m & Hm & E1 & E2 & E3). assert (m = n) as -> by congruence.
    split; [done|]. split; [done|]. intros Hne. by rewrite decide_False in E3. }
  split.
  - intros [par nm] ino. rewrite V1, A1. split.
    + intros (p & pp & n' & pn' & _ & Hn' & Hp & Hnm & Hpn' & <- & <-). destruct (swept_back ex s s' p n' Hw Hn') as (n & Hn & E1 & _ & E3).
      destruct (swept_back ex s s' pp pn' Hw Hpn') as (pn & Hpn & F1 & _). destruct (decide (ex = Some p)) as [|Hex]; [congruence|]. destruct E3 as [E3 E4].
      split; [exists p, pp, n, pn; split_and!; (done || congruence)|]. rewrite E1. apply (Hal p n Hn). by exists n'.
    + intros [(p & pp & n & pn & Hex & Hn & Hp & Hnm & Hpn & <- & <-) Hl]. apply (Hal p n Hn) in Hl as [n' Hn'].
      destruct (Hsame p n n' Hn Hn') as (E1 & _ & E3). destruct (E3 Hex) as [E4 E5]. assert (parent n' = Some pp) as Hp' by congruence.
      destruct (linked_parent [] [] s' p n' pp Hs' (not_elem_of_nil p) Hn' Hp') as ([pn' Hpn'] & _).
      destruct (Hsame pp pn pn' Hpn Hpn') as (F1 & _). exists p, pp, n', pn'. split_and!; (done || congruence).
  - intros ino k. rewrite V2, A2. split.
    + intros (p & n' & Hn' & <- & <-). destruct (swept_back ex s s' p n' Hw Hn') as (n & Hn & E1 & E2 & _). split; [by exists p, n|].
      rewrite E1. apply (Hal p n Hn). by exists n'.
    + intros [(p & n & Hn & <- & <-) Hl]. apply (Hal p n Hn) in Hl as [n' Hn']. destruct (Hsame p n n' Hn Hn') as (E1 & E2 & _). by exists p, n'.
Qed.

(** ** Changing the view *)

Definition set_count (ino v : Z) (a : names) : names := {| entries := entries a; counts := <[ino := v]> (counts a) |}.
Definition drop_entry (e : Z * string) (a : names) : names := {| entries := delete e (entries a); counts := counts a |}.
Definition put_entry (e : Z * string) (ino : Z) (a : names) : names := {| entries := <[e := ino]> (entries a); counts := counts a |}.

Lemma entry_same_keys ex s s' par nm ino : same_keys (nodes s) (nodes s') -> entry_but ex s' par nm ino <-> entry_but ex s par nm ino.
Proof.
  assert (forall m m' : gmap nat node, same_keys m m' -> same_keys m' m) as Hsym.
  { intros m m' H p. specialize (H p). destruct (m !! p), (m' !! p); try done. by destruct H as (? & ? & ?). }
  assert (forall m m', same_keys (nodes m) (nodes m') -> entry_but ex m par nm ino -> entry_but ex m' par nm ino) as Hone.
  { intros m m' H (p & pp & n & pn & Hex & Hn & Hp & Hnm & Hpn & <- & <-). apply Hsym in H. destruct (same_keys_lookup _ _ _ _ H Hn) as (n' & Hn' & E1 & E2 & E3).
    destruct (same_keys_lookup _ _ _ _ H Hpn) as (pn' & Hpn' & F1 & _). exists p, pp, n', pn'. split_and!; (done || congruence). }
  intros H. split; [apply Hone; by apply Hsym|by apply Hone].
Qed.
Lemma sees_recount ex s s' a p n n' : shape [] [] s -> sees ex s a -> nodes s !! p = Some n -> nodes s' = <[p := n']> (nodes s) -> same_key n n' ->
  sees ex s' (set_count (nodeid n) (nlookup n') a).
Proof.
  intros Hs [A1 A2] Hn En Hk. split.
  - intros par nm ino. cbn. rewrite A1. rewrite (entry_same_keys ex s s'); [done|]. rewrite En. by apply (same_keys_update _ p n).
  - intros ino k. cbn. destruct (decide (ino = nodeid n)) as [->|Hne].
    + rewrite lookup_insert_eq. split.
      * intros [= <-]. exists p, n'. rewrite En, lookup_insert_eq. split; [done|]. split; [apply Hk|done].
      * intros (q & m & Hq & E & <-). rewrite En in Hq. destruct (decide (q = p)) as [->|Hqp]; [rewrite lookup_insert_eq in Hq; congruence|].
        rewrite lookup_insert_ne in Hq by done. exfalso. apply Hqp. by apply (shape_inj s q p m n).
    + rewrite lookup_insert_ne by done. rewrite A2. split; intros (q & m & Hq & E & <-); exists q, m.
      * rewrite En, lookup_insert_ne; [done|]. intros ->. congruence.
      * rewrite En in Hq. destruct (decide (q = p)) as [->|Hqp]; [|by rewrite lookup_insert_ne in Hq].
        rewrite lookup_insert_eq in Hq. injection Hq as <-. destruct Hk as (Hk & _). congruence.
Qed.
Lemma sees_but s p n pp nm pn : shape [] [] s -> nodes s !! p = Some n -> parent n = Some pp -> name n = Some nm -> nodes s !! pp = Some pn ->
  forall a, sees None s a -> sees (Some p) s (drop_entry (nodeid pn, nm) a).
Proof.
  intros Hs Hn Hp Hnm Hpn a [A1 A2]. split; [|done]. intros par nm' ino. cbn. rewrite lookup_delete_Some, A1. split.
  - intros [Hne (q & qq & m & mn & _ & Hm & Hq & Hqn & Hmn & <- & <-)]. exists q, qq, m, mn. split; [|done]. intros [= ->]. apply Hne. congruence.
  - intros (q & qq & m & mn & Hex & Hm & Hq & Hqn & Hmn & <- & <-). split; [|by exists q, qq, m, mn]. intros [= E1 ->]. apply Hex. f_equal.
    assert (qq = pp) as -> by (eapply shape_inj; [done..|congruence]). eapply (sh_uniq _ _ _ Hs q p pp nm'); [apply not_elem_of_nil..|by exists m|by exists n].
Qed.
Lemma sees_unnamed s p n : nodes s !! p = Some n -> parent n = None -> forall a, sees None s a -> sees (Some p) s a.
Proof.
  intros Hn Hp a [A1 A2]. split; [|done]. intros par nm' ino. rewrite A1. split; intros (q & qq & m & mn & Hex & Hm & Hq & Hrest); exists q, qq, m, mn; split; try done.
  intros [= ->]. congruence.
Qed.
(** A node is linked: a new one, or one that had left the name table. *)
Lemma view_linked s s' p n pp par nm : shape [] [] s -> shape [] [] s' -> nodes s' = linked_heap (nodes s) p n pp par nm -> nodes s !! pp = Some par ->
  (forall q, ~ linked_at s q pp nm) -> p <> pp ->
  (forall m, nodes s !! p = Some m -> parent m = None /\ nodeid m = nodeid n) -> (forall q m, nodes s !! q = Some m -> q <> p -> nodeid m <> nodeid n) ->
  view s' = put_entry (nodeid par, nm) (nodeid n) (set_count (nodeid n) (nlookup n) (view s)).
Proof.
  intros Hs Hs' En Hpar Hfree Hne Hold Hid. apply (sees_eq None s'); [by apply view_sees|].
  pose proof (view_sees s Hs) as [A1 A2]. unfold linked_heap in En.
  assert (nodes s' !! p = Some (set_link (Some pp) (Some nm) n)) as Hp' by (by rewrite En, lookup_insert_eq).
  assert (nodes s' !! pp = Some (set_refctr (refctr par + 1) par)) as Hpp' by (rewrite En, lookup_insert_ne, lookup_insert_eq; done).
  assert (forall q, q <> p -> q <> pp -> nodes s' !! q = nodes s !! q) as Hsame by (intros; by rewrite En, !lookup_insert_ne).
  assert (forall q m, q <> p -> nodes s !! q = Some m -> exists m', nodes s' !! q = Some m' /\ same_key m m' /\ nlookup m' = nlookup m) as Hfwd.
  { intros q m Hq Hm. destruct (decide (q = pp)) as [->|]; [|exists m; by rewrite Hsame]. assert (m = par) as -> by congruence. by eexists. }
  assert (forall q m', q <> p -> nodes s' !! q = Some m' -> exists m, nodes s !! q = Some m /\ same_key m m' /\ nlookup m' = nlookup m) as Hbwd.
  { intros q m Hq Hm. destruct (decide (q = pp)) as [->|]; [|exists m; by rewrite <- Hsame]. rewrite Hpp' in Hm. injection Hm as <-. by exists par. }
  assert (forall q m, nodes s !! q = Some m -> parent m = Some p -> is_Some (nodes s !! p)) as Hch.
  { intros q m Hm Hq. by destruct (linked_parent [] [] s q m p Hs (not_elem_of_nil q) Hm Hq). }
  split.
  - intros pr nm' ino. cbn. rewrite lookup_insert_Some, A1. split.
    + intros [[[= <- <-] <-]|[Hk (q & qq & m & mn & _ & Hm & Hq & Hqn & Hmn & <- & <-)]].
      * exists p, pp, (set_link (Some pp) (Some nm) n), (set_refctr (refctr par + 1) par). done.
      * assert (q <> p) as Hqp by (intros ->; destruct (Hold m Hm); congruence). destruct (Hfwd q m Hqp Hm) as (m' & Hm' & (E1 & E2 & E3) & _).
        destruct (decide (qq = p)) as [->|Hqq].
        -- destruct (Hold mn Hmn) as [_ E]. exists q, p, m', (set_link (Some pp) (Some nm) n). split_and!; (done || congruence).
        -- destruct (Hfwd qq mn Hqq Hmn) as (mn' & Hmn' & (F1 & _) & _). exists q, qq, m', mn'. split_and!; (done || congruence).
    + intros (q & qq & m' & mn' & _ & Hm' & Hq & Hqn & Hmn' & <- & <-). destruct (decide (q = p)) as [->|Hqp].
      * left. rewrite Hp' in Hm'. injection Hm' as <-. cbn in Hq, Hqn. injection Hq as <-. injection Hqn as <-. rewrite Hpp' in Hmn'. by injection Hmn' as <-.
      * right. destruct (Hbwd q m' Hqp Hm') as (m & Hm & (E1 & E2 & E3) & _). assert (parent m = Some qq) as Hq0 by congruence.
        destruct (linked_parent [] [] s q m qq Hs (not_elem_of_nil q) Hm Hq0) as ([mn Hmn] & _).
        assert (nodeid mn' = nodeid mn) as Eid.
        { destruct (decide (qq = p)) as [->|Hqq]; [rewrite Hp' in Hmn'; injection Hmn' as <-; symmetry; by apply Hold|].
          destruct (Hbwd qq mn' Hqq Hmn') as (x & Hx & (F1 & _) & _). congruence. }
        split; [|exists q, qq, m, mn; split_and!; (done || congruence)]. intros [= E4 E5].
        assert (qq = pp) as -> by (eapply (shape_inj s); [done..|congruence]). apply (Hfree q). exists m. split; [done|]. split; congruence.
  - intros ino k. cbn. rewrite lookup_insert_Some, A2. split.
    + intros [[<- <-]|[Hk (q & m & Hm & <- & <-)]]; [exists p, (set_link (Some pp) (Some nm) n); done|].
      assert (q <> p) as Hqp by (intros ->; destruct (Hold m Hm); congruence). destruct (Hfwd q m Hqp Hm) as (m' & Hm' & (E1 & _) & E2). exists q, m'. split_and!; (done || congruence).
    + intros (q & m' & Hm' & <- & <-). destruct (decide (q = p)) as [->|Hqp]; [left; rewrite Hp' in Hm'; by injection Hm' as <-|right].
      destruct (Hbwd q m' Hqp Hm') as (m & Hm & (E1 & _) & E2). split; [|exists q, m; split_and!; (done || congruence)]. rewrite E1. intros E. by eapply Hid.
Qed.

Definition kept_dir (a : names) (d : Z) : Prop := exists k, counts a !! d = Some k /\ 0 < k.

(** ** Moving a node *)

(** [x] is [y] or lies below it. *)
Definition child_of (a : names) (x y : Z) : Prop := exists nm, entries a !! (y, nm) = Some x.
Definition under (a : names) : Z -> Z -> Prop := rtc (child_of a).
Definition climbs (s : fuse) : nat -> nat -> Prop := rtc (fun q r => parent_of (nodes s) q = Some r).
Fixpoint climbs_in (fuel : nat) (m : gmap nat node) (q p : nat) : bool :=
  bool_decide (q = p) || match fuel, parent_of m q with S fuel, Some r => climbs_in fuel m r p | _, _ => false end.
Lemma climbs_in_spec rank s : ranked rank s -> forall fuel q p, (rank q <= fuel)%nat -> climbs_in fuel (nodes s) q p = true <-> climbs s q p.
Proof.
  intros Hrk. induction fuel as [|fuel IH]; intros q p Hf; cbn; rewrite orb_true_iff, bool_decide_eq_true.
  - split; [intros [->|?]; [constructor|done]|]. intros [?|(r & Hr & _)]%rtc_inv; [by left|exfalso].
    unfold parent_of in Hr. destruct (nodes s !! q) as [n|] eqn:Hn; [|done]. cbn in Hr. pose proof (Hrk q n r Hn Hr). lia.
  - assert (forall r, parent_of (nodes s) q = Some r -> (rank r <= fuel)%nat) as Hlt.
    { intros r Hr. unfold parent_of in Hr. destruct (nodes s !! q) as [n|] eqn:Hn; [|done]. cbn in Hr. pose proof (Hrk q n r Hn Hr). lia. }
    split.
    + intros [->|Hc]; [constructor|]. destruct (parent_of (nodes s) q) as [r|] eqn:Hr; [|done]. apply rtc_l with r; [done|]. by apply IH; [apply Hlt|].
    + intros [?|(r & Hr & Hc)]%rtc_inv; [by left|right]. rewrite Hr. by apply IH; [apply Hlt|].
Qed.
Lemma relink_ranked s s' p n pp par nm : (exists rank, ranked rank s) -> nodes s !! pp = Some par -> ~ climbs s pp p ->
  nodes s' = linked_heap (nodes s) p n pp par nm -> exists rank, ranked rank s'.
Proof.
  intros [rank Hrk] Hpar Hc Hh. set (below q := climbs_in (rank q) (nodes s) q p). set (rank' q := if below q then (rank q + S (rank pp))%nat else rank q).
  assert (forall q, below q = true <-> climbs s q p) as Hb by (intros q; by apply (climbs_in_spec rank s Hrk)).
  exists rank'. apply (linked_ranked rank' s s' p n pp par nm); try done.
  - intros q m r Hq Hr. pose proof (Hrk q m r Hq Hr). unfold rank'. destruct (below r) eqn:Er; [|destruct (below q); lia].
    assert (below q = true) as ->; [|lia]. apply Hb. apply rtc_l with r; [unfold parent_of; by rewrite Hq|by apply Hb].
  - unfold rank'. destruct (below pp) eqn:Epp; [by apply Hb in Epp|]. assert (below p = true) as ->; [apply Hb; constructor|lia].
Qed.
Lemma climbs_under s a q p n m : shape [] [] s -> sees None s a -> nodes s !! q = Some n -> nodes s !! p = Some m -> climbs s q p -> under a (nodeid n) (nodeid m).
Proof.
  intros Hs [A1 _] Hn Hm Hc. revert n Hn. induction Hc as [q|q r p Hr Hc IH]; intros n Hn; [assert (n = m) as -> by congruence; constructor|].
  unfold parent_of in Hr. rewrite Hn in Hr. cbn in Hr. destruct (linked_parent [] [] s q n r Hs (not_elem_of_nil q) Hn Hr) as ([x Hx] & _ & nm & Hnm).
  apply rtc_l with (nodeid x); [|by apply IH]. exists nm. apply A1. by exists q, r, n, x.
Qed.
Definition ready (s : fuse) : Prop := tree_ok s.
Lemma ready_secure s : ready s -> secure None s.
Proof. intros Ht p n Hn _. by eapply tree_live. Qed.
Lemma ready_good s : ready s -> good (live None s) s.
Proof. intros Ht. split; [done|by apply live_guarded, ready_secure]. Qed.
(** What stays of the nodes: the nodes of [T] may be linked elsewhere, no lock changes, no
    locked node goes. *)
Definition mild (T : nat -> Prop) (s s' : fuse) : Prop :=
  (next_ptr s <= next_ptr s')%nat /\
  (forall q n', nodes s' !! q = Some n' ->
    (exists n, nodes s !! q = Some n /\ treelock n' = treelock n /\ nodeid n' = nodeid n /\ (~ T q -> parent n' = parent n /\ name n' = name n)) \/
    (next_ptr s <= q)%nat /\ treelock n' = 0) /\
  (forall q n, nodes s !! q = Some n -> treelock n <> 0 -> exists n', nodes s' !! q = Some n' /\ treelock n' = treelock n).
Definition calm (s s' : fuse) : Prop := owned s' = owned s /\ lockq s' = lockq s.
Definition around (T : nat -> Prop) (s s' : fuse) : Prop := calm s s' /\ conf s' = conf s /\ mild T s s'.
Lemma mild_same T s s' : nodes s' = nodes s -> (next_ptr s <= next_ptr s')%nat -> mild T s s'.
Proof.
  intros En Hp. split; [done|]. rewrite En. split; [|by intros q n Hq _; exists n]. intros q n' Hq. left. by exists n'.
Qed.
Lemma mild_mono (T T' : nat -> Prop) s s' : (forall q, T q -> T' q) -> mild T s s' -> mild T' s s'.
Proof.
  intros HT (H1 & H2 & H3). split; [done|]. split; [|done]. intros q n' Hq. destruct (H2 q n' Hq) as [(n & Hn & E1 & E2 & E3)|?]; [left|by right].
  exists n. split_and!; auto; apply E3; auto.
Qed.
Lemma mild_trans T a b c : mild T a b -> mild T b c -> mild T a c.
Proof.
  intros (A1 & A2 & A3) (B1 & B2 & B3). split; [lia|]. split.
  - intros q n' Hq. destruct (B2 q n' Hq) as [(m & Hm & E1 & E2 & E3)|[? ?]]; [|right; split; [lia|done]].
    destruct (A2 q m Hm) as [(n & Hn & F1 & F2 & F3)|[? ?]]; [left|right; split; [done|congruence]].
    exists n. split; [done|]. split; [congruence|]. split; [congruence|]. intros HT. destruct (E3 HT), (F3 HT). split; congruence.
  - intros q n Hq Hl. destruct (A3 q n Hq Hl) as (m & Hm & E). destruct (B3 q m Hm) as (n' & Hn' & E'); [congruence|]. exists n'. split; [done|congruence].
Qed.
Lemma around_trans T a b c : around T a b -> around T b c -> around T a c.
Proof. intros ([A1 A1'] & A2 & A3) ([B1 B1'] & B2 & B3). split; [split; congruence|]. split; [congruence|by eapply mild_trans]. Qed.
Lemma around_mono (T T' : nat -> Prop) s s' : (forall q, T q -> T' q) -> around T s s' -> around T' s s'.
Proof. intros HT (A1 & A2 & A3). split; [done|]. split; [done|by eapply mild_mono]. Qed.
Lemma around_refl T s : around T s s.
Proof. split; [done|]. split; [done|by apply mild_same]. Qed.
(** One node changes. *)
Lemma mild_update (T : nat -> Prop) s s' p n n' : nodes s !! p = Some n -> nodes s' = <[p := n']> (nodes s) -> (next_ptr s <= next_ptr s')%nat ->
  treelock n' = treelock n -> nodeid n' = nodeid n -> (~ T p -> parent n' = parent n /\ name n' = name n) -> mild T s s'.
Proof.
  intros Hn En Hp E1 E2 E3. split; [done|]. rewrite En. split; intros q m Hq.
  - left. destruct (decide (q = p)) as [->|Hne]; [rewrite lookup_insert_eq in Hq; injection Hq as <-; by exists n|].
    rewrite lookup_insert_ne in Hq by done. by exists m.
  - intros _. destruct (decide (q = p)) as [->|Hne]; [exists n'; rewrite lookup_insert_eq; split; [done|congruence]|].
    exists m. by rewrite lookup_insert_ne.
Qed.
Lemma mild_linked (T : nat -> Prop) s s' p n pp par nm : nodes s' = linked_heap (nodes s) p n pp par nm -> nodes s !! pp = Some par -> p <> pp ->
  (next_ptr s <= next_ptr s')%nat ->
  (exists m, nodes s !! p = Some m /\ treelock n = treelock m /\ nodeid n = nodeid m /\ T p) \/ (nodes s !! p = None /\ (next_ptr s <= p)%nat /\ treelock n = 0) -> mild T s s'.
Proof.
  intros En Hpar Hne Hp Hn. unfold linked_heap in En. split; [done|]. rewrite En. split; intros q m Hq.
  - destruct (decide (q = p)) as [->|Hqp].
    + rewrite lookup_insert_eq in Hq. injection Hq as <-. destruct Hn as [(m & Hm & E1 & E2 & HT)|(H0 & H1 & H2)]; [left; exists m; by split_and!|by right].
    + left. rewrite lookup_insert_ne in Hq by done. destruct (decide (q = pp)) as [->|]; [|rewrite lookup_insert_ne in Hq by done; by exists m].
      rewrite lookup_insert_eq in Hq. injection Hq as <-. by exists par.
  - intros Hl. destruct (decide (q = p)) as [->|Hqp].
    + destruct Hn as [(m' & Hm & E1 & E2 & HT)|(H0 & _)]; [|congruence]. eexists. rewrite lookup_insert_eq. split; [done|]. cbn. congruence.
    + rewrite lookup_insert_ne by done. destruct (decide (q = pp)) as [->|]; [|exists m; by rewrite lookup_insert_ne].
      eexists. rewrite lookup_insert_eq. split; [done|]. cbn. congruence.
Qed.
Lemma mild_swept (T : nat -> Prop) ex s s' : swept ex s s' -> (next_ptr s <= next_ptr s')%nat -> (forall p, ex = Some p -> T p) -> mild T s s'.
Proof.
  intros Hw Hp HT. split; [done|]. split; intros q m Hq; specialize (Hw q); destruct (decide (ex = Some q)) as [Hex|Hex].
  - left. rewrite Hq in Hw. destruct (nodes s !! q) as [n|]; [|done]. injection Hw as ->. exists n. split_and!; try done. intros H. destruct (H (HT q Hex)).
  - left. rewrite Hq in Hw. destruct (nodes s !! q) as [n|]; [|done]. cbn in Hw. exists n. destruct (same_refs_key _ _ Hw) as (E1 & E2 & E3). split_and!; try done.
    change (treelock (set_refctr 0 m) = treelock (set_refctr 0 n)). by rewrite Hw.
  - intros _. rewrite Hq in Hw. by exists (set_link None None m).
  - intros Hl. rewrite Hq in Hw. destruct (nodes s' !! q) as [n|]; cbn in Hw; [|tauto]. exists n. split; [done|].
    change (treelock (set_refctr 0 n) = treelock (set_refctr 0 m)). by rewrite Hw.
Qed.
Lemma frame_next s s' : frame s s' -> (next_ptr s <= next_ptr s')%nat.
Proof. intros [-> _]. done. Qed.
(** Without a name in a directory that is looked up, everything lives on. *)
Lemma live_without s p n pp par : tree_ok s -> nodes s !! p = Some n -> parent n = Some pp -> nodes s !! pp = Some par -> 0 < nlookup par -> secure (Some p) s.
Proof.
  intros Ht Hn Hp Hpar Hk q m Hm _. pose proof (tree_live s q m Ht Hm) as Hl. clear m Hm. induction Hl as [q m Hm Hkm|q c m Hm Hc _ Hcp Hl IH]; [by eapply live_looked|].
  destruct (decide (c = p)) as [->|Hne].
  - unfold parent_of in Hcp. rewrite Hn in Hcp. cbn in Hcp. assert (q = pp) as -> by congruence. exact (live_looked _ _ pp par Hpar Hk).
  - eapply live_parent; try done. congruence.
Qed.
Definition is_named (s : fuse) (p pp : nat) (par : node) (nm : string) : Prop := linked_at s p pp nm /\ nodes s !! pp = Some par.
Lemma frame_owned s s' : frame s s' -> calm s s' /\ conf s' = conf s.
Proof. by intros (_ & _ & _ & _ & ? & ? & _ & ?). Qed.

Section Space.
Variable mem : nat -> bool.
(** A node leaves its directory, which may go with it. *)
Lemma unhash_collects s p n a : ready s -> secure (Some p) s -> nodes s !! p = Some n -> p <> 0%nat -> sees (Some p) s a ->
  exists s', unhash_name mem p s = Done tt s' /\ ready s' /\ frame s s' /\ swept (Some p) s s' /\ collected a (view s').
Proof.
  intros (Hs & Hr & rank & Hrk) Hsec Hn H0 Ha.
  destruct (unhash_rounds_ok mem (S (base.size (nodes s))) p n s [] [] (live (Some p) s) rank) as (s' & Hrun & Hs' & Hr' & Hrk' & HK & Hf & Hp & Hkept & _); try done.
  { by apply live_guarded. } { cbn. lia. }
  exists s'. split; [unfold unhash_name; by step ltac:(exact eq_refl)|].
  assert (swept (Some p) s s') as Hw. { intros q. destruct (decide (Some p = Some q)) as [[= <-]|Hne]; [by rewrite Hp, Hn|]. apply Hkept. congruence. }
  assert (tree_ok s') as Ht by (split; [done|]; split; [done|by exists rank]).
  split; [done|split; [done|split; [done|by apply (swept_collected (Some p) s s')]]].
Qed.
(** It enters another one. *)
Lemma hash_moves s p n pp par nm : ready s -> nodes s !! p = Some n -> parent n = None -> p <> 0%nat -> nodes s !! pp = Some par ->
  (forall q, ~ linked_at s q pp nm) -> ~ under (view s) (nodeid par) (nodeid n) ->
  exists b s', hash_name mem p (nodeid par) nm s = Done b s' /\ ready s' /\ around (eq p) s s' /\ (forall x m, x <> p -> nodes s !! x = Some m -> exists m', nodes s' !! x = Some m' /\ same_key m m') /\
    (exists n', nodes s' !! p = Some n' /\ nodeid n' = nodeid n) /\ view s' = if b then put_entry (nodeid par, nm) (nodeid n) (view s) else view s.
Proof.
  intros (Hs & Hr & Hrk) Hn Hnp H0 Hpar Hfree Hunder. pose proof (view_sees s Hs) as Hv.
  assert (p <> pp) as Hne. { intros ->. apply Hunder. assert (n = par) as -> by congruence. constructor. }
  assert (name n = None) as Hnn. { pose proof (sh_null _ _ _ Hs p n Hn (not_elem_of_nil p)) as H. rewrite Hnp in H. by destruct (name n). }
  destruct (hash_name_spec mem [] s p n pp par nm) as (b & s' & Hrun & Hf & Ei & Hspec); try done; [apply not_elem_of_nil|].
  destruct (frame_owned _ _ Hf) as [Eo Ec]. pose proof (frame_next _ _ Hf) as Hnext. exists b, s'. split; [done|]. destruct b.
  2: { destruct Hspec as (E1 & E2 & E3 & E4). assert (tree_eq s s') as He by done. split; [|split].
    - apply (tree_eq_good (live None s) s s' He). split; [by split_and!|by apply live_guarded, ready_secure].
    - split; [done|]. split; [done|by apply mild_same].
    - split; [intros x m _ Hx; exists m; by rewrite E1|]. split; [exists n; by rewrite E1|].
      unfold view. rewrite E1, E2. f_equal. f_equal. apply list_omap_ext. apply Forall_Forall2_diag, Forall_forall. intros q _. unfold entry_of. by rewrite E1. }
  destruct Hspec as (En & Hs' & He).
  assert (p ∉ elements (name_table s)) as Hpn. { rewrite (sh_names _ _ _ Hs). intros [_ (x & y & m & Hm & E & _)]. congruence. }
  assert (nodes s' !! p = Some (set_link (Some pp) (Some nm) n)) as Hp' by (rewrite En; apply lookup_insert_eq).
  split; [split; [done|split]|split].
  - by apply (linked_refs None [] s s' p n pp par nm).
  - apply (relink_ranked s s' p n pp par nm); try done. intros Hc. apply Hunder. by apply (climbs_under s (view s) pp p par n).
  - split; [done|]. split; [done|]. apply (mild_linked _ s s' p n pp par nm); try done. left. by exists n.
  - split.
    { intros x m Hx Hm. rewrite En. unfold linked_heap. rewrite lookup_insert_ne by done. destruct (decide (x = pp)) as [->|]; [|exists m; by rewrite lookup_insert_ne].
      rewrite lookup_insert_eq. eexists. split; [done|]. by assert (m = par) as -> by congruence. }
    split; [by eexists|].
    rewrite (view_linked s s' p n pp par nm); try done.
    + unfold put_entry, set_count. cbn. f_equal. apply insert_id. apply Hv. by exists p, n.
    + intros m Hm. assert (m = n) as -> by congruence. done.
    + intros q m Hm Hqp E. apply Hqp. by apply (shape_inj s q p m n).
Qed.

(** ** The operations *)

Lemma ready_owned h s : ready s -> ready (set_owned h s).
Proof. intros Ht. by apply (tree_eq_good (live None s) s); [|apply ready_good]. Qed.
Lemma under_lock {A} (body : hl A) T s (Q : A -> fuse -> Prop) : ready s -> "lock" ∉ owned s -> (forall a h s', Q a s' -> Q a (set_owned h s')) ->
  (let s0 := set_owned ({["lock"]} ∪ owned s) s in ready s0 -> exists a s', body s0 = Done a s' /\ ready s' /\ around T s0 s' /\ Q a s') ->
  exists a s', with_lock "lock" body s = Done a s' /\ ready s' /\ around T s s' /\ Q a s'.
Proof.
  intros Hr Hl HQ Hb. destruct Hb as (a & s' & Hrun & Hr' & ([Ho Hlq] & Hc & Hm) & Ha); [by apply ready_owned|].
  exists a, (set_owned (owned s) s'). split; [exact (with_lock_done "lock" body s a s' Hl Hrun Ho)|]. split; [by apply ready_owned|].
  split; [split; [split; [done|exact Hlq]|split; [done|exact Hm]]|by apply HQ].
Qed.
(** What [lookup_node] finds is what the view says. *)
Definition names_node (s : fuse) (d : Z) (nm : string) (p : nat) (n : node) : Prop :=
  nodes s !! p = Some n /\ p <> 0%nat /\ exists pp pn, parent n = Some pp /\ name n = Some nm /\ nodes s !! pp = Some pn /\ nodeid pn = d.
Lemma lookup_view s d nm : ready s -> exists r, lookup_node d nm s = Done r s /\
  match r with
  | Some p => exists n, names_node s d nm p n /\ entries (view s) !! (d, nm) = Some (nodeid n)
  | None => entries (view s) !! (d, nm) = None
  end.
Proof.
  intros (Hs & _). destruct (lookup_node_spec [] [] s d nm Hs) as (r & Hr & Hspec). exists r. split; [done|]. destruct (view_sees s Hs) as [V1 _].
  destruct r as [p|].
  - destruct Hspec as (_ & pp & pn & (n & Hn & Hp & Hnm) & Hpn & Hd). exists n. split; [|apply V1; by exists p, pp, n, pn].
    split; [done|]. split; [|by exists pp, pn]. intros ->. destruct (sh_root _ _ _ Hs) as (x & Hx & _ & Hxp & _). congruence.
  - destruct (entries (view s) !! (d, nm)) as [ino|] eqn:He; [|done]. exfalso. apply V1 in He as (p & pp & n & pn & _ & Hn & Hp & Hnm & Hpn & Hd & _).
    apply (Hspec p). split; [apply not_elem_of_nil|]. exists pp, pn. split; [by exists n|done].
Qed.
Lemma vacate_ok s d nm p n : ready s -> names_node s d nm p n -> kept_dir (view s) d ->
  exists s', unhash_name mem p s = Done tt s' /\ ready s' /\ around (eq p) s s' /\ swept (Some p) s s' /\ collected (drop_entry (d, nm) (view s)) (view s').
Proof.
  intros Hr (Hn & H0 & pp & pn & Hp & Hnm & Hpn & <-) (k & Hk & Hpos). pose proof Hr as (Hs & _).
  assert (k = nlookup pn) as -> by (apply (known_functional s (nodeid pn)); [done|by apply (view_sees s Hs)|by exists pp, pn]).
  destruct (unhash_collects s p n (drop_entry (nodeid pn, nm) (view s)) Hr) as (s' & Hrun & Hr' & Hf & Hw & Hc); try done.
  { by apply (live_without s p n pp pn). } { eapply sees_but; [done..|]. by apply view_sees. }
  exists s'. split; [done|]. split; [done|]. destruct (frame_owned _ _ Hf). split; [|done]. split; [done|]. split; [done|].
  apply (mild_swept _ (Some p)); [done|by apply frame_next|]. by intros q [= ->].
Qed.
Lemma view_count s p n : shape [] [] s -> nodes s !! p = Some n -> counts (view s) !! nodeid n = Some (nlookup n).
Proof. intros Hs Hn. apply (view_sees s Hs). by exists p, n. Qed.
Lemma view_node s ino k : shape [] [] s -> counts (view s) !! ino = Some k -> exists p n, nodes s !! p = Some n /\ nodeid n = ino /\ nlookup n = k.
Proof. intros Hs Hk. by apply (view_sees s Hs) in Hk. Qed.
Lemma ready_alive s ino k : ready s -> counts (view s) !! ino = Some k -> alive (view s) ino.
Proof.
  intros Ht Hk. pose proof Ht as (Hs & _). destruct (view_node s ino k Hs Hk) as (p & n & Hn & <- & _).
  apply (live_alive None s (view s) p n Hs (view_sees s Hs) Hn). by eapply tree_live.
Qed.
Lemma swept_same ex s s' p n k : shape [] [] s -> shape [] [] s' -> swept ex s s' -> nodes s !! p = Some n -> counts (view s') !! nodeid n = Some k ->
  exists n', nodes s' !! p = Some n' /\ nodeid n' = nodeid n.
Proof.
  intros Hs Hs' Hw Hn Hk. destruct (view_node s' _ k Hs' Hk) as (q & m' & Hm' & E & _). destruct (swept_back ex s s' q m' Hw Hm') as (m & Hm & E' & _).
  assert (q = p) as -> by (apply (shape_inj s q p m n); [done..|congruence]). by exists m'.
Qed.
End Space.

(** ** Abstract facts *)

Lemma under_sub a b x y : (forall e i, entries b !! e = Some i -> entries a !! e = Some i) -> under b x y -> under a x y.
Proof. intros Hsub H. induction H as [|x z y [nm He] _ IH]; [constructor|]. apply rtc_l with z; [|done]. exists nm. by apply Hsub. Qed.
Lemma collected_sub a a' e i : collected a a' -> entries a' !! e = Some i -> entries a !! e = Some i.
Proof. intros [H _] He. by apply H in He as [? _]. Qed.
Lemma drop_sub e a f i : entries (drop_entry e a) !! f = Some i -> entries a !! f = Some i.
Proof. cbn. by intros [_ ?]%lookup_delete_Some. Qed.
Lemma alive_drop d nm a x : alive a x -> ~ under a d x -> alive (drop_entry (d, nm) a) x.
Proof.
  induction 1 as [ino k Hk Hpos|par nm' ino He Ha IH]; intros Hu; [by apply (alive_counted _ ino k)|].
  assert (~ under a d ino) as Hu'. { intros H. apply Hu. eapply rtc_r; [exact H|]. by exists nm'. }
  apply (alive_parent _ par nm' ino); [|auto]. cbn. rewrite lookup_delete_ne; [done|]. intros [= -> ->]. apply Hu. constructor.
Qed.
Lemma alive_recount ino v a x : 0 < v -> alive a x -> alive (set_count ino v a) x.
Proof.
  intros Hv. induction 1 as [i k Hk Hpos|par nm i He Ha IH].
  - destruct (decide (i = ino)) as [->|Hne]; [apply (alive_counted _ ino v); [apply lookup_insert_eq|done]|].
    apply (alive_counted _ i k); [cbn; by rewrite lookup_insert_ne|done].
  - by apply (alive_parent _ par nm i).
Qed.

(** ** What the operations do to the name space *)

Inductive name_op :=
| Lookup (par : Z) (nm : option string) | Forget (ino count : Z) | Remove (dir : Z) (nm : string)
| Rename (olddir : Z) (oldname : string) (newdir : Z) (newname : string) (hide : bool)
| Exchange (olddir : Z) (oldname : string) (newdir : Z) (newname : string).
(** With [keep], the option [remember], a known name holds a lookup of its own. *)
Definition unlinked (keep : bool) (a : names) (e : Z * string) (b : names) : Prop :=
  exists ino k, entries a !! e = Some ino /\ counts a !! ino = Some k /\ collected (drop_entry e (if keep then set_count ino (k - 1) a else a)) b.
Definition cleared (keep : bool) (a : names) (e : Z * string) (b : names) : Prop :=
  match entries a !! e with None => b = a | Some _ => unlinked keep a e b end.
Definition vacated (a : names) (e : Z * string) (b : names) : Prop :=
  match entries a !! e with None => b = a | Some _ => collected (drop_entry e a) b end.
Definition put_maybe (e : Z * string) (o : option Z) (a : names) : names := match o with Some ino => put_entry e ino a | None => a end.
Inductive name_step (keep : bool) (a : names) : name_op -> Z -> names -> Prop :=
| step_self ino k : counts a !! ino = Some k -> name_step keep a (Lookup ino None) ino (set_count ino (k + 1) a)
| step_hit par nm ino k : entries a !! (par, nm) = Some ino -> counts a !! ino = Some k ->
    name_step keep a (Lookup par (Some nm)) ino (set_count ino (k + 1) a)
| step_new par nm ino : entries a !! (par, nm) = None -> counts a !! ino = None -> 0 < ino < 2 ^ 32 - 1 ->
    name_step keep a (Lookup par (Some nm)) ino (put_entry (par, nm) ino (set_count ino (if keep then 2 else 1) a))
| step_full par nm : entries a !! (par, nm) = None -> name_step keep a (Lookup par (Some nm)) 0 a
| step_forget_root n : name_step keep a (Forget FUSE_ROOT_ID n) 0 a
| step_forget ino k n b : ino <> FUSE_ROOT_ID -> counts a !! ino = Some k -> collected (set_count ino (k - n) a) b -> name_step keep a (Forget ino n) 0 b
| step_forget_waits ino n : ino <> FUSE_ROOT_ID -> name_step keep a (Forget ino n) 1 a
| step_remove dir nm b : cleared keep a (dir, nm) b -> name_step keep a (Remove dir nm) 0 b
| step_rename_none d nm d' nm' h : entries a !! (d, nm) = None -> name_step keep a (Rename d nm d' nm' h) 0 a
| step_rename_busy d nm d' nm' ino ino' : entries a !! (d, nm) = Some ino -> entries a !! (d', nm') = Some ino' ->
    name_step keep a (Rename d nm d' nm' true) (- EBUSY) a
| step_rename d nm d' nm' h ino b c : entries a !! (d, nm) = Some ino -> (h = true -> entries a !! (d', nm') = None) -> cleared keep a (d', nm') b -> collected (drop_entry (d, nm) b) c ->
    name_step keep a (Rename d nm d' nm' h) 0 (put_entry (d', nm') ino c)
| step_rename_full d nm d' nm' h ino b c : entries a !! (d, nm) = Some ino -> (h = true -> entries a !! (d', nm') = None) -> cleared keep a (d', nm') b -> collected (drop_entry (d, nm) b) c ->
    name_step keep a (Rename d nm d' nm' h) (- ENOMEM) c
| step_exchange d nm d' nm' b c : vacated a (d, nm) b -> vacated b (d', nm') c ->
    name_step keep a (Exchange d nm d' nm') 0 (put_maybe (d, nm) (entries a !! (d', nm')) (put_maybe (d', nm') (entries a !! (d, nm)) c))
| step_exchange_full d nm d' nm' b c (first : bool) : vacated a (d, nm) b -> vacated b (d', nm') c ->
    name_step keep a (Exchange d nm d' nm') (- ENOMEM) (if first then put_maybe (d', nm') (entries a !! (d, nm)) c else c).
(** What the kernel keeps to: it names directories it holds, forgets no more than it looked
    up, and moves no directory below itself. *)
Definition may_unlink (keep : bool) (a : names) (e : Z * string) : Prop :=
  forall ino k, keep = true -> entries a !! e = Some ino -> counts a !! ino = Some k -> 1 < k.
Definition may_drop (a : names) (e : Z * string) : Prop := forall ino, entries a !! e = Some ino -> kept_dir a e.1.
Definition may_move (a : names) (e : Z * string) (d : Z) : Prop :=
  forall ino, entries a !! e = Some ino -> kept_dir a e.1 /\ kept_dir a d /\ ~ under a d ino.
Definition countable (a : names) (ino : Z) : Prop := forall k, counts a !! ino = Some k -> k < 2 ^ 64 - 1.
Definition allowed (keep : bool) (a : names) (op : name_op) : Prop :=
  match op with
  | Lookup ino None => is_Some (counts a !! ino) /\ countable a ino
  | Lookup par (Some nm) => is_Some (counts a !! par) /\ forall ino, entries a !! (par, nm) = Some ino -> countable a ino
  | Forget ino n => ino = FUSE_ROOT_ID \/ exists k, counts a !! ino = Some k /\ 0 < k /\ 0 <= n <= k
  | Remove dir nm => may_drop a (dir, nm) /\ may_unlink keep a (dir, nm)
  | Rename d nm d' nm' h => (d, nm) <> (d', nm') /\ (h = false -> may_unlink keep a (d', nm')) /\ may_move a (d, nm) d'
  | Exchange d nm d' nm' => (d, nm) <> (d', nm') /\ may_move a (d, nm) d' /\ may_move a (d', nm') d
  end.

(** What is left after a name went away. *)
Lemma drop_collected d nm a b x : collected (drop_entry (d, nm) a) b ->
  entries b !! (d, nm) = None /\ (kept_dir a x -> kept_dir b x) /\
  (alive a x -> ~ under a d x -> (is_Some (counts a !! x) -> is_Some (counts b !! x)) /\
     forall e, entries a !! e = Some x -> e <> (d, nm) -> entries b !! e = Some x).
Proof.
  intros [C1 C2]. split; [|split].
  - destruct (entries b !! (d, nm)) as [i|] eqn:E; [|done]. apply C1 in E as [E _]. cbn in E. by rewrite lookup_delete_eq in E.
  - intros (k & Hk & Hpos). exists k. split; [|done]. apply C2. split; [done|]. by apply (alive_counted _ x k).
  - intros Ha Hu. pose proof (alive_drop d nm a x Ha Hu) as Ha'. split.
    + intros [k Hk]. exists k. by apply C2.
    + intros e He Hne. apply C1. split; [|done]. cbn. by rewrite lookup_delete_ne.
Qed.
Lemma unlinked_keeps keep a d nm b x : unlinked keep a (d, nm) b -> may_unlink keep a (d, nm) ->
  entries b !! (d, nm) = None /\ (forall e i, entries b !! e = Some i -> entries a !! e = Some i) /\ (kept_dir a x -> kept_dir b x) /\
  (alive a x -> ~ under a d x -> (is_Some (counts a !! x) -> is_Some (counts b !! x)) /\
     forall e, entries a !! e = Some x -> e <> (d, nm) -> entries b !! e = Some x).
Proof.
  intros (ino & k & He & Hk & Hc) Hm. set (a1 := if keep then _ else a) in *.
  assert (entries a1 = entries a) as E1 by (unfold a1; by destruct keep).
  assert (alive a x -> alive a1 x) as E2 by (unfold a1; destruct keep; [apply alive_recount; specialize (Hm ino k eq_refl He Hk); lia|done]).
  assert (kept_dir a x -> kept_dir a1 x) as E3.
  { unfold a1. destruct keep; [|done]. intros (k' & Hk' & Hp). destruct (decide (x = ino)) as [->|Hne].
    - exists (k - 1). split; [apply lookup_insert_eq|]. specialize (Hm ino k eq_refl He Hk). lia.
    - exists k'. cbn. by rewrite lookup_insert_ne. }
  assert (is_Some (counts a !! x) -> is_Some (counts a1 !! x)) as E4.
  { unfold a1. destruct keep; [|done]. cbn. intros [v Hv]. destruct (decide (x = ino)) as [->|]; [rewrite lookup_insert_eq; by eexists|].
    rewrite lookup_insert_ne by done. by exists v. }
  destruct (drop_collected d nm a1 b x Hc) as (F1 & F2 & F3). split; [done|]. split; [|split; [auto|]].
  - intros e i Hb. apply (collected_sub _ _ _ _ Hc), drop_sub in Hb. by rewrite <- E1.
  - intros Ha Hu. destruct (F3 (E2 Ha)) as [G1 G2].
    + intros H. apply Hu. by apply (under_sub a a1 d x); [intros e i; rewrite E1|].
    + split; [auto|]. intros e. rewrite <- E1. apply G2.
Qed.

(** A new edge makes the old ways longer, and no others. *)
Lemma under_put a e ino x y : under (put_entry e ino a) x y -> under a x y \/ under a x ino.
Proof.
  induction 1 as [x|x z y [nm He] _ IH]; [left; constructor|]. cbn in He. apply lookup_insert_Some in He as [[_ <-]|[_ He]]; [right; constructor|].
  destruct IH; [left|right]; (eapply rtc_l; [by exists nm|done]).
Qed.
Lemma no_loop s d nm ino : ready s -> entries (view s) !! (d, nm) = Some ino -> ~ under (view s) d ino.
Proof.
  intros (Hs & _ & rank & Hrk) He Hu. pose proof (view_sees s Hs) as [V1 _].
  assert (forall x y, under (view s) x y -> forall p q n m, nodes s !! p = Some n -> nodes s !! q = Some m -> nodeid n = x -> nodeid m = y -> (rank q <= rank p)%nat) as Hle.
  { induction 1 as [x|x z y [nm' Hz] _ IH]; intros p q n m Hp Hq Ep Eq.
    - assert (p = q) as -> by (eapply (shape_inj s); [done..|congruence]). done.
    - apply V1 in Hz as (p' & r & n' & rn & _ & Hp' & Hr & _ & Hrn & Er & Ep'). assert (p' = p) as -> by (eapply (shape_inj s); [done..|congruence]).
      specialize (IH r q rn m Hrn Hq Er Eq). pose proof (Hrk p n' r Hp' Hr). lia. }
  apply V1 in He as (p & pp & n & pn & _ & Hp & Hpp & _ & Hpn & E1 & E2). pose proof (Hle _ _ Hu pp p pn n Hpn Hp E1 E2). pose proof (Hrk p n pp Hp Hpp). lia.
Qed.
Lemma vacated_keeps a d nm b x : vacated a (d, nm) b ->
  entries b !! (d, nm) = None /\ (forall e i, entries b !! e = Some i -> entries a !! e = Some i) /\ (kept_dir a x -> kept_dir b x) /\
  (alive a x -> ~ under a d x -> (is_Some (counts a !! x) -> is_Some (counts b !! x)) /\
     forall e, entries a !! e = Some x -> e <> (d, nm) -> entries b !! e = Some x).
Proof.
  unfold vacated. destruct (entries a !! (d, nm)) eqn:He; [|by intros ->]. intros Hc. destruct (drop_collected d nm a b x Hc) as (F1 & F2 & F3).
  split; [done|]. split; [|done]. intros e i Hb. by apply (collected_sub _ _ _ _ Hc), drop_sub in Hb.
Qed.

Section Operations.
Variable mem : nat -> bool.
Definition run_op (op : name_op) : hl Z :=
  match op with
  | Lookup par nm => r ← find_node mem par nm; match r with Some p => n ← deref p; mret (nodeid n) | None => mret 0 end
  | Forget ino n => done ← forget_node mem 0 ino n; mret (if done : bool then 0 else 1)
  | Remove dir nm => _ ← remove_node mem dir nm; mret 0
  | Rename d nm d' nm' h => rename_node mem d nm d' nm' h
  | Exchange d nm d' nm' => exchange_node mem d nm d' nm'
  end.
Definition keeps (s : fuse) : bool := negb (remember (conf s) =? 0).

Lemma recount_ready s p n v : ready s -> nodes s !! p = Some n -> 0 < nlookup n -> 0 < v ->
  let s' := set_nodes (<[p := set_nlookup v n]> (nodes s)) s in ready s' /\ view s' = set_count (nodeid n) v (view s).
Proof.
  intros Hr Hn Hk Hv s'. pose proof (ready_good s Hr) as [(Hs & Hrf & rank & Hrk) HK]. assert (same_key n (set_nlookup v n)) as Hsk by done.
  assert (shape [] [] s') as Hs'. { apply (shape_ext [] [] s); try done. by apply (same_keys_update _ p n). }
  split; [split; [done|split]|].
  - intros q m Hq. cbn in Hq. assert (children s' q = children s q) as ->.
    { apply children_ext; [done|]. intros c _. apply (same_keys_parent (nodes s)). by apply (same_keys_update _ p n). }
    destruct (decide (q = p)) as [->|Hqp]; [|rewrite lookup_insert_ne in Hq by done; by apply Hrf].
    rewrite lookup_insert_eq in Hq. injection Hq as <-. destruct (Hrf p n Hn) as (E & R1 & R2 & R3). unfold lookups_hold in *. cbn.
    destruct (Z.ltb_spec 0 (nlookup n)); [|lia]. destruct (Z.ltb_spec 0 v); [|lia]. split; [done|]. split; [lia|]. split; [done|]. lia.
  - exists rank. eapply ranked_ext; [|exact Hrk]. intros q m pp Hq Hpp. cbn in Hq. destruct (decide (q = p)) as [->|]; [|exists m; by rewrite lookup_insert_ne in Hq].
    rewrite lookup_insert_eq in Hq. injection Hq as <-. by exists n.
  - apply (sees_eq None s'); [by apply view_sees|]. apply (sees_recount None s s' _ p n (set_nlookup v n)); try done. by apply view_sees.
Qed.
(** Changing what the view does not show. *)
Lemma touch_ready s s' p n n' : ready s -> nodes s !! p = Some n -> same_key n n' -> refctr n' = refctr n -> nlookup n' = nlookup n -> treelock n' = treelock n ->
  nodes s' = <[p := n']> (nodes s) -> name_table s' = name_table s -> id_table s' = id_table s -> next_ptr s' = next_ptr s ->
  ready s' /\ view s' = view s.
Proof.
  intros Hr Hn Hk E1 E2 E3 En Et Ei Ep. pose proof Hr as (Hs & Hrf & rank & Hrk).
  assert (same_keys (nodes s) (nodes s')) as Hsk by (rewrite En; by apply (same_keys_update _ p n)).
  assert (shape [] [] s') as Hs' by (apply (shape_ext [] [] s); try done; lia).
  assert (forall q m', nodes s' !! q = Some m' -> exists m, nodes s !! q = Some m /\ same_key m m' /\ refctr m' = refctr m /\ nlookup m' = nlookup m /\ treelock m' = treelock m) as Hback.
  { intros q m' Hq. rewrite En in Hq. destruct (decide (q = p)) as [->|Hqp]; [rewrite lookup_insert_eq in Hq; injection Hq as <-; by exists n|].
    rewrite lookup_insert_ne in Hq by done. by exists m'. }
  split; [split; [done|split]|].
  - intros q m' Hq. destruct (Hback q m' Hq) as (m & Hm & _ & F1 & F2 & _). unfold lookups_hold. rewrite F1, F2.
    assert (children s' q = children s q) as -> by (apply children_ext; [by rewrite Et|]; intros c _; by apply same_keys_parent). by apply Hrf.
  - exists rank. eapply ranked_ext; [|exact Hrk]. intros q m' pp Hq Hpp. destruct (Hback q m' Hq) as (m & Hm & (_ & F & _) & _). exists m. split; [done|congruence].
  - apply (sees_eq None s'); [by apply view_sees|]. pose proof (sees_recount None s s' (view s) p n n' Hs (view_sees s Hs) Hn En Hk) as Hv.
    replace (set_count (nodeid n) (nlookup n') (view s)) with (view s) in Hv; [done|]. unfold set_count. rewrite insert_id; [by destruct (view s)|].
    rewrite E2. by apply (view_sees s Hs); exists p, n.
Qed.
(** [unlink_node], with what its nodes are afterwards. *)
Definition stays (s s' : fuse) : Prop := forall x n k, nodes s !! x = Some n -> counts (view s') !! nodeid n = Some k ->
  exists n', nodes s' !! x = Some n' /\ nodeid n' = nodeid n.
Lemma unlink_ok s d nm p n : ready s -> names_node s d nm p n -> kept_dir (view s) d -> (keeps s = true -> 1 < nlookup n) ->
  exists s', unlink_node mem p s = Done tt s' /\ ready s' /\ around (eq p) s s' /\ stays s s' /\ unlinked (keeps s) (view s) (d, nm) (view s').
Proof.
  intros Hr Hp Hd Hk. pose proof Hp as (Hn & H0 & Hlink). pose proof Hr as (Hs & _).
  assert (entries (view s) !! (d, nm) = Some (nodeid n)) as He. { destruct Hlink as (pp & pn & E1 & E2 & E3 & E4). apply (view_sees s Hs). by exists p, pp, n, pn. }
  pose proof (view_count s p n Hs Hn) as Hc. unfold unlink_node. unfold keeps in *. step ltac:(exact eq_refl). destruct (remember (conf s) =? 0); cbn [negb] in *.
  - step ltac:(exact eq_refl). destruct (vacate_ok mem s d nm p n Hr Hp Hd) as (s' & Hrun & Hr' & Hf & Hw & Hcol). pose proof Hr' as (Hs' & _).
    exists s'. split; [done|]. split; [done|]. split; [done|].
    split; [intros x m k Hx Hkx; by apply (swept_same (Some p) s s' x m k)|]. by exists (nodeid n), (nlookup n).
  - specialize (Hk eq_refl). destruct (recount_ready s p n (nlookup n - 1) Hr Hn) as [Hr1 Hv1]; [lia..|]. set (s1 := set_nodes _ s) in *.
    assert (same_keys (nodes s) (nodes s1)) as Hsk by (by apply (same_keys_update _ p n)).
    assert (names_node s1 d nm p (set_nlookup (nlookup n - 1) n)) as Hp1.
    { split; [apply lookup_insert_eq|]. split; [done|]. destruct Hlink as (pp & pn & E1 & E2 & E3 & E4). specialize (Hsk pp). rewrite E3 in Hsk.
      destruct (nodes s1 !! pp) as [pn'|] eqn:Hpn'; [|done]. exists pp, pn'. destruct Hsk as (E & _). split_and!; [done|done|done|congruence]. }
    assert ((n0 ← deref p; _ ← passert (1 <? nlookup n0); update p (set_nlookup (nlookup n0 - 1))) s = Done tt s1) as E1.
    { step ltac:(by apply deref_some). destruct (Z.ltb_spec 1 (nlookup n)); [|lia]. step ltac:(exact eq_refl). by apply update_some. }
    assert (kept_dir (view s1) d) as Hd1.
    { rewrite Hv1. destruct Hd as (k & Hkd & Hpos). unfold kept_dir. cbn. destruct (decide (d = nodeid n)) as [->|].
      - exists (nlookup n - 1). rewrite lookup_insert_eq. split; [done|lia].
      - exists k. by rewrite lookup_insert_ne. }
    step ltac:(exact E1). destruct (vacate_ok mem s1 d nm p _ Hr1 Hp1 Hd1) as (s' & Hrun & Hr' & Hf & Hw & Hcol). pose proof Hr' as (Hs' & _).
    exists s'. split; [done|]. split; [done|]. split.
    { apply (around_trans _ s s1 s'); [|done]. split; [done|]. split; [done|]. by apply (mild_update _ s s1 p n (set_nlookup (nlookup n - 1) n)). }
    split; [|exists (nodeid n), (nlookup n); by rewrite Hv1 in Hcol].
    intros x m k Hx Hkx. pose proof (Hsk x) as Hskx. rewrite Hx in Hskx. destruct (nodes s1 !! x) as [m1|] eqn:Hm1; [|done]. destruct Hskx as (Em & _).
    rewrite <- Em in *. apply (swept_same (Some p) s1 s' x m1 k); try done. by destruct Hr1 as (? & _).
Qed.

(** The names an operation takes away, and their nodes. *)
Definition named_by (op : name_op) : list (Z * string) :=
  match op with
  | Remove d nm => [(d, nm)] | Rename d nm d' nm' _ | Exchange d nm d' nm' => [(d, nm); (d', nm')] | _ => []
  end.
Definition target (s : fuse) (op : name_op) (p : nat) : Prop :=
  exists n e, nodes s !! p = Some n /\ e ∈ named_by op /\ entries (view s) !! e = Some (nodeid n).
(** A forgetting that has to wait. *)
Definition forget_waits (thread : nat) (ino : Z) : waiter := {| wt_thread := thread; wt_for := ForUnlock ino; wt_signal := false; wt_done := None |}.
Definition queued (op : name_op) (r : Z) : list waiter := match op with Forget ino _ => if r =? 1 then [forget_waits 0 ino] else [] | _ => [] end.
Definition does (s : fuse) (op : name_op) (r : Z) (s' : fuse) : Prop :=
  ready s' /\ around (target s op) s (set_lockq (lockq s) s') /\ lockq s' = lockq s ++ queued op r /\ name_step (keeps s) (view s) op r (view s').
Lemma does_around s op r s' : ready s' /\ around (target s op) s s' /\ name_step (keeps s) (view s) op r (view s') -> queued op r = [] -> does s op r s'.
Proof.
  intros (Hr & ([Ho Hlq] & Hc & Hm) & Hstep) Hq. split; [done|]. split; [split; [done|split; [done|exact Hm]]|]. split; [|done]. by rewrite Hq, app_nil_r.
Qed.
Lemma under_lock_does (body : hl Z) op s : ready s -> "lock" ∉ owned s -> (forall r, queued op r = []) ->
  (let s0 := set_owned ({["lock"]} ∪ owned s) s in ready s0 -> exists r s', body s0 = Done r s' /\ ready s' /\ around (target s op) s0 s' /\ name_step (keeps s) (view s) op r (view s')) ->
  exists r s', with_lock "lock" body s = Done r s' /\ does s op r s'.
Proof.
  intros Hr Hl Hq Hb. destruct (under_lock body (target s op) s (fun r s' => name_step (keeps s) (view s) op r (view s')) Hr Hl) as (r & s' & Hrun & H); [done|done|].
  exists r, s'. split; [done|]. by apply does_around.
Qed.
Lemma named_target s op d nm p n : names_node s d nm p n -> entries (view s) !! (d, nm) = Some (nodeid n) -> (d, nm) ∈ named_by op -> forall q, p = q -> target s op q.
Proof. intros (Hn & _) He Hin q <-. by exists n, (d, nm). Qed.
Lemma op_remove s dir nm : ready s -> "lock" ∉ owned s -> allowed (keeps s) (view s) (Remove dir nm) ->
  exists r s', run_op (Remove dir nm) s = Done r s' /\ does s (Remove dir nm) r s'.
Proof.
  intros Hr Hl [Hd Ha]. destruct (under_lock (r ← lookup_node dir nm; match r with Some p => unlink_node mem p | None => mret tt end) (target s (Remove dir nm)) s
    (fun _ s' => cleared (keeps s) (view s) (dir, nm) (view s'))) as ([] & s' & Hrun & Hr' & Ho & Hq); try done.
  { intros s0 Hr0. destruct (lookup_view s0 dir nm Hr0) as (r & Hlk & Hspec). step ltac:(exact Hlk). unfold cleared. change (view s) with (view s0) in *. destruct r as [p|].
    - destruct Hspec as (n & Hp & He). rewrite He. destruct (unlink_ok s0 dir nm p n Hr0 Hp) as (s' & Hrun & Hr' & Ho & _ & Hu).
      + by apply (Hd (nodeid n)).
      + intros Hk. apply (Ha (nodeid n)); [done|done|]. destruct Hr0 as (Hs0 & _). destruct Hp as [Hn _]. by apply (view_count s0 p n).
      + exists tt, s'. split; [done|]. split; [done|]. split; [|done]. apply (around_mono (eq p)); [|done]. apply (named_target s0 _ dir nm p n Hp He). left.
    - rewrite Hspec. exists tt, s0. split; [done|]. split; [done|]. split; [apply around_refl|done]. }
  exists 0, s'. split; [cbn [run_op]; by step ltac:(exact Hrun)|]. apply does_around; [|done]. split; [done|]. split; [done|]. by apply step_remove.
Qed.

Lemma unref_node_rounds s p n : nodes s !! p = Some n ->
  unref_node mem p s = unref_with mem (unhash_rounds mem (S (base.size (nodes s)))) p s.
Proof.
  intros Hn. unfold unref_node, unref_with. rewrite !(bind_done _ _ _ _ _ (deref_some p s n Hn)). unfold passert.
  destruct (0 <? refctr n); [|done]. rewrite !(bind_done (mret tt) _ s tt s eq_refl).
  rewrite !(bind_done _ _ _ _ _ (update_some p (set_refctr (refctr n - 1)) s n Hn)). destruct (refctr n - 1 =? 0); [|done].
  set (s1 := set_nodes _ s). assert (nodes s1 !! p = Some (set_refctr (refctr n - 1) n)) as Hn1 by apply lookup_insert_eq.
  unfold delete_with. rewrite !(bind_done _ _ _ _ _ (deref_some p s1 _ Hn1)). unfold passert. destruct (_ =? 0); [|done].
  rewrite !(bind_done (mret tt) _ s1 tt s1 eq_refl). assert (base.size (nodes s) = base.size (nodes s1)) as ->; [|done].
  symmetry. apply map_size_insert_Some. by exists n.
Qed.
(** Everything that is locked lives on when [ino] is looked up only [v] times. *)
Definition spared (s : fuse) (ino v : Z) : Prop := forall q m, nodes s !! q = Some m -> treelock m <> 0 -> alive (set_count ino v (view s)) (nodeid m).
Lemma forget_last_ok s p n count : ready s -> nodes s !! p = Some n -> p <> 0%nat -> 0 < nlookup n -> 0 <= count <= nlookup n -> (nlookup n = count -> spared s (nodeid n) 0) ->
  exists s', forget_last mem p count s = Done tt s' /\ ready s' /\ around (fun _ => False) s s' /\
    collected (set_count (nodeid n) (nlookup n - count) (view s)) (view s').
Proof.
  intros Hr Hn H0 Hpos Hc Hpin. unfold forget_last. step ltac:(by apply deref_some). unfold passert. destruct (Z.leb_spec count (nlookup n)); [|lia].
  step ltac:(exact eq_refl). step ltac:(by apply update_some). step ltac:(exact eq_refl).
  pose proof Hr as (Hs & Hrf & rank & Hrk). set (n1 := set_nlookup (nlookup n - count) n). set (s1 := set_nodes (<[p := n1]> (nodes s)) s).
  assert (same_keys (nodes s) (nodes s1)) as Hsk by (by apply (same_keys_update _ p n)).
  assert (shape [] [] s1) as Hs1 by (by apply (shape_ext [] [] s)).
  assert (nodes s1 !! p = Some n1) as Hn1 by apply lookup_insert_eq. assert (forall q, q <> p -> nodes s1 !! q = nodes s !! q) as Hne by (intros; by apply lookup_insert_ne).
  assert (sees None s1 (set_count (nodeid n) (nlookup n - count) (view s))) as Hv1.
  { apply (sees_recount None s s1 _ p n n1); try done. by apply view_sees. }
  assert (around (fun _ => False) s s1) as Har1 by (split; [done|]; split; [done|]; by apply (mild_update _ s s1 p n n1)).
  assert (nlookup n - count = 0 -> secure None s1) as Hu1.
  { intros Hz q m Hq Hl. destruct (same_keys_lookup _ _ q m Hsk Hq) as (m0 & Hm0 & Eid & _).
    apply (live_alive None s1 _ q m Hs1 Hv1 Hq). rewrite Hz, Eid. apply (Hpin ltac:(lia) q m0 Hm0).
    destruct (decide (q = p)) as [->|Hqp]; [|rewrite Hne in Hq by done; congruence].
    rewrite Hn1 in Hq. injection Hq as <-. by assert (m0 = n) as -> by congruence. }
  destruct (Z.eqb_spec (nlookup n - count) 0) as [Hz|Hz].
  - destruct (unref_ok mem (S (base.size (nodes s1))) (unhash_rounds_ok mem _) p n1 s1 [] [] (live None s1) rank) as (s' & Hrun & Hs' & Hrf' & Hrk' & HK' & Hf & Hkept & _); try done.
    + intros q m Hq. assert (children s1 q = children s q) as -> by (apply children_ext; [done|]; intros c _; by apply same_keys_parent).
      destruct (decide (q = p)) as [->|Hqp].
      * rewrite Hn1 in Hq. injection Hq as <-. destruct (Hrf p n Hn) as (E & R1 & R2 & R3). rewrite decide_True by done. rewrite decide_False in E by done.
        unfold lookups_hold in *. cbn. rewrite Hz. destruct (Z.ltb_spec 0 (nlookup n)); [|lia]. cbn. split; [lia|]. split; [lia|]. split; [done|]. done.
      * rewrite Hne in Hq by done. destruct (Hrf q m Hq) as (E & Rest). rewrite decide_False in E by done. rewrite decide_False by congruence. done.
    + eapply ranked_ext; [|exact Hrk]. intros q m pp Hq Hpp. destruct (decide (q = p)) as [->|]; [|exists m; by rewrite <- Hne].
      rewrite Hn1 in Hq. injection Hq as <-. by exists n.
    + by apply live_guarded, Hu1.
    + cbn. lia.
    + exists s'. split.
      { by rewrite (unref_node_rounds s1 p n1 Hn1). }
      assert (swept None s1 s') as Hw. { intros q. rewrite decide_False by done. apply Hkept. }
      assert (tree_ok s') as Ht' by (split; [done|split; [done|by exists rank]]).
      split; [done|]. split; [|by apply (swept_collected None s1 s')]. apply (around_trans _ s s1 s'); [done|].
      destruct (frame_owned _ _ Hf). split; [done|]. split; [done|]. by apply (mild_swept _ None); [|apply frame_next|].
  - destruct (recount_ready s p n (nlookup n - count) Hr Hn Hpos) as [Hr1 Hvw]; [lia|]. fold n1 s1 in Hr1, Hvw.
    exists (if lru_enabled s1 && (nlookup n - count =? 1) then set_nodes (<[p := set_forgotten (clock s1) n1]> (nodes s1)) (set_lru (filter (fun q => q <> p) (lru_table s1) ++ [p]) s1) else s1).
    replace (nlookup n - count) with (nlookup n1) in Hvw |- * by done. rewrite <- Hvw.
    assert (forall l f, let s' := set_nodes (<[p := set_forgotten f n1]> (nodes s1)) (set_lru l s1) in ready s' /\ view s' = view s1) as Hlru.
    { intros l f. by apply (touch_ready s1 _ p n1 (set_forgotten f n1)). }
    assert (forall s', s' = s1 \/ view s' = view s1 -> ready s' -> collected (view s1) (view s')) as Hcol.
    { intros s' Hs' Hrs'. assert (view s' = view s1) as -> by (by destruct Hs' as [->|]).
      split; intros; (split; [intros H1; split; [done|]|by intros []]); [|by eapply ready_alive].
      apply (view_sees s1 Hs1) in H1 as (q & qq & m & mn & _ & Hm & _ & _ & _ & _ & <-). by eapply ready_alive, view_count. }
    destruct (lru_enabled s1 && (nlookup n1 =? 1)).
    + destruct (Hlru (filter (fun q => q <> p) (lru_table s1) ++ [p]) (clock s1)) as [Hr2 Hv2].
      split; [|split; [exact Hr2|split; [|apply Hcol; [by right|done]]]].
      * unfold set_forget_time. step ltac:(exact eq_refl). step ltac:(exact eq_refl). exact (update_some p _ (set_lru (filter (fun q => q <> p) (lru_table s1) ++ [p]) s1) n1 Hn1).
      * apply (around_trans _ s s1); [done|]. split; [done|]. split; [done|]. by apply (mild_update _ s1 _ p n1 (set_forgotten (clock s1) n1)).
    + split; [done|]. split; [done|]. split; [done|]. apply Hcol; [by left|done].
Qed.

Lemma root_is_zero s p n : shape [] [] s -> nodes s !! p = Some n -> nodeid n <> FUSE_ROOT_ID -> p <> 0%nat.
Proof. intros Hs Hn Hid ->. destruct (sh_root _ _ _ Hs) as (r & Hr & E & _). apply Hid. congruence. Qed.
(** A forgotten node leaves what is locked alone, or waits because it is locked. *)
Definition unhurt (s : fuse) (op : name_op) : Prop :=
  match op with
  | Forget ino n => forall p m, nodes s !! p = Some m -> nodeid m = ino -> nlookup m = n -> treelock m <> 0 \/ spared s ino 0
  | _ => True
  end.
Definition unlocked (s : fuse) : Prop := forall p n, nodes s !! p = Some n -> treelock n = 0.
Lemma unlocked_unhurt s op : unlocked s -> unhurt s op.
Proof. intros Hu. destruct op; try done. intros p m _ _ _. right. intros q x Hq Hl. destruct (Hl (Hu q x Hq)). Qed.
(** It waits for a locked node; it is done with any other. *)
Lemma forget_node_ok thread s ino n : ready s -> "lock" ∉ owned s -> unhurt s (Forget ino n) -> allowed (keeps s) (view s) (Forget ino n) ->
  exists b s', forget_node mem thread ino n s = Done b s' /\ ready s' /\
    around (fun _ => False) s (set_lockq (lockq s) s') /\ lockq s' = lockq s ++ (if b then [] else [forget_waits thread ino]) /\
    name_step (keeps s) (view s) (Forget ino n) (if b then 0 else 1) (view s') /\
    (ino <> FUSE_ROOT_ID -> exists p m, nodes s !! p = Some m /\ nodeid m = ino /\ b = negb ((nlookup m =? n) && negb (treelock m =? 0))).
Proof.
  intros Hr Hl Hpin Ha. unfold forget_node. destruct (Z.eqb_spec ino FUSE_ROOT_ID) as [->|Hne].
  { exists true, s. split; [reflexivity|]. split; [done|]. split; [split; [done|split; [done|by apply mild_same]]|]. rewrite app_nil_r. split; [done|]. split; [apply step_forget_root|done]. }
  destruct Ha as [?|(k & Hk & Hpos & Hn)]; [done|]. pose proof Hr as (Hs & _). destruct (view_node s ino k Hs Hk) as (p & m & Hm & <- & <-).
  destruct ((nlookup m =? n) && negb (treelock m =? 0)) eqn:Hwait.
  - exists false, (set_lockq (lockq s ++ [forget_waits thread (nodeid m)]) s). split; [|split; [|split; [|split; [done|split; [by apply step_forget_waits|intros _; exists p, m; by rewrite Hwait]]]]].
    + set (s0 := set_owned ({["lock"]} ∪ owned s) s). rewrite (with_lock_done "lock" _ s false (set_lockq (lockq s ++ [forget_waits thread (nodeid m)]) s0)); [by destruct s|done| |done].
      change (set_held _ s) with s0. step ltac:(exact (get_node_spec [] [] s0 p m (tree_eq_shape [] [] s s0 ltac:(by split_and!) Hs) Hm (not_elem_of_nil p))).
      step ltac:(by apply deref_some). rewrite Hwait. reflexivity.
    + by apply (tree_eq_good (live None s) s); [|apply ready_good].
    + split; [done|split; [done|by apply mild_same]].
  - destruct (under_lock (p ← get_node (nodeid m); n0 ← deref p;
      if (nlookup n0 =? n) && negb (treelock n0 =? 0) then
        _ ← queue_path thread (ForUnlock (nodeid m)); mret false
      else _ ← forget_last mem p n; mret true) (fun _ => False) s
      (fun b s' => b = true /\ collected (set_count (nodeid m) (nlookup m - n) (view s)) (view s'))) as (b & s' & Hrun & Hr' & Ho & -> & Hq); try done.
    { intros s0 Hr0. pose proof Hr0 as (Hs0 & _). step ltac:(exact (get_node_spec [] [] s0 p m Hs0 Hm (not_elem_of_nil p))).
      step ltac:(by apply deref_some). rewrite Hwait.
      destruct (forget_last_ok s0 p m n Hr0 Hm) as (s' & Hrun & Hr' & Ho & Hq); [by eapply root_is_zero|done|done| |].
      { intros E. destruct (Hpin p m Hm eq_refl E) as [Hl'|Hsp]; [|exact Hsp]. destruct (Z.eqb_spec (nlookup m) n); [|done]. destruct (Z.eqb_spec (treelock m) 0); done. }
      exists true, s'. by split; [step ltac:(exact Hrun)|]. }
    exists true, s'. split; [done|]. split; [done|]. destruct Ho as ([Ho Hlq] & Hc & Hmild). split; [split; [done|split; [done|exact Hmild]]|]. rewrite app_nil_r. split; [done|].
    split; [by apply (step_forget _ _ _ (nlookup m))|]. intros _. exists p, m. by rewrite Hwait.
Qed.
Lemma op_forget s ino n : ready s -> "lock" ∉ owned s -> unhurt s (Forget ino n) -> allowed (keeps s) (view s) (Forget ino n) ->
  exists r s', run_op (Forget ino n) s = Done r s' /\ does s (Forget ino n) r s'.
Proof.
  intros Hr Hl Hpin Ha. destruct (forget_node_ok 0 s ino n Hr Hl Hpin Ha) as (b & s' & Hrun & Hr' & Ho & Hq & Hstep & _).
  exists (if b then 0 else 1), s'. split; [cbn [run_op]; by step ltac:(exact Hrun)|]. split; [done|].
  split; [by apply (around_mono (fun _ => False))|]. split; [rewrite Hq; by destruct b|done].
Qed.

Lemma looked_ready s p n s' : ready s -> nodes s !! p = Some n -> good (live None s) s' -> nodes s' = <[p := looked n]> (nodes s) ->
  ready s' /\ view s' = set_count (nodeid n) (nlookup n + 1) (view s).
Proof.
  intros Hr Hn [Ht _] En. pose proof Hr as (Hs & _). split; [done|].
  apply (sees_eq None s'); [apply view_sees; by destruct Ht|]. replace (nlookup n + 1) with (nlookup (looked n)) by (unfold looked; by destruct (_ =? _)).
  apply (sees_recount None s s' _ p n); try done; [by apply view_sees|apply looked_key].
Qed.
Definition found (s : fuse) (op : name_op) (r : option nat) (s' : fuse) : Prop :=
  match r with
  | Some p => exists n, nodes s' !! p = Some n /\ name_step (keeps s) (view s) op (nodeid n) (view s')
  | None => name_step (keeps s) (view s) op 0 (view s')
  end.
Lemma found_hit s op p n : ready s -> nodes s !! p = Some n -> nlookup n < 2 ^ 64 - 1 ->
  name_step (keeps s) (view s) op (nodeid n) (set_count (nodeid n) (nlookup n + 1) (view s)) ->
  exists r s', (n ← deref p; s ← pget; _ ← (if lru_enabled s && (nlookup n =? 1) then remove_node_lru p else mret tt);
    _ ← inc_nlookup p; mret (Some p)) s = Done r s' /\ ready s' /\ around (target s op) s s' /\ found s op r s'.
Proof.
  intros Hr Hn Hlt Hstep. pose proof (ready_good s Hr) as Hg. exists (Some p), (find_hit p n s). split; [by eapply find_hit_run|].
  destruct (find_hit_good _ s p n Hg Hn) as (Hg' & Hst & En & _). destruct (looked_ready s p n _ Hr Hn Hg' En) as [Hr' Hv].
  split; [done|]. destruct Hst as (E1 & E0 & _ & _ & E2 & _). split.
  { split; [done|]. split; [done|]. assert (treelock (looked n) = treelock n) as El by (unfold looked; by destruct (_ =? _)).
    assert (next_ptr (find_hit p n s) = next_ptr s) as Enx by (unfold find_hit, lru_hit; by destruct (_ && _)).
    destruct (looked_key n) as (F1 & F2 & F3). apply (mild_update _ s _ p n (looked n)); try done. by rewrite Enx. }
  exists (looked n). split; [by rewrite En, lookup_insert_eq|].
  rewrite Hv. replace (nodeid (looked n)) with (nodeid n); [done|]. unfold looked. by destruct (_ =? _).
Qed.
Definition room (s : fuse) : Prop := Z.of_nat (base.size (nodes s)) + 4 <= 2 ^ 32.
Lemma find_new s par nm : ready s -> room s -> is_Some (counts (view s) !! par) -> entries (view s) !! (par, nm) = None ->
  exists r s', find_miss mem par nm s = Done r s' /\ ready s' /\ around (target s (Lookup par (Some nm))) s s' /\ found s (Lookup par (Some nm)) r s'.
Proof.
  intros Hr Hroom [k Hk] He. pose proof Hr as (Hs & _). destruct (view_node s par k Hs Hk) as (pp & pn & Hpn & <- & _).
  pose proof (view_sees s Hs) as [V1 V2].
  assert (forall q, ~ linked_at s q pp nm) as Hfree.
  { intros q (m & Hm & E1 & E2). assert (entries (view s) !! (nodeid pn, nm) = Some (nodeid m)); [|congruence]. apply V1. by exists q, pp, m, pn. }
  destruct (find_miss_ok mem (live None s) s pp pn nm (ready_good s Hr) Hpn Hfree Hroom) as (r & s' & Hrun & Hg & Hst & Hspec).
  exists r, s'. split; [done|]. destruct Hst as (F1 & F0 & _ & _ & F2 & F3). destruct Hg as [Ht' _]. pose proof Ht' as (Hs' & _). destruct r as [p|].
  - destruct Hspec as (c & g & -> & En & Hc & Hfr & _). set (p := next_ptr s) in *. set (n := looked (born s c g)) in *.
    destruct (born_ok s c g) as (N1 & N2 & N3 & N4 & N5 & N6).
    assert (nodeid n = c /\ treelock n = 0 /\ nlookup n = if keeps s then 2 else 1) as (M1 & M2 & M3).
    { unfold n, looked, born, keeps. destruct (remember (conf s) =? 0); done. }
    assert (nodes s !! p = None) as Hp. { destruct (nodes s !! p) eqn:E; [|done]. assert (p < next_ptr s)%nat by (apply (sh_fresh _ _ _ Hs); by eexists). unfold p in *. lia. }
    assert (p <> pp) as Hne by congruence.
    split; [done|]. split.
    + split; [done|]. split; [done|]. apply (mild_linked _ s s' p n pp pn nm); try done. by right.
    + exists (set_link (Some pp) (Some nm) n). split; [rewrite En; apply lookup_insert_eq|]. rewrite (view_linked s s' p n pp pn nm Hs Hs' En Hpn Hfree Hne).
      * change (nodeid (set_link (Some pp) (Some nm) n)) with (nodeid n). rewrite M1, M3. apply step_new; [done| |done].
        destruct (counts (view s) !! c) as [x|] eqn:Hx; [|done]. apply V2 in Hx as (q & m & Hq & E & _). exfalso. by eapply Hfr.
      * intros m Hm. congruence.
      * intros q m Hm _. rewrite M1. by apply (Hfr q).
  - destruct Hspec as [En Et]. split; [done|]. split; [split; [done|split; [done|by apply mild_same]]|].
    cbn [found]. assert (view s' = view s) as ->; [|by apply step_full]. apply (sees_eq None s'); [by apply view_sees|].
    split; [intros pr nm' ino; rewrite V1; unfold entry_but; by rewrite En|intros ino k'; rewrite V2; unfold known; by rewrite En].
Qed.

Lemma op_lookup s par nm : ready s -> room s -> "lock" ∉ owned s -> allowed (keeps s) (view s) (Lookup par nm) ->
  exists r s', run_op (Lookup par nm) s = Done r s' /\ does s (Lookup par nm) r s'.
Proof.
  intros Hr Hroom Hl Ha.
  assert (exists r s', find_node mem par nm s = Done r s' /\ ready s' /\ around (target s (Lookup par nm)) s s' /\ found s (Lookup par nm) r s') as (r & s' & Hrun & Hr' & Ho & Hf).
  { unfold find_node. apply under_lock; try done. intros s0 Hr0. pose proof Hr0 as (Hs0 & _). destruct nm as [nm|]; destruct Ha as [Hpar Hcount].
    - destruct (lookup_view s0 par nm Hr0) as (r & Hlk & Hspec). step ltac:(exact Hlk). destruct r as [p|].
      + destruct Hspec as (n & (Hn & _) & He). pose proof (view_count s0 p n Hs0 Hn) as Hk. apply (found_hit s0 _ p n); try done; [by apply (Hcount _ He)|]. by apply step_hit.
      + apply (find_new s0); done.
    - destruct Hpar as [k Hk]. destruct (view_node s0 par k Hs0 Hk) as (p & n & Hn & <- & <-).
      step ltac:(step ltac:(exact (get_node_spec [] [] s0 p n Hs0 Hn (not_elem_of_nil p))); exact eq_refl).
      apply (found_hit s0 _ p n); try done; [by apply Hcount|]. by apply step_self. }
  destruct r as [p|]; cbn [found] in Hf.
  - destruct Hf as (n & Hn & Hst). exists (nodeid n), s'. split; [cbn [run_op]; step ltac:(exact Hrun); by step ltac:(by apply deref_some)|by apply does_around].
  - exists 0, s'. split; [cbn [run_op]; by step ltac:(exact Hrun)|by apply does_around].
Qed.

(** A name moves. *)
Definition move (p : nat) (d : Z) (nm : string) (hide : bool) : hl Z :=
  _ ← unhash_name mem p; hashed ← hash_name mem p d nm;
  if negb (hashed : bool) then mret (- ENOMEM) else _ ← (if hide then update p set_hidden else mret tt); mret 0.
Lemma view_free s nm q pp pn : shape [] [] s -> nodes s !! pp = Some pn -> entries (view s) !! (nodeid pn, nm) = None -> ~ linked_at s q pp nm.
Proof.
  intros Hs Hpn He (m & Hm & E1 & E2). assert (entries (view s) !! (nodeid pn, nm) = Some (nodeid m)); [|congruence].
  apply (view_sees s Hs). by exists q, pp, m, pn.
Qed.
Lemma move_ok s d nm p n d' nm' hide : ready s -> names_node s d nm p n -> kept_dir (view s) d -> kept_dir (view s) d' -> ~ under (view s) d' (nodeid n) ->
  entries (view s) !! (d', nm') = None ->
  exists r s' c, move p d' nm' hide s = Done r s' /\ ready s' /\ around (eq p) s s' /\ collected (drop_entry (d, nm) (view s)) c /\
    (r = 0 /\ view s' = put_entry (d', nm') (nodeid n) c \/ r = - ENOMEM /\ view s' = c).
Proof.
  intros Hr Hp Hd Hdir Hunder Hfree. destruct (vacate_ok mem s d nm p n Hr Hp Hd) as (s1 & Hrun1 & Hr1 & Hf1 & Hw1 & Hc1).
  pose proof Hr1 as (Hs1 & _). destruct Hp as (Hn & H0 & _). pose proof (Hw1 p) as Hp1. rewrite decide_True, Hn in Hp1 by done. cbn in Hp1.
  destruct (drop_collected d nm (view s) (view s1) d' Hc1) as (_ & Hkd & _). destruct (Hkd Hdir) as (k & Hk & _).
  destruct (view_node s1 d' k Hs1 Hk) as (pp & pn & Hpn & <- & _).
  assert (forall e i, entries (view s1) !! e = Some i -> entries (view s) !! e = Some i) as Hsub.
  { intros e i He. by apply (collected_sub _ _ _ _ Hc1), drop_sub in He. }
  destruct (hash_moves mem s1 p _ pp pn nm' Hr1 Hp1) as (b & s2 & Hrun2 & Hr2 & Hf2 & _ & (n2 & Hn2 & _) & Hv2); try done.
  { intros q. apply (view_free s1 nm' q pp pn); try done. destruct (entries (view s1) !! (nodeid pn, nm')) eqn:E; [|done]. apply Hsub in E. congruence. }
  { intros H. apply Hunder. by apply (under_sub _ (view s1)). }
  pose proof (around_trans _ _ _ _ Hf1 Hf2) as Hf.
  unfold move. step ltac:(exact Hrun1). step ltac:(exact Hrun2). destruct b; cbn [negb].
  - destruct hide.
    + destruct (touch_ready s2 (set_nodes (<[p := set_hidden n2]> (nodes s2)) s2) p n2 (set_hidden n2)) as [Hr3 Hv3]; try done.
      exists 0, (set_nodes (<[p := set_hidden n2]> (nodes s2)) s2), (view s1). split; [by step ltac:(by apply update_some)|]. split; [done|]. split.
      { apply (around_trans _ s s2); [done|]. split; [done|]. split; [done|]. by apply (mild_update _ s2 _ p n2 (set_hidden n2)). }
      split; [done|]. left. split; [done|]. by rewrite Hv3.
    + exists 0, s2, (view s1). split; [done|]. split; [done|]. split; [done|]. split; [done|]. by left.
  - exists (- ENOMEM), s2, (view s1). split; [done|]. split; [done|]. split; [done|]. split; [done|]. by right.
Qed.
Lemma move_step s d nm d' nm' hide ino b c v r : entries (view s) !! (d, nm) = Some ino ->
  (hide = true -> entries (view s) !! (d', nm') = None) -> cleared (keeps s) (view s) (d', nm') b ->
  collected (drop_entry (d, nm) b) c -> (r = 0 /\ v = put_entry (d', nm') ino c \/ r = - ENOMEM /\ v = c) ->
  name_step (keeps s) (view s) (Rename d nm d' nm' hide) r v.
Proof. intros He Hh Hb Hc [[-> ->]|[-> ->]]; [by eapply step_rename|by eapply step_rename_full]. Qed.
Lemma op_rename s d nm d' nm' hide : ready s -> "lock" ∉ owned s -> allowed (keeps s) (view s) (Rename d nm d' nm' hide) ->
  exists r s', run_op (Rename d nm d' nm' hide) s = Done r s' /\ does s (Rename d nm d' nm' hide) r s'.
Proof.
  intros Hr Hl (Hne & Hun & Hmv). cbn [run_op]. apply under_lock_does; try done. intros s0 Hr0. change (keeps s) with (keeps s0) in *. change (view s) with (view s0) in *.
  pose proof Hr0 as (Hs0 & _). destruct (lookup_view s0 d nm Hr0) as (r & Hlk & Hspec), (lookup_view s0 d' nm' Hr0) as (r' & Hlk' & Hspec').
  step ltac:(exact Hlk). step ltac:(exact Hlk'). destruct r as [p|]; [|exists 0, s0; split_and!; try done; [apply around_refl|by apply step_rename_none]].
  destruct Hspec as (n & Hp & He). destruct (Hmv _ He) as (Hd & Hdir & Hunder). cbn [fst] in Hd. fold (move p d' nm' hide).
  assert (forall q, p = q -> target s0 (Rename d nm d' nm' hide) q) as Htp by (apply (named_target s0 _ d nm p n Hp He); left). destruct r' as [q|].
  - destruct Hspec' as (m & Hq & He'). destruct hide; [exists (- EBUSY), s0; split_and!; try done; [apply around_refl|by eapply step_rename_busy]|].
    assert (forall x, q = x -> target s0 (Rename d nm d' nm' false) x) as Htq by (apply (named_target s0 _ d' nm' q m Hq He'); right; left).
    specialize (Hun eq_refl). destruct (unlink_ok s0 d' nm' q m Hr0 Hq Hdir) as (s1 & Hrun1 & Hr1 & Ho1 & Hst1 & Hu1).
    { intros Hk. apply (Hun (nodeid m)); [done|done|]. by apply (view_count s0 q m); [|destruct Hq]. }
    destruct Hp as (Hn & H0 & Hlink). pose proof (view_count s0 p n Hs0 Hn) as Hcn.
    destruct (unlinked_keeps _ _ d' nm' _ (nodeid n) Hu1 Hun) as (G1 & G2 & _ & G4).
    destruct (unlinked_keeps _ _ d' nm' _ d' Hu1 Hun) as (_ & _ & G3 & _), (unlinked_keeps _ _ d' nm' _ d Hu1 Hun) as (_ & _ & G3' & _).
    destruct (G4 (ready_alive s0 _ _ Hr0 Hcn) Hunder) as [[k Hk] G6]; clear G4. { by eexists. }
    specialize (G6 (d, nm) He Hne). destruct (Hst1 p n k Hn Hk) as (n1 & Hn1 & Eid). pose proof Hr1 as (Hs1 & _).
    assert (names_node s1 d nm p n1) as Hp1.
    { apply (view_sees s1 Hs1) in G6 as (x & pp & y & pn & _ & Hy & Ep & Enm & Hpn & Ed & Eno). assert (x = p) as -> by (apply (shape_inj s1 x p y n1); [done..|congruence]).
      assert (y = n1) as -> by congruence. split; [done|]. split; [done|]. by exists pp, pn. }
    destruct (move_ok s1 d nm p n1 d' nm' false Hr1 Hp1) as (r & s' & c & Hrun & Hr' & Ho & Hcol & Hres); [auto|auto| |done|].
    { rewrite Eid. intros H. apply Hunder. by apply (under_sub _ (view s1)). }
    exists r, s'. split; [by step ltac:(exact Hrun1)|]. split; [done|]. split.
    { apply (around_trans _ s0 s1); [by apply (around_mono (eq q))|by apply (around_mono (eq p))]. }
    apply (move_step s0 _ _ _ _ _ (nodeid n) (view s1) c); try done; [|by rewrite <- Eid]. unfold cleared. by rewrite He'.
  - destruct (move_ok s0 d nm p n d' nm' hide Hr0 Hp Hd Hdir Hunder Hspec') as (r & s' & c & Hrun & Hr' & Ho & Hcol & Hres).
    exists r, s'. split; [exact Hrun|]. split; [done|]. split; [by apply (around_mono (eq p))|].
    apply (move_step s0 _ _ _ _ _ (nodeid n) (view s0) c); try done. unfold cleared. by rewrite Hspec'.
Qed.

(** ** Exchanging two names *)

Definition slot (s : fuse) (d : Z) (nm : string) (o : option nat) : Prop :=
  match o with
  | Some p => exists n, names_node s d nm p n /\ entries (view s) !! (d, nm) = Some (nodeid n) | None => entries (view s) !! (d, nm) = None
  end.
Definition loose (s : fuse) (p : nat) (ino : Z) : Prop := exists n, nodes s !! p = Some n /\ parent n = None /\ nodeid n = ino.
Definition unhash_maybe (o : option nat) : hl unit := match o with Some p => unhash_name mem p | None => mret tt end.
Lemma unhash_maybe_ok s d nm o : ready s -> slot s d nm o -> may_drop (view s) (d, nm) ->
  exists s', unhash_maybe o s = Done tt s' /\ ready s' /\ around (fun q => o = Some q) s s' /\ swept o s s' /\ vacated (view s) (d, nm) (view s') /\
    forall p, o = Some p -> exists ino, entries (view s) !! (d, nm) = Some ino /\ loose s' p ino.
Proof.
  intros Hr. destruct o as [p|]; cbn [slot unhash_maybe].
  - intros (n & Hp & He) Hd. destruct (vacate_ok mem s d nm p n Hr Hp (Hd _ He)) as (s' & Hrun & Hr' & Hf & Hw & Hc).
    exists s'. split_and!; try done; [apply (around_mono (eq p)); [congruence|done]|unfold vacated; by rewrite He|]. intros q [= <-]. exists (nodeid n). split; [done|].
    specialize (Hw p). destruct Hp as [Hn _]. rewrite decide_True, Hn in Hw by done. by exists (set_link None None n).
  - intros He _. exists s. split_and!; try done; [apply around_refl| |unfold vacated; by rewrite He]. intros q. rewrite decide_False by done. apply kept_refl.
Qed.
Lemma loose_kept o s s' p ino : ready s -> ready s' -> swept o s s' -> loose s p ino -> is_Some (counts (view s') !! ino) -> loose s' p ino.
Proof.
  intros (Hs & _) (Hs' & _) Hw (n & Hn & Hp & <-) [k Hk]. destruct (swept_same o s s' p n k Hs Hs' Hw Hn Hk) as (n' & Hn' & E).
  destruct (swept_back o s s' p n' Hw Hn') as (m & Hm & _ & _ & Hpar). exists n'. split; [done|]. split; [|done].
  assert (m = n) as -> by congruence. destruct (decide (o = Some p)); [done|]. destruct Hpar. congruence.
Qed.
Lemma slot_kept o s s' d nm q : ready s -> ready s' -> swept o s s' -> slot s d nm q ->
  (forall e i, entries (view s') !! e = Some i -> entries (view s) !! e = Some i) ->
  (forall ino, entries (view s) !! (d, nm) = Some ino -> is_Some (counts (view s') !! ino) /\ entries (view s') !! (d, nm) = Some ino) -> slot s' d nm q.
Proof.
  intros Hr Hr' Hw Hq Hsub Hkeep. pose proof Hr as (Hs & _). pose proof Hr' as (Hs' & _). destruct q as [q|]; cbn [slot] in *.
  - destruct Hq as (n & (Hn & H0 & _) & He). destruct (Hkeep _ He) as [[k Hk] He']. destruct (swept_same o s s' q n k Hs Hs' Hw Hn Hk) as (n' & Hn' & E).
    exists n'. rewrite E. split; [|done]. split; [done|]. split; [done|].
    apply (view_sees s' Hs') in He' as (x & pp & y & pn & _ & Hy & Ep & Enm & Hpn & Ed & Eno). assert (x = q) as -> by (apply (shape_inj s' x q y n'); [done..|congruence]).
    assert (y = n') as -> by congruence. by exists pp, pn.
  - destruct (entries (view s') !! (d, nm)) eqn:E; [|done]. apply Hsub in E. congruence.
Qed.
(** A loose node gets a name. *)
Lemma settle_ok s p ino d nm : ready s -> loose s p ino -> ino <> FUSE_ROOT_ID -> kept_dir (view s) d -> entries (view s) !! (d, nm) = None -> ~ under (view s) d ino ->
  exists b s', hash_name mem p d nm s = Done b s' /\ ready s' /\ around (eq p) s s' /\
    (forall q i, q <> p -> loose s q i -> loose s' q i) /\ view s' = if b then put_entry (d, nm) ino (view s) else view s.
Proof.
  intros Hr (n & Hn & Hnp & <-) Hid (k & Hk & _) He Hu. pose proof Hr as (Hs & _). destruct (view_node s d k Hs Hk) as (pp & pn & Hpn & <- & _).
  destruct (hash_moves mem s p n pp pn nm Hr Hn Hnp) as (b & s' & Hrun & Hr' & Hf & Hothers & _ & Hv); try done; [by eapply root_is_zero|intros q; by apply (view_free s nm q pp pn)|].
  exists b, s'. split_and!; try done. intros q i Hq (m & Hm & Hmp & <-). destruct (Hothers q m Hq Hm) as (m' & Hm' & F1 & F2 & _).
  exists m'. split; [done|]. split; congruence.
Qed.

Lemma entry_not_root s d nm ino : ready s -> entries (view s) !! (d, nm) = Some ino -> ino <> FUSE_ROOT_ID.
Proof.
  intros (Hs & _) He ->. apply (view_sees s Hs) in He as (p & pp & n & pn & _ & Hn & Hp & _ & _ & _ & E).
  destruct (sh_root _ _ _ Hs) as (r & Hr & Er & Erp & _). assert (p = 0%nat) as -> by (apply (shape_inj s p 0%nat n r); [done..|congruence]). congruence.
Qed.
Lemma loose_count s p ino : ready s -> loose s p ino -> is_Some (counts (view s) !! ino).
Proof. intros (Hs & _) (n & Hn & _ & <-). rewrite (view_count s p n Hs Hn). by eexists. Qed.
Definition settle_maybe (o : option nat) (d : Z) (nm : string) : hl bool := match o with Some p => hash_name mem p d nm | None => mret true end.
(** Both nodes are out of the table, and go back into each other's place. *)
Lemma settle_both s d nm d' nm' o o' e e' : ready s -> (d, nm) <> (d', nm') ->
  entries (view s) !! (d, nm) = None -> entries (view s) !! (d', nm') = None ->
  (forall p, o = Some p -> exists ino, e = Some ino /\ loose s p ino) -> (o = None -> e = None) ->
  (forall p, o' = Some p -> exists ino, e' = Some ino /\ loose s p ino) -> (o' = None -> e' = None) ->
  (forall ino, e = Some ino -> ino <> FUSE_ROOT_ID /\ kept_dir (view s) d' /\ ~ under (view s) d' ino /\ ~ under (view s) d ino) ->
  (forall ino, e' = Some ino -> ino <> FUSE_ROOT_ID /\ kept_dir (view s) d /\ ~ under (view s) d ino) -> (forall ino, e = Some ino -> e' <> Some ino) ->
  exists r s', (h ← settle_maybe o d' nm'; if negb (h : bool) then mret (- ENOMEM) else h ← settle_maybe o' d nm; if negb (h : bool) then mret (- ENOMEM) else mret 0) s = Done r s' /\
    ready s' /\ around (fun q => o = Some q \/ o' = Some q) s s' /\
    (r = 0 /\ view s' = put_maybe (d, nm) e' (put_maybe (d', nm') e (view s)) \/
     r = - ENOMEM /\ exists b : bool, view s' = if b then put_maybe (d', nm') e (view s) else view s).
Proof.
  intros Hr Hne Hf Hf' Ho Hno Ho' Hno' He He' Hdiff.
  assert (exists b s1, settle_maybe o d' nm' s = Done b s1 /\ ready s1 /\ around (fun q => o = Some q) s s1 /\
    (forall q i, o <> Some q -> loose s q i -> loose s1 q i) /\ view s1 = if b then put_maybe (d', nm') e (view s) else view s) as (b & s1 & Hrun1 & Hr1 & E1 & Hl & Hv1).
  { destruct o as [p|]; cbn [settle_maybe].
    - destruct (Ho p eq_refl) as (ino & -> & Hp). destruct (He ino eq_refl) as (Hid & Hd & Hu & _).
      destruct (settle_ok s p ino d' nm' Hr Hp Hid Hd Hf' Hu) as (b & s1 & Hrun & Hr1 & E1 & Hl & Hv). exists b, s1. split_and!; try done; [apply (around_mono (eq p)); [congruence|done]|]. intros q i Hq. apply Hl. congruence.
    - rewrite (Hno eq_refl). exists true, s. split_and!; try done. apply around_refl. }
  assert (around (fun q => o = Some q \/ o' = Some q) s s1) as E1' by (apply (around_mono (fun q => o = Some q)); [by left|done]).
  step ltac:(exact Hrun1). destruct b; cbn [negb]; [|exists (- ENOMEM), s1; split_and!; try done; right; split; [done|by exists false]].
  destruct o' as [q|]; cbn [settle_maybe].
  - destruct (Ho' q eq_refl) as (ino' & -> & Hq). destruct (He' ino' eq_refl) as (Hid & Hd & Hu).
    assert (o <> Some q) as Hoq.
    { intros ->. destruct (Ho q eq_refl) as (ino & Eino & (n & Hn & _ & En)). destruct Hq as (m & Hm & _ & Em). apply (Hdiff ino Eino). congruence. }
    destruct (settle_ok s1 q ino' d nm Hr1 (Hl q ino' Hoq Hq) Hid) as (b & s2 & Hrun2 & Hr2 & F1 & _ & Hv2).
    + destruct Hd as (k & Hk & Hp). exists k. split; [|done]. rewrite Hv1. by destruct e.
    + rewrite Hv1. destruct e as [ino|]; [|done]. cbn. by rewrite lookup_insert_ne.
    + rewrite Hv1. destruct e as [ino|]; [|done]. intros [H|H]%under_put; [done|]. by destruct (He ino eq_refl) as (_ & _ & _ & Hd').
    + assert (around (fun x => o = Some x \/ Some q = Some x) s s2) as F by (apply (around_trans _ s s1); [done|]; apply (around_mono (eq q)); [intros x <-; by right|done]).
      step ltac:(exact Hrun2). destruct b; cbn [negb].
      * exists 0, s2. split; [done|]. split; [done|]. split; [done|]. left. split; [done|]. by rewrite Hv2, Hv1.
      * exists (- ENOMEM), s2. split; [done|]. split; [done|]. split; [done|]. right. split; [done|]. exists true. by rewrite Hv2, Hv1.
  - step ltac:(exact eq_refl). cbn [negb]. exists 0, s1. split_and!; try done. left. rewrite (Hno' eq_refl). done.
Qed.
Lemma op_exchange s d nm d' nm' : ready s -> "lock" ∉ owned s -> allowed (keeps s) (view s) (Exchange d nm d' nm') ->
  exists r s', run_op (Exchange d nm d' nm') s = Done r s' /\ does s (Exchange d nm d' nm') r s'.
Proof.
  intros Hr Hl (Hne & Hmv & Hmv'). cbn [run_op]. apply under_lock_does; try done. intros s0 Hr0. change (keeps s) with (keeps s0). change (view s) with (view s0) in *.
  destruct (lookup_view s0 d nm Hr0) as (o & Hlk & Ho), (lookup_view s0 d' nm' Hr0) as (o' & Hlk' & Ho').
  step ltac:(exact Hlk). step ltac:(exact Hlk'). fold (slot s0 d nm o) in Ho. fold (slot s0 d' nm' o') in Ho'.
  assert (forall q, o = Some q -> target s0 (Exchange d nm d' nm') q) as Ht.
  { intros q ->. destruct Ho as (n & Hp & He). apply (named_target s0 _ d nm q n Hp He); [left|done]. }
  assert (forall q, o' = Some q -> target s0 (Exchange d nm d' nm') q) as Ht'.
  { intros q ->. destruct Ho' as (n & Hp & He). apply (named_target s0 _ d' nm' q n Hp He); [right; left|done]. }
  destruct (unhash_maybe_ok s0 d nm o Hr0 Ho) as (s1 & Hrun1 & Hr1 & A1 & Hw1 & Hv1 & Hl1); [intros x Hx; apply (Hmv x Hx)|]. fold (unhash_maybe o). step ltac:(exact Hrun1).
  assert (forall x, entries (view s0) !! (d', nm') = Some x -> is_Some (counts (view s1) !! x) /\ entries (view s1) !! (d', nm') = Some x) as Hkeep.
  { intros x Hx. destruct (Hmv' x Hx) as (_ & _ & Hu). destruct (vacated_keeps _ _ _ _ x Hv1) as (_ & _ & _ & K). pose proof Hr0 as (Hs0 & _).
    assert (is_Some (counts (view s0) !! x)) as [k Hk].
    { apply (view_sees s0 Hs0) in Hx as (p & _ & n & _ & _ & Hn & _ & _ & _ & _ & <-). rewrite (view_count s0 p n Hs0 Hn). by eexists. }
    destruct (K (ready_alive s0 x k Hr0 Hk) Hu) as [K1 K2]. split; [by apply K1; exists k|]. by apply K2. }
  assert (slot s1 d' nm' o') as Ho1.
  { destruct (vacated_keeps _ _ _ _ 0 Hv1) as (_ & Hsub & _). by apply (slot_kept o s0 s1). }
  destruct (vacated_keeps _ _ _ _ d' Hv1) as (_ & Hsub1 & Hkd1 & _).
  destruct (unhash_maybe_ok s1 d' nm' o' Hr1 Ho1) as (s2 & Hrun2 & Hr2 & B1 & Hw2 & Hv2 & Hl2); [intros x Hx; apply Hkd1, (Hmv' x); by apply Hsub1|]. fold (unhash_maybe o'). step ltac:(exact Hrun2).
  destruct (vacated_keeps _ _ _ _ d Hv1) as (N1 & S1 & K1 & _), (vacated_keeps _ _ _ _ d Hv2) as (N2 & S2 & K2 & _).
  destruct (vacated_keeps _ _ _ _ d' Hv1) as (_ & _ & K1' & _), (vacated_keeps _ _ _ _ d' Hv2) as (_ & _ & K2' & _).
  assert (forall x y, under (view s2) x y -> under (view s0) x y) as Hus by (intros x y H; apply (under_sub _ (view s2)); [auto|done]).
  fold (settle_maybe o d' nm'). fold (settle_maybe o' d nm).
  destruct (settle_both s2 d nm d' nm' o o' (entries (view s0) !! (d, nm)) (entries (view s0) !! (d', nm')) Hr2 Hne) as (r & s3 & Hrun3 & Hr3 & C1 & Hres).
  - destruct (entries (view s2) !! (d, nm)) eqn:E; [|done]. apply S2 in E. congruence.
  - done.
  - intros p Hp. destruct (Hl1 p Hp) as (ino & He & Hlo). exists ino. split; [done|]. apply (loose_kept o' s1 s2 p ino Hr1 Hr2 Hw2 Hlo).
    destruct (vacated_keeps _ _ _ _ ino Hv2) as (_ & _ & _ & K). pose proof (loose_count s1 p ino Hr1 Hlo) as [k Hk]. apply (K (ready_alive s1 ino k Hr1 Hk)); [|by exists k].
    intros H. apply (Hmv ino He). by apply (under_sub _ (view s1)).
  - intros ->. exact Ho.
  - intros q Hq. destruct (Hl2 q Hq) as (ino & He & Hlo). exists ino. split; [|done]. by apply S1.
  - intros ->. exact Ho'.
  - intros ino He. destruct (Hmv ino He) as (_ & Hd & Hu). split; [by apply (entry_not_root s0 d nm)|]. split; [auto|]. split; [auto|].
    intros H. by apply (no_loop s0 d nm ino Hr0 He), Hus.
  - intros ino He. destruct (Hmv' ino He) as (_ & Hd & Hu). split; [by apply (entry_not_root s0 d' nm')|]. split; auto.
  - intros ino He He'. pose proof Hr0 as (Hs0 & _). apply (view_sees s0 Hs0) in He as (p & pp & n & pn & _ & Hn & Hp & Hnm & Hpn & Ed & Ei), He' as (q & qq & m & qn & _ & Hm & Hq & Hqm & Hqn & Ed' & Ei').
    apply Hne. assert (p = q) as -> by (apply (shape_inj s0 p q n m); [done..|congruence]). congruence.
  - exists r, s3. split; [exact Hrun3|]. split; [done|]. split.
    { apply (around_trans _ s0 s1); [by apply (around_mono (fun q => o = Some q))|]. apply (around_trans _ s1 s2); [by apply (around_mono (fun q => o' = Some q))|].
      apply (around_mono (fun q => o = Some q \/ o' = Some q)); [|done]. intros q [?|?]; [by apply Ht|by apply Ht']. }
    destruct Hres as [[-> ->]|[-> [b ->]]]; [by eapply step_exchange|by eapply step_exchange_full].
Qed.
Lemma name_op_ok s op : ready s -> room s -> "lock" ∉ owned s -> allowed (keeps s) (view s) op -> unhurt s op -> exists r s', run_op op s = Done r s' /\ does s op r s'.
Proof.
  intros Hr Hroom Hl Ha Hsp. destruct op as [par nm|ino n|dir nm|d nm d' nm' hide|d nm d' nm'].
  - by apply op_lookup.
  - by apply op_forget.
  - by apply op_remove.
  - by apply op_rename.
  - by apply op_exchange.
Qed.
End Operations.

(** ** The refinement *)

(** C11: The operations on nodes (find_node, forget_node, remove_node, rename_node, exchange_node) refine an abstract name space: as long as the kernel names directories it holds, forgets no more lookups than it made, moves no directory below itself, and no other locked node hangs on the last lookup that is forgotten ([unhurt]), each operation ends without a failed assertion or an access to a freed node, leaves tables and reference counts consistent and every lock of a path in place, links only the nodes it names elsewhere, adds to the waiters only a forgetting of a locked node, and changes the view of the nodes exactly as the abstract step says: whatever is neither looked up nor leads to something that is looked up is freed, and nothing else. *)
Theorem operations_keep_the_names mem s op : ready s -> room s -> "lock" ∉ owned s -> allowed (keeps s) (view s) op -> unhurt s op ->
  exists r s', run_op mem op s = Done r s' /\ ready s' /\ around (target s op) s (set_lockq (lockq s) s') /\ lockq s' = lockq s ++ queued op r /\
    name_step (keeps s) (view s) op r (view s').
Proof.
  apply name_op_ok.
Qed.

(** A new file system knows its root. *)
Lemma hl_new_ids c : table_ok (id_key_of (nodes (hl_new c))) 0 (id_table (hl_new c)) /\ elements (id_table (hl_new c)) ≡ₚ [0%nat].
Proof.
  destruct (table_add_ok (id_key_of (nodes (hl_new c))) 0 true (id_key FUSE_ROOT_ID) 0%nat node_table_init) as (t & Ht & Hok & He);
    [apply init_ok|reflexivity|rewrite init_elements; apply not_elem_of_nil|].
  assert (table_add (id_key_of (nodes (hl_new c))) true (id_key FUSE_ROOT_ID) 0%nat node_table_init = Some (id_table (hl_new c))) as Ht' by (vm_compute; reflexivity).
  rewrite Ht in Ht'. injection Ht' as ->. rewrite init_elements in He. exact (conj Hok He).
Qed.
Lemma hl_new_node c p n : nodes (hl_new c) !! p = Some n -> p = 0%nat /\ n = root_node.
Proof. intros Hp. unfold hl_new in Hp. cbn [nodes] in Hp. apply lookup_singleton_Some in Hp as [<- <-]. done. Qed.
Lemma hl_new_ready c : ready (hl_new c).
Proof.
  destruct (hl_new_ids c) as [Hid He]. pose proof (hl_new_node c) as Hn. assert (forall p, ~ p ∈ @nil nat) as Hnil by (intros; apply not_elem_of_nil).
  assert (elements (name_table (hl_new c)) = []) as Hnt by apply init_elements.
  assert (nodes (hl_new c) !! 0%nat = Some root_node) as H0 by reflexivity.
  split; [split|split].
  - exact Hid.
  - intros p. rewrite He, list_elem_of_singleton. split; [intros ->; split; [by eexists|done]|]. by intros [[n [-> _]%Hn] _].
  - intros p q n m [-> _]%Hn [-> _]%Hn. done.
  - apply init_ok.
  - intros p. rewrite Hnt. split; [intros H; destruct (Hnil _ H)|]. intros [_ (pp & nm & n & [-> ->]%Hn & E & _)]. done.
  - intros p n [-> ->]%Hn _. done.
  - exists root_node. split_and!; try done; apply Hnil.
  - intros p q pp nm _ _ (n & [-> _]%Hn & _) (m & [-> _]%Hn & _). done.
  - split; [constructor|]. intros p H. destruct (Hnil _ H).
  - intros p [n [-> _]%Hn]. cbn. lia.
  - intros p n [-> ->]%Hn. unfold children. rewrite Hnt, decide_False by done. by split_and!.
  - exists (fun p => p). intros p n pp [-> ->]%Hn. done.
Qed.

(** ** Whole runs *)

Inductive reachable (mem : nat -> bool) (c : hl_config) : fuse -> Prop :=
| reach_new : reachable mem c (hl_new c)
| reach_op s op r s' : reachable mem c s -> room s -> allowed (keeps s) (view s) op -> run_op mem op s = Done r s' -> reachable mem c s'.
Lemma around_unlocked T s s' : around T s s' -> unlocked s -> unlocked s'.
Proof. intros (_ & _ & _ & H & _) Hu q n' Hq. destruct (H q n' Hq) as [(n & Hn & -> & _)|[_ ?]]; [by apply (Hu q n)|done]. Qed.
Lemma reachable_ready mem c s : reachable mem c s -> ready s /\ unlocked s /\ "lock" ∉ owned s.
Proof.
  induction 1 as [|s op r s' _ (Hr & Hu & Hl) Hroom Ha Hrun].
  - split; [apply hl_new_ready|]. split; [|apply not_elem_of_empty]. intros p n [-> ->]%hl_new_node. done.
  - destruct (name_op_ok mem s op Hr Hroom Hl Ha (unlocked_unhurt s op Hu)) as (r' & s2 & Hrun' & Hr' & Har & _).
    rewrite Hrun in Hrun'. injection Hrun' as _ <-. split; [done|]. split; [by apply (around_unlocked _ s _ Har)|]. destruct Har as [[E _] _]. cbn in E. by rewrite E.
Qed.

(** A living id leads down to one that is looked up. *)
Lemma alive_leads a x : alive a x -> exists ino k, under a ino x /\ counts a !! ino = Some k /\ 0 < k.
Proof.
  induction 1 as [ino k Hk Hpos|par nm ino He _ (i & k & Hu & Hk & Hp)]; [exists ino, k; split; [constructor|done]|].
  exists i, k. split; [eapply rtc_r; [exact Hu|]; by exists nm|done].
Qed.
(** C19: However the operations are mixed, every node of the library that is still there is looked up by the kernel or lies on the way to one that is: once every lookup is forgotten, only the root is left, with no names. *)
Theorem forgotten_nodes_are_freed mem c s : reachable mem c s -> (forall ino k, counts (view s) !! ino = Some k -> ino <> FUSE_ROOT_ID -> k = 0) ->
  entries (view s) = ∅ /\ dom (nodes s) = {[ 0%nat ]}.
Proof.
  intros Hreach Hzero. destruct (reachable_ready mem c s Hreach) as (Hr & _). pose proof Hr as (Hs & _).
  assert (forall ino, under (view s) FUSE_ROOT_ID ino -> ino = FUSE_ROOT_ID) as Htop.
  { intros ino Hu. apply rtc_inv in Hu as [<-|(z & [nm Hz] & _)]; [done|]. by apply (entry_not_root s z nm FUSE_ROOT_ID Hr) in Hz. }
  assert (forall ino k, counts (view s) !! ino = Some k -> ino = FUSE_ROOT_ID) as Hall.
  { intros ino k Hk. destruct (alive_leads _ _ (ready_alive s ino k Hr Hk)) as (i & k' & Hu & Hk' & Hpos). apply Htop.
    destruct (Z.eq_dec i FUSE_ROOT_ID) as [<-|Hi]; [done|]. rewrite (Hzero i k' Hk' Hi) in Hpos. lia. }
  split.
  - apply map_empty. intros [d nm]. destruct (entries (view s) !! (d, nm)) as [ino|] eqn:He; [|done]. exfalso. apply (entry_not_root s d nm ino Hr He).
    apply (view_sees s Hs) in He as (p & _ & n & _ & _ & Hn & _ & _ & _ & _ & <-). eapply Hall, view_count; done.
  - apply set_eq. intros p. rewrite elem_of_dom, elem_of_singleton. destruct (sh_root _ _ _ Hs) as (r & Hroot & Er & _). split.
    + intros [n Hn]. apply (shape_inj s p 0%nat n r Hs Hn Hroot). rewrite Er. by eapply Hall, view_count.
    + intros ->. by exists r.
Qed.

(** ** A run *)

Definition demo_hl_config : hl_config :=
  {| remember := 0; cf_set_gid := false; cf_gid := 0; cf_set_uid := false; cf_uid := 0; cf_set_mode := false; cf_umask := 0; cf_fmask := 0; cf_dmask := 0;
     cf_use_ino := false; cf_readdir_ino := false; cf_hard_remove := false; cf_direct_io := false; cf_kernel_cache := false; cf_auto_cache := false;
     cf_nullpath_ok := false; cf_no_rofd_flush := false; cf_parallel_direct_writes := false; cf_entry_timeout := dbl 0; cf_attr_timeout := dbl 0;
     cf_negative_timeout := dbl 0; cf_ac_attr_timeout := dbl 0 |}.
Definition plenty (_ : nat) : bool := true.
Definition after {A} (m : hl A) (s : fuse) : fuse := match m s with Done _ s' => s' | Throws s' => s' | Stuck _ s' => s' end.
Definition demo_looked : fuse := after (run_op plenty (Lookup FUSE_ROOT_ID (Some "a"%string))) (hl_new demo_hl_config).
Definition demo_forgotten : fuse := after (run_op plenty (Forget 2 1)) demo_looked.
Lemma demo_lookup_allowed : allowed (keeps (hl_new demo_hl_config)) (view (hl_new demo_hl_config)) (Lookup FUSE_ROOT_ID (Some "a"%string)).
Proof. split; [exists 1; vm_compute; reflexivity|]. intros ino He. vm_compute in He. discriminate He. Qed.
Lemma demo_forgotten_reachable : reachable plenty demo_hl_config demo_forgotten.
Proof.
  apply (reach_op _ _ demo_looked (Forget 2 1) 0); [apply (reach_op _ _ (hl_new demo_hl_config) (Lookup FUSE_ROOT_ID (Some "a"%string)) 2)| | |].
  - apply reach_new.
  - by vm_compute.
  - apply demo_lookup_allowed.
  - vm_compute. reflexivity.
  - by vm_compute.
  - right. exists 1. split; [vm_compute; reflexivity|lia].
  - vm_compute. reflexivity.
Qed.
Lemma operations_keep_the_names_witness : exists r s', run_op plenty (Lookup FUSE_ROOT_ID (Some "a"%string)) (hl_new demo_hl_config) = Done r s' /\ ready s'.
Proof.
  destruct (operations_keep_the_names plenty (hl_new demo_hl_config) (Lookup FUSE_ROOT_ID (Some "a"%string))) as (r & s' & Hrun & Hr & _);
    [apply hl_new_ready|by vm_compute|apply not_elem_of_empty|apply demo_lookup_allowed|exact I|]. exact (ex_intro _ r (ex_intro _ s' (conj Hrun Hr))).
Defined.
Lemma forgotten_nodes_are_freed_witness : entries (view demo_forgotten) = ∅ /\ dom (nodes demo_forgotten) = {[ 0%nat ]}.
Proof.
  apply (forgotten_nodes_are_freed plenty demo_hl_config demo_forgotten demo_forgotten_reachable).
  intros ino k Hk Hne. assert (counts (view demo_forgotten) = {[ FUSE_ROOT_ID := 1 ]}) as Hc by (vm_compute; reflexivity).
  rewrite Hc in Hk. apply lookup_singleton_Some in Hk as [<- _]. destruct (Hne eq_refl).
Defined.
(** Moving [b] out of a forgotten directory frees the directory; two names trade places. *)
Definition demo_moves : option (list Z) :=
  match (a ← run_op plenty (Lookup FUSE_ROOT_ID (Some "a"%string)); b ← run_op plenty (Lookup a (Some "b"%string)); _ ← run_op plenty (Forget a 1);
         c ← run_op plenty (Lookup FUSE_ROOT_ID (Some "c"%string)); m ← run_op plenty (Rename a "b" FUSE_ROOT_ID "d" false);
         x ← run_op plenty (Exchange FUSE_ROOT_ID "c" FUSE_ROOT_ID "d"); s ← pget; mret [a; b; c; m; x; Z.of_nat (base.size (nodes s))]) (hl_new demo_hl_config) with
  | Done l s => if decide (entries (view s) = {[ (1, "c"%string) := 3; (1, "d"%string) := 4 ]}) then Some l else None | _ => None
  end.
Example demo_moves_ok : demo_moves = Some [2; 3; 4; 0; 0; 3].
Proof. vm_compute. reflexivity. Qed.
