(* ===== verification/HlPaths.v ===== *)
(** * lib/fuse.c: paths and their locks

    The path of a node is put together from its name upwards, in a buffer that grows, while
    every directory on it is locked for reading ([treelock] counts the readers) and the node
    at its end, when it is to be removed or moved, for writing.  Who cannot have a path
    waits in [lockq] until somebody's unlocking wakes it. *)
From S2P Require Import Prelude Errno Sys HlLocks HlTable HlNodes.

Abbreviation ESTALE := 116 (only parsing).
Definition TREELOCK_WRITE : Z := -1.
Definition TREELOCK_WAIT_OFFSET : Z := - 2 ^ 31.

(** The buffer: its size, and the text at its end ([s] points to it), which a NUL ends. *)
Record path_buf := { bufsize : Z; text : string }.
Definition pathlen (b : path_buf) : Z := Z.of_nat (String.length (text b)) + 1.
(** The new size: doubled until it is enough, up to what an [unsigned] holds. *)
Fixpoint grown (fuel : nat) (newbufsize need : Z) : option Z :=
  match fuel with
  | O => None
  | S fuel => if newbufsize <? need then grown fuel (if 2147483648 <=? newbufsize then 4294967295 else newbufsize * 2) need else Some newbufsize
  end.
Notation got := (string * option nat)%type.

Section Paths.
Variable mem : nat -> bool.
Definition add_name (b : path_buf) (nm : string) : hl (option path_buf) :=
  let len := Z.of_nat (String.length nm) in let added := ("/" ++ nm ++ text b)%string in
  if bufsize b - pathlen b <=? len then
    match grown 40 (bufsize b) (pathlen b + len + 1) with
    | None => pstuck "fuel"
    | Some newbufsize =>
        ok ← get_memory mem;
        mret (if ok : bool then Some {| bufsize := newbufsize; text := added |} else None)
    end
  else mret (Some {| bufsize := bufsize b; text := added |}).

Fixpoint unlock_rounds (fuel : nat) (p : nat) (stop : option nat) : hl unit :=
  match fuel with
  | O => pstuck "fuel"
  | S fuel =>
      if decide (Some p = stop) then mret tt
      else
        n ← deref p;
        if nodeid n =? FUSE_ROOT_ID then mret tt
        else
          _ ← passert (negb (treelock n =? 0)); _ ← passert (negb (treelock n =? TREELOCK_WAIT_OFFSET));
          _ ← passert (negb (treelock n =? TREELOCK_WRITE));
          _ ← update p (set_treelock (if treelock n - 1 =? TREELOCK_WAIT_OFFSET then 0 else treelock n - 1));
          pp ← or_fault (parent n); unlock_rounds fuel pp stop
  end.
(** There are no more directories on a path than nodes. *)
Definition unlock_path (ino : Z) (wnode stop : option nat) : hl unit :=
  _ ← match wnode with
      | Some w => n ← deref w; _ ← passert (treelock n =? TREELOCK_WRITE); update w (set_treelock 0)
      | None => mret tt
      end;
  p ← get_node ino; s ← pget; unlock_rounds (S (base.size (nodes s))) p stop.

(** The loop of [try_get_path]: the path, or the error and the node at which it stopped. *)
Fixpoint climb_rounds (fuel : nat) (p : nat) (b : path_buf) (need_lock : bool) : hl ((Z * nat) + path_buf) :=
  match fuel with
  | O => pstuck "fuel"
  | S fuel =>
      n ← deref p;
      if nodeid n =? FUSE_ROOT_ID then mret (inr b)
      else
        match name n, parent n with
        | Some nm, Some pp =>
            r ← add_name b nm;
            match r with
            | None => mret (inl (- ENOMEM, p))
            | Some b =>
                if need_lock then
                  if treelock n <? 0 then mret (inl (- EAGAIN, p))
                  else _ ← update p (set_treelock (treelock n + 1)); climb_rounds fuel pp b need_lock
                else climb_rounds fuel pp b need_lock
            end
        | _, _ => mret (inl (- ESTALE, p))
        end
  end.
(** The node to be locked for writing, if it is known. *)
Definition lock_wnode (ino : Z) (nm : option string) : hl (Z + option nat) :=
  nm ← or_fault nm; r ← lookup_node ino nm;
  match r with
  | None => mret (inr None)
  | Some w =>
      n ← deref w;
      if treelock n =? 0 then _ ← update w (set_treelock TREELOCK_WRITE); mret (inr (Some w))
      else _ ← (if 0 <? treelock n then update w (set_treelock (treelock n + TREELOCK_WAIT_OFFSET)) else mret tt); mret (inl (- EAGAIN))
  end.
Definition try_get_path (a : path_ask) (need_lock : bool) : hl (Z + got) :=
  ok ← get_memory mem;
  if negb (ok : bool) then mret (inl (- ENOMEM))
  else
    b ← match ask_name a with Some nm => add_name {| bufsize := 256; text := "" |} nm | None => mret (Some {| bufsize := 256; text := "" |}) end;
    match b with
    | None => mret (inl (- ENOMEM))
    | Some b =>
        w ← (if ask_write a then _ ← passert need_lock; lock_wnode (ask_ino a) (ask_name a) else mret (inr None));
        match w with
        | inl e => mret (inl e)
        | inr w =>
            p ← get_node (ask_ino a); s ← pget;
            r ← climb_rounds (S (base.size (nodes s))) p b need_lock;
            match r with
            | inr b => mret (inr (if String.eqb (text b) "" then "/"%string else text b, w))
            | inl (e, stop) => _ ← (if need_lock then unlock_path (ask_ino a) w (Some stop) else mret tt); mret (inl e)
            end
        end
    end.
Definition try_get_path2 (a b : path_ask) : hl (Z + list got) :=
  r ← try_get_path a true;
  match r with
  | inl e => mret (inl e)
  | inr g =>
      r' ← try_get_path b true;
      match r' with
      | inl e => _ ← unlock_path (ask_ino a) g.2 None; mret (inl e)
      | inr g' => mret (inr [g; g'])
      end
  end.
Definition try_one (a : path_ask) : hl (Z + list got) := r ← try_get_path a true; mret (match r with inl e => inl e | inr g => inr [g] end).

(** ** Waiting *)

Definition signal (done : option (Z + list got)) (w : waiter) : waiter :=
  {| wt_thread := wt_thread w; wt_for := wt_for w; wt_signal := true; wt_done := done |}.
Definition queue_element_wakeup (w : waiter) : hl waiter :=
  let settle (r : Z + list got) := mret (match r with inl e => if e =? - EAGAIN then w else signal (Some r) w | inr _ => signal (Some r) w end) in
  match wt_for w with
  | ForUnlock ino => p ← get_node ino; n ← deref p; mret (if treelock n =? 0 then signal (wt_done w) w else w)
  | ForPath a => match wt_done w with Some _ => mret w | None => r ← try_one a; settle r end
  | ForPaths a b => match wt_done w with Some _ => mret w | None => r ← try_get_path2 a b; settle r end
  end.
Fixpoint wake_all (q : list waiter) : hl (list waiter) :=
  match q with
  | [] => mret []
  | w :: q => w ← queue_element_wakeup w; q ← wake_all q; mret (w :: q)
  end.
Definition wake_up_queued : hl unit := s ← pget; q ← wake_all (lockq s); pmodify (set_lockq q).

(** [get_path_common] and [get_path2], up to where they wait: [None]. *)
Definition get_path_common (thread : nat) (a : path_ask) : hl (option (Z + list got)) :=
  with_lock "lock" (
    r ← try_one a;
    match r with
    | inl e => if e =? - EAGAIN then _ ← queue_path thread (ForPath a); mret None else mret (Some r)
    | inr _ => mret (Some r)
    end).
Definition get_path2 (thread : nat) (a b : path_ask) : hl (option (Z + list got)) :=
  with_lock "lock" (
    r ← try_get_path2 a b;
    match r with
    | inl e => if e =? - EAGAIN then _ ← queue_path thread (ForPaths a b); mret None else mret (Some r)
    | inr _ => mret (Some r)
    end).
(** The first waiter of a thread, and the queue without it. *)
Fixpoint dequeued (thread : nat) (q : list waiter) : option (waiter * list waiter) :=
  match q with
  | [] => None
  | w :: q => if decide (wt_thread w = thread) then Some (w, q) else '(x, q') ← dequeued thread q; Some (x, w :: q')
  end.
(** The rest of [wait_path], when the condition variable is signalled: [None] is to wait on. *)
Definition wait_path (thread : nat) : hl (option (Z + list got)) :=
  with_lock "lock" (
    s ← pget;
    match dequeued thread (lockq s) with
    | Some (w, q) => match wt_signal w, wt_done w with true, Some r => _ ← pmodify (set_lockq q); mret (Some r) | _, _ => mret None end
    | None => mret None
    end).
(** A signal that was used up: the thread waits on. *)
Fixpoint unsignal (thread : nat) (q : list waiter) : list waiter :=
  match q with
  | [] => []
  | w :: q => if decide (wt_thread w = thread) then {| wt_thread := wt_thread w; wt_for := wt_for w; wt_signal := false; wt_done := wt_done w |} :: q
              else w :: unsignal thread q
  end.
(** The rest of [forget_node]. *)
Definition forget_wait (thread : nat) (ino count : Z) : hl bool :=
  with_lock "lock" (
    s ← pget;
    match dequeued thread (lockq s) with
    | Some (w, q) =>
        if negb (wt_signal w) then mret false
        else
          p ← get_node ino; n ← deref p;
          if (nlookup n =? count) && negb (treelock n =? 0) then _ ← pmodify (set_lockq (unsignal thread (lockq s))); mret false
          else _ ← pmodify (set_lockq q); _ ← forget_last mem p count; mret true
    | None => mret false
    end).
Definition free_path_wrlock (ino : Z) (wnode : option nat) : hl unit :=
  with_lock "lock" (
    _ ← unlock_path ino wnode None; s ← pget;
    match lockq s with [] => mret tt | _ => wake_up_queued end).
Definition free_path2 (ino1 ino2 : Z) (wnode1 wnode2 : option nat) : hl unit :=
  with_lock "lock" (_ ← unlock_path ino1 wnode1 None; _ ← unlock_path ino2 wnode2 None; wake_up_queued).

(** ** The callers *)

Definition get_path (thread : nat) (ino : Z) := get_path_common thread {| ask_ino := ino; ask_name := None; ask_write := false |}.
Definition get_path_name (thread : nat) (ino : Z) (nm : string) := get_path_common thread {| ask_ino := ino; ask_name := Some nm; ask_write := false |}.
Definition get_path_wrlock (thread : nat) (ino : Z) (nm : string) := get_path_common thread {| ask_ino := ino; ask_name := Some nm; ask_write := true |}.
End Paths.
