(* ===== verification/HlPathFacts.v ===== *)
(** * Paths are locked against each other

    What [try_get_path] and [unlock_path] do to the locks of the nodes, and that the locks
    of all the paths that were given out account for [treelock]. *)
From S2P Require Import Prelude Errno Sys HlLocks HlTable HlNodes HlTree HlNames HlSpace HlPaths.

(** ** The buffer of a path *)

Lemma grown_ok need : need <= 4294967295 -> forall f n, 0 < n <= 4294967295 -> 2 ^ 32 <= n * 2 ^ Z.of_nat f ->
  exists m, grown (S (S f)) n need = Some m /\ need <= m <= 4294967295.
Proof.
  intros Hneed. induction f as [|f IH]; intros n Hn Hf; [cbn in Hf; lia|]. cbn [grown]. destruct (Z.ltb_spec n need); [|exists n; split; [done|lia]].
  destruct (Z.leb_spec 2147483648 n).
  - exists 4294967295. split; [|lia]. destruct (Z.ltb_spec 4294967295 need); [lia|done].
  - apply IH; [lia|]. rewrite Nat2Z.inj_succ, Z.pow_succ_r in Hf by lia. lia.
Qed.
Definition buf_ok (b : path_buf) : Prop := pathlen b <= bufsize b /\ 256 <= bufsize b <= 4294967295.

Section Facts.
Variable mem : nat -> bool.
Definition no_memory : Prop := exists k, mem k = false.

Lemma get_memory_done s : get_memory mem s = Done (mem (allocs s)) (set_allocs (S (allocs s)) s).
Proof. done. Qed.
(** A name fits in front of the text, or there is no memory; nothing else happens. *)
Lemma add_name_ok b nm s : buf_ok b -> pathlen b + Z.of_nat (String.length nm) + 1 <= 4294967295 ->
  exists r k, add_name mem b nm s = Done r (set_allocs k s) /\
    match r with Some b' => buf_ok b' /\ text b' = ("/" ++ nm ++ text b)%string | None => no_memory end.
Proof.
  intros [Hb1 Hb2] Hlen. unfold add_name. set (len := Z.of_nat (String.length nm)) in *.
  assert (0 <= len) by (unfold len; lia).
  assert (forall z, Z.of_nat (String.length ("/" ++ nm ++ text b)) + 1 <= z <-> pathlen b + len + 1 <= z) as Hadd.
  { intros z. change (String.length ("/" ++ nm ++ text b)) with (S (String.length (nm ++ text b))). unfold pathlen, len. rewrite string_length_app. lia. }
  destruct (Z.leb_spec (bufsize b - pathlen b) len) as [Hfull|Hfree].
  - destruct (grown_ok (pathlen b + len + 1) Hlen 38 (bufsize b)) as (m & -> & Hm); [lia|change (2 ^ Z.of_nat 38) with 274877906944; lia|].
    assert (256 <= m) by (unfold pathlen in *; lia).
    rewrite (bind_done _ _ _ _ _ (get_memory_done s)). destruct (mem (allocs s)) eqn:Hmem.
    + eexists _, _. split; [reflexivity|]. split; [|done].
      split; [|cbn [bufsize]; lia]. unfold pathlen at 1. cbn [text bufsize]. apply Hadd; lia.
    + eexists None, _. split; [reflexivity|]. by exists (allocs s).
  - eexists _, (allocs s). split; [by destruct s|]. split; [|done]. split; [|done]. unfold pathlen at 1. cbn [text bufsize]. apply Hadd. lia.
Qed.

(** ** The way up *)

Inductive steps (m : gmap nat node) : nat -> list nat -> nat -> Prop :=
| steps_here p : steps m p [] p
| steps_up p n pp nm l q : p <> 0%nat -> m !! p = Some n -> name n = Some nm -> parent n = Some pp -> steps m pp l q -> steps m p (p :: l) q.
Fixpoint path_text (m : gmap nat node) (l : list nat) (t : string) : string :=
  match l with [] => t | p :: l => path_text m l (match m !! p ≫= name with Some nm => ("/" ++ nm ++ t)%string | None => t end) end.
Definition relock (f : Z -> Z) (l : list nat) (m : gmap nat node) : gmap nat node :=
  foldr (fun q m => alter (fun n => set_treelock (f (treelock n)) n) q m) m l.
Lemma relock_lookup f l m q : NoDup l -> relock f l m !! q = if decide (q ∈ l) then (fun n => set_treelock (f (treelock n)) n) <$> m !! q else m !! q.
Proof.
  induction 1 as [|x l Hx Hl IH]; [cbn; by rewrite decide_False by apply not_elem_of_nil|]. cbn [relock foldr]. fold (relock f l m).
  destruct (decide (q = x)) as [->|Hne].
  - rewrite lookup_alter_eq, IH, decide_False by done. rewrite decide_True by left. done.
  - rewrite lookup_alter_ne, IH by done. destruct (decide (q ∈ l)) as [Hq|Hq]; [rewrite decide_True by (by right); done|].
    rewrite decide_False; [done|]. by rewrite not_elem_of_cons.
Qed.
Lemma relock_keys f l m : NoDup l -> same_keys m (relock f l m).
Proof. intros Hl q. rewrite relock_lookup by done. destruct (decide _), (m !! q); done. Qed.
Lemma same_keys_sym m m' : same_keys m m' -> same_keys m' m.
Proof. intros H p. specialize (H p). destruct (m !! p), (m' !! p); try done. by destruct H as (? & ? & ?). Qed.
Lemma steps_same m m' p l q : same_keys m m' -> steps m p l q -> steps m' p l q.
Proof.
  intros Hk Hs. induction Hs as [p|p n pp nm l q Hp Hn Hnm Hpp _ IH]; [constructor|]. specialize (Hk p). rewrite Hn in Hk.
  destruct (m' !! p) as [n'|] eqn:Hn'; [|done]. destruct Hk as (_ & E1 & E2). eapply steps_up; [done|done|by rewrite E2|by rewrite E1|done].
Qed.
Lemma steps_ranks rank s p l q : ranked rank s -> steps (nodes s) p l q -> (rank q <= rank p)%nat /\ Forall (fun x => (rank x <= rank p)%nat) l /\ NoDup l.
Proof.
  intros Hr Hs. induction Hs as [p|p n pp nm l q Hp Hn Hnm Hpp _ (IH1 & IH2 & IH3)]; [split; [done|split; constructor]|].
  pose proof (Hr p n pp Hn Hpp). split; [lia|]. split.
  - constructor; [done|]. eapply Forall_impl; [exact IH2|]. intros x Hx. cbn in Hx. lia.
  - constructor; [|done]. rewrite Forall_forall in IH2. intros Hin. specialize (IH2 p Hin). lia.
Qed.
Lemma steps_end rank s p l q x : ranked rank s -> steps (nodes s) p l q -> x ∈ l -> (rank q < rank x)%nat.
Proof.
  intros Hr Hs. induction Hs as [p|p n pp nm l q Hp Hn Hnm Hpp Hst IH]; intros Hx; [by apply not_elem_of_nil in Hx|].
  apply elem_of_cons in Hx as [->|Hx]; [|auto]. destruct (steps_ranks rank s pp l q Hr Hst). pose proof (Hr p n pp Hn Hpp). lia.
Qed.
Lemma steps_app m p l q l' r : steps m p l q -> steps m q l' r -> steps m p (l ++ l') r.
Proof. induction 1; [done|]. intros H'. cbn. eapply steps_up; eauto. Qed.
Lemma steps_functional m p l l' : steps m p l 0 -> steps m p l' 0 -> l = l'.
Proof.
  intros H. remember 0%nat as z eqn:Hz. revert l'. induction H as [p|p n pp nm l q Hp Hn Hnm Hpp _ IH]; intros l' H'; subst.
  - inversion H'; by subst.
  - inversion H' as [|? n' pp' nm' l'' q' Hp' Hn' Hnm' Hpp' Hs']; subst; [done|]. f_equal. apply IH; [done|]. congruence.
Qed.
Lemma steps_some m p l q x : steps m p l q -> x ∈ l -> x <> 0%nat /\ exists n nm pp, m !! x = Some n /\ name n = Some nm /\ parent n = Some pp.
Proof.
  induction 1 as [|p n pp nm l q Hp Hn Hnm Hpp _ IH]; intros Hx; [by apply not_elem_of_nil in Hx|].
  apply elem_of_cons in Hx as [->|Hx]; [split; [done|by exists n, nm, pp]|auto].
Qed.

(** ** Climbing and unlocking *)

(** FUSE limits names to 1024 bytes; there are not so many nodes that a path overflows. *)
Definition names_short (s : fuse) : Prop := forall p n nm, nodes s !! p = Some n -> name n = Some nm -> (String.length nm <= 1024)%nat.
Definition path_room (s : fuse) : Prop := (Z.of_nat (base.size (nodes s)) + 3) * 1025 <= 2 ^ 32 - 2.
Definition relocked (m : gmap nat node) (k : nat) (s : fuse) : fuse := set_nodes m (set_allocs k s).
Definition readable (m : gmap nat node) (x : nat) : Prop := exists n, m !! x = Some n /\ 0 <= treelock n.
Lemma names_short_same s s' : same_keys (nodes s) (nodes s') -> names_short s -> names_short s'.
Proof. intros Hk H p n nm Hn Hnm. destruct (same_keys_lookup _ _ _ _ Hk Hn) as (n0 & Hn0 & _ & _ & E). apply (H p n0 nm Hn0). congruence. Qed.
Lemma ranked_same rank s s' : same_keys (nodes s) (nodes s') -> ranked rank s -> ranked rank s'.
Proof. intros Hk. apply ranked_ext. intros q n pp Hn Hpp. destruct (same_keys_lookup _ _ _ _ Hk Hn) as (n0 & Hn0 & _ & E & _). exists n0. split; [done|congruence]. Qed.
Lemma root_id s p n : shape [] [] s -> nodes s !! p = Some n -> nodeid n = FUSE_ROOT_ID <-> p = 0%nat.
Proof.
  intros Hs Hn. destruct (sh_root _ _ _ Hs) as (r & Hr & Er & _). split; [|intros ->; congruence].
  intros E. apply (shape_inj s p 0%nat n r); [done..|congruence].
Qed.
Lemma link_of s p n : shape [] [] s -> nodes s !! p = Some n -> p <> 0%nat ->
  (parent n = None /\ name n = None) \/ exists pp nm, parent n = Some pp /\ name n = Some nm /\ is_Some (nodes s !! pp).
Proof.
  intros Hs Hn H0. pose proof (sh_null _ _ _ Hs p n Hn (not_elem_of_nil p)) as Hnull. destruct (parent n) as [pp|], (name n) as [nm|]; try done; [right|by left].
  exists pp, nm. by destruct Hnull.
Qed.
Lemma steps_exists s p l q : shape [] [] s -> steps (nodes s) p l q -> is_Some (nodes s !! p) -> is_Some (nodes s !! q).
Proof.
  intros Hs. induction 1 as [|p n pp nm l q Hp Hn Hnm Hpp _ IH]; [done|]. intros _. apply IH.
  by destruct (linked_parent [] [] s p n pp Hs (not_elem_of_nil p) Hn Hpp).
Qed.
(** Where a climb stops short, and why. *)
Definition stopped (m : gmap nat node) (e : Z) (q : nat) : Prop :=
  e = - ENOMEM /\ no_memory \/ e = - ESTALE /\ q <> 0%nat /\ (exists n, m !! q = Some n /\ parent n = None) \/
  e = - EAGAIN /\ exists n, m !! q = Some n /\ treelock n < 0.
Lemma relock_cons_inside f p n l m : p ∉ l -> m !! p = Some n -> NoDup l ->
  relock f l (<[p := set_treelock (f (treelock n)) n]> m) = relock f (p :: l) m.
Proof.
  intros Hp Hn Hl. apply map_eq. intros q. rewrite !relock_lookup by (try constructor; done). destruct (decide (q = p)) as [->|Hne].
  - rewrite decide_False, decide_True by (done || left). by rewrite lookup_insert_eq, Hn.
  - rewrite lookup_insert_ne by done. destruct (decide (q ∈ l)); [by rewrite decide_True by (by right)|]. rewrite decide_False; [done|]. by rewrite not_elem_of_cons.
Qed.
Lemma path_text_same m m' l t : same_keys m m' -> path_text m' l t = path_text m l t.
Proof.
  intros Hk. revert t. induction l as [|p l IH]; intros t; [done|]. cbn. rewrite IH. f_equal. specialize (Hk p).
  destruct (m !! p), (m' !! p); try done. cbn. by destruct Hk as (_ & _ & ->).
Qed.
Lemma climb_ok rank fuel : forall p b s V, shape [] [] s -> ranked rank s -> names_short s -> path_room s -> is_Some (nodes s !! p) ->
  NoDup V -> (forall x, x ∈ V -> is_Some (nodes s !! x) /\ (rank p < rank x)%nat) -> (base.size (nodes s) < fuel + length V)%nat ->
  buf_ok b -> Z.of_nat (String.length (text b)) <= 1025 * (1 + lenZ V) ->
  exists l q r k, climb_rounds mem fuel p b true s = Done r (relocked (relock (fun v => v + 1) l (nodes s)) k s) /\
    steps (nodes s) p l q /\ (forall x, x ∈ l -> readable (nodes s) x) /\
    match r with
    | inr b' => q = 0%nat /\ text b' = path_text (nodes s) l (text b)
    | inl (e, stop) => stop = q /\ stopped (nodes s) e q
    end.
Proof.
  induction fuel as [|fuel IH]; intros p b s V Hs Hrk Hshort Hroom [n Hn] HV Hin Hfuel Hb Hlen;
    assert (length (p :: V) <= base.size (nodes s))%nat as Hsize.
  1,3: rewrite <- size_dom, <- (size_list_to_set (C := gset nat)) by (constructor; [intros H; destruct (Hin p H); lia|done]); apply subseteq_size; intros q;
    rewrite elem_of_list_to_set, elem_of_dom; intros [->|Hq]%elem_of_cons; [by exists n|by apply Hin].
  { cbn in *. lia. }
  cbn [climb_rounds]. step ltac:(by apply deref_some). destruct (Z.eqb_spec (nodeid n) FUSE_ROOT_ID) as [Hid|Hid].
  { exists [], p, (inr b), (allocs s). split; [by destruct s|]. split; [constructor|]. split; [by intros x ?%not_elem_of_nil|]. split; [by apply (root_id s p n)|done]. }
  assert (p <> 0%nat) as H0 by (intros H; apply Hid; by apply (root_id s p n)).
  destruct (link_of s p n Hs Hn H0) as [[Hpp Hnm]|(pp & nm & Hpp & Hnm & Hpar)]; rewrite Hpp, Hnm.
  { exists [], p, (inl (- ESTALE, p)), (allocs s). split; [by destruct s|]. split; [constructor|]. split; [by intros x ?%not_elem_of_nil|]. split; [done|].
    right. left. split; [done|]. split; [done|]. by exists n. }
  pose proof (Hshort p n nm Hn Hnm) as Hnlen.
  destruct (add_name_ok b nm s Hb) as (r & k & Hadd & Hr).
  { unfold pathlen, path_room in *. unfold lenZ in Hlen. cbn in Hsize. lia. }
  step ltac:(exact Hadd). destruct r as [b'|].
  2: { exists [], p, (inl (- ENOMEM, p)), k. split; [by destruct s|]. split; [constructor|]. split; [by intros x ?%not_elem_of_nil|]. split; [done|]. by left. }
  destruct Hr as [Hb' Htext]. destruct (Z.ltb_spec (treelock n) 0) as [Hl|Hl].
  { exists [], p, (inl (- EAGAIN, p)), k. split; [by destruct s|]. split; [constructor|]. split; [by intros x ?%not_elem_of_nil|]. split; [done|]. right. right.
    split; [done|]. by exists n. }
  step ltac:(by apply (update_some p _ (set_allocs k s))). set (n1 := set_treelock (treelock n + 1) n).
  set (s1 := set_nodes (<[p := n1]> (nodes (set_allocs k s))) (set_allocs k s)).
  assert (same_keys (nodes s) (nodes s1)) as Hk by (by apply (same_keys_update _ p n)).
  pose proof (Hrk p n pp Hn Hpp) as Hlt.
  assert (base.size (nodes s1) = base.size (nodes s)) as Hsz by (apply map_size_insert_Some; by exists n).
  destruct (IH pp b' s1 (p :: V)) as (l & q & r & k' & Hrun & Hst & Hrd & Hres).
  - by apply (shape_ext [] [] s).
  - by apply (ranked_same rank s).
  - by apply (names_short_same s).
  - unfold path_room. by rewrite Hsz.
  - by apply (same_keys_some (nodes s)).
  - constructor; [intros H; destruct (Hin p H); lia|done].
  - intros x [->|Hx]%elem_of_cons; [split; [apply (same_keys_some (nodes s)); [done|by exists n]|done]|].
    destruct (Hin x Hx). split; [by apply (same_keys_some (nodes s))|lia].
  - rewrite Hsz. cbn [length]. lia.
  - done.
  - rewrite Htext, lenZ_cons. change (String.length ("/" ++ nm ++ text b)) with (S (String.length (nm ++ text b))). rewrite string_length_app. lia.
  - apply (steps_same _ (nodes s)) in Hst; [|by apply same_keys_sym]. destruct (steps_ranks rank s pp l q Hrk Hst) as (_ & Hrl & Hnd). rewrite Forall_forall in Hrl.
    assert (p ∉ l) as Hpl by (intros H; specialize (Hrl p H); lia).
    exists (p :: l), q, r, k'. split; [|split; [by eapply steps_up|split]].
    + rewrite Hrun. unfold relocked, s1. change (nodes (set_allocs k s)) with (nodes s). cbn [nodes set_nodes]. by rewrite <- (relock_cons_inside (fun v => v + 1) p n l (nodes s)).
    + intros x [->|Hx]%elem_of_cons; [by exists n|]. destruct (Hrd x Hx) as (nx & Hnx & Hlx). exists nx. split; [|done].
      unfold s1 in Hnx. cbn in Hnx. rewrite lookup_insert_ne in Hnx; [done|]. by intros ->.
    + destruct r as [[e stop]|b''].
      * destruct Hres as [-> Hstop]. split; [done|]. destruct (steps_ranks rank s pp l q Hrk Hst) as (Hrq & _). assert (q <> p) by (intros ->; lia).
        unfold stopped in *. unfold s1 in Hstop. cbn [nodes set_nodes] in Hstop. by rewrite lookup_insert_ne in Hstop by done.
      * destruct Hres as [-> E]. split; [done|]. rewrite E, (path_text_same _ _ _ _ Hk). cbn [path_text]. rewrite Hn. cbn. by rewrite Hnm, Htext.
Qed.

Definition unread (v : Z) : Z := if v - 1 =? TREELOCK_WAIT_OFFSET then 0 else v - 1.
Definition read_locked (v : Z) : Prop := v <> 0 /\ v <> TREELOCK_WAIT_OFFSET /\ v <> TREELOCK_WRITE.
Lemma relocked_id s : relocked (nodes s) (allocs s) s = s.
Proof. by destruct s. Qed.
Lemma visited_bound s (V : list nat) : NoDup V -> (forall x, x ∈ V -> is_Some (nodes s !! x)) -> (length V <= base.size (nodes s))%nat.
Proof.
  intros HV Hin. rewrite <- size_dom, <- (size_list_to_set (C := gset nat)) by done. apply subseteq_size. intros q.
  rewrite elem_of_list_to_set, elem_of_dom. apply Hin.
Qed.
Lemma unlock_rounds_ok rank fuel : forall p l q stop s V, shape [] [] s -> ranked rank s -> steps (nodes s) p l q -> is_Some (nodes s !! q) ->
  (stop = Some q \/ stop = None /\ q = 0%nat) -> (forall x, x ∈ l -> stop <> Some x) ->
  NoDup V -> (forall x, x ∈ V -> is_Some (nodes s !! x) /\ (rank p < rank x)%nat) -> (base.size (nodes s) < fuel + length V)%nat ->
  (forall x n, x ∈ l -> nodes s !! x = Some n -> read_locked (treelock n)) ->
  unlock_rounds fuel p stop s = Done tt (relocked (relock unread l (nodes s)) (allocs s) s).
Proof.
  induction fuel as [|fuel IH]; intros p l q stop s V Hs Hrk Hst Hq Hstop Hnstop HV Hin Hfuel Hlock.
  - exfalso. assert (length (p :: V) <= base.size (nodes s))%nat; [|cbn in *; lia]. apply visited_bound; [constructor; [intros H; destruct (Hin p H); lia|done]|].
    intros x [->|Hx]%elem_of_cons; [|by apply Hin]. inversion Hst; subst; [done|by eexists].
  - cbn [unlock_rounds]. inversion Hst as [|p' n pp nm l' q' H0 Hn Hnm Hpp Hst']; subst.
    + cbn. rewrite relocked_id. destruct Hstop as [->|[-> ->]]; [by rewrite decide_True|]. rewrite decide_False by done. destruct Hq as [r Hr].
      step ltac:(by apply deref_some). destruct (Z.eqb_spec (nodeid r) FUSE_ROOT_ID) as [|Hid]; [done|]. exfalso. apply Hid. by apply (root_id s 0%nat).
    + rewrite decide_False by (apply not_eq_sym, Hnstop; left). step ltac:(by apply deref_some).
      destruct (Z.eqb_spec (nodeid n) FUSE_ROOT_ID) as [Hid|Hid]; [exfalso; by apply H0, (root_id s p n)|].
      destruct (Hlock p n ltac:(left) Hn) as (L1 & L2 & L3). unfold passert.
      destruct (Z.eqb_spec (treelock n) 0); [done|]. step ltac:(exact eq_refl). destruct (Z.eqb_spec (treelock n) TREELOCK_WAIT_OFFSET); [done|]. step ltac:(exact eq_refl).
      destruct (Z.eqb_spec (treelock n) TREELOCK_WRITE); [done|]. step ltac:(exact eq_refl). step ltac:(by apply update_some).
      rewrite Hpp. step ltac:(exact eq_refl). fold (unread (treelock n)). set (s1 := set_nodes (<[p := set_treelock (unread (treelock n)) n]> (nodes s)) s).
      assert (same_keys (nodes s) (nodes s1)) as Hk by (by apply (same_keys_update _ p n)).
      assert (base.size (nodes s1) = base.size (nodes s)) as Hsz by (apply map_size_insert_Some; by exists n).
      pose proof (Hrk p n pp Hn Hpp) as Hlt. destruct (steps_ranks rank s pp l' q Hrk Hst') as (_ & Hrl & Hnd). rewrite Forall_forall in Hrl.
      assert (p ∉ l') as Hpl by (intros H; specialize (Hrl p H); lia).
      rewrite (IH pp l' q stop s1 (p :: V)).
      * unfold relocked, s1. cbn [nodes set_nodes allocs]. rewrite (relock_cons_inside unread p n l' (nodes s)) by done. by destruct s.
      * by apply (shape_ext [] [] s).
      * by apply (ranked_same rank s).
      * by apply (steps_same (nodes s)).
      * by apply (same_keys_some (nodes s)).
      * done.
      * intros x Hx. apply Hnstop. by right.
      * constructor; [intros H; destruct (Hin p H); lia|done].
      * intros x [->|Hx]%elem_of_cons; [split; [apply (same_keys_some (nodes s)); [done|by exists n]|done]|].
        destruct (Hin x Hx). split; [by apply (same_keys_some (nodes s))|lia].
      * rewrite Hsz. cbn [length]. lia.
      * intros x m Hx Hm. apply (Hlock x m); [by right|]. unfold s1 in Hm. cbn in Hm. rewrite lookup_insert_ne in Hm; [done|]. by intros ->.
Qed.
Definition wlist (w : option nat) : list nat := match w with Some x => [x] | None => [] end.
Lemma wlist_nodup w : NoDup (wlist w).
Proof. destruct w; [apply NoDup_singleton|constructor]. Qed.
Lemma unlock_path_ok s p n l q w stop : shape [] [] s -> (exists rank, ranked rank s) -> nodes s !! p = Some n -> steps (nodes s) p l q -> is_Some (nodes s !! q) ->
  (stop = Some q \/ stop = None /\ q = 0%nat) -> (forall x, x ∈ l -> stop <> Some x) ->
  (forall x m, x ∈ l -> nodes s !! x = Some m -> read_locked (treelock m)) ->
  (forall x, w = Some x -> x ∉ l /\ exists m, nodes s !! x = Some m /\ treelock m = TREELOCK_WRITE) ->
  unlock_path (nodeid n) w stop s = Done tt (relocked (relock unread l (relock (fun _ => 0) (wlist w) (nodes s))) (allocs s) s).
Proof.
  intros Hs [rank Hrk] Hn Hst Hq Hstop Hns Hlock Hw. unfold unlock_path.
  set (s1 := relocked (relock (fun _ => 0) (wlist w) (nodes s)) (allocs s) s).
  assert (same_keys (nodes s) (nodes s1)) as Hk by apply relock_keys, wlist_nodup.
  assert (match w with Some w => n ← deref w; _ ← passert (treelock n =? TREELOCK_WRITE); update w (set_treelock 0) | None => mret tt end s = Done tt s1) as Hrun.
  { unfold s1. destruct w as [x|]; cbn [wlist].
    - destruct (Hw x eq_refl) as (_ & m & Hm & Hl). step ltac:(by apply deref_some). rewrite Hl. step ltac:(exact eq_refl). rewrite (update_some x _ s m Hm).
      f_equal. unfold relocked. cbn [relock foldr]. replace (alter _ x (nodes s)) with (<[x := set_treelock 0 m]> (nodes s)); [by destruct s|].
      apply map_eq. intros y. destruct (decide (y = x)) as [->|]; [by rewrite lookup_insert_eq, lookup_alter_eq, Hm|by rewrite lookup_insert_ne, lookup_alter_ne].
    - cbn. by rewrite relocked_id. }
  step ltac:(exact Hrun). assert (shape [] [] s1) as Hs1 by (by apply (shape_ext [] [] s)).
  destruct (same_keys_lookup _ _ p n (same_keys_sym _ _ Hk) Hn) as (n1 & Hn1 & Eid & _).
  rewrite Eid. step ltac:(exact (get_node_spec [] [] s1 p n1 Hs1 Hn1 (not_elem_of_nil p))). step ltac:(exact eq_refl).
  rewrite (unlock_rounds_ok rank _ p l q stop s1 []); try done.
  - by apply (ranked_same rank s).
  - by apply (steps_same (nodes s)).
  - by apply (same_keys_some (nodes s)).
  - constructor.
  - by intros x ?%not_elem_of_nil.
  - cbn [length]. lia.
  - intros x m Hx Hm. apply (Hlock x m Hx). unfold s1, relocked in Hm. cbn [nodes set_nodes] in Hm. rewrite relock_lookup in Hm by apply wlist_nodup.
    rewrite decide_False in Hm; [done|]. destruct w as [y|]; [|apply not_elem_of_nil]. cbn. rewrite list_elem_of_singleton. intros ->. by destruct (Hw y eq_refl).
Qed.

(** ** One attempt *)

Definition sound (s : fuse) : Prop := shape [] [] s /\ (exists rank, ranked rank s) /\ names_short s /\ path_room s.
Definition asks_ok (a : path_ask) : Prop := (forall nm, ask_name a = Some nm -> (String.length nm <= 1024)%nat) /\ (ask_write a = true -> ask_name a <> None).
Definition suffix (a : path_ask) : string := match ask_name a with Some nm => ("/" ++ nm)%string | None => ""%string end.
(** The node of the name that is asked for writing. *)
Definition wnode_of (s : fuse) (a : path_ask) (w : option nat) : Prop :=
  match ask_write a, ask_name a, w with
  | true, Some nm, Some x => child_named s [] (ask_ino a) nm x
  | true, Some nm, None => forall x, ~ child_named s [] (ask_ino a) nm x
  | _, _, _ => w = None
  end.
Definition flag (v : Z) : Z := if 0 <? v then v + TREELOCK_WAIT_OFFSET else v.
(** Somebody else's lock is in the way: on the node to be written, or up the way. *)
Definition blocked (s : fuse) (a : path_ask) (p : nat) : Prop :=
  (exists w m, wnode_of s a (Some w) /\ nodes s !! w = Some m /\ treelock m <> 0) \/
  exists l q m, steps (nodes s) p l q /\ nodes s !! q = Some m /\ treelock m < 0.
Definition orphaned (s : fuse) (p : nat) : Prop := exists l q n, steps (nodes s) p l q /\ q <> 0%nat /\ nodes s !! q = Some n /\ parent n = None.
Definition refused (s : fuse) (a : path_ask) (p : nat) (e : Z) : Prop :=
  e = - ENOMEM /\ no_memory \/ e = - ESTALE /\ orphaned s p \/ e = - EAGAIN /\ blocked s a p.
(** The locks after a refusal: at most a waiting writer has announced itself. *)
Definition announced (s : fuse) (a : path_ask) (m' : gmap nat node) : Prop :=
  m' = nodes s \/ exists w m, wnode_of s a (Some w) /\ nodes s !! w = Some m /\ 0 < treelock m /\ m' = relock flag [w] (nodes s).

Lemma start_ok a s : asks_ok a -> exists r k,
  match ask_name a with Some nm => add_name mem {| bufsize := 256; text := "" |} nm | None => mret (Some {| bufsize := 256; text := "" |}) end s = Done r (set_allocs k s) /\
  match r with Some b => buf_ok b /\ text b = suffix a /\ Z.of_nat (String.length (text b)) <= 1025 | None => no_memory end.
Proof.
  intros [Hn _]. unfold suffix. assert (buf_ok {| bufsize := 256; text := "" |}) as Hb by (unfold buf_ok, pathlen; cbn; lia). destruct (ask_name a) as [nm|].
  - specialize (Hn nm eq_refl). destruct (add_name_ok {| bufsize := 256; text := "" |} nm s Hb) as (r & k & Hrun & Hr); [unfold pathlen; cbn; lia|].
    exists r, k. split; [done|]. destruct r as [b|]; [|done]. destruct Hr as [Hb' Ht]. cbn [text] in Ht.
    assert (nm ++ "" = nm)%string as E by (clear; induction nm as [|c nm IH]; [done|apply (f_equal (String c)), IH]). rewrite E in Ht.
    split; [done|]. split; [done|]. rewrite Ht. change (String.length ("/" ++ nm)) with (S (String.length nm)). lia.
  - exists (Some {| bufsize := 256; text := "" |}), (allocs s). split; [by destruct s|]. split; [done|]. split; [done|]. cbn. lia.
Qed.
Lemma relock_one f x m n : m !! x = Some n -> <[x := set_treelock (f (treelock n)) n]> m = relock f [x] m.
Proof.
  intros Hx. apply map_eq. intros y. rewrite relock_lookup by apply NoDup_singleton. destruct (decide (y = x)) as [->|Hne].
  - rewrite lookup_insert_eq, decide_True by left. by rewrite Hx.
  - rewrite lookup_insert_ne, decide_False; [done| |done]. by rewrite list_elem_of_singleton.
Qed.
Lemma wnode_unique s a w w' : shape [] [] s -> wnode_of s a (Some w) -> wnode_of s a (Some w') -> w = w'.
Proof.
  intros Hs. unfold wnode_of. destruct (ask_write a), (ask_name a) as [nm|]; try done. intros (_ & pp & pn & Hl & Hpn & E) (_ & qq & qn & Hl' & Hqn & E').
  assert (pp = qq) as -> by (apply (shape_inj s pp qq pn qn); [done..|congruence]). by eapply (sh_uniq _ _ _ Hs w w' qq nm); try apply not_elem_of_nil.
Qed.
(** The node to be written is locked, is not there, or is in use. *)
Lemma write_lock_ok a s : shape [] [] s -> asks_ok a -> exists r m',
  (if ask_write a then _ ← passert true; lock_wnode (ask_ino a) (ask_name a) else mret (inr None)) s = Done r (relocked m' (allocs s) s) /\
  match r with
  | inr w => wnode_of s a w /\ (forall x, w = Some x -> exists m, nodes s !! x = Some m /\ treelock m = 0) /\ m' = relock (fun _ => TREELOCK_WRITE) (wlist w) (nodes s)
  | inl e => e = - EAGAIN /\ (exists w m, wnode_of s a (Some w) /\ nodes s !! w = Some m /\ treelock m <> 0) /\ announced s a m'
  end.
Proof.
  intros Hs [_ Hwn]. unfold announced, wnode_of. destruct (ask_write a) eqn:Hw; [|exists (inr None), (nodes s); cbn; by rewrite relocked_id].
  destruct (ask_name a) as [nm|] eqn:Hnm; [|by destruct (Hwn eq_refl)]. step ltac:(exact eq_refl). unfold lock_wnode. step ltac:(exact eq_refl).
  destruct (lookup_node_spec [] [] s (ask_ino a) nm Hs) as (r & Hlk & Hspec). step ltac:(exact Hlk). destruct r as [w|].
  - pose proof Hspec as (_ & pp & pn & (m & Hm & _) & _). step ltac:(by apply deref_some). destruct (Z.eqb_spec (treelock m) 0) as [Hz|Hz].
    + step ltac:(by apply update_some). eexists (inr (Some w)), _. split; [|split; [done|split; [|reflexivity]]].
      * unfold relocked. cbn [wlist]. rewrite <- (relock_one (fun _ => TREELOCK_WRITE) w (nodes s) m Hm). by destruct s.
      * intros x [= <-]. by exists m.
    + destruct (Z.ltb_spec 0 (treelock m)) as [Hpos|Hpos].
      * step ltac:(by apply update_some). eexists (inl (- EAGAIN)), (relock flag [w] (nodes s)). split; [|split; [done|split; [by exists w, m|right; by exists w, m]]].
        unfold relocked. rewrite <- (relock_one flag w (nodes s) m Hm). unfold flag. destruct (Z.ltb_spec 0 (treelock m)); [|lia]. by destruct s.
      * step ltac:(exact eq_refl). exists (inl (- EAGAIN)), (nodes s). split; [by rewrite relocked_id|]. split; [done|]. split; [by exists w, m|by left].
  - exists (inr None), (nodes s). split; [by rewrite relocked_id|]. split; [done|]. by split.
Qed.

Lemma wnode_above rank s a p n w : shape [] [] s -> ranked rank s -> nodes s !! p = Some n -> nodeid n = ask_ino a -> wnode_of s a (Some w) ->
  (rank p < rank w)%nat /\ is_Some (nodes s !! w).
Proof.
  intros Hs Hrk Hn Hid. unfold wnode_of. destruct (ask_write a), (ask_name a) as [nm|]; try done. intros (_ & pp & pn & (m & Hm & Hp & _) & Hpn & E).
  assert (pp = p) as -> by (apply (shape_inj s pp p pn n); [done..|congruence]). split; [by apply (Hrk w m p)|by exists m].
Qed.
Lemma wnode_off_way rank s a p n w l q : shape [] [] s -> ranked rank s -> nodes s !! p = Some n -> nodeid n = ask_ino a -> wnode_of s a (Some w) ->
  steps (nodes s) p l q -> w ∉ l /\ w <> q.
Proof.
  intros Hs Hrk Hn Hid Hw Hst. destruct (wnode_above rank s a p n w Hs Hrk Hn Hid Hw) as [Hlt _]. destruct (steps_ranks rank s p l q Hrk Hst) as (H1 & H2 & _).
  rewrite Forall_forall in H2. split; [intros H; specialize (H2 w H); lia|intros ->; lia].
Qed.
Lemma treelock_back n u v : v = treelock n -> set_treelock v (set_treelock u n) = n.
Proof. intros ->. by destruct n. Qed.
(** Locking and unlocking again leaves every lock as it was. *)
Lemma unlock_restores l w m : NoDup l -> (forall x, x ∈ l -> readable m x) -> (forall x, w = Some x -> x ∉ l /\ exists n, m !! x = Some n /\ treelock n = 0) ->
  relock unread l (relock (fun _ => 0) (wlist w) (relock (fun v => v + 1) l (relock (fun _ => TREELOCK_WRITE) (wlist w) m))) = m.
Proof.
  intros Hl Hr Hw. apply map_eq. intros q. rewrite !relock_lookup by (apply wlist_nodup || done).
  destruct (decide (q ∈ l)) as [Hq|Hq].
  - assert (q ∉ wlist w) as Hqw.
    { destruct w as [x|]; [|apply not_elem_of_nil]. cbn. rewrite list_elem_of_singleton. intros ->. by destruct (Hw x eq_refl). }
    destruct (decide (q ∈ wlist w)) as [Hd|_]; [destruct (Hqw Hd)|]. destruct (Hr q Hq) as (n & -> & Hn). cbn. f_equal. apply treelock_back. unfold unread, TREELOCK_WAIT_OFFSET. cbn.
    destruct (Z.eqb_spec (treelock n + 1 - 1) (- 2 ^ 31)); lia.
  - destruct w as [x|]; cbn [wlist]; [|by destruct (decide (q ∈ [])) as [?%not_elem_of_nil|]]. destruct (decide (q ∈ [x])) as [->%list_elem_of_singleton|]; [|done].
    destruct (Hw x eq_refl) as (_ & n & -> & Hn). cbn. f_equal. by apply treelock_back.
Qed.
Definition granted (s : fuse) (a : path_ask) (p : nat) (g : got) (m' : gmap nat node) : Prop := exists l,
  steps (nodes s) p l 0 /\ (forall x, x ∈ l -> readable (nodes s) x) /\ wnode_of s a g.2 /\
  (forall x, g.2 = Some x -> x ∉ l /\ exists m, nodes s !! x = Some m /\ treelock m = 0) /\
  m' = relock (fun v => v + 1) l (relock (fun _ => TREELOCK_WRITE) (wlist g.2) (nodes s)) /\
  g.1 = let t := path_text (nodes s) l (suffix a) in if String.eqb t "" then "/"%string else t.
Lemma try_get_path_ok s a p n : sound s -> nodes s !! p = Some n -> nodeid n = ask_ino a -> asks_ok a ->
  exists r m' k, try_get_path mem a true s = Done r (relocked m' k s) /\
    match r with inr g => granted s a p g m' | inl e => announced s a m' /\ refused s a p e end.
Proof.
  intros (Hs & [rank Hrk] & Hshort & Hroom) Hn Hid Ha. unfold try_get_path. rewrite (bind_done _ _ _ _ _ (get_memory_done s)).
  destruct (mem (allocs s)) eqn:Hmem; cbn [negb].
  2: { exists (inl (- ENOMEM)), (nodes s), (S (allocs s)). split; [done|]. split; [by left|]. left. split; [done|]. by exists (allocs s). }
  destruct (start_ok a (set_allocs (S (allocs s)) s) Ha) as (b & k & Hb & Hbok). step ltac:(exact Hb). change (set_allocs k (set_allocs (S (allocs s)) s)) with (set_allocs k s).
  destruct b as [b|]; [|exists (inl (- ENOMEM)), (nodes s), k; split; [by destruct s|]; split; [by left|by left]].
  destruct Hbok as (Hbuf & Htext & Hlen). assert (shape [] [] (set_allocs k s)) as Hsk by (apply (tree_eq_shape [] [] s); [by split_and!|done]).
  destruct (write_lock_ok a (set_allocs k s) Hsk Ha) as (w & m1 & Hw & Hwok). step ltac:(exact Hw).
  change (relocked m1 (allocs (set_allocs k s)) (set_allocs k s)) with (relocked m1 k s). destruct w as [e|w].
  { destruct Hwok as (-> & Hbl & Han). exists (inl (- EAGAIN)), m1, k. split; [done|]. split; [exact Han|]. right. right. split; [done|]. by left. }
  destruct Hwok as (Hwn & Hwz & ->). set (m1 := relock (fun _ => TREELOCK_WRITE) (wlist w) (nodes (set_allocs k s))). change (nodes (set_allocs k s)) with (nodes s) in *.
  assert (same_keys (nodes s) m1) as Hk1 by apply relock_keys, wlist_nodup. set (s1 := relocked m1 k s).
  assert (shape [] [] s1) as Hs1 by (by apply (shape_ext [] [] s)).
  destruct (same_keys_lookup _ _ p n (same_keys_sym _ _ Hk1) Hn) as (n1 & Hn1 & Eid & _).
  rewrite <- Hid, Eid. step ltac:(exact (get_node_spec [] [] s1 p n1 Hs1 Hn1 (not_elem_of_nil p))). step ltac:(exact eq_refl).
  assert (base.size (nodes s1) = base.size (nodes s)) as Hsz.
  { rewrite <- !size_dom. f_equal. apply set_eq. intros x. rewrite !elem_of_dom. by apply same_keys_some. }
  destruct (climb_ok rank (S (base.size (nodes s1))) p b s1 []) as (l & q & r & k' & Hrun & Hst & Hrd & Hres); try done.
  { by apply (ranked_same rank s). } { by apply (names_short_same s). } { unfold path_room. by rewrite Hsz. } { constructor. }
  { by intros x ?%not_elem_of_nil. } { cbn [length]. lia. }
  step ltac:(exact Hrun). apply (steps_same _ (nodes s)) in Hst; [|by apply same_keys_sym].
  assert (forall x, w = Some x -> x ∉ l /\ x <> q) as Hoff by (intros x ->; by apply (wnode_off_way rank s a p n x l q)).
  assert (forall x, w <> Some x -> nodes s1 !! x = nodes s !! x) as Hsame.
  { intros x Hx. unfold s1, relocked, m1. cbn [nodes set_nodes]. rewrite relock_lookup by apply wlist_nodup. rewrite decide_False; [done|].
    destruct w; [|apply not_elem_of_nil]. cbn. rewrite list_elem_of_singleton. congruence. }
  assert (forall x, x ∈ l -> readable (nodes s) x) as Hrd0 by (intros x Hx; unfold readable; rewrite <- Hsame; [by apply Hrd|]; intros ->; by destruct (Hoff x eq_refl)).
  assert (forall x, w = Some x -> x ∉ l /\ exists m, nodes s !! x = Some m /\ treelock m = 0) as Hwl by (intros x Hx; split; [by apply Hoff|by apply Hwz]).
  destruct (steps_ranks rank s p l q Hrk Hst) as (_ & _ & Hnd).
  set (s2 := relocked (relock (fun v => v + 1) l (nodes s1)) k' s1) in *. destruct r as [[e stop]|b'].
  - destruct Hres as [-> Hstop]. assert (same_keys (nodes s1) (nodes s2)) as Hk2 by (by apply relock_keys).
    destruct (same_keys_lookup _ _ p n1 (same_keys_sym _ _ Hk2) Hn1) as (n2 & Hn2 & Eid2 & _).
    assert (is_Some (nodes s2 !! q)) as Hq2.
    { apply (same_keys_some (nodes s1)); [done|]. apply (same_keys_some (nodes s)); [done|]. apply (steps_exists s p l q Hs Hst). by exists n. }
    assert (forall x, x ∈ l -> q <> x) as Hql. { intros x Hx ->. pose proof (steps_end rank s p l x x Hrk Hst Hx). lia. }
    assert (unlock_path (nodeid n2) w (Some q) s2 = Done tt (relocked (nodes s) k' s)) as Hun.
    { rewrite (unlock_path_ok s2 p n2 l q w (Some q)); try done.
      - rewrite <- (unlock_restores l w (nodes s) Hnd Hrd0 Hwl). reflexivity.
      - by apply (shape_ext [] [] s1).
      - exists rank. apply (ranked_same rank s1); [done|]. by apply (ranked_same rank s).
      - apply (steps_same (nodes s1)); [done|]. by apply (steps_same (nodes s)).
      - by left.
      - intros x Hx. pose proof (Hql x Hx). congruence.
      - intros x m Hx Hm. unfold s2, relocked in Hm. cbn [nodes set_nodes] in Hm. rewrite relock_lookup, decide_True in Hm by done.
        destruct (Hrd x Hx) as (mx & Hmx & Hlx). rewrite Hmx in Hm. injection Hm as <-. cbn.
        unfold read_locked, TREELOCK_WAIT_OFFSET, TREELOCK_WRITE. lia.
      - intros x ->. destruct (Hwl x eq_refl) as (Hxl & mx & Hmx & _). split; [done|]. unfold s2, relocked. cbn [nodes set_nodes].
        rewrite relock_lookup, decide_False by done. unfold s1, relocked, m1. cbn [nodes set_nodes wlist]. rewrite relock_lookup, decide_True by (apply NoDup_singleton || left).
        rewrite Hmx. by eexists. }
    rewrite Eid2. step ltac:(exact Hun). exists (inl e), (nodes s), k'. split; [done|]. split; [by left|]. unfold refused.
    unfold stopped in Hstop. rewrite Hsame in Hstop by (intros ->; by destruct (Hoff q eq_refl)).
    destruct Hstop as [?|[(-> & Hq0 & x & Hx & Hpx)|(-> & x & Hx & Hlx)]]; [by left|right; left|right; right]; (split; [done|]).
    + by exists l, q, x.
    + right. by exists l, q, x.
  - destruct Hres as [-> Htx]. eexists (inr (_, w)), _, k'. split; [reflexivity|]. exists l. split; [done|]. split; [done|]. split; [exact Hwn|].
    split; [done|]. split; [reflexivity|]. cbn [fst]. by rewrite Htx, Htext, (path_text_same _ _ _ _ Hk1).
Qed.
End Facts.
