(* ===== verification/HlPathLocks.v ===== *)
(** * The locks of the paths that are in use account for [treelock]

    A claim is a path somebody has: what was asked for and what was given.  [accounts]
    says that every claim still leads from its node to the root and that the lock of every
    node is made up of the claims: as many readers as claims whose way goes through it, or
    one writer and no reader.  Giving a path out, refusing one, taking one back and the
    operations on names keep it. *)
From S2P Require Import Prelude Errno Sys HlLocks HlTable HlNodes HlTree HlNames HlSpace HlPaths HlPathFacts.

Notation claim := (path_ask * got)%type.
(** A claim with the nodes of its way. *)
Notation placed := (path_ask * got * list nat)%type.
Definition readers (G : list placed) (x : nat) : Z := lenZ (filter (fun g => x ∈ g.2) G).
Definition writers (G : list placed) (x : nat) : Z := lenZ (filter (fun g => g.1.2.2 = Some x) G).
(** What [treelock] is with [r] readers and [w] writers; a waiting writer may have
    announced itself to the readers. *)
Definition lock_ok (r w v : Z) : Prop := w = 0 /\ (v = r \/ 0 < r /\ v = r + TREELOCK_WAIT_OFFSET) \/ w = 1 /\ r = 0 /\ v = TREELOCK_WRITE.
Definition given (m : gmap nat node) (a : path_ask) (l : list nat) : string :=
  let t := path_text m l (suffix a) in if String.eqb t "" then "/"%string else t.
Definition way_ok (s : fuse) (g : placed) : Prop :=
  (exists p n, nodes s !! p = Some n /\ nodeid n = ask_ino g.1.1 /\ steps (nodes s) p g.2 0) /\
  g.1.2.1 = given (nodes s) g.1.1 g.2 /\ forall x, g.1.2.2 = Some x -> is_Some (nodes s !! x).
Definition accounts (s : fuse) (G : list placed) : Prop :=
  Forall (way_ok s) G /\ forall x n, nodes s !! x = Some n -> lock_ok (readers G x) (writers G x) (treelock n).
(** There are not so many threads that the counters overflow. *)
Definition few (G : list placed) : Prop := lenZ G < 2 ^ 31 - 1.

(** ** Counting *)

Lemma readers_cons g G x : readers (g :: G) x = (if decide (x ∈ g.2) then 1 else 0) + readers G x.
Proof. unfold readers. rewrite filter_cons. repeat case_decide; [apply lenZ_cons|done..]. Qed.
Lemma writers_cons g G x : writers (g :: G) x = (if decide (g.1.2.2 = Some x) then 1 else 0) + writers G x.
Proof. unfold writers. rewrite filter_cons. repeat case_decide; [apply lenZ_cons|done..]. Qed.
Lemma counts_range G x : 0 <= readers G x <= lenZ G /\ 0 <= writers G x <= lenZ G.
Proof.
  split; (split; [apply lenZ_nonneg|]); apply inj_le, length_filter.
Qed.
Lemma lenZ_elem {A} (x : A) l : x ∈ l -> 1 <= lenZ l.
Proof. destruct l as [|y l]; [by intros ?%not_elem_of_nil|]. intros _. rewrite lenZ_cons. pose proof (lenZ_nonneg l). lia. Qed.
Lemma accounts_perm s G G' : G ≡ₚ G' -> accounts s G -> accounts s G'.
Proof.
  intros Hp [H1 H2]. split; [by rewrite <- Hp|]. intros x n Hx. specialize (H2 x n Hx). unfold readers, writers in *.
  by rewrite <- !(lenZ_perm _ _ (filter_Permutation _ _ _ Hp)).
Qed.
Lemma reader_counts G x g : g ∈ G -> x ∈ g.2 -> 1 <= readers G x.
Proof.
  intros Hg Hx. unfold readers. assert (g ∈ filter (fun g : placed => x ∈ g.2) G) as H by (by apply list_elem_of_filter).
  by apply lenZ_elem in H.
Qed.
Lemma writer_counts G x g : g ∈ G -> g.1.2.2 = Some x -> 1 <= writers G x.
Proof.
  intros Hg Hx. unfold writers. assert (g ∈ filter (fun g : placed => g.1.2.2 = Some x) G) as H by (by apply list_elem_of_filter).
  by apply lenZ_elem in H.
Qed.
(** Whose lock it is. *)
Lemma counted_claim G x : 0 < readers G x + writers G x -> exists g, g ∈ G /\ (x ∈ g.2 \/ g.1.2.2 = Some x).
Proof.
  induction G as [|g G IH]; [by intros H%Z.lt_irrefl|]. rewrite readers_cons, writers_cons.
  destruct (decide (x ∈ g.2)); [exists g; split; [left|by left]|]. destruct (decide (g.1.2.2 = Some x)); [exists g; split; [left|by right]|].
  intros H. destruct IH as (g' & Hg & ?); [lia|]. exists g'. split; [by right|done].
Qed.
Lemma locked_claim s G x n : accounts s G -> nodes s !! x = Some n -> treelock n <> 0 -> exists g, g ∈ G /\ (x ∈ g.2 \/ g.1.2.2 = Some x).
Proof.
  intros [_ H] Hx Hl. apply counted_claim. specialize (H x n Hx). destruct (counts_range G x). unfold lock_ok in H. lia.
Qed.
Lemma reader_locked s G g x n : accounts s G -> few G -> g ∈ G -> x ∈ g.2 -> nodes s !! x = Some n ->
  writers G x = 0 /\ (treelock n = readers G x \/ treelock n = readers G x + TREELOCK_WAIT_OFFSET) /\ read_locked (treelock n).
Proof.
  intros [_ H] Hf Hg Hx Hn. specialize (H x n Hn). pose proof (reader_counts G x g Hg Hx). destruct (counts_range G x). unfold few in Hf.
  unfold lock_ok, read_locked, TREELOCK_WRITE, TREELOCK_WAIT_OFFSET in *. lia.
Qed.
Lemma writer_locked s G g x n : accounts s G -> g ∈ G -> g.1.2.2 = Some x -> nodes s !! x = Some n -> readers G x = 0 /\ writers G x = 1 /\ treelock n = TREELOCK_WRITE.
Proof. intros [_ H] Hg Hx Hn. specialize (H x n Hn). pose proof (writer_counts G x g Hg Hx). unfold lock_ok in H. lia. Qed.

(** ** Changing locks only *)

(** The same nodes but for their locks. *)
Definition relocks (m m' : gmap nat node) : Prop := forall p, m' !! p = (fun n => set_treelock (match m' !! p with Some n' => treelock n' | None => 0 end) n) <$> m !! p.
Lemma relocks_refl m : relocks m m.
Proof. intros p. destruct (m !! p) as [[]|]; done. Qed.
Lemma relocks_some m m' p n' : relocks m m' -> m' !! p = Some n' -> exists n, m !! p = Some n /\ n' = set_treelock (treelock n') n.
Proof. intros H Hp. specialize (H p). rewrite Hp in H. destruct (m !! p) as [n|]; [|done]. injection H as H. by exists n. Qed.
Lemma relocks_back m m' p n : relocks m m' -> m !! p = Some n -> exists n', m' !! p = Some n' /\ n' = set_treelock (treelock n') n.
Proof. intros H Hp. specialize (H p). rewrite Hp in H. destruct (m' !! p) as [n'|]; [|done]. injection H as H. by exists n'. Qed.
Lemma relocks_trans a b c : relocks a b -> relocks b c -> relocks a c.
Proof.
  intros H1 H2 p. specialize (H1 p). specialize (H2 p). destruct (b !! p) as [nb|], (a !! p) as [na|], (c !! p) as [nc|]; try done.
  injection H1 as H1. injection H2 as H2. cbn. f_equal. rewrite H2, H1. by destruct na.
Qed.
Lemma relock_relocks f l m : NoDup l -> relocks m (relock f l m).
Proof.
  intros Hl p. rewrite relock_lookup by done. destruct (decide (p ∈ l)); [|apply relocks_refl]. by destruct (m !! p) as [[]|].
Qed.
Lemma relocks_keys m m' : relocks m m' -> same_keys m m'.
Proof. intros H p. specialize (H p). destruct (m !! p), (m' !! p); try done. injection H as ->. done. Qed.
Lemma relocks_size m m' : relocks m m' -> base.size m' = base.size m.
Proof. intros H. rewrite <- !size_dom. f_equal. apply set_eq. intros p. rewrite !elem_of_dom. specialize (H p). destruct (m !! p), (m' !! p); done. Qed.
Lemma relocks_ready m' k s : relocks (nodes s) m' -> ready s -> ready (relocked m' k s).
Proof.
  intros H (Hs & Hr & rank & Hrk). pose proof (relocks_keys _ _ H) as Hk. split; [|split].
  - by apply (shape_ext [] [] s).
  - intros p n' Hn'. destruct (relocks_some _ _ p n' H Hn') as (n & Hn & ->). assert (children (relocked m' k s) p = children s p) as ->; [|by apply (Hr p n)].
    apply children_ext; [done|]. intros c _. by apply (same_keys_parent (nodes s)).
  - exists rank. by apply (ranked_same rank s).
Qed.
Lemma relocks_view m' k s : relocks (nodes s) m' -> ready s -> view (relocked m' k s) = view s.
Proof.
  intros H Hr. pose proof (relocks_ready m' k s H Hr) as (Hs' & _). destruct Hr as (Hs & _). pose proof (relocks_keys _ _ H) as Hk.
  destruct (view_sees s Hs) as [V1 V2]. apply (sees_eq None (relocked m' k s)); [by apply view_sees|]. split.
  - intros par nm ino. rewrite V1. symmetry. by apply (entry_same_keys None s (relocked m' k s)).
  - intros ino v. rewrite V2. split; intros (p & n & Hn & E1 & E2).
    + destruct (relocks_back _ _ p n H Hn) as (n' & Hn' & E). exists p, n'. split; [done|]. by rewrite E.
    + destruct (relocks_some _ _ p n H Hn) as (n' & Hn' & E). exists p, n'. split; [done|]. by rewrite E in E1, E2.
Qed.
Lemma relocks_sound m' k s : relocks (nodes s) m' -> sound s -> sound (relocked m' k s).
Proof.
  intros H (Hs & [rank Hrk] & Hn & Hp). pose proof (relocks_keys _ _ H) as Hk. split; [by apply (shape_ext [] [] s)|]. split; [exists rank; by apply (ranked_same rank s)|].
  split; [by apply (names_short_same s)|]. unfold path_room in *. cbn. by rewrite (relocks_size _ _ H).
Qed.
Lemma given_same m m' a l : same_keys m m' -> given m' a l = given m a l.
Proof. intros H. unfold given. by rewrite (path_text_same m m'). Qed.
Lemma way_relocks m' k s g : relocks (nodes s) m' -> way_ok s g -> way_ok (relocked m' k s) g.
Proof.
  intros H ((p & n & Hn & Hid & Hst) & Hg & Hw). pose proof (relocks_keys _ _ H) as Hk. destruct (relocks_back _ _ p n H Hn) as (n' & Hn' & E). split; [|split].
  - exists p, n'. split; [done|]. split; [by rewrite E|by apply (steps_same (nodes s))].
  - rewrite Hg. symmetry. by apply given_same.
  - intros x Hx. by apply (same_keys_some (nodes s)), Hw.
Qed.

(** ** Giving out, refusing and taking back *)

Lemma granted_relocks s a p g m' : (exists rank, ranked rank s) -> granted s a p g m' -> relocks (nodes s) m'.
Proof.
  intros [rank Hrk] (l & Hst & _ & _ & _ & -> & _). destruct (steps_ranks rank s p l 0 Hrk Hst) as (_ & _ & Hnd).
  eapply relocks_trans; [apply relock_relocks, wlist_nodup|by apply relock_relocks].
Qed.
Lemma in_wlist w x : x ∈ wlist w <-> w = Some x.
Proof. destruct w as [y|]; cbn; [rewrite list_elem_of_singleton; split; [by intros ->|by intros [= ->]]|split; [by intros ?%not_elem_of_nil|done]]. Qed.
Lemma accounts_grant s G a p n g m' k : ready s -> accounts s G -> few G -> nodes s !! p = Some n -> nodeid n = ask_ino a -> granted s a p g m' ->
  exists l, accounts (relocked m' k s) ((a, g, l) :: G).
Proof.
  intros (Hs & _ & Hrk) Hacc Hf Hn Hid Hg. pose proof (granted_relocks s a p g m' Hrk Hg) as Hre. pose proof Hacc as [HG HL].
  destruct Hg as (l & Hst & Hrd & Hwn & Hwz & -> & Htext). destruct Hrk as [rank Hrk]. destruct (steps_ranks rank s p l 0 Hrk Hst) as (_ & _ & Hnd). exists l. split.
  - constructor; [|by eapply Forall_impl; [exact HG|]; intros; apply way_relocks]. apply way_relocks; [done|]. split; [by exists p, n|]. split; [exact Htext|].
    intros x Hx. cbn in Hx. destruct (Hwz x Hx) as (_ & m & Hm & _). by exists m.
  - intros x n' Hx. cbn [relocked nodes set_nodes] in Hx. rewrite !relock_lookup in Hx by (done || apply wlist_nodup). rewrite readers_cons, writers_cons. cbn [fst snd].
    destruct (counts_range G x) as [Hr Hw]. unfold few in Hf. destruct (decide (x ∈ l)) as [Hxl|Hxl].
    + rewrite decide_False in Hx by (rewrite in_wlist; intros E; by destruct (Hwz x E)). rewrite decide_False by (intros E; by destruct (Hwz x E)).
      destruct (Hrd x Hxl) as (m & Hm & Hpos). rewrite Hm in Hx. injection Hx as <-. specialize (HL x m Hm). unfold lock_ok, TREELOCK_WRITE, TREELOCK_WAIT_OFFSET in *. cbn. lia.
    + destruct (decide (x ∈ wlist g.2)) as [Hxw|Hxw].
      * apply in_wlist in Hxw. rewrite decide_True by done. destruct (Hwz x Hxw) as (_ & m & Hm & Hz). rewrite Hm in Hx. injection Hx as <-.
        specialize (HL x m Hm). unfold lock_ok, TREELOCK_WRITE, TREELOCK_WAIT_OFFSET in *. cbn. lia.
      * rewrite decide_False by (by rewrite <- in_wlist). by apply HL.
Qed.
Lemma announced_relocks s a m' : announced s a m' -> relocks (nodes s) m'.
Proof. intros [->|(w & m & _ & _ & _ & ->)]; [apply relocks_refl|apply relock_relocks, NoDup_singleton]. Qed.
Lemma accounts_announce s G a m' k : accounts s G -> few G -> announced s a m' -> accounts (relocked m' k s) G.
Proof.
  intros Hacc Hf Han. pose proof (announced_relocks s a m' Han) as Hre. pose proof Hacc as [HG HL]. split.
  - eapply Forall_impl; [exact HG|]. intros. by apply way_relocks.
  - destruct Han as [->|(w & m & _ & Hm & Hpos & ->)]; [exact HL|]. intros x n' Hx. cbn [relocked nodes set_nodes] in Hx. rewrite relock_lookup in Hx by apply NoDup_singleton.
    destruct (decide (x ∈ [w])) as [->%list_elem_of_singleton|]; [|by apply HL]. rewrite Hm in Hx. injection Hx as <-. specialize (HL w m Hm).
    destruct (counts_range G w). unfold few in Hf. cbn [treelock set_treelock]. unfold flag. destruct (Z.ltb_spec 0 (treelock m)); [|lia].
    unfold lock_ok, TREELOCK_WRITE, TREELOCK_WAIT_OFFSET in *. lia.
Qed.
Lemma way_functional s c l l' : shape [] [] s -> way_ok s (c, l) -> way_ok s (c, l') -> l = l'.
Proof.
  intros Hs ((p & n & Hn & E & Hst) & _) ((q & m & Hm & E' & Hst') & _). cbn in *. assert (p = q) as -> by (apply (shape_inj s p q n m); [done..|congruence]).
  by eapply steps_functional.
Qed.
(** [unlock_path] takes back what a claim holds. *)
Lemma accounts_release s G c l : ready s -> accounts s ((c, l) :: G) -> few ((c, l) :: G) ->
  exists m', unlock_path (ask_ino c.1) c.2.2 None s = Done tt (relocked m' (allocs s) s) /\ relocks (nodes s) m' /\ accounts (relocked m' (allocs s) s) G.
Proof.
  intros (Hs & _ & rank & Hrk) Hacc Hf. pose proof Hacc as [HG HL]. apply Forall_cons in HG as [((p & n & Hn & Hid & Hst) & _ & Hwex) HG]. cbn [fst snd] in *. rewrite <- Hid.
  destruct (steps_ranks rank s p l 0 Hrk Hst) as (_ & _ & Hnd). assert ((c, l) ∈ (c, l) :: G) as Hin by left.
  assert (forall x, c.2.2 = Some x -> x ∉ l) as Hoff.
  { intros x Hx Hxl. destruct (Hwex x Hx) as [m Hm]. destruct (writer_locked s _ _ x m Hacc Hin Hx Hm) as [H0 _]. pose proof (reader_counts _ x _ Hin Hxl). lia. }
  eexists. split; [eapply (unlock_path_ok s p n l 0)|split]; try done.
  - by exists rank.
  - destruct (sh_root _ _ _ Hs) as (r & Hr & _). by exists r.
  - by right.
  - intros x m Hx Hm. by apply (reader_locked s _ _ x m Hacc Hf Hin Hx Hm).
  - intros x Hx. split; [by apply Hoff|]. destruct (Hwex x Hx) as [m Hm]. exists m. split; [done|]. by apply (writer_locked s _ _ x m Hacc Hin Hx Hm).
  - eapply relocks_trans; [apply relock_relocks, wlist_nodup|by apply relock_relocks].
  - assert (relocks (nodes s) (relock unread l (relock (fun _ => 0) (wlist c.2.2) (nodes s)))) as Hre.
    { eapply relocks_trans; [apply relock_relocks, wlist_nodup|by apply relock_relocks]. }
    split; [eapply Forall_impl; [exact HG|]; intros; by apply way_relocks|]. intros x n' Hx. cbn [relocked nodes set_nodes] in Hx.
    rewrite !relock_lookup in Hx by (done || apply wlist_nodup). destruct (counts_range G x). unfold few in Hf. rewrite lenZ_cons in Hf.
    destruct (decide (x ∈ l)) as [Hxl|Hxl].
    + rewrite decide_False in Hx by (rewrite in_wlist; intros E; by apply (Hoff x E)). destruct (nodes s !! x) as [m|] eqn:Hm; [|done]. injection Hx as <-.
      specialize (HL x m Hm). rewrite readers_cons, writers_cons, decide_True, decide_False in HL by (done || intros E; by apply (Hoff x E)).
      unfold lock_ok, unread, TREELOCK_WRITE, TREELOCK_WAIT_OFFSET in *. cbn [treelock set_treelock]. destruct (Z.eqb_spec (treelock m - 1) (- 2 ^ 31)); lia.
    + destruct (decide (x ∈ wlist c.2.2)) as [Hxw|Hxw]; rewrite in_wlist in Hxw.
      * destruct (nodes s !! x) as [m|] eqn:Hm; [|done]. injection Hx as <-. specialize (HL x m Hm). rewrite readers_cons, writers_cons, decide_False, decide_True in HL by done.
        unfold lock_ok, TREELOCK_WRITE, TREELOCK_WAIT_OFFSET in *. cbn [treelock set_treelock]. lia.
      * specialize (HL x n' Hx). rewrite readers_cons, writers_cons, !decide_False in HL by done. exact HL.
Qed.

(** ** The operations on names *)

(** No name on a way is touched, as only nodes that nobody reads are linked elsewhere. *)
Definition untouched (s : fuse) (T : nat -> Prop) : Prop := forall x n, T x -> nodes s !! x = Some n -> treelock n = 0 \/ treelock n = TREELOCK_WRITE.
Lemma steps_around T s s' : mild T s s' -> forall p l q, (forall x, x ∈ l -> exists n, nodes s !! x = Some n /\ treelock n <> 0 /\ ~ T x) ->
  (forall x, is_Some (nodes s !! x) -> (x < next_ptr s)%nat) -> steps (nodes s) p l q -> steps (nodes s') p l q.
Proof.
  intros (_ & M2 & M3) p l q Hl Hfr Hst. induction Hst as [p|p n pp nm l q H0 Hn Hnm Hpp _ IH]; [constructor|].
  destruct (Hl p) as (m & Hm & Hlm & HT); [left|]. assert (m = n) as -> by congruence. destruct (M3 p n Hm Hlm) as (n' & Hn' & _).
  destruct (M2 p n' Hn') as [(m & Hm' & _ & _ & E)|[Hge _]]; [|specialize (Hfr p ltac:(by exists n)); lia]. assert (m = n) as -> by congruence. destruct (E HT) as [E1 E2].
  eapply steps_up; [done|done|by rewrite E2|by rewrite E1|]. apply IH. intros x Hx. apply Hl. by right.
Qed.
Lemma path_text_ext m m' l : (forall x, x ∈ l -> m' !! x ≫= name = m !! x ≫= name) -> forall t, path_text m' l t = path_text m l t.
Proof.
  induction l as [|x l IH]; intros H t; [done|]. cbn. rewrite (H x) by left. apply IH. intros y Hy. apply H. by right.
Qed.
Lemma claim_lock s G x n : accounts s G -> few G -> nodes s !! x = Some n -> treelock n <> 0 <-> exists g, g ∈ G /\ (x ∈ g.2 \/ g.1.2.2 = Some x).
Proof.
  intros Hacc Hf Hn. split; [by eapply locked_claim|]. intros (g & Hg & [Hx|Hx]).
  - destruct (reader_locked s G g x n Hacc Hf Hg Hx Hn) as (_ & _ & H & _). done.
  - destruct (writer_locked s G g x n Hacc Hg Hx Hn) as (_ & _ & ->). done.
Qed.
Lemma around_node T s s' x n : mild T s s' -> (forall x, is_Some (nodes s !! x) -> (x < next_ptr s)%nat) -> nodes s !! x = Some n -> treelock n <> 0 ->
  exists n', nodes s' !! x = Some n' /\ treelock n' = treelock n /\ nodeid n' = nodeid n /\ (~ T x -> parent n' = parent n /\ name n' = name n).
Proof.
  intros (_ & M2 & M3) Hfr Hn Hl. destruct (M3 x n Hn Hl) as (n' & Hn' & E). exists n'. split; [done|].
  destruct (M2 x n' Hn') as [(m & Hm & E1 & E2 & E3)|[Hge _]]; [|specialize (Hfr x ltac:(by exists n)); lia]. assert (m = n) as -> by congruence. done.
Qed.
Lemma accounts_around T s s' G : ready s -> ready s' -> accounts s G -> few G -> mild T s s' -> untouched s T -> accounts s' G.
Proof.
  intros (Hs & _) (Hs' & _) Hacc Hf Hm HT. pose proof Hacc as [HG HL]. pose proof (sh_fresh _ _ _ Hs) as Hfr.
  assert (forall g x, g ∈ G -> x ∈ g.2 -> exists n, nodes s !! x = Some n /\ treelock n <> 0 /\ ~ T x) as Hway.
  { intros g x Hg Hx. rewrite Forall_forall in HG. destruct (HG g Hg) as ((p & n & _ & _ & Hst) & _). destruct (steps_some _ _ _ _ x Hst Hx) as (_ & m & _ & _ & Hmx & _).
    exists m. split; [done|]. destruct (reader_locked s G g x m Hacc Hf Hg Hx Hmx) as (_ & E & H1 & H2 & H3). split; [done|]. intros HTx. by destruct (HT x m HTx Hmx). }
  split.
  - rewrite Forall_forall. intros g Hg. rewrite Forall_forall in HG. destruct (HG g Hg) as ((p & n & Hn & Hid & Hst) & Ht & Hw).
    pose proof (steps_around T s s' Hm p g.2 0 (fun x => Hway g x Hg) Hfr Hst) as Hst'. split; [|split].
    + destruct (sh_root _ _ _ Hs) as (r & Hr & Er & _), (sh_root _ _ _ Hs') as (r' & Hr' & Er' & _). assert (p = 0%nat \/ p ∈ g.2) as [->|Hp] by (inversion Hst; [by left|right; left]).
      * exists 0%nat, r'. split; [done|]. split; [|done]. assert (n = r) as -> by congruence. congruence.
      * destruct (Hway g p Hg Hp) as (m & Hmx & Hlx & _). destruct (around_node T s s' p m Hm Hfr Hmx Hlx) as (n' & Hn' & _ & E & _).
        exists p, n'. split; [done|]. split; [|done]. assert (m = n) as -> by congruence. congruence.
    + rewrite Ht. unfold given. f_equal. rewrite (path_text_ext (nodes s) (nodes s') g.2); [done|]. intros x Hx. destruct (Hway g x Hg Hx) as (m & Hmx & Hlx & HTx).
      destruct (around_node T s s' x m Hm Hfr Hmx Hlx) as (n' & Hn' & _ & _ & E). rewrite Hn', Hmx. cbn. by apply E.
    + intros x Hx. destruct (Hw x Hx) as [m Hmx]. destruct (writer_locked s G g x m Hacc Hg Hx Hmx) as (_ & _ & El).
      destruct (around_node T s s' x m Hm Hfr Hmx) as (n' & Hn' & _); [by rewrite El|]. by exists n'.
  - intros x n' Hx. pose proof Hm as (_ & M2 & _). destruct (M2 x n' Hx) as [(n & Hn & -> & _)|[Hge ->]]; [by apply HL|].
    assert (~ is_Some (nodes s !! x)) as Hnone by (intros H; specialize (Hfr x H); lia). left.
    assert (readers G x + writers G x <= 0); [|pose proof (counts_range G x); lia]. apply Z.nlt_ge. intros H. apply counted_claim in H as (g & Hg & [Hxg|Hxg]).
    + destruct (Hway g x Hg Hxg) as (n & Hn & _). apply Hnone. by exists n.
    + rewrite Forall_forall in HG. destruct (HG g Hg) as (_ & _ & Hw). by apply Hnone, Hw.
Qed.
