(* ===== verification/HlPathCalls.v ===== *)
(** * Threads that get, keep and give back paths

    [in_order] is the state of the library while threads have paths: their claims account
    for the locks and the kernel holds what they lead to.  Every call ends without a fault
    and keeps it, whatever other calls come in between, and nobody waits but for a claim
    that somebody else has. *)
From S2P Require Import Prelude Errno Sys HlLocks HlTable HlNodes HlTree HlNames HlSpace HlPaths HlPathFacts HlPathLocks.

(** ** What the kernel holds stays *)

Lemma kept_put e o a d : kept_dir (put_maybe e o a) d <-> kept_dir a d.
Proof. by destruct o. Qed.
Lemma collected_kept a b d : collected a b -> kept_dir a d -> kept_dir b d.
Proof. intros [_ C] (k & Hk & Hp). exists k. split; [|done]. apply C. split; [done|]. by apply (alive_counted a d k). Qed.
Lemma recount_kept a ino k d : 0 < k -> kept_dir a d -> kept_dir (set_count ino k a) d.
Proof.
  intros Hk (j & Hj & Hp). destruct (decide (d = ino)) as [->|Hne]; [exists k; split; [apply lookup_insert_eq|done]|].
  exists j. split; [|done]. cbn. by rewrite lookup_insert_ne.
Qed.
Lemma cleared_kept keep a e b d : cleared keep a e b -> may_unlink keep a e -> kept_dir a d -> kept_dir b d.
Proof.
  unfold cleared. destruct e as [x nm]. destruct (entries a !! (x, nm)) eqn:He; [|by intros ->]. intros Hu Hm. by apply (unlinked_keeps keep a x nm b d Hu Hm).
Qed.
Lemma vacated_kept a e b d : vacated a e b -> kept_dir a d -> kept_dir b d.
Proof. destruct e as [x nm]. intros Hv. by apply (vacated_keeps a x nm b d Hv). Qed.
(** A lookup that the kernel has goes only when it forgets all of them. *)
Lemma name_step_kept keep a op r b d : name_step keep a op r b -> allowed keep a op -> kept_dir a d ->
  (forall n k, op = Forget d n -> counts a !! d = Some k -> n < k \/ r = 1) -> kept_dir b d.
Proof.
  intros Hst Ha Hd Hf. destruct Hst; try done.
  - destruct Hd as (j & Hj & Hp). destruct (decide (d = ino)) as [->|Hne]; [|exists j; split; [cbn; by rewrite lookup_insert_ne|done]].
    exists (k + 1). split; [apply lookup_insert_eq|]. assert (j = k) as -> by congruence. lia.
  - destruct Hd as (j & Hj & Hp). destruct (decide (d = ino)) as [->|Hne]; [|exists j; split; [cbn; by rewrite lookup_insert_ne|done]].
    exists (k + 1). split; [apply lookup_insert_eq|]. assert (j = k) as -> by congruence. lia.
  - destruct Hd as (j & Hj & Hp). exists j. split; [|done]. cbn. rewrite lookup_insert_ne; [done|]. congruence.
  - eapply collected_kept; [done|]. destruct (decide (d = ino)) as [->|Hne].
    + exists (k - n). split; [apply lookup_insert_eq|]. destruct (Hf n k eq_refl H0); [lia|done].
    + destruct Hd as (j & Hj & Hp). exists j. split; [|done]. cbn. by rewrite lookup_insert_ne.
  - destruct Ha as [_ Hu]. by eapply cleared_kept.
  - destruct Ha as (_ & Hu & _). change (kept_dir c d). eapply collected_kept; [done|]. change (kept_dir b d). destruct h; [|eapply cleared_kept; eauto].
    unfold cleared in *. rewrite H0 in H1 by done. by subst.
  - destruct Ha as (_ & Hu & _). eapply collected_kept; [done|]. change (kept_dir b d). destruct h; [|eapply cleared_kept; eauto].
    unfold cleared in *. rewrite H0 in H1 by done. by subst.
  - rewrite !kept_put. eapply vacated_kept; [done|]. by eapply vacated_kept.
  - assert (kept_dir c d) by (eapply vacated_kept; [done|]; by eapply vacated_kept). destruct first; [|done]. by rewrite kept_put.
Qed.

(** ** Claims in order *)

Definition held_up (s : fuse) (c : claim) : Prop :=
  kept_dir (view s) (ask_ino c.1) /\ forall x, c.2.2 = Some x -> exists n, nodes s !! x = Some n /\ kept_dir (view s) (nodeid n).
Record in_order (s : fuse) (C : list claim) : Prop := {
  io_ready : ready s;
  io_claims : exists G, G.*1 ≡ₚ C /\ accounts s G;
  io_held : Forall (held_up s) C;
}.
(** The rules for asking: the kernel holds the directory and the node to be written. *)
Definition fair (s : fuse) (a : path_ask) : Prop :=
  asks_ok a /\ kept_dir (view s) (ask_ino a) /\
  (ask_write a = true -> forall nm x, ask_name a = Some nm -> entries (view s) !! (ask_ino a, nm) = Some x -> kept_dir (view s) x).
(** Neither of two paths goes through the node the other one is to write. *)
Definition clear_of (s : fuse) (a b : path_ask) : Prop :=
  ask_write b = true -> forall nm x, ask_name b = Some nm -> entries (view s) !! (ask_ino b, nm) = Some x -> ~ under (view s) (ask_ino a) x.
Definition apart (s : fuse) (a b : path_ask) : Prop :=
  clear_of s a b /\ clear_of s b a /\ ~ (ask_write a = true /\ ask_write b = true /\ ask_ino a = ask_ino b /\ ask_name a = ask_name b).
Definition limits (s : fuse) : Prop := names_short s /\ path_room s.
Definition moved (s s' : fuse) : Prop := exists m' k, s' = relocked m' k s /\ relocks (nodes s) m'.

Lemma in_order_perm s C C' : C ≡ₚ C' -> in_order s C -> in_order s C'.
Proof. intros Hp [H1 (G & HG & Ha) H3]. split; [done|exists G; by rewrite HG|by rewrite <- Hp]. Qed.
#[export] Instance in_order_proper s : Proper ((≡ₚ) ==> iff) (in_order s).
Proof. intros C C' Hp. split; by apply in_order_perm. Qed.
Lemma moved_refl s : moved s s.
Proof. exists (nodes s), (allocs s). split; [by rewrite relocked_id|apply relocks_refl]. Qed.
Lemma moved_trans a b c : moved a b -> moved b c -> moved a c.
Proof. intros (m & k & -> & H1) (m' & k' & -> & H2). exists m', k'. split; [done|by eapply relocks_trans]. Qed.
Lemma moved_ready s s' : moved s s' -> ready s -> ready s' /\ view s' = view s.
Proof. intros (m & k & -> & H) Hr. split; [by apply relocks_ready|by apply relocks_view]. Qed.
Lemma moved_limits s s' : moved s s' -> limits s -> limits s'.
Proof.
  intros (m & k & -> & H) [H1 H2]. split; [by apply (names_short_same s), H1; apply relocks_keys|]. unfold path_room in *. cbn. by rewrite (relocks_size _ _ H).
Qed.
Lemma moved_held s s' c : moved s s' -> ready s -> held_up s c -> held_up s' c.
Proof.
  intros Hm Hr [H1 H2]. destruct (moved_ready s s' Hm Hr) as [_ Hv]. destruct Hm as (m & k & -> & H). unfold held_up. rewrite Hv. split; [done|]. intros x Hx.
  destruct (H2 x Hx) as (n & Hn & Hk). destruct (relocks_back _ _ x n H Hn) as (n' & Hn' & E). exists n'. split; [done|]. by rewrite E.
Qed.
Lemma moved_fair s s' a : moved s s' -> ready s -> fair s a -> fair s' a.
Proof. intros Hm Hr. unfold fair. by destruct (moved_ready s s' Hm Hr) as [_ ->]. Qed.
Lemma moved_apart s s' a b : moved s s' -> ready s -> apart s a b -> apart s' a b.
Proof. intros Hm Hr. unfold apart, clear_of. by destruct (moved_ready s s' Hm Hr) as [_ ->]. Qed.
Lemma few_claims (G : list placed) C n : G.*1 ≡ₚ C -> lenZ C + n < 2 ^ 31 - 1 -> 0 <= n -> few G.
Proof.
  intros H Hn Hp. unfold few. assert (lenZ (G.*1) = lenZ G) as E by (unfold lenZ; by rewrite length_fmap). apply lenZ_perm in H. lia.
Qed.

(** ** Who waits *)

(** The claims of a waiter that was given its paths, and has not gone on yet. *)
Definition claims_of (w : waiter) : list claim :=
  match wt_for w, wt_done w with
  | ForPath a, Some (inr [g]) => [(a, g)] | ForPaths a b, Some (inr [g; g']) => [(a, g); (b, g')] | _, _ => []
  end.
Definition granted_in (q : list waiter) : list claim := q ≫= claims_of.
(** Who still has to be woken. *)
Definition pending (w : waiter) : Prop := match wt_for w with ForUnlock _ => wt_signal w = false | _ => wt_done w = None end.
(** A waiter with its answer is awake, and waits for paths. *)
Definition answered (w : waiter) : Prop := wt_done w <> None -> wt_signal w = true /\ forall ino, wt_for w <> ForUnlock ino.
(** What the kernel keeps to while somebody waits. *)
Definition fair_wait (s : fuse) (f : wait_for) : Prop :=
  match f with ForUnlock ino => kept_dir (view s) ino | ForPath a => fair s a | ForPaths a b => fair s a /\ fair s b /\ apart s a b end.
Lemma claims_of_short w : lenZ (claims_of w) <= 2.
Proof.
  unfold claims_of, lenZ. destruct (wt_for w), (wt_done w) as [[e|[|g [|g' [|? ?]]]]|]; cbn; lia.
Qed.
Lemma granted_cons w q : granted_in (w :: q) = claims_of w ++ granted_in q.
Proof. done. Qed.
Lemma granted_short q : lenZ (granted_in q) <= 2 * lenZ q.
Proof.
  induction q as [|w q IH]; [done|]. rewrite granted_cons, lenZ_app, lenZ_cons. pose proof (claims_of_short w). lia.
Qed.
Lemma moved_fair_wait s s' f : moved s s' -> ready s -> fair_wait s f -> fair_wait s' f.
Proof.
  intros Hm Hr. destruct f; cbn; [by destruct (moved_ready s s' Hm Hr) as [_ ->]|by apply moved_fair|]. intros (H1 & H2 & H3).
  split; [by apply (moved_fair s)|]. split; [by apply (moved_fair s)|by apply (moved_apart s)].
Qed.
Lemma some_claims (G : list placed) C : G.*1 ≡ₚ C -> G <> [] -> C <> [].
Proof. intros H HG ->. symmetry in H. apply Permutation_nil in H. by destruct G. Qed.

(** ** Asking for a path *)

Lemma steps_to m p l q x : steps m p l q -> x ∈ l -> exists l', steps m p l' x.
Proof.
  induction 1 as [|p n pp nm l q H0 Hn Hnm Hpp _ IH]; intros Hx; [by apply not_elem_of_nil in Hx|].
  apply elem_of_cons in Hx as [->|Hx]; [exists []; constructor|]. destruct (IH Hx) as [l' Hl]. exists (p :: l'). by eapply steps_up.
Qed.
Lemma steps_under s p l q n m : shape [] [] s -> steps (nodes s) p l q -> nodes s !! p = Some n -> nodes s !! q = Some m -> under (view s) (nodeid n) (nodeid m).
Proof.
  intros Hs Hst. revert n. induction Hst as [p|p x pp nm l q H0 Hx Hnm Hpp _ IH]; intros n Hn Hm; [assert (n = m) as -> by congruence; constructor|].
  destruct (linked_parent [] [] s p x pp Hs (not_elem_of_nil p) Hx Hpp) as ([y Hy] & _). eapply rtc_l; [|by apply IH]. exists nm.
  apply (view_sees s Hs). assert (n = x) as -> by congruence. by exists p, pp, x, y.
Qed.
Lemma wnode_entry s a x n : shape [] [] s -> wnode_of s a (Some x) -> nodes s !! x = Some n ->
  ask_write a = true /\ exists nm, ask_name a = Some nm /\ entries (view s) !! (ask_ino a, nm) = Some (nodeid n).
Proof.
  intros Hs. unfold wnode_of. destruct (ask_write a), (ask_name a) as [nm|]; try done. intros (_ & pp & pn & (m & Hm & Hp & Hnm) & Hpn & E) Hn. split; [done|]. exists nm. split; [done|].
  apply (view_sees s Hs). assert (m = n) as -> by congruence. by exists x, pp, n, pn.
Qed.
Lemma wnode_moved s s' a w : moved s s' -> wnode_of s' a w -> wnode_of s a w.
Proof.
  intros (m' & k & -> & H). pose proof (relocks_keys _ _ H) as Hk. unfold wnode_of. destruct (ask_write a), (ask_name a) as [nm|], w as [x|]; try done.
  - intros (Hx & pp & pn & (n & Hn & Hp & Hnm) & Hpn & E). split; [done|].
    destruct (same_keys_lookup _ _ _ _ Hk Hn) as (n0 & Hn0 & F1 & F2 & F3), (same_keys_lookup _ _ _ _ Hk Hpn) as (q0 & Hq0 & K1 & _).
    exists pp, q0. split; [exists n0; split_and!; congruence|]. split; [done|congruence].
  - intros Hno x (Hx & pp & pn & (n & Hn & Hp & Hnm) & Hpn & E). apply (Hno x). split; [done|]. apply same_keys_sym in Hk.
    destruct (same_keys_lookup _ _ _ _ Hk Hn) as (n0 & Hn0 & F1 & F2 & F3), (same_keys_lookup _ _ _ _ Hk Hpn) as (q0 & Hq0 & K1 & _).
    exists pp, q0. split; [exists n0; split_and!; (exact Hn0 || congruence)|]. split; [done|congruence].
Qed.
(** What is in the way of a path. *)
Lemma blocked_obstacle s a p n : shape [] [] s -> nodes s !! p = Some n -> blocked s a p -> exists x m, nodes s !! x = Some m /\ treelock m <> 0 /\
  (wnode_of s a (Some x) \/ treelock m < 0 /\ exists l, steps (nodes s) p l x).
Proof.
  intros Hs Hn [(w & m & Hw & Hm & Hl)|(l & q & m & Hst & Hm & Hl)]; [exists w, m; split_and!; auto|]. exists q, m. split; [done|]. split; [lia|]. right. split; [done|by exists l].
Qed.
Lemma blocked_claims s G a p n : ready s -> accounts s G -> nodes s !! p = Some n -> blocked s a p -> G <> [].
Proof.
  intros (Hs & _) Ha Hn Hb. destruct (blocked_obstacle s a p n Hs Hn Hb) as (x & m & Hm & Hl & _). destruct (locked_claim s G x m Ha Hm Hl) as (g & Hg & _).
  intros ->. by apply not_elem_of_nil in Hg.
Qed.
(** The first of two paths is not in the way of the second. *)
Lemma blocked_by_other s G a p n g l m' k b q r : ready s -> nodes s !! p = Some n -> nodeid n = ask_ino a -> granted s a p g m' -> steps (nodes s) p l 0 ->
  let s1 := relocked m' k s in accounts s1 ((a, g, l) :: G) -> apart s a b -> nodes s !! q = Some r -> nodeid r = ask_ino b -> blocked s1 b q -> G <> [].
Proof.
  intros Hr Hn Hid Hg Hl s1 Hacc (Hab & Hba & Hne) Hq Hqid Hb. pose proof Hr as (Hs & _ & Hrk). pose proof (granted_relocks s a p g m' Hrk Hg) as Hre.
  assert (moved s s1) as Hmv by (by exists m', k). destruct (moved_ready s s1 Hmv Hr) as [(Hs1 & _) _]. pose proof (relocks_keys _ _ Hre) as Hk.
  destruct (relocks_back _ _ q r Hre Hq) as (r1 & Hr1 & _). destruct (blocked_obstacle s1 b q r1 Hs1 Hr1 Hb) as (x & m1 & Hm1 & Hlk & Hwhy).
  destruct (relocks_some _ _ x m1 Hre Hm1) as (m & Hm & Em). destruct (locked_claim s1 _ x m1 Hacc Hm1 Hlk) as (h & Hh & Hx).
  apply elem_of_cons in Hh as [->|Hh]; [|intros ->; by apply not_elem_of_nil in Hh]. exfalso. cbn [fst snd] in Hx.
  destruct Hg as (l' & Hst & Hrd & Hwn & Hwz & -> & _). assert (l' = l) as -> by (by eapply steps_functional).
  destruct Hwhy as [Hw|[Hneg [lq Hlq]]].
  - apply (wnode_moved s s1 b (Some x) Hmv) in Hw. destruct Hx as [Hx|Hx].
    + destruct (wnode_entry s b x m Hs Hw Hm) as (Hwb & nm & Hnm & He). apply (Hab Hwb nm (nodeid m) Hnm He). rewrite <- Hid.
      destruct (steps_to _ _ _ _ _ Hst Hx) as [l'' Hl'']. by apply (steps_under s p l'' x n m).
    + rewrite Hx in Hwn. destruct (wnode_entry s a x m Hs Hwn Hm) as (Hwa & nm & Hnm & He), (wnode_entry s b x m Hs Hw Hm) as (Hwb & nm' & Hnm' & He'). apply Hne.
      apply (view_sees s Hs) in He as (y & pp & z & pn & _ & Hy & Hp & Hz & Hpn & E1 & E2), He' as (y' & pp' & z' & pn' & _ & Hy' & Hp' & Hz' & Hpn' & E1' & E2').
      assert (y = x) as -> by (apply (shape_inj s y x z m); done). assert (y' = x) as -> by (apply (shape_inj s y' x z' m); done).
      split_and!; try done; [|congruence]. assert (pp = pp') as -> by congruence. congruence.
  - destruct Hx as [Hx|Hx].
    + destruct (Hrd x Hx) as (m0 & Hm0 & Hpos). unfold s1 in Hm1. cbn [relocked nodes set_nodes] in Hm1. destruct Hrk as [rank Hrk].
      destruct (steps_ranks rank s p l 0 Hrk Hst) as (_ & _ & Hnd). rewrite relock_lookup, decide_True, relock_lookup, decide_False in Hm1; try done.
      * rewrite Hm0 in Hm1. injection Hm1 as <-. cbn in Hneg. lia.
      * rewrite in_wlist. intros E. by destruct (Hwz x E).
      * apply wlist_nodup.
    + rewrite Hx in Hwn. destruct (wnode_entry s a x m Hs Hwn Hm) as (Hwa & nm & Hnm & He). apply (Hba Hwa nm (nodeid m) Hnm He). rewrite <- Hqid.
      apply (steps_same _ (nodes s)) in Hlq; [|by apply same_keys_sym]. by apply (steps_under s q lq x r m).
Qed.
Lemma dir_node s a : ready s -> kept_dir (view s) (ask_ino a) -> exists p n, nodes s !! p = Some n /\ nodeid n = ask_ino a.
Proof. intros (Hs & _) (k & Hk & _). destruct (view_node s _ k Hs Hk) as (p & n & Hn & E & _). by exists p, n. Qed.
Lemma order_sound s C : in_order s C -> limits s -> sound s.
Proof. intros [(Hs & _ & Hrk) _ _] [H1 H2]. by split. Qed.
Lemma granted_held s a p n g m' k : ready s -> fair s a -> nodes s !! p = Some n -> nodeid n = ask_ino a -> granted s a p g m' -> held_up (relocked m' k s) (a, g).
Proof.
  intros Hr (_ & Hd & Hw) Hn Hid Hg. pose proof Hr as (Hs & _ & Hrk). apply (moved_held s); [exists m', k; split; [done|by eapply granted_relocks]|done|]. split; [done|]. intros x Hx. cbn in Hx.
  destruct Hg as (l & _ & _ & Hwn & Hwz & _). destruct (Hwz x Hx) as (_ & m & Hm & _). exists m. split; [done|]. rewrite Hx in Hwn.
  destruct (wnode_entry s a x m Hs Hwn Hm) as (Ha & nm & Hnm & He). by eapply Hw.
Qed.

Section Calls.
Variable mem : nat -> bool.
Lemma try_ok s G C a p n : in_order s C -> G.*1 ≡ₚ C -> accounts s G -> limits s -> lenZ C + 1 < 2 ^ 31 - 1 -> fair s a -> nodes s !! p = Some n -> nodeid n = ask_ino a ->
  exists r m' k, let s' := relocked m' k s in try_get_path mem a true s = Done r s' /\ moved s s' /\
    match r with
    | inr g => granted s a p g m' /\ in_order s' ((a, g) :: C) /\ exists l, steps (nodes s) p l 0 /\ accounts s' ((a, g, l) :: G)
    | inl e => in_order s' C /\ accounts s' G /\ (e = - EAGAIN -> blocked s a p)
    end.
Proof.
  intros Ho HG Hacc Hlim Hfew Hfair Hn Hid. pose proof (order_sound s C Ho Hlim) as Hsd. destruct Ho as [Hr _ Hheld]. pose proof Hr as (Hs & _ & Hrk).
  pose proof (few_claims G C 1 HG Hfew ltac:(lia)) as HfG. destruct (try_get_path_ok mem s a p n Hsd Hn Hid) as (r & m' & k & Hrun & Hres); [by destruct Hfair|].
  exists r, m', k. split; [done|]. assert (relocks (nodes s) m') as Hre by (destruct r as [e|g]; [by apply (announced_relocks s a), Hres|by apply (granted_relocks s a p g)]).
  assert (moved s (relocked m' k s)) as Hmv by (by exists m', k). split; [done|].
  assert (Forall (held_up (relocked m' k s)) C) as Hheld' by (eapply Forall_impl; [exact Hheld|]; intros c Hc; by apply (moved_held s)).
  destruct (moved_ready s _ Hmv Hr) as [Hr' _]. destruct r as [e|g].
  - destruct Hres as [Han Href]. assert (accounts (relocked m' k s) G) as Hacc' by (by apply (accounts_announce s G a)).
    split; [split; [done|by exists G|done]|]. split; [done|]. intros ->. by destruct Href as [[? _]|[[? _]|[_ ?]]].
  - destruct (accounts_grant s G a p n g m' k Hr Hacc HfG Hn Hid Hres) as [l Hacc']. split; [done|]. split.
    + split; [done|exists ((a, g, l) :: G); split; [cbn; by rewrite HG|done]|]. constructor; [by apply (granted_held s a p n)|done].
    + exists l. split; [|done]. destruct Hacc' as [Hw _]. apply Forall_cons in Hw as [((q & m & Hm & E & Hst) & _) _]. cbn in E, Hst.
      apply (steps_same _ (nodes s)) in Hst; [|by apply same_keys_sym, relocks_keys]. destruct (relocks_some _ _ q m Hre Hm) as (m0 & Hm0 & Em).
      assert (q = p) as ->; [|done]. apply (shape_inj s q p m0 n Hs Hm0 Hn). rewrite Em in E. cbn in E. congruence.
Qed.
Lemma try_one_ok s C a : in_order s C -> limits s -> lenZ C + 1 < 2 ^ 31 - 1 -> fair s a ->
  exists r s', try_one mem a s = Done r s' /\ moved s s' /\
    match r with inr gs => exists g, gs = [g] /\ in_order s' ((a, g) :: C) | inl e => in_order s' C /\ (e = - EAGAIN -> C <> []) end.
Proof.
  intros Ho Hlim Hfew Hfair. pose proof Ho as [Hr (G & HG & Hacc) _]. destruct (dir_node s a Hr ltac:(apply Hfair)) as (p & n & Hn & Hid).
  destruct (try_ok s G C a p n Ho HG Hacc Hlim Hfew Hfair Hn Hid) as (r & m' & k & Hrun & Hmv & Hres). unfold try_one. step ltac:(exact Hrun).
  eexists _, _. split; [reflexivity|]. split; [done|]. destruct r as [e|g]; [|exists g; by split; [|apply Hres]].
  destruct Hres as (H1 & _ & Hb). split; [done|]. intros He. apply (some_claims G C HG). by apply (blocked_claims s G a p n Hr Hacc Hn), Hb.
Qed.
Lemma try_two_ok s C a b : in_order s C -> limits s -> lenZ C + 2 < 2 ^ 31 - 1 -> fair s a -> fair s b -> apart s a b ->
  exists r s', try_get_path2 mem a b s = Done r s' /\ moved s s' /\
    match r with inr gs => exists g g', gs = [g; g'] /\ in_order s' ((a, g) :: (b, g') :: C) | inl e => in_order s' C /\ (e = - EAGAIN -> C <> []) end.
Proof.
  intros Ho Hlim Hfew Ha Hb Hap. pose proof Ho as [Hr (G & HG & Hacc) _].
  destruct (dir_node s a Hr ltac:(apply Ha)) as (p & n & Hn & Hid), (dir_node s b Hr ltac:(apply Hb)) as (q & m & Hm & Hmid).
  pose proof (some_claims G C HG) as HGC.
  destruct (try_ok s G C a p n Ho HG Hacc Hlim ltac:(lia) Ha Hn Hid) as (r & m1 & k1 & Hrun & Hmv & Hres). unfold try_get_path2. step ltac:(exact Hrun). destruct r as [e|g].
  { eexists _, _. split; [reflexivity|]. split; [done|]. destruct Hres as (H1 & _ & Hbl). split; [done|]. intros He. by apply HGC, (blocked_claims s G a p n Hr Hacc Hn), Hbl. }
  destruct Hres as (Hg & Ho1 & l & Hst & Hacc1). set (s1 := relocked m1 k1 s) in *. destruct (moved_ready s s1 Hmv Hr) as [Hr1 _].
  destruct Hmv as (m1' & k1' & Es1 & Hre) eqn:Emv. clear Emv. assert (m1' = m1) as -> by (by injection Es1). assert (moved s s1) as Hmv1 by (by exists m1, k1).
  destruct (relocks_back _ _ q m Hre Hm) as (n1 & Hn1 & En1). assert (nodeid n1 = ask_ino b) as Hnid by (by rewrite En1).
  assert (lenZ (((a, g) : claim) :: C) + 1 < 2 ^ 31 - 1) as Hf1 by (rewrite lenZ_cons; lia). assert (((a, g, l) :: G).*1 ≡ₚ (a, g) :: C) as HG1 by (cbn; by rewrite HG).
  destruct (try_ok s1 ((a, g, l) :: G) ((a, g) :: C) b q n1) as (r & m2 & k2 & Hrun2 & Hmv2 & Hres2); try done; [by apply (moved_limits s)|by apply (moved_fair s)|].
  set (s2 := relocked m2 k2 s1) in *. step ltac:(exact Hrun2). destruct r as [e|g'].
  - destruct Hres2 as (Ho2 & Hacc2 & Hbl). destruct (moved_ready s1 s2 Hmv2 Hr1) as [Hr2 _]. cbn [fst snd].
    destruct (accounts_release s2 G (a, g) l Hr2 Hacc2) as (m3 & Hun & Hre3 & Hacc3). { apply (few_claims _ _ 1 HG1); [exact Hf1|done]. }
    step ltac:(exact Hun). eexists _, _. split; [reflexivity|]. set (s3 := relocked m3 (allocs s2) s2). assert (moved s2 s3) as Hmv3 by (by exists m3, (allocs s2)).
    split; [eapply moved_trans; [exact Hmv1|by eapply moved_trans]|]. split.
    + destruct Ho2 as [_ _ Hheld]. apply Forall_cons in Hheld as [_ Hheld]. split; [by apply (moved_ready s2)|by exists G|]. eapply Forall_impl; [exact Hheld|]. intros c Hc. by apply (moved_held s2).
    + intros He. apply HGC. by apply (blocked_by_other s G a p n g l m1 k1 b q m Hr Hn Hid Hg Hst Hacc1 Hap Hm Hmid), Hbl.
  - destruct Hres2 as (_ & Ho2 & _). eexists _, _. split; [reflexivity|]. split; [by eapply moved_trans|]. exists g, g'. split; [done|]. by rewrite perm_swap.
Qed.
(** A waiter that was tried again. *)
Definition settled (w : waiter) (r : Z + list got) : waiter := match r with inl e => if e =? - EAGAIN then w else signal (Some r) w | inr _ => signal (Some r) w end.
Lemma settled_ok s C w r : wt_done w = None -> (forall ino, wt_for w <> ForUnlock ino) -> in_order s (match r with inr _ => claims_of (signal (Some r) w) ++ C | inl e => C end) ->
  (forall e, r = inl e -> e = - EAGAIN -> C <> []) ->
  in_order s (claims_of (settled w r) ++ C) /\ wt_thread (settled w r) = wt_thread w /\ wt_for (settled w r) = wt_for w /\ answered (settled w r) /\
    (match wt_for w with ForUnlock _ => True | _ => pending (settled w r) -> C <> [] end).
Proof.
  intros Hd Hun Ho He. unfold settled. destruct r as [e|gs]; [destruct (Z.eqb_spec e (- EAGAIN)) as [->|Hne]|].
  - assert (claims_of w = []) as E by (unfold claims_of; rewrite Hd; by destruct (wt_for w)). rewrite E. split; [done|]. split; [done|]. split; [done|]. split; [intros H; by destruct H|].
    pose proof (He _ eq_refl eq_refl). by destruct (wt_for w).
  - assert (claims_of (signal (Some (inl e)) w) = []) as E by (unfold claims_of, signal; cbn; by destruct (wt_for w)). rewrite E. split; [done|]. split; [done|]. split; [done|]. split; [done|].
    unfold pending, signal. cbn. by destruct (wt_for w).
  - split; [done|]. split; [done|]. split; [done|]. split; [done|]. unfold pending, signal. cbn. by destruct (wt_for w).
Qed.
Lemma wakeup_ok s C w : in_order s (claims_of w ++ C) -> limits s -> lenZ C + 2 < 2 ^ 31 - 1 -> fair_wait s (wt_for w) -> answered w ->
  exists w' s', queue_element_wakeup mem w s = Done w' s' /\ moved s s' /\ in_order s' (claims_of w' ++ C) /\
    wt_thread w' = wt_thread w /\ wt_for w' = wt_for w /\ answered w' /\ (pending w' -> C <> []) /\ (claims_of w = [] \/ w' = w).
Proof.
  intros Ho Hlim Hfew Hfair Han. pose proof Ho as [Hr (G & HG & Hacc) _]. unfold queue_element_wakeup. destruct (wt_for w) as [ino|a|a b] eqn:Hf; cbn [fair_wait] in Hfair.
  - pose proof Hr as (Hs & _). destruct Hfair as (k & Hk & _). destruct (view_node s ino k Hs Hk) as (p & n & Hn & <- & _).
    step ltac:(exact (get_node_spec [] [] s p n Hs Hn (not_elem_of_nil p))). step ltac:(by apply deref_some). eexists _, s. split; [reflexivity|]. split; [apply moved_refl|].
    assert (claims_of w = []) as E by (unfold claims_of; by rewrite Hf). rewrite E in Ho, HG. destruct (Z.eqb_spec (treelock n) 0) as [Hl|Hl].
    + split; [unfold claims_of, signal; cbn; by rewrite Hf|]. split; [done|]. split; [done|]. split; [|split; [unfold pending; cbn; by rewrite Hf|by left]].
      intros H. destruct (Han H) as [_ Hun]. by destruct (Hun _ Hf).
    + rewrite E. split; [done|]. split; [done|]. split; [done|]. split; [done|]. split; [|by left]. intros _. apply (some_claims G C HG). destruct (locked_claim s G p n Hacc Hn Hl) as (g & Hg & _). intros ->. by apply not_elem_of_nil in Hg.
  - destruct (wt_done w) as [r|] eqn:Hd.
    { eexists w, s. split; [reflexivity|]. split; [apply moved_refl|]. split; [done|]. split; [done|]. split; [done|]. split; [done|]. split; [unfold pending; by rewrite Hf, Hd|by right]. }
    assert (claims_of w = []) as E by (unfold claims_of; by rewrite Hf, Hd). rewrite E in Ho.
    destruct (try_one_ok s C a Ho Hlim ltac:(lia) Hfair) as (r & s' & Hrun & Hmv & Hres). step ltac:(exact Hrun). exists (settled w r), s'. split; [reflexivity|]. split; [done|].
    destruct (settled_ok s' C w r Hd) as (H1 & H2 & H3 & H4 & H5).
    + by rewrite Hf.
    + destruct r as [e|gs]; [apply Hres|]. destruct Hres as (g & -> & Ho'). unfold claims_of, signal. cbn. by rewrite Hf.
    + intros e -> He. by apply Hres.
    + rewrite Hf in H5. rewrite H3. split; [done|]. split; [done|]. split; [done|]. split; [done|]. split; [done|by left].
  - destruct (wt_done w) as [r|] eqn:Hd.
    { eexists w, s. split; [reflexivity|]. split; [apply moved_refl|]. split; [done|]. split; [done|]. split; [done|]. split; [done|]. split; [unfold pending; by rewrite Hf, Hd|by right]. }
    assert (claims_of w = []) as E by (unfold claims_of; by rewrite Hf, Hd). rewrite E in Ho. destruct Hfair as (Ha & Hb & Hap).
    destruct (try_two_ok s C a b Ho Hlim Hfew Ha Hb Hap) as (r & s' & Hrun & Hmv & Hres). step ltac:(exact Hrun). exists (settled w r), s'. split; [reflexivity|]. split; [done|].
    destruct (settled_ok s' C w r Hd) as (H1 & H2 & H3 & H4 & H5).
    + by rewrite Hf.
    + destruct r as [e|gs]; [apply Hres|]. destruct Hres as (g & g' & -> & Ho'). unfold claims_of, signal. cbn. by rewrite Hf.
    + intros e -> He. by apply Hres.
    + rewrite Hf in H5. rewrite H3. split; [done|]. split; [done|]. split; [done|]. split; [done|]. split; [done|by left].
Qed.
(** What waking leaves of a queue. *)
Definition same_waiters (q q' : list waiter) : Prop := Forall2 (fun w w' => wt_thread w' = wt_thread w /\ wt_for w' = wt_for w) q q'.
Lemma wake_all_ok q : forall s C, in_order s (granted_in q ++ C) -> limits s -> lenZ C + 2 * lenZ q + 2 < 2 ^ 31 - 1 ->
  Forall (fun w => fair_wait s (wt_for w) /\ answered w) q ->
  exists q' s', wake_all mem q s = Done q' s' /\ moved s s' /\ in_order s' (granted_in q' ++ C) /\ same_waiters q q' /\
    Forall answered q' /\ (Exists pending q' -> granted_in q' ++ C <> []) /\ (granted_in q <> [] -> granted_in q' <> []).
Proof.
  induction q as [|w q IH]; intros s C Ho Hlim Hfew Hq.
  { exists [], s. split; [done|]. split; [apply moved_refl|]. split; [done|]. split; [constructor|]. split; [constructor|]. split; [by intros H%Exists_nil|done]. }
  apply Forall_cons in Hq as [[Hf Han] Hq]. rewrite granted_cons, <- (assoc_L (++)) in Ho. rewrite lenZ_cons in Hfew. pose proof (granted_short q) as Hshort.
  destruct (wakeup_ok s (granted_in q ++ C) w Ho Hlim) as (w' & s1 & Hrun & Hmv & Ho1 & Et & Ef & Han' & Hp & Hsub); [rewrite lenZ_app; lia|done|done|].
  cbn [wake_all]. step ltac:(exact Hrun). pose proof (io_ready _ _ Ho) as Hr. pose proof (claims_of_short w') as Hw'.
  assert (in_order s1 (granted_in q ++ claims_of w' ++ C)) as Ho1' by (by rewrite (assoc_L (++)), (comm (++) (granted_in q)), <- (assoc_L (++))).
  destruct (IH s1 (claims_of w' ++ C) Ho1') as (q' & s2 & Hrun2 & Hmv2 & Ho2 & Hsame & Hans & Hex & Hmono).
  - by apply (moved_limits s).
  - rewrite lenZ_app. lia.
  - eapply Forall_impl; [exact Hq|]. intros x [H1 H2]. split; [by apply (moved_fair_wait s)|done].
  - step ltac:(exact Hrun2). exists (w' :: q'), s2. split; [done|]. split; [by eapply moved_trans|]. rewrite granted_cons. split.
    { by rewrite (comm (++) (claims_of w')), <- (assoc_L (++)). }
    split; [by constructor|]. split; [by constructor|]. split.
    + intros Hpend Hnil. apply app_eq_nil in Hnil as [[Hw Hq']%app_eq_nil HC]. rewrite Hw, Hq', HC in Hex.
      apply Exists_cons in Hpend as [Hpw|Hpend]; [|by apply Hex]. apply (Hp Hpw). rewrite HC, app_nil_r.
      destruct (granted_in q); [done|]. by destruct Hmono.
    + rewrite granted_cons. intros Hne Hnil. apply app_eq_nil in Hnil as [Hw Hq']. apply Hne. destruct (granted_in q); [|by destruct Hmono].
      rewrite app_nil_r. destruct Hsub as [->|<-]; done.
Qed.
(** Waking everybody, after something was given back. *)
Definition queue_ok (s : fuse) : Prop := Forall (fun w => fair_wait s (wt_for w) /\ answered w) (lockq s).
Lemma wake_up_queued_ok s C : in_order s (granted_in (lockq s) ++ C) -> limits s -> lenZ C + 2 * lenZ (lockq s) + 2 < 2 ^ 31 - 1 -> queue_ok s ->
  exists q' s1, wake_up_queued mem s = Done tt (set_lockq q' s1) /\ moved s s1 /\ in_order s1 (granted_in q' ++ C) /\ same_waiters (lockq s) q' /\
    Forall answered q' /\ (Exists pending q' -> granted_in q' ++ C <> []).
Proof.
  intros Ho Hlim Hfew Hq. destruct (wake_all_ok (lockq s) s C Ho Hlim Hfew Hq) as (q' & s1 & Hrun & H). unfold wake_up_queued. step ltac:(exact eq_refl). step ltac:(exact Hrun).
  exists q', s1. split; [done|]. by destruct H as (H1 & H2 & H3 & H4 & H5 & _).
Qed.
End Calls.
