(* ===== verification/HlPathSystem.v ===== *)
(** * All the calls on paths and names together

    [run_call] is what the threads of a file system do under the library's lock: get one
    or two paths, wait for them, give them back, forget nodes and change names.  However
    the calls are mixed, [system_ok] holds: the paths in use stay what they were, no call
    faults, and who waits is waiting for a path that somebody has. *)
From S2P Require Import Prelude Errno Sys HlLocks HlTable HlNodes HlTree HlNames HlSpace HlPaths HlPathFacts HlPathLocks HlPathCalls.

Inductive path_call :=
| GetPath (thread : nat) (a : path_ask) | GetPath2 (thread : nat) (a b : path_ask) | WaitPath (thread : nat)
| FreePath (c : claim) | FreePath2 (c d : claim)
| ForgetNode (thread : nat) (ino count : Z) | ForgetWait (thread : nat) (ino count : Z) | OnNames (op : name_op).
Inductive answer := Gets (r : Z + list got) | Waits | Finishes | Returns (z : Z).
Definition or_waits (r : option (Z + list got)) : answer := match r with Some r => Gets r | None => Waits end.
Definition run_call (mem : nat -> bool) (c : path_call) : hl answer :=
  match c with
  | GetPath t a => r ← get_path_common mem t a; mret (or_waits r)
  | GetPath2 t a b => r ← get_path2 mem t a b; mret (or_waits r)
  | WaitPath t => r ← wait_path t; mret (or_waits r)
  | FreePath c => _ ← free_path_wrlock mem (ask_ino c.1) c.2.2; mret Finishes
  | FreePath2 c d => _ ← free_path2 mem (ask_ino c.1) (ask_ino d.1) c.2.2 d.2.2; mret Finishes
  | ForgetNode t ino n => b ← forget_node mem t ino n; mret (if b : bool then Finishes else Waits)
  | ForgetWait t ino n => b ← forget_wait mem t ino n; mret (if b : bool then Finishes else Waits)
  | OnNames op => z ← run_op mem op; mret (Returns z)
  end.
(** The paths a call gives, and those it takes back. *)
Definition asked (f : wait_for) (r : answer) : list claim :=
  match r with Gets r => claims_of {| wt_thread := 0; wt_for := f; wt_signal := true; wt_done := Some r |} | _ => [] end.
Definition gained (q : list waiter) (c : path_call) (r : answer) : list claim :=
  match c with
  | GetPath _ a => asked (ForPath a) r | GetPath2 _ a b => asked (ForPaths a b) r
  | WaitPath t => match dequeued t q with Some (w, _) => asked (wt_for w) r | None => [] end
  | _ => []
  end.
Definition returned (c : path_call) : list claim := match c with FreePath c => [c] | FreePath2 c d => [c; d] | _ => [] end.

Record system_ok (s : fuse) (held : list claim) : Prop := {
  sy_order : in_order s (granted_in (lockq s) ++ held);
  sy_lock : "lock" ∉ owned s;
  sy_answered : Forall answered (lockq s);
  sy_waits : Exists pending (lockq s) -> granted_in (lockq s) ++ held <> [];
}.
(** The rules of the kernel for a call, and the sizes that are possible. *)
Definition courteous (s : fuse) (held : list claim) : Prop :=
  limits s /\ lenZ held + 2 * lenZ (lockq s) + 4 < 2 ^ 31 - 1 /\ Forall (fun w => fair_wait s (wt_for w)) (lockq s).
Definition call_ok (s : fuse) (c : path_call) : Prop :=
  match c with
  | GetPath _ a => fair s a
  | GetPath2 _ a b => fair s a /\ fair s b /\ apart s a b
  | ForgetNode _ ino n => allowed (keeps s) (view s) (Forget ino n)
  | ForgetWait t ino n => allowed (keeps s) (view s) (Forget ino n) /\ ino <> FUSE_ROOT_ID /\ exists w q, dequeued t (lockq s) = Some (w, q) /\ wt_for w = ForUnlock ino
  | OnNames op => room s /\ allowed (keeps s) (view s) op /\ untouched s (target s op) /\ forall ino n, op <> Forget ino n
  | _ => True
  end.

(** ** States that differ in the queue or the mutexes *)

Lemma tree_eq_order s s' C : tree_eq s s' -> in_order s C -> in_order s' C.
Proof.
  intros He [Hr (G & HG & Hacc) Hh]. pose proof He as (En & Et & _). assert (view s' = view s) as Ev.
  { unfold view. rewrite En, Et. f_equal. f_equal. apply list_omap_ext, Forall_Forall2_diag, Forall_forall. intros p _. unfold entry_of. by rewrite En. }
  split.
  - by apply (tree_eq_good (live None s) s); [|apply ready_good].
  - exists G. split; [done|]. unfold accounts, way_ok. by rewrite En.
  - unfold held_up. by rewrite En, Ev.
Qed.
Lemma moved_rest s s' : moved s s' -> owned s' = owned s /\ lockq s' = lockq s /\ conf s' = conf s.
Proof. by intros (m & k & -> & _). Qed.
Lemma granted_app q q' : granted_in (q ++ q') = granted_in q ++ granted_in q'.
Proof. apply bind_app. Qed.
Lemma order_owned h s C : in_order s C -> in_order (set_owned h s) C.
Proof. by apply tree_eq_order. Qed.
(** After a call: what is left to show of the state inside the lock. *)
Lemma system_unlocked s s' held : "lock" ∉ owned s -> in_order s' (granted_in (lockq s') ++ held) -> Forall answered (lockq s') ->
  (Exists pending (lockq s') -> granted_in (lockq s') ++ held <> []) -> system_ok (set_owned (owned s) s') held.
Proof. intros Hl Ho Ha Hw. split; [by apply order_owned|done|exact Ha|exact Hw]. Qed.
Lemma locked_call {A} (body : hl A) s a s' : "lock" ∉ owned s -> body (set_owned ({["lock"]} ∪ owned s) s) = Done a s' -> owned s' = {["lock"]} ∪ owned s ->
  with_lock "lock" body s = Done a (set_owned (owned s) s').
Proof. intros Hl Hrun Ho. exact (with_lock_done "lock" body s a s' Hl Hrun Ho). Qed.

Section System.
Variable mem : nat -> bool.

(** ** Getting paths *)

(** [get_path_common] and [get_path2] differ in what they try. *)
Lemma path_asked_ok try f t s held : system_ok s held -> (match f with ForUnlock _ => False | _ => True end) ->
  (let s0 := set_owned ({["lock"]} ∪ owned s) s in in_order s0 (granted_in (lockq s) ++ held) -> exists r s', try s0 = Done r s' /\ moved s0 s' /\
    in_order s' (asked f (Gets r) ++ granted_in (lockq s) ++ held) /\ (r = inl (- EAGAIN) -> granted_in (lockq s) ++ held <> [])) ->
  exists r s', with_lock "lock" (r ← try;
    match r with
    | inl e => if e =? - EAGAIN then _ ← queue_path t f; mret None else mret (Some r)
    | inr _ => mret (Some r)
    end) s = Done r s' /\ system_ok s' (asked f (or_waits r) ++ held).
Proof.
  intros [Ho Hl Ha Hw] Hf Htry. set (s0 := set_owned ({["lock"]} ∪ owned s) s). destruct Htry as (r & s1 & Hrun & Hmv & Ho1 & He); [by apply order_owned|].
  destruct (moved_rest s0 s1 Hmv) as (Eo & Eq & _). change (lockq s0) with (lockq s) in Eq.
  assert (in_order s1 (granted_in (lockq s) ++ asked f (Gets r) ++ held)) as Ho1' by (by rewrite (assoc_L (++)), (comm (++) (granted_in _)), <- (assoc_L (++))).
  destruct (decide (r = inl (- EAGAIN))) as [->|Hr].
  - specialize (He eq_refl). set (w := {| wt_thread := t; wt_for := f; wt_signal := false; wt_done := None |}). set (s2 := set_lockq (lockq s ++ [w]) s1).
    exists None, (set_owned (owned s) s2). split.
    + apply locked_call; [done| |done]. step ltac:(exact Hrun). change (- EAGAIN =? - EAGAIN) with true. unfold s2. rewrite <- Eq. reflexivity.
    + assert (granted_in (lockq s2) = granted_in (lockq s)) as E. { unfold s2. cbn [lockq set_lockq]. rewrite granted_app. change (granted_in [w]) with (claims_of w ++ []). unfold claims_of. cbn. destruct f; by rewrite app_nil_r. }
      assert (asked f (Gets (inl (- EAGAIN))) = []) as E' by (by destruct f). rewrite E' in Ho1'. apply system_unlocked; [done| | |].
      * rewrite E. by apply (tree_eq_order s1).
      * apply Forall_app. split; [done|]. constructor; [by intros []|constructor].
      * by rewrite E.
  - exists (Some r), (set_owned (owned s) s1). split.
    + apply locked_call; [done| |done]. step ltac:(exact Hrun). destruct r as [e|gs]; [|done]. destruct (Z.eqb_spec e (- EAGAIN)); [by subst|done].
    + cbn [or_waits]. apply system_unlocked; rewrite ?Eq; try done. intros H Hnil. apply app_eq_nil in Hnil as [H1 H2]. apply app_eq_nil in H2 as [_ H2].
      apply (Hw H). by rewrite H1, H2.
Qed.
Lemma get_path_ok t a s held : system_ok s held -> courteous s held -> fair s a ->
  exists r s', get_path_common mem t a s = Done r s' /\ system_ok s' (asked (ForPath a) (or_waits r) ++ held).
Proof.
  intros Hs (Hlim & Hfew & _) Hf. apply (path_asked_ok (try_one mem a) (ForPath a) t s held Hs I). intros s0 Ho. pose proof (granted_short (lockq s)).
  destruct (try_one_ok mem s0 _ a Ho Hlim) as (r & s' & Hrun & Hmv & Hres); [rewrite lenZ_app; lia|done|].
  exists r, s'. split; [done|]. split; [done|]. destruct r as [e|gs]; [|by destruct Hres as (g & -> & Ho')]. destruct Hres as [Ho' He]. split; [exact Ho'|]. intros [= ->]. by apply He.
Qed.
Lemma get_path2_ok t a b s held : system_ok s held -> courteous s held -> fair s a -> fair s b -> apart s a b ->
  exists r s', get_path2 mem t a b s = Done r s' /\ system_ok s' (asked (ForPaths a b) (or_waits r) ++ held).
Proof.
  intros Hs (Hlim & Hfew & _) Ha Hb Hab. apply (path_asked_ok (try_get_path2 mem a b) (ForPaths a b) t s held Hs I). intros s0 Ho. pose proof (granted_short (lockq s)).
  destruct (try_two_ok mem s0 _ a b Ho Hlim) as (r & s' & Hrun & Hmv & Hres); [rewrite lenZ_app; lia|done|done|done|].
  exists r, s'. split; [done|]. split; [done|]. destruct r as [e|gs]; [|by destruct Hres as (g & g' & -> & Ho')]. destruct Hres as [Ho' He]. split; [exact Ho'|]. intros [= ->]. by apply He.
Qed.

(** ** Waiting for them *)

Lemma dequeued_some t q w q' : dequeued t q = Some (w, q') -> wt_thread w = t /\ q ≡ₚ w :: q'.
Proof.
  revert w q'. induction q as [|x q IH]; intros w q'; [done|]. cbn. destruct (decide (wt_thread x = t)); [by intros [= -> ->]|].
  destruct (dequeued t q) as [[y q'']|] eqn:E; [|done]. cbn. intros [= -> <-]. destruct (IH w q'' eq_refl) as [H1 H2]. split; [done|]. rewrite H2. apply perm_swap.
Qed.
Lemma granted_perm q q' : q ≡ₚ q' -> granted_in q ≡ₚ granted_in q'.
Proof. intros H. unfold granted_in. by rewrite H. Qed.
Lemma asked_done w r : wt_done w = Some r -> asked (wt_for w) (Gets r) = claims_of w.
Proof. intros H. unfold asked, claims_of. cbn. by rewrite H. Qed.
Lemma set_back s : set_owned (owned s) (set_owned ({["lock"]} ∪ owned s) s) = s.
Proof. by destruct s. Qed.
Lemma wait_path_ok t s held : system_ok s held ->
  exists r s', wait_path t s = Done r s' /\ system_ok s' (gained (lockq s) (WaitPath t) (or_waits r) ++ held).
Proof.
  intros [Ho Hl Ha Hw]. assert (wait_path t s = Done None s \/ exists w q r, dequeued t (lockq s) = Some (w, q) /\ wt_done w = Some r /\ wait_path t s = Done (Some r) (set_lockq q s)) as [Hrun|(w & q & r & Hd & Hr & Hrun)].
  { unfold wait_path. destruct (dequeued t (lockq s)) as [[w q]|] eqn:Hd.
    - destruct (wt_signal w) eqn:Hsig, (wt_done w) as [r|] eqn:Hr; [right; exists w, q, r; split; [done|split; [done|]]|left..];
        (erewrite locked_call; [|exact Hl|cbn; unfold mbind at 1, prog_bind at 1, pget; cbn; rewrite Hd, Hsig, ?Hr; reflexivity|reflexivity]); by destruct s.
    - left. erewrite locked_call; [|exact Hl|cbn; unfold mbind at 1, prog_bind at 1, pget; cbn; rewrite Hd; reflexivity|reflexivity]. by destruct s. }
  - exists None, s. split; [done|]. cbn. by destruct (dequeued t (lockq s)) as [[w q]|].
  - exists (Some r), (set_lockq q s). split; [done|]. destruct (dequeued_some _ _ _ _ Hd) as [_ Hp]. cbn [gained or_waits]. rewrite Hd, (asked_done w r Hr).
    assert (granted_in q ++ claims_of w ++ held ≡ₚ granted_in (lockq s) ++ held) as Hperm.
    { rewrite (granted_perm _ _ Hp), granted_cons. by rewrite (assoc_L (++)), (comm (++) (granted_in q)). }
    split; [|done| |]; cbn [lockq set_lockq].
    + rewrite Hperm. by apply (tree_eq_order s).
    + rewrite Hp in Ha. by apply Forall_cons in Ha as [_ ?].
    + intros Hex Hnil. rewrite Hnil in Hperm. apply Permutation_nil in Hperm. apply Hw; [|done]. rewrite Hp. by right.
Qed.

(** ** Giving them back *)

Lemma release_ok s c C : in_order s (c :: C) -> lenZ C + 2 < 2 ^ 31 - 1 ->
  exists s1, unlock_path (ask_ino c.1) c.2.2 None s = Done tt s1 /\ moved s s1 /\ in_order s1 C.
Proof.
  intros [Hr (G & HG & Hacc) Hh] Hfew. assert (c ∈ G.*1) as Hin by (rewrite HG; left). apply list_elem_of_fmap in Hin as ([c' l] & E & Hin). cbn in E. subst c'.
  apply elem_of_Permutation in Hin as [G' HG']. pose proof (accounts_perm s _ _ HG' Hacc) as Hacc'. rewrite HG' in HG. cbn in HG. apply Permutation_cons_inv in HG.
  destruct (accounts_release s G' c l Hr Hacc') as (m' & Hrun & Hre & Hacc'').
  { apply (few_claims ((c, l) :: G') (c :: C) 0); [cbn; by rewrite HG|rewrite lenZ_cons; lia|lia]. }
  set (s1 := relocked m' (allocs s) s). assert (moved s s1) as Hmv by (by exists m', (allocs s)). exists s1. split; [done|]. split; [done|]. apply Forall_cons in Hh as [_ Hh].
  split; [by apply (moved_ready s)|by exists G'|]. eapply Forall_impl; [exact Hh|]. intros x Hx. by apply (moved_held s).
Qed.
Lemma same_waiters_len q q' : same_waiters q q' -> lenZ q' = lenZ q.
Proof. intros H. unfold lenZ. by rewrite (Forall2_length _ _ _ H). Qed.
(** Waking everybody inside the lock ends a call well. *)
Lemma wake_ends s s1 held : "lock" ∉ owned s -> moved (set_owned ({["lock"]} ∪ owned s) s) s1 -> courteous s held -> Forall answered (lockq s) ->
  in_order s1 (granted_in (lockq s) ++ held) -> ready s ->
  exists s2, wake_up_queued mem s1 = Done tt s2 /\ owned s2 = {["lock"]} ∪ owned s /\ system_ok (set_owned (owned s) s2) held.
Proof.
  intros Hl Hmv (Hlim & Hfew & Hfair) Ha Ho Hr. destruct (moved_rest _ _ Hmv) as (Eo & Eq & _). cbn in Eo, Eq.
  destruct (wake_up_queued_ok mem s1 held) as (q' & s2 & Hrun & Hmv2 & Ho2 & Hsame & Hans & Hex).
  - by rewrite Eq.
  - by apply (moved_limits _ _ Hmv).
  - rewrite Eq. lia.
  - unfold queue_ok. rewrite Eq. apply Forall_forall. intros w Hin. rewrite Forall_forall in Hfair, Ha. split; [|by apply Ha].
    apply (moved_fair_wait _ _ _ Hmv); [by apply ready_owned|]. by apply Hfair.
  - exists (set_lockq q' s2). split; [done|]. destruct (moved_rest _ _ Hmv2) as (Eo2 & _). cbn. split; [congruence|]. apply system_unlocked; [done| |done|done].
    by apply (tree_eq_order s2).
Qed.
Lemma courteous_less s c held : courteous s (c :: held) -> courteous s held.
Proof. intros (H1 & H2 & H3). rewrite lenZ_cons in H2. split; [done|]. split; [lia|done]. Qed.
Lemma free_path_ok c s held : system_ok s (c :: held) -> courteous s (c :: held) ->
  exists s', free_path_wrlock mem (ask_ino c.1) c.2.2 s = Done tt s' /\ system_ok s' held.
Proof.
  intros [Ho Hl Ha Hw] Hco. pose proof Hco as (_ & Hfew & _). rewrite lenZ_cons in Hfew. pose proof (granted_short (lockq s)). set (s0 := set_owned ({["lock"]} ∪ owned s) s).
  assert (in_order s0 (c :: granted_in (lockq s) ++ held)) as Ho0 by (apply order_owned; by rewrite Permutation_middle).
  destruct (release_ok s0 c _ Ho0) as (s1 & Hrun & Hmv & Ho1); [rewrite lenZ_app; lia|]. destruct (moved_rest _ _ Hmv) as (Eo & Eq & _). change (lockq s0) with (lockq s) in Eq.
  destruct (lockq s) as [|w q] eqn:Hq.
  - exists (set_owned (owned s) s1). split; [|apply system_unlocked; rewrite ?Eq; [done|exact Ho1|done|by intros ?%Exists_nil]].
    apply locked_call; [done| |done]. step ltac:(exact Hrun). unfold mbind, prog_bind, pget. by rewrite Eq.
  - rewrite <- Hq in *. destruct (wake_ends s s1 held) as (s2 & Hrun2 & Eo2 & Hs2); try done; [by apply (courteous_less s c)|by destruct Ho|].
    exists (set_owned (owned s) s2). split; [|done]. apply locked_call; [done| |done]. step ltac:(exact Hrun). step ltac:(exact eq_refl). rewrite Eq, Hq. exact Hrun2.
Qed.
Lemma free_path2_ok c d s held : system_ok s (c :: d :: held) -> courteous s (c :: d :: held) ->
  exists s', free_path2 mem (ask_ino c.1) (ask_ino d.1) c.2.2 d.2.2 s = Done tt s' /\ system_ok s' held.
Proof.
  intros [Ho Hl Ha Hw] Hco. pose proof Hco as (_ & Hfew & _). rewrite !lenZ_cons in Hfew. pose proof (granted_short (lockq s)). set (s0 := set_owned ({["lock"]} ∪ owned s) s).
  assert (in_order s0 (c :: d :: granted_in (lockq s) ++ held)) as Ho0 by (apply order_owned; by rewrite !Permutation_middle).
  destruct (release_ok s0 c _ Ho0) as (s1 & Hrun & Hmv & Ho1); [rewrite lenZ_cons, lenZ_app; lia|].
  destruct (release_ok s1 d _ Ho1) as (s2 & Hrun2 & Hmv2 & Ho2); [rewrite lenZ_app; lia|].
  destruct (wake_ends s s2 held) as (s3 & Hrun3 & Eo3 & Hs3); try done; [by eapply moved_trans|by eapply courteous_less, courteous_less|by destruct Ho|].
  exists (set_owned (owned s) s3). split; [|done]. apply locked_call; [done| |done]. step ltac:(exact Hrun). step ltac:(exact Hrun2). exact Hrun3.
Qed.

(** ** Changing names while paths are in use *)

Lemma steps_start m p l q : steps m p l q -> p = q \/ p ∈ l.
Proof. intros []; [by left|right; left]. Qed.
(** The nodes of a claim are locked, so that a forgetting of them waits. *)
Lemma claim_ids_locked s G g p m : ready s -> accounts s G -> few G -> g ∈ G -> nodes s !! p = Some m -> p <> 0%nat ->
  nodeid m = ask_ino g.1.1 \/ g.1.2.2 = Some p -> treelock m <> 0.
Proof.
  intros (Hs & _) Hacc Hf Hg Hm H0 Hid. apply (claim_lock s G p m Hacc Hf Hm). exists g. split; [done|]. destruct Hid as [Hid|?]; [left|by right].
  destruct Hacc as [HG _]. rewrite Forall_forall in HG. destruct (HG g Hg) as ((q & n & Hn & E & Hst) & _). assert (q = p) as -> by (apply (shape_inj s q p n m); [done..|by rewrite E, Hid]).
  assert (p = 0%nat \/ p ∈ g.2) as [?|?] by (by eapply steps_start); done.
Qed.
Lemma alive_steps s a p l q n m : shape [] [] s -> entries a = entries (view s) -> steps (nodes s) p l q -> nodes s !! p = Some n -> alive a (nodeid n) -> nodes s !! q = Some m -> alive a (nodeid m).
Proof.
  intros Hs Ha Hst. revert n. induction Hst as [p|p x pp nm l q H0 Hx Hnm Hpp _ IH]; intros n Hn Hal Hm; [by assert (n = m) as <- by congruence|].
  destruct (linked_parent [] [] s p x pp Hs (not_elem_of_nil p) Hx Hpp) as ([y Hy] & _). apply (IH y Hy); [|done]. apply (alive_parent a _ nm (nodeid x)).
  - rewrite Ha. apply (view_sees s Hs). by exists p, pp, x, y.
  - by assert (n = x) as <- by congruence.
Qed.
(** Forgetting a node that is not locked takes nothing from a claim. *)
Lemma claims_spared s C G ino : in_order s C -> G.*1 ≡ₚ C -> accounts s G -> few G ->
  (forall p m, nodes s !! p = Some m -> nodeid m = ino -> treelock m = 0) -> ino <> FUSE_ROOT_ID -> spared s ino 0.
Proof.
  intros [Hr _ Hh] HG Hacc Hf Hfree Hne q m Hm Hl. pose proof Hr as (Hs & _). destruct (locked_claim s G q m Hacc Hm Hl) as (g & Hg & Hwhy).
  assert (held_up s g.1) as [Hdir Hwn]. { rewrite <- HG in Hh. rewrite Forall_forall in Hh. apply Hh, list_elem_of_fmap. by exists g. }
  assert (forall p n, nodes s !! p = Some n -> nodeid n = ask_ino g.1.1 \/ g.1.2.2 = Some p -> kept_dir (view s) (nodeid n) -> alive (set_count ino 0 (view s)) (nodeid n)) as Hal.
  { intros p n Hn Hid (k & Hk & Hpos). apply (alive_counted _ _ k); [|done]. cbn. rewrite lookup_insert_ne; [done|]. intros E. destruct (decide (p = 0%nat)) as [->|H0].
    - destruct (sh_root _ _ _ Hs) as (r & Hr0 & Er & _). apply Hne. congruence.
    - apply (claim_ids_locked s G g p n Hr Hacc Hf Hg Hn H0 Hid). by apply (Hfree p n). }
  destruct Hwhy as [Hq|Hw].
  - destruct Hacc as [HGw _]. rewrite Forall_forall in HGw. destruct (HGw g Hg) as ((p & n & Hn & E & Hst) & _). destruct (steps_to _ _ _ _ _ Hst Hq) as [l' Hl'].
    apply (alive_steps s (set_count ino 0 (view s)) p l' q n m Hs eq_refl Hl' Hn); [|done]. apply (Hal p n Hn (or_introl E)). by rewrite E.
  - by apply (Hal q m Hm (or_intror Hw)); destruct (Hwn q Hw) as (n & Hn & Hk); assert (n = m) as <- by congruence.
Qed.
(** The ids that the kernel holds for a claim. *)
Definition uses (s : fuse) (c : claim) (d : Z) : Prop := ask_ino c.1 = d \/ exists x n, c.2.2 = Some x /\ nodes s !! x = Some n /\ nodeid n = d.
Lemma order_around T s s' C op r : in_order s C -> lenZ C + 1 < 2 ^ 31 - 1 -> ready s' -> mild T s s' -> untouched s T ->
  allowed (keeps s) (view s) op -> name_step (keeps s) (view s) op r (view s') ->
  (forall c d n k, c ∈ C -> uses s c d -> op = Forget d n -> counts (view s) !! d = Some k -> n < k \/ r = 1) -> in_order s' C.
Proof.
  intros [Hr (G & HG & Hacc) Hh] Hfew Hr' Hm HT Ha Hst Hf. pose proof (few_claims G C 1 HG Hfew ltac:(lia)) as HfG. pose proof Hr as (Hs & _).
  split; [done|exists G; split; [done|by apply (accounts_around T s)]|]. rewrite Forall_forall in Hh. apply Forall_forall. intros c Hc. destruct (Hh c Hc) as [H1 H2]. split.
  - apply (name_step_kept _ _ _ _ _ _ Hst Ha H1). intros n k -> Hk. apply (Hf c (ask_ino c.1) n k Hc); [by left|done|done].
  - intros x Hx. destruct (H2 x Hx) as (n & Hn & Hk). assert (c ∈ G.*1) as Hin by (by rewrite HG). apply list_elem_of_fmap in Hin as (g & -> & Hg).
    destruct (writer_locked s G g x n Hacc Hg Hx Hn) as (_ & _ & El). destruct (around_node T s s' x n Hm (sh_fresh _ _ _ Hs) Hn) as (n' & Hn' & _ & Eid & _); [by rewrite El|].
    exists n'. split; [done|]. rewrite Eid. apply (name_step_kept _ _ _ _ _ _ Hst Ha Hk). intros v k -> Hk'. apply (Hf g.1 (nodeid n) v k Hc); [|done|done]. right. by exists x, n.
Qed.
Lemma used_locked s G C c d p m : ready s -> G.*1 ≡ₚ C -> accounts s G -> few G -> c ∈ C -> uses s c d -> nodes s !! p = Some m -> nodeid m = d -> d <> FUSE_ROOT_ID -> treelock m <> 0.
Proof.
  intros Hr HG Hacc Hf Hc Hu Hm Hid Hne. pose proof Hr as (Hs & _). rewrite <- HG in Hc. apply list_elem_of_fmap in Hc as (g & -> & Hg).
  assert (p <> 0%nat) as H0. { intros ->. destruct (sh_root _ _ _ Hs) as (r & Hr0 & Er & _). apply Hne. congruence. }
  apply (claim_ids_locked s G g p m Hr Hacc Hf Hg Hm H0). destruct Hu as [Hd|(x & n & Hx & Hn & E)]; [left; congruence|right].
  assert (x = p) as ->; [|done]. apply (shape_inj s x p n m); [done..|congruence].
Qed.
(** A forgetting either waits for a locked node or leaves every claim in order. *)
Lemma forget_call_ok s C ino n : in_order s C -> lenZ C + 1 < 2 ^ 31 - 1 -> ino <> FUSE_ROOT_ID -> unhurt s (Forget ino n) /\
  (forall r p m, nodes s !! p = Some m -> nodeid m = ino -> (nlookup m =? n) && negb (treelock m =? 0) = false \/ r = 1 ->
    forall c d v k, c ∈ C -> uses s c d -> Forget ino n = Forget d v -> 0 <= n <= nlookup m -> counts (view s) !! d = Some k -> v < k \/ r = 1).
Proof.
  intros Ho Hfew Hne. pose proof Ho as [Hr (G & HG & Hacc) _]. pose proof (few_claims G C 1 HG Hfew ltac:(lia)) as HfG. pose proof Hr as (Hs & _). split.
  - intros p m Hm Hid Hn. destruct (Z.eq_dec (treelock m) 0) as [Hz|]; [right|by left].
    apply (claims_spared s C G ino Ho HG Hacc HfG); [|done]. intros q x Hx Ex. assert (q = p) as -> by (apply (shape_inj s q p x m); [done..|congruence]). congruence.
  - intros r p m Hm Hid Hw c d v k Hc Hu [= <- <-] Hle Hk. pose proof (used_locked s G C c ino p m Hr HG Hacc HfG Hc Hu Hm Hid Hne) as Hl.
    destruct Hw as [Hw|?]; [left|by right]. pose proof (view_count s p m Hs Hm) as Hkm. rewrite Hid in Hkm. assert (k = nlookup m) as -> by congruence.
    destruct (Z.eqb_spec (nlookup m) n); [|lia]. destruct (Z.eqb_spec (treelock m) 0); [congruence|done].
Qed.
Lemma untouched_none s : untouched s (fun _ => False).
Proof. by intros x n H. Qed.
Lemma total_bound s held : courteous s held -> lenZ (granted_in (lockq s) ++ held) + 2 < 2 ^ 31 - 1.
Proof. intros (_ & H & _). pose proof (granted_short (lockq s)). rewrite lenZ_app. lia. Qed.
Lemma claims_exist s C p m : in_order s C -> nodes s !! p = Some m -> treelock m <> 0 -> C <> [].
Proof.
  intros [_ (G & HG & Hacc) _] Hm Hl. apply (some_claims G C HG). destruct (locked_claim s G p m Hacc Hm Hl) as (g & Hg & _). intros ->. by apply not_elem_of_nil in Hg.
Qed.
Lemma forget_node_call t ino n s held : system_ok s held -> courteous s held -> allowed (keeps s) (view s) (Forget ino n) ->
  exists b s', forget_node mem t ino n s = Done b s' /\ system_ok s' held.
Proof.
  intros Hsys Hco Ha. pose proof Hsys as [Ho Hl Han Hw]. destruct (Z.eq_dec ino FUSE_ROOT_ID) as [->|Hne]; [by exists true, s|].
  pose proof (total_bound s held Hco) as Hb. destruct (forget_call_ok s _ ino n Ho ltac:(lia) Hne) as [Hun Hstay]. pose proof (io_ready _ _ Ho) as Hr. pose proof Hr as (Hs & _).
  destruct (forget_node_ok mem t s ino n Hr Hl Hun Ha) as (b & s' & Hrun & Hr' & ([Eo _] & _ & Hm) & Eq & Hst & Hwhy). exists b, s'. split; [done|].
  destruct (Hwhy Hne) as (p & m & Hpm & Hid & Hb'). cbn in Eo. assert (granted_in (lockq s') = granted_in (lockq s)) as Eg.
  { rewrite Eq. destruct b; [by rewrite app_nil_r|]. rewrite granted_app. apply app_nil_r. }
  split.
  - rewrite Eg. apply (order_around (fun _ => False) s s' _ (Forget ino n) (if b then 0 else 1)); try done; [lia|apply untouched_none|].
    intros c d v k Hc Hu E Hk. apply (Hstay (if b then 0 else 1) p m Hpm Hid) with (c := c) (d := d); try done.
    + destruct ((nlookup m =? n) && negb (treelock m =? 0)); subst b; [by right|by left].
    + destruct Ha as [?|(k' & Hk' & _ & Hle)]; [done|]. rewrite <- Hid, (view_count s p m Hs Hpm) in Hk'. injection Hk' as <-. done.
  - by rewrite Eo.
  - rewrite Eq. apply Forall_app. split; [done|]. destruct b; [constructor|]. constructor; [by intros []|constructor].
  - rewrite Eg, Eq. intros Hex. destruct b; [rewrite app_nil_r in Hex; by apply Hw|]. apply (claims_exist s _ p m Ho Hpm).
    destruct (nlookup m =? n), (Z.eqb_spec (treelock m) 0); done.
Qed.
Lemma unsignal_claims t q : granted_in (unsignal t q) = granted_in q.
Proof. induction q as [|w q IH]; [done|]. cbn. destruct (decide _); [done|]. by rewrite !granted_cons, IH. Qed.
Lemma unsignal_answered t q w q' : dequeued t q = Some (w, q') -> (exists ino, wt_for w = ForUnlock ino) -> Forall answered q -> Forall answered (unsignal t q).
Proof.
  revert w q'. induction q as [|x q IH]; intros w q'; [done|]. cbn. destruct (decide (wt_thread x = t)) as [Ht|Ht].
  - intros [= -> ->] [ino Hf] [Hx Hq]%Forall_cons. constructor; [|done]. intros H. destruct (Hx H) as [_ Hun]. by destruct (Hun ino).
  - destruct (dequeued t q) as [[y q'']|]; [|done]. cbn. intros [= -> <-] Hf [Hx Hq]%Forall_cons. constructor; [done|]. by apply (IH w q'').
Qed.
Lemma queue_order s q C : in_order s C -> in_order (set_lockq q s) C.
Proof. by apply tree_eq_order. Qed.
Lemma forget_wait_call t ino n s held w q : system_ok s held -> courteous s held -> allowed (keeps s) (view s) (Forget ino n) -> ino <> FUSE_ROOT_ID ->
  dequeued t (lockq s) = Some (w, q) -> wt_for w = ForUnlock ino ->
  exists b s', forget_wait mem t ino n s = Done b s' /\ system_ok s' held.
Proof.
  intros Hsys Hco Ha Hne Hd Hf. pose proof Hsys as [Ho Hl Han Hw]. destruct (dequeued_some _ _ _ _ Hd) as [_ Hp].
  assert (claims_of w = []) as Ew by (unfold claims_of; by rewrite Hf). assert (granted_in (lockq s) ≡ₚ granted_in q) as Eg by (by rewrite (granted_perm _ _ Hp), granted_cons, Ew).
  set (s0 := set_owned ({["lock"]} ∪ owned s) s). pose proof (order_owned ({["lock"]} ∪ owned s) s _ Ho) as Ho0. fold s0 in Ho0. pose proof (io_ready _ _ Ho0) as Hr0. pose proof Hr0 as (Hs0 & _).
  destruct (wt_signal w) eqn:Hsig.
  2: { exists false, s. split; [|done]. unfold forget_wait. erewrite locked_call; [|exact Hl|cbn; unfold mbind at 1, prog_bind at 1, pget; cbn; rewrite Hd, Hsig; reflexivity|reflexivity]. by destruct s. }
  pose proof (total_bound s held Hco) as Hb. destruct Ha as [?|(k & Hk & Hpos & Hle)]; [done|]. destruct (view_node s0 ino k Hs0 Hk) as (p & m & Hm & Hid & <-).
  destruct ((nlookup m =? n) && negb (treelock m =? 0)) eqn:Hwait.
  - exists false, (set_lockq (unsignal t (lockq s)) s). split.
    + unfold forget_wait. rewrite (locked_call _ s false (set_lockq (unsignal t (lockq s)) s0) Hl); [by destruct s| |done].
      unfold mbind at 1, prog_bind at 1, pget. fold s0. change (lockq s0) with (lockq s). rewrite Hd, Hsig. cbn [negb].
      rewrite <- Hid. step ltac:(exact (get_node_spec [] [] s0 p m Hs0 Hm (not_elem_of_nil p))). step ltac:(by apply deref_some). by rewrite Hwait.
    + split; cbn [lockq set_lockq]; rewrite ?unsignal_claims; [by apply queue_order|done|by eapply unsignal_answered; [|exists ino|]|].
      intros _. apply (claims_exist s _ p m Ho Hm). destruct (nlookup m =? n), (Z.eqb_spec (treelock m) 0); done.
  - set (s1 := set_lockq q s0). pose proof (queue_order s0 q _ Ho0) as Ho1. fold s1 in Ho1. destruct (forget_call_ok s1 _ ino n Ho1 ltac:(lia) Hne) as [Hun Hstay].
    assert (p <> 0%nat) as H0 by (eapply (root_is_zero s1); [apply Ho1|done|congruence]).
    destruct (forget_last_ok mem s1 p m n (io_ready _ _ Ho1) Hm H0 Hpos Hle) as (s2 & Hrun & Hr2 & ([Eo Eq] & _ & Hmild) & Hcol).
    { intros E. rewrite Hid. destruct (Hun p m Hm Hid E) as [Hl'|?]; [|done]. rewrite E, Z.eqb_refl in Hwait. destruct (Z.eqb_spec (treelock m) 0); done. }
    exists true, (set_owned (owned s) s2). split.
    + unfold forget_wait. apply locked_call; [done| |by rewrite Eo]. unfold mbind at 1, prog_bind at 1, pget. fold s0. change (lockq s0) with (lockq s). rewrite Hd, Hsig. cbn [negb].
      rewrite <- Hid. step ltac:(exact (get_node_spec [] [] s0 p m Hs0 Hm (not_elem_of_nil p))). step ltac:(by apply deref_some). rewrite Hwait. step ltac:(exact eq_refl). by step ltac:(exact Hrun).
    + cbn in Eq. apply system_unlocked; rewrite ?Eq; [done| | |].
      * rewrite <- Eg. apply (order_around (fun _ => False) s1 s2 _ (Forget ino n) 0); try done; [lia|apply untouched_none|right; by exists (nlookup m)| |].
        -- rewrite Hid in Hcol. by apply (step_forget _ _ _ (nlookup m)).
        -- intros c d v k Hc Hu E Hk'. apply (Hstay 0 p m Hm Hid) with (c := c) (d := d); try done. by left.
      * rewrite Hp in Han. by apply Forall_cons in Han as [_ ?].
      * intros Hex Hnil. apply app_eq_nil in Hnil as [Hq Hh]. rewrite Hq in Eg. symmetry in Eg. apply Permutation_nil in Eg. apply Hw; [rewrite Hp; by right|by rewrite Eg, Hh].
Qed.
Lemma on_names_ok op s held : system_ok s held -> courteous s held -> call_ok s (OnNames op) -> exists r s', run_op mem op s = Done r s' /\ system_ok s' held.
Proof.
  intros [Ho Hl Han Hw] Hco (Hroom & Ha & Hun & Hnf). pose proof (total_bound s held Hco) as Hb. pose proof (io_ready _ _ Ho) as Hr.
  destruct (name_op_ok mem s op Hr Hroom Hl Ha) as (r & s' & Hrun & Hr' & ([Eo _] & _ & Hm) & Eq & Hst); [destruct op; try done; by destruct (Hnf ino count)|].
  exists r, s'. split; [done|]. assert (queued op r = []) as E by (destruct op; try done; by destruct (Hnf ino count)). rewrite E, app_nil_r in Eq. cbn in Eo.
  split; rewrite ?Eq, ?Eo; try done. apply (order_around (target s op) s s' _ op r); try done; [lia|]. intros c d n k _ _ ->. by destruct (Hnf d n).
Qed.
Lemma system_call_ok s held rest c : system_ok s held -> courteous s held -> call_ok s c -> held ≡ₚ returned c ++ rest ->
  exists r s', run_call mem c s = Done r s' /\ system_ok s' (gained (lockq s) c r ++ rest).
Proof.
  intros Hs Hco Hc Hp. assert (forall C, C ≡ₚ held -> system_ok s C /\ courteous s C) as Hperm.
  { intros C HC. destruct Hs as [H1 H2 H3 H4]. split; [split; try done; [by rewrite HC|]|by unfold courteous; rewrite HC].
    intros Hex Hnil. apply app_eq_nil in Hnil as [N1 N2]. apply (H4 Hex). rewrite N2 in HC. apply Permutation_nil in HC. by rewrite N1, HC. }
  destruct c as [t a|t a b|t|c|c d|t ino n|t ino n|op]; cbn [run_call returned gained app] in *; destruct (Hperm _ (symmetry Hp)) as [Hs' Hco'].
  - destruct (get_path_ok t a s rest Hs' Hco' Hc) as (r & s' & Hrun & Hok). step ltac:(exact Hrun). by eexists _, s'.
  - destruct Hc as (Ha & Hb & Hab). destruct (get_path2_ok t a b s rest Hs' Hco' Ha Hb Hab) as (r & s' & Hrun & Hok). step ltac:(exact Hrun). by eexists _, s'.
  - destruct (wait_path_ok t s rest Hs') as (r & s' & Hrun & Hok). step ltac:(exact Hrun). by eexists _, s'.
  - destruct (free_path_ok c s rest Hs' Hco') as (s' & Hrun & Hok). step ltac:(exact Hrun). by eexists _, s'.
  - destruct (free_path2_ok c d s rest Hs' Hco') as (s' & Hrun & Hok). step ltac:(exact Hrun). by eexists _, s'.
  - destruct (forget_node_call t ino n s rest Hs' Hco' Hc) as (r & s' & Hrun & Hok). step ltac:(exact Hrun). by eexists _, s'.
  - destruct Hc as (Ha & Hne & w & q & Hd & Hf). destruct (forget_wait_call t ino n s rest w q Hs' Hco' Ha Hne Hd Hf) as (r & s' & Hrun & Hok). step ltac:(exact Hrun). by eexists _, s'.
  - destruct (on_names_ok op s rest Hs' Hco' Hc) as (r & s' & Hrun & Hok). step ltac:(exact Hrun). by eexists _, s'.
Qed.
End System.

(** ** The properties *)

(** Whatever calls on paths, names and lookups the threads of a file system mix, as long as the kernel holds the directories it names and moves or removes only what nobody else has a path through, every call ends without a failed assertion or an access to a freed node and leaves the paths that are in use accounted for in the locks of their nodes. *)
Theorem path_calls_keep_order mem s held rest c : system_ok s held -> courteous s held -> call_ok s c -> held ≡ₚ returned c ++ rest ->
  exists r s', run_call mem c s = Done r s' /\ system_ok s' (gained (lockq s) c r ++ rest).
Proof.
  intros Hs Hco Hc Hp. destruct (system_call_ok mem s held rest c Hs Hco Hc Hp) as (r & s' & Hrun & Hok).
  by exists r, s'.
Qed.

(** The states of a file system and the paths that are in use in them. *)
Inductive paths_reachable (mem : nat -> bool) (cf : hl_config) : fuse -> list claim -> Prop :=
| paths_new : paths_reachable mem cf (hl_new cf) []
| paths_call s held rest c r s' : paths_reachable mem cf s held -> courteous s held -> call_ok s c -> held ≡ₚ returned c ++ rest -> run_call mem c s = Done r s' ->
    paths_reachable mem cf s' (gained (lockq s) c r ++ rest).
Lemma new_system_ok cf : system_ok (hl_new cf) [].
Proof.
  split.
  - split; [apply hl_new_ready| |constructor]. exists []. split; [done|]. split; [constructor|]. intros x n [-> ->]%hl_new_node. left. split; [done|by left].
  - apply not_elem_of_empty.
  - constructor.
  - by intros ?%Exists_nil.
Qed.
Lemma reachable_system mem cf s held : paths_reachable mem cf s held -> system_ok s held.
Proof.
  induction 1 as [|s held rest c r s' _ Hs Hco Hc Hp Hrun]; [apply new_system_ok|]. destruct (system_call_ok mem s held rest c Hs Hco Hc Hp) as (r' & s2 & Hrun' & Hok).
  rewrite Hrun in Hrun'. by injection Hrun' as <- <-.
Qed.
(** A path in use still leads from the root to its node. *)
Lemma claim_in_place s held a g : system_ok s held -> (a, g) ∈ held ->
  exists p n l, nodes s !! p = Some n /\ nodeid n = ask_ino a /\ steps (nodes s) p l 0 /\ g.1 = given (nodes s) a l /\
    forall x b h, x ∈ l -> (b, h) ∈ held -> h.2 <> Some x.
Proof.
  intros [[Hr (G & HG & Hacc) _] _ _ _] Hin. pose proof Hacc as [HW _]. rewrite Forall_forall in HW.
  assert (forall c, c ∈ held -> exists l, (c, l) ∈ G) as Hplace.
  { intros c Hc. assert (c ∈ G.*1) as H by (rewrite HG; by apply elem_of_app; right). apply list_elem_of_fmap in H as ([c' l] & -> & H). by exists l. }
  destruct (Hplace _ Hin) as [l Hl]. destruct (HW _ Hl) as ((p & n & Hn & Hid & Hst) & Ht & _). exists p, n, l. split_and!; try done.
  intros x b h Hx Hb Hh. destruct (Hplace _ Hb) as [l' Hl']. destruct (steps_some _ _ _ _ x Hst Hx) as (_ & m & _ & _ & Hm & _).
  destruct (writer_locked s G _ x m Hacc Hl' Hh Hm) as [H0 _]. pose proof (reader_counts G x _ Hl Hx). lia.
Qed.
(** However calls are mixed, a path that was given out keeps leading from the root to its node until it is given back: it is still the text of the names above the node, and no node on it is locked for being removed or moved. *)
Theorem paths_in_use_stay mem cf s held a g : paths_reachable mem cf s held -> (a, g) ∈ held ->
  exists p n l, nodes s !! p = Some n /\ nodeid n = ask_ino a /\ steps (nodes s) p l 0 /\ g.1 = given (nodes s) a l /\
    forall x b h, x ∈ l -> (b, h) ∈ held -> h.2 <> Some x.
Proof. intros Hre%reachable_system Hin. destruct (claim_in_place s held a g Hre Hin) as (p & n & l & Hp). by exists p, n, l. Qed.
(** No wake-up is lost: as long as a thread waits for a path or to forget a node, somebody has a path or was woken with one; once every path was taken by whom it was given to and given back, nobody waits. *)
Theorem nobody_waits_in_vain mem cf s held w : paths_reachable mem cf s held -> w ∈ lockq s -> pending w ->
  held <> [] \/ exists w', w' ∈ lockq s /\ wt_signal w' = true /\ claims_of w' <> [].
Proof.
  intros Hre Hin Hp. destruct (reachable_system mem cf s held Hre) as [_ _ Han Hw]. rewrite Forall_forall in Han.
  destruct held as [|c held]; [right|by left]. rewrite app_nil_r in Hw. assert (granted_in (lockq s) <> []) as Hne by (apply Hw, Exists_exists; by exists w).
  destruct (granted_in (lockq s)) as [|c l] eqn:E; [done|]. assert (c ∈ granted_in (lockq s)) as Hc by (rewrite E; left). apply list_elem_of_bind in Hc as (w' & Hc & Hw').
  exists w'. split; [done|]. assert (claims_of w' <> []) as Hcl by (intros Hn; rewrite Hn in Hc; by apply not_elem_of_nil in Hc). split; [|done].
  apply Han; [done|]. intros Hd. apply Hcl. unfold claims_of. rewrite Hd. by destruct (wt_for w').
Qed.

(** ** A run *)

(** A thread has the path of a directory that another one is to remove. *)
Definition ask_dir : path_ask := {| ask_ino := 2; ask_name := None; ask_write := false |}.
Definition ask_rmdir : path_ask := {| ask_ino := FUSE_ROOT_ID; ask_name := Some "d"%string; ask_write := true |}.
Definition dir_claim : claim := (ask_dir, ("/d"%string, None)).
Definition st_looked : fuse := after (run_call plenty (OnNames (Lookup FUSE_ROOT_ID (Some "d"%string)))) (hl_new demo_hl_config).
Definition st_got : fuse := after (run_call plenty (GetPath 1 ask_dir)) st_looked.
Definition st_waits : fuse := after (run_call plenty (GetPath 2 ask_rmdir)) st_got.
Lemma short_limits s : forallb (fun e => match name e.2 with Some nm => (String.length nm <=? 1024)%nat | None => true end) (map_to_list (nodes s)) = true ->
  (Z.of_nat (base.size (nodes s)) + 3) * 1025 <=? 2 ^ 32 - 2 = true -> limits s.
Proof.
  intros H Hp%Z.leb_le. split; [|exact Hp]. rewrite forallb_forall in H. intros p n nm Hn Hnm. specialize (H (p, n)). cbn in H. rewrite Hnm in H.
  apply Nat.leb_le, H, list_elem_of_In. by apply elem_of_map_to_list.
Qed.
Lemma kept_by_count s d : (match counts (view s) !! d with Some k => 0 <? k | None => false end) = true -> kept_dir (view s) d.
Proof. destruct (counts (view s) !! d) as [k|] eqn:E; [|done]. intros H%Z.ltb_lt. by exists k. Qed.
Lemma quiet_courteous s held : limits s -> lenZ held + 2 * lenZ (lockq s) + 4 <? 2 ^ 31 - 1 = true -> lockq s = [] -> courteous s held.
Proof. intros H1 H2%Z.ltb_lt H3. split; [done|]. split; [done|]. by rewrite H3. Qed.
Lemma st_looked_reached : paths_reachable plenty demo_hl_config st_looked [].
Proof.
  apply (paths_call _ _ (hl_new demo_hl_config) [] [] (OnNames (Lookup FUSE_ROOT_ID (Some "d"%string))) (Returns 2)); [apply paths_new| | |done|vm_compute; reflexivity].
  - apply quiet_courteous; [apply short_limits| |]; vm_compute; reflexivity.
  - split; [by vm_compute|]. split; [split; [exists 1; vm_compute; reflexivity|]|split].
    + intros ino He. vm_compute in He. discriminate He.
    + intros x n (m & e & _ & He & _). by apply not_elem_of_nil in He.
    + done.
Qed.
Lemma fair_dir : fair st_looked ask_dir.
Proof. split; [by split|]. split; [apply kept_by_count; vm_compute; reflexivity|intros H; discriminate H]. Qed.
Lemma st_got_reached : paths_reachable plenty demo_hl_config st_got [dir_claim].
Proof.
  apply (paths_call _ _ st_looked [] [] (GetPath 1 ask_dir) (Gets (inr [dir_claim.2])) st_got st_looked_reached); [|apply fair_dir|done|vm_compute; reflexivity].
  apply quiet_courteous; [apply short_limits| |]; vm_compute; reflexivity.
Qed.
Lemma fair_rmdir s : (match counts (view s) !! 1 with Some k => 0 <? k | None => false end) = true -> (match counts (view s) !! 2 with Some k => 0 <? k | None => false end) = true ->
  entries (view s) !! (1, "d"%string) = Some 2 -> fair s ask_rmdir.
Proof.
  intros H1 H2 He. split; [split; [intros nm [= <-]; cbn; lia|done]|]. split; [by apply kept_by_count|]. intros _ nm x [= <-] Hx. assert (x = 2) as -> by (change (entries (view s) !! (1, "d"%string) = Some x) in Hx; congruence). by apply kept_by_count.
Qed.
Lemma st_waits_reached : paths_reachable plenty demo_hl_config st_waits [dir_claim].
Proof.
  apply (paths_call _ _ st_got [dir_claim] [dir_claim] (GetPath 2 ask_rmdir) Waits st_waits st_got_reached); [| |done|vm_compute; reflexivity].
  - apply quiet_courteous; [apply short_limits| |]; vm_compute; reflexivity.
  - apply fair_rmdir; vm_compute; reflexivity.
Qed.
Lemma path_calls_keep_order_witness : exists r s', run_call plenty (FreePath dir_claim) st_waits = Done r s' /\ system_ok s' [].
Proof.
  destruct (path_calls_keep_order plenty st_waits [dir_claim] [] (FreePath dir_claim)) as (r & s' & Hrun & Hok); [by apply (reachable_system plenty demo_hl_config), st_waits_reached| |exact I|done|].
  - split; [apply short_limits; vm_compute; reflexivity|]. split; [by vm_compute|]. assert (exists t b d, lockq st_waits = [{| wt_thread := t; wt_for := ForPath ask_rmdir; wt_signal := b; wt_done := d |}]) as (t & b & d & ->).
    { do 3 eexists. vm_compute. reflexivity. } constructor; [|constructor]. apply fair_rmdir; vm_compute; reflexivity.
  - exact (ex_intro _ r (ex_intro _ s' (conj Hrun Hok))).
Defined.
Lemma paths_in_use_stay_witness : exists p n l, nodes st_waits !! p = Some n /\ nodeid n = 2 /\ steps (nodes st_waits) p l 0 /\ "/d"%string = given (nodes st_waits) ask_dir l.
Proof.
  destruct (paths_in_use_stay plenty demo_hl_config st_waits [dir_claim] ask_dir ("/d"%string, None) st_waits_reached) as (p & n & l & H1 & H2 & H3 & H4 & _); [left|].
  exact (ex_intro _ p (ex_intro _ n (ex_intro _ l (conj H1 (conj H2 (conj H3 H4)))))).
Defined.
Lemma nobody_waits_in_vain_witness : [dir_claim] <> [] \/ exists w', w' ∈ lockq st_waits /\ wt_signal w' = true /\ claims_of w' <> [].
Proof.
  assert (lockq st_waits = [{| wt_thread := 2; wt_for := ForPath ask_rmdir; wt_signal := false; wt_done := None |}]) as Hq by (vm_compute; reflexivity).
  apply (nobody_waits_in_vain plenty demo_hl_config st_waits [dir_claim] {| wt_thread := 2; wt_for := ForPath ask_rmdir; wt_signal := false; wt_done := None |} st_waits_reached).
  - rewrite Hq. left.
  - reflexivity.
Defined.
(** Giving the path back hands the directory to the one who waits. *)
Example demo_handed_over : (_ ← run_call plenty (FreePath dir_claim); run_call plenty (WaitPath 2)) st_waits = Done (Gets (inr [("/d"%string, Some 1%nat)])) (after (_ ← run_call plenty (FreePath dir_claim); run_call plenty (WaitPath 2)) st_waits).
Proof. vm_compute. reflexivity. Qed.
