(* ===== verification/HlRequests.v ===== *)
(** * lib/fuse.c: the requests of the high-level library

    A request is a program over actions: paths are got and given back under the library's
    lock, nodes and names are changed under it, operations of the file system are called
    and the kernel is answered without it.  [fuse_path_ops] is the program of every
    request.  [cf] is [f->conf], [has] says which operations the file system has.  The
    interrupts of [conf.intr] and the debugging output are left out. *)
From Stdlib Require Import Ascii.
From S2P Require Import Prelude Errno Sys FuseBuf LlDirent HlLocks HlTable HlNodes HlTree HlNames HlSpace HlPaths HlPathFacts HlPathLocks HlPathCalls HlPathSystem.

Abbreviation O_WRONLY := 1 (only parsing).
Abbreviation O_CREAT := 64 (only parsing).
Abbreviation O_EXCL := 128 (only parsing).
Abbreviation O_ACCMODE := 3 (only parsing).
Abbreviation UTIME_NOW := 1073741823 (only parsing).
Abbreviation UTIME_OMIT := 1073741822 (only parsing).
Abbreviation SET_ATTR_MODE := 1 (only parsing).
Abbreviation SET_ATTR_UID := 2 (only parsing).
Abbreviation SET_ATTR_GID := 4 (only parsing).
Abbreviation SET_ATTR_SIZE := 8 (only parsing).
Abbreviation SET_ATTR_ATIME := 16 (only parsing).
Abbreviation SET_ATTR_MTIME := 32 (only parsing).
Abbreviation SET_ATTR_ATIME_NOW := 128 (only parsing).
Abbreviation SET_ATTR_MTIME_NOW := 256 (only parsing).
Abbreviation RENAME_EXCHANGE := 2 (only parsing).
Abbreviation F_GETLK := 5 (only parsing).
Abbreviation F_SETLK := 6 (only parsing).
Abbreviation F_SETLKW := 7 (only parsing).
Abbreviation IOCTL_UNRESTRICTED := 2 (only parsing).
Abbreviation IOCTL_DIR := 16 (only parsing).
Abbreviation READDIR_PLUS := 1 (only parsing).
Abbreviation FILL_DIR_PLUS := 2 (only parsing).
Abbreviation PATH_MAX := 4096 (only parsing).
Abbreviation AT_EMPTY_PATH := 4096 (only parsing).

(** ** The operations of the file system *)

(** [struct statx] of the system; the library is built with HAVE_STATX. *)
Record statx := {
  stx_mask : Z; stx_blksize : Z; stx_attributes : Z; stx_nlink : Z; stx_uid : Z; stx_gid : Z; stx_mode : Z; stx_ino : Z; stx_size : Z; stx_blocks : Z;
  stx_attributes_mask : Z; stx_atime : timespec; stx_btime : timespec; stx_ctime : timespec; stx_mtime : timespec;
  stx_rdev_major : Z; stx_rdev_minor : Z; stx_dev_major : Z; stx_dev_minor : Z;
}.
Definition zero_statx : statx :=
  {| stx_mask := 0; stx_blksize := 0; stx_attributes := 0; stx_nlink := 0; stx_uid := 0; stx_gid := 0; stx_mode := 0; stx_ino := 0; stx_size := 0; stx_blocks := 0;
     stx_attributes_mask := 0; stx_atime := zero_ts; stx_btime := zero_ts; stx_ctime := zero_ts; stx_mtime := zero_ts;
     stx_rdev_major := 0; stx_rdev_minor := 0; stx_dev_major := 0; stx_dev_minor := 0 |}.
Definition statx_with (ino mode nlink uid gid : Z) (b : statx) : statx :=
  {| stx_mask := stx_mask b; stx_blksize := stx_blksize b; stx_attributes := stx_attributes b; stx_nlink := nlink; stx_uid := uid; stx_gid := gid; stx_mode := mode; stx_ino := ino;
     stx_size := stx_size b; stx_blocks := stx_blocks b; stx_attributes_mask := stx_attributes_mask b; stx_atime := stx_atime b; stx_btime := stx_btime b; stx_ctime := stx_ctime b;
     stx_mtime := stx_mtime b; stx_rdev_major := stx_rdev_major b; stx_rdev_minor := stx_rdev_minor b; stx_dev_major := stx_dev_major b; stx_dev_minor := stx_dev_minor b |}.
(** What [readdir] of the file system does: it ends with a result, or calls the filler and
    goes on with what that returns. *)
Inductive dir_run := DirDone (res : Z) | DirFill (nm : string) (statp : option stat) (off flags : Z) (k : bool -> dir_run).
(** [struct fuse_operations]; a path may be null where [nullpath_ok] says so. *)
Inductive fs_call :=
| FGetattr (path : option string) (fi : option fuse_file_info)
| FReadlink (path : string) (size : Z)
| FMknod (path : string) (mode rdev : Z)
| FMkdir (path : string) (mode : Z)
| FUnlink (path : string)
| FRmdir (path : string)
| FSymlink (link path : string)
| FRename (oldpath newpath : string) (flags : Z)
| FLink (oldpath newpath : string)
| FChmod (path : option string) (mode : Z) (fi : option fuse_file_info)
| FChown (path : option string) (uid gid : Z) (fi : option fuse_file_info)
| FTruncate (path : option string) (size : Z) (fi : option fuse_file_info)
| FUtimens (path : option string) (atime mtime : timespec) (fi : option fuse_file_info)
| FOpen (path : string) (fi : fuse_file_info)
| FRead (path : option string) (size off : Z) (fi : fuse_file_info)
| FReadBuf (path : option string) (size off : Z) (fi : fuse_file_info)
| FWrite (path : option string) (bytes : list Z) (size off : Z) (fi : fuse_file_info)
| FWriteBuf (path : option string) (buf : fuse_bufvec) (off : Z) (fi : fuse_file_info)
| FStatfs (path : string)
| FFlush (path : option string) (fi : fuse_file_info)
| FRelease (path : option string) (fi : fuse_file_info)
| FFsync (path : option string) (datasync : Z) (fi : fuse_file_info)
| FSetxattr (path nm : string) (value : list Z) (size flags : Z)
| FGetxattr (path nm : string) (size : Z)
| FListxattr (path : string) (size : Z)
| FRemovexattr (path nm : string)
| FOpendir (path : string) (fi : fuse_file_info)
| FReaddir (path : option string) (off : Z) (fi : fuse_file_info) (flags : Z)
| FReleasedir (path : option string) (fi : fuse_file_info)
| FFsyncdir (path : option string) (datasync : Z) (fi : fuse_file_info)
| FAccess (path : string) (mask : Z)
| FCreate (path : string) (mode : Z) (fi : fuse_file_info)
| FLock (path : option string) (fi : fuse_file_info) (cmd : Z) (lk : flock)
| FFlock (path : option string) (fi : fuse_file_info) (op : Z)
| FBmap (path : string) (blocksize idx : Z)
| FIoctl (path : option string) (cmd : Z) (fi : fuse_file_info) (flags : Z) (data : list Z)
| FPoll (path : option string) (fi : fuse_file_info) (ph : option Z)
| FFallocate (path : option string) (mode offset length : Z) (fi : fuse_file_info)
| FCopyFileRange (path_in : option string) (fi_in : fuse_file_info) (off_in : Z) (path_out : option string) (fi_out : fuse_file_info) (off_out len flags : Z)
| FLseek (path : string) (off whence : Z) (fi : fuse_file_info)
| FStatx (path : option string) (flags mask : Z) (fi : option fuse_file_info).
(** The result of a call and what it leaves in the memory it was given. *)
Definition fs_result (c : fs_call) : Type :=
  match c with
  | FGetattr _ _ => Z * stat
  | FStatx _ _ _ _ => Z * statx
  | FReadlink _ _ => Z * string
  | FOpen _ _ | FOpendir _ _ | FCreate _ _ _ => Z * fuse_file_info
  | FRead _ _ _ _ | FGetxattr _ _ _ | FListxattr _ _ | FIoctl _ _ _ _ _ => Z * list Z
  | FReadBuf _ _ _ _ => Z * option fuse_bufvec
  | FStatfs _ => Z * statvfs
  | FLock _ _ _ _ => Z * flock
  | FBmap _ _ _ | FPoll _ _ _ => Z * Z
  | FReaddir _ _ _ _ => dir_run
  | _ => Z
  end.
Inductive fs_op : Set :=
| o_getattr | o_readlink | o_mknod | o_mkdir | o_unlink | o_rmdir | o_symlink | o_rename | o_link | o_chmod | o_chown | o_truncate
| o_utimens | o_open | o_read | o_read_buf | o_write | o_write_buf | o_statfs | o_flush | o_release | o_fsync | o_setxattr | o_getxattr
| o_listxattr | o_removexattr | o_opendir | o_readdir | o_releasedir | o_fsyncdir | o_access | o_create | o_lock | o_flock | o_bmap
| o_ioctl | o_poll | o_fallocate | o_copy_file_range | o_lseek | o_statx.
Definition op_of (c : fs_call) : fs_op :=
  match c with
  | FGetattr _ _ => o_getattr | FReadlink _ _ => o_readlink | FMknod _ _ _ => o_mknod | FMkdir _ _ => o_mkdir | FUnlink _ => o_unlink
  | FRmdir _ => o_rmdir | FSymlink _ _ => o_symlink | FRename _ _ _ => o_rename | FLink _ _ => o_link | FChmod _ _ _ => o_chmod
  | FChown _ _ _ _ => o_chown | FTruncate _ _ _ => o_truncate | FUtimens _ _ _ _ => o_utimens | FOpen _ _ => o_open
  | FRead _ _ _ _ => o_read | FReadBuf _ _ _ _ => o_read_buf | FWrite _ _ _ _ _ => o_write | FWriteBuf _ _ _ _ => o_write_buf
  | FStatfs _ => o_statfs | FFlush _ _ => o_flush | FRelease _ _ => o_release | FFsync _ _ _ => o_fsync | FSetxattr _ _ _ _ _ => o_setxattr
  | FGetxattr _ _ _ => o_getxattr | FListxattr _ _ => o_listxattr | FRemovexattr _ _ => o_removexattr | FOpendir _ _ => o_opendir
  | FReaddir _ _ _ _ => o_readdir | FReleasedir _ _ => o_releasedir | FFsyncdir _ _ _ => o_fsyncdir | FAccess _ _ => o_access
  | FCreate _ _ _ => o_create | FLock _ _ _ _ => o_lock | FFlock _ _ _ => o_flock | FBmap _ _ _ => o_bmap | FIoctl _ _ _ _ _ => o_ioctl
  | FPoll _ _ _ => o_poll | FFallocate _ _ _ _ _ => o_fallocate | FCopyFileRange _ _ _ _ _ _ _ _ => o_copy_file_range | FLseek _ _ _ _ => o_lseek
  | FStatx _ _ _ _ => o_statx
  end.

(** The answers to the kernel: [fuse_reply_err], which takes a positive number, and so on. *)
Inductive hl_reply :=
| ReplyErr (err : Z) | ReplyNone | ReplyEntry (e : fuse_entry_param) | ReplyCreate (e : fuse_entry_param) (fi : fuse_file_info)
| ReplyAttr (st : stat) (timeout : double) | ReplyReadlink (target : string) | ReplyOpen (fi : fuse_file_info) | ReplyWrite (count : Z)
| ReplyBuf (data : list Z) | ReplyData (bv : option fuse_bufvec) | ReplyStatfs (st : statvfs) | ReplyXattr (count : Z) | ReplyLock (lk : flock)
| ReplyBmap (idx : Z) | ReplyIoctl (res : Z) (data : list Z) | ReplyPoll (revents : Z) | ReplyLseek (off : Z)
| ReplyStatx (flags : Z) (stx : statx) (timeout : double).

(** [struct fuse_direntry] and [struct fuse_dh]; [dh_contents] are the [len] bytes in use. *)
Record dir_entry := { de_name : string; de_stat : stat; de_flags : Z }.
Record fuse_dh := {
  dh_contents : list Z; dh_first : list dir_entry; dh_size : Z; dh_needlen : Z; dh_filled : bool; dh_fh : Z; dh_error : Z; dh_nodeid : Z;
}.
Definition dh_len (dh : fuse_dh) : Z := lenZ (dh_contents dh).
Definition set_contents (c : list Z) (dh : fuse_dh) : fuse_dh :=
  {| dh_contents := c; dh_first := dh_first dh; dh_size := dh_size dh; dh_needlen := dh_needlen dh; dh_filled := dh_filled dh; dh_fh := dh_fh dh; dh_error := dh_error dh; dh_nodeid := dh_nodeid dh |}.
Definition set_first (l : list dir_entry) (dh : fuse_dh) : fuse_dh :=
  {| dh_contents := dh_contents dh; dh_first := l; dh_size := dh_size dh; dh_needlen := dh_needlen dh; dh_filled := dh_filled dh; dh_fh := dh_fh dh; dh_error := dh_error dh; dh_nodeid := dh_nodeid dh |}.
Definition set_sizes (size needlen : Z) (dh : fuse_dh) : fuse_dh :=
  {| dh_contents := dh_contents dh; dh_first := dh_first dh; dh_size := size; dh_needlen := needlen; dh_filled := dh_filled dh; dh_fh := dh_fh dh; dh_error := dh_error dh; dh_nodeid := dh_nodeid dh |}.
Definition set_filled (b : bool) (dh : fuse_dh) : fuse_dh :=
  {| dh_contents := dh_contents dh; dh_first := dh_first dh; dh_size := dh_size dh; dh_needlen := dh_needlen dh; dh_filled := b; dh_fh := dh_fh dh; dh_error := dh_error dh; dh_nodeid := dh_nodeid dh |}.
Definition set_fh (fh : Z) (dh : fuse_dh) : fuse_dh :=
  {| dh_contents := dh_contents dh; dh_first := dh_first dh; dh_size := dh_size dh; dh_needlen := dh_needlen dh; dh_filled := dh_filled dh; dh_fh := fh; dh_error := dh_error dh; dh_nodeid := dh_nodeid dh |}.
Definition set_error (e : Z) (dh : fuse_dh) : fuse_dh :=
  {| dh_contents := dh_contents dh; dh_first := dh_first dh; dh_size := dh_size dh; dh_needlen := dh_needlen dh; dh_filled := dh_filled dh; dh_fh := dh_fh dh; dh_error := e; dh_nodeid := dh_nodeid dh |}.

(** ** Programs of requests *)

(** Under the library's lock: paths ([AGet] and [AGet2] return when the path was given),
    [APeek] for [try_get_path] without locks, names, the node of an id, the node of a
    name and one by its address.  [AHidden] is the part of [hidden_name] under the lock,
    [ADot], [ADotDot] and [AUndot] are those of the lookup of [.] and [..].  [ALockDir] and
    [AUnlockDir] lock a directory handle and write it back; [AFlatten] is the
    [fuse_buf_copy] of a vector to memory. *)
Inductive action : Type :=
| AGet (a : path_ask) | AGet2 (a b : path_ask) | AFree (c : claim) | AFree2 (c d : claim) | APeek (a : path_ask)
| AForget (ino n : Z) | ANames (op : name_op)
| ANode (X : Type) (ino : Z) (f : timespec -> node -> option (X * node)) | AFind (dir : Z) (nm : string) | ADeref (p : option nat)
| AHidden (dir : Z) (nm : string) | ADot (ino : Z) | ADotDot (ino : Z) | AUndot (p : nat)
| AOp (c : fs_call) | AReply (r : hl_reply) | AMem | AAssert (b : bool) | AFlatten (size : Z) (bv : fuse_bufvec)
| ANewDir (dh : fuse_dh) | AHandle (d : Z) | ASetDirFh (d fh : Z) | ALockDir (d : Z) | AUnlockDir (d : Z) (dh : fuse_dh) | AFreeDir (d : Z).
Definition result (a : action) : Type :=
  match a with
  | AGet _ => Z + claim
  | AGet2 _ _ => Z + claim * claim
  | APeek _ => Z + string
  | ANames _ | ADotDot _ | AReply _ | ANewDir _ => Z
  | ANode X _ _ => X
  | AFind _ _ => option node
  | ADeref _ => node
  | AHidden _ _ => option (string * (Z + string))
  | ADot _ => option nat
  | AOp c => fs_result c
  | AMem => bool
  | AFlatten _ _ => Z * list Z
  | AHandle _ | ALockDir _ => fuse_dh
  | _ => unit
  end.
Inductive io (A : Type) : Type := Ret (x : A) | Act (a : action) (k : result a -> io A).
Arguments Ret {A} x.
Arguments Act {A} a k.
Fixpoint io_then {A B} (m : io A) (f : A -> io B) : io B :=
  match m with Ret x => f x | Act a k => Act a (fun r => io_then (k r) f) end.
#[export] Instance io_ret : MRet io := fun A x => Ret x.
#[export] Instance io_bind : MBind io := fun A B f m => io_then m f.
Definition act (a : action) : io (result a) := Act a Ret.
Definition skip : io unit := mret tt.

Definition cpath (c : claim) : string := c.2.1.
Definition cwnode (c : claim) : option nat := c.2.2.
Definition npath (c : option claim) : option string := cpath <$> c.
Definition get_path (ino : Z) : io (Z + claim) := act (AGet {| ask_ino := ino; ask_name := None; ask_write := false |}).
Definition get_path_name (ino : Z) (nm : option string) : io (Z + claim) := act (AGet {| ask_ino := ino; ask_name := nm; ask_write := false |}).
Definition get_path_wrlock (ino : Z) (nm : string) : io (Z + claim) := act (AGet {| ask_ino := ino; ask_name := Some nm; ask_write := true |}).
Definition get_path2 (ino1 : Z) (nm1 : option string) (ino2 : Z) (nm2 : option string) (write : bool) : io (Z + claim * claim) :=
  act (AGet2 {| ask_ino := ino1; ask_name := nm1; ask_write := write |} {| ask_ino := ino2; ask_name := nm2; ask_write := write |}).
Definition free_path (c : option claim) : io unit := match c with Some c => act (AFree c) | None => skip end.
Definition ignore {A} (m : io A) : io unit := _ ← m; skip.
(** The usual frame: with the path, or with the error of getting it. *)
Definition reply_err (err : Z) : io unit := ignore (act (AReply (ReplyErr (- err)))).
Definition at_node {X} (ino : Z) (f : timespec -> node -> option (X * node)) : io X := act (ANode X ino f).

(** [double] sums and quotients, for the age of attributes. *)
Definition dadd (a b : double) : double :=
  dsub a (match b with DFin m e => DFin (- m) e | DInf s => DInf (negb s) | DNaN => DNaN end).
Definition ddiv_int (m d : Z) : double :=
  if m =? 0 then DFin 0 0
  else
    let k := Z.max 0 (64 + Z.log2 d - Z.log2 (Z.abs m)) in
    let q := Z.abs m * 2 ^ k / d in let sticky := if Z.abs m * 2 ^ k `mod` d =? 0 then 0 else 1 in
    round53 (Z.sgn m * (2 * q + sticky)) (- (k + 1)).
Definition diff_timespec (t1 t2 : timespec) : double :=
  dadd (dbl (tv_sec t1 - tv_sec t2)) (ddiv_int (tv_nsec t1 - tv_nsec t2) 1000000000).

Section Requests.
Variable cf : hl_config.
Variable has : fs_op -> bool.

Definition get_path_nullok (ino : Z) : io (Z + option claim) :=
  if cf_nullpath_ok cf then mret (inr None)
  else r ← get_path ino; mret (match r with inr c => inr (Some c) | inl e => if e =? - ESTALE then inr None else inl e end).

(** ** Calls of the operations: [default] is what a missing one gives *)

Definition fs (c : fs_call) (default : fs_result c) : io (fs_result c) := if has (op_of c) then act (AOp c) else mret default.
Definition fuse_fs_getattr path (buf : stat) fi : io (Z * stat) := fs (FGetattr path fi) (- ENOSYS, buf).
Definition fuse_fs_rename oldpath newpath flags : io Z := fs (FRename oldpath newpath flags) (- ENOSYS).
Definition fuse_fs_unlink path : io Z := fs (FUnlink path) (- ENOSYS).
Definition fuse_fs_rmdir path : io Z := fs (FRmdir path) (- ENOSYS).
Definition fuse_fs_symlink link path : io Z := fs (FSymlink link path) (- ENOSYS).
Definition fuse_fs_link oldpath newpath : io Z := fs (FLink oldpath newpath) (- ENOSYS).
Definition fuse_fs_release path fi : io Z := fs (FRelease path fi) 0.
Definition fuse_fs_opendir path fi : io (Z * fuse_file_info) := fs (FOpendir path fi) (0, fi).
Definition fuse_fs_open path fi : io (Z * fuse_file_info) := fs (FOpen path fi) (0, fi).
Definition fuse_fs_fsync path datasync fi : io Z := fs (FFsync path datasync fi) (- ENOSYS).
Definition fuse_fs_fsyncdir path datasync fi : io Z := fs (FFsyncdir path datasync fi) (- ENOSYS).
Definition fuse_fs_flush path fi : io Z := fs (FFlush path fi) (- ENOSYS).
Definition fuse_fs_statfs path (buf : statvfs) : io (Z * statvfs) :=
  fs (FStatfs path) (0, {| f_bsize := 512; f_frsize := f_frsize buf; f_blocks := f_blocks buf; f_bfree := f_bfree buf; f_bavail := f_bavail buf;
    f_files := f_files buf; f_ffree := f_ffree buf; f_favail := f_favail buf; f_fsid := f_fsid buf; f_flag := f_flag buf; f_namemax := 255 |}).
Definition fuse_fs_releasedir path fi : io Z := fs (FReleasedir path fi) 0.
Definition fuse_fs_readdir path off fi flags : io dir_run := fs (FReaddir path off fi flags) (DirDone (- ENOSYS)).
Definition fuse_fs_create path mode fi : io (Z * fuse_file_info) := fs (FCreate path mode fi) (- ENOSYS, fi).
Definition fuse_fs_lock path fi cmd lk : io (Z * flock) := fs (FLock path fi cmd lk) (- ENOSYS, lk).
Definition fuse_fs_flock path fi op : io Z := fs (FFlock path fi op) (- ENOSYS).
Definition fuse_fs_chown path uid gid fi : io Z := fs (FChown path uid gid fi) (- ENOSYS).
Definition fuse_fs_chmod path mode fi : io Z := fs (FChmod path mode fi) (- ENOSYS).
Definition fuse_fs_truncate path size fi : io Z := fs (FTruncate path size fi) (- ENOSYS).
Definition fuse_fs_utimens path atime mtime fi : io Z := fs (FUtimens path atime mtime fi) (- ENOSYS).
Definition fuse_fs_access path mask : io Z := fs (FAccess path mask) (- ENOSYS).
Definition fuse_fs_readlink path size : io (Z * string) := fs (FReadlink path size) (- ENOSYS, ""%string).
Definition fuse_fs_mknod path mode rdev : io Z := fs (FMknod path mode rdev) (- ENOSYS).
Definition fuse_fs_mkdir path mode : io Z := fs (FMkdir path mode) (- ENOSYS).
Definition fuse_fs_setxattr path nm value size flags : io Z := fs (FSetxattr path nm value size flags) (- ENOSYS).
Definition fuse_fs_getxattr path nm size : io (Z * list Z) := fs (FGetxattr path nm size) (- ENOSYS, []).
Definition fuse_fs_listxattr path size : io (Z * list Z) := fs (FListxattr path size) (- ENOSYS, []).
Definition fuse_fs_removexattr path nm : io Z := fs (FRemovexattr path nm) (- ENOSYS).
Definition fuse_fs_bmap path blocksize idx : io (Z * Z) := fs (FBmap path blocksize idx) (- ENOSYS, idx).
Definition fuse_fs_ioctl path cmd fi flags data : io (Z * list Z) := fs (FIoctl path cmd fi flags data) (- ENOSYS, data).
Definition fuse_fs_poll path fi ph : io (Z * Z) := fs (FPoll path fi ph) (- ENOSYS, 0).
Definition fuse_fs_fallocate path mode offset length fi : io Z := fs (FFallocate path mode offset length fi) (- ENOSYS).
Definition fuse_fs_copy_file_range path_in fi_in off_in path_out fi_out off_out len flags : io Z :=
  fs (FCopyFileRange path_in fi_in off_in path_out fi_out off_out len flags) (- ENOSYS).
Definition fuse_fs_lseek path off whence fi : io Z := fs (FLseek path off whence fi) (- ENOSYS).
Definition fuse_fs_statx path flags mask (stxbuf : statx) fi : io (Z * statx) := fs (FStatx path flags mask fi) (- ENOSYS, stxbuf).

(** A vector with one buffer of memory. *)
Definition one_buf (size : Z) (mem : list Z) : fuse_bufvec :=
  {| bv_idx := 0; bv_off := 0; bv_buf := [{| buf_size := size; buf_flags := 0; buf_mem := Some mem; buf_fd := -1; buf_pos := 0; buf_mem_size := 0 |}] |}.
Definition fuse_fs_read_buf path size off fi : io (Z * option fuse_bufvec) :=
  if negb (has o_read) && negb (has o_read_buf) then mret (- ENOSYS, None)
  else if has o_read_buf then
    '(res, buf) ← act (AOp (FReadBuf path size off fi)); mret (if (res : Z) <? 0 then res else 0, buf)
  else
    ok ← act AMem; if negb (ok : bool) then mret (- ENOMEM, None) else
    ok ← act AMem; if negb (ok : bool) then mret (- ENOMEM, None) else
    '(res, bytes) ← act (AOp (FRead path size off fi));
    mret (if (res : Z) <? 0 then res else 0, Some (one_buf (if 0 <=? res then res else size) bytes)).
Definition flattened path (buf : fuse_bufvec) off fi : io Z :=
  let size := fuse_buf_size (bv_buf buf) 0 in
  ok ← act AMem; if negb (ok : bool) then mret (- ENOMEM) else
  '(res, bytes) ← act (AFlatten size buf); if (res : Z) <=? 0 then mret res else act (AOp (FWrite path bytes res off fi)).
Definition fuse_fs_write_buf path (buf : fuse_bufvec) off fi : io Z :=
  if negb (has o_write_buf) && negb (has o_write) then mret (- ENOSYS)
  else
    _ ← act (AAssert ((bv_idx buf =? 0) && (bv_off buf =? 0)));
    if has o_write_buf then act (AOp (FWriteBuf path buf off fi))
    else
      match bv_buf buf with
      | [b] => if negb (has_flag (buf_flags b) FUSE_BUF_IS_FD) then act (AOp (FWrite path (default [] (buf_mem b)) (buf_size b) off fi))
               else flattened path buf off fi
      | _ => flattened path buf off fi
      end.

(** ** Attributes *)

Definition stat_with (ino mode nlink uid gid : Z) (st : stat) : stat :=
  {| st_ino := ino; st_mode := mode; st_nlink := nlink; st_uid := uid; st_gid := gid; st_rdev := st_rdev st; st_size := st_size st;
     st_blksize := st_blksize st; st_blocks := st_blocks st; st_atim := st_atim st; st_mtim := st_mtim st; st_ctim := st_ctim st |}.
Definition set_stat (ino : Z) (st : stat) : stat :=
  let masked mask := Z.lor (Z.land (st_mode st) S_IFMT) (Z.land 511 (Z.lnot mask)) in
  stat_with (if cf_use_ino cf then st_ino st else ino)
    (if cf_set_mode cf then
       if negb (cf_dmask cf =? 0) && (Z.land (st_mode st) S_IFMT =? S_IFDIR) then masked (cf_dmask cf)
       else if negb (cf_fmask cf =? 0) then masked (cf_fmask cf) else masked (cf_umask cf)
     else st_mode st)
    (st_nlink st) (if cf_set_uid cf then cf_uid cf else st_uid st) (if cf_set_gid cf then cf_gid cf else st_gid st) st.
Definition mtime_eq (st : stat) (ts : timespec) : bool := (tv_sec (st_mtim st) =? tv_sec ts) && (tv_nsec (st_mtim st) =? tv_nsec ts).
Definition update_stat (now : timespec) (st : stat) (n : node) : node :=
  set_cached now (st_mtim st) (st_size st) (cache_valid n && mtime_eq st (node_mtime n) && (st_size st =? node_size n)) n.
Definition zero_entry : fuse_entry_param :=
  {| e_ino := 0; e_generation := 0; e_attr := zero_stat; e_attr_timeout := DFin 0 0; e_entry_timeout := DFin 0 0 |}.

(** The node [find_node] returns is got at by its id, here and below. *)
Definition do_lookup (ino : Z) (nm : option string) (e : fuse_entry_param) : io (Z * fuse_entry_param) :=
  id ← act (ANames (Lookup ino nm));
  if (id : Z) =? 0 then mret (- ENOMEM, e)
  else
    gen ← at_node id (fun _ n => Some (generation n, n));
    _ ← (if cf_auto_cache cf then at_node id (fun now n => Some (tt, update_stat now (e_attr e) n)) else skip);
    mret (0, {| e_ino := id; e_generation := gen; e_attr := set_stat id (e_attr e);
                e_attr_timeout := cf_attr_timeout cf; e_entry_timeout := cf_entry_timeout cf |}).
Definition with_attr (st : stat) (e : fuse_entry_param) : fuse_entry_param :=
  {| e_ino := e_ino e; e_generation := e_generation e; e_attr := st; e_attr_timeout := e_attr_timeout e; e_entry_timeout := e_entry_timeout e |}.
Definition lookup_path (ino : Z) (nm : option string) (path : string) (fi : option fuse_file_info) : io (Z * fuse_entry_param) :=
  '(res, buf) ← fuse_fs_getattr (Some path) zero_stat fi;
  if (res : Z) =? 0 then do_lookup ino nm (with_attr buf zero_entry) else mret (res, with_attr buf zero_entry).
Definition reply_entry (e : fuse_entry_param) (err : Z) : io unit :=
  if err =? 0 then
    r ← act (AReply (ReplyEntry e));
    if (r : Z) =? - ENOENT then (if negb (e_ino e =? 0) then act (AForget (e_ino e) 1) else skip) else skip
  else reply_err err.

(** ** Hidden files *)

Definition is_open (dir : Z) (nm : string) : io bool :=
  n ← act (AFind dir nm); mret (match n : option node with Some n => 0 <? open_count n | None => false end).
Fixpoint hidden_rounds (failctr : nat) (dir : Z) (oldname : string) : io (option (string * string)) :=
  match failctr with
  | O => mret None
  | S failctr =>
      r ← act (AHidden dir oldname);
      match r : option (string * (Z + string)) with
      | None => mret None
      | Some (_, inl _) => mret None
      | Some (newname, inr newpath) =>
          '(res, _) ← fuse_fs_getattr (Some newpath) zero_stat None;
          if (res : Z) =? - ENOENT then mret (Some (newname, newpath))
          else if res =? 0 then hidden_rounds failctr dir oldname else mret None
      end
  end.
Definition hidden_name := hidden_rounds 10.
Definition hide_node (oldpath : string) (dir : Z) (oldname : string) : io Z :=
  r ← hidden_name dir oldname;
  match r with
  | Some (newname, newpath) =>
      err ← fuse_fs_rename oldpath newpath 0;
      if (err : Z) =? 0 then act (ANames (Rename dir oldname dir newname true)) else mret err
  | None => mret (- EBUSY)
  end.

(** ** The requests *)

Definition is_dot (nm : string) : bool := String.eqb nm ".".
Definition is_dotdot (nm : string) : bool := String.eqb nm "..".
Definition negative (e : fuse_entry_param) : fuse_entry_param :=
  {| e_ino := 0; e_generation := e_generation e; e_attr := e_attr e; e_attr_timeout := e_attr_timeout e; e_entry_timeout := cf_negative_timeout cf |}.
Definition lookup_at (parent : Z) (nm : option string) : io (Z * fuse_entry_param) :=
  r ← get_path_name parent nm;
  match r with
  | inl err => mret (err, zero_entry)
  | inr path =>
      '(err, e) ← lookup_path parent nm (cpath path) None;
      let res := if ((err : Z) =? - ENOENT) && negb (deqb (cf_negative_timeout cf) (DFin 0 0)) then (0, negative e) else (err, e) in
      _ ← free_path (Some path); mret res
  end.
Definition fuse_lib_lookup (parent : Z) (nm : string) : io unit :=
  if is_dot nm then
    dot ← act (ADot parent);
    match dot : option nat with
    | None => reply_entry zero_entry (- ESTALE)
    | Some p => '(err, e) ← lookup_at parent None; _ ← act (AUndot p); reply_entry e err
    end
  else if is_dotdot nm then
    up ← act (ADotDot parent); '(err, e) ← lookup_at up None; reply_entry e err
  else '(err, e) ← lookup_at parent (Some nm); reply_entry e err.

Definition do_forget (ino n : Z) : io unit := act (AForget ino n).
Definition fuse_lib_forget (ino n : Z) : io unit := _ ← do_forget ino n; ignore (act (AReply ReplyNone)).
Fixpoint forget_all (forgets : list (Z * Z)) : io unit :=
  match forgets with [] => skip | (ino, n) :: forgets => _ ← do_forget ino n; forget_all forgets end.
Definition fuse_lib_forget_multi (forgets : list (Z * Z)) : io unit := _ ← forget_all forgets; ignore (act (AReply ReplyNone)).

(** [get_path_nullok] with a file, [get_path] without. *)
Definition get_path_fi (ino : Z) (fi : option fuse_file_info) : io (Z + option claim) :=
  match fi with
  | Some _ => get_path_nullok ino
  | None => r ← get_path ino; mret (match r with inr c => inr (Some c) | inl e => inl e end)
  end.
Definition hidden_link (st : stat) (n : node) : stat :=
  if is_hidden n && (0 <? st_nlink st) then stat_with (st_ino st) (st_mode st) (st_nlink st - 1) (st_uid st) (st_gid st) st else st.
Definition cached (now : timespec) (st : stat) (n : node) : node := if cf_auto_cache cf then update_stat now st n else n.
Definition fuse_lib_getattr (ino : Z) (fi : option fuse_file_info) : io unit :=
  r ← get_path_fi ino fi;
  match r with
  | inl err => reply_err err
  | inr path =>
      '(err, buf) ← fuse_fs_getattr (npath path) zero_stat fi; _ ← free_path path;
      if (err : Z) =? 0 then
        buf ← at_node ino (fun now n => let st := hidden_link buf n in Some (st, cached now st n));
        ignore (act (AReply (ReplyAttr (set_stat ino buf) (cf_attr_timeout cf))))
      else reply_err err
  end.
Definition set_statx (ino : Z) (b : statx) : statx :=
  let masked mask := Z.lor (Z.land (stx_mode b) S_IFMT) (Z.land 511 (Z.lnot mask)) in
  statx_with (if cf_use_ino cf then stx_ino b else ino)
    (if cf_set_mode cf then
       if negb (cf_dmask cf =? 0) && (Z.land (stx_mode b) S_IFMT =? S_IFDIR) then masked (cf_dmask cf)
       else if negb (cf_fmask cf =? 0) then masked (cf_fmask cf) else masked (cf_umask cf)
     else stx_mode b)
    (stx_nlink b) (if cf_set_uid cf then cf_uid cf else stx_uid b) (if cf_set_gid cf then cf_gid cf else stx_gid b) b.
Definition hidden_linkx (b : statx) (n : node) : statx :=
  if is_hidden n && (0 <? stx_nlink b) then statx_with (stx_ino b) (stx_mode b) (stx_nlink b - 1) (stx_uid b) (stx_gid b) b else b.
(** What [update_stat] reads of it; both parts of the time are the nanoseconds. *)
Definition statx_stat (b : statx) : stat :=
  {| st_ino := 0; st_mode := 0; st_nlink := 0; st_uid := 0; st_gid := 0; st_rdev := 0; st_size := s64 (stx_size b); st_blksize := 0; st_blocks := 0;
     st_atim := zero_ts; st_mtim := {| tv_sec := tv_nsec (stx_mtime b); tv_nsec := tv_nsec (stx_mtime b) |}; st_ctim := zero_ts |}.
Definition fuse_lib_statx (ino flags mask : Z) (fi : option fuse_file_info) : io unit :=
  r ← get_path_fi ino fi;
  match r with
  | inl err => reply_err err
  | inr path =>
      let flags := match path : option claim with None => Z.lor flags AT_EMPTY_PATH | Some _ => flags end in
      '(err, stxbuf) ← fuse_fs_statx (npath path) flags mask zero_statx fi; _ ← free_path path;
      if (err : Z) =? 0 then
        stxbuf ← at_node ino (fun now n => let b := hidden_linkx stxbuf n in Some (b, cached now (statx_stat b) n));
        ignore (act (AReply (ReplyStatx 0 (set_statx ino stxbuf) (cf_attr_timeout cf))))
      else reply_err err
  end.
Definition uid_none : Z := 4294967295.
Definition time_arg (valid now set : Z) (ts : timespec) : timespec :=
  if has_flag valid now then {| tv_sec := 0; tv_nsec := UTIME_NOW |}
  else if has_flag valid set then ts else {| tv_sec := 0; tv_nsec := UTIME_OMIT |}.
(** One change of [setattr], unless an earlier one failed. *)
Definition set_step (err valid flags : Z) (change : io Z) : io Z := if (err =? 0) && has_flag valid flags then change else mret err.
Definition fuse_lib_setattr (ino : Z) (attr : stat) (valid : Z) (fi : option fuse_file_info) : io unit :=
  r ← get_path_fi ino fi;
  match r with
  | inl err => reply_err err
  | inr path =>
      err ← set_step 0 valid SET_ATTR_MODE (fuse_fs_chmod (npath path) (st_mode attr) fi);
      err ← set_step err valid (Z.lor SET_ATTR_UID SET_ATTR_GID)
        (fuse_fs_chown (npath path) (if has_flag valid SET_ATTR_UID then st_uid attr else uid_none) (if has_flag valid SET_ATTR_GID then st_gid attr else uid_none) fi);
      err ← set_step err valid SET_ATTR_SIZE (fuse_fs_truncate (npath path) (st_size attr) fi);
      err ← set_step err valid (Z.lor SET_ATTR_ATIME SET_ATTR_MTIME)
        (fuse_fs_utimens (npath path) (time_arg valid SET_ATTR_ATIME_NOW SET_ATTR_ATIME (st_atim attr)) (time_arg valid SET_ATTR_MTIME_NOW SET_ATTR_MTIME (st_mtim attr)) fi);
      '(err, buf) ← (if (err : Z) =? 0 then fuse_fs_getattr (npath path) zero_stat fi else mret (err, zero_stat));
      _ ← free_path path;
      if (err : Z) =? 0 then
        _ ← (if cf_auto_cache cf then at_node ino (fun now n => Some (tt, update_stat now buf n)) else skip);
        ignore (act (AReply (ReplyAttr (set_stat ino buf) (cf_attr_timeout cf))))
      else reply_err err
  end.
(** The usual frame: with a path, or with the error of getting it. *)
Definition on_claim {A} (get : io (Z + claim)) (body : string -> io A) : io (Z + A) :=
  r ← get; match r with inl err => mret (inl err) | inr c => a ← body (cpath c); _ ← free_path (Some c); mret (inr a) end.
Definition on_path {A} (ino : Z) (body : string -> io A) : io (Z + A) := on_claim (get_path ino) body.
Definition on_path_nullok {A} (ino : Z) (body : option string -> io A) : io (Z + A) :=
  r ← get_path_nullok ino; match r with inl err => mret (inl err) | inr c => a ← body (npath c); _ ← free_path c; mret (inr a) end.
Definition err_of (r : Z + Z) : Z := match r with inl err => err | inr err => err end.
Definition fuse_lib_access (ino mask : Z) : io unit := r ← on_path ino (fun path => fuse_fs_access path mask); reply_err (err_of r).
Definition fuse_lib_readlink (ino : Z) : io unit :=
  r ← on_path ino (fun path => fuse_fs_readlink path (PATH_MAX + 1));
  match r with
  | inr (err, linkname) => if err =? 0 then ignore (act (AReply (ReplyReadlink (String.substring 0 (Z.to_nat PATH_MAX) linkname)))) else reply_err err
  | inl err => reply_err err
  end.

(** Making a name: the operation, and the lookup of what it made. *)
Definition and_lookup (err parent : Z) (nm : string) (path : string) (fi : option fuse_file_info) : io (Z * fuse_entry_param) :=
  if err =? 0 then lookup_path parent (Some nm) path fi else mret (err, zero_entry).
Definition reply_made (r : Z + Z * fuse_entry_param) : io unit :=
  match r with inl err => reply_entry zero_entry err | inr (err, e) => reply_entry e err end.
Definition fi_flagged (flags : Z) : fuse_file_info :=
  {| fi_flags := flags; fi_writepage := false; fi_direct_io := false; fi_keep_cache := false; fi_flush := false; fi_nonseekable := false;
     fi_flock_release := false; fi_cache_readdir := false; fi_noflush := false; fi_parallel_direct_writes := false; fi_fh := 0; fi_lock_owner := 0;
     fi_poll_events := 0; fi_backing_id := 0 |}.
Definition is_reg (mode : Z) : bool := Z.land mode S_IFMT =? S_IFREG.
Definition fuse_lib_mknod (parent : Z) (nm : string) (mode rdev : Z) : io unit :=
  r ← on_claim (get_path_name parent (Some nm)) (fun path =>
    '(err, e) ← (if is_reg mode then
                   '(err, fi) ← fuse_fs_create path mode (fi_flagged (O_CREAT + O_EXCL + O_WRONLY));
                   if (err : Z) =? 0 then r ← lookup_path parent (Some nm) path (Some fi); _ ← fuse_fs_release (Some path) fi; mret r
                   else mret (err, zero_entry)
                 else mret (- ENOSYS, zero_entry));
    if (err : Z) =? - ENOSYS then err ← fuse_fs_mknod path mode rdev; and_lookup err parent nm path None else mret (err, e));
  reply_made r.
Definition fuse_lib_mkdir (parent : Z) (nm : string) (mode : Z) : io unit :=
  r ← on_claim (get_path_name parent (Some nm)) (fun path => err ← fuse_fs_mkdir path mode; and_lookup err parent nm path None); reply_made r.
Definition fuse_lib_symlink (link : string) (parent : Z) (nm : string) : io unit :=
  r ← on_claim (get_path_name parent (Some nm)) (fun path => err ← fuse_fs_symlink link path; and_lookup err parent nm path None); reply_made r.
Definition remove_if (err dir : Z) (nm : string) : io Z := if err =? 0 then _ ← act (ANames (Remove dir nm)); mret err else mret err.
(** What [wnode->name] is now. *)
Definition wnode_name (c : claim) : io string := n ← act (ADeref (cwnode c)); mret (default ""%string (name n)).
Definition fuse_lib_unlink (parent : Z) (nm : string) : io unit :=
  r ← get_path_wrlock parent nm;
  match r with
  | inl err => reply_err err
  | inr c =>
      hide ← (if cf_hard_remove cf then mret false else is_open parent nm);
      err ← (if hide : bool then
               err ← hide_node (cpath c) parent nm;
               if (err : Z) =? 0 then
                 now ← wnode_name c; used ← is_open parent now;
                 if used : bool then mret 0
                 else
                   n ← act (ADeref (cwnode c));
                   r ← act (APeek {| ask_ino := nodeid n; ask_name := None; ask_write := false |});
                   match r : Z + string with
                   | inr unlinkpath => err ← fuse_fs_unlink unlinkpath; if (err : Z) =? 0 then now ← wnode_name c; remove_if err parent now else mret err
                   | inl _ => mret 0
                   end
               else mret err
             else err ← fuse_fs_unlink (cpath c); remove_if err parent nm);
      _ ← free_path (Some c); reply_err err
  end.
Definition fuse_lib_rmdir (parent : Z) (nm : string) : io unit :=
  r ← get_path_wrlock parent nm;
  match r with
  | inl err => reply_err err
  | inr c => err ← fuse_fs_rmdir (cpath c); err ← remove_if err parent nm; _ ← free_path (Some c); reply_err err
  end.
Definition fuse_lib_rename (olddir : Z) (oldname : string) (newdir : Z) (newname : string) (flags : Z) : io unit :=
  r ← get_path2 olddir (Some oldname) newdir (Some newname) true;
  match r with
  | inl err => reply_err err
  | inr (c, d) =>
      hide ← (if cf_hard_remove cf || has_flag flags RENAME_EXCHANGE then mret false else is_open newdir newname);
      err ← (if hide : bool then hide_node (cpath d) newdir newname else mret 0);
      err ← (if (err : Z) =? 0 then
               err ← fuse_fs_rename (cpath c) (cpath d) flags;
               if (err : Z) =? 0 then
                 act (ANames (if has_flag flags RENAME_EXCHANGE then Exchange olddir oldname newdir newname else Rename olddir oldname newdir newname false))
               else mret err
             else mret err);
      _ ← act (AFree2 c d); reply_err err
  end.
Definition fuse_lib_link (ino newparent : Z) (newname : string) : io unit :=
  r ← get_path2 ino None newparent (Some newname) false;
  match r with
  | inl err => reply_entry zero_entry err
  | inr (c, d) =>
      err ← fuse_fs_link (cpath c) (cpath d); '(err, e) ← and_lookup err newparent newname (cpath d) None;
      _ ← act (AFree2 c d); reply_entry e err
  end.

(** ** Open files *)

Definition shown (n : node) : node :=
  {| nodeid := nodeid n; generation := generation n; refctr := refctr n; parent := parent n; name := name n; nlookup := nlookup n;
     open_count := open_count n; stat_updated := stat_updated n; node_mtime := node_mtime n; node_size := node_size n;
     locks := locks n; is_hidden := false; cache_valid := cache_valid n; treelock := treelock n; forget_time := forget_time n |}.
Definition closed (n : node) : option (bool * node) :=
  if 0 <? open_count n then
    let n' := set_open_count (open_count n - 1) n in
    if is_hidden n && (open_count n - 1 =? 0) then Some (true, shown n') else Some (false, n')
  else None.
Definition fuse_do_release (ino : Z) (path : option string) (fi : fuse_file_info) : io unit :=
  _ ← fuse_fs_release path fi; unlink_hidden ← at_node ino (fun _ n => closed n);
  if unlink_hidden : bool then
    match path with
    | Some path => ignore (fuse_fs_unlink path)
    | None => if cf_nullpath_ok cf then ignore (on_path ino (fun path => fuse_fs_unlink path)) else skip
    end
  else skip.
Definition opened (n : node) : node := set_open_count (open_count n + 1) n.
(** The flags [open] and [create] set besides those of the operation. *)
Definition fi_set (direct keep noflush : bool) (fi : fuse_file_info) : fuse_file_info :=
  let d := fi_direct_io fi || direct in
  {| fi_flags := fi_flags fi; fi_writepage := fi_writepage fi; fi_direct_io := d; fi_keep_cache := fi_keep_cache fi || keep; fi_flush := fi_flush fi;
     fi_nonseekable := fi_nonseekable fi; fi_flock_release := fi_flock_release fi; fi_cache_readdir := fi_cache_readdir fi; fi_noflush := fi_noflush fi || noflush;
     fi_parallel_direct_writes := fi_parallel_direct_writes fi || d && cf_parallel_direct_writes cf; fi_fh := fi_fh fi; fi_lock_owner := fi_lock_owner fi;
     fi_poll_events := fi_poll_events fi; fi_backing_id := fi_backing_id fi |}.
Definition fuse_lib_create (parent : Z) (nm : string) (mode : Z) (fi : fuse_file_info) : io unit :=
  r ← get_path_name parent (Some nm);
  match r with
  | inl err => reply_err err
  | inr c =>
      '(err, fi) ← fuse_fs_create (cpath c) mode fi;
      '(err, e, fi) ← (if (err : Z) =? 0 then
                         '(err, e) ← lookup_path parent (Some nm) (cpath c) (Some fi);
                         if negb ((err : Z) =? 0) then _ ← fuse_fs_release (Some (cpath c)) fi; mret (err, e, fi)
                         else if negb (is_reg (st_mode (e_attr e))) then
                           _ ← fuse_fs_release (Some (cpath c)) fi; _ ← act (AForget (e_ino e) 1); mret (- EIO, e, fi)
                         else mret (0, e, fi_set (cf_direct_io cf) (cf_kernel_cache cf) false fi)
                       else mret (err, zero_entry, fi));
      _ ← (if (err : Z) =? 0 then
             _ ← at_node (e_ino e) (fun _ n => Some (tt, opened n));
             r ← act (AReply (ReplyCreate e fi));
             if (r : Z) =? - ENOENT then _ ← fuse_do_release (e_ino e) (Some (cpath c)) fi; act (AForget (e_ino e) 1) else skip
           else reply_err err);
      free_path (Some c)
  end.
Definition set_valid (v : bool) (n : node) : node := set_cached (stat_updated n) (node_mtime n) (node_size n) v n.
(** Whether the kernel may keep its cache: with [None] the attributes are too old to tell. *)
Definition check_cache (now : timespec) (n : node) : option (option bool * node) :=
  if cache_valid n && dlt (cf_ac_attr_timeout cf) (diff_timespec now (stat_updated n)) then Some (None, n) else Some (Some (cache_valid n), set_valid true n).
Definition recheck_cache (err : Z) (st : stat) (now : timespec) (n : node) : option (bool * node) :=
  let n := if err =? 0 then update_stat now st n else set_valid false n in Some (cache_valid n, set_valid true n).
Definition open_auto_cache (ino : Z) (path : string) (fi : fuse_file_info) : io bool :=
  keep ← at_node ino check_cache;
  match keep : option bool with
  | Some keep => mret keep
  | None => '(err, st) ← fuse_fs_getattr (Some path) zero_stat (Some fi); at_node ino (recheck_cache err st)
  end.
Definition fuse_lib_open (ino : Z) (fi : fuse_file_info) : io unit :=
  r ← get_path ino;
  match r with
  | inl err => reply_err err
  | inr c =>
      '(err, fi) ← fuse_fs_open (cpath c) fi;
      _ ← (if (err : Z) =? 0 then
             let fi := fi_set (cf_direct_io cf) (cf_kernel_cache cf) false fi in
             keep ← (if cf_auto_cache cf then open_auto_cache ino (cpath c) fi else mret false);
             let fi := fi_set false keep (cf_no_rofd_flush cf && (Z.land (fi_flags fi) O_ACCMODE =? 0)) fi in
             _ ← at_node ino (fun _ n => Some (tt, opened n));
             r ← act (AReply (ReplyOpen fi));
             if (r : Z) =? - ENOENT then fuse_do_release ino (Some (cpath c)) fi else skip
           else reply_err err);
      free_path (Some c)
  end.

Definition fuse_lib_read (ino size off : Z) (fi : fuse_file_info) : io unit :=
  r ← on_path_nullok ino (fun path => fuse_fs_read_buf path size off fi);
  let '(res, buf) := match r with inr x => x | inl err => (err, None) end in
  if res =? 0 then ignore (act (AReply (ReplyData buf))) else reply_err res.
Definition reply_count (res : Z) : io unit := if 0 <=? res then ignore (act (AReply (ReplyWrite res))) else reply_err res.
Definition fuse_lib_write_buf (ino : Z) (buf : fuse_bufvec) (off : Z) (fi : fuse_file_info) : io unit :=
  r ← on_path_nullok ino (fun path => fuse_fs_write_buf path buf off fi); reply_count (err_of r).
Definition fuse_lib_fsync (ino datasync : Z) (fi : fuse_file_info) : io unit :=
  r ← on_path_nullok ino (fun path => fuse_fs_fsync path datasync fi); reply_err (err_of r).

(** ** Directories *)

Definition new_dh (ino : Z) : fuse_dh :=
  {| dh_contents := []; dh_first := []; dh_size := 0; dh_needlen := 0; dh_filled := false; dh_fh := 0; dh_error := 0; dh_nodeid := ino |}.
(** The file information with the file system's handle. *)
Definition dir_fi (dh : fuse_dh) : fuse_file_info :=
  {| fi_flags := 0; fi_writepage := false; fi_direct_io := false; fi_keep_cache := false; fi_flush := false; fi_nonseekable := false;
     fi_flock_release := false; fi_cache_readdir := false; fi_noflush := false; fi_parallel_direct_writes := false; fi_fh := dh_fh dh; fi_lock_owner := 0;
     fi_poll_events := 0; fi_backing_id := 0 |}.
Definition get_dirhandle (llfi : fuse_file_info) : io (Z * fuse_file_info) := dh ← act (AHandle (fi_fh llfi)); mret (fi_fh llfi, dir_fi dh).
Definition dir_opened (d : Z) (llfi fi : fuse_file_info) : fuse_file_info :=
  {| fi_flags := fi_flags llfi; fi_writepage := fi_writepage llfi; fi_direct_io := fi_direct_io llfi; fi_keep_cache := fi_keep_cache fi; fi_flush := fi_flush llfi;
     fi_nonseekable := fi_nonseekable llfi; fi_flock_release := fi_flock_release llfi; fi_cache_readdir := fi_cache_readdir fi; fi_noflush := fi_noflush llfi;
     fi_parallel_direct_writes := fi_parallel_direct_writes llfi; fi_fh := d; fi_lock_owner := fi_lock_owner llfi;
     fi_poll_events := fi_poll_events llfi; fi_backing_id := fi_backing_id llfi |}.
Definition fuse_lib_opendir (ino : Z) (llfi : fuse_file_info) : io unit :=
  ok ← act AMem;
  if negb (ok : bool) then reply_err (- ENOMEM)
  else
    d ← act (ANewDir (new_dh ino));
    r ← get_path ino;
    match r with
    | inl err => _ ← reply_err err; act (AFreeDir d)
    | inr c =>
        '(err, fi) ← fuse_fs_opendir (cpath c) (fi_flagged (fi_flags llfi));
        _ ← act (ASetDirFh d (fi_fh fi));
        _ ← (if (err : Z) =? 0 then
               r ← act (AReply (ReplyOpen (dir_opened d llfi fi)));
               if (r : Z) =? - ENOENT then _ ← fuse_fs_releasedir (Some (cpath c)) fi; act (AFreeDir d) else skip
             else _ ← reply_err err; act (AFreeDir d));
        free_path (Some c)
    end.
(** [false] when the memory is not there, with the error left in the handle. *)
Definition extend_contents (minsize : Z) (dh : fuse_dh) : io (bool * fuse_dh) :=
  if dh_size dh <? minsize then
    ok ← act AMem;
    if ok : bool then mret (true, set_sizes (default minsize (grown 40 (if dh_size dh =? 0 then 1024 else dh_size dh) minsize)) (dh_needlen dh) dh)
    else mret (false, set_error (- ENOMEM) dh)
  else mret (true, dh).
Definition fuse_add_direntry_to_dh (nm : string) (st : stat) (flags : Z) (dh : fuse_dh) : io (bool * fuse_dh) :=
  ok ← act AMem; if negb (ok : bool) then mret (false, set_error (- ENOMEM) dh) else
  ok ← act AMem; if negb (ok : bool) then mret (false, set_error (- ENOMEM) dh) else
  mret (true, set_first (dh_first dh ++ [{| de_name := nm; de_stat := st; de_flags := flags |}]) dh).
Definition lookup_nodeid (parent : Z) (nm : string) : io Z :=
  n ← act (AFind parent nm); mret (match n : option node with Some n => nodeid n | None => FUSE_UNKNOWN_INO end).
Definition with_ino (ino : Z) (st : stat) : stat := stat_with ino (st_mode st) (st_nlink st) (st_uid st) (st_gid st) st.
(** An entry with its offset goes straight into the reply, if it fits: [add] says how. *)
Definition add_record (add : Z -> Z * list Z) (dh : fuse_dh) : bool * fuse_dh :=
  let '(len, bytes) := add (dh_needlen dh - dh_len dh) in
  if dh_needlen dh <? dh_len dh + len then (false, dh) else (true, set_contents (dh_contents dh ++ bytes) dh).
Definition may_add (dh : fuse_dh) : bool := negb (dh_filled dh) && match dh_first dh with [] => true | _ => false end.
(** The fillers: [true] is to stop. *)
Definition fill_dir (nm : string) (statp : option stat) (off flags : Z) (dh : fuse_dh) : io (bool * fuse_dh) :=
  if negb (Z.land flags (Z.lnot FILL_DIR_PLUS) =? 0) then mret (true, set_error (- EIO) dh)
  else
    let st := match statp with Some st => st | None => with_ino FUSE_UNKNOWN_INO zero_stat end in
    st ← (if cf_use_ino cf then mret st
          else if cf_readdir_ino cf then ino ← lookup_nodeid (dh_nodeid dh) nm; mret (with_ino ino st) else mret (with_ino FUSE_UNKNOWN_INO st));
    if negb (off =? 0) then
      if negb (may_add dh) then mret (true, set_error (- EIO) dh)
      else
        '(ok, dh) ← extend_contents (dh_needlen dh) dh;
        if negb (ok : bool) then mret (true, dh)
        else let '(ok, dh) := add_record (fun rem => fuse_add_direntry (Some tt) rem nm st off) dh in mret (negb ok, dh)
    else '(ok, dh) ← fuse_add_direntry_to_dh nm st flags (set_filled true dh); mret (negb (ok : bool), dh).
Definition is_dot_or_dotdot (nm : string) : bool := is_dot nm || is_dotdot nm.
(** What [fill_dir_plus] puts into the entry before any lookup. *)
Definition plus_stat (nm : string) (statp : option stat) (plus : bool) (dh : fuse_dh) : io stat :=
  match statp with
  | Some st =>
      if plus then mret st
      else
        let st := stat_with (if cf_use_ino cf then st_ino st else FUSE_UNKNOWN_INO) (st_mode st) 0 0 0 zero_stat in
        if negb (cf_use_ino cf) && cf_readdir_ino cf then ino ← lookup_nodeid (dh_nodeid dh) nm; mret (with_ino ino st) else mret st
  | None =>
      if negb (cf_use_ino cf) && cf_readdir_ino cf then ino ← lookup_nodeid (dh_nodeid dh) nm; mret (with_ino ino zero_stat)
      else mret (with_ino FUSE_UNKNOWN_INO zero_stat)
  end.
Definition fill_dir_plus (nm : string) (statp : option stat) (off flags : Z) (dh : fuse_dh) : io (bool * fuse_dh) :=
  if negb (Z.land flags (Z.lnot FILL_DIR_PLUS) =? 0) then mret (true, set_error (- EIO) dh)
  else
    let plus := has_flag flags FILL_DIR_PLUS in
    st ← plus_stat nm statp plus dh;
    let e := with_attr st zero_entry in
    if negb (off =? 0) then
      if negb (may_add dh) then mret (true, set_error (- EIO) dh)
      else
        '(ok, dh) ← extend_contents (dh_needlen dh) dh;
        if negb (ok : bool) then mret (true, dh)
        else
          '(res, e) ← (if (match statp with Some _ => plus | None => false end) && negb (is_dot_or_dotdot nm) then do_lookup (dh_nodeid dh) (Some nm) e else mret (0, e));
          if negb ((res : Z) =? 0) then mret (true, set_error res dh)
          else let '(ok, dh) := add_record (fun rem => fuse_add_direntry_plus (Some tt) rem nm e off) dh in mret (negb ok, dh)
    else '(ok, dh) ← fuse_add_direntry_to_dh nm st flags (set_filled true dh); mret (negb (ok : bool), dh).
Fixpoint run_readdir (filler : string -> option stat -> Z -> Z -> fuse_dh -> io (bool * fuse_dh)) (run : dir_run) (dh : fuse_dh) : io (Z * fuse_dh) :=
  match run with
  | DirDone res => mret (res, dh)
  | DirFill nm statp off flags k => '(stop, dh) ← filler nm statp off flags dh; run_readdir filler (k stop) dh
  end.
Definition readdir_fill (ino size off : Z) (fi : fuse_file_info) (flags : Z) (dh : fuse_dh) : io (Z * fuse_dh) :=
  r ← (if has o_readdir then get_path_nullok ino else r ← get_path ino; mret (match r with inr c => inr (Some c) | inl e => inl e end));
  match r with
  | inl err => mret (err, dh)
  | inr path =>
      let dh := set_filled false (set_sizes (dh_size dh) (u32 size) (set_error 0 (set_contents [] (set_first [] dh)))) in
      run ← fuse_fs_readdir (npath path) off fi flags;
      '(err, dh) ← run_readdir (if has_flag flags READDIR_PLUS then fill_dir_plus else fill_dir) run dh;
      let err := if (err : Z) =? 0 then dh_error dh else err in
      let dh := if err =? 0 then dh else set_filled false dh in
      _ ← free_path path; mret (err, dh)
  end.
Definition list_entry (plus : bool) (de : dir_entry) (pos : Z) (dh : fuse_dh) : io (Z + bool * fuse_dh) :=
  if plus then
    let e := with_attr (de_stat de) zero_entry in
    '(res, e) ← (if has_flag (de_flags de) FILL_DIR_PLUS && negb (is_dot_or_dotdot (de_name de)) then do_lookup (dh_nodeid dh) (Some (de_name de)) e else mret (0, e));
    if negb ((res : Z) =? 0) then mret (inl res)
    else mret (inr (add_record (fun rem => fuse_add_direntry_plus (Some tt) rem (de_name de) e pos) dh))
  else mret (inr (add_record (fun rem => fuse_add_direntry (Some tt) rem (de_name de) (de_stat de) pos) dh)).
(** The entries from position [pos] on, until one does not fit. *)
Fixpoint list_rounds (plus : bool) (l : list dir_entry) (pos : Z) (dh : fuse_dh) : io (Z * fuse_dh) :=
  match l with
  | [] => mret (0, dh)
  | de :: l =>
      r ← list_entry plus de (pos + 1) dh;
      match r with
      | inl res => mret (1, set_error res dh)
      | inr (true, dh) => list_rounds plus l (pos + 1) dh
      | inr (false, dh) => mret (0, dh)
      end
  end.
Definition readdir_fill_from_list (off flags : Z) (dh : fuse_dh) : io (Z * fuse_dh) :=
  '(ok, dh) ← extend_contents (dh_needlen dh) (set_contents [] dh);
  if negb (ok : bool) then mret (dh_error dh, dh)
  else
    let pos := Z.max 0 (Z.min off (lenZ (dh_first dh))) in
    list_rounds (has_flag flags READDIR_PLUS) (drop (Z.to_nat pos) (dh_first dh)) pos dh.
Definition fuse_readdir_common (ino size off : Z) (llfi : fuse_file_info) (flags : Z) : io unit :=
  '(d, fi) ← get_dirhandle llfi; dh ← act (ALockDir d);
  let dh := if off =? 0 then set_filled false dh else dh in
  '(err, dh) ← (if dh_filled dh then mret (0, dh) else readdir_fill ino size off fi flags dh);
  '(err, dh) ← (if ((err : Z) =? 0) && dh_filled dh then readdir_fill_from_list off flags (set_sizes (dh_size dh) (u32 size) dh) else mret (err, dh));
  _ ← (if (err : Z) =? 0 then ignore (act (AReply (ReplyBuf (dh_contents dh)))) else reply_err err);
  act (AUnlockDir d dh).
Definition fuse_lib_readdir (ino size off : Z) (llfi : fuse_file_info) : io unit := fuse_readdir_common ino size off llfi 0.
Definition fuse_lib_readdirplus (ino size off : Z) (llfi : fuse_file_info) : io unit := fuse_readdir_common ino size off llfi READDIR_PLUS.
(** An error of [get_path_nullok] that is not looked at: the path is null. *)
Definition any_path (r : Z + option claim) : option claim := match r with inr c => c | inl _ => None end.
Definition fuse_lib_releasedir (ino : Z) (llfi : fuse_file_info) : io unit :=
  '(d, fi) ← get_dirhandle llfi; r ← get_path_nullok ino;
  _ ← fuse_fs_releasedir (npath (any_path r)) fi; _ ← free_path (any_path r);
  dh ← act (ALockDir d); _ ← act (AUnlockDir d dh); _ ← act (AFreeDir d); reply_err 0.
Definition fuse_lib_fsyncdir (ino datasync : Z) (llfi : fuse_file_info) : io unit :=
  '(_, fi) ← get_dirhandle llfi; r ← on_path_nullok ino (fun path => fuse_fs_fsyncdir path datasync fi); reply_err (err_of r).

Definition fuse_lib_statfs (ino : Z) : io unit :=
  r ← (if ino =? 0 then '(err, buf) ← fuse_fs_statfs "/" zero_statvfs; mret (inr (err, buf))
       else on_path ino (fun path => fuse_fs_statfs path zero_statvfs));
  match r with
  | inr (err, buf) => if (err : Z) =? 0 then ignore (act (AReply (ReplyStatfs buf))) else reply_err err
  | inl err => reply_err err
  end.

(** ** Extended attributes *)

Definition fuse_lib_setxattr (ino : Z) (nm : string) (value : list Z) (size flags : Z) : io unit :=
  r ← on_path ino (fun path => fuse_fs_setxattr path nm value size flags); reply_err (err_of r).
Definition counted (r : Z + Z * list Z) : Z * list Z := match r with inr x => x | inl err => (err, []) end.
Definition common_getxattr (ino : Z) (nm : string) (size : Z) : io (Z * list Z) := r ← on_path ino (fun path => fuse_fs_getxattr path nm size); mret (counted r).
Definition common_listxattr (ino size : Z) : io (Z * list Z) := r ← on_path ino (fun path => fuse_fs_listxattr path size); mret (counted r).
(** The value for a buffer of a size, the size without one. *)
Definition reply_value (size : Z) (common : Z -> io (Z * list Z)) : io unit :=
  if size =? 0 then
    '(res, _) ← common 0; if 0 <=? (res : Z) then ignore (act (AReply (ReplyXattr res))) else reply_err res
  else
    ok ← act AMem;
    if negb (ok : bool) then reply_err (- ENOMEM)
    else '(res, value) ← common size; if 0 <? (res : Z) then ignore (act (AReply (ReplyBuf (take (Z.to_nat res) value)))) else reply_err res.
Definition fuse_lib_getxattr (ino : Z) (nm : string) (size : Z) : io unit := reply_value size (common_getxattr ino nm).
Definition fuse_lib_listxattr (ino size : Z) : io unit := reply_value size (common_listxattr ino).
Definition fuse_lib_removexattr (ino : Z) (nm : string) : io unit := r ← on_path ino (fun path => fuse_fs_removexattr path nm); reply_err (err_of r).

(** ** Locks *)

Definition insert_lock_at (ino : Z) (l : lock) : io Z :=
  spare ← (if whole_unlock l then mret true else ok ← act AMem; ok' ← act AMem; mret ((ok : bool) && (ok' : bool)));
  at_node ino (fun _ n => '(err, ls) ← locks_insert spare (locks n) l; Some (err, set_locks ls n)).
Definition unlock_all : flock := {| l_type := F_UNLCK; l_whence := 0; l_start := 0; l_len := 0; l_pid := 0 |}.
Definition fuse_flush_common (ino : Z) (path : option string) (fi : fuse_file_info) : io Z :=
  err ← fuse_fs_flush path fi; '(errlock, lk) ← fuse_fs_lock path fi F_SETLK unlock_all;
  if (errlock : Z) =? - ENOSYS then mret err
  else _ ← insert_lock_at ino (flock_to_lock lk (fi_lock_owner fi)); mret (if (err : Z) =? - ENOSYS then 0 else err).
Definition fuse_lib_release (ino : Z) (fi : fuse_file_info) : io unit :=
  r ← get_path_nullok ino; let path := any_path r in
  err ← (if fi_flush fi then err ← fuse_flush_common ino (npath path) fi; mret (if (err : Z) =? - ENOSYS then 0 else err) else mret 0);
  _ ← fuse_do_release ino (npath path) fi; _ ← free_path path; reply_err err.
Definition fuse_lib_flush (ino : Z) (fi : fuse_file_info) : io unit :=
  r ← get_path_nullok ino; let path := any_path r in
  err ← fuse_flush_common ino (npath path) fi; _ ← free_path path; reply_err err.
Definition fuse_lock_common (ino : Z) (fi : fuse_file_info) (lk : flock) (cmd : Z) : io (Z * flock) :=
  r ← on_path_nullok ino (fun path => fuse_fs_lock path fi cmd lk); mret (match r with inr x => x | inl err => (err, lk) end).
Definition fuse_lib_getlk (ino : Z) (fi : fuse_file_info) (lk : flock) : io unit :=
  conflict ← at_node ino (fun _ n => Some (locks_conflict (locks n) (flock_to_lock lk (fi_lock_owner fi)), n));
  '(err, lk) ← (match conflict : option lock with Some l => mret (0, lock_to_flock l lk) | None => fuse_lock_common ino fi lk F_GETLK end);
  if (err : Z) =? 0 then ignore (act (AReply (ReplyLock lk))) else reply_err err.
Definition fuse_lib_setlk (ino : Z) (fi : fuse_file_info) (lk : flock) (sleep : bool) : io unit :=
  '(err, lk) ← fuse_lock_common ino fi lk (if sleep then F_SETLKW else F_SETLK);
  _ ← (if (err : Z) =? 0 then ignore (insert_lock_at ino (flock_to_lock lk (fi_lock_owner fi))) else skip); reply_err err.
Definition fuse_lib_flock (ino : Z) (fi : fuse_file_info) (op : Z) : io unit :=
  r ← on_path_nullok ino (fun path => fuse_fs_flock path fi op); reply_err (err_of r).

(** ** The rest *)

Definition fuse_lib_bmap (ino blocksize idx : Z) : io unit :=
  r ← on_path ino (fun path => fuse_fs_bmap path blocksize idx);
  match r with inr (err, idx) => if (err : Z) =? 0 then ignore (act (AReply (ReplyBmap idx))) else reply_err err | inl err => reply_err err end.
(** Memory [malloc] gave is taken to hold zeroes. *)
Definition fuse_lib_ioctl (ino cmd : Z) (llfi : fuse_file_info) (flags : Z) (in_buf : list Z) (in_bufsz out_bufsz : Z) : io unit :=
  if has_flag flags IOCTL_UNRESTRICTED then reply_err (- EPERM)
  else
    fi ← (if has_flag flags IOCTL_DIR then '(_, fi) ← get_dirhandle llfi; mret fi else mret llfi);
    ok ← (if out_bufsz =? 0 then mret true else act AMem);
    if negb (ok : bool) then reply_err (- ENOMEM)
    else
      _ ← act (AAssert ((in_bufsz =? 0) || (out_bufsz =? 0) || (in_bufsz =? out_bufsz)));
      let data := if (out_bufsz =? 0) || negb (in_bufsz =? 0) then in_buf else replicate (Z.to_nat out_bufsz) 0 in
      r ← on_path_nullok ino (fun path => fuse_fs_ioctl path cmd fi flags data);
      match r with
      | inr (err, data) => if (err : Z) <? 0 then reply_err err else ignore (act (AReply (ReplyIoctl err (if out_bufsz =? 0 then [] else data))))
      | inl err => reply_err err
      end.
Definition fuse_lib_poll (ino : Z) (fi : fuse_file_info) (ph : option Z) : io unit :=
  r ← on_path_nullok ino (fun path => fuse_fs_poll path fi ph);
  match r with inr (err, revents) => if (err : Z) =? 0 then ignore (act (AReply (ReplyPoll revents))) else reply_err err | inl err => reply_err err end.
Definition fuse_lib_fallocate (ino mode offset length : Z) (fi : fuse_file_info) : io unit :=
  r ← on_path_nullok ino (fun path => fuse_fs_fallocate path mode offset length fi); reply_err (err_of r).
Definition fuse_lib_copy_file_range (ino_in off_in : Z) (fi_in : fuse_file_info) (ino_out off_out : Z) (fi_out : fuse_file_info) (len flags : Z) : io unit :=
  r ← get_path_nullok ino_in;
  match r with
  | inl err => reply_err err
  | inr path_in =>
      r ← get_path_nullok ino_out;
      match r with
      | inl err => _ ← free_path path_in; reply_err err
      | inr path_out =>
          res ← fuse_fs_copy_file_range (npath path_in) fi_in off_in (npath path_out) fi_out off_out len flags;
          _ ← reply_count res; _ ← free_path path_in; free_path path_out
      end
  end.
Definition fuse_lib_lseek (ino off whence : Z) (fi : fuse_file_info) : io unit :=
  r ← on_path ino (fun path => fuse_fs_lseek path off whence fi);
  match r with inr res => if 0 <=? (res : Z) then ignore (act (AReply (ReplyLseek res))) else reply_err res | inl err => reply_err err end.

(** What the kernel asks for, and the table of the programs. *)
Inductive hl_request :=
| RLookup (parent : Z) (nm : string) | RForget (ino n : Z) | RForgetMulti (forgets : list (Z * Z)) | RGetattr (ino : Z) (fi : option fuse_file_info)
| RSetattr (ino : Z) (attr : stat) (valid : Z) (fi : option fuse_file_info) | RAccess (ino mask : Z) | RReadlink (ino : Z)
| RMknod (parent : Z) (nm : string) (mode rdev : Z) | RMkdir (parent : Z) (nm : string) (mode : Z) | RUnlink (parent : Z) (nm : string)
| RRmdir (parent : Z) (nm : string) | RSymlink (link : string) (parent : Z) (nm : string)
| RRename (olddir : Z) (oldname : string) (newdir : Z) (newname : string) (flags : Z) | RLink (ino newparent : Z) (newname : string)
| RCreate (parent : Z) (nm : string) (mode : Z) (fi : fuse_file_info) | ROpen (ino : Z) (fi : fuse_file_info) | RRead (ino size off : Z) (fi : fuse_file_info)
| RWriteBuf (ino : Z) (buf : fuse_bufvec) (off : Z) (fi : fuse_file_info) | RFlush (ino : Z) (fi : fuse_file_info) | RRelease (ino : Z) (fi : fuse_file_info)
| RFsync (ino datasync : Z) (fi : fuse_file_info) | ROpendir (ino : Z) (fi : fuse_file_info) | RReaddir (ino size off : Z) (fi : fuse_file_info)
| RReaddirplus (ino size off : Z) (fi : fuse_file_info) | RReleasedir (ino : Z) (fi : fuse_file_info) | RFsyncdir (ino datasync : Z) (fi : fuse_file_info)
| RStatfs (ino : Z) | RSetxattr (ino : Z) (nm : string) (value : list Z) (size flags : Z) | RGetxattr (ino : Z) (nm : string) (size : Z)
| RListxattr (ino size : Z) | RRemovexattr (ino : Z) (nm : string) | RGetlk (ino : Z) (fi : fuse_file_info) (lk : flock)
| RSetlk (ino : Z) (fi : fuse_file_info) (lk : flock) (sleep : bool) | RFlock (ino : Z) (fi : fuse_file_info) (op : Z) | RBmap (ino blocksize idx : Z)
| RIoctl (ino cmd : Z) (fi : fuse_file_info) (flags : Z) (in_buf : list Z) (in_bufsz out_bufsz : Z) | RPoll (ino : Z) (fi : fuse_file_info) (ph : option Z)
| RFallocate (ino mode offset length : Z) (fi : fuse_file_info)
| RCopyFileRange (ino_in off_in : Z) (fi_in : fuse_file_info) (ino_out off_out : Z) (fi_out : fuse_file_info) (len flags : Z)
| RLseek (ino off whence : Z) (fi : fuse_file_info) | RStatx (ino flags mask : Z) (fi : option fuse_file_info).
Definition fuse_path_ops (q : hl_request) : io unit :=
  match q with
  | RLookup parent nm => fuse_lib_lookup parent nm
  | RForget ino n => fuse_lib_forget ino n
  | RForgetMulti forgets => fuse_lib_forget_multi forgets
  | RGetattr ino fi => fuse_lib_getattr ino fi
  | RSetattr ino attr valid fi => fuse_lib_setattr ino attr valid fi
  | RAccess ino mask => fuse_lib_access ino mask
  | RReadlink ino => fuse_lib_readlink ino
  | RMknod parent nm mode rdev => fuse_lib_mknod parent nm mode rdev
  | RMkdir parent nm mode => fuse_lib_mkdir parent nm mode
  | RUnlink parent nm => fuse_lib_unlink parent nm
  | RRmdir parent nm => fuse_lib_rmdir parent nm
  | RSymlink link parent nm => fuse_lib_symlink link parent nm
  | RRename olddir oldname newdir newname flags => fuse_lib_rename olddir oldname newdir newname flags
  | RLink ino newparent newname => fuse_lib_link ino newparent newname
  | RCreate parent nm mode fi => fuse_lib_create parent nm mode fi
  | ROpen ino fi => fuse_lib_open ino fi
  | RRead ino size off fi => fuse_lib_read ino size off fi
  | RWriteBuf ino buf off fi => fuse_lib_write_buf ino buf off fi
  | RFlush ino fi => fuse_lib_flush ino fi
  | RRelease ino fi => fuse_lib_release ino fi
  | RFsync ino datasync fi => fuse_lib_fsync ino datasync fi
  | ROpendir ino fi => fuse_lib_opendir ino fi
  | RReaddir ino size off fi => fuse_lib_readdir ino size off fi
  | RReaddirplus ino size off fi => fuse_lib_readdirplus ino size off fi
  | RReleasedir ino fi => fuse_lib_releasedir ino fi
  | RFsyncdir ino datasync fi => fuse_lib_fsyncdir ino datasync fi
  | RStatfs ino => fuse_lib_statfs ino
  | RSetxattr ino nm value size flags => fuse_lib_setxattr ino nm value size flags
  | RGetxattr ino nm size => fuse_lib_getxattr ino nm size
  | RListxattr ino size => fuse_lib_listxattr ino size
  | RRemovexattr ino nm => fuse_lib_removexattr ino nm
  | RGetlk ino fi lk => fuse_lib_getlk ino fi lk
  | RSetlk ino fi lk sleep => fuse_lib_setlk ino fi lk sleep
  | RFlock ino fi op => fuse_lib_flock ino fi op
  | RBmap ino blocksize idx => fuse_lib_bmap ino blocksize idx
  | RIoctl ino cmd fi flags in_buf in_bufsz out_bufsz => fuse_lib_ioctl ino cmd fi flags in_buf in_bufsz out_bufsz
  | RPoll ino fi ph => fuse_lib_poll ino fi ph
  | RFallocate ino mode offset length fi => fuse_lib_fallocate ino mode offset length fi
  | RCopyFileRange ino_in off_in fi_in ino_out off_out fi_out len flags => fuse_lib_copy_file_range ino_in off_in fi_in ino_out off_out fi_out len flags
  | RLseek ino off whence fi => fuse_lib_lseek ino off whence fi
  | RStatx ino flags mask fi => fuse_lib_statx ino flags mask fi
  end.
End Requests.

(** A file changed a whole number of seconds later, at the same size, looks unchanged to the
    cache that [statx] keeps up. *)
Lemma statx_misses_seconds now b b' n : stx_size b = stx_size b' -> tv_nsec (stx_mtime b) = tv_nsec (stx_mtime b') -> update_stat now (statx_stat b) n = update_stat now (statx_stat b') n.
Proof. intros Hs Hm. unfold statx_stat. by rewrite Hs, Hm. Qed.
