(* ===== verification/HlTidy.v ===== *)
(** * lib/fuse.c: what every request keeps to

    [tidy] follows a program over what its thread has: the paths, the paths it read off
    without locking, the lock of a directory handle, and whether the kernel was answered.
    Every request keeps to the rules [pre] for whatever its calls answer, and ends with
    nothing but its answer sent. *)
From S2P Require Import Prelude Errno Sys FuseBuf LlDirent HlLocks HlTable HlNodes HlTree HlNames HlSpace HlPaths HlPathFacts HlPathLocks HlPathCalls HlPathSystem HlRequests.

Record hold := { h_claims : list claim; h_peeked : list string; h_dir : option Z; h_done : bool }.
Definition fresh : hold := {| h_claims := []; h_peeked := []; h_dir := None; h_done := false |}.
Definition finished : hold := {| h_claims := []; h_peeked := []; h_dir := None; h_done := true |}.
#[export] Instance path_ask_eq_dec : EqDecision path_ask.
Proof. solve_decision. Defined.
Fixpoint remove_one (c : claim) (l : list claim) : list claim :=
  match l with [] => [] | x :: l => if decide (x = c) then l else x :: remove_one c l end.
Lemma remove_one_perm c l l' : l' ≡ₚ c :: l -> remove_one c l' ≡ₚ l.
Proof.
  revert l. induction l' as [|x l' IH]; intros l Hl; [by apply Permutation_nil in Hl|]. cbn. destruct (decide (x = c)) as [->|Hne]; [by apply Permutation_cons_inv in Hl|].
  assert (c ∈ l') as Hc. { assert (c ∈ x :: l') as H by (rewrite Hl; by left). apply elem_of_cons in H as [->|?]; done. }
  apply list_elem_of_split in Hc as (l1 & l2 & E). rewrite (IH (l1 ++ l2)) by (rewrite E; by rewrite Permutation_middle).
  rewrite E, <- Permutation_middle, Permutation_swap in Hl. by apply Permutation_cons_inv in Hl.
Qed.
Definition with_claims (l : list claim) (h : hold) : hold := {| h_claims := l; h_peeked := h_peeked h; h_dir := h_dir h; h_done := h_done h |}.
Definition with_peek (p : string) (h : hold) : hold := {| h_claims := h_claims h; h_peeked := p :: h_peeked h; h_dir := h_dir h; h_done := h_done h |}.
Definition without (l : list claim) (h : hold) : hold := {| h_claims := foldr remove_one (h_claims h) l; h_peeked := []; h_dir := h_dir h; h_done := h_done h |}.
Definition with_dir (d : option Z) (h : hold) : hold := {| h_claims := h_claims h; h_peeked := h_peeked h; h_dir := d; h_done := h_done h |}.
Definition answered_now (h : hold) : hold := {| h_claims := h_claims h; h_peeked := h_peeked h; h_dir := h_dir h; h_done := true |}.

(** The paths an operation is called with. *)
Definition opt_path (p : option string) : list string := match p with Some p => [p] | None => [] end.
Definition paths_of (c : fs_call) : list string :=
  match c with
  | FGetattr p _ | FChmod p _ _ | FChown p _ _ _ | FTruncate p _ _ | FUtimens p _ _ _ | FRead p _ _ _ | FReadBuf p _ _ _ | FWrite p _ _ _ _
  | FWriteBuf p _ _ _ | FFlush p _ | FRelease p _ | FFsync p _ _ | FReaddir p _ _ _ | FReleasedir p _ | FFsyncdir p _ _ | FLock p _ _ _
  | FFlock p _ _ | FIoctl p _ _ _ _ | FPoll p _ _ | FFallocate p _ _ _ _ | FStatx p _ _ _ => opt_path p
  | FReadlink p _ | FMknod p _ _ | FMkdir p _ | FUnlink p | FRmdir p | FSymlink _ p | FOpen p _ | FStatfs p | FSetxattr p _ _ _ _ | FGetxattr p _ _
  | FListxattr p _ | FRemovexattr p _ | FOpendir p _ | FAccess p _ | FCreate p _ _ | FBmap p _ _ | FLseek p _ _ _ => [p]
  | FRename p q _ | FLink p q => [p; q]
  | FCopyFileRange p _ _ q _ _ _ _ => opt_path p ++ opt_path q
  end.
Definition usable (h : hold) (p : string) : Prop := p = "/"%string \/ p ∈ cpath <$> h_claims h \/ p ∈ h_peeked h.
(** A directory on a path the thread has. *)
Definition in_claimed (h : hold) (d : Z) : Prop := exists c, c ∈ h_claims h /\ ask_ino c.1 = d.
(** A change of a node that leaves its place, its counts and its lock. *)
Definition light (n n' : node) : Prop :=
  nodeid n' = nodeid n /\ parent n' = parent n /\ name n' = name n /\ refctr n' = refctr n /\ nlookup n' = nlookup n /\ treelock n' = treelock n.
(** Names are changed in directories whose path the thread has; looking one up needs none. *)
Definition names_held (h : hold) (op : name_op) : Prop :=
  match op with
  | Lookup _ _ => True
  | Forget _ _ => False
  | Remove d _ => in_claimed h d
  | Rename d _ d' _ _ | Exchange d _ d' _ => in_claimed h d /\ in_claimed h d'
  end.
(** The rules; [strict] is not to ask for a path while holding one. *)
Definition pre (strict : bool) (h : hold) (a : action) : Prop :=
  match a with
  | AGet _ | AGet2 _ _ => strict = true -> h_claims h = []
  | AFree c => c ∈ h_claims h
  | AFree2 c d => h_claims h = [c; d]
  | APeek a => ask_write a = false /\ h_claims h <> []
  | ANames op => names_held h op
  | ANode _ _ f => forall now n x n', f now n = Some (x, n') -> light n n'
  | ADeref p => exists c, c ∈ h_claims h /\ cwnode c = p
  | AHidden d _ => in_claimed h d
  | ADot _ | ADotDot _ | AUndot _ => False
  | AOp c => Forall (usable h) (paths_of c)
  | AReply _ => h_done h = false
  | AAssert b => b = true
  | ALockDir _ => h_dir h = None /\ h_claims h = []
  | AUnlockDir d _ => h_dir h = Some d
  | AFreeDir d => h_dir h = None
  | _ => True
  end.
Definition post (h : hold) (a : action) : result a -> hold :=
  match a with
  | AGet _ => fun r => match r with inr c => with_claims (c :: h_claims h) h | inl _ => h end
  | AGet2 _ _ => fun r => match r with inr (c, d) => with_claims (c :: d :: h_claims h) h | inl _ => h end
  | AFree c => fun _ => without [c] h
  | AFree2 c d => fun _ => without [d; c] h
  | APeek _ => fun r => match r with inr p => with_peek p h | inl _ => h end
  | AHidden _ _ => fun r => match r with Some (_, inr p) => with_peek p h | _ => h end
  | AReply _ => fun _ => answered_now h
  | ALockDir d => fun _ => with_dir (Some d) h
  | AUnlockDir _ _ => fun _ => with_dir None h
  | _ => fun _ => h
  end.
(** A path that is given is the one that was asked for. *)
Definition fits (a : action) : result a -> Prop :=
  match a with
  | AGet a => fun r => forall c, r = inr c -> c.1 = a
  | AGet2 a b => fun r => forall c d, r = inr (c, d) -> c.1 = a /\ d.1 = b
  | _ => fun _ => True
  end.
Fixpoint tidy (strict : bool) {A} (m : io A) (Q : A -> hold -> Prop) (h : hold) : Prop :=
  match m with
  | Ret x => Q x h
  | Act a k => pre strict h a /\ forall r, fits a r -> tidy strict (k r) Q (post h a r)
  end.

Section Tidy.
Variable strict : bool.
Notation tidy := (tidy strict).

Lemma tidy_mono {A} (m : io A) (Q Q' : A -> hold -> Prop) h : tidy m Q h -> (forall x h, Q x h -> Q' x h) -> tidy m Q' h.
Proof. revert h. induction m as [x|a k IH]; intros h; cbn; [auto|]. intros [Hp Hk] HQ. split; [done|]. intros r Hr. apply IH; auto. Qed.
Lemma tidy_bind {A B} (m : io A) (f : A -> io B) (Q : B -> hold -> Prop) h : tidy m (fun x h' => tidy (f x) Q h') h -> tidy (m ≫= f) Q h.
Proof. revert h. induction m as [x|a k IH]; intros h; cbn; [done|]. intros [Hp Hk]. split; [done|]. intros r Hr. by apply IH, Hk. Qed.
Lemma tidy_act a (Q : result a -> hold -> Prop) h : pre strict h a -> (forall r, fits a r -> Q r (post h a r)) -> tidy (act a) Q h.
Proof. by split. Qed.
Lemma tidy_ret {A} (x : A) (Q : A -> hold -> Prop) h : Q x h -> tidy (mret x) Q h.
Proof. done. Qed.

(** ** Programs that leave what the thread has *)

Definition same {A} (m : io A) (h : hold) : Prop := tidy m (fun _ h' => h' = h) h.
Lemma tidy_same {A} (m : io A) (Q : A -> hold -> Prop) h : same m h -> (forall x, Q x h) -> tidy m Q h.
Proof. intros Hm HQ. eapply tidy_mono; [exact Hm|]. by intros x h' ->. Qed.
Lemma same_act a h : pre strict h a -> (forall r, post h a r = h) -> same (act a) h.
Proof. intros Hp He. apply tidy_act; auto. Qed.
Lemma usable_claim c h : c ∈ h_claims h -> usable h (cpath c).
Proof. intros Hc. right. left. by apply list_elem_of_fmap_2. Qed.

Variable cf : hl_config.
Variable has : fs_op -> bool.
Lemma fs_same c d h : Forall (usable h) (paths_of c) -> same (fs has c d) h.
Proof. intros Hu. unfold fs. destruct (has (op_of c)); [by apply same_act|done]. Qed.
Lemma light_refl n : light n n.
Proof. done. Qed.
Lemma at_node_same {X} ino (f : timespec -> node -> option (X * node)) h : (forall now n x n', f now n = Some (x, n') -> light n n') -> same (at_node ino f) h.
Proof. intros Hf. by apply same_act. Qed.
Lemma look_same {X} ino (f : timespec -> node -> X) h : same (at_node ino (fun now n => Some (f now n, n))) h.
Proof. apply at_node_same. by intros now n x n' [= _ <-]. Qed.
Lemma touch_same {X} ino (f : timespec -> node -> X) (g : timespec -> node -> node) h : (forall now n, light n (g now n)) -> same (at_node ino (fun now n => Some (f now n, g now n))) h.
Proof. intros Hg. apply at_node_same. by intros now n x n' [= _ <-]. Qed.

End Tidy.
(** A call of an operation with paths the thread may use. *)
Ltac fs_call :=
  unfold fuse_fs_getattr, fuse_fs_rename, fuse_fs_unlink, fuse_fs_rmdir, fuse_fs_symlink, fuse_fs_link, fuse_fs_release, fuse_fs_opendir, fuse_fs_open, fuse_fs_fsync, fuse_fs_fsyncdir, fuse_fs_flush, fuse_fs_statfs, fuse_fs_releasedir, fuse_fs_readdir, fuse_fs_create, fuse_fs_lock, fuse_fs_flock, fuse_fs_chown, fuse_fs_chmod, fuse_fs_truncate, fuse_fs_utimens, fuse_fs_access, fuse_fs_readlink, fuse_fs_mknod, fuse_fs_mkdir, fuse_fs_setxattr, fuse_fs_getxattr, fuse_fs_listxattr, fuse_fs_removexattr, fuse_fs_bmap, fuse_fs_ioctl, fuse_fs_poll, fuse_fs_fallocate, fuse_fs_copy_file_range, fuse_fs_lseek, fuse_fs_statx;
  match goal with |- same _ (fs _ ?c ?d) ?h => refine (fs_same _ _ c d h _) end;
  cbn [paths_of opt_path app npath fmap option_fmap option_map]; rewrite ?Forall_cons, ?Forall_nil; split_and?; auto using usable_claim.

Section Routines.
Variable strict : bool.
Notation tidy := (tidy strict).
Notation same := (same strict).
Variable cf : hl_config.
Variable has : fs_op -> bool.
Lemma do_lookup_same ino nm e h : same (do_lookup cf ino nm e) h.
Proof.
  unfold do_lookup, same. apply tidy_bind. apply tidy_act; [done|]. intros id _. cbn [post]. destruct (_ =? 0); [done|].
  apply tidy_bind, tidy_same; [apply look_same|]. intros gen. apply tidy_bind. destruct (cf_auto_cache cf); [|done].
  apply tidy_same; [|done]. by apply touch_same.
Qed.
Lemma lookup_path_same ino nm path fi h : usable h path -> same (lookup_path cf has ino nm path fi) h.
Proof.
  intros Hu. unfold lookup_path. apply tidy_bind, tidy_same; [by fs_call|]. intros [res buf]. destruct (_ =? 0); [apply do_lookup_same|done].
Qed.
Lemma is_open_same dir nm h : same (is_open dir nm) h.
Proof. unfold is_open. by split. Qed.
Lemma and_lookup_same err parent nm path fi h : usable h path -> same (and_lookup cf has err parent nm path fi) h.
Proof. intros Hu. unfold and_lookup. destruct (err =? 0); [by apply lookup_path_same|done]. Qed.
Lemma remove_if_same err dir nm h : in_claimed h dir -> same (remove_if err dir nm) h.
Proof. intros Hd. unfold remove_if. destruct (err =? 0); [|done]. apply tidy_bind. by apply tidy_act. Qed.
Lemma set_step_same err valid flags change h : same change h -> same (set_step err valid flags change) h.
Proof. intros Hc. unfold set_step. by destruct (_ && _). Qed.
(** Answers. *)
Definition unanswered (h : hold) : Prop := h_done h = false.
Lemma tidy_reply r (Q : Z -> hold -> Prop) h : unanswered h -> (forall x, Q x (answered_now h)) -> tidy (act (AReply r)) Q h.
Proof. intros Hu HQ. apply tidy_act; [done|]. intros x _. apply HQ. Qed.
Lemma tidy_replied r (Q : unit -> hold -> Prop) h : unanswered h -> Q tt (answered_now h) -> tidy (ignore (act (AReply r))) Q h.
Proof. intros Hu HQ. by apply tidy_bind, tidy_reply. Qed.
Lemma tidy_reply_err err (Q : unit -> hold -> Prop) h : unanswered h -> Q tt (answered_now h) -> tidy (reply_err err) Q h.
Proof. apply tidy_replied. Qed.
Lemma tidy_reply_entry e err (Q : unit -> hold -> Prop) h : unanswered h -> Q tt (answered_now h) -> tidy (reply_entry e err) Q h.
Proof.
  intros Hu HQ. unfold reply_entry. destruct (err =? 0); [|by apply tidy_reply_err]. apply tidy_bind, tidy_reply; [done|]. intros r.
  destruct (_ =? _); [|done]. destruct (negb _); [|done]. apply tidy_act; [done|]. by intros [] _.
Qed.

(** ** The usual frame *)

Definition empty_handed (h : hold) : Prop := h_claims h = [] /\ h_peeked h = [].
Definition claims_opt (c : option claim) : list claim := match c with Some c => [c] | None => [] end.
Lemma back_again c h : empty_handed h -> without [c] (with_claims [c] h) = h.
Proof. destruct h as [cl ps d b]. intros [E1 E2]. cbn in *. subst. unfold without. cbn. by rewrite decide_True. Qed.
Lemma tidy_get a (Q : Z + claim -> hold -> Prop) h : empty_handed h -> (forall e, Q (inl e) h) -> (forall c, c.1 = a -> Q (inr c) (with_claims [c] h)) -> tidy (act (AGet a)) Q h.
Proof.
  intros [E1 _] He Hc. apply tidy_act; [by intros _|]. intros [e|c] Hf; [apply He|]. cbn [post]. rewrite E1. apply Hc. by apply Hf.
Qed.
Lemma tidy_free c (Q : unit -> hold -> Prop) h : empty_handed h -> Q tt h -> tidy (free_path (Some c)) Q (with_claims [c] h).
Proof. intros Hh HQ. apply tidy_act; [by left|]. intros [] _. cbn [post]. by rewrite back_again. Qed.
Lemma on_claim_same {A} a (body : string -> io A) h : empty_handed h -> (forall c, c.1 = a -> same (body (cpath c)) (with_claims [c] h)) -> same (on_claim (act (AGet a)) body) h.
Proof.
  intros Hh Hb. unfold on_claim. apply tidy_bind, tidy_get; [done|done|]. intros c Hc. apply tidy_bind, tidy_same; [by apply Hb|]. intros x.
  by apply tidy_bind, tidy_free.
Qed.
Lemma tidy_nullok ino (Q : Z + option claim -> hold -> Prop) h : empty_handed h -> (forall e, Q (inl e) h) ->
  (forall c, Q (inr c) (with_claims (claims_opt c) h)) -> tidy (get_path_nullok cf ino) Q h.
Proof.
  intros Hh He Hc. assert (with_claims [] h = h) as E by (destruct Hh as [E _], h; cbn in *; by subst). unfold get_path_nullok. destruct (cf_nullpath_ok cf).
  - apply tidy_ret. specialize (Hc None). cbn [claims_opt] in Hc. by rewrite E in Hc.
  - apply tidy_bind, tidy_get; [done| |intros c _; apply tidy_ret, (Hc (Some c))]. intros e. apply tidy_ret. destruct (_ =? _); [|done].
    specialize (Hc None). cbn [claims_opt] in Hc. by rewrite E in Hc.
Qed.
Lemma tidy_free_opt c (Q : unit -> hold -> Prop) h : empty_handed h -> Q tt h -> tidy (free_path c) Q (with_claims (claims_opt c) h).
Proof.
  intros Hh HQ. destruct c as [c|]; [by apply tidy_free|]. apply tidy_ret. destruct Hh as [E _], h; cbn in *. by subst.
Qed.
Lemma on_path_nullok_same {A} ino (body : option string -> io A) h : empty_handed h -> (forall c, same (body (npath c)) (with_claims (claims_opt c) h)) ->
  same (on_path_nullok cf ino body) h.
Proof.
  intros Hh Hb. unfold on_path_nullok. apply tidy_bind, tidy_nullok; [done|done|]. intros c. apply tidy_bind, tidy_same; [apply Hb|]. intros x.
  by apply tidy_bind, tidy_free_opt.
Qed.
Lemma usable_opt c h p : p ∈ opt_path (npath c) -> usable (with_claims (claims_opt c) h) p.
Proof. destruct c as [c|]; [|by intros ?%not_elem_of_nil]. intros ->%list_elem_of_singleton. apply usable_claim. left. Qed.
Lemma usables_opt c h : Forall (usable (with_claims (claims_opt c) h)) (opt_path (npath c)).
Proof. apply Forall_forall. intros p. apply usable_opt. Qed.
Lemma tidy_get_fi ino fi (Q : Z + option claim -> hold -> Prop) h : empty_handed h -> (forall e, Q (inl e) h) ->
  (forall c, Q (inr c) (with_claims (claims_opt c) h)) -> tidy (get_path_fi cf ino fi) Q h.
Proof.
  intros Hh He Hc. unfold get_path_fi. destruct fi; [by apply tidy_nullok|]. apply tidy_bind, tidy_get; [done|done|]. intros c _. apply tidy_ret, (Hc (Some c)).
Qed.
End Routines.

(** ** The requests *)

Definition well_formed (q : hl_request) : Prop :=
  match q with
  | RLookup _ nm => is_dot_or_dotdot nm = false
  | RWriteBuf _ buf _ _ => (bv_idx buf =? 0) && (bv_off buf =? 0) = true
  | RIoctl _ _ _ _ _ in_bufsz out_bufsz => (in_bufsz =? 0) || (out_bufsz =? 0) || (in_bufsz =? out_bufsz) = true
  | _ => True
  end.
Lemma fresh_empty : empty_handed fresh.
Proof. done. Qed.
#[export] Hint Resolve fresh_empty : core.

Section Handlers.
Variable strict : bool.
Variable cf : hl_config.
Variable has : fs_op -> bool.
Notation tidy := (tidy strict).
Notation same := (same strict).
Notation ends m := (tidy m (fun _ h => h = finished) fresh).

(** Answering at the end. *)
Lemma ends_err err : ends (reply_err err).
Proof. by apply tidy_reply_err. Qed.
Lemma ends_entry e err : ends (reply_entry e err).
Proof. by apply tidy_reply_entry. Qed.
Lemma ends_reply r : ends (ignore (act (AReply r))).
Proof. by apply tidy_replied. Qed.
#[local] Hint Resolve ends_err ends_entry ends_reply : core.
Lemma ends_after {A} (m : io A) (f : A -> io unit) : same m fresh -> (forall x, ends (f x)) -> ends (m ≫= f).
Proof. intros Hm Hf. by apply tidy_bind, tidy_same. Qed.
Lemma on_path_fresh {A} ino (body : string -> io A) : (forall c, same (body (cpath c)) (with_claims [c] fresh)) -> same (on_path ino body) fresh.
Proof. intros Hb. by apply on_claim_same. Qed.
Lemma on_name_fresh {A} ino nm (body : string -> io A) : (forall c, same (body (cpath c)) (with_claims [c] fresh)) -> same (on_claim (get_path_name ino nm) body) fresh.
Proof. intros Hb. by apply on_claim_same. Qed.
Lemma on_nullok_fresh {A} ino (body : option string -> io A) : (forall c, same (body (npath c)) (with_claims (claims_opt c) fresh)) -> same (on_path_nullok cf ino body) fresh.
Proof. intros Hb. by apply on_path_nullok_same. Qed.
Lemma usable_one c h : usable (with_claims [c] h) (cpath c).
Proof. apply usable_claim. left. Qed.
#[local] Hint Resolve usable_one usables_opt : core.
(** An operation on a path, and the answer. *)

Lemma tidy_access ino mask : ends (fuse_lib_access has ino mask).
Proof. apply ends_after; [apply on_path_fresh; intros c; by fs_call|auto]. Qed.
Lemma tidy_readlink ino : ends (fuse_lib_readlink has ino).
Proof. apply ends_after; [apply on_path_fresh; intros c; by fs_call|]. intros [err|[err link]]; [auto|]. destruct (err =? 0); auto. Qed.
Lemma tidy_fsync ino datasync fi : ends (fuse_lib_fsync cf has ino datasync fi).
Proof. apply ends_after; [apply on_nullok_fresh; intros c; fs_call; auto|auto]. Qed.

Lemma tidy_statfs ino : ends (fuse_lib_statfs has ino).
Proof.
  unfold fuse_lib_statfs. apply ends_after; [|intros [err|[err buf]]; [auto|destruct (err =? 0); auto]]. destruct (ino =? 0).
  - apply tidy_bind, tidy_same; [fs_call; by left|by intros [err buf]].
  - apply on_path_fresh. intros c. by fs_call.
Qed.
Lemma tidy_setxattr ino nm value size flags : ends (fuse_lib_setxattr has ino nm value size flags).
Proof. apply ends_after; [apply on_path_fresh; intros c; by fs_call|auto]. Qed.
Lemma tidy_removexattr ino nm : ends (fuse_lib_removexattr has ino nm).
Proof. apply ends_after; [apply on_path_fresh; intros c; by fs_call|auto]. Qed.
Lemma tidy_value size common : (forall n, same (common n) fresh) -> ends (reply_value size common).
Proof.
  intros Hc. unfold reply_value. destruct (size =? 0).
  - apply ends_after; [done|]. intros [res v]. destruct (0 <=? res); auto.
  - apply tidy_bind, tidy_act; [done|]. intros [] _; cbn [negb post]; [|auto]. apply ends_after; [done|]. intros [res v]. destruct (0 <? res); auto.
Qed.
Lemma tidy_getxattr ino nm size : ends (fuse_lib_getxattr has ino nm size).
Proof. apply tidy_value. intros n. apply tidy_bind, tidy_same; [apply on_path_fresh; intros c; by fs_call|done]. Qed.
Lemma tidy_listxattr ino size : ends (fuse_lib_listxattr has ino size).
Proof. apply tidy_value. intros n. apply tidy_bind, tidy_same; [apply on_path_fresh; intros c; by fs_call|done]. Qed.
Lemma tidy_flock ino fi op : ends (fuse_lib_flock cf has ino fi op).
Proof. apply ends_after; [apply on_nullok_fresh; intros c; fs_call; auto|auto]. Qed.
Lemma tidy_fallocate ino mode offset length fi : ends (fuse_lib_fallocate cf has ino mode offset length fi).
Proof. apply ends_after; [apply on_nullok_fresh; intros c; fs_call; auto|auto]. Qed.
Lemma tidy_bmap ino blocksize idx : ends (fuse_lib_bmap has ino blocksize idx).
Proof. apply ends_after; [apply on_path_fresh; intros c; by fs_call|]. intros [err|[err i]]; [auto|destruct (err =? 0); auto]. Qed.
Lemma tidy_poll ino fi ph : ends (fuse_lib_poll cf has ino fi ph).
Proof. apply ends_after; [apply on_nullok_fresh; intros c; fs_call; auto|]. intros [err|[err i]]; [auto|destruct (err =? 0); auto]. Qed.
Lemma tidy_lseek ino off whence fi : ends (fuse_lib_lseek has ino off whence fi).
Proof. apply ends_after; [apply on_path_fresh; intros c; by fs_call|]. intros [err|res]; [auto|destruct (0 <=? res); auto]. Qed.
Lemma tidy_ioctl ino cmd llfi flags in_buf in_bufsz out_bufsz : well_formed (RIoctl ino cmd llfi flags in_buf in_bufsz out_bufsz) ->
  ends (fuse_lib_ioctl cf has ino cmd llfi flags in_buf in_bufsz out_bufsz).
Proof.
  intros Hw. unfold fuse_lib_ioctl. destruct (has_flag flags IOCTL_UNRESTRICTED); [auto|]. apply ends_after.
  { destruct (has_flag flags IOCTL_DIR); [|done]. apply tidy_bind, tidy_bind, tidy_act; [done|]. by intros dh _. }
  intros fi. apply ends_after; [by destruct (out_bufsz =? 0)|]. intros [|]; cbn [negb]; [|auto]. apply ends_after; [by apply same_act|]. intros [].
  apply ends_after; [apply on_nullok_fresh; intros c; fs_call; auto|]. intros [err|[err d]]; [auto|destruct (err <? 0); auto].
Qed.
Lemma read_buf_same path size off fi h : Forall (usable h) (opt_path path) -> same (fuse_fs_read_buf has path size off fi) h.
Proof.
  intros Hu. unfold fuse_fs_read_buf. destruct (_ && _); [done|]. destruct (has o_read_buf).
  - apply tidy_bind, tidy_act; [done|]. by intros [res buf] _.
  - apply tidy_bind, tidy_act; [done|]. intros [] _; cbn [negb]; [|done]. apply tidy_bind, tidy_act; [done|]. intros [] _; cbn [negb]; [|done].
    apply tidy_bind, tidy_act; [done|]. by intros [res buf] _.
Qed.
Lemma flattened_same path buf off fi h : Forall (usable h) (opt_path path) -> same (flattened path buf off fi) h.
Proof.
  intros Hu. unfold flattened. apply tidy_bind, tidy_act; [done|]. intros [] _; cbn [negb]; [|done]. apply tidy_bind, tidy_act; [done|].
  intros [res bytes] _. destruct (res <=? 0); [done|]. by apply same_act.
Qed.
Lemma write_buf_same path buf off fi h : (bv_idx buf =? 0) && (bv_off buf =? 0) = true -> Forall (usable h) (opt_path path) -> same (fuse_fs_write_buf has path buf off fi) h.
Proof.
  intros Hw Hu. unfold fuse_fs_write_buf. destruct (negb _ && _); [done|]. apply tidy_bind, tidy_act; [done|]. intros [] _. cbn [post].
  destruct (has o_write_buf); [by apply same_act|]. pose proof (flattened_same path buf off fi h Hu) as Hf. destruct (bv_buf buf) as [|b [|b' l]]; try done.
  destruct (negb _); [by apply same_act|done].
Qed.
Lemma tidy_read ino size off fi : ends (fuse_lib_read cf has ino size off fi).
Proof.
  apply ends_after; [apply on_nullok_fresh; intros c; by apply read_buf_same|]. intros [err|[res buf]]; cbv beta iota; [destruct (err =? 0)|destruct (res =? 0)]; auto.
Qed.
Lemma ends_count res : ends (reply_count res).
Proof. unfold reply_count. destruct (0 <=? res); auto. Qed.
#[local] Hint Resolve ends_count : core.
Lemma tidy_write_buf ino buf off fi : well_formed (RWriteBuf ino buf off fi) -> ends (fuse_lib_write_buf cf has ino buf off fi).
Proof. intros Hw. apply ends_after; [apply on_nullok_fresh; intros c; by apply write_buf_same|auto]. Qed.

(** *** Attributes and names *)

Lemma tidy_getattr ino fi : ends (fuse_lib_getattr cf has ino fi).
Proof.
  apply tidy_bind, tidy_get_fi; [done|auto|]. intros c. apply tidy_bind, tidy_same; [fs_call; auto|]. intros [err buf]. apply tidy_bind, tidy_free_opt; [done|].
  destruct (err =? 0); [|auto]. apply tidy_bind, tidy_same; [|auto]. apply touch_same. intros now n. unfold cached. by destruct (cf_auto_cache cf).
Qed.
Lemma tidy_statx ino flags mask fi : ends (fuse_lib_statx cf has ino flags mask fi).
Proof.
  apply tidy_bind, tidy_get_fi; [done|auto|]. intros c. cbv zeta. apply tidy_bind, tidy_same; [fs_call; auto|]. intros [err buf]. apply tidy_bind, tidy_free_opt; [done|].
  destruct (err =? 0); [|auto]. apply tidy_bind, tidy_same; [|auto]. apply touch_same. intros now n. unfold cached. by destruct (cf_auto_cache cf).
Qed.
Lemma tidy_setattr ino attr valid fi : ends (fuse_lib_setattr cf has ino attr valid fi).
Proof.
  apply tidy_bind, tidy_get_fi; [done|auto|]. intros c. do 4 (apply tidy_bind, tidy_same; [apply set_step_same; fs_call; auto|intros ?]).
  apply tidy_bind, tidy_same; [case_match; [fs_call; auto|done]|]. intros [err buf]. apply tidy_bind, tidy_free_opt; [done|].
  destruct (err =? 0); [|auto]. apply tidy_bind, tidy_same; [|auto]. destruct (cf_auto_cache cf); [|done]. by apply touch_same.
Qed.
Lemma lookup_at_same parent nm : same (lookup_at cf has parent nm) fresh.
Proof.
  apply tidy_bind, tidy_get; [done|done|]. intros c _. apply tidy_bind, tidy_same; [apply lookup_path_same, usable_one|]. intros [err e]. by apply tidy_bind, tidy_free.
Qed.
Lemma tidy_lookup parent nm : well_formed (RLookup parent nm) -> ends (fuse_lib_lookup cf has parent nm).
Proof.
  intros [H1 H2]%orb_false_iff. unfold fuse_lib_lookup. rewrite H1, H2. apply ends_after; [apply lookup_at_same|]. intros [err e]. auto.
Qed.
Lemma ends_none : ends (ignore (act (AReply ReplyNone))).
Proof. auto. Qed.
Lemma tidy_forget ino n : ends (fuse_lib_forget ino n).
Proof. apply ends_after; [by apply same_act|auto]. Qed.
Lemma tidy_forget_multi l : ends (fuse_lib_forget_multi l).
Proof.
  apply ends_after; [|auto]. induction l as [|[ino n] l IH]; [done|]. cbn [forget_all]. apply tidy_bind, tidy_same; [by apply same_act|]. done.
Qed.
Lemma ends_made r : ends (reply_made r).
Proof. destruct r as [err|[err e]]; apply ends_entry. Qed.
#[local] Hint Resolve ends_made : core.
Lemma tidy_mkdir parent nm mode : ends (fuse_lib_mkdir cf has parent nm mode).
Proof. apply ends_after; [apply on_name_fresh; intros c; apply tidy_bind, tidy_same; [by fs_call|intros err; apply and_lookup_same, usable_one]|auto]. Qed.
Lemma tidy_symlink link parent nm : ends (fuse_lib_symlink cf has link parent nm).
Proof. apply ends_after; [apply on_name_fresh; intros c; apply tidy_bind, tidy_same; [by fs_call|intros err; apply and_lookup_same, usable_one]|auto]. Qed.
Lemma tidy_mknod parent nm mode rdev : ends (fuse_lib_mknod cf has parent nm mode rdev).
Proof.
  apply ends_after; [|auto]. apply on_name_fresh. intros c. apply tidy_bind, tidy_same.
  - destruct (is_reg mode); [|done]. apply tidy_bind, tidy_same; [by fs_call|]. intros [err fi]. destruct (err =? 0); [|done].
    apply tidy_bind, tidy_same; [apply lookup_path_same, usable_one|]. intros r. apply tidy_bind, tidy_same; [by fs_call|done].
  - intros [err e]. destruct (err =? - ENOSYS); [|done]. apply tidy_bind, tidy_same; [by fs_call|]. intros err'. apply and_lookup_same, usable_one.
Qed.

(** *** Removing and moving names *)

(** Only paths were read off. *)
Definition peeks (h h' : hold) : Prop :=
  h_claims h' = h_claims h /\ h_dir h' = h_dir h /\ h_done h' = h_done h /\ forall p, p ∈ h_peeked h -> p ∈ h_peeked h'.
Lemma peeks_refl h : peeks h h.
Proof. by split_and!. Qed.
Lemma peeks_trans a b c : peeks a b -> peeks b c -> peeks a c.
Proof. intros (A1 & A2 & A3 & A4) (B1 & B2 & B3 & B4). split_and!; try congruence. auto. Qed.
Lemma peeks_with p h : peeks h (with_peek p h).
Proof. split_and!; try done. by right. Qed.
Lemma peeks_in h h' d : peeks h h' -> in_claimed h d -> in_claimed h' d.
Proof. intros [E _] (c & Hc & Hd). exists c. by rewrite E. Qed.
Lemma peeks_usable h h' p : peeks h h' -> usable h p -> usable h' p.
Proof. intros (E & _ & _ & Hp) [?|[?|?]]; [by left|right; left; by rewrite E|right; right; auto]. Qed.
#[local] Hint Resolve peeks_refl peeks_with : core.
Lemma tidy_hidden k dir nm h : in_claimed h dir ->
  tidy (hidden_rounds has k dir nm) (fun r h' => peeks h h' /\ match r with Some (_, p) => p ∈ h_peeked h' | None => True end) h.
Proof.
  revert h. induction k as [|k IH]; intros h Hd; [by apply tidy_ret|]. cbn [hidden_rounds]. apply tidy_bind, tidy_act; [done|].
  intros [[nn [e|p]]|] _; cbn [post]; [by apply tidy_ret| |by apply tidy_ret]. apply tidy_bind, tidy_same; [fs_call; right; right; by left|].
  intros [res st]. destruct (res =? - ENOENT); [apply tidy_ret; split; [done|by left]|]. destruct (res =? 0); [|by apply tidy_ret].
  eapply tidy_mono; [by apply IH|]. intros r h' [H1 H2]. split; [by eapply peeks_trans|done].
Qed.
Lemma tidy_hide path dir nm h : in_claimed h dir -> usable h path -> tidy (hide_node has path dir nm) (fun _ h' => peeks h h') h.
Proof.
  intros Hd Hu. apply tidy_bind. eapply tidy_mono; [by apply tidy_hidden|]. intros [[nn p]|] h' [Hp Hin]; [|by apply tidy_ret].
  apply tidy_bind, tidy_same; [fs_call; [by apply (peeks_usable h)|right; by right]|].
  intros err. destruct (err =? 0); [|by apply tidy_ret]. apply tidy_act; [split; by apply (peeks_in h)|done].
Qed.
Lemma freed h h' l : peeks h h' -> foldr remove_one (h_claims h) l = [] -> h_dir h = None -> h_done h = false -> without l h' = fresh.
Proof. intros (E1 & E2 & E3 & _) E Ed Eb. unfold without, fresh. by rewrite E1, E, E2, E3, Ed, Eb. Qed.
Lemma tidy_get_one a (Q : Z + claim -> hold -> Prop) : (forall e, Q (inl e) fresh) -> (forall c, c.1 = a -> Q (inr c) (with_claims [c] fresh)) -> tidy (act (AGet a)) Q fresh.
Proof. by apply tidy_get. Qed.
Lemma tidy_free_one c h (f : unit -> io unit) : peeks (with_claims [c] fresh) h -> ends (f tt) -> tidy (free_path (Some c) ≫= f) (fun _ h => h = finished) h.
Proof.
  intros Hp He. apply tidy_bind, tidy_act; [destruct Hp as [E _]; cbn; rewrite E; by left|]. intros [] _. cbn [post].
  rewrite (freed _ h [c] Hp); [done| |done|done]. cbn. by rewrite decide_True.
Qed.
Lemma tidy_rmdir parent nm : ends (fuse_lib_rmdir has parent nm).
Proof.
  apply tidy_bind, tidy_get_one; [auto|]. intros c Hc. apply tidy_bind, tidy_same; [by fs_call|]. intros err.
  apply tidy_bind, tidy_same; [|intros err'; by apply tidy_free_one]. apply remove_if_same. exists c. split; [by left|by rewrite Hc].
Qed.
Lemma wnode_name_same c h : c ∈ h_claims h -> same (wnode_name c) h.
Proof. intros Hc. apply tidy_bind, tidy_act; [by exists c|done]. Qed.
Lemma tidy_unlink parent nm : ends (fuse_lib_unlink cf has parent nm).
Proof.
  apply tidy_bind, tidy_get_one; [auto|]. intros c Hc. set (h := with_claims [c] fresh).
  assert (in_claimed h parent) as Hd by (exists c; split; [by left|by rewrite Hc]). assert (usable h (cpath c)) as Hu by apply usable_one.
  apply tidy_bind, tidy_same; [by destruct (cf_hard_remove cf); [|apply is_open_same]|]. intros hide.
  apply tidy_bind. apply (tidy_mono _ _ (fun _ h' => peeks h h')); [|intros err h' Hp; by apply tidy_free_one].
  destruct hide.
  2: { apply tidy_bind, tidy_same; [by fs_call|]. intros err. by apply tidy_same; [apply remove_if_same|]. }
  apply tidy_bind. eapply tidy_mono; [by apply tidy_hide|]. intros err h' Hp. destruct (err =? 0); [|by apply tidy_ret].
  assert (forall h'', peeks h h'' -> c ∈ h_claims h'') as Hin by (intros h'' [E _]; rewrite E; by left).
  apply tidy_bind, tidy_same; [by apply wnode_name_same, Hin|]. intros now. apply tidy_bind, tidy_same; [apply is_open_same|]. intros [|]; [by apply tidy_ret|].
  apply tidy_bind, tidy_act; [exists c; split; [by apply Hin|done]|]. intros n _. cbn [post].
  apply tidy_bind, tidy_act; [split; [done|]; intros E; specialize (Hin h' Hp); rewrite E in Hin; by apply not_elem_of_nil in Hin|].
  intros [e|p] _; cbn [post]; [by apply tidy_ret|]. assert (peeks h (with_peek p h')) as Hp' by exact (peeks_trans _ _ _ Hp (peeks_with p h')).
  apply tidy_bind, tidy_same; [fs_call; right; right; by left|]. intros err'. destruct (err' =? 0); [|by apply tidy_ret].
  apply tidy_bind, tidy_same; [by apply wnode_name_same, Hin|]. intros now'. apply tidy_same; [|done]. by apply remove_if_same, (peeks_in h).
Qed.
Lemma tidy_get_two a b (Q : Z + claim * claim -> hold -> Prop) : (forall e, Q (inl e) fresh) ->
  (forall c d, c.1 = a -> d.1 = b -> Q (inr (c, d)) (with_claims [c; d] fresh)) -> tidy (act (AGet2 a b)) Q fresh.
Proof. intros He Hc. apply tidy_act; [by intros _|]. intros [e|[c d]] Hf; [apply He|]. destruct (Hf c d eq_refl). by apply Hc. Qed.
Lemma tidy_free_two c d h (f : unit -> io unit) : peeks (with_claims [c; d] fresh) h -> ends (f tt) -> tidy (act (AFree2 c d) ≫= f) (fun _ h => h = finished) h.
Proof.
  intros Hp He. apply tidy_bind, tidy_act; [by destruct Hp as [E _]|]. intros [] _. cbn [post].
  rewrite (freed _ h [d; c] Hp); [done| |done|done]. cbn. rewrite decide_True by done. cbn. by rewrite decide_True.
Qed.
Lemma tidy_rename olddir oldname newdir newname flags : ends (fuse_lib_rename cf has olddir oldname newdir newname flags).
Proof.
  apply tidy_bind, tidy_get_two; [auto|]. intros c d Hc Hd. set (h := with_claims [c; d] fresh).
  assert (c ∈ h_claims h /\ d ∈ h_claims h) as [Hc1 Hd1] by (split; [by left|right; by left]).
  assert (in_claimed h olddir /\ in_claimed h newdir) as [Ho Hn] by (split; [exists c|exists d]; (split; [done|]); [by rewrite Hc|by rewrite Hd]).
  apply tidy_bind, tidy_same; [destruct (_ || _); [done|apply is_open_same]|]. intros hide.
  apply tidy_bind. apply (tidy_mono _ _ (fun _ h' => peeks h h')); [destruct hide; [by apply tidy_hide; [|apply usable_claim]|by apply tidy_ret]|].
  intros err h' Hp. apply tidy_bind. apply (tidy_mono _ _ (fun _ h' => peeks h h')); [|intros err' h'' Hp'; by apply tidy_free_two].
  destruct (err =? 0); [|by apply tidy_ret]. apply tidy_bind, tidy_same; [by fs_call; apply (peeks_usable h); [|apply usable_claim|..|apply usable_claim]|].
  intros err'. destruct (err' =? 0); [|by apply tidy_ret]. apply tidy_act; [|done]. destruct (has_flag _ _); split; by apply (peeks_in h).
Qed.
Lemma tidy_link ino newparent newname : ends (fuse_lib_link cf has ino newparent newname).
Proof.
  apply tidy_bind, tidy_get_two; [auto|]. intros c d Hc Hd. assert (usable (with_claims [c; d] fresh) (cpath c) /\ usable (with_claims [c; d] fresh) (cpath d)) as [H1 H2].
  { split; apply usable_claim; [by left|right; by left]. }
  apply tidy_bind, tidy_same; [by fs_call|]. intros err. apply tidy_bind, tidy_same; [by apply and_lookup_same|]. intros [err' e]. by apply tidy_free_two.
Qed.

(** *** Open files *)

Lemma closed_light n b n' : closed n = Some (b, n') -> light n n'.
Proof. unfold closed. destruct (0 <? open_count n); [|done]. cbv zeta. destruct (_ && _); by intros [= _ <-]. Qed.
Lemma do_release_same ino path fi h : Forall (usable h) (opt_path path) -> (path = None -> empty_handed h) -> same (fuse_do_release cf has ino path fi) h.
Proof.
  intros Hu Hn. apply tidy_bind, tidy_same; [by fs_call|]. intros _. apply tidy_bind, tidy_same; [apply at_node_same; intros now; apply closed_light|].
  intros [|]; [|by apply tidy_ret]. destruct path as [path|].
  - apply tidy_bind, tidy_same; [|done]. fs_call. by apply Forall_cons in Hu as [? _].
  - destruct (cf_nullpath_ok cf); [|by apply tidy_ret]. apply tidy_bind, tidy_same; [|done]. apply on_claim_same; [by apply Hn|]. intros c _. by fs_call.
Qed.
Lemma do_release_one c ino fi h : c ∈ h_claims h -> same (fuse_do_release cf has ino (Some (cpath c)) fi) h.
Proof. intros Hc. apply do_release_same; [|done]. constructor; [by apply usable_claim|constructor]. Qed.
Lemma open_node_same ino h : same (at_node ino (fun _ n => Some (tt, opened n))) h.
Proof. by apply touch_same. Qed.
Lemma check_light st err now n x n' : recheck_cache err st now n = Some (x, n') -> light n n'.
Proof. unfold recheck_cache. intros [= _ <-]. by destruct (err =? 0). Qed.
Lemma open_auto_cache_same ino path fi h : usable h path -> same (open_auto_cache cf has ino path fi) h.
Proof.
  intros Hu. apply tidy_bind, tidy_same.
  - apply at_node_same. unfold check_cache. intros now n x n'. destruct (_ && _); by intros [= _ <-].
  - intros [keep|]; [by apply tidy_ret|]. apply tidy_bind, tidy_same; [by fs_call|]. intros [err st]. apply at_node_same. intros now n x n'. apply check_light.
Qed.
(** The answer, while a path is still there. *)
Lemma ends_held c : tidy (free_path (Some c)) (fun _ h => h = finished) (answered_now (with_claims [c] fresh)).
Proof. apply tidy_act; [by left|]. intros [] _. cbn [post]. unfold without. cbn. by rewrite decide_True. Qed.
Lemma tidy_err_held c err : tidy (reply_err err) (fun _ h' => h' = answered_now (with_claims [c] fresh)) (with_claims [c] fresh).
Proof. by apply tidy_reply_err. Qed.
Lemma tidy_open ino fi : ends (fuse_lib_open cf has ino fi).
Proof.
  apply tidy_bind, tidy_get_one; [auto|]. intros c Hc. set (h := with_claims [c] fresh). assert (usable h (cpath c)) as Hu by apply usable_one.
  apply tidy_bind, tidy_same; [by fs_call|]. intros [err fi']. apply tidy_bind. apply (tidy_mono _ _ (fun _ h' => h' = answered_now h)); [|by intros ? ? ->; apply ends_held].
  destruct (err =? 0); [|apply tidy_err_held]. apply tidy_bind, tidy_same; [destruct (cf_auto_cache cf); [by apply open_auto_cache_same|done]|]. intros keep.
  apply tidy_bind, tidy_same; [apply open_node_same|]. intros [].
  apply tidy_bind, tidy_reply; [done|]. intros r. destruct (r =? - ENOENT); [|by apply tidy_ret]. apply do_release_one. by left.
Qed.
Lemma tidy_create parent nm mode fi : ends (fuse_lib_create cf has parent nm mode fi).
Proof.
  apply tidy_bind, tidy_get_one; [auto|]. intros c Hc. set (h := with_claims [c] fresh). assert (usable h (cpath c)) as Hu by apply usable_one.
  apply tidy_bind, tidy_same; [by fs_call|]. intros [err fi']. apply tidy_bind, tidy_same.
  { destruct (err =? 0); [|by apply tidy_ret]. apply tidy_bind, tidy_same; [by apply lookup_path_same|]. intros [err' e]. destruct (negb (err' =? 0)).
    - apply tidy_bind, tidy_same; [by fs_call|done].
    - destruct (negb _); [|by apply tidy_ret]. apply tidy_bind, tidy_same; [by fs_call|]. intros _. by apply tidy_bind, tidy_same; [apply same_act|]. }
  intros [[err' e] fi'']. apply tidy_bind. apply (tidy_mono _ _ (fun _ h' => h' = answered_now h)); [|by intros ? ? ->; apply ends_held].
  destruct (err' =? 0); [|apply tidy_err_held]. apply tidy_bind, tidy_same; [apply open_node_same|]. intros [].
  apply tidy_bind, tidy_reply; [done|]. intros r. destruct (r =? - ENOENT); [|by apply tidy_ret]. apply tidy_bind, tidy_same; [apply do_release_one; by left|].
  intros []. by apply same_act.
Qed.
Lemma insert_lock_at_same ino l h : same (insert_lock_at ino l) h.
Proof.
  apply tidy_bind, tidy_same.
  - destruct (whole_unlock l); [by apply tidy_ret|]. apply tidy_bind, tidy_act; [done|]. intros ok _. apply tidy_bind, tidy_act; [done|]. done.
  - intros spare. apply at_node_same. intros now n x n' H. apply bind_Some in H as ([err ls] & _ & [= _ <-]). done.
Qed.
Lemma flush_common_same ino path fi h : Forall (usable h) (opt_path path) -> same (fuse_flush_common has ino path fi) h.
Proof.
  intros Hu. apply tidy_bind, tidy_same; [by fs_call|]. intros err. apply tidy_bind, tidy_same; [by fs_call|]. intros [errlock lk].
  destruct (errlock =? - ENOSYS); [by apply tidy_ret|]. apply tidy_bind, tidy_same; [apply insert_lock_at_same|done].
Qed.
(** A path that is null when it could not be got. *)
Lemma tidy_any_path ino (Q : Z + option claim -> hold -> Prop) : (forall r, Q r (with_claims (claims_opt (any_path r)) fresh)) -> tidy (get_path_nullok cf ino) Q fresh.
Proof. intros HQ. apply tidy_nullok; [done| |]; intros x; [exact (HQ (inl x))|exact (HQ (inr x))]. Qed.
Lemma tidy_release ino fi : ends (fuse_lib_release cf has ino fi).
Proof.
  apply tidy_bind, tidy_any_path. intros r. cbv zeta. generalize (any_path r). intros c.
  apply tidy_bind, tidy_same; [destruct (fi_flush fi); [|by apply tidy_ret]; apply tidy_bind, tidy_same; [by apply flush_common_same|done]|]. intros err.
  apply tidy_bind, tidy_same; [apply do_release_same; [done|by destruct c]|]. intros _. apply tidy_bind, tidy_free_opt; [done|]. auto.
Qed.
Lemma tidy_flush ino fi : ends (fuse_lib_flush cf has ino fi).
Proof.
  apply tidy_bind, tidy_any_path. intros r. cbv zeta. generalize (any_path r). intros c.
  apply tidy_bind, tidy_same; [by apply flush_common_same|]. intros err. apply tidy_bind, tidy_free_opt; [done|]. auto.
Qed.
Lemma lock_common_same ino fi lk cmd : same (fuse_lock_common cf has ino fi lk cmd) fresh.
Proof. apply tidy_bind, tidy_same; [apply on_nullok_fresh; intros c; by fs_call|done]. Qed.
Lemma tidy_getlk ino fi lk : ends (fuse_lib_getlk cf has ino fi lk).
Proof.
  apply ends_after; [apply look_same|]. intros conflict. apply ends_after; [destruct conflict; [done|apply lock_common_same]|]. intros [err lk']. destruct (err =? 0); auto.
Qed.
Lemma tidy_setlk ino fi lk sleep : ends (fuse_lib_setlk cf has ino fi lk sleep).
Proof.
  apply ends_after; [apply lock_common_same|]. intros [err lk']. apply ends_after; [|auto]. destruct (err =? 0); [|done].
  apply tidy_bind, tidy_same; [apply insert_lock_at_same|done].
Qed.
(** Two paths, one after the other. *)
Lemma tidy_nullok_more ino (Q : Z + option claim -> hold -> Prop) h : strict = false -> (forall e, Q (inl e) h) ->
  (forall c, Q (inr c) (with_claims (claims_opt c ++ h_claims h) h)) -> tidy (get_path_nullok cf ino) Q h.
Proof.
  intros Hs He Hc. assert (with_claims (h_claims h) h = h) as E by (by destruct h). unfold get_path_nullok. destruct (cf_nullpath_ok cf).
  - apply tidy_ret. specialize (Hc None). cbn [claims_opt app] in Hc. by rewrite E in Hc.
  - apply tidy_bind, tidy_act; [cbn; by rewrite Hs|]. intros [e|c] _; cbn [post]; apply tidy_ret; [|apply (Hc (Some c))]. destruct (_ =? _); [|done].
    specialize (Hc None). cbn [claims_opt app] in Hc. by rewrite E in Hc.
Qed.
Lemma tidy_free_more c l d b (Q : unit -> hold -> Prop) : let h l := {| h_claims := l; h_peeked := []; h_dir := d; h_done := b |} in
  (forall l', l' ≡ₚ l -> Q tt (h l')) -> forall l', l' ≡ₚ claims_opt c ++ l -> tidy (free_path c) Q (h l').
Proof.
  intros h HQ l' Hl. destruct c as [c|]; [|by apply tidy_ret, HQ]. cbn in Hl. apply tidy_act; [cbn; rewrite Hl; by left|]. intros [] _. cbn [post]. apply HQ.
  cbn [h_claims h foldr]. by apply remove_one_perm.
Qed.
Lemma tidy_copy_file_range ino_in off_in fi_in ino_out off_out fi_out len flags : strict = false ->
  ends (fuse_lib_copy_file_range cf has ino_in off_in fi_in ino_out off_out fi_out len flags).
Proof.
  intros Hs. apply tidy_bind, tidy_nullok_more; [done|auto|]. intros c. cbn [h_claims fresh]. rewrite app_nil_r.
  apply tidy_bind, tidy_nullok_more; [done| |].
  - intros err. apply tidy_bind, tidy_free_opt; [done|]. auto.
  - intros d. cbn [h_claims with_claims]. set (h := with_claims _ _). apply tidy_bind, tidy_same.
    { fs_call. apply Forall_app. split; apply Forall_forall; intros p Hp; apply (usable_opt _ fresh) in Hp as [?|[Hp|?]]; try (by left); try (by right; right);
        right; left; cbn in *; rewrite fmap_app; apply elem_of_app; auto. }
    intros res. apply tidy_bind. unfold reply_count. apply (tidy_mono _ _ (fun _ h' => h' = answered_now h)).
    { destruct (0 <=? res); [by apply tidy_replied|by apply tidy_reply_err]. }
    intros [] _ ->. apply tidy_bind, (tidy_free_more c (claims_opt d)); [|by rewrite (comm (++))]. intros l Hl.
    apply (tidy_free_more d []); [|by rewrite app_nil_r]. intros l' Hl'. symmetry in Hl'. by apply Permutation_nil in Hl' as ->.
Qed.

(** *** Directories *)

Lemma tidy_opendir ino llfi : ends (fuse_lib_opendir has ino llfi).
Proof.
  apply tidy_bind, tidy_act; [done|]. intros [] _; cbn [negb post]; [|auto]. apply tidy_bind, tidy_act; [done|]. intros d _. cbn [post].
  apply tidy_bind, tidy_get_one; [intros e; apply tidy_bind, tidy_reply_err; [done|]; by apply tidy_act; [|intros []]|].
  intros c Hc. set (h := with_claims [c] fresh). assert (usable h (cpath c)) as Hu by apply usable_one.
  apply tidy_bind, tidy_same; [by fs_call|]. intros [err fi]. apply tidy_bind, tidy_act; [done|]. intros [] _. cbn [post].
  apply tidy_bind. apply (tidy_mono _ _ (fun _ h' => h' = answered_now h)); [|by intros ? ? ->; apply ends_held]. destruct (err =? 0).
  - apply tidy_bind, tidy_reply; [done|]. intros r. destruct (r =? - ENOENT); [|by apply tidy_ret]. apply tidy_bind, tidy_same; [fs_call; by apply usable_claim; left|].
    intros _. by apply same_act.
  - apply tidy_bind, tidy_reply_err; [done|]. by apply tidy_act.
Qed.
Lemma get_dirhandle_same llfi h : same (get_dirhandle llfi) h.
Proof. by apply tidy_bind, tidy_act. Qed.
Lemma tidy_releasedir ino llfi : ends (fuse_lib_releasedir cf has ino llfi).
Proof.
  apply ends_after; [apply get_dirhandle_same|]. intros [d fi]. apply tidy_bind, tidy_any_path. intros r. generalize (any_path r). intros c.
  apply tidy_bind, tidy_same; [by fs_call|]. intros _. apply tidy_bind, tidy_free_opt; [done|].
  apply tidy_bind, tidy_act; [done|]. intros dh _. apply tidy_bind, tidy_act; [done|]. intros [] _. apply tidy_bind, tidy_act; [done|]. intros [] _. auto.
Qed.
Lemma tidy_fsyncdir ino datasync llfi : ends (fuse_lib_fsyncdir cf has ino datasync llfi).
Proof.
  apply ends_after; [apply get_dirhandle_same|]. intros [d fi]. apply ends_after; [apply on_nullok_fresh; intros c; by fs_call|auto].
Qed.
Lemma extend_same minsize dh h : same (extend_contents minsize dh) h.
Proof. unfold extend_contents. destruct (_ <? _); [|by apply tidy_ret]. apply tidy_bind, tidy_act; [done|]. by intros [] _. Qed.
Lemma add_to_dh_same nm st flags dh h : same (fuse_add_direntry_to_dh nm st flags dh) h.
Proof. apply tidy_bind, tidy_act; [done|]. intros [] _; cbn [negb]; [|done]. apply tidy_bind, tidy_act; [done|]. by intros [] _. Qed.
Lemma lookup_nodeid_same parent nm h : same (lookup_nodeid parent nm) h.
Proof. by apply tidy_bind, tidy_act. Qed.
#[local] Hint Resolve extend_same add_to_dh_same lookup_nodeid_same do_lookup_same : core.
Lemma fill_dir_same nm statp off flags dh h : same (fill_dir cf nm statp off flags dh) h.
Proof.
  unfold fill_dir. destruct (negb _); [by apply tidy_ret|]. apply tidy_bind, tidy_same.
  { destruct (cf_use_ino cf); [by apply tidy_ret|]. destruct (cf_readdir_ino cf); [|by apply tidy_ret]. by apply tidy_bind, tidy_same. }
  intros st. destruct (negb (off =? 0)); [|by apply tidy_bind, tidy_same; [|intros [ok dh']]]. destruct (negb (may_add dh)); [by apply tidy_ret|].
  apply tidy_bind, tidy_same; [done|]. intros [ok dh']. destruct (negb ok); [by apply tidy_ret|]. by destruct (add_record _ _).
Qed.
Lemma plus_stat_same nm statp plus dh h : same (plus_stat cf nm statp plus dh) h.
Proof.
  unfold plus_stat. destruct statp as [st|]; [destruct plus; [by apply tidy_ret|]|]; cbv zeta; (destruct (_ && _); [|by apply tidy_ret]); by apply tidy_bind, tidy_same.
Qed.
Lemma fill_dir_plus_same nm statp off flags dh h : same (fill_dir_plus cf nm statp off flags dh) h.
Proof.
  unfold fill_dir_plus. destruct (negb _); [by apply tidy_ret|]. cbv zeta. apply tidy_bind, tidy_same; [apply plus_stat_same|].
  intros st. destruct (negb (off =? 0)); [|by apply tidy_bind, tidy_same; [|intros [ok dh']]]. destruct (negb (may_add dh)); [by apply tidy_ret|].
  apply tidy_bind, tidy_same; [done|]. intros [ok dh']. destruct (negb ok); [by apply tidy_ret|]. apply tidy_bind, tidy_same; [by destruct (_ && _)|].
  intros [res e]. destruct (negb _); [by apply tidy_ret|]. by destruct (add_record _ _).
Qed.
Lemma run_readdir_same filler run dh h : (forall nm statp off flags dh, same (filler nm statp off flags dh) h) -> same (run_readdir filler run dh) h.
Proof.
  intros Hf. revert dh. induction run as [res|nm statp off flags k IH]; intros dh; [by apply tidy_ret|]. cbn [run_readdir]. apply tidy_bind, tidy_same; [done|].
  intros [stop dh']. apply IH.
Qed.
Lemma readdir_fill_same ino size off fi flags dh h : empty_handed h -> same (readdir_fill cf has ino size off fi flags dh) h.
Proof.
  intros Hh. unfold readdir_fill. apply tidy_bind.
  assert (forall c, tidy (run ← fuse_fs_readdir has (npath c) off fi flags;
    '(err, dh') ← run_readdir (if has_flag flags READDIR_PLUS then fill_dir_plus cf else fill_dir cf) run
       (set_filled false (set_sizes (dh_size dh) (u32 size) (set_error 0 (set_contents [] (set_first [] dh)))));
    _ ← free_path c; mret (if (err : Z) =? 0 then dh_error dh' else err, if (if err =? 0 then dh_error dh' else err) =? 0 then dh' else set_filled false dh'))
    (fun _ h' => h' = h) (with_claims (claims_opt c) h)) as Hbody.
  { intros c. apply tidy_bind, tidy_same; [by fs_call|]. intros run. apply tidy_bind, tidy_same.
    - apply run_readdir_same. intros. destruct (has_flag flags READDIR_PLUS); [apply fill_dir_plus_same|apply fill_dir_same].
    - intros [err dh']. apply tidy_bind. by apply tidy_free_opt. }
  destruct (has o_readdir).
  - by apply tidy_nullok.
  - apply tidy_bind, tidy_get; [done|done|]. intros c _. apply (Hbody (Some c)).
Qed.
Lemma list_entry_same plus de pos dh h : same (list_entry cf plus de pos dh) h.
Proof.
  unfold list_entry. destruct plus; [|by apply tidy_ret]. cbv zeta. apply tidy_bind, tidy_same; [by destruct (_ && _)|]. intros [res e]. by destruct (negb _).
Qed.
Lemma list_rounds_same plus l pos dh h : same (list_rounds cf plus l pos dh) h.
Proof.
  revert pos dh. induction l as [|de l IH]; intros pos dh; [by apply tidy_ret|]. cbn [list_rounds]. apply tidy_bind, tidy_same; [apply list_entry_same|].
  intros [res|[[|] dh']]; [by apply tidy_ret|apply IH|by apply tidy_ret].
Qed.
Lemma from_list_same off flags dh h : same (readdir_fill_from_list cf off flags dh) h.
Proof. apply tidy_bind, tidy_same; [done|]. intros [ok dh']. destruct (negb ok); [by apply tidy_ret|]. apply list_rounds_same. Qed.
Lemma tidy_readdir_common ino size off llfi flags : ends (fuse_readdir_common cf has ino size off llfi flags).
Proof.
  apply ends_after; [apply get_dirhandle_same|]. intros [d fi]. apply tidy_bind, tidy_act; [done|]. intros dh _. cbn [post]. set (h := with_dir _ _). cbv zeta.
  apply tidy_bind, tidy_same; [case_match; [by apply tidy_ret|by apply readdir_fill_same]|]. intros [err dh']. apply tidy_bind, tidy_same; [case_match; [apply from_list_same|by apply tidy_ret]|].
  intros [err' dh'']. apply tidy_bind. apply (tidy_mono _ _ (fun _ h' => h' = answered_now h)); [destruct (err' =? 0); [by apply tidy_replied|by apply tidy_reply_err]|].
  intros _ h' ->. by apply tidy_act.
Qed.

Lemma tidy_readdir ino size off fi : ends (fuse_lib_readdir cf has ino size off fi).
Proof. apply tidy_readdir_common. Qed.
Lemma tidy_readdirplus ino size off fi : ends (fuse_lib_readdirplus cf has ino size off fi).
Proof. apply tidy_readdir_common. Qed.

(** Every request keeps to the rules. *)
Definition takes_two (q : hl_request) : bool := match q with RCopyFileRange _ _ _ _ _ _ _ _ => true | _ => false end.
Lemma request_tidy q : well_formed q -> (strict = true -> takes_two q = false) -> ends (fuse_path_ops cf has q).
Proof.
  intros Hw Hs. destruct q; cbn [fuse_path_ops]; auto using tidy_access, tidy_readlink, tidy_fsync, tidy_statfs, tidy_setxattr, tidy_removexattr, tidy_getxattr, tidy_listxattr,
    tidy_flock, tidy_fallocate, tidy_bmap, tidy_poll, tidy_lseek, tidy_ioctl, tidy_read, tidy_write_buf, tidy_getattr, tidy_statx, tidy_setattr, tidy_lookup, tidy_forget, tidy_forget_multi,
    tidy_mkdir, tidy_symlink, tidy_mknod, tidy_rmdir, tidy_unlink, tidy_rename, tidy_link, tidy_open, tidy_create, tidy_release, tidy_flush, tidy_getlk, tidy_setlk,
    tidy_opendir, tidy_releasedir, tidy_fsyncdir, tidy_readdir, tidy_readdirplus.
  apply tidy_copy_file_range. destruct strict; [by specialize (Hs eq_refl)|done].
Qed.
End Handlers.
