(* ===== verification/HlTraces.v ===== *)
(** * What a request does from its beginning to its answer

    A trace is the list of the actions a request takes and of what they give; [plays] are
    the traces of a program.  In every trace of every request the kernel is answered once,
    and every path that was asked for is given back. *)
From S2P Require Import Prelude Errno Sys HlLocks HlTable HlNodes HlTree HlNames HlSpace HlPaths HlPathFacts HlPathLocks HlPathCalls HlPathSystem HlRequests HlTidy.

Definition event : Type := { a : action & result a }.
Definition did (a : action) (r : result a) : event := existT a r.
Inductive plays {A} : io A -> list event -> A -> Prop :=
| plays_ret x : plays (Ret x) [] x
| plays_act a k r l x : fits a r -> plays (k r) l x -> plays (Act a k) (did a r :: l) x.
(** What the thread has after a part of a trace. *)
Definition after_event (h : hold) (e : event) : hold := post h (projT1 e) (projT2 e).
Definition has_after (l : list event) : hold := foldl after_event fresh l.

Definition reply_of (e : event) : list hl_reply := match projT1 e with AReply r => [r] | _ => [] end.
Definition claims_taken (e : event) : list claim :=
  match e with
  | existT (AGet _) (inr c) => [c]
  | existT (AGet2 _ _) (inr (c, d)) => [c; d]
  | _ => []
  end.
Definition claims_given (e : event) : list claim := match projT1 e with AFree c => [c] | AFree2 c d => [c; d] | _ => [] end.

Section Traces.
Variable strict : bool.
(** A tidy program keeps to the rules at every point of its traces. *)
Lemma tidy_plays {A} (m : io A) Q h l x : tidy strict m Q h -> plays m l x -> Q x (foldl after_event h l) /\
  forall l1 a r l2, l = l1 ++ did a r :: l2 -> pre strict (foldl after_event h l1) a.
Proof.
  intros Ht Hp. revert h Ht. induction Hp as [x|a k r l x Hf _ IH]; intros h; cbn [tidy]; [intros HQ; split; [done|]; by intros [|] a r l2|].
  intros [Hpre Hk]. destruct (IH _ (Hk r Hf)) as [HQ Hall]. split; [done|]. intros [|e l1] a' r' l2 E.
  - by injection E as <-.
  - injection E as <- E. by apply (Hall l1 a' r' l2).
Qed.
(** Answers and paths are counted by the hold. *)
Definition counted (h : hold) (l : list event) (h' : hold) : Prop :=
  (length (l ≫= reply_of) + Nat.b2n (h_done h) = Nat.b2n (h_done h'))%nat /\ h_claims h ++ (l ≫= claims_taken) ≡ₚ h_claims h' ++ (l ≫= claims_given).
Lemma counted_event h a r : pre strict h a -> counted h [did a r] (post h a r).
Proof.
  intros Hp. unfold counted. cbn [mbind list_bind]. rewrite !app_nil_r. destruct a; cbn in Hp, r; try done.
  - destruct r as [e|c]; split; try done; cbn; by rewrite ?app_nil_r, (comm (++)).
  - destruct r as [e|[c d]]; split; try done; cbn; by rewrite ?app_nil_r, (comm (++)).
  - split; [done|]. cbn. rewrite app_nil_r. apply elem_of_Permutation in Hp as [rest Hr]. rewrite (remove_one_perm c rest _ Hr). rewrite Hr. by rewrite (comm (++)).
  - split; [done|]. cbn. rewrite app_nil_r, Hp. cbn. rewrite (decide_True (P := c = c)) by done. cbn. by rewrite (decide_True (P := d = d)).
  - destruct r as [e|p]; by split.
  - by destruct r as [[nn [e|p]]|]; split.
  - split; [by cbn; rewrite Hp|done].
Qed.
Lemma counted_trans h l h1 l' h' : counted h l h1 -> counted h1 l' h' -> counted h (l ++ l') h'.
Proof.
  intros [E1 P1] [E2 P2]. unfold counted. rewrite !bind_app, length_app. split; [lia|]. rewrite (assoc_L (++)), P1, <- (assoc_L (++)), (comm (++) (l ≫= claims_given)), (assoc_L (++)), P2.
  by rewrite <- (assoc_L (++)), (comm (++) (l' ≫= claims_given)).
Qed.
Lemma tidy_counts {A} (m : io A) Q h l x : tidy strict m Q h -> plays m l x -> counted h l (foldl after_event h l).
Proof.
  intros Ht Hp. revert h Ht. induction Hp as [x|a k r l x Hf _ IH]; intros h; cbn [tidy foldl]; [by intros _|].
  intros [Hpre Hk]. apply (counted_trans h [did a r] (post h a r) l); [by apply counted_event|]. by apply IH, Hk.
Qed.
End Traces.

(** ** The property *)

(** Removing [d]: its path, the operation, the name, the path back, the answer. *)
Definition demo_claim : claim := ({| ask_ino := FUSE_ROOT_ID; ask_name := Some "d"%string; ask_write := true |}, ("/d"%string, Some 1%nat)).
Definition demo_trace : list event :=
  [did (AGet demo_claim.1) (inr demo_claim); did (AOp (FRmdir "/d")) 0; did (ANames (Remove FUSE_ROOT_ID "d"%string)) 0; did (AFree demo_claim) tt; did (AReply (ReplyErr 0)) 0].
Lemma demo_plays : plays (fuse_path_ops demo_hl_config (fun _ => true) (RRmdir FUSE_ROOT_ID "d")) demo_trace tt.
Proof.
  assert (forall c, c.1 = demo_claim.1 -> plays (fuse_path_ops demo_hl_config (fun _ => true) (RRmdir FUSE_ROOT_ID "d"))
    [did (AGet demo_claim.1) (inr c); did (AOp (FRmdir (cpath c))) 0; did (ANames (Remove FUSE_ROOT_ID "d"%string)) 0; did (AFree c) tt; did (AReply (ReplyErr 0)) 0] tt) as H.
  { intros c Hc. apply plays_act; [by intros d [= <-]|]. apply (plays_act (AOp (FRmdir (cpath c))) _ 0); [done|]. apply (plays_act (ANames (Remove FUSE_ROOT_ID "d"%string)) _ 0); [done|].
    apply (plays_act (AFree c) _ tt); [done|]. apply (plays_act (AReply (ReplyErr 0)) _ 0); [done|]. apply plays_ret. }
  exact (H demo_claim eq_refl).
Qed.
