(* ===== verification/HlSubdir.v ===== *)
(** * lib/modules/subdir.c: a file system below a directory

    The module puts a base directory before the paths it is called with and calls the next
    file system; absolute links may be made relative.  Its operations are programs of the
    actions of [HlRequests]: memory for the new path, and the call of the next one. *)
From Stdlib Require Import Ascii.
From S2P Require Import Prelude Errno Sys HlLocks HlTable HlNodes HlSpace HlRequests HlTidy HlTraces.

Record subdir := { base : string; rellinks : bool }.
Definition baselen (d : subdir) : Z := Z.of_nat (String.length (base d)).
Definition slash : ascii := "/"%char.
Definition starts_slash (s : string) : bool := match s with String c _ => Ascii.eqb c slash | "" => false end.

(** ** Links *)

Fixpoint skip_slashes (p : string) : string := match p with String c r => if Ascii.eqb c slash then skip_slashes r else p | "" => p end.
Fixpoint skip_name (p : string) : string := match p with String c r => if Ascii.eqb c slash then p else skip_name r | "" => p end.
Fixpoint count_rounds (fuel : nat) (p : string) : Z :=
  match fuel, p with S fuel, String _ _ => 1 + count_rounds fuel (skip_slashes (skip_name p)) | _, _ => 0 end.
(** Every round takes a character at least. *)
Definition count_components (p : string) : Z := count_rounds (String.length p) (skip_slashes p).
Fixpoint skip_equal (s t : string) : string * string :=
  match s, t with String c s', String e t' => if Ascii.eqb c e && negb (Ascii.eqb c slash) then skip_equal s' t' else (s, t) | _, _ => (s, t) end.
Definition go_on (s t : string) : bool :=
  match s, t with String c _, String e _ => Ascii.eqb c e | "", String e _ => Ascii.eqb e slash | String c _, "" => Ascii.eqb c slash | "", "" => false end.
Fixpoint strip_rounds (fuel : nat) (s t : string) : string * string :=
  let s1 := skip_slashes s in let t1 := skip_slashes t in let '(s2, t2) := skip_equal s1 t1 in
  match fuel with S fuel => if go_on s2 t2 then strip_rounds fuel s2 t2 else (s1, t1) | O => (s1, t1) end.
Definition strip_common (s t : string) : string * string := strip_rounds (String.length s + String.length t) s t.
Fixpoint up_dirs (n : nat) (rest : string) : string := match n with O => rest | S n => ("../" ++ up_dirs n rest)%string end.
Definition transform_symlink (d : subdir) (path buf : string) (size : Z) : string :=
  if negb (starts_slash buf) || negb (starts_slash (base d)) then buf
  else
    let '(l, path) := strip_common buf path in
    if Z.of_nat (String.length buf) - Z.of_nat (String.length l) <? baselen d then buf
    else
      let dotdots := count_components path in
      if dotdots =? 0 then buf
      else
        let dotdots := dotdots - 1 in let llen := Z.of_nat (String.length l) in
        if size <? dotdots * 3 + llen + 2 then buf
        else up_dirs (Z.to_nat dotdots) (if llen =? 0 then (if dotdots =? 0 then "."%string else ""%string) else l).

(** ** The operations *)

Section Subdir.
Variable d : subdir.
(** The operations of the next file system. *)
Variable has : fs_op -> bool.

Definition added (path : string) : string :=
  let newpath := (base d ++ (if starts_slash path then String.substring 1 (String.length path - 1) path else path))%string in
  if String.eqb newpath "" then "."%string else newpath.
Definition subdir_addpath (path : option string) : io (Z + option string) :=
  match path with
  | Some path => ok ← act AMem; mret (if ok : bool then inr (Some (added path)) else inl (- ENOMEM))
  | None => mret (inr None)
  end.
(** With the new path, or with the error; [untouched] is what is in memory then. *)
Definition on_added {A} (path : option string) (failed : Z -> A) (body : option string -> io A) : io A :=
  r ← subdir_addpath path; match r with inl err => mret (failed err) | inr newpath => body newpath end.
Definition on_added1 {A} (path : string) (failed : Z -> A) (body : string -> io A) : io A := on_added (Some path) failed (fun p => body (default ""%string p)).
Definition on_added2 (from to : string) (body : string -> string -> io Z) : io Z := on_added1 from id (fun newfrom => on_added1 to id (fun newto => body newfrom newto)).

Definition subdir_getattr path buf fi := on_added path (fun e => (e, buf)) (fun p => fuse_fs_getattr has p buf fi).
Definition subdir_access path mask := on_added1 path id (fun p => fuse_fs_access has p mask).
Definition subdir_readlink path size : io (Z * string) :=
  on_added1 path (fun e => (e, ""%string)) (fun p =>
    '(err, buf) ← fuse_fs_readlink has p size; mret (err, if ((err : Z) =? 0) && rellinks d then transform_symlink d p buf size else buf)).
Definition subdir_opendir path fi := on_added1 path (fun e => (e, fi)) (fun p => fuse_fs_opendir has p fi).
Definition subdir_readdir path off fi flags := on_added path DirDone (fun p => fuse_fs_readdir has p off fi flags).
Definition subdir_releasedir path fi := on_added path id (fun p => fuse_fs_releasedir has p fi).
Definition subdir_mknod path mode rdev := on_added1 path id (fun p => fuse_fs_mknod has p mode rdev).
Definition subdir_mkdir path mode := on_added1 path id (fun p => fuse_fs_mkdir has p mode).
Definition subdir_unlink path := on_added1 path id (fun p => fuse_fs_unlink has p).
Definition subdir_rmdir path := on_added1 path id (fun p => fuse_fs_rmdir has p).
Definition subdir_symlink from path := on_added1 path id (fun p => fuse_fs_symlink has from p).
Definition subdir_rename from to flags := on_added2 from to (fun newfrom newto => fuse_fs_rename has newfrom newto flags).
Definition subdir_link from to := on_added2 from to (fun newfrom newto => fuse_fs_link has newfrom newto).
Definition subdir_chmod path mode fi := on_added path id (fun p => fuse_fs_chmod has p mode fi).
Definition subdir_chown path uid gid fi := on_added path id (fun p => fuse_fs_chown has p uid gid fi).
Definition subdir_truncate path size fi := on_added path id (fun p => fuse_fs_truncate has p size fi).
Definition subdir_utimens path atime mtime fi := on_added path id (fun p => fuse_fs_utimens has p atime mtime fi).
Definition subdir_create path mode fi := on_added1 path (fun e => (e, fi)) (fun p => fuse_fs_create has p mode fi).
Definition subdir_open path fi := on_added1 path (fun e => (e, fi)) (fun p => fuse_fs_open has p fi).
Definition subdir_read_buf path size off fi := on_added path (fun e => (e, None)) (fun p => fuse_fs_read_buf has p size off fi).
Definition subdir_write_buf path buf off fi := on_added path id (fun p => fuse_fs_write_buf has p buf off fi).
Definition subdir_statfs path buf := on_added1 path (fun e => (e, buf)) (fun p => fuse_fs_statfs has p buf).
Definition subdir_flush path fi := on_added path id (fun p => fuse_fs_flush has p fi).
Definition subdir_release path fi := on_added path id (fun p => fuse_fs_release has p fi).
Definition subdir_fsync path datasync fi := on_added path id (fun p => fuse_fs_fsync has p datasync fi).
Definition subdir_fsyncdir path datasync fi := on_added path id (fun p => fuse_fs_fsyncdir has p datasync fi).
Definition subdir_setxattr path nm value size flags := on_added1 path id (fun p => fuse_fs_setxattr has p nm value size flags).
Definition subdir_getxattr path nm size := on_added1 path (fun e => (e, [])) (fun p => fuse_fs_getxattr has p nm size).
Definition subdir_listxattr path size := on_added1 path (fun e => (e, [])) (fun p => fuse_fs_listxattr has p size).
Definition subdir_removexattr path nm := on_added1 path id (fun p => fuse_fs_removexattr has p nm).
Definition subdir_lock path fi cmd lk := on_added path (fun e => (e, lk)) (fun p => fuse_fs_lock has p fi cmd lk).
Definition subdir_flock path fi op := on_added path id (fun p => fuse_fs_flock has p fi op).
Definition subdir_bmap path blocksize idx := on_added1 path (fun e => (e, idx)) (fun p => fuse_fs_bmap has p blocksize idx).
(** The offset goes through an [int]. *)
Definition subdir_lseek path off whence fi : io Z := on_added1 path id (fun p => res ← fuse_fs_lseek has p off whence fi; mret (s32 res)).
Definition subdir_statx path flags mask stxbuf fi := on_added path (fun e => (e, stxbuf)) (fun p => fuse_fs_statx has p flags mask stxbuf fi).
End Subdir.

(** ** The module's table, and how it is made *)

Definition subdir_has (op : fs_op) : bool :=
  match op with o_read | o_write | o_ioctl | o_poll | o_fallocate | o_copy_file_range => false | _ => true end.
Definition subdir_oper (d : subdir) (has : fs_op -> bool) (c : fs_call) : option (io (fs_result c)) :=
  match c return option (io (fs_result c)) with
  | FGetattr path fi => Some (subdir_getattr d has path zero_stat fi)
  | FReadlink path size => Some (subdir_readlink d has path size)
  | FMknod path mode rdev => Some (subdir_mknod d has path mode rdev)
  | FMkdir path mode => Some (subdir_mkdir d has path mode)
  | FUnlink path => Some (subdir_unlink d has path)
  | FRmdir path => Some (subdir_rmdir d has path)
  | FSymlink from path => Some (subdir_symlink d has from path)
  | FRename from to flags => Some (subdir_rename d has from to flags)
  | FLink from to => Some (subdir_link d has from to)
  | FChmod path mode fi => Some (subdir_chmod d has path mode fi)
  | FChown path uid gid fi => Some (subdir_chown d has path uid gid fi)
  | FTruncate path size fi => Some (subdir_truncate d has path size fi)
  | FUtimens path atime mtime fi => Some (subdir_utimens d has path atime mtime fi)
  | FOpen path fi => Some (subdir_open d has path fi)
  | FReadBuf path size off fi => Some (subdir_read_buf d has path size off fi)
  | FWriteBuf path buf off fi => Some (subdir_write_buf d has path buf off fi)
  | FStatfs path => Some (subdir_statfs d has path zero_statvfs)
  | FFlush path fi => Some (subdir_flush d has path fi)
  | FRelease path fi => Some (subdir_release d has path fi)
  | FFsync path datasync fi => Some (subdir_fsync d has path datasync fi)
  | FSetxattr path nm value size flags => Some (subdir_setxattr d has path nm value size flags)
  | FGetxattr path nm size => Some (subdir_getxattr d has path nm size)
  | FListxattr path size => Some (subdir_listxattr d has path size)
  | FRemovexattr path nm => Some (subdir_removexattr d has path nm)
  | FOpendir path fi => Some (subdir_opendir d has path fi)
  | FReaddir path off fi flags => Some (subdir_readdir d has path off fi flags)
  | FReleasedir path fi => Some (subdir_releasedir d has path fi)
  | FFsyncdir path datasync fi => Some (subdir_fsyncdir d has path datasync fi)
  | FAccess path mask => Some (subdir_access d has path mask)
  | FCreate path mode fi => Some (subdir_create d has path mode fi)
  | FLock path fi cmd lk => Some (subdir_lock d has path fi cmd lk)
  | FFlock path fi op => Some (subdir_flock d has path fi op)
  | FBmap path blocksize idx => Some (subdir_bmap d has path blocksize idx)
  | FLseek path off whence fi => Some (subdir_lseek d has path off whence fi)
  | FStatx path flags mask fi => Some (subdir_statx d has path flags mask zero_statx fi)
  | _ => None
  end.
(** [subdir_new] after its options were read; one next file system is given. *)
Definition ends_slash (s : string) : bool := match String.get (String.length s - 1) s with Some c => Ascii.eqb c slash | None => false end.
Definition subdir_new (option_base : option string) (option_rellinks : bool) : io (option subdir) :=
  match option_base with
  | None => mret None
  | Some b =>
      b ← (if negb (String.eqb b "") && negb (ends_slash b) then ok ← act AMem; mret (if ok : bool then Some (b ++ "/")%string else None) else mret (Some b));
      match b : option string with
      | None => mret None
      | Some b => ok ← act AMem; mret (if ok : bool then Some {| base := b; rellinks := option_rellinks |} else None)
      end
  end.

(** ** The components of a path *)

Fixpoint split (s : string) : list string :=
  match s with
  | "" => [""%string]
  | String c r => if Ascii.eqb c slash then ""%string :: split r else match split r with w :: l => String c w :: l | [] => [String c ""] end
  end.
Definition comps (s : string) : list string := filter (fun w => w <> ""%string) (split s).
(** Where a link leads: [dir] is the directory it is in, from the root. *)
Definition follow1 (at_dir : list string) (w : string) : list string :=
  if String.eqb w "." then at_dir else if String.eqb w ".." then removelast at_dir else at_dir ++ [w].
Definition follow (dir l : list string) : list string := foldl follow1 dir l.
Definition leads_to (dir : list string) (link : string) : list string := follow (if starts_slash link then [] else dir) (comps link).

Fixpoint plain (w : string) : bool := match w with String c r => negb (Ascii.eqb c slash) && plain r | "" => true end.
Lemma split_cons s : exists w l, split s = w :: l.
Proof. destruct s as [|c r]; [by eexists _, _|]. cbn. destruct (Ascii.eqb c slash); [by eexists _, _|]. destruct (split r); by eexists _, _. Qed.
Lemma append_nil_r (w : string) : (w ++ "")%string = w.
Proof. induction w as [|c w IH]; [done|]. change ((String c w ++ "")%string) with (String c (w ++ "")). by rewrite IH. Qed.
Lemma split_app w s : plain w = true -> split (w ++ s) = match split s with x :: l => (w ++ x)%string :: l | [] => [] end.
Proof.
  induction w as [|c w IH]; intros Hp; [change ("" ++ s)%string with s; by destruct (split_cons s) as (x & l & ->)|]. cbn [plain] in Hp. apply andb_true_iff in Hp as [Hc Hw].
  change (String c w ++ s)%string with (String c (w ++ s)). cbn [split]. apply negb_true_iff in Hc. rewrite Hc, (IH Hw). by destruct (split_cons s) as (x & l & ->).
Qed.
Lemma comps_slash r : comps (String slash r) = comps r.
Proof. done. Qed.
Lemma comps_skip s : comps (skip_slashes s) = comps s.
Proof. induction s as [|c r IH]; [done|]. cbn [skip_slashes]. destruct (Ascii.eqb_spec c slash) as [->|]; [by rewrite comps_slash|done]. Qed.
Lemma comps_plain w s : plain w = true -> w <> ""%string -> s = ""%string \/ starts_slash s = true -> comps (w ++ s) = w :: comps s.
Proof.
  intros Hp Hw Hs. unfold comps. rewrite split_app by done. assert (split s = ""%string :: match split s with _ :: l => l | [] => [] end) as ->.
  { destruct Hs as [->|Hs]; [done|]. destruct s as [|c r]; [done|]. cbn [starts_slash] in Hs. by apply Ascii.eqb_eq in Hs as ->. }
  rewrite append_nil_r, filter_cons_True by done. by rewrite filter_cons_False by naive_solver.
Qed.

(** ** Stripping what two paths share *)

Definition bare (s : string) : Prop := starts_slash s = false.
Definition edge (s : string) : Prop := s = ""%string \/ starts_slash s = true.
Lemma skip_bare s : bare (skip_slashes s).
Proof. unfold bare. induction s as [|c r IH]; [done|]. cbn [skip_slashes]. destruct (Ascii.eqb c slash) eqn:E; [done|exact E]. Qed.
Lemma append_assoc_l (a b c : string) : (a ++ (b ++ c))%string = ((a ++ b) ++ c)%string.
Proof. induction a as [|x a IH]; [done|]. change (String x (a ++ (b ++ c)) = String x ((a ++ b) ++ c))%string. by rewrite IH. Qed.
Lemma skip_equal_spec s : forall t s2 t2, skip_equal s t = (s2, t2) -> exists w, s = (w ++ s2)%string /\ t = (w ++ t2)%string /\ plain w = true /\
  (go_on s2 t2 = true -> edge s2 /\ edge t2).
Proof.
  induction s as [|c s IH]; intros t s2 t2 H.
  - cbn in H. injection H as <- <-. exists ""%string. split_and!; try done. intros Hg. destruct t as [|e t]; [done|]. split; [by left|by right].
  - cbn [skip_equal] in H. destruct t as [|e t].
    { injection H as <- <-. exists ""%string. split_and!; try done. intros Hg. split; [by right|by left]. }
    destruct (Ascii.eqb_spec c e) as [->|Hne]; cbn [andb] in H.
    + destruct (Ascii.eqb e slash) eqn:E; cbn [negb] in H.
      * injection H as <- <-. exists ""%string. split_and!; try done. intros _. split; by right.
      * destruct (IH t s2 t2 H) as (w & -> & -> & Hw & Hg). exists (String e w). split_and!; try done. cbn [plain]. by rewrite E.
    + injection H as <- <-. exists ""%string. split_and!; try done. intros Hg. cbn in Hg. apply Ascii.eqb_eq in Hg. by destruct (Hne Hg).
Qed.
Lemma strip_spec fuel : forall s t s' t', strip_rounds fuel s t = (s', t') -> bare s' /\ exists C, comps s = C ++ comps s' /\ comps t = C ++ comps t'.
Proof.
  induction fuel as [|fuel IH]; intros s t s' t' H; cbn [strip_rounds] in H; cbv zeta in H; destruct (skip_equal (skip_slashes s) (skip_slashes t)) as [s2 t2] eqn:E.
  - injection H as <- <-. split; [apply skip_bare|]. exists []. by rewrite !comps_skip.
  - destruct (go_on s2 t2) eqn:G; [|injection H as <- <-; split; [apply skip_bare|exists []; by rewrite !comps_skip]].
    destruct (IH _ _ _ _ H) as (Hb & C & H1 & H2). split; [done|]. destruct (skip_equal_spec _ _ _ _ E) as (w & Es & Et & Hw & Hg). destruct (Hg G) as [Es2 Et2].
    assert (w <> ""%string) as Hne.
    { intros ->. change (("" ++ s2)%string) with s2 in Es. change (("" ++ t2)%string) with t2 in Et. pose proof (skip_bare s) as B1. pose proof (skip_bare t) as B2.
      rewrite Es in B1. rewrite Et in B2. unfold bare in *. destruct Es2 as [->|?], Et2 as [->|?]; try congruence. done. }
    exists (w :: C). rewrite <- (comps_skip s), <- (comps_skip t), Es, Et, !comps_plain by done. by rewrite H1, H2.
Qed.
Lemma skip_name_spec p : exists w, p = (w ++ skip_name p)%string /\ plain w = true /\ edge (skip_name p).
Proof.
  induction p as [|c r IH]; [exists ""%string; split_and!; try done; by left|]. cbn [skip_name]. destruct (Ascii.eqb c slash) eqn:E; [exists ""%string; split_and!; try done; by right|].
  destruct IH as (w & Hr & Hw & He). exists (String c w). split_and!; [|cbn [plain]; by rewrite E|done]. change ((String c w ++ skip_name r)%string) with (String c (w ++ skip_name r)). by rewrite <- Hr.
Qed.
Lemma skip_slashes_shorter p : (String.length (skip_slashes p) <= String.length p)%nat.
Proof. induction p as [|c r IH]; [done|]. cbn [skip_slashes]. destruct (Ascii.eqb c slash); cbn [String.length] in *; lia. Qed.
Lemma count_rounds_spec fuel : forall p, (String.length p <= fuel)%nat -> bare p -> count_rounds fuel p = lenZ (comps p).
Proof.
  induction fuel as [|fuel IH]; intros p Hf Hb; (destruct p as [|c r]; [done|]); [cbn in Hf; lia|]. cbn [count_rounds].
  destruct (skip_name_spec (String c r)) as (w & Ep & Hw & He). assert (w <> ""%string) as Hne.
  { intros ->. change (("" ++ skip_name (String c r))%string) with (skip_name (String c r)) in Ep. rewrite <- Ep in He. destruct He as [He|He]; [done|]. unfold bare in Hb. congruence. }
  rewrite Ep at 2. rewrite comps_plain by done. rewrite lenZ_cons, <- (comps_skip (skip_name _)), <- IH; [done| |apply skip_bare].
  pose proof (skip_slashes_shorter (skip_name (String c r))) as Hl. apply (f_equal String.length) in Ep. rewrite string_length_app in Ep. destruct w as [|x w]; [done|]. cbn [String.length] in *. lia.
Qed.
Lemma count_components_spec p : count_components p = lenZ (comps p).
Proof. unfold count_components. rewrite count_rounds_spec; [by rewrite comps_skip|apply skip_slashes_shorter|apply skip_bare]. Qed.

(** ** Where links lead *)

Definition dotless (w : string) : Prop := w <> "."%string /\ w <> ".."%string.
Lemma follow_app dir l l' : follow dir (l ++ l') = follow (follow dir l) l'.
Proof. apply foldl_app. Qed.
Lemma follow_dotless l : forall dir, Forall dotless l -> follow dir l = dir ++ l.
Proof.
  induction l as [|w l IH]; intros dir Hd; [by rewrite app_nil_r|]. apply Forall_cons in Hd as [[H1 H2] Hd]. cbn [follow foldl]. fold (follow (follow1 dir w) l). rewrite IH by done.
  unfold follow1. destruct (String.eqb_spec w "."), (String.eqb_spec w ".."); try done. by rewrite <- (assoc_L (++)).
Qed.
Lemma follow_up P : forall C, follow (C ++ P) (replicate (length P) ".."%string) = C.
Proof.
  induction P as [|w P IH] using rev_ind; intros C; [by rewrite app_nil_r|]. rewrite length_app, Nat.add_comm. cbn [length Nat.add replicate follow foldl].
  change (follow1 (C ++ P ++ [w]) "..") with (removelast (C ++ P ++ [w])). rewrite (assoc_L (++)), removelast_last. apply IH.
Qed.
Lemma comps_up n rest : comps (up_dirs n rest) = replicate n ".."%string ++ comps rest.
Proof. induction n as [|n IH]; [done|]. cbn [up_dirs replicate app]. by rewrite <- IH. Qed.
Lemma up_bare n rest : bare rest -> bare (up_dirs n rest).
Proof. by destruct n. Qed.
(** ** How far up links go *)

(** No two slashes follow each other. *)
Fixpoint single (s : string) : bool := match s with String c r => negb (Ascii.eqb c slash && starts_slash r) && single r | "" => true end.
Lemma single_skip s : single s = true -> single (skip_slashes s) = true /\ (String.length s <= String.length (skip_slashes s) + (if starts_slash s then 1 else 0))%nat.
Proof.
  destruct s as [|c r]; [by split|]. cbn [single skip_slashes starts_slash]. intros [Hn Hr]%andb_true_iff. destruct (Ascii.eqb c slash) eqn:E; [|split; [cbn [single]; by rewrite E|cbn; lia]].
  cbn [andb] in Hn. apply negb_true_iff in Hn. destruct r as [|e r]; [by split|]. cbn [starts_slash] in Hn. cbn [skip_slashes]. rewrite Hn. split; [done|cbn [String.length]; lia].
Qed.
Lemma single_tail w s : single (w ++ s) = true -> single s = true.
Proof. induction w as [|c w IH]; [done|]. change ((String c w ++ s)%string) with (String c (w ++ s)). cbn [single]. intros [_ H]%andb_true_iff. by apply IH. Qed.
Lemma strip_empty fuel : forall s s' t', strip_rounds fuel s "" = (s', t') -> t' = ""%string.
Proof.
  induction fuel as [|fuel IH]; intros s s' t' H; cbn [strip_rounds skip_slashes] in H; cbv zeta in H; destruct (skip_slashes s) as [|c r] eqn:E; cbn [skip_equal] in H; try (by injection H as _ <-).
  destruct (go_on (String c r) ""); [by apply IH in H|by injection H as _ <-].
Qed.
(** What is taken off the link is no longer than what is taken off the path. *)
Lemma strip_consumes fuel : forall s t s' t', single s = true -> (starts_slash s = true -> t = ""%string \/ starts_slash t = true) -> strip_rounds fuel s t = (s', t') -> t' <> ""%string ->
  (String.length s + String.length t' <= String.length t + String.length s')%nat.
Proof.
  assert (forall s t, single s = true -> (starts_slash s = true -> t = ""%string \/ starts_slash t = true) -> t <> ""%string ->
    (String.length s + String.length (skip_slashes t) <= String.length t + String.length (skip_slashes s))%nat) as Hone.
  { intros s t Hs Hst Ht. destruct (single_skip s Hs) as [_ Hl]. destruct (starts_slash s); [|pose proof (skip_slashes_shorter t); lia]. destruct (Hst eq_refl) as [|H]; [done|].
    destruct t as [|e t]; [done|]. cbn [starts_slash] in H. cbn [skip_slashes]. rewrite H. pose proof (skip_slashes_shorter t). cbn [String.length]. lia. }
  induction fuel as [|fuel IH]; intros s t s' t' Hs Hst H Ht; (destruct (decide (t = ""%string)) as [->|Hne]; [by apply strip_empty in H|]); pose proof (Hone s t Hs Hst Hne) as H1;
    cbn [strip_rounds] in H; cbv zeta in H; destruct (skip_equal (skip_slashes s) (skip_slashes t)) as [s2 t2] eqn:E; [by injection H as <- <-|].
  destruct (go_on s2 t2) eqn:G; [|by injection H as <- <-]. destruct (skip_equal_spec _ _ _ _ E) as (w & Es & Et & _ & Hg). destruct (Hg G) as [_ Ht2].
  assert (String.length s2 + String.length t' <= String.length t2 + String.length s')%nat as H2.
  { apply (IH s2 t2 s' t'); try done. destruct (single_skip s Hs) as [Hk _]. rewrite Es in Hk. by apply single_tail in Hk. }
  apply (f_equal String.length) in Es, Et. rewrite string_length_app in Es, Et. lia.
Qed.
Lemma skip_suffix t : exists v, t = (v ++ skip_slashes t)%string.
Proof.
  induction t as [|c r [v Hv]]; [by exists ""%string|]. cbn [skip_slashes]. destruct (Ascii.eqb c slash); [|by exists ""%string].
  exists (String c v). change ((String c v ++ skip_slashes r)%string) with (String c (v ++ skip_slashes r)). by rewrite <- Hv.
Qed.
Lemma strip_suffix fuel : forall s t s' t', strip_rounds fuel s t = (s', t') -> exists v, t = (v ++ t')%string.
Proof.
  induction fuel as [|fuel IH]; intros s t s' t' H; cbn [strip_rounds] in H; cbv zeta in H; destruct (skip_equal (skip_slashes s) (skip_slashes t)) as [s2 t2] eqn:E.
  - injection H as _ <-. apply skip_suffix.
  - destruct (go_on s2 t2); [|injection H as _ <-; apply skip_suffix]. destruct (IH _ _ _ _ H) as [v Hv]. destruct (skip_equal_spec _ _ _ _ E) as (w & _ & Et & _).
    destruct (skip_suffix t) as [u Hu]. exists (u ++ w ++ v)%string. rewrite Hu at 1. rewrite Et, Hv. by rewrite !append_assoc_l.
Qed.
Lemma shorter_suffix b : forall q v r, (b ++ q = v ++ r)%string -> (String.length r <= String.length q)%nat -> exists y, q = (y ++ r)%string.
Proof.
  induction b as [|c b IH]; intros q v r H Hl; [by exists v|]. destruct v as [|e v].
  - change (("" ++ r)%string) with r in H. rewrite <- H in Hl. change ((String c b ++ q)%string) with (String c (b ++ q)) in Hl. cbn [String.length] in Hl. rewrite string_length_app in Hl. lia.
  - apply (IH q v r); [|done]. change (String c (b ++ q) = String e (v ++ r)) in H. by injection H.
Qed.
Lemma comps_longer c r : (length (comps r) <= length (comps (String c r)))%nat.
Proof.
  destruct (Ascii.eqb c slash) eqn:E; unfold comps; cbn [split]; rewrite E.
  - done.
  - destruct (split_cons r) as (w & l & ->). rewrite !filter_cons. destruct (decide (w <> ""%string)); rewrite decide_True by done; cbn [length]; lia.
Qed.
Lemma comps_suffix y r : (length (comps r) <= length (comps (y ++ r)))%nat.
Proof. induction y as [|c y IH]; [done|]. etrans; [exact IH|]. apply comps_longer. Qed.
Lemma comps_below b q : comps ((b ++ "/") ++ q) = comps b ++ comps q.
Proof.
  rewrite <- append_assoc_l. change (("/" ++ q)%string) with (String slash q). unfold comps. rewrite <- filter_app. induction b as [|c b IH].
  - done.
  - change ((String c b ++ String slash q)%string) with (String c (b ++ String slash q)). cbn [split]. destruct (Ascii.eqb c slash); [rewrite !filter_cons, !decide_False by naive_solver; exact IH|].
    destruct (split_cons b) as (w & l & E). rewrite E in IH |- *. assert (split (b ++ String slash q) = (w :: l) ++ split q) as ->; [|done].
    clear IH. revert w l E. induction b as [|e b IHb]; intros w l E; [by injection E as <- <-|]. change ((String e b ++ String slash q)%string) with (String e (b ++ String slash q)). cbn [split] in E |- *.
    destruct (Ascii.eqb e slash); [injection E as <- <-; destruct (split_cons b) as (w' & l' & E'); by rewrite (IHb _ _ E'), E'|].
    destruct (split_cons b) as (w' & l' & E'). rewrite (IHb _ _ E'). rewrite E' in E. by injection E as <- <-.
Qed.
Lemma transform_rewrites d path buf size : transform_symlink d path buf size = buf \/
  exists l p C P, strip_common buf path = (l, p) /\ comps buf = C ++ comps l /\ comps path = C ++ P /\ comps p = P /\ P <> [] /\ bare l /\ starts_slash buf = true /\ starts_slash (base d) = true /\
    baselen d <= Z.of_nat (String.length buf) - Z.of_nat (String.length l) /\ exists rest, bare rest /\ transform_symlink d path buf size = up_dirs (pred (length P)) rest /\
    forall dir, follow dir (comps rest) = follow dir (comps l).
Proof.
  unfold transform_symlink. destruct (starts_slash buf) eqn:Hbuf; [|by left]. destruct (starts_slash (base d)) eqn:Hbase; [|by left]. cbn [negb orb].
  destruct (strip_common buf path) as [l p] eqn:E. destruct (strip_spec _ _ _ _ _ E) as (Hl & C & H1 & H2). destruct (Z.ltb_spec (Z.of_nat (String.length buf) - Z.of_nat (String.length l)) (baselen d)) as [|Hlen]; [by left|].
  rewrite count_components_spec. destruct (Z.eqb_spec (lenZ (comps p)) 0) as [|Hk]; [by left|]. cbv zeta. case_match; [by left|]. right.
  assert (comps p <> []) as Hne by (intros Hn; by rewrite Hn in Hk). exists l, p, C, (comps p). split_and!; try done.
  replace (Z.to_nat (lenZ (comps p) - 1)) with (pred (length (comps p))) by (unfold lenZ; lia).
  destruct (Z.eqb_spec (Z.of_nat (String.length l)) 0) as [Hz|Hz].
  - assert (l = ""%string) as -> by (destruct l; [done|cbn in Hz; lia]). eexists. split; [|split; [reflexivity|]]; by destruct (_ =? 0).
  - by exists l.
Qed.

(** ** What the operations call *)

Lemma added_below d b p : base d = (b ++ "/")%string -> comps (added d p) = comps (base d) ++ comps p.
Proof.
  intros Hb. unfold added. rewrite Hb. set (q := if starts_slash p then _ else p).
  assert (comps q = comps p) as Hq.
  { unfold q. destruct p as [|c r]; [done|]. cbn [starts_slash]. destruct (Ascii.eqb_spec c slash) as [->|]; [|done]. rewrite comps_slash. replace (String.length (String slash r) - 1)%nat with (String.length r) by (cbn [String.length]; lia). cbn [String.substring].
    assert (String.substring 0 (String.length r) r = r) as ->; [|done]. induction r as [|e r IH]; [done|]. cbn. by rewrite IH. }
  assert (((b ++ "/") ++ q)%string <> ""%string) as Hne by (by destruct b). destruct (String.eqb_spec ((b ++ "/") ++ q) ""); [done|].
  rewrite comps_below, Hq. rewrite <- (append_nil_r (b ++ "/")), comps_below. change (comps "") with (@nil string). by rewrite app_nil_r.
Qed.
(** Programs that touch memory, and the next file system on some paths only. *)
Definition only_on (ps : list string) (a : action) : Prop := match a with AOp c => paths_of c = ps | AMem | AAssert _ | AFlatten _ _ => True | _ => False end.
Fixpoint keeps_to {A} (ps : list string) (m : io A) : Prop := match m with Ret _ => True | Act a k => only_on ps a /\ forall r, keeps_to ps (k r) end.
Lemma keeps_after {A B} ps (m : io A) (f : A -> io B) : keeps_to ps m -> (forall x, keeps_to ps (f x)) -> keeps_to ps (m ≫= f).
Proof. induction m as [x|a k IH]; intros Hm Hf; [apply Hf|]. destruct Hm as [Ha Hk]. split; [done|]. intros r. apply IH; [apply Hk|done]. Qed.
Lemma opt_path_map (f : string -> string) path : opt_path (f <$> path) = f <$> opt_path path.
Proof. by destruct path. Qed.
Lemma keeps_fs ps has c e : paths_of c = ps -> keeps_to ps (fs has c e).
Proof. intros <-. unfold fs. by destruct (has _). Qed.
Lemma keeps_added {A} d path (failed : Z -> A) body : (forall p, p = added d <$> path -> keeps_to (added d <$> opt_path path) (body p)) -> keeps_to (added d <$> opt_path path) (on_added d path failed body).
Proof.
  intros Hb. unfold on_added. destruct path as [p|]; cbn [subdir_addpath opt_path]; [|by apply Hb]. split; [done|]. intros [|]; [|done]. by apply Hb.
Qed.
Lemma keeps_added1 {A} d path (failed : Z -> A) body : keeps_to [added d path] (body (added d path)) -> keeps_to [added d path] (on_added1 d path failed body).
Proof. intros Hb. apply (keeps_added d (Some path)). by intros p ->. Qed.
Lemma keeps_added2 d p q body : keeps_to [added d p; added d q] (body (added d p) (added d q)) -> keeps_to [added d p; added d q] (on_added2 d p q body).
Proof. intros Hb. split; [done|]. intros [|]; [|done]. split; [done|]. by intros [|]. Qed.
Lemma keeps_plays {A} ps (m : io A) l x : keeps_to ps m -> plays m l x -> Forall (fun e => only_on ps (projT1 e)) l.
Proof. intros Hm Hp. induction Hp as [x|a k r l x _ _ IH]; [constructor|]. destruct Hm as [Ha Hk]. constructor; [done|]. by apply IH, Hk. Qed.
Lemma keeps_read_buf has path size off fi : keeps_to (opt_path path) (fuse_fs_read_buf has path size off fi).
Proof.
  unfold fuse_fs_read_buf. destruct (_ && _); [done|]. destruct (has o_read_buf); [split; [done|]; by intros [res buf]|]. split; [done|]. intros [|]; [|done]. split; [done|]. intros [|]; [|done].
  split; [done|]. by intros [res bytes].
Qed.
Lemma keeps_write_buf has path buf off fi : keeps_to (opt_path path) (fuse_fs_write_buf has path buf off fi).
Proof.
  assert (keeps_to (opt_path path) (flattened path buf off fi)) as Hflat.
  { split; [done|]. intros [|]; [|done]. split; [done|]. intros [res bytes]. simpl. destruct (res <=? 0); done. }
  unfold fuse_fs_write_buf. destruct (_ && _); [done|]. split; [done|]. intros ?. simpl. destruct (has o_write_buf); [done|]. destruct (bv_buf buf) as [|b [|b' l]]; [exact Hflat| |exact Hflat]. destruct (negb _); [done|exact Hflat].
Qed.
Ltac open_call := match goal with |- keeps_to _ ?m => let rec hd t := match t with ?f _ => hd f | _ => t end in let h := hd m in unfold h end.
Ltac next_call := cbv beta; open_call; match goal with |- keeps_to _ (fs ?h ?c ?e) => by apply (keeps_fs _ h c e) end.
Lemma oper_keeps d has c m : subdir_oper d has c = Some m -> keeps_to (added d <$> paths_of c) m.
Proof.
  destruct c; cbn [subdir_oper]; intros [= <-]; cbn [paths_of]; open_call;
    try (apply keeps_added; intros p ->; rewrite <- opt_path_map; first [apply keeps_read_buf|apply keeps_write_buf|next_call]);
    try (apply keeps_added1; next_call); try (apply keeps_added2; next_call).
  - apply keeps_added1, keeps_after; [next_call|by intros [err buf]].
  - apply keeps_added1, keeps_after; [next_call|done].
Qed.

(** ** The properties *)

(** Whatever is asked of the module, it asks of the next file system only what is below the base: every path it hands on has the components of the base before those of the path it was given. *)
Theorem calls_stay_below_base d b has c m l r : base d = (b ++ "/")%string -> subdir_oper d has c = Some m -> plays m l r ->
  Forall (fun e => match projT1 e with
    | AOp c' => comps <$> paths_of c' = (fun p => comps (base d) ++ comps p) <$> paths_of c
    | AMem | AAssert _ | AFlatten _ _ => True
    | _ => False
    end) l.
Proof.
  intros Hb Hm%oper_keeps Hp. eapply Forall_impl; [by eapply keeps_plays|]. intros [a x]. cbn [projT1]. destruct a; try done. cbn [only_on]. intros ->.
  rewrite <- list_fmap_compose. apply list_fmap_ext. intros _ p _. by apply (added_below d b).
Qed.
(** ** Runs *)

Example demo_link : transform_symlink {| base := "/srv/"; rellinks := true |} "/srv/a/b/link" "/srv/a/c/f" 4097 = "../c/f"%string.
Proof. reflexivity. Qed.
(** Slashes before the name make up for the length of the base: a link that leads out of the
    base becomes one that leads out of the mount. *)
Example demo_slashes : transform_symlink {| base := "/ab/"; rellinks := true |} "/ab/link" "////x" 4097 = "../x"%string.
Proof. reflexivity. Qed.
(** An offset past 2^31 comes back as an error. *)
Example demo_lseek : plays (subdir_lseek {| base := "/srv/"; rellinks := false |} (fun _ => true) "/f" 0 0 (fi_flagged 0))
  [did AMem true; did (AOp (FLseek "/srv/f" 0 0 (fi_flagged 0))) 3221225472] (- 1073741824).
Proof. apply (plays_act AMem _ true); [done|]. apply (plays_act (AOp (FLseek "/srv/f" 0 0 (fi_flagged 0))) _ 3221225472); [done|]. apply plays_ret. Qed.
