(* ===== verification/HlPages.v ===== *)
(** * lib/fuse.c: a directory read page by page

    The kernel reads a directory from offset 0 and goes on from the offset of the last
    entry it got, until a reply is empty.  A file system that fills in its names without
    offsets is asked once: the handle keeps the names, and every page is cut from them. *)
From S2P Require Import Prelude Errno Sys LlDirent HlLocks HlTable HlNodes HlSpace HlRequests.

(** ** A request on one directory handle *)

Section Serve.
(** What the file system's [readdir] does, and the path of the directory. *)
Variable run : dir_run.
Variable path : string.
Fixpoint served {A} (m : io A) (dh : fuse_dh) : option (A * fuse_dh * list hl_reply) :=
  match m with
  | Ret x => Some (x, dh, [])
  | Act a k =>
      match a return (result a -> io A) -> option (A * fuse_dh * list hl_reply) with
      | AMem => fun k => served (k true) dh
      | AFind _ _ => fun k => served (k None) dh
      | AHandle _ => fun k => served (k dh) dh
      | ALockDir _ => fun k => served (k dh) dh
      | AUnlockDir _ dh' => fun k => served (k tt) dh'
      | AReply r => fun k => '(x, dh', l) ← served (k 0) dh; Some (x, dh', r :: l)
      | AGet a => fun k => served (k (inr (a, (path, None)))) dh
      | AFree _ => fun k => served (k tt) dh
      | AOp c =>
          match c return (fs_result c -> io A) -> option (A * fuse_dh * list hl_reply) with
          | FReaddir _ _ _ _ => fun k => served (k run) dh
          | _ => fun _ => None
          end
      | _ => fun _ => None
      end k
  end.
Lemma serve_bind {A B} (m : io A) (f : A -> io B) : forall dh x dh' l, served m dh = Some (x, dh', l) ->
  served (m ≫= f) dh = '(y, dh'', l') ← served (f x) dh'; Some (y, dh'', l ++ l').
Proof.
  induction m as [x|a k IH]; intros dh y dh' l H.
  - injection H as <- <- <-. cbn. by destruct (served (f x) dh) as [[[? ?] ?]|].
  - change (served (Act a k ≫= f) dh) with (served (Act a (fun r => k r ≫= f)) dh). destruct a; try done; cbn [served] in H |- *; try (by apply IH).
    + destruct c; try done. by apply IH.
    + destruct (served (k 0) dh) as [[[x' d'] l']|] eqn:E; [|done]. cbn in H. injection H as <- <- <-. rewrite (IH 0 dh x' d' l' E). by destruct (served (f x') d') as [[[? ?] ?]|].
Qed.
Lemma serve_silent {A B} (m : io A) (f : A -> io B) dh x dh' : served m dh = Some (x, dh', []) -> served (m ≫= f) dh = served (f x) dh'.
Proof. intros H. rewrite (serve_bind m f dh x dh' [] H). by destruct (served (f x) dh') as [[[? ?] ?]|]. Qed.
Lemma serve_ret {A} (x : A) dh : served (mret x) dh = Some (x, dh, []).
Proof. done. Qed.
End Serve.

(** ** The entries of a page *)

Definition record_len (de : dir_entry) : Z := FUSE_REC_ALIGN (FUSE_NAME_OFFSET + strlen (de_name de)).
Definition record (off : Z) (de : dir_entry) : list Z :=
  dirent_bytes (st_ino (de_stat de)) off (st_mode (de_stat de)) (de_name de) (record_len de - (FUSE_NAME_OFFSET + strlen (de_name de))).
Fixpoint records (pos : Z) (l : list dir_entry) : list Z := match l with [] => [] | de :: l => record (pos + 1) de ++ records (pos + 1) l end.
(** How many records fit. *)
Fixpoint fit (room : Z) (l : list dir_entry) : nat :=
  match l with [] => 0 | de :: l => if room <? record_len de then 0 else S (fit (room - record_len de) l) end.
Definition dirent_at (off : Z) (de : dir_entry) : dirent :=
  {| d_ino := st_ino (de_stat de); d_off := off; d_type := dirent_type (st_mode (de_stat de)) `mod` 2 ^ 32; d_name := c_str (de_name de) |}.
Fixpoint dirents (pos : Z) (l : list dir_entry) : list dirent := match l with [] => [] | de :: l => dirent_at (pos + 1) de :: dirents (pos + 1) l end.
Definition proper_entry (de : dir_entry) : Prop := in_u 64 (st_ino (de_stat de)) /\ strlen (de_name de) < 2 ^ 32.

Lemma record_len_spec de : 24 <= record_len de /\ FUSE_NAME_OFFSET + strlen (de_name de) <= record_len de.
Proof.
  unfold record_len. pose proof (strlen_nonneg (de_name de)). pose proof (rec_align_spec (FUSE_NAME_OFFSET + strlen (de_name de)) ltac:(unfold FUSE_NAME_OFFSET; lia)). unfold FUSE_NAME_OFFSET in *. lia.
Qed.
Lemma record_length off de : lenZ (record off de) = record_len de.
Proof. pose proof (record_len_spec de). unfold record. rewrite dirent_bytes_length by lia. unfold FUSE_NAME_OFFSET. lia. Qed.
Lemma records_app l : forall pos l', records pos (l ++ l') = records pos l ++ records (pos + lenZ l) l'.
Proof.
  induction l as [|de l IH]; intros pos l'; [cbn; by rewrite Z.add_0_r|]. cbn [app records]. rewrite IH, <- (assoc_L (++)), lenZ_cons. do 3 f_equal. lia.
Qed.
Lemma dirents_app l : forall pos l', dirents pos (l ++ l') = dirents pos l ++ dirents (pos + lenZ l) l'.
Proof. induction l as [|de l IH]; intros pos l'; [cbn; by rewrite Z.add_0_r|]. cbn [app dirents]. rewrite IH, lenZ_cons. do 3 f_equal. lia. Qed.
Lemma dirents_last l : forall pos, l <> [] -> exists ds d, dirents pos l = ds ++ [d] /\ d_off d = pos + lenZ l.
Proof.
  induction l as [|de l IH]; intros pos Hne; [done|]. destruct l as [|de' l].
  - exists [], (dirent_at (pos + 1) de). by split.
  - destruct (IH (pos + 1) ltac:(done)) as (ds & d & E & Hd). exists (dirent_at (pos + 1) de :: ds), d. split; [change (dirents pos (de :: de' :: l)) with (dirent_at (pos + 1) de :: dirents (pos + 1) (de' :: l)); by rewrite E|].
    rewrite Hd, !lenZ_cons. lia.
Qed.
Lemma parse_records l : forall fuel pos, Forall proper_entry l -> 0 <= pos -> pos + lenZ l < 2 ^ 64 -> (length l < fuel)%nat -> parse_dirents fuel (records pos l) = dirents pos l.
Proof.
  induction l as [|de l IH]; intros fuel pos Hl Hpos Hbig Hf; [by destruct fuel|]. destruct fuel as [|fuel]; [cbn in Hf; lia|]. apply Forall_cons in Hl as [[Hino Hname] Hl].
  rewrite lenZ_cons in Hbig. pose proof (lenZ_nonneg l). pose proof (record_len_spec de). cbn [parse_dirents records]. unfold record at 1. rewrite parse_dirent_cons; try done; [|unfold in_u; lia|lia|unfold record_len, FUSE_NAME_OFFSET; lia].
  rewrite IH; [done|done|lia|lia|cbn in Hf; lia].
Qed.

(** ** One page *)

Fixpoint dir_listing (l : list (string * stat)) : dir_run :=
  match l with [] => DirDone 0 | (nm, st) :: l => DirFill nm (Some st) 0 0 (fun stop => if stop then DirDone 0 else dir_listing l) end.

Section Pages.
Variable cf : hl_config.
Variable has : fs_op -> bool.
Variable l : list (string * stat).
Variable path : string.
Notation served := (served (dir_listing l) path).

Definition entry_for (e : string * stat) : dir_entry := {| de_name := e.1; de_stat := if cf_use_ino cf then e.2 else with_ino FUSE_UNKNOWN_INO e.2; de_flags := 0 |}.
Lemma rounds_spec es : forall pos dh, 0 <= dh_needlen dh - dh_len dh ->
  list_rounds cf false es pos dh = mret (0, set_contents (dh_contents dh ++ records pos (take (fit (dh_needlen dh - dh_len dh) es) es)) dh).
Proof.
  induction es as [|de es IH]; intros pos dh Hroom; cbn [list_rounds fit]; [cbn; rewrite app_nil_r; by destruct dh|].
  change (list_entry cf false de (pos + 1) dh) with (mret (M := io) (A := Z + bool * fuse_dh) (inr (add_record (fun rem => fuse_add_direntry (Some tt) rem (de_name de) (de_stat de) (pos + 1)) dh))).
  unfold add_record, fuse_add_direntry. fold (record_len de). pose proof (record_len_spec de).
  destruct (Z.ltb_spec (dh_needlen dh - dh_len dh) (record_len de)) as [Hlt|Hge].
  - destruct (Z.ltb_spec (dh_needlen dh) (dh_len dh + record_len de)); [|lia]. cbn. rewrite app_nil_r. by destruct dh.
  - destruct (Z.ltb_spec (dh_needlen dh) (dh_len dh + record_len de)); [lia|]. fold (record (pos + 1) de). set (dh1 := set_contents (dh_contents dh ++ record (pos + 1) de) dh).
    assert (dh_len dh1 = dh_len dh + record_len de) as Hl1 by (unfold dh_len, dh1; cbn [dh_contents set_contents]; by rewrite lenZ_app, record_length).
    etrans; [apply (IH (pos + 1) dh1); rewrite Hl1; change (dh_needlen dh1) with (dh_needlen dh); lia|]. rewrite Hl1. change (dh_needlen dh1) with (dh_needlen dh). rewrite Z.sub_add_distr.
    cbn [take records]. unfold dh1. cbn [dh_contents set_contents]. by rewrite <- (assoc_L (++)).
Qed.
Lemma extend_spec dh : exists s, forall d0, served (extend_contents (dh_needlen dh) dh) d0 = Some ((true, set_sizes s (dh_needlen dh) dh), d0, []).
Proof.
  unfold extend_contents. destruct (_ <? _); [by eexists|]. exists (dh_size dh). by destruct dh.
Qed.
Lemma from_list_spec off dh : 0 <= off <= lenZ (dh_first dh) -> 0 <= dh_needlen dh ->
  exists dh', (forall d0, served (readdir_fill_from_list cf off 0 dh) d0 = Some ((0, dh'), d0, [])) /\ dh_first dh' = dh_first dh /\ dh_filled dh' = dh_filled dh /\
    let rest := drop (Z.to_nat off) (dh_first dh) in dh_contents dh' = records off (take (fit (dh_needlen dh) rest) rest).
Proof.
  intros Hoff Hneed. destruct (extend_spec (set_contents [] dh)) as [s Hs]. change (dh_needlen (set_contents [] dh)) with (dh_needlen dh) in Hs.
  eexists. split; [|split; [|split]].
  - intros d0. unfold readdir_fill_from_list. rewrite (serve_silent _ _ _ _ _ _ _ (Hs d0)). cbv beta iota. cbn [negb]. cbn [dh_first set_sizes set_contents].
    assert (Z.max 0 (Z.min off (lenZ (dh_first dh))) = off) as -> by lia. change (has_flag 0 READDIR_PLUS) with false.
    rewrite rounds_spec; [reflexivity|]. change (0 <= dh_needlen dh - 0). lia.
  - done.
  - done.
  - cbn [dh_contents set_contents set_sizes dh_needlen app]. change (dh_len _) with 0. by rewrite Z.sub_0_r.
Qed.
Lemma fill_spec (st : stat) nm dh : exists dh', (forall d0, served (fill_dir cf nm (Some st) 0 0 dh) d0 = Some ((false, dh'), d0, [])) /\
  dh_first dh' = dh_first dh ++ [entry_for (nm, st)] /\ dh_filled dh' = true /\ dh_contents dh' = dh_contents dh /\ dh_needlen dh' = dh_needlen dh /\ dh_error dh' = dh_error dh.
Proof.
  unfold fill_dir, entry_for. cbn [fst snd]. destruct (cf_use_ino cf); [by eexists|]. destruct (cf_readdir_ino cf); by eexists.
Qed.
Lemma listing_spec es : forall dh, exists dh', (forall d0, served (run_readdir (fill_dir cf) (dir_listing es) dh) d0 = Some ((0, dh'), d0, [])) /\
  dh_first dh' = dh_first dh ++ map entry_for es /\ dh_filled dh' = (dh_filled dh || negb (bool_decide (es = []))) /\ dh_contents dh' = dh_contents dh /\ dh_needlen dh' = dh_needlen dh /\ dh_error dh' = dh_error dh.
Proof.
  induction es as [|[nm st] es IH]; intros dh; cbn [dir_listing run_readdir map].
  - exists dh. rewrite app_nil_r, bool_decide_true, orb_false_r by done. done.
  - destruct (fill_spec st nm dh) as (dh1 & H1 & E1 & E2 & E3 & E4 & E5). destruct (IH dh1) as (dh' & H & F1 & F2 & F3 & F4 & F5). exists dh'.
    split; [intros d0; rewrite (serve_silent _ _ _ _ _ _ _ (H1 d0)); exact (H d0)|].
    split_and!; try congruence; [by rewrite F1, E1, <- (assoc_L (++))|]. rewrite F2, E2. cbn [orb]. by rewrite (bool_decide_false (_ :: _ = [])), orb_true_r by done.
Qed.
Lemma nullok_spec ino d0 : exists p, served (get_path_nullok cf ino) d0 = Some (inr p, d0, []).
Proof. unfold get_path_nullok. destruct (cf_nullpath_ok cf); [by exists None|]. by eexists. Qed.
Lemma readdir_fill_spec ino size dh : has o_readdir = true ->
  exists dh', (forall fi d0, served (readdir_fill cf has ino size 0 fi 0 dh) d0 = Some ((0, dh'), d0, [])) /\
    dh_first dh' = map entry_for l /\ dh_filled dh' = negb (bool_decide (l = [])) /\ dh_contents dh' = [] /\ dh_needlen dh' = u32 size.
Proof.
  intros Hh. set (dh0 := set_filled false (set_sizes (dh_size dh) (u32 size) (set_error 0 (set_contents [] (set_first [] dh))))). destruct (listing_spec l dh0) as (dh' & H & E1 & E2 & E3 & E4 & E5).
  exists dh'. split; [|by split_and!]. intros fi d0. unfold readdir_fill. rewrite Hh. destruct (nullok_spec ino d0) as [p Hp]. rewrite (serve_silent _ _ _ _ _ _ _ Hp). cbv beta iota zeta. fold dh0.
  assert (served (fuse_fs_readdir has (npath p) 0 fi 0) d0 = Some (dir_listing l, d0, [])) as Hrun by (unfold fuse_fs_readdir, fs; cbn [op_of]; by rewrite Hh).
  rewrite (serve_silent _ _ _ _ _ _ _ Hrun). change (has_flag 0 READDIR_PLUS) with false. cbv iota. rewrite (serve_silent _ _ _ _ _ _ _ (H d0)). cbv beta iota zeta.
  change (0 =? 0) with true. cbv iota. rewrite E5. change (dh_error dh0) with 0. change (0 =? 0) with true. cbv iota. by destruct p.
Qed.
Lemma common_spec ino size off llfi dh dh1 dh2 : (let dh := if off =? 0 then set_filled false dh else dh in forall d fi,
    served (if dh_filled dh then mret (0, dh) else readdir_fill cf has ino size off fi 0 dh) d = Some ((0, dh1), d, [])) ->
  (forall d, served (if dh_filled dh1 then readdir_fill_from_list cf off 0 (set_sizes (dh_size dh1) (u32 size) dh1) else mret (0, dh1)) d = Some ((0, dh2), d, [])) ->
  served (fuse_lib_readdir cf has ino size off llfi) dh = Some (tt, dh2, [ReplyBuf (dh_contents dh2)]).
Proof.
  intros H1 H2. unfold fuse_lib_readdir, fuse_readdir_common. assert (served (get_dirhandle llfi) dh = Some ((fi_fh llfi, dir_fi dh), dh, [])) as Hd by done.
  rewrite (serve_silent _ _ _ _ _ _ _ Hd). cbv beta iota zeta. assert (served (act (ALockDir (fi_fh llfi))) dh = Some (dh, dh, [])) as Hl by done. rewrite (serve_silent _ _ _ _ _ _ _ Hl).
  cbv beta iota zeta. rewrite (serve_silent _ _ _ _ _ _ _ (H1 dh (dir_fi dh))). cbv beta iota zeta. change (0 =? 0) with true. cbn [andb].
  by rewrite (serve_silent _ _ _ _ _ _ _ (H2 dh)).
Qed.
Lemma page_first ino size llfi dh : has o_readdir = true -> 0 <= u32 size -> exists dh', served (fuse_lib_readdir cf has ino size 0 llfi) dh = Some (tt, dh', [ReplyBuf (dh_contents dh')]) /\
  dh_first dh' = map entry_for l /\ dh_filled dh' = negb (bool_decide (l = [])) /\ dh_contents dh' = records 0 (take (fit (u32 size) (map entry_for l)) (map entry_for l)).
Proof.
  intros Hh Hsize. destruct (readdir_fill_spec ino size (set_filled false dh) Hh) as (dh1 & H1 & E1 & E2 & E3 & E4).
  assert (exists dh2, (forall d, served (if dh_filled dh1 then readdir_fill_from_list cf 0 0 (set_sizes (dh_size dh1) (u32 size) dh1) else mret (0, dh1)) d = Some ((0, dh2), d, [])) /\
    dh_first dh2 = map entry_for l /\ dh_filled dh2 = negb (bool_decide (l = [])) /\ dh_contents dh2 = records 0 (take (fit (u32 size) (map entry_for l)) (map entry_for l))) as (dh2 & H2 & F).
  { rewrite E2. destruct (decide (l = [])) as [Hl|Hl].
    - rewrite bool_decide_true by done. cbn [negb]. exists dh1. rewrite E2, bool_decide_true by done. split; [done|]. split; [done|]. split; [done|]. by rewrite E3, Hl.
    - rewrite bool_decide_false by done. cbn [negb]. destruct (from_list_spec 0 (set_sizes (dh_size dh1) (u32 size) dh1)) as (dh2 & H2 & F1 & F2 & F3); [change (dh_first _) with (dh_first dh1); pose proof (lenZ_nonneg (dh_first dh1)); lia|done|].
      exists dh2. split; [done|]. split; [by rewrite F1|]. split; [rewrite F2; change (dh_filled _) with (dh_filled dh1); by rewrite E2, bool_decide_false|]. rewrite F3. cbn [Z.to_nat drop dh_needlen set_sizes dh_first]. by rewrite E1. }
  exists dh2. split; [|done]. apply (common_spec ino size 0 llfi dh dh1 dh2); [|exact H2]. change (0 =? 0) with true. cbv iota zeta. intros d fi. change (dh_filled (set_filled false dh)) with false. apply H1.
Qed.
Lemma page_next ino size off llfi dh : dh_filled dh = true -> 0 < off <= lenZ (dh_first dh) -> 0 <= u32 size -> exists dh', served (fuse_lib_readdir cf has ino size off llfi) dh = Some (tt, dh', [ReplyBuf (dh_contents dh')]) /\
  dh_first dh' = dh_first dh /\ dh_filled dh' = true /\ let rest := drop (Z.to_nat off) (dh_first dh) in dh_contents dh' = records off (take (fit (u32 size) rest) rest).
Proof.
  intros Hf Hoff Hsize. destruct (from_list_spec off (set_sizes (dh_size dh) (u32 size) dh)) as (dh2 & H2 & F1 & F2 & F3); [change (dh_first _) with (dh_first dh); lia|done|].
  exists dh2. split; [|split; [done|split; [by rewrite F2|done]]]. apply (common_spec ino size off llfi dh dh dh2).
  - destruct (Z.eqb_spec off 0); [lia|]. cbv zeta. intros d fi. by rewrite Hf.
  - rewrite Hf. exact H2.
Qed.
End Pages.

(** ** All the pages *)

(** What the kernel does with a directory it has opened. *)
Section Reading.
Variable cf : hl_config.
Variable has : fs_op -> bool.
Variable run : dir_run.
Variable path : string.
Fixpoint read_pages (fuel : nat) (ino size off : Z) (llfi : fuse_file_info) (dh : fuse_dh) : option (list dirent) :=
  match fuel with
  | O => None
  | S fuel =>
      match served run path (fuse_lib_readdir cf has ino size off llfi) dh with
      | Some (_, dh', [ReplyBuf bytes]) =>
          let ds := parse_dirents (S (length bytes)) bytes in
          match last ds with
          | None => Some []
          | Some d => rest ← read_pages fuel ino size (d_off d) llfi dh'; Some (ds ++ rest)
          end
      | _ => None
      end
  end.
End Reading.

Lemma records_many l : forall pos, (length l <= length (records pos l))%nat.
Proof.
  induction l as [|de l IH]; intros pos; [done|]. cbn [records length]. rewrite length_app. specialize (IH (pos + 1)). pose proof (record_length (pos + 1) de) as Hl. pose proof (record_len_spec de) as [Hr _]. unfold lenZ in Hl. lia.
Qed.
Lemma parse_page pos l : Forall proper_entry l -> 0 <= pos -> pos + lenZ l < 2 ^ 64 -> parse_dirents (S (length (records pos l))) (records pos l) = dirents pos l.
Proof. intros Hl Hp Hb. apply parse_records; try done. pose proof (records_many l pos). lia. Qed.
(** A page, and what is read after it. *)
Lemma page_then cf has run path ino size off llfi dh dh' fuel rest k : served run path (fuse_lib_readdir cf has ino size off llfi) dh = Some (tt, dh', [ReplyBuf (dh_contents dh')]) ->
  dh_contents dh' = records off (take k rest) -> Forall proper_entry rest -> 0 <= off -> off + lenZ rest < 2 ^ 64 -> (rest <> [] -> (0 < k)%nat) ->
  (rest <> [] -> let n := lenZ (take k rest) in read_pages cf has run path fuel ino size (off + n) llfi dh' = Some (dirents (off + n) (drop k rest))) ->
  read_pages cf has run path (S fuel) ino size off llfi dh = Some (dirents off rest).
Proof.
  intros Hs Hc Hp H0 Hb Hk Hrest. cbn [read_pages]. rewrite Hs. cbv zeta. assert (lenZ (take k rest) <= lenZ rest) as Hle by (unfold lenZ; rewrite length_take; lia).
  rewrite Hc, parse_page; [|by apply Forall_take|done|lia].
  destruct (decide (rest = [])) as [->|Hne]; [by rewrite take_nil|]. specialize (Hk Hne). specialize (Hrest Hne). cbv zeta in Hrest.
  assert (take k rest <> []) as Ht by (destruct rest; [done|]; destruct k; [lia|done]). destruct (dirents_last (take k rest) off Ht) as (ds & d & E & Hd). rewrite E, last_snoc, Hd, Hrest. cbn [mbind option_bind].
  rewrite <- E, <- dirents_app, take_drop. done.
Qed.
Lemma fit_some room rest : Forall (fun de => record_len de <= room) rest -> rest <> [] -> (0 < fit room rest)%nat.
Proof. intros Hr Hne. destruct rest as [|de rest]; [done|]. apply Forall_cons in Hr as [Hr _]. cbn [fit]. destruct (Z.ltb_spec room (record_len de)); lia. Qed.
Lemma later_pages cf has l path ino size llfi fuel : forall off dh, dh_filled dh = true -> 0 < off <= lenZ (dh_first dh) -> Forall proper_entry (dh_first dh) -> lenZ (dh_first dh) < 2 ^ 64 ->
  0 <= u32 size -> Forall (fun de => record_len de <= u32 size) (dh_first dh) -> (length (drop (Z.to_nat off) (dh_first dh)) < fuel)%nat ->
  read_pages cf has (dir_listing l) path fuel ino size off llfi dh = Some (dirents off (drop (Z.to_nat off) (dh_first dh))).
Proof.
  induction fuel as [|fuel IH]; intros off dh Hfill Hoff Hp Hb Hsize Hfits Hf; [lia|]. set (rest := drop (Z.to_nat off) (dh_first dh)) in *.
  destruct (page_next cf has l path ino size off llfi dh Hfill Hoff Hsize) as (dh' & Hs & E1 & E2 & E3). cbv zeta in E3. fold rest in E3.
  assert (off + lenZ rest = lenZ (dh_first dh)) as Hlen by (unfold rest, lenZ; rewrite length_drop; unfold lenZ in Hoff; lia).
  apply (page_then _ _ _ _ _ _ _ _ _ dh' fuel rest (fit (u32 size) rest)); try done; [by apply Forall_drop|lia|lia|intros Hne; apply fit_some; [by apply Forall_drop|done]|].
  intros Hne. cbv zeta. set (n := lenZ (take _ rest)). assert (0 < fit (u32 size) rest)%nat as Hk by (apply fit_some; [by apply Forall_drop|done]).
  assert (0 < n <= lenZ rest) as Hn by (unfold n, lenZ; rewrite length_take; destruct rest; [done|]; cbn [length]; lia).
  assert (drop (Z.to_nat (off + n)) (dh_first dh') = drop (fit (u32 size) rest) rest) as Ed.
  { rewrite E1. unfold rest at 2. rewrite drop_drop, Z2Nat.inj_add by lia. unfold n, lenZ. rewrite Nat2Z.id, length_take.
    destruct (decide (length rest <= fit (u32 size) rest)%nat); [|f_equal; lia]. rewrite !drop_ge; [done|..]; unfold rest in *; rewrite ?length_drop in *; lia. }
  rewrite <- Ed. apply IH; rewrite ?E1; try done; [lia|]. rewrite <- E1, Ed, length_drop. unfold lenZ in Hn. lia.
Qed.

(** ** The property *)

(** Three names, of which two fit into a page. *)
Definition demo_names : list (string * stat) := [("."%string, zero_stat); ("file"%string, zero_stat); ("other"%string, zero_stat)].
Definition demo_dh : fuse_dh := new_dh 1.
Example demo_pages : (length <$> (served (dir_listing demo_names) "/" (fuse_lib_readdir demo_hl_config (fun _ => true) 1 64 0 (fi_flagged 0)) demo_dh ≫= fun r => match r.2 with [ReplyBuf b] => Some (parse_dirents 9 b) | _ => None end)) = Some 2%nat.
Proof. vm_compute. reflexivity. Qed.
