(* ===== verification/HlSections.v ===== *)
(** * lib/fuse.c: the parts of the requests under the library's lock

    What the actions of [HlRequests] do to the library: [section_of] gives the program of
    those that are not calls of [HlPathSystem].  None of them moves a node, counts or locks
    anything, so that they leave what [system_ok] says. *)
From Stdlib Require Import Ascii.
From S2P Require Import Prelude Errno Sys HlLocks HlTable HlNodes HlTree HlNames HlSpace HlPaths HlPathFacts HlPathLocks HlPathCalls HlPathSystem HlRequests HlTidy.

(** [%08x] of an [unsigned]. *)
Definition hex_digit (d : Z) : ascii := ascii_of_nat (Z.to_nat (if d <? 10 then 48 + d else 87 + d)).
Fixpoint hex (digits : nat) (v : Z) (rest : string) : string :=
  match digits with O => rest | S digits => hex digits (v / 16) (String (hex_digit (v `mod` 16)) rest) end.
Definition fuse_hidden (ino ctr : Z) : string := (".fuse_hidden" ++ hex 8 (u32 ino) (hex 8 ctr ""))%string.

Section Sections.
Variable mem : nat -> bool.
Definition at_node_in {X} (ino : Z) (f : timespec -> node -> option (X * node)) : hl X :=
  with_lock "lock" (
    p ← get_node ino; n ← deref p; s ← pget; '(x, n') ← or_fault (f (clock s) n); _ ← update p (fun _ => n'); mret x).
Definition find_in (dir : Z) (nm : string) : hl (option node) :=
  with_lock "lock" (r ← lookup_node dir nm; match r with Some p => n ← deref p; mret (Some n) | None => mret None end).
Definition deref_in (p : option nat) : hl node := p ← or_fault p; deref p.
(** The call in [fuse_lib_unlink] does not take the lock. *)
Definition peek_in (a : path_ask) : hl (Z + string) :=
  r ← try_get_path mem a false; mret (match r with inl e => inl e | inr g => inr g.1 end).
(** There are more counter values than nodes, so that one of the names is free. *)
Fixpoint hidden_names (fuel : nat) (dir ino : Z) : hl string :=
  match fuel with
  | O => pstuck "fuel"
  | S fuel =>
      s ← pget; let ctr' := u32 (hidectr s + 1) in
      _ ← pmodify (set_ids (next_ptr s) (ctr s) (fuse_generation s) ctr');
      let nn := fuse_hidden ino ctr' in
      r ← lookup_node dir nn; match r with Some _ => hidden_names fuel dir ino | None => mret nn end
  end.
Definition hidden_in (dir : Z) (oldname : string) : hl (option (string * (Z + string))) :=
  with_lock "lock" (
    r ← lookup_node dir oldname;
    match r with
    | None => mret None
    | Some p =>
        n ← deref p; s ← pget; nn ← hidden_names (S (base.size (nodes s))) dir (nodeid n);
        path ← peek_in {| ask_ino := dir; ask_name := Some nn; ask_write := false |}; mret (Some (nn, path))
    end).
Definition dot_in (ino : Z) : hl (option nat) :=
  with_lock "lock" (
    r ← get_node_nocheck ino;
    match r with Some p => n ← deref p; _ ← update p (set_refctr (refctr n + 1)); mret (Some p) | None => mret None end).
Definition dotdot_in (ino : Z) : hl Z :=
  with_lock "lock" (p ← get_node ino; n ← deref p; pp ← or_fault (parent n); m ← deref pp; mret (nodeid m)).
Definition undot_in (p : nat) : hl unit := with_lock "lock" (unref_node mem p).
Definition section_of (a : action) : option (hl (result a)) :=
  match a return option (hl (result a)) with
  | ANode X ino f => Some (at_node_in ino f)
  | AFind d nm => Some (find_in d nm)
  | ADeref p => Some (deref_in p)
  | APeek a => Some (peek_in a)
  | AHidden d nm => Some (hidden_in d nm)
  | ADot ino => Some (dot_in ino)
  | ADotDot ino => Some (dotdot_in ino)
  | AUndot p => Some (undot_in p)
  | _ => None
  end.

(** ** Changes of a node that leave its place *)

Definition relit (m m' : gmap nat node) : Prop := forall p, match m !! p, m' !! p with Some n, Some n' => light n n' | None, None => True | _, _ => False end.
Lemma relit_update m p n n' : m !! p = Some n -> light n n' -> relit m (<[p := n']> m).
Proof.
  intros Hn Hl q. destruct (decide (q = p)) as [->|Hne]; [by rewrite Hn, lookup_insert_eq|]. rewrite lookup_insert_ne by done. by destruct (m !! q).
Qed.
Lemma relit_keys m m' : relit m m' -> same_keys m m'.
Proof. intros H p. specialize (H p). destruct (m !! p), (m' !! p); try done. by destruct H as (E1 & E2 & E3 & _). Qed.
Lemma relit_back m m' p n : relit m m' -> m !! p = Some n -> exists n', m' !! p = Some n' /\ light n n'.
Proof. intros H Hn. specialize (H p). rewrite Hn in H. destruct (m' !! p) as [n'|]; [by exists n'|done]. Qed.
Lemma relit_some m m' p n' : relit m m' -> m' !! p = Some n' -> exists n, m !! p = Some n /\ light n n'.
Proof. intros H Hn. specialize (H p). rewrite Hn in H. destruct (m !! p) as [n|]; [by exists n|done]. Qed.
Lemma relit_ready m' s : relit (nodes s) m' -> ready s -> ready (set_nodes m' s).
Proof.
  intros H (Hs & Hr & rank & Hrk). pose proof (relit_keys _ _ H) as Hk. split; [|split].
  - by apply (shape_ext [] [] s).
  - intros p n' Hn'. destruct (relit_some _ _ p n' H Hn') as (n & Hn & _ & _ & _ & E1 & E2 & _). unfold lookups_hold. rewrite E1, E2.
    assert (children (set_nodes m' s) p = children s p) as ->; [|by apply (Hr p n)]. apply children_ext; [done|]. intros c _. by apply (same_keys_parent (nodes s)).
  - exists rank. by apply (ranked_same rank s).
Qed.
Lemma relit_view m' s : relit (nodes s) m' -> ready s -> view (set_nodes m' s) = view s.
Proof.
  intros H Hr. pose proof (relit_ready m' s H Hr) as (Hs' & _). destruct Hr as (Hs & _). pose proof (relit_keys _ _ H) as Hk.
  destruct (view_sees s Hs) as [V1 V2]. apply (sees_eq None (set_nodes m' s)); [by apply view_sees|]. split.
  - intros par nm ino. rewrite V1. symmetry. by apply (entry_same_keys None s (set_nodes m' s)).
  - intros ino v. rewrite V2. split; intros (p & n & Hn & E1 & E2).
    + destruct (relit_back _ _ p n H Hn) as (n' & Hn' & F1 & _ & _ & _ & F2 & _). exists p, n'. split_and!; [done|congruence..].
    + destruct (relit_some _ _ p n H Hn) as (n' & Hn' & F1 & _ & _ & _ & F2 & _). exists p, n'. split_and!; [done|congruence..].
Qed.
Lemma relit_order m' s C : relit (nodes s) m' -> in_order s C -> in_order (set_nodes m' s) C.
Proof.
  intros H [Hr (G & HG & Hw & Hl) Hh]. pose proof (relit_keys _ _ H) as Hk. split; [by apply relit_ready| |].
  - exists G. split; [done|]. split.
    + eapply Forall_impl; [exact Hw|]. intros g ((p & n & Hn & Hid & Hst) & Hg & Hx). destruct (relit_back _ _ p n H Hn) as (n' & Hn' & E & _). split; [|split].
      * exists p, n'. split; [done|]. split; [congruence|by apply (steps_same (nodes s))].
      * rewrite Hg. symmetry. by apply given_same.
      * intros x Ex. by apply (same_keys_some (nodes s)), Hx.
    + intros x n' Hn'. destruct (relit_some _ _ x n' H Hn') as (n & Hn & _ & _ & _ & _ & _ & ->). by apply Hl.
  - eapply Forall_impl; [exact Hh|]. intros c [H1 H2]. unfold held_up. rewrite (relit_view m' s H Hr). split; [done|]. intros x Hx.
    destruct (H2 x Hx) as (n & Hn & Hkd). destruct (relit_back _ _ x n H Hn) as (n' & Hn' & E & _). exists n'. split; [done|by rewrite E].
Qed.
(** A state with the same queue and mutexes is as well ordered. *)
Lemma order_system s s' held : system_ok s held -> (forall C, in_order s C -> in_order s' C) -> lockq s' = lockq s -> owned s' = owned s -> system_ok s' held.
Proof. intros [H1 H2 H3 H4] Ho Eq Eo. split; rewrite ?Eq, ?Eo; auto. Qed.

Lemma inside s held : system_ok s held -> in_order (set_owned ({["lock"]} ∪ owned s) s) (granted_in (lockq s) ++ held).
Proof. intros [Ho _ _ _]. by apply order_owned. Qed.
Lemma light_update_ok s held p n n' : system_ok s held -> nodes s !! p = Some n -> light n n' -> system_ok (set_nodes (<[p := n']> (nodes s)) s) held.
Proof.
  intros Hs Hn Hl. apply (order_system s); [done| |done|done]. intros C HC. by apply relit_order; [apply (relit_update _ p n)|].
Qed.
Lemma at_node_ok {X} ino (f : timespec -> node -> option (X * node)) s held p n x n' : system_ok s held -> nodes s !! p = Some n -> nodeid n = ino ->
  f (clock s) n = Some (x, n') -> light n n' -> exists s', at_node_in ino f s = Done x s' /\ system_ok s' held /\ lockq s' = lockq s.
Proof.
  intros Hs Hn <- Hf Hl. pose proof (inside s held Hs) as [(Hsh & _) _ _]. exists (set_owned (owned s) (set_nodes (<[p := n']> (nodes s)) (set_owned ({["lock"]} ∪ owned s) s))). split; [|split; [|done]].
  - apply locked_call; [by destruct Hs| |done]. step ltac:(by apply (get_node_spec [] [] _ p n Hsh Hn), not_elem_of_nil).
    step ltac:(by apply deref_some). step ltac:(exact eq_refl). cbn [clock set_owned]. rewrite Hf. cbn [or_fault]. step ltac:(exact eq_refl). by step ltac:(by apply (update_some p _ _ n)).
  - by apply (light_update_ok s held p n n').
Qed.
Lemma find_ok dir nm s held : system_ok s held -> exists r, find_in dir nm s = Done r s.
Proof.
  intros Hs. pose proof (inside s held Hs) as [(Hsh & _) _ _]. destruct (lookup_node_spec [] [] _ dir nm Hsh) as (r & Hr & Hspec).
  set (s0 := set_owned _ s) in *.
  assert (exists x, (r ← lookup_node dir nm; match r with Some p => n ← deref p; mret (Some n) | None => mret None end) s0 = Done x s0) as [x Hx].
  { rewrite (bind_done _ _ _ _ _ Hr). destruct r as [p|]; [|by exists None]. destruct Hspec as (_ & pp & pn & (n & Hn & _) & _). exists (Some n).
    by rewrite (bind_done _ _ _ _ _ (deref_some p s0 n Hn)). }
  exists x. unfold find_in. erewrite locked_call; [|by destruct Hs|exact Hx|done]. by destruct s.
Qed.

(** ** Paths that are only read *)

Lemma climb_free rank fuel : forall p b s V, shape [] [] s -> ranked rank s -> names_short s -> path_room s -> is_Some (nodes s !! p) ->
  NoDup V -> (forall x, x ∈ V -> is_Some (nodes s !! x) /\ (rank p < rank x)%nat) -> (base.size (nodes s) < fuel + length V)%nat ->
  buf_ok b -> Z.of_nat (String.length (text b)) <= 1025 * (1 + lenZ V) ->
  exists r k, climb_rounds mem fuel p b false s = Done r (set_allocs k s) /\
    match r with inr b' => exists l, steps (nodes s) p l 0 /\ text b' = path_text (nodes s) l (text b) | inl _ => True end.
Proof.
  induction fuel as [|fuel IH]; intros p b s V Hs Hrk Hshort Hroom [n Hn] HV Hin Hfuel Hb Hlen;
    assert (length (p :: V) <= base.size (nodes s))%nat as Hsize by (apply visited_bound;
      [constructor; [intros H; destruct (Hin p H); lia|done]|intros x [->|Hx]%elem_of_cons; [by exists n|by apply Hin]]).
  { cbn in *. lia. }
  cbn [climb_rounds]. step ltac:(by apply deref_some). destruct (Z.eqb_spec (nodeid n) FUSE_ROOT_ID) as [Hid|Hid].
  { exists (inr b), (allocs s). split; [by destruct s|]. exists []. split; [|done]. assert (p = 0%nat) as -> by (by apply (root_id s p n)). constructor. }
  assert (p <> 0%nat) as H0 by (intros H; apply Hid; by apply (root_id s p n)).
  destruct (link_of s p n Hs Hn H0) as [[Hpp Hnm]|(pp & nm & Hpp & Hnm & Hpar)]; rewrite Hpp, Hnm; [by exists (inl (- ESTALE, p)), (allocs s); split; [by destruct s|]|].
  pose proof (Hshort p n nm Hn Hnm) as Hnlen. destruct (add_name_ok mem b nm s Hb) as (r & k & Hadd & Hr).
  { unfold pathlen, path_room in *. unfold lenZ in Hlen. cbn in Hsize. lia. }
  step ltac:(exact Hadd). destruct r as [b'|]; [|by exists (inl (- ENOMEM, p)), k]. destruct Hr as [Hb' Htext]. pose proof (Hrk p n pp Hn Hpp) as Hlt.
  destruct (IH pp b' (set_allocs k s) (p :: V)) as (r & k' & Hrun & Hres); try done.
  - apply (tree_eq_shape [] [] s); [by split_and!|done].
  - constructor; [intros H; destruct (Hin p H); lia|done].
  - intros x [->|Hx]%elem_of_cons; [split; [by exists n|done]|]. destruct (Hin x Hx). split; [done|lia].
  - cbn [nodes set_allocs length]. lia.
  - rewrite Htext, lenZ_cons. change (String.length ("/" ++ nm ++ text b)) with (S (String.length (nm ++ text b))). rewrite string_length_app. lia.
  - exists r, k'. split; [done|]. destruct r as [|b'']; [done|]. destruct Hres as (l & Hst & E). exists (p :: l). split; [by eapply steps_up|].
    rewrite E. cbn [path_text nodes set_allocs]. rewrite Hn. cbn. by rewrite Hnm, Htext.
Qed.
(** The text that is read off is the path of the node. *)
Lemma peek_ok a p n s : sound s -> asks_ok a -> ask_write a = false -> nodes s !! p = Some n -> nodeid n = ask_ino a ->
  exists r k, peek_in a s = Done r (set_allocs k s) /\ match r with inr t => exists l, steps (nodes s) p l 0 /\ t = given (nodes s) a l | inl _ => True end.
Proof.
  intros (Hs & [rank Hrk] & Hshort & Hroom) Ha Hw Hn Hid. unfold peek_in.
  assert (exists r k, try_get_path mem a false s = Done r (set_allocs k s) /\ match r with inr g => exists l, steps (nodes s) p l 0 /\ g.1 = given (nodes s) a l | inl _ => True end)
    as (r & k & Hrun & Hres); [|step ltac:(exact Hrun); exists (match r with inl e => inl e | inr g => inr g.1 end), k; split; [done|by destruct r]].
  unfold try_get_path. rewrite (bind_done _ _ _ _ _ (get_memory_done mem s)).
  destruct (mem (allocs s)); cbn [negb]; [|by exists (inl (- ENOMEM)), (S (allocs s))].
  destruct (start_ok mem a (set_allocs (S (allocs s)) s) Ha) as (b & k & Hb & Hbok). step ltac:(exact Hb). change (set_allocs k (set_allocs (S (allocs s)) s)) with (set_allocs k s).
  destruct b as [b|]; [|by exists (inl (- ENOMEM)), k]. destruct Hbok as (Hbuf & Htext & Hlen). rewrite Hw. step ltac:(exact eq_refl).
  assert (shape [] [] (set_allocs k s)) as Hsk by (apply (tree_eq_shape [] [] s); [by split_and!|done]).
  rewrite <- Hid. step ltac:(exact (get_node_spec [] [] _ p n Hsk Hn (not_elem_of_nil p))). step ltac:(exact eq_refl).
  destruct (climb_free rank (S (base.size (nodes s))) p b (set_allocs k s) []) as (r & k' & Hrun & Hres); try done; [constructor|by intros x ?%not_elem_of_nil|cbn; lia|].
  step ltac:(exact Hrun). destruct r as [[e stop]|b']; [by exists (inl e), k'|]. destruct Hres as (l & Hst & E). eexists (inr (_, None)), k'. split; [reflexivity|].
  exists l. split; [done|]. cbn [fst]. by rewrite E, Htext.
Qed.
End Sections.

(** ** A name for a hidden file *)

Lemma hex_digit_inj a b : 0 <= a < 16 -> 0 <= b < 16 -> hex_digit a = hex_digit b -> a = b.
Proof.
  intros Ha Hb H. unfold hex_digit in H. apply (f_equal nat_of_ascii) in H.
  assert (forall d, 0 <= d < 16 -> (Z.to_nat (if (d <? 10)%Z then 48 + d else 87 + d) < 256)%nat) as Hd by (intros d Hd; destruct (Z.ltb_spec d 10); lia).
  rewrite !nat_ascii_embedding in H by (by apply Hd). destruct (Z.ltb_spec a 10), (Z.ltb_spec b 10); lia.
Qed.
Lemma hex_inj k : forall v w r r', hex k v r = hex k w r' -> String.length r = String.length r' -> v `mod` 16 ^ Z.of_nat k = w `mod` 16 ^ Z.of_nat k /\ r = r'.
Proof.
  induction k as [|k IH]; intros v w r r' H Hr; [split; [by rewrite !Z.mod_1_r|done]|]. cbn [hex] in H. apply IH in H as [H1 H2]; [|cbn; by rewrite Hr].
  injection H2 as Hd ->. apply hex_digit_inj in Hd; [|by apply Z.mod_pos_bound..]. split; [|done].
  rewrite Nat2Z.inj_succ, Z.pow_succ_r by lia. rewrite !Z.rem_mul_r by (try apply Z.pow_pos_nonneg; lia). by rewrite Hd, H1.
Qed.
Lemma hex_length k v r : String.length (hex k v r) = (k + String.length r)%nat.
Proof. revert v r. induction k as [|k IH]; intros v r; [done|]. cbn [hex]. rewrite IH. cbn. lia. Qed.
Lemma fuse_hidden_inj ino c d : 0 <= c < 2 ^ 32 -> 0 <= d < 2 ^ 32 -> fuse_hidden ino c = fuse_hidden ino d -> c = d.
Proof.
  intros Hc Hd H. unfold fuse_hidden in H. assert (forall p a b, (p ++ a)%string = (p ++ b)%string -> a = b) as Happ.
  { induction p as [|x p IH]; intros a b E; [done|]. apply IH. by injection E. }
  apply Happ, hex_inj in H as [_ H].
  - apply hex_inj in H as [H _]; [|done]. change (16 ^ Z.of_nat 8) with (2 ^ 32) in H. by rewrite !Z.mod_small in H.
  - by rewrite !hex_length.
Qed.
(** Of more different names than are taken, one is free. *)
Lemma free_one {A} `{EqDecision A} (f : nat -> A) (used : list A) : (forall i j, (i <= length used)%nat -> (j <= length used)%nat -> f i = f j -> i = j) ->
  exists i, (i <= length used)%nat /\ f i ∉ used.
Proof.
  intros Hinj. destruct (decide (Exists (fun i => f i ∉ used) (seq 0 (S (length used))))) as [He|He].
  - apply Exists_exists in He as (i & Hi%elem_of_seq & Hv). exists i. split; [lia|done].
  - exfalso. assert (NoDup (map f (seq 0 (S (length used))))) as Hd.
    { apply NoDup_fmap_2_strong; [|apply NoDup_seq]. intros i j Hi%elem_of_seq Hj%elem_of_seq. apply Hinj; lia. }
    assert (map f (seq 0 (S (length used))) ⊆ used) as Hsub.
    { intros v (i & -> & Hi)%list_elem_of_fmap. destruct (decide (f i ∈ used)) as [|Hn]; [done|]. exfalso. apply He, Exists_exists. by exists i. }
    pose proof (NoDup_submseteq _ _ Hd Hsub) as Hsm. apply submseteq_length in Hsm. rewrite length_map, length_seq in Hsm. lia.
Qed.
Definition used_names (s : fuse) : list string := omap (fun e => name e.2) (map_to_list (nodes s)).
Lemma used_names_length s : (length (used_names s) <= base.size (nodes s))%nat.
Proof. unfold used_names. rewrite <- length_map_to_list. induction (map_to_list (nodes s)) as [|e l IH]; [done|]. cbn. destruct (name e.2); cbn; lia. Qed.
Definition only_hidectr (s s' : fuse) : Prop := exists h, s' = set_ids (next_ptr s) (ctr s) (fuse_generation s) h s.
Lemma only_hidectr_eq s s' : only_hidectr s s' -> tree_eq s s'.
Proof. by intros (h & ->). Qed.
Definition hide_value (h : Z) (i : nat) : Z := (h + 1 + Z.of_nat i) `mod` 2 ^ 32.
Lemma hidden_names_ok fuel : forall i s dir ino, (i < fuel)%nat -> shape [] [] s -> fuse_hidden ino (hide_value (hidectr s) i) ∉ used_names s ->
  exists nn s', hidden_names fuel dir ino s = Done nn s' /\ only_hidectr s s' /\ (exists c, nn = fuse_hidden ino c) /\ forall p, ~ child_named s [] dir nn p.
Proof.
  induction fuel as [|fuel IH]; intros i s dir ino Hi Hs Hv; [lia|]. cbn [hidden_names]. step ltac:(exact eq_refl). cbv zeta.
  change (u32 (hidectr s + 1)) with ((hidectr s + 1) `mod` 2 ^ 32). set (c := (hidectr s + 1) `mod` 2 ^ 32). step ltac:(exact eq_refl). set (s1 := set_ids _ _ _ c s).
  assert (only_hidectr s s1) as Ho by (by exists c). pose proof (tree_eq_shape _ _ _ _ (only_hidectr_eq _ _ Ho) Hs) as Hs1.
  destruct (lookup_node_spec [] [] s1 dir (fuse_hidden ino c) Hs1) as (r & Hr & Hspec). step ltac:(exact Hr). destruct r as [q|].
  - destruct i as [|i].
    + exfalso. apply Hv. unfold hide_value. rewrite Z.add_0_r. fold c. destruct Hspec as (_ & pp & pn & (n & Hn & _ & Hnm) & _).
      apply list_elem_of_omap. exists (q, n). split; [|done]. by apply elem_of_map_to_list.
    + destruct (IH i s1 dir ino ltac:(lia) Hs1) as (nn & s' & Hrun & (h & ->) & Hnn & Hfree).
      { change (used_names s1) with (used_names s). change (hidectr s1) with c. replace (hide_value c i) with (hide_value (hidectr s) (S i)); [done|].
        unfold hide_value, c. rewrite <- (Z.add_assoc (_ `mod` _)), Zplus_mod_idemp_l. f_equal. lia. }
      exists nn, (set_ids (next_ptr s) (ctr s) (fuse_generation s) h s). split; [done|]. split; [by exists h|]. done.
  - exists (fuse_hidden ino c), s1. split; [done|]. split; [done|]. split; [by exists c|]. exact Hspec.
Qed.
Lemma hidden_short ino c : (String.length (fuse_hidden ino c) <= 1024)%nat.
Proof. unfold fuse_hidden. rewrite string_length_app, !hex_length. cbn. lia. Qed.
Section Hidden.
Variable mem : nat -> bool.
Lemma hidden_ok dir nm s held : system_ok s held -> limits s ->
  exists r s', hidden_in mem dir nm s = Done r s' /\ system_ok s' held /\ lockq s' = lockq s /\ tree_eq s s'.
Proof.
  intros Hs Hlim. pose proof (inside s held Hs) as Ho. set (s0 := set_owned ({["lock"]} ∪ owned s) s) in *. pose proof Ho as [Hr _ _]. pose proof Hr as (Hsh & _).
  assert (forall body : hl (option (string * (Z + string))), (exists r s1, body s0 = Done r s1 /\ tree_eq s0 s1 /\ lockq s1 = lockq s0 /\ owned s1 = owned s0) ->
    exists r s', with_lock "lock" body s = Done r s' /\ system_ok s' held /\ lockq s' = lockq s /\ tree_eq s s') as Hwrap.
  { intros body (r & s1 & Hrun & He & Eq & Eo). exists r, (set_owned (owned s) s1). split; [by apply locked_call; [by destruct Hs|..]|]. split; [|by split].
    apply (order_system s); [done| |done|done]. intros C HC. by apply (tree_eq_order s). }
  apply Hwrap. destruct (lookup_node_spec [] [] s0 dir nm Hsh) as (r & Hrun & Hspec). destruct r as [p|]; [|exists None, s0; split; [by rewrite (bind_done _ _ _ _ _ Hrun)|done]].
  destruct Hspec as (_ & pp & pn & (n & Hn & _) & Hpn & Hid). destruct Hlim as [Hshort Hroom].
  assert (exists i, (i <= length (used_names s0))%nat /\ fuse_hidden (nodeid n) (hide_value (hidectr s0) i) ∉ used_names s0) as (i & Hi & Hv).
  { apply (free_one (fun i => fuse_hidden (nodeid n) (hide_value (hidectr s0) i))). intros i j Hi Hj E. pose proof (used_names_length s0). unfold path_room in Hroom. change (nodes s0) with (nodes s) in *.
    apply fuse_hidden_inj in E; [|by apply Z.mod_pos_bound..]. unfold hide_value in E. assert ((hidectr s0 + 1 + Z.of_nat i - (hidectr s0 + 1 + Z.of_nat j)) `mod` 2 ^ 32 = 0) as Hm by (rewrite Zminus_mod, E, Z.sub_diag; done).
    apply Z.mod_divide in Hm as [k Hk]; [|lia]. destruct (Z.eq_dec k 0); [lia|]. nia. }
  pose proof (used_names_length s0) as Hlen. destruct (hidden_names_ok (S (base.size (nodes s0))) i s0 dir (nodeid n)) as (nn & s1 & Hrun1 & Hoh & (c & Hnn) & _); [lia|done|done|].
  pose proof (only_hidectr_eq _ _ Hoh) as He1. assert (sound s1) as Hso1.
  { destruct Hr as (_ & _ & Hrk). destruct Hoh as (h & ->). split; [by apply (tree_eq_shape [] [] s0)|]. by split; [|split]. }
  assert (nodes s1 !! pp = Some pn) as Hpn1 by (by destruct He1 as (-> & _)).
  destruct (peek_ok mem {| ask_ino := dir; ask_name := Some nn; ask_write := false |} pp pn s1 Hso1) as (r & k & Hpeek & _); [|done|done|done|].
  { split; [|done]. intros nm' [= <-]. rewrite Hnn. apply hidden_short. }
  exists (Some (nn, r)), (set_allocs k s1). split; [|by destruct Hoh as (h & ->)]. step ltac:(exact Hrun). step ltac:(by apply deref_some). step ltac:(exact eq_refl).
  step ltac:(exact Hrun1). by step ltac:(exact Hpeek).
Qed.
End Hidden.
