(* ===== verification/HlQueue.v ===== *)
(** * What the calls do to the queue of waiters

    Only asking in vain, taking an answer, forgetting and waking touch [lockq]: whatever
    else runs under the library's lock leaves it.  Every thread that waits is in the queue
    once, for what it asked for, and an answer has the paths that were asked for. *)
From S2P Require Import Prelude Errno Sys HlLocks HlTable HlNodes HlTree HlNames HlSpace HlPaths HlPathFacts HlPathLocks HlPathCalls HlPathSystem.

Definition tells {A} (m : hl A) (P : A -> Prop) : Prop := forall s a s', m s = Done a s' -> lockq s' = lockq s /\ P a.
Definition quiet {A} (m : hl A) : Prop := tells m (fun _ => True).
Create HintDb quiet.
Lemma tells_ret {A} (a : A) (P : A -> Prop) : P a -> tells (mret a) P.
Proof. intros HP s b s' H. unfold mret, prog_ret in H. injection H as <- <-. by split. Qed.
Lemma tells_bind {A B} (m : hl A) (k : A -> hl B) (P : A -> Prop) Q : tells m P -> (forall a, P a -> tells (k a) Q) -> tells (m ≫= k) Q.
Proof.
  intros Hm Hk s b s' H. unfold mbind, prog_bind in H. destruct (m s) as [a s1|s1|mu s1] eqn:E; try done. destruct (Hm _ _ _ E) as [E1 Ha].
  destruct (Hk a Ha _ _ _ H) as [E2 Hb]. split; [congruence|done].
Qed.
Lemma tells_true {A} (m : hl A) (P : A -> Prop) : tells m P -> quiet m.
Proof. intros Hm s a s' H. by destruct (Hm _ _ _ H). Qed.
Lemma quiet_ret {A} (a : A) : quiet (mret a).
Proof. by apply tells_ret. Qed.
Lemma quiet_bind {A B} (m : hl A) (k : A -> hl B) : quiet m -> (forall a, quiet (k a)) -> quiet (m ≫= k).
Proof. intros Hm Hk. eapply tells_bind; [exact Hm|]. intros a _. apply Hk. Qed.
Lemma tells_after {A B} (m : hl A) (k : A -> hl B) Q : quiet m -> (forall a, tells (k a) Q) -> tells (m ≫= k) Q.
Proof. intros Hm Hk. eapply tells_bind; [exact Hm|]. intros a _. apply Hk. Qed.
Lemma quiet_get : quiet (pget : hl fuse).
Proof. intros s a s' H. unfold pget in H. injection H as <- <-. by split. Qed.
Lemma quiet_modify (f : fuse -> fuse) : (forall s, lockq (f s) = lockq s) -> quiet (pmodify f).
Proof. intros Hf s a s' H. unfold pmodify in H. injection H as <- <-. by rewrite Hf. Qed.
Lemma tells_throw {A} (P : A -> Prop) : tells (pthrow : hl A) P.
Proof. done. Qed.
Lemma tells_stuck {A} w (P : A -> Prop) : tells (pstuck w : hl A) P.
Proof. done. Qed.
Lemma tells_lock {A} mu (m : hl A) P : tells m P -> tells (with_lock mu m) P.
Proof.
  intros Hm s a s' H. unfold with_lock in H. destruct (decide _); [done|]. destruct (m _) as [b s1|s1|w s1] eqn:E; try done. injection H as <- <-.
  destruct (Hm _ _ _ E) as [E1 Ha]. split; [exact E1|done].
Qed.
Lemma quiet_locked {A} mu (m : hl A) : quiet m -> quiet (with_lock mu m).
Proof. apply tells_lock. Qed.
Lemma quiet_or_fault {A} (o : option A) : quiet (or_fault o).
Proof. destruct o; [apply quiet_ret|apply tells_throw]. Qed.
Lemma quiet_assert b : quiet (passert b).
Proof. destruct b; [apply quiet_ret|apply tells_throw]. Qed.
#[export] Hint Resolve quiet_ret quiet_get quiet_or_fault quiet_assert : quiet.
Ltac hush :=
  repeat match goal with
  | |- quiet (_ ≫= _) => apply quiet_bind; [|intros ?]
  | |- quiet (pmodify _) => apply quiet_modify; intros ?; reflexivity
  | |- quiet pthrow => apply tells_throw
  | |- quiet (pstuck _) => apply tells_stuck
  | |- quiet (with_lock _ _) => apply quiet_locked
  | |- quiet (match ?x with _ => _ end) => destruct x
  | |- quiet (let _ := _ in _) => cbv zeta
  end; auto with quiet.

Lemma quiet_deref p : quiet (deref p).
Proof. unfold deref. hush. Qed.
#[export] Hint Resolve quiet_deref : quiet.
Lemma quiet_update p f : quiet (update p f).
Proof. unfold update. hush. Qed.
#[export] Hint Resolve quiet_update : quiet.
Section Quiet.
Variable mem : nat -> bool.
Lemma quiet_memory : quiet (get_memory mem).
Proof. unfold get_memory. hush. Qed.
Lemma quiet_chain test l : (forall n, quiet (test n)) -> quiet (find_chain test l).
Proof. intros Ht. induction l as [|p l IH]; cbn; hush. Qed.
#[local] Hint Resolve quiet_memory quiet_chain : quiet.
Lemma quiet_nocheck ino : quiet (get_node_nocheck ino).
Proof. unfold get_node_nocheck. hush. Qed.
#[local] Hint Resolve quiet_nocheck : quiet.
Lemma quiet_get_node ino : quiet (get_node ino).
Proof. unfold get_node. hush. Qed.
Lemma quiet_lookup d nm : quiet (lookup_node d nm).
Proof. unfold lookup_node. hush. apply quiet_chain. intros n. hush. Qed.
#[local] Hint Resolve quiet_get_node quiet_lookup : quiet.
Lemma quiet_unhash_id p : quiet (unhash_id mem p).
Proof. unfold unhash_id, set_id_table. hush. Qed.
Lemma quiet_hash_id p : quiet (hash_id mem p).
Proof. unfold hash_id, set_id_table. hush. Qed.
#[local] Hint Resolve quiet_unhash_id quiet_hash_id : quiet.
Lemma quiet_delete unhash p : (forall q, quiet (unhash q)) -> quiet (delete_with mem unhash p).
Proof. intros Hu. unfold delete_with, remove_node_lru, free_node. hush. Qed.
Lemma quiet_unref unhash p : (forall q, quiet (unhash q)) -> quiet (unref_with mem unhash p).
Proof. intros Hu. unfold unref_with. hush. by apply quiet_delete. Qed.
Lemma quiet_unhash fuel p : quiet (unhash_rounds mem fuel p).
Proof. revert p. induction fuel as [|fuel IH]; intros p; cbn; unfold set_name_table; hush. by apply quiet_unref. Qed.
#[local] Hint Resolve quiet_unhash : quiet.
Lemma quiet_unhash_name p : quiet (unhash_name mem p).
Proof. unfold unhash_name. hush. Qed.
#[local] Hint Resolve quiet_unhash_name : quiet.
Lemma quiet_unref_node p : quiet (unref_node mem p).
Proof. apply quiet_unref. auto with quiet. Qed.
Lemma quiet_hash_name p d nm : quiet (hash_name mem p d nm).
Proof. unfold hash_name, set_name_table. hush. Qed.
Lemma quiet_next_id fuel : quiet (next_id_rounds fuel).
Proof. induction fuel as [|fuel IH]; cbn; hush. Qed.
#[local] Hint Resolve quiet_unref_node quiet_hash_name quiet_next_id : quiet.
Lemma quiet_inc p : quiet (inc_nlookup p).
Proof. unfold inc_nlookup. hush. Qed.
Lemma quiet_alloc : quiet (alloc_node mem).
Proof. unfold alloc_node. hush. Qed.
#[local] Hint Resolve quiet_inc quiet_alloc : quiet.
Lemma quiet_find_node d nm : quiet (find_node mem d nm).
Proof. unfold find_node, next_id, give_id, free_node, remove_node_lru. hush. Qed.
Lemma quiet_unlink p : quiet (unlink_node mem p).
Proof. unfold unlink_node. hush. Qed.
#[local] Hint Resolve quiet_find_node quiet_unlink : quiet.
Lemma quiet_forget_last p n : quiet (forget_last mem p n).
Proof. unfold forget_last, set_forget_time. hush. Qed.
#[local] Hint Resolve quiet_forget_last : quiet.
Lemma quiet_op op : (forall ino n, op <> Forget ino n) -> quiet (run_op mem op).
Proof.
  intros Hf. destruct op as [d nm|ino n|d nm|d nm d' nm' h|d nm d' nm']; cbn; [hush|by destruct (Hf ino n)|unfold remove_node; hush|unfold rename_node; hush|unfold exchange_node; hush].
Qed.

(** ** Paths *)

Lemma quiet_add_name b nm : quiet (add_name mem b nm).
Proof. unfold add_name. hush. Qed.
Lemma quiet_unlock_rounds fuel p stop : quiet (unlock_rounds fuel p stop).
Proof. revert p. induction fuel as [|fuel IH]; intros p; cbn; hush. Qed.
#[local] Hint Resolve quiet_add_name quiet_unlock_rounds : quiet.
Lemma quiet_unlock ino w stop : quiet (unlock_path ino w stop).
Proof. unfold unlock_path. hush. Qed.
Lemma quiet_climb fuel p b lock : quiet (climb_rounds mem fuel p b lock).
Proof. revert p b. induction fuel as [|fuel IH]; intros p b; cbn; hush. Qed.
#[local] Hint Resolve quiet_unlock quiet_climb : quiet.
Lemma quiet_wnode ino nm : quiet (lock_wnode ino nm).
Proof. unfold lock_wnode. hush. Qed.
#[local] Hint Resolve quiet_wnode : quiet.
Lemma quiet_try a lock : quiet (try_get_path mem a lock).
Proof. unfold try_get_path. hush. Qed.
#[local] Hint Resolve quiet_try : quiet.
(** An answer has as many paths as were asked for. *)
Definition paths_asked (f : wait_for) : nat := match f with ForUnlock _ => 0 | ForPath _ => 1 | ForPaths _ _ => 2 end.
Definition shaped_for (f : wait_for) (r : Z + list got) : Prop := match r with inl _ => True | inr l => length l = paths_asked f end.
Definition shaped (w : waiter) : Prop := forall r, wt_done w = Some r -> shaped_for (wt_for w) r.
Lemma try_one_tells a : tells (try_one mem a) (shaped_for (ForPath a)).
Proof. apply tells_after; [hush|]. intros [e|g]; by apply tells_ret. Qed.
Lemma try_two_tells a b : tells (try_get_path2 mem a b) (shaped_for (ForPaths a b)).
Proof.
  apply tells_after; [hush|]. intros [e|g]; [by apply tells_ret|]. apply tells_after; [hush|]. intros [e|g']; [|by apply tells_ret].
  apply tells_after; [hush|]. intros _. by apply tells_ret.
Qed.
(** What waking does to a waiter. *)
Definition woken (w w' : waiter) : Prop := wt_thread w' = wt_thread w /\ wt_for w' = wt_for w /\ (shaped w -> shaped w').
Lemma woken_refl w : woken w w.
Proof. done. Qed.
Lemma settled_woken w r : shaped_for (wt_for w) r -> woken w (settled w r).
Proof.
  intros Hr. unfold settled. destruct r as [e|l]; [destruct (e =? - EAGAIN)|]; try done; (split; [done|]; split; [done|]; intros _ r [= <-]; done).
Qed.
Lemma wakeup_tells w : tells (queue_element_wakeup mem w) (woken w).
Proof.
  unfold queue_element_wakeup. destruct (wt_for w) as [ino|a|a b] eqn:Hf.
  - apply tells_after; [hush|]. intros p. apply tells_after; [hush|]. intros n. apply tells_ret. destruct (_ =? 0); [|done]. split; [done|]. split; [done|]. by intros Hs r Hr; apply Hs.
  - destruct (wt_done w); [by apply tells_ret|]. eapply tells_bind; [apply try_one_tells|]. intros r Hr. rewrite <- Hf in Hr. apply tells_ret, (settled_woken w r Hr).
  - destruct (wt_done w); [by apply tells_ret|]. eapply tells_bind; [apply try_two_tells|]. intros r Hr. rewrite <- Hf in Hr. apply tells_ret, (settled_woken w r Hr).
Qed.
Lemma wake_all_tells q : tells (wake_all mem q) (Forall2 woken q).
Proof.
  induction q as [|w q IH]; [by apply tells_ret|]. cbn [wake_all]. eapply tells_bind; [apply wakeup_tells|]. intros w' Hw. eapply tells_bind; [exact IH|]. intros q' Hq.
  apply tells_ret. by constructor.
Qed.

(** ** The calls *)

Definition asks (t : nat) (f : wait_for) : waiter := {| wt_thread := t; wt_for := f; wt_signal := false; wt_done := None |}.
Definition queue_step (q : list waiter) (c : path_call) (r : answer) (q' : list waiter) : Prop :=
  match c with
  | GetPath t a => match r with Waits => q' = q ++ [asks t (ForPath a)] | Gets r => q' = q /\ shaped_for (ForPath a) r | _ => False end
  | GetPath2 t a b => match r with Waits => q' = q ++ [asks t (ForPaths a b)] | Gets r => q' = q /\ shaped_for (ForPaths a b) r | _ => False end
  | WaitPath t => match r with Waits => q' = q | Gets r => exists w, dequeued t q = Some (w, q') /\ wt_done w = Some r | _ => False end
  | FreePath _ | FreePath2 _ _ => r = Finishes /\ Forall2 woken q q'
  | ForgetNode t ino _ => match r with Waits => q' = q ++ [asks t (ForUnlock ino)] | Finishes => q' = q | _ => False end
  | ForgetWait t ino _ => match r with Waits => q' = q \/ q' = unsignal t q | Finishes => exists w, dequeued t q = Some (w, q') | _ => False end
  | OnNames _ => q' = q /\ exists z, r = Returns z
  end.
Lemma bind_inv {A B} (m : hl A) (k : A -> hl B) s b s' : (m ≫= k) s = Done b s' -> exists a s1, m s = Done a s1 /\ k a s1 = Done b s'.
Proof. unfold mbind, prog_bind. destruct (m s) as [a s1|s1|mu s1]; try done. intros H. by exists a, s1. Qed.
Lemma lock_inv {A} mu (m : hl A) s a s' : with_lock mu m s = Done a s' -> exists s0 s1, m s0 = Done a s1 /\ lockq s0 = lockq s /\ lockq s' = lockq s1.
Proof. unfold with_lock. destruct (decide _); [done|]. destruct (m _) as [b s1|s1|w s1] eqn:E; try done. intros [= <- <-]. by eexists _, s1. Qed.
Lemma tells_run {A} (m : hl A) P s a s' : tells m P -> m s = Done a s' -> lockq s' = lockq s /\ P a.
Proof. intros Hm. apply Hm. Qed.
Lemma asking_queue t f try s r s' : tells try (shaped_for f) ->
  with_lock "lock" (r ← try;
    match r with
    | inl e => if e =? - EAGAIN then _ ← queue_path t f; mret None else mret (Some r)
    | inr _ => mret (Some r)
    end) s = Done r s' ->
  match r with None => lockq s' = lockq s ++ [asks t f] | Some r => lockq s' = lockq s /\ shaped_for f r end.
Proof.
  intros Ht (s0 & s1 & H & E0 & E1)%lock_inv. apply bind_inv in H as (x & s2 & Hx & H). destruct (Ht _ _ _ Hx) as [E2 Hsh].
  assert (forall y : option (Z + list got), (mret (Some x) : hl (option (Z + list got))) s2 = Done r s1 -> match r with None => lockq s' = lockq s ++ [asks t f] | Some r => lockq s' = lockq s /\ shaped_for f r end) as Hret.
  { intros _ E. unfold mret, prog_ret in E. injection E as <- <-. split; [congruence|done]. }
  destruct x as [e|g]; [|by apply Hret]. destruct (e =? - EAGAIN); [|by apply Hret].
  apply bind_inv in H as ([] & s3 & Hq & H). unfold mret, prog_ret in H. injection H as <- <-. unfold queue_path, pmodify in Hq. injection Hq as <-. rewrite E1. cbn. unfold asks. congruence.
Qed.
Lemma freeing_queue (m : hl unit) s s' : quiet m -> with_lock "lock" (_ ← m; wake_up_queued mem) s = Done tt s' -> Forall2 woken (lockq s) (lockq s').
Proof.
  intros Hm (s0 & s1 & H & E0 & E1)%lock_inv. apply bind_inv in H as ([] & s2 & Hx & H). destruct (Hm _ _ _ Hx) as [E2 _].
  unfold wake_up_queued in H. apply bind_inv in H as (s3 & s4 & Hg & H). unfold pget in Hg. injection Hg as <- <-. apply bind_inv in H as (q & s5 & Hq & H).
  destruct (wake_all_tells _ _ _ _ Hq) as [_ Hw]. unfold pmodify in H. injection H as <-. rewrite E1. cbn. by rewrite <- E0, <- E2.
Qed.
Lemma all_woken q : Forall2 woken q q.
Proof. induction q; by constructor. Qed.
(** A call leaves the queue as [queue_step] says. *)
Lemma run_call_queue c s r s' : (forall op, c = OnNames op -> forall ino n, op <> Forget ino n) -> run_call mem c s = Done r s' -> queue_step (lockq s) c r (lockq s').
Proof.
  intros Hno H. destruct c as [t a|t a b|t|c|c d|t ino n|t ino n|op]; cbn [run_call queue_step] in *; apply bind_inv in H as (x & s1 & Hx & H); unfold mret, prog_ret in H; injection H as <- <-.
  - apply (asking_queue t (ForPath a) _ _ _ _ (try_one_tells a)) in Hx. by destruct x.
  - apply (asking_queue t (ForPaths a b) _ _ _ _ (try_two_tells a b)) in Hx. by destruct x.
  - unfold wait_path in Hx. apply lock_inv in Hx as (s0 & s2 & H & E0 & E1). apply bind_inv in H as (s3 & s4 & Hg & H). unfold pget in Hg. injection Hg as <- <-. rewrite <- E0, E1.
    destruct (dequeued t (lockq s0)) as [[w q]|]; [|by unfold mret, prog_ret in H; injection H as <- <-].
    destruct (wt_signal w), (wt_done w) as [g|] eqn:Hd; try (by unfold mret, prog_ret in H; injection H as <- <-).
    apply bind_inv in H as ([] & s5 & Hm & H). unfold pmodify in Hm. injection Hm as <-. unfold mret, prog_ret in H. injection H as <- <-. by exists w.
  - split; [done|]. destruct x. unfold free_path_wrlock in Hx. apply lock_inv in Hx as (s0 & s2 & H & E0 & E1). apply bind_inv in H as ([] & s3 & Hu & H).
    destruct (quiet_unlock _ _ _ _ _ _ Hu) as [E3 _]. apply bind_inv in H as (s4 & s5 & Hg & H). unfold pget in Hg. injection Hg as <- <-. rewrite <- E0, <- E3, E1.
    destruct (lockq s3) as [|w q] eqn:Hq; [unfold mret, prog_ret in H; injection H as <-; by rewrite Hq|]. rewrite <- Hq.
    unfold wake_up_queued in H. apply bind_inv in H as (s4 & s5 & Hg & H). unfold pget in Hg. injection Hg as <- <-. apply bind_inv in H as (q' & s5 & Hq' & H).
    destruct (wake_all_tells _ _ _ _ Hq') as [_ Hw]. unfold pmodify in H. by injection H as <-.
  - split; [done|]. destruct x. unfold free_path2 in Hx. apply (freeing_queue (_ ← unlock_path (ask_ino c.1) c.2.2 None; unlock_path (ask_ino d.1) d.2.2 None)); [hush|].
    rewrite <- Hx. unfold with_lock. destruct (decide _); [done|]. unfold mbind, prog_bind. by destruct (unlock_path _ _ _ _).
  - unfold forget_node in Hx. destruct (ino =? FUSE_ROOT_ID); [by unfold mret, prog_ret in Hx; injection Hx as <- <-|].
    apply lock_inv in Hx as (s0 & s2 & H & E0 & E1). apply bind_inv in H as (p & s3 & Hp & H). destruct (quiet_get_node _ _ _ _ Hp) as [E3 _].
    apply bind_inv in H as (m & s4 & Hm & H). destruct (quiet_deref _ _ _ _ Hm) as [E4 _]. rewrite E1, <- E0, <- E3, <- E4. destruct (_ && _).
    + apply bind_inv in H as ([] & s5 & Hq & H). unfold queue_path, pmodify in Hq. injection Hq as <-. unfold mret, prog_ret in H. by injection H as <- <-.
    + apply bind_inv in H as ([] & s5 & Hf & H). destruct (quiet_forget_last _ _ _ _ _ Hf) as [E5 _]. unfold mret, prog_ret in H. by injection H as <- <-.
  - unfold forget_wait in Hx. apply lock_inv in Hx as (s0 & s2 & H & E0 & E1). apply bind_inv in H as (s3 & s4 & Hg & H). unfold pget in Hg. injection Hg as <- <-. rewrite <- E0, E1.
    destruct (dequeued t (lockq s0)) as [[w q]|] eqn:Hd; [|unfold mret, prog_ret in H; injection H as <- <-; by left].
    destruct (negb (wt_signal w)); [unfold mret, prog_ret in H; injection H as <- <-; by left|].
    apply bind_inv in H as (p & s3 & Hp & H). destruct (quiet_get_node _ _ _ _ Hp) as [E3 _]. apply bind_inv in H as (m & s4 & Hm & H). destruct (quiet_deref _ _ _ _ Hm) as [E4 _].
    destruct (_ && _).
    + apply bind_inv in H as ([] & s5 & Hq & H). unfold pmodify in Hq. injection Hq as <-. unfold mret, prog_ret in H. injection H as <- <-. right. cbn. done.
    + apply bind_inv in H as ([] & s5 & Hq & H). unfold pmodify in Hq. injection Hq as <-. apply bind_inv in H as ([] & s6 & Hf & H). destruct (quiet_forget_last _ _ _ _ _ Hf) as [E5 _].
      unfold mret, prog_ret in H. injection H as <- <-. exists w. by rewrite E5.
  - destruct (quiet_op op (Hno op eq_refl) _ _ _ Hx) as [E _]. split; [done|by eexists].
Qed.
End Quiet.
