(* ===== verification/HlServe.v ===== *)
(** * Many requests at once

    A [world] is the library, the directory handles and the programs of the requests that
    are being served, one of every thread.  A [step] is an action of one thread: what it
    does under the library's lock is atomic, what operations of the file system and the
    kernel answer is anything.  As long as the kernel keeps to its [rules], no step goes
    wrong, and while there are requests some thread can go on. *)
From S2P Require Import Prelude Errno Sys HlLocks HlTable HlNodes HlTree HlNames HlSpace HlPaths HlPathFacts HlPathLocks HlPathCalls HlPathSystem HlQueue HlRequests HlTidy HlSections.

Record task := { tk_prog : io unit; tk_waits : bool; tk_hold : hold }.
(** A directory handle and whether its mutex is locked. *)
Record world := { lib : fuse; dirs : gmap Z (bool * fuse_dh); tasks : gmap nat task }.

(** ** Steps *)

Definition path_call_of (t : nat) (waits : bool) (a : action) : option path_call :=
  match a with
  | AGet x => Some (if waits then WaitPath t else GetPath t x)
  | AGet2 x y => Some (if waits then WaitPath t else GetPath2 t x y)
  | AFree c => Some (FreePath c)
  | AFree2 c d => Some (FreePath2 c d)
  | AForget ino n => Some (if waits then ForgetWait t ino n else ForgetNode t ino n)
  | ANames op => Some (OnNames op)
  | _ => None
  end.
(** What the thread is told; nothing while it waits. *)
Definition conclude (a : action) (r : answer) : option (result a) :=
  match a return option (result a) with
  | AGet x => match r with Gets (inl e) => Some (inl e) | Gets (inr [g]) => Some (inr (x, g)) | _ => None end
  | AGet2 x y => match r with Gets (inl e) => Some (inl e) | Gets (inr [g; g']) => Some (inr ((x, g), (y, g'))) | _ => None end
  | AFree _ | AFree2 _ _ | AForget _ _ => match r with Finishes => Some tt | _ => None end
  | ANames _ => match r with Returns z => Some z | _ => None end
  | _ => None
  end.
Definition outside (a : action) : Prop := match a with AOp _ | AReply _ | AMem | AFlatten _ _ => True | AAssert b => b = true | _ => False end.
Definition dir_step (m : gmap Z (bool * fuse_dh)) (a : action) : result a -> gmap Z (bool * fuse_dh) -> Prop :=
  match a return result a -> gmap Z (bool * fuse_dh) -> Prop with
  | ANewDir dh => fun d m' => m !! d = None /\ m' = <[d := (false, dh)]> m
  | AHandle d => fun dh m' => exists b, m !! d = Some (b, dh) /\ m' = m
  | ASetDirFh d fh => fun _ m' => exists b dh, m !! d = Some (b, dh) /\ m' = <[d := (b, set_fh fh dh)]> m
  | ALockDir d => fun dh m' => m !! d = Some (false, dh) /\ m' = <[d := (true, dh)]> m
  | AUnlockDir d dh => fun _ m' => exists dh', m !! d = Some (true, dh') /\ m' = <[d := (false, dh)]> m
  | AFreeDir d => fun _ m' => is_Some (m !! d) /\ m' = delete d m
  | _ => fun _ _ => False
  end.

Section Serve.
Variable mem : nat -> bool.
Variable cf : hl_config.
Variable has : fs_op -> bool.

Definition goes_on (w : world) (t : nat) (tk : task) (s : fuse) (m : gmap Z (bool * fuse_dh)) (a : action) (k : result a -> io unit) (r : result a) : world :=
  {| lib := s; dirs := m; tasks := <[t := {| tk_prog := k r; tk_waits := false; tk_hold := post (tk_hold tk) a r |}]> (tasks w) |}.
Inductive step (w : world) (t : nat) : world -> Prop :=
| step_waits tk a k c s : tasks w !! t = Some tk -> tk_prog tk = Act a k -> path_call_of t (tk_waits tk) a = Some c -> run_call mem c (lib w) = Done Waits s ->
    step w t {| lib := s; dirs := dirs w; tasks := <[t := {| tk_prog := Act a k; tk_waits := true; tk_hold := tk_hold tk |}]> (tasks w) |}
| step_call tk a k c s ans r : tasks w !! t = Some tk -> tk_prog tk = Act a k -> path_call_of t (tk_waits tk) a = Some c -> run_call mem c (lib w) = Done ans s ->
    conclude a ans = Some r -> step w t (goes_on w t tk s (dirs w) a k r)
| step_section tk a k m s r : tasks w !! t = Some tk -> tk_prog tk = Act a k -> section_of mem a = Some m -> m (lib w) = Done r s ->
    step w t (goes_on w t tk s (dirs w) a k r)
| step_outside tk a k r : tasks w !! t = Some tk -> tk_prog tk = Act a k -> outside a -> step w t (goes_on w t tk (lib w) (dirs w) a k r)
| step_dirs tk a k m r : tasks w !! t = Some tk -> tk_prog tk = Act a k -> dir_step (dirs w) a r m -> step w t (goes_on w t tk (lib w) m a k r)
| step_ends tk : tasks w !! t = Some tk -> tk_prog tk = Ret tt -> step w t {| lib := lib w; dirs := dirs w; tasks := delete t (tasks w) |}.
Definition starts (w : world) (t : nat) (q : hl_request) : world :=
  {| lib := lib w; dirs := dirs w; tasks := <[t := {| tk_prog := fuse_path_ops cf has q; tk_waits := false; tk_hold := fresh |}]> (tasks w) |}.

(** ** What the kernel keeps to *)

Definition task_claims (e : nat * task) : list claim := h_claims (tk_hold e.2).
Definition all_claims (ts : gmap nat task) : list claim := map_to_list ts ≫= task_claims.
(** A node that a thread forgets while it has a path, as [create] does with one the kernel
    was not told of, is in nobody's way. *)
Definition at_once (s : fuse) (ino n : Z) : Prop := forall p m, nodes s !! p = Some m -> nodeid m = ino -> nlookup m = n -> treelock m = 0.
Definition rules (w : world) (tk : task) (a : action) : Prop :=
  courteous (lib w) (all_claims (tasks w)) /\
  match a with
  | AGet x => tk_waits tk = false -> fair (lib w) x
  | AGet2 x y => tk_waits tk = false -> fair (lib w) x /\ fair (lib w) y /\ apart (lib w) x y
  | AForget ino n => allowed (keeps (lib w)) (view (lib w)) (Forget ino n) /\ (h_claims (tk_hold tk) = [] \/ at_once (lib w) ino n)
  | ANames op => room (lib w) /\ allowed (keeps (lib w)) (view (lib w)) op /\ untouched (lib w) (target (lib w) op)
  | ANode X ino f => exists p n, nodes (lib w) !! p = Some n /\ nodeid n = ino /\ f (clock (lib w)) n <> None
  | ADeref p => p <> None
  | APeek x => fair (lib w) x
  | AHandle d | ASetDirFh d _ | ALockDir d => is_Some (dirs w !! d)
  | AFreeDir d => exists dh, dirs w !! d = Some (false, dh)
  | _ => True
  end.
Definition rules_of (w : world) (t : nat) : Prop := forall tk a k, tasks w !! t = Some tk -> tk_prog tk = Act a k -> rules w tk a.
(** The requests of a kernel that is no NFS server; [strict] leaves out [copy_file_range]. *)
Definition usual (strict : bool) (q : hl_request) : Prop := well_formed q /\ (strict = true -> takes_two q = false).
Inductive serving (strict : bool) : world -> Prop :=
| serving_from s : paths_reachable mem cf s [] -> lockq s = [] -> serving strict {| lib := s; dirs := ∅; tasks := ∅ |}
| serving_step w t w' : serving strict w -> rules_of w t -> step w t w' -> serving strict w'
| serving_start w t q : serving strict w -> tasks w !! t = None -> usual strict q -> serving strict (starts w t q).

(** ** Who waits for what *)

Definition waiting (t : nat) (q : list waiter) : list wait_for := wt_for <$> filter (fun w => wt_thread w = t) q.
Lemma waiting_cons t w q : waiting t (w :: q) = (if decide (wt_thread w = t) then [wt_for w] else []) ++ waiting t q.
Proof. unfold waiting. rewrite filter_cons. by destruct (decide _). Qed.
Lemma waiting_app t q q' : waiting t (q ++ q') = waiting t q ++ waiting t q'.
Proof. unfold waiting. by rewrite filter_app, fmap_app. Qed.
Lemma waiting_asks t t' f : waiting t [asks t' f] = if decide (t' = t) then [f] else [].
Proof. rewrite waiting_cons. cbn [asks wt_thread wt_for]. destruct (decide _); done. Qed.
Lemma waiting_woken t q q' : Forall2 woken q q' -> waiting t q' = waiting t q.
Proof. induction 1 as [|w w' q q' (E1 & E2 & _) _ IH]; [done|]. by rewrite !waiting_cons, E1, E2, IH. Qed.
Lemma shaped_woken q q' : Forall2 woken q q' -> Forall shaped q -> Forall shaped q'.
Proof. induction 1 as [|w w' q q' (_ & _ & Hs) _ IH]; [done|]. intros [H1 H2]%Forall_cons. constructor; auto. Qed.
Lemma waiting_unsignal t t' q : waiting t (unsignal t' q) = waiting t q.
Proof. induction q as [|w q IH]; [done|]. cbn [unsignal]. destruct (decide _) as [<-|]; rewrite !waiting_cons; [done|by rewrite IH]. Qed.
Lemma shaped_unsignal t q : Forall shaped q -> Forall shaped (unsignal t q).
Proof. induction q as [|w q IH]; [done|]. cbn [unsignal]. intros [H1 H2]%Forall_cons. destruct (decide _); constructor; auto. Qed.
Lemma waiting_dequeued t q w q' : dequeued t q = Some (w, q') -> forall t', waiting t' q = (if decide (t = t') then [wt_for w] else []) ++ waiting t' q'.
Proof.
  revert w q'. induction q as [|x q IH]; intros w q'; [done|]. cbn [dequeued]. destruct (decide (wt_thread x = t)) as [Hx|Hx].
  - intros [= -> ->] t'. by rewrite waiting_cons, Hx.
  - destruct (dequeued t q) as [[y q'']|]; [|done]. cbn [mbind option_bind]. intros [= -> <-] t'. rewrite !waiting_cons, (IH w q'' eq_refl t'). destruct (decide (wt_thread x = t')), (decide (t = t')); try done. congruence.
Qed.
Lemma shaped_dequeued t q w q' : dequeued t q = Some (w, q') -> Forall shaped q -> shaped w /\ Forall shaped q'.
Proof. intros [_ Hp]%dequeued_some H. rewrite Hp in H. by apply Forall_cons in H. Qed.
Lemma waiting_some t q f l : waiting t q = f :: l -> exists w q', dequeued t q = Some (w, q') /\ wt_for w = f.
Proof.
  induction q as [|x q IH]; [done|]. rewrite waiting_cons. cbn [dequeued]. destruct (decide (wt_thread x = t)); [intros [= <- _]; by exists x, q|].
  intros H. destruct (IH H) as (w & q' & -> & Hw). cbn. by exists w, (x :: q').
Qed.
Lemma waiting_in t q w : w ∈ q -> wt_thread w = t -> wt_for w ∈ waiting t q.
Proof. intros Hw Ht. unfold waiting. apply list_elem_of_fmap_2, list_elem_of_filter. by split. Qed.

(** ** The invariant *)

Definition want (a : action) : list wait_for :=
  match a with AGet x => [ForPath x] | AGet2 x y => [ForPaths x y] | AForget ino _ => if ino =? FUSE_ROOT_ID then [] else [ForUnlock ino] | _ => [] end.
Definition waits_for (tk : task) : list wait_for := if tk_waits tk then match tk_prog tk with Act a _ => want a | Ret _ => [] end else [].
Definition waits_of (ts : gmap nat task) (t : nat) : list wait_for := match ts !! t with Some tk => waits_for tk | None => [] end.
(** A handle is locked by the one thread that has its mutex. *)
Definition locked_dir (m : gmap Z (bool * fuse_dh)) (d : Z) : Prop := exists dh, m !! d = Some (true, dh).
Record dirs_ok (m : gmap Z (bool * fuse_dh)) (ts : gmap nat task) : Prop := {
  do_locked : forall d, locked_dir m d <-> exists t tk, ts !! t = Some tk /\ h_dir (tk_hold tk) = Some d;
  do_alone : forall t t' tk tk' d, ts !! t = Some tk -> ts !! t' = Some tk' -> h_dir (tk_hold tk) = Some d -> h_dir (tk_hold tk') = Some d -> t = t';
}.
Record world_ok (strict : bool) (w : world) : Prop := {
  wo_system : system_ok (lib w) (all_claims (tasks w));
  wo_tidy : map_Forall (fun _ tk => tidy strict (tk_prog tk) (fun _ h => h = finished) (tk_hold tk)) (tasks w);
  wo_queue : forall t, waiting t (lockq (lib w)) = waits_of (tasks w) t;
  wo_marked : map_Forall (fun _ tk => tk_waits tk = true -> waits_for tk <> [] /\ (strict = true -> h_claims (tk_hold tk) = [])) (tasks w);
  wo_shaped : Forall shaped (lockq (lib w));
  wo_dirs : dirs_ok (dirs w) (tasks w);
}.
Lemma claims_insert ts t tk : all_claims (<[t := tk]> ts) ≡ₚ h_claims (tk_hold tk) ++ all_claims (delete t ts).
Proof. unfold all_claims. by rewrite <- insert_delete_eq, map_to_list_insert by apply lookup_delete_eq. Qed.
Lemma claims_delete ts t tk : ts !! t = Some tk -> all_claims ts ≡ₚ h_claims (tk_hold tk) ++ all_claims (delete t ts).
Proof. intros H. unfold all_claims. by rewrite <- (map_to_list_delete ts t tk H). Qed.
Lemma system_perm s C C' : C ≡ₚ C' -> system_ok s C -> system_ok s C'.
Proof.
  intros Hp [H1 H2 H3 H4]. split; try done; [by rewrite <- Hp|]. intros Hex Hnil. apply (H4 Hex). apply app_eq_nil in Hnil as [N1 N2]. subst. symmetry in Hp. apply Permutation_nil in Hp. by rewrite N1, Hp.
Qed.
#[local] Instance system_proper s : Proper ((≡ₚ) ==> iff) (system_ok s).
Proof. intros C C' Hp. split; by apply system_perm. Qed.
Lemma dirs_keep m m' ts t tk tk' : dirs_ok m ts -> ts !! t = Some tk -> h_dir (tk_hold tk') = h_dir (tk_hold tk) ->
  (forall d, locked_dir m' d <-> locked_dir m d) -> dirs_ok m' (<[t := tk']> ts).
Proof.
  intros [H1 H2] Ht Eh Hm. assert (forall u x d, <[t := tk']> ts !! u = Some x -> h_dir (tk_hold x) = Some d -> exists y, ts !! u = Some y /\ h_dir (tk_hold y) = Some d) as Hback.
  { intros u x d [[<- <-]|[_ Hu]]%lookup_insert_Some Hd; [exists tk; by rewrite <- Eh|by exists x]. }
  split.
  - intros d. rewrite Hm, H1. split; intros (u & x & Hu & Hd).
    + destruct (decide (u = t)) as [->|Hne]; [exists t, tk'; rewrite lookup_insert_eq; split; [done|congruence]|]. exists u, x. by rewrite lookup_insert_ne.
    + destruct (Hback u x d Hu Hd) as (y & Hy & Hd'). by exists u, y.
  - intros u u' x x' d Hu Hu' Hd Hd'. destruct (Hback u x d Hu Hd) as (y & Hy & Ed), (Hback u' x' d Hu' Hd') as (y' & Hy' & Ed'). by apply (H2 u u' y y' d).
Qed.
Lemma post_dir h a r : match a with ALockDir _ | AUnlockDir _ _ => False | _ => True end -> h_dir (post h a r) = h_dir h.
Proof. destruct a; try done; intros _; cbn; repeat case_match; done. Qed.
Lemma dirs_running strict w t tk a k m r : world_ok strict w -> tasks w !! t = Some tk -> tk_prog tk = Act a k -> match a with ALockDir _ | AUnlockDir _ _ => False | _ => True end ->
  (forall d, locked_dir m d <-> locked_dir (dirs w) d) -> dirs_ok m (tasks (goes_on w t tk (lib w) m a k r)).
Proof. intros Hw Ht _ Ha Hm. apply (dirs_keep (dirs w) m (tasks w) t tk); [apply Hw|done|by apply post_dir|done]. Qed.
(** A thread that goes on, once the rest is known to be right. *)
Lemma resumed strict w t tk s m a k r : world_ok strict w -> tasks w !! t = Some tk -> tk_prog tk = Act a k -> fits a r ->
  system_ok s (h_claims (post (tk_hold tk) a r) ++ all_claims (delete t (tasks w))) ->
  (forall u, waiting u (lockq s) = if decide (t = u) then [] else waiting u (lockq (lib w))) -> Forall shaped (lockq s) ->
  dirs_ok m (tasks (goes_on w t tk s m a k r)) -> world_ok strict (goes_on w t tk s m a k r).
Proof.
  intros [W1 W2 W3 W4 W5 W6] Ht Hp Hf Hs Hq Hsh Hd. split; cbn [lib dirs tasks goes_on]; try done.
  - by rewrite claims_insert.
  - apply map_Forall_insert_2; [|done]. cbn [tk_prog tk_hold]. assert (tidy strict (tk_prog tk) (fun _ h => h = finished) (tk_hold tk)) as H2 by exact (W2 t tk Ht). rewrite Hp in H2. by apply H2.
  - intros u. rewrite Hq. unfold waits_of. destruct (decide (t = u)) as [<-|Hne]; [by rewrite lookup_insert_eq|]. rewrite lookup_insert_ne by done. apply W3.
  - by apply map_Forall_insert_2.
Qed.
(** A thread that waits, or waits on. *)
Lemma suspended strict w t tk s a k : world_ok strict w -> tasks w !! t = Some tk -> tk_prog tk = Act a k -> want a <> [] -> (strict = true -> h_claims (tk_hold tk) = []) ->
  system_ok s (h_claims (tk_hold tk) ++ all_claims (delete t (tasks w))) ->
  (forall u, waiting u (lockq s) = if decide (t = u) then want a else waiting u (lockq (lib w))) -> Forall shaped (lockq s) ->
  world_ok strict {| lib := s; dirs := dirs w; tasks := <[t := {| tk_prog := Act a k; tk_waits := true; tk_hold := tk_hold tk |}]> (tasks w) |}.
Proof.
  intros [W1 W2 W3 W4 W5 W6] Ht Hp Hne Hc Hs Hq Hsh. split; cbn [lib dirs tasks]; try done.
  - by rewrite claims_insert.
  - apply map_Forall_insert_2; [|done]. cbn [tk_prog tk_hold]. rewrite <- Hp. exact (W2 t tk Ht).
  - intros u. rewrite Hq. unfold waits_of. destruct (decide (t = u)) as [<-|Hu]; [by rewrite lookup_insert_eq|]. rewrite lookup_insert_ne by done. apply W3.
  - apply map_Forall_insert_2; [by intros _|done].
  - by apply (dirs_keep (dirs w) _ _ t tk).
Qed.

(** ** The calls on paths *)

Lemma queue_asks t f q : waiting t q = [] -> Forall shaped q -> (forall u, waiting u (q ++ [asks t f]) = if decide (t = u) then [f] else waiting u q) /\ Forall shaped (q ++ [asks t f]).
Proof.
  intros Hw Hs. split; [|apply Forall_app; split; [done|constructor; [|constructor]]; by intros r]. intros u. rewrite waiting_app, waiting_asks.
  destruct (decide (t = u)) as [<-|]; [by rewrite Hw|apply app_nil_r].
Qed.
Lemma queue_same t l q : waiting t q = l -> forall u, waiting u q = if decide (t = u) then l else waiting u q.
Proof. intros Hw u. by destruct (decide (t = u)) as [<-|]. Qed.
Lemma queue_leaves t q w q' f : waiting t q = [f] -> dequeued t q = Some (w, q') -> wt_for w = f /\ forall u, waiting u q' = if decide (t = u) then [] else waiting u q.
Proof.
  intros Hw Hd. pose proof (waiting_dequeued _ _ _ _ Hd) as H. assert (wt_for w = f /\ waiting t q' = []) as [Hf Hn].
  { specialize (H t). rewrite Hw, decide_True in H by done. by injection H as <- <-. }
  split; [done|]. intros u. destruct (decide (t = u)) as [<-|Hu]; [done|]. by rewrite (H u), decide_False.
Qed.
(** Asking for paths, or for the answer. *)
Definition ask_for (t : nat) (f : wait_for) : path_call := match f with ForPath x => GetPath t x | ForPaths x y => GetPath2 t x y | ForUnlock _ => WaitPath t end.
Lemma asking_step t (b : bool) f s ans s' : (forall ino, f <> ForUnlock ino) -> waiting t (lockq s) = (if b then [f] else []) -> Forall shaped (lockq s) ->
  queue_step (lockq s) (if b then WaitPath t else ask_for t f) ans (lockq s') ->
  gained (lockq s) (if b then WaitPath t else ask_for t f) ans = asked f ans /\ Forall shaped (lockq s') /\
  (ans = Waits /\ (forall u, waiting u (lockq s') = if decide (t = u) then [f] else waiting u (lockq s)) \/
   exists r, ans = Gets r /\ shaped_for f r /\ forall u, waiting u (lockq s') = if decide (t = u) then [] else waiting u (lockq s)).
Proof.
  intros Hf Hw Hs Hq. destruct b.
  - destruct (waiting_some _ _ _ _ Hw) as (w & q & Hd & Ew). cbn [gained]. rewrite Hd, Ew. split; [done|]. cbn in Hq. destruct ans as [r| | |]; try done.
    + destruct Hq as (w' & Hd' & Hr). rewrite Hd in Hd'. injection Hd' as <- ->. destruct (shaped_dequeued _ _ _ _ Hd Hs) as [Hsw Hsq]. split; [done|]. right. exists r.
      split; [done|]. split; [rewrite <- Ew; by apply Hsw|]. by apply (queue_leaves _ _ _ _ _ Hw Hd).
    + rewrite Hq. split; [done|]. left. split; [done|]. by apply queue_same.
  - destruct f as [ino|x|x y]; [by destruct (Hf ino)|..]; (split; [done|]); cbn in Hq; destruct ans as [r| | |]; try done;
      (destruct Hq as [Eq Hr]; rewrite Eq; split; [done|]; right; exists r; split; [done|]; split; [done|]; by apply queue_same) || (rewrite Hq; match goal with |- context [asks t ?g] => destruct (queue_asks t g _ Hw Hs) as [H1 H2] end; split; [exact H2|]; left; split; [done|exact H1]).
Qed.
Lemma pre_of strict w t tk a k : world_ok strict w -> tasks w !! t = Some tk -> tk_prog tk = Act a k -> pre strict (tk_hold tk) a.
Proof.
  intros Hw Ht Hp. assert (tidy strict (tk_prog tk) (fun _ h => h = finished) (tk_hold tk)) as H by exact (wo_tidy _ _ Hw t tk Ht). rewrite Hp in H. by destruct H.
Qed.
Lemma queue_of strict w t tk : world_ok strict w -> tasks w !! t = Some tk -> waiting t (lockq (lib w)) = waits_for tk.
Proof. intros Hw Ht. rewrite (wo_queue _ _ Hw t). unfold waits_of. by rewrite Ht. Qed.
Lemma path_system strict w t tk c rest : world_ok strict w -> tasks w !! t = Some tk -> courteous (lib w) (all_claims (tasks w)) -> call_ok (lib w) c ->
  h_claims (tk_hold tk) ≡ₚ returned c ++ rest -> exists ans s, run_call mem c (lib w) = Done ans s /\
    system_ok s (gained (lockq (lib w)) c ans ++ rest ++ all_claims (delete t (tasks w))) /\ queue_step (lockq (lib w)) c ans (lockq s).
Proof.
  intros Hw Ht Hco Hc Hr. destruct (system_call_ok mem (lib w) (all_claims (tasks w)) (rest ++ all_claims (delete t (tasks w))) c) as (ans & s & Hrun & Hs); try done; [apply Hw| |].
  - by rewrite (claims_delete _ t tk Ht), Hr, (assoc_L (++)).
  - exists ans, s. split; [done|]. split; [done|]. apply (run_call_queue mem c (lib w)); [|done]. intros op -> ino n ->. destruct Hc as (_ & _ & _ & Hn). by apply (Hn ino n).
Qed.
Definition goes_well (strict : bool) (w : world) (t : nat) (tk : task) (a : action) (k : result a -> io unit) (c : path_call) : Prop :=
  exists ans s, run_call mem c (lib w) = Done ans s /\
    (ans = Waits /\ world_ok strict {| lib := s; dirs := dirs w; tasks := <[t := {| tk_prog := Act a k; tk_waits := true; tk_hold := tk_hold tk |}]> (tasks w) |} \/
     exists r, conclude a ans = Some r /\ world_ok strict (goes_on w t tk s (dirs w) a k r)).
Lemma dirs_same strict w t tk s a k r : world_ok strict w -> tasks w !! t = Some tk -> (match a with ALockDir _ | AUnlockDir _ _ => False | _ => True end) ->
  dirs_ok (dirs w) (tasks (goes_on w t tk s (dirs w) a k r)).
Proof. intros Hw Ht Ha. apply (dirs_keep (dirs w) _ _ t tk); [apply Hw|done|by apply post_dir|done]. Qed.
Lemma ask_goes strict w t tk a k f : world_ok strict w -> tasks w !! t = Some tk -> tk_prog tk = Act a k -> courteous (lib w) (all_claims (tasks w)) ->
  want a = [f] -> (forall ino, f <> ForUnlock ino) -> (tk_waits tk = false -> call_ok (lib w) (ask_for t f)) -> (strict = true -> h_claims (tk_hold tk) = []) ->
  (match a with ALockDir _ | AUnlockDir _ _ => False | _ => True end) ->
  (forall r, shaped_for f r -> exists x, conclude a (Gets r) = Some x /\ fits a x /\ h_claims (post (tk_hold tk) a x) ≡ₚ asked f (Gets r) ++ h_claims (tk_hold tk)) ->
  goes_well strict w t tk a k (if tk_waits tk then WaitPath t else ask_for t f).
Proof.
  intros Hw Ht Hp Hco Ha Hf Hc Hst Hd Hr. pose proof (queue_of _ _ _ _ Hw Ht) as Hq. unfold waits_for in Hq. rewrite Hp, Ha in Hq.
  assert (returned (if tk_waits tk then WaitPath t else ask_for t f) = []) as Eret by (destruct (tk_waits tk); [done|by destruct f]).
  destruct (path_system strict w t tk (if tk_waits tk then WaitPath t else ask_for t f) (h_claims (tk_hold tk)) Hw Ht Hco) as (ans & s & Hrun & Hs & Hstep); [destruct (tk_waits tk); [done|by apply Hc]|by rewrite Eret|].
  destruct (asking_step t (tk_waits tk) f (lib w) ans s Hf Hq (wo_shaped _ _ Hw) Hstep) as (Hg & Hsh & [[-> Hw']|(r & -> & Hrs & Hw')]); rewrite Hg in Hs.
  - exists Waits, s. split; [done|]. left. split; [done|]. apply (suspended strict w t tk); try done; rewrite Ha; done.
  - exists (Gets r), s. split; [done|]. right. destruct (Hr r Hrs) as (x & Hx & Hfit & Hcl). exists x. split; [done|]. apply (resumed strict w t tk); try done; [|by apply (dirs_same strict)].
    by rewrite Hcl, <- (assoc_L (++)).
Qed.
Lemma not_waiting strict w t tk a k : world_ok strict w -> tasks w !! t = Some tk -> tk_prog tk = Act a k -> want a = [] -> tk_waits tk = false /\ waiting t (lockq (lib w)) = [].
Proof.
  intros Hw Ht Hp Ha. rewrite (queue_of _ _ _ _ Hw Ht). pose proof (wo_marked _ _ Hw t tk Ht) as Hm. unfold waits_for in *. cbn in Hm. rewrite Hp, Ha in *.
  destruct (tk_waits tk); [|done]. by destruct (Hm eq_refl).
Qed.
Lemma without_claims h l rest : h_claims h ≡ₚ rev l ++ rest -> h_claims (without l h) ≡ₚ rest.
Proof.
  cbn. generalize (h_claims h). revert rest. induction l as [|c l IH]; intros rest l' H; [done|]. cbn [foldr]. apply remove_one_perm. apply (IH (c :: rest)).
  rewrite H. cbn. by rewrite <- (assoc_L (++)).
Qed.
Lemma free_goes strict w t tk a k c rest (x : result a) : world_ok strict w -> tasks w !! t = Some tk -> tk_prog tk = Act a k -> courteous (lib w) (all_claims (tasks w)) ->
  want a = [] -> call_ok (lib w) c -> h_claims (tk_hold tk) ≡ₚ returned c ++ rest -> (match a with ALockDir _ | AUnlockDir _ _ => False | _ => True end) ->
  (match c with FreePath _ | FreePath2 _ _ => True | _ => False end) -> conclude a Finishes = Some x -> fits a x -> h_claims (post (tk_hold tk) a x) ≡ₚ rest ->
  goes_well strict w t tk a k c.
Proof.
  intros Hw Ht Hp Hco Ha Hc Hr Hd Hfree Hx Hfit Hcl. destruct (not_waiting _ _ _ _ _ _ Hw Ht Hp Ha) as [_ Hq].
  destruct (path_system strict w t tk c rest Hw Ht Hco Hc Hr) as (ans & s & Hrun & Hs & Hstep).
  assert (gained (lockq (lib w)) c ans = [] /\ ans = Finishes /\ Forall2 woken (lockq (lib w)) (lockq s)) as (Hg & -> & Hwk) by (destruct c; try done; by destruct Hstep).
  exists Finishes, s. split; [done|]. right. exists x. split; [done|]. rewrite Hg in Hs. apply (resumed strict w t tk); try done; [by rewrite Hcl| | |by apply (dirs_same strict)].
  - intros u. rewrite (waiting_woken u _ _ Hwk). by apply queue_same.
  - apply (shaped_woken _ _ Hwk), Hw.
Qed.
(** A forgetting waits only for a node that somebody has a path through. *)
Lemma forget_at_once t ino n s s' held : system_ok s held -> courteous s held -> allowed (keeps s) (view s) (Forget ino n) -> at_once s ino n ->
  run_call mem (ForgetNode t ino n) s <> Done Waits s'.
Proof.
  intros Hs Hco Ha Hat. destruct (Z.eq_dec ino FUSE_ROOT_ID) as [->|Hne]; [done|]. pose proof Hs as [Ho Hl _ _]. pose proof (total_bound s held Hco) as Hb.
  destruct (forget_call_ok s _ ino n Ho ltac:(lia) Hne) as [Hun _]. destruct (forget_node_ok mem t s ino n (io_ready _ _ Ho) Hl Hun Ha) as (b' & s1 & Hrun & _ & _ & _ & _ & Hwhy).
  destruct (Hwhy Hne) as (p & m & Hm & Hid & E). cbn [run_call]. unfold mbind, prog_bind. rewrite Hrun. destruct b'; [done|]. destruct (Z.eqb_spec (nlookup m) n) as [En|]; [|done].
  by rewrite (Hat p m Hm Hid En) in E.
Qed.
Lemma forget_goes strict w t tk ino n k : world_ok strict w -> tasks w !! t = Some tk -> tk_prog tk = Act (AForget ino n) k -> rules w tk (AForget ino n) ->
  goes_well strict w t tk (AForget ino n) k (if tk_waits tk then ForgetWait t ino n else ForgetNode t ino n).
Proof.
  intros Hw Ht Hp (Hco & Ha & Hat). pose proof (queue_of _ _ _ _ Hw Ht) as Hq. pose proof (wo_marked _ _ Hw t tk Ht) as Hm. cbn in Hm. unfold waits_for in *. rewrite Hp in *.
  assert (forall s, system_ok s ((h_claims (tk_hold tk) ++ all_claims (delete t (tasks w)))) -> (forall u, waiting u (lockq s) = if decide (t = u) then [] else waiting u (lockq (lib w))) ->
    Forall shaped (lockq s) -> world_ok strict (goes_on w t tk s (dirs w) (AForget ino n) k tt)) as Hdone.
  { intros s Hs Hu Hsh. apply (resumed strict w t tk); try done. by apply (dirs_same strict). }
  destruct (tk_waits tk) eqn:Hwt.
  - destruct (Hm eq_refl) as [Hne Hst]. assert (ino <> FUSE_ROOT_ID) as Hroot by (intros ->; by apply Hne). assert (want (AForget ino n) = [ForUnlock ino]) as Hwn by (cbn; by destruct (Z.eqb_spec ino FUSE_ROOT_ID)).
    rewrite Hwn in Hq. destruct (waiting_some _ _ _ _ Hq) as (x & q & Hd & Hx).
    destruct (path_system strict w t tk (ForgetWait t ino n) (h_claims (tk_hold tk)) Hw Ht Hco) as (ans & s & Hrun & Hs & Hstep); [split; [done|split; [done|by exists x, q]]|done|].
    exists ans, s. split; [done|]. destruct ans; cbn [queue_step gained] in *; try done.
    + left. split; [done|]. apply (suspended strict w t tk); try done.
      * intros u. rewrite Hwn. destruct Hstep as [->| ->]; rewrite ?waiting_unsignal; by apply queue_same.
      * destruct Hstep as [->| ->]; [|apply shaped_unsignal]; apply Hw.
    + right. exists tt. split; [done|]. destruct Hstep as (y & Hd'). rewrite Hd in Hd'. injection Hd' as -> ->. apply Hdone; [done|by apply (queue_leaves _ _ _ _ _ Hq Hd)|].
      by apply (shaped_dequeued _ _ _ _ Hd), Hw.
  - destruct (path_system strict w t tk (ForgetNode t ino n) (h_claims (tk_hold tk)) Hw Ht Hco Ha) as (ans & s & Hrun & Hs & Hstep); [done|].
    exists ans, s. split; [done|]. destruct ans; cbn [queue_step gained] in *; try done.
    + left. split; [done|]. assert (want (AForget ino n) = [ForUnlock ino]) as Hwn by (cbn; destruct (Z.eqb_spec ino FUSE_ROOT_ID) as [->|]; done).
      destruct (queue_asks t (ForUnlock ino) _ Hq (wo_shaped _ _ Hw)) as [H1 H2]. apply (suspended strict w t tk); try done; rewrite ?Hwn, ?Hstep; try done.
      intros _. destruct Hat as [?|Hat]; [done|]. exfalso. by apply (forget_at_once t ino n _ s _ (wo_system _ _ Hw) Hco Ha Hat).
    + right. exists tt. split; [done|]. apply Hdone; rewrite ?Hstep; [done|by apply queue_same|apply Hw].
Qed.
Lemma names_goes strict w t tk op k : world_ok strict w -> tasks w !! t = Some tk -> tk_prog tk = Act (ANames op) k -> rules w tk (ANames op) ->
  goes_well strict w t tk (ANames op) k (OnNames op).
Proof.
  intros Hw Ht Hp (Hco & Hroom & Ha & Hun). destruct (not_waiting _ _ _ _ _ _ Hw Ht Hp eq_refl) as [_ Hq]. pose proof (pre_of _ _ _ _ _ _ Hw Ht Hp) as Hpre.
  destruct (path_system strict w t tk (OnNames op) (h_claims (tk_hold tk)) Hw Ht Hco) as (ans & s & Hrun & Hs & Eq & z & ->); [|done|].
  - split; [done|]. split; [done|]. split; [done|]. by intros ino n ->.
  - exists (Returns z), s. split; [done|]. right. exists z. split; [done|]. apply (resumed strict w t tk); rewrite ?Eq; try done; [by apply queue_same|apply Hw|by apply (dirs_same strict)].
Qed.
Lemma path_goes strict w t tk a k c : world_ok strict w -> tasks w !! t = Some tk -> tk_prog tk = Act a k -> rules w tk a -> path_call_of t (tk_waits tk) a = Some c ->
  goes_well strict w t tk a k c.
Proof.
  intros Hw Ht Hp Hr Hc. pose proof (pre_of _ _ _ _ _ _ Hw Ht Hp) as Hpre. pose proof Hr as [Hco Hk].
  destruct a as [x|x y|d|d e| |ino n|op| | | | | | | | | | | | | | | | | |]; try done; cbn [path_call_of] in Hc; injection Hc as <-.
  - apply (ask_goes strict w t tk (AGet x) k (ForPath x)); try done. intros [e|[|g [|]]] H; try done; [by exists (inl e)|exists (inr (x, g))]. split; [done|]. split; [by intros c [= <-]|done].
  - apply (ask_goes strict w t tk (AGet2 x y) k (ForPaths x y)); try done. intros [e|[|g [|g' [|]]]] H; try done; [by exists (inl e)|exists (inr ((x, g), (y, g')))]. split; [done|]. split; [by intros c d [= <- <-]|done].
  - destruct (elem_of_Permutation (h_claims (tk_hold tk)) d) as [Hex _]. destruct (Hex Hpre) as [rest Hrest]. apply (free_goes strict w t tk (AFree d) k (FreePath d) rest tt); try done. by apply without_claims.
  - apply (free_goes strict w t tk (AFree2 d e) k (FreePath2 d e) [] tt); try done; [by rewrite app_nil_r; cbn; rewrite Hpre|]. apply without_claims. cbn. by rewrite Hpre.
  - by apply forget_goes.
  - by apply names_goes.
Qed.

(** ** The other actions *)

Lemma holds strict w t tk c : world_ok strict w -> tasks w !! t = Some tk -> c ∈ h_claims (tk_hold tk) -> held_up (lib w) c.
Proof.
  intros Hw Ht Hc. destruct (wo_system _ _ Hw) as [[_ _ Hh] _ _ _]. rewrite Forall_forall in Hh. apply Hh. apply elem_of_app. right. rewrite (claims_delete _ t tk Ht). by apply elem_of_app; left.
Qed.
Lemma section_goes strict w t tk a k m : world_ok strict w -> tasks w !! t = Some tk -> tk_prog tk = Act a k -> rules w tk a -> section_of mem a = Some m ->
  exists r s, m (lib w) = Done r s /\ world_ok strict (goes_on w t tk s (dirs w) a k r).
Proof.
  intros Hw Ht Hp [Hco Hk] Hm. pose proof (pre_of _ _ _ _ _ _ Hw Ht Hp) as Hpre. pose proof (wo_system _ _ Hw) as Hs.
  assert (exists r s, m (lib w) = Done r s /\ system_ok s (all_claims (tasks w)) /\ lockq s = lockq (lib w) /\ fits a r /\ h_claims (post (tk_hold tk) a r) = h_claims (tk_hold tk)) as (r & s & Hrun & Hs' & Eq & Hf & Hcl).
  2: { exists r, s. split; [done|]. assert (want a = []) as Ha by (by destruct a). destruct (not_waiting _ _ _ _ _ _ Hw Ht Hp Ha) as [_ Hq].
    apply (resumed strict w t tk); rewrite ?Eq; try done; [|by apply queue_same|apply Hw|apply (dirs_same strict); [done|done|by destruct a]]. rewrite Hcl. apply (system_perm s (all_claims (tasks w))); [by apply claims_delete|done]. }
  destruct a as [x|x y|d|d e|x|ino n|op|X ino f|d nm|p|d nm|ino|ino|p| | | | | | | | | | |]; try done; cbn [section_of] in Hm; injection Hm as <-; cbn [pre] in Hpre.
  - destruct Hk as (Ha & (v & Hv & _) & _), Hpre as [Hwr _]. pose proof (wo_system _ _ Hw) as [[Hr _ _] _ _ _]. destruct Hr as (Hsh & _ & Hrk). destruct (view_node (lib w) _ _ Hsh Hv) as (p & n & Hn & Hid & _).
    destruct Hco as ((Hshort & Hroom) & _). destruct (peek_ok mem x p n (lib w)) as (r & j & Hrun & _); [by split_and!|done..|].
    exists r, (set_allocs j (lib w)). split; [done|]. split; [apply (order_system (lib w)); try done; intros C; by apply tree_eq_order|]. by destruct r.
  - destruct Hk as (p & n & Hn & Hid & Hf). destruct (f (clock (lib w)) n) as [[x n']|] eqn:E; [|done].
    destruct (at_node_ok ino f (lib w) _ p n x n' Hs Hn Hid E (Hpre _ _ _ _ E)) as (s' & H1 & H2 & H3). by exists x, s'.
  - destruct (find_ok d nm (lib w) _ Hs) as [r Hr]. by exists r, (lib w).
  - destruct Hpre as (c & Hc & Ec). destruct p as [p|]; [|done]. destruct (holds _ _ _ _ c Hw Ht Hc) as [_ Hh]. destruct (Hh p Ec) as (n & Hn & _).
    exists n, (lib w). split; [|done]. unfold deref_in. step ltac:(exact eq_refl). by apply deref_some.
  - destruct Hpre as (c & Hc & <-). destruct (hidden_ok mem (ask_ino c.1) nm (lib w) _ Hs (proj1 Hco)) as (r & s' & Hrun & Hs' & Eq & _).
    exists r, s'. split; [done|]. split; [done|]. split; [done|]. split; [done|]. by destruct r as [[? [|]]|].
Qed.
Lemma outside_goes strict w t tk a k r : world_ok strict w -> tasks w !! t = Some tk -> tk_prog tk = Act a k -> outside a -> world_ok strict (goes_on w t tk (lib w) (dirs w) a k r).
Proof.
  intros Hw Ht Hp Ho. assert (want a = []) as Ha by (by destruct a). destruct (not_waiting _ _ _ _ _ _ Hw Ht Hp Ha) as [_ Hq].
  apply (resumed strict w t tk); try done; [by destruct a| |by apply queue_same|apply Hw|apply (dirs_same strict); [done|done|by destruct a]].
  apply (system_perm _ (all_claims (tasks w))); [|apply Hw]. rewrite (claims_delete _ t tk Ht). by destruct a.
Qed.

Lemma dirs_locks m ts t tk tk' d dh : dirs_ok m ts -> ts !! t = Some tk -> h_dir (tk_hold tk) = None -> h_dir (tk_hold tk') = Some d -> (exists dh', m !! d = Some (false, dh')) ->
  dirs_ok (<[d := (true, dh)]> m) (<[t := tk']> ts).
Proof.
  intros [H1 H2] Ht Hn Hd (dh' & Hm). assert (forall u x, ts !! u = Some x -> h_dir (tk_hold x) <> Some d) as Hfree.
  { intros u x Hu Hx. assert (locked_dir m d) as (y & Hy) by (apply H1; by exists u, x). congruence. }
  split.
  - intros e. destruct (decide (e = d)) as [->|Hne].
    + split; [intros _; exists t, tk'; by rewrite lookup_insert_eq|]. intros _. exists dh. apply lookup_insert_eq.
    + unfold locked_dir. rewrite lookup_insert_ne by done. fold (locked_dir m e). rewrite H1. split; intros (u & x & Hu & Hx).
      * exists u, x. rewrite lookup_insert_ne; [done|]. intros ->. congruence.
      * apply lookup_insert_Some in Hu as [[<- <-]|[? Hu]]; [congruence|by exists u, x].
  - intros u u' x x' e Hu Hu' Hx Hx'. apply lookup_insert_Some in Hu as [[<- <-]|[? Hu]], Hu' as [[<- <-]|[? Hu']]; [done| | |by apply (H2 u u' x x' e)].
    + assert (e = d) as -> by congruence. by destruct (Hfree u' x').
    + assert (e = d) as -> by congruence. by destruct (Hfree u x).
Qed.
Lemma dirs_unlocks m ts t tk tk' d dh : dirs_ok m ts -> ts !! t = Some tk -> h_dir (tk_hold tk) = Some d -> h_dir (tk_hold tk') = None -> dirs_ok (<[d := (false, dh)]> m) (<[t := tk']> ts).
Proof.
  intros [H1 H2] Ht Hd Hn. split.
  - intros e. destruct (decide (e = d)) as [->|Hne].
    + split; [intros (y & Hy); rewrite lookup_insert_eq in Hy; by injection Hy|]. intros (u & x & Hu & Hx). apply lookup_insert_Some in Hu as [[<- <-]|[Hne Hu]]; [congruence|].
      by destruct (Hne (H2 t u tk x d Ht Hu Hd Hx)).
    + unfold locked_dir. rewrite lookup_insert_ne by done. fold (locked_dir m e). rewrite H1. split; intros (u & x & Hu & Hx).
      * exists u, x. rewrite lookup_insert_ne; [done|]. intros ->. congruence.
      * apply lookup_insert_Some in Hu as [[<- <-]|[? Hu]]; [congruence|by exists u, x].
  - intros u u' x x' e Hu Hu' Hx Hx'. apply lookup_insert_Some in Hu as [[<- <-]|[? Hu]], Hu' as [[<- <-]|[? Hu']]; try congruence. by apply (H2 u u' x x' e).
Qed.
Lemma locked_insert m d b dh e : (exists dh', m !! d = Some (b, dh')) \/ (b = false /\ m !! d = None) -> locked_dir (<[d := (b, dh)]> m) e <-> locked_dir m e.
Proof.
  intros H. unfold locked_dir. destruct (decide (e = d)) as [->|Hne]; [|by rewrite lookup_insert_ne]. rewrite lookup_insert_eq.
  destruct H as [(dh' & H)|[-> H]]; rewrite H; split; intros (y & Hy); try done; injection Hy as -> _; by eexists.
Qed.
Lemma dirs_go strict w t tk a k m r : world_ok strict w -> tasks w !! t = Some tk -> tk_prog tk = Act a k -> rules w tk a -> dir_step (dirs w) a r m ->
  world_ok strict (goes_on w t tk (lib w) m a k r).
Proof.
  intros Hw Ht Hp [_ Hk] Hd. pose proof (pre_of _ _ _ _ _ _ Hw Ht Hp) as Hpre. assert (want a = []) as Ha by (by destruct a). destruct (not_waiting _ _ _ _ _ _ Hw Ht Hp Ha) as [_ Hq].
  apply (resumed strict w t tk); try done; [by destruct a| |by apply queue_same|apply Hw|].
  { apply (system_perm _ (all_claims (tasks w))); [|apply Hw]. rewrite (claims_delete _ t tk Ht). by destruct a. }
  pose proof (wo_dirs _ _ Hw) as Hdirs. destruct a; try done; cbn [dir_step] in Hd; cbn [pre] in Hpre.
  - destruct Hd as [Hn ->]. apply (dirs_keep (dirs w) _ _ t tk); try done. intros e. apply locked_insert. by right.
  - destruct Hd as (b & Hb & ->). by apply (dirs_keep (dirs w) _ _ t tk).
  - destruct Hd as (b & dh & Hb & ->). apply (dirs_keep (dirs w) _ _ t tk); try done. intros e. apply locked_insert. left. by eexists.
  - destruct Hd as [Hb ->]. apply (dirs_locks _ _ t tk); try done; [apply Hpre|by eexists].
  - destruct Hd as (dh' & Hb & ->). by apply (dirs_unlocks _ _ t tk).
  - destruct Hd as [_ ->]. destruct Hk as (dh & Hb). apply (dirs_keep (dirs w) _ _ t tk); try done. intros e. unfold locked_dir. destruct (decide (e = d)) as [->|Hne]; [|by rewrite lookup_delete_ne].
    rewrite lookup_delete_eq. split; intros (y & Hy); congruence.
Qed.
Lemma end_goes strict w t tk : world_ok strict w -> tasks w !! t = Some tk -> tk_prog tk = Ret tt -> world_ok strict {| lib := lib w; dirs := dirs w; tasks := delete t (tasks w) |}.
Proof.
  intros Hw Ht Hp. pose proof Hw as [W1 W2 W3 W4 W5 [D1 D2]]. assert (tk_hold tk = finished) as Hh.
  { assert (tidy strict (tk_prog tk) (fun _ h => h = finished) (tk_hold tk)) as H by exact (W2 t tk Ht). by rewrite Hp in H. }
  split; cbn [lib dirs tasks]; try done.
  - apply (system_perm _ (all_claims (tasks w))); [|done]. by rewrite (claims_delete _ t tk Ht), Hh.
  - by apply map_Forall_delete.
  - intros u. rewrite W3. unfold waits_of. destruct (decide (u = t)) as [->|Hne]; [|by rewrite lookup_delete_ne]. rewrite lookup_delete_eq, Ht. unfold waits_for. rewrite Hp. by destruct (tk_waits tk).
  - by apply map_Forall_delete.
  - split.
    + intros d. rewrite D1. split; intros (u & x & Hu & Hx).
      * exists u, x. rewrite lookup_delete_ne; [done|]. intros <-. rewrite Ht in Hu. injection Hu as <-. by rewrite Hh in Hx.
      * exists u, x. split; [|done]. by apply lookup_delete_Some in Hu as [_ ?].
    + intros u u' x x' d [_ Hu]%lookup_delete_Some [_ Hu']%lookup_delete_Some. by apply (D2 u u' x x' d).
Qed.

(** ** Every step keeps to the invariant *)

Lemma conclude_waits a : conclude a Waits = None.
Proof. by destruct a. Qed.
Lemma step_keeps strict w t w' : world_ok strict w -> rules_of w t -> step w t w' -> world_ok strict w'.
Proof.
  intros Hw Hr Hst. destruct Hst as [tk a k c s Ht Hp Hc Hrun|tk a k c s ans r Ht Hp Hc Hrun Hcl|tk a k m s r Ht Hp Hm Hrun|tk a k r Ht Hp Ho|tk a k m r Ht Hp Hd|tk Ht Hp].
  - destruct (path_goes strict w t tk a k c Hw Ht Hp (Hr tk a k Ht Hp) Hc) as (ans & s' & Hrun' & [[-> Hok]|(r & Hcl & _)]); rewrite Hrun in Hrun'; [by injection Hrun' as <-|].
    injection Hrun' as <- _. by rewrite conclude_waits in Hcl.
  - destruct (path_goes strict w t tk a k c Hw Ht Hp (Hr tk a k Ht Hp) Hc) as (ans' & s' & Hrun' & [[-> _]|(r' & Hcl' & Hok)]); rewrite Hrun in Hrun'; injection Hrun' as -> ->.
    + by rewrite conclude_waits in Hcl.
    + rewrite Hcl in Hcl'. by injection Hcl' as <-.
  - destruct (section_goes strict w t tk a k m Hw Ht Hp (Hr tk a k Ht Hp) Hm) as (r' & s' & Hrun' & Hok). rewrite Hrun in Hrun'. by injection Hrun' as <- <-.
  - by apply outside_goes.
  - apply (dirs_go strict); try done. by apply (Hr tk a k).
  - by apply (end_goes strict w t tk).
Qed.
Lemma starts_ok strict w t q : world_ok strict w -> tasks w !! t = None -> usual strict q -> world_ok strict (starts w t q).
Proof.
  intros [W1 W2 W3 W4 W5 [D1 D2]] Ht [Hq Htwo]. split; cbn [lib dirs tasks starts]; try done.
  - rewrite claims_insert, delete_id by done. done.
  - apply map_Forall_insert_2; [|done]. by apply request_tidy.
  - intros u. rewrite W3. unfold waits_of. destruct (decide (u = t)) as [->|Hne]; [by rewrite lookup_insert_eq, Ht|by rewrite lookup_insert_ne].
  - by apply map_Forall_insert_2.
  - assert (forall u x d, <[t := {| tk_prog := fuse_path_ops cf has q; tk_waits := false; tk_hold := fresh |}]> (tasks w) !! u = Some x -> h_dir (tk_hold x) = Some d -> tasks w !! u = Some x) as Hback.
    { intros u x d [[<- <-]|[_ Hu]]%lookup_insert_Some Hd; done. }
    split.
    + intros d. rewrite D1. split; intros (u & x & Hu & Hx); exists u, x; (split; [|done]); [|by apply (Hback u x d)]. rewrite lookup_insert_ne; [done|]. intros <-. congruence.
    + intros u u' x x' d Hu Hu' Hx Hx'. by apply (D2 u u' x x' d); eauto.
Qed.
Lemma new_world_ok strict s : paths_reachable mem cf s [] -> lockq s = [] -> world_ok strict {| lib := s; dirs := ∅; tasks := ∅ |}.
Proof.
  intros Hs Hq. split; cbn [lib dirs tasks]; rewrite ?Hq; try done; [by apply (reachable_system mem cf)|]. split; [|done].
  intros d. split; intros H; [by destruct H|destruct H as (t & x & H & _); by rewrite lookup_empty in H].
Qed.
Lemma serving_ok strict w : serving strict w -> world_ok strict w.
Proof.
  induction 1 as [s Hs Hq|w t w' _ IH Hr Hst|w t q _ IH Ht Hq]; [by apply new_world_ok|by eapply step_keeps|by apply starts_ok].
Qed.

(** ** Every thread can go on, but for the mutex of a directory handle *)

Definition blocked (w : world) (tk : task) : Prop := exists d k, tk_prog tk = Act (ALockDir d) k /\ locked_dir (dirs w) d.
Lemma blocked_dec w tk : blocked w tk \/ ~ blocked w tk.
Proof.
  unfold blocked. destruct (tk_prog tk) as [[]|a k]; [right; by intros (d & k & [= ] & _)|]. destruct a as [| | | | | | | | | | | | | | | | | | | | | |d| |];
    try (right; intros (d' & k' & H & _); discriminate H).
  destruct (dirs w !! d) as [[[|] dh]|] eqn:E; [left; exists d, k; split; [done|by exists dh]|right..]; intros (d' & k' & H & dh' & Hd); injection H as <- _; congruence.
Qed.
Lemma outside_answers a : outside a -> exists r : result a, True.
Proof. destruct a as [| | | | | | | | | | | | | |c| | | | | | | | | |]; try done; intros _; cbn; [|by exists 0|by exists true|by exists (0, [])]. destruct c; cbn;
  match goal with
  | |- exists _ : Z, _ => by exists 0
  | |- exists _ : dir_run, _ => by exists (DirDone 0)
  | |- exists _ : Z * stat, _ => by exists (0, zero_stat)
  | |- exists _ : Z * statvfs, _ => by exists (0, zero_statvfs)
  | |- exists _ : Z * statx, _ => by exists (0, zero_statx)
  | fi : fuse_file_info |- exists _ : Z * fuse_file_info, _ => by exists (0, fi)
  | l : flock |- exists _ : Z * flock, _ => by exists (0, l)
  | |- exists _ : Z * string, _ => by exists (0, ""%string)
  | |- exists _ : Z * list Z, _ => by exists (0, [])
  | |- exists _ : Z * option fuse_bufvec, _ => by exists (0, None)
  | |- exists _ : Z * Z, _ => by exists (0, 0)
  end. Qed.
Lemma can_step strict w t tk : world_ok strict w -> rules_of w t -> tasks w !! t = Some tk -> ~ blocked w tk -> exists w', step w t w'.
Proof.
  intros Hw Hr Ht Hb. destruct (tk_prog tk) as [[]|a k] eqn:Hp; [eexists; by apply (step_ends w t tk)|]. pose proof (Hr tk a k Ht Hp) as Hk.
  destruct (path_call_of t (tk_waits tk) a) as [c|] eqn:Hc.
  { destruct (path_goes strict w t tk a k c Hw Ht Hp Hk Hc) as (ans & s & Hrun & [[-> _]|(r & Hcl & _)]); eexists; [by apply (step_waits w t tk a k c s)|by apply (step_call w t tk a k c s ans r)]. }
  destruct (section_of mem a) as [m|] eqn:Hm.
  { destruct (section_goes strict w t tk a k m Hw Ht Hp Hk Hm) as (r & s & Hrun & _). eexists. by apply (step_section w t tk a k m s r). }
  assert (forall r m, dir_step (dirs w) a r m -> exists w', step w t w') as Hdir by (intros r m Hd; eexists; by apply (step_dirs w t tk a k m r)).
  assert (outside a -> exists w', step w t w') as Hout by (intros Ho; destruct (outside_answers a Ho) as [r _]; eexists; by apply (step_outside w t tk a k r)).
  pose proof (pre_of _ _ _ _ _ _ Hw Ht Hp) as Hpre. pose proof (wo_dirs _ _ Hw) as [D1 _].
  destruct Hk as [_ Hk]. destruct a; try done; try (by apply Hout); cbn [dir_step] in Hdir.
  - apply (Hdir (base.fresh (dom (dirs w))) (<[base.fresh (dom (dirs w)) := (false, dh)]> (dirs w))). split; [apply not_elem_of_dom, is_fresh|done].
  - destruct Hk as [[b dh'] Hd]. apply (Hdir dh' (dirs w)). by exists b.
  - destruct Hk as [[b dh'] Hd]. eapply (Hdir tt). by exists b, dh'.
  - destruct Hk as [[[|] dh'] Hd]; [|by eapply (Hdir dh')]. exfalso. apply Hb. exists d, k. split; [done|by exists dh'].
  - assert (locked_dir (dirs w) d) as (dh' & Hd) by (apply D1; by exists t, tk). eapply (Hdir tt). by exists dh'.
  - destruct Hk as [dh' Hd]. eapply (Hdir tt). by split; [exists (false, dh')|].
Qed.

(** ** Somebody goes on *)

Definition marked (w : world) (t : nat) : Prop := exists tk, tasks w !! t = Some tk /\ tk_waits tk = true.
(** A thread that only waits on has not gone on. *)
Definition idle (w : world) (t : nat) (w' : world) : Prop := marked w t /\ marked w' t.
Definition goes (w : world) : Prop := exists t w', step w t w' /\ ~ idle w t w'.
Lemma unmarked_goes strict w t tk : world_ok strict w -> rules_of w t -> tasks w !! t = Some tk -> ~ blocked w tk -> tk_waits tk = false -> goes w.
Proof.
  intros Hw Hr Ht Hb Hn. destruct (can_step strict w t tk Hw Hr Ht Hb) as [w' Hst]. exists t, w'. split; [done|]. intros [(x & Hx & Hwx) _]. congruence.
Qed.
Lemma answer_goes w t tk a k c ans s r : tasks w !! t = Some tk -> tk_prog tk = Act a k -> path_call_of t (tk_waits tk) a = Some c -> run_call mem c (lib w) = Done ans s ->
  conclude a ans = Some r -> goes w.
Proof.
  intros Ht Hp Hc Hrun Hcl. exists t, (goes_on w t tk s (dirs w) a k r). split; [by apply (step_call w t tk a k c s ans r)|]. intros [_ (x & Hx & Hwx)].
  unfold goes_on in Hx. cbn [tasks] in Hx. rewrite lookup_insert_eq in Hx. by injection Hx as <-.
Qed.
Lemma path_task strict w t tk f : world_ok strict w -> tasks w !! t = Some tk -> waiting t (lockq (lib w)) = [f] -> tk_waits tk = true /\ exists a k, tk_prog tk = Act a k /\ want a = [f].
Proof.
  intros Hw Ht Hq. rewrite (queue_of _ _ _ _ Hw Ht) in Hq. unfold waits_for in Hq. destruct (tk_waits tk); [|done]. split; [done|]. destruct (tk_prog tk) as [|a k]; [done|]. by exists a, k.
Qed.
Lemma waiting_one strict w t : world_ok strict w -> waiting t (lockq (lib w)) = [] \/ exists f tk, waiting t (lockq (lib w)) = [f] /\ tasks w !! t = Some tk.
Proof.
  intros Hw. rewrite (wo_queue _ _ Hw t). unfold waits_of. destruct (tasks w !! t) as [tk|]; [|by left]. unfold waits_for. destruct (tk_waits tk); [|by left].
  destruct (tk_prog tk) as [|a k]; [by left|]. destruct a; try (by left); cbn [want]; try (by right; eexists _, tk). destruct (ino =? FUSE_ROOT_ID); [by left|by right; eexists _, tk].
Qed.
Lemma wait_path_answered t s w q r : "lock" ∉ owned s -> dequeued t (lockq s) = Some (w, q) -> wt_signal w = true -> wt_done w = Some r -> wait_path t s = Done (Some r) (set_lockq q s).
Proof.
  intros Hl Hd Hsig Hr. unfold wait_path. erewrite locked_call; [|exact Hl|cbn; unfold mbind at 1, prog_bind at 1, pget; cbn; rewrite Hd, Hsig, Hr; reflexivity|reflexivity]. by destruct s.
Qed.
Lemma answered_goes strict w t w0 : world_ok strict w -> rules_of w t -> w0 ∈ lockq (lib w) -> wt_thread w0 = t -> wt_done w0 <> None -> goes w.
Proof.
  intros Hw Hr Hin Hth Hd. pose proof (wo_system _ _ Hw) as [_ Hl Han _]. rewrite Forall_forall in Han. destruct (Han w0 Hin Hd) as [Hsig Hun].
  pose proof (waiting_in t _ _ Hin Hth) as Hwin. destruct (waiting_one strict w t Hw) as [E|(f & tk & Hq & Ht)]; [rewrite E in Hwin; by apply not_elem_of_nil in Hwin|].
  rewrite Hq in Hwin. apply list_elem_of_singleton in Hwin. destruct (path_task strict w t tk f Hw Ht Hq) as (Hwt & a & k & Hp & Ha).
  destruct (waiting_some _ _ _ _ Hq) as (w1 & q & Hdq & Hw1). destruct (dequeued_some _ _ _ _ Hdq) as [Hth1 Hperm].
  assert (w0 = w1) as ->.
  { rewrite Hperm in Hin. apply elem_of_cons in Hin as [?|Hin]; [done|]. pose proof (waiting_in t q w0 Hin Hth) as H. pose proof (waiting_dequeued _ _ _ _ Hdq t) as Hsplit.
    rewrite Hq, decide_True in Hsplit by done. injection Hsplit as _ Hnil. rewrite <- Hnil in H. by apply not_elem_of_nil in H. }
  destruct (wt_done w1) as [r|] eqn:Hr1; [|done]. pose proof (wait_path_answered t _ _ _ r Hl Hdq Hsig Hr1) as Hrun. pose proof (wo_shaped _ _ Hw) as Hsh.
  destruct (shaped_dequeued _ _ _ _ Hdq Hsh) as [Hs1 _]. specialize (Hs1 r Hr1). rewrite Hw1 in Hs1.
  assert (exists x, conclude a (Gets r) = Some x) as [x Hx].
  { destruct a; try done; cbn [want] in Ha; [..|destruct (ino =? FUSE_ROOT_ID); [done|]; injection Ha as <-; by destruct (Hun ino)]; injection Ha as <-.
    - destruct r as [e|[|g [|]]]; try done; by eexists.
    - destruct r as [e|[|g [|g' [|]]]]; try done; by eexists. }
  apply (answer_goes w t tk a k (WaitPath t) (Gets r) (set_lockq q (lib w)) x); try done.
  - rewrite Hwt. by destruct a.
  - cbn [run_call]. by step ltac:(exact Hrun).
Qed.
(** Where nobody has a path, a forgetting that is woken ends. *)
Lemma forget_wait_ends t ino n s s' w q : system_ok s [] -> granted_in (lockq s) = [] -> allowed (keeps s) (view s) (Forget ino n) -> ino <> FUSE_ROOT_ID ->
  dequeued t (lockq s) = Some (w, q) -> wt_signal w = true -> forget_wait mem t ino n s <> Done false s'.
Proof.
  intros Hs Hg Ha Hne Hd Hsig H. pose proof Hs as [Ho Hl _ _]. rewrite Hg in Ho. pose proof (order_owned ({["lock"]} ∪ owned s) s _ Ho) as Ho0. set (s0 := set_owned ({["lock"]} ∪ owned s) s) in *.
  pose proof (io_ready _ _ Ho0) as (Hsh & _). destruct Ha as [?|(k & Hk & _)]; [done|]. destruct (view_node s0 ino k Hsh Hk) as (p & m & Hm & Hid & _).
  assert (treelock m = 0) as Hz by (destruct (Z.eq_dec (treelock m) 0) as [|Hnz]; [done|by destruct (claims_exist s0 _ p m Ho0 Hm Hnz)]).
  unfold forget_wait, with_lock in H. rewrite decide_False in H by done. unfold mbind at 1, prog_bind at 1, pget in H. cbn beta iota in H. change (set_held ({["lock"]} ∪ held s) s) with s0 in H. change (lockq s0) with (lockq s) in H. rewrite Hd, Hsig in H. cbn [negb] in H.
  rewrite <- Hid, (bind_done _ _ _ _ _ (get_node_spec [] [] s0 p m Hsh Hm (not_elem_of_nil p))), (bind_done _ _ _ _ _ (deref_some p s0 m Hm)), Hz, andb_false_r in H.
  destruct ((_ ← pmodify (set_lockq q); _ ← forget_last mem p n; mret true) s0) as [b s1|s1|mu s1] eqn:E; try done.
  apply bind_inv in E as ([] & s2 & _ & E). apply bind_inv in E as ([] & s3 & _ & E). unfold mret, prog_ret in E. injection E as <- <-. done.
Qed.
Lemma alone_goes strict w t tk : world_ok strict w -> rules_of w t -> all_claims (tasks w) = [] -> granted_in (lockq (lib w)) = [] -> tasks w !! t = Some tk -> tk_waits tk = true -> goes w.
Proof.
  intros Hw Hr Hc Hg Ht Hwt. pose proof (wo_system _ _ Hw) as Hs. rewrite Hc in Hs. pose proof Hs as [_ _ _ Hpend]. rewrite Hg in Hpend.
  destruct (wo_marked _ _ Hw t tk Ht Hwt) as [Hne _]. rewrite <- (queue_of _ _ _ _ Hw Ht) in Hne. destruct (waiting_one strict w t Hw) as [?|(f & tk' & Hq & Ht')]; [done|].
  assert (tk' = tk) as -> by congruence. destruct (waiting_some _ _ _ _ Hq) as (w0 & q & Hd & Hf). destruct (dequeued_some _ _ _ _ Hd) as [Hth Hperm].
  assert (w0 ∈ lockq (lib w)) as Hin by (rewrite Hperm; left). assert (~ pending w0) as Hnp by (intros H; apply Hpend; [apply Exists_exists; by exists w0|done]).
  destruct (wt_done w0) as [r|] eqn:Hdone; [apply (answered_goes strict w t w0); try done; by rewrite Hdone|].
  unfold pending in Hnp. destruct (wt_for w0) as [ino|x|x y] eqn:Hw0; try done. subst f. destruct (wt_signal w0) eqn:Hsig; [|done].
  destruct (path_task strict w t tk _ Hw Ht Hq) as (_ & a & k & Hp & Ha). destruct a as [| | | | |ino' n| | | | | | | | | | | | | | | | | | |]; try done. cbn [want] in Ha. destruct (Z.eqb_spec ino' FUSE_ROOT_ID) as [|Hroot]; [done|].
  injection Ha as ->. pose proof (Hr tk _ k Ht Hp) as Hk. assert (path_call_of t (tk_waits tk) (AForget ino n) = Some (ForgetWait t ino n)) as Hcall by (by rewrite Hwt).
  destruct (path_goes strict w t tk _ k _ Hw Ht Hp Hk Hcall) as (ans & s & Hrun & [[-> _]|(r & Hcl & _)]); [exfalso|by apply (answer_goes w t tk _ k (ForgetWait t ino n) ans s r)].
  cbn [run_call] in Hrun. apply bind_inv in Hrun as (b & s1 & Hfw & H). unfold mret, prog_ret in H. destruct b; [done|]. destruct Hk as (_ & Hal & _).
  by apply (forget_wait_ends t ino n (lib w) s1 w0 q).
Qed.
Lemma somebody_goes w : world_ok true w -> (forall t, rules_of w t) -> tasks w <> ∅ -> goes w.
Proof.
  intros Hw Hr Hne. destruct (all_claims (tasks w)) as [|c l] eqn:Hc.
  - destruct (granted_in (lockq (lib w))) as [|c l] eqn:Hg.
    + assert (forall t tk, tasks w !! t = Some tk -> ~ blocked w tk -> goes w) as Hone.
      { intros t tk Ht Hb. destruct (tk_waits tk) eqn:Hwt; [by apply (alone_goes true w t tk)|by apply (unmarked_goes true w t tk)]. }
      destruct (map_choose (tasks w) Hne) as (t & tk & Ht). destruct (blocked_dec w tk) as [(d & k & Hp & Hl)|Hb]; [|by apply (Hone t tk)].
      apply (wo_dirs _ _ Hw) in Hl as (t' & tk' & Ht' & Hd'). apply (Hone t' tk' Ht'). intros (d' & k' & Hp' & _). pose proof (pre_of _ _ _ _ _ _ Hw Ht' Hp') as [Hn _]. congruence.
    + assert (c ∈ granted_in (lockq (lib w))) as Hin by (rewrite Hg; left). apply list_elem_of_bind in Hin as (w0 & Hc0 & Hw0).
      apply (answered_goes true w (wt_thread w0) w0); try done. intros Hn. unfold claims_of in Hc0. rewrite Hn in Hc0. destruct (wt_for w0); by apply not_elem_of_nil in Hc0.
  - assert (c ∈ all_claims (tasks w)) as Hin by (rewrite Hc; left). apply list_elem_of_bind in Hin as ([t tk] & Hcl & Ht). apply elem_of_map_to_list in Ht. unfold task_claims in Hcl. cbn in Hcl.
    assert (h_claims (tk_hold tk) <> []) as Hsome by (intros E; rewrite E in Hcl; by apply not_elem_of_nil in Hcl). apply (unmarked_goes true w t tk); try done.
    + intros (d & k & Hp & _). by pose proof (pre_of _ _ _ _ _ _ Hw Ht Hp) as [_ Hn].
    + destruct (tk_waits tk) eqn:Hwt; [|done]. destruct (wo_marked _ _ Hw t tk Ht Hwt) as [_ Hn]. by rewrite (Hn eq_refl) in Hsome.
Qed.
End Serve.

(** ** The properties *)

(** C12: As long as no request is a [copy_file_range], requests do not deadlock: with the kernel keeping to its rules, whenever there are requests being served one of their threads can go on, other than by waiting again. *)
Theorem requests_do_not_deadlock mem cf has w : serving mem cf has true w -> (forall t, rules_of w t) -> tasks w <> ∅ ->
  exists t w', step mem w t w' /\ ~ idle w t w'.
Proof. intros Hw%serving_ok Hr Hne. by apply (somebody_goes mem). Qed.

(** ** Two requests, one of which waits *)

Definition all_ops : fs_op -> bool := fun _ => true.
Definition looked_world : world := {| lib := st_looked; dirs := ∅; tasks := ∅ |}.
Definition access_world : world := starts demo_hl_config all_ops looked_world 1 (RAccess 2 4).
Definition access_task : task := {| tk_prog := fuse_path_ops demo_hl_config all_ops (RAccess 2 4); tk_waits := false; tk_hold := fresh |}.
Definition calling_task : task := {| tk_prog := (err ← act (AOp (FAccess "/d" 4)); _ ← free_path (Some dir_claim); r ← mret (inr err); reply_err (err_of r)); tk_waits := false; tk_hold := with_claims [dir_claim] fresh |}.
Definition calling_world : world := {| lib := st_got; dirs := ∅; tasks := {[1%nat := calling_task]} |}.
Definition rmdir_world : world := starts demo_hl_config all_ops calling_world 2 (RRmdir FUSE_ROOT_ID "d").
Definition rmdir_task (b : bool) : task := {| tk_prog := fuse_path_ops demo_hl_config all_ops (RRmdir FUSE_ROOT_ID "d"); tk_waits := b; tk_hold := fresh |}.
Definition waiting_world : world := {| lib := st_waits; dirs := ∅; tasks := <[2%nat := rmdir_task true]> (tasks calling_world) |}.
Lemma rules_at w t tk a k : tasks w !! t = Some tk -> tk_prog tk = Act a k -> rules w tk a -> rules_of w t.
Proof. intros Ht Hp Hr tk' a' k' Ht' Hp'. assert (tk' = tk) as -> by congruence. rewrite Hp in Hp'. by injection Hp' as <- _. Qed.
Lemma calling_serves strict : serving plenty demo_hl_config all_ops strict calling_world.
Proof.
  assert (serving plenty demo_hl_config all_ops strict access_world) as Hw.
  { apply serving_start; [apply serving_from; [apply st_looked_reached|vm_compute; reflexivity]|done|done]. }
  apply (serving_step _ _ _ _ access_world 1 calling_world Hw).
  - eapply (rules_at access_world 1 access_task); [done|reflexivity|]. split; [|intros _; apply fair_dir].
    apply quiet_courteous; [apply short_limits| |]; vm_compute; reflexivity.
  - assert (run_call plenty (GetPath 1 ask_dir) st_looked = Done (Gets (inr [dir_claim.2])) st_got) as Hrun by (vm_compute; reflexivity).
    pose proof (step_call plenty access_world 1 access_task (AGet ask_dir) _ _ _ _ (inr dir_claim) eq_refl eq_refl eq_refl Hrun eq_refl) as H. exact H.
Qed.
Lemma st_waits_queue : lockq st_waits = [asks 2 (ForPath ask_rmdir)].
Proof. vm_compute. reflexivity. Qed.
Lemma st_waits_courteous held : lenZ held + 6 <? 2 ^ 31 - 1 = true -> courteous st_waits held.
Proof.
  intros H%Z.ltb_lt. split; [apply short_limits; vm_compute; reflexivity|]. rewrite st_waits_queue. split; [unfold lenZ in *; cbn [length]; lia|].
  constructor; [|constructor]. apply fair_rmdir; vm_compute; reflexivity.
Qed.
Lemma waiting_serves strict : serving plenty demo_hl_config all_ops strict waiting_world.
Proof.
  assert (serving plenty demo_hl_config all_ops strict rmdir_world) as Hw by (by apply serving_start; [apply calling_serves|..]).
  apply (serving_step _ _ _ _ rmdir_world 2 waiting_world Hw).
  - eapply (rules_at rmdir_world 2 (rmdir_task false)); [done|reflexivity|]. split; [|intros _; apply fair_rmdir; vm_compute; reflexivity].
    apply quiet_courteous; [apply short_limits| |]; vm_compute; reflexivity.
  - assert (run_call plenty (GetPath 2 ask_rmdir) st_got = Done Waits st_waits) as Hrun by (vm_compute; reflexivity).
    pose proof (step_waits plenty rmdir_world 2 (rmdir_task false) (AGet ask_rmdir) _ _ _ eq_refl eq_refl eq_refl Hrun) as H. exact H.
Qed.
Lemma waiting_rules t : rules_of waiting_world t.
Proof.
  assert (courteous st_waits (all_claims (tasks waiting_world))) as Hco by (apply st_waits_courteous; vm_compute; reflexivity).
  destruct (decide (t = 2%nat)) as [->|H2]; [eapply (rules_at waiting_world 2 (rmdir_task true)); [done|reflexivity|by split]|].
  destruct (decide (t = 1%nat)) as [->|H1]; [eapply (rules_at waiting_world 1 calling_task); [done|reflexivity|by split]|].
  intros tk a k Ht. cbn [tasks waiting_world calling_world] in Ht. rewrite lookup_insert_ne in Ht by done. by rewrite lookup_singleton_ne in Ht.
Qed.
Lemma waiting_some_task : tasks waiting_world <> ∅.
Proof. apply insert_non_empty. Qed.
Lemma requests_do_not_deadlock_witness : exists t w', step plenty waiting_world t w' /\ ~ idle waiting_world t w'.
Proof. exact (requests_do_not_deadlock plenty demo_hl_config all_ops waiting_world (waiting_serves true) waiting_rules waiting_some_task). Defined.

(** ** Two paths, one after the other *)

(** A thread that asks for the path of [y] while it has the one of [x], another one that is
    to remove the directory [d] of both. *)
Definition st_x : fuse := after (run_call plenty (OnNames (Lookup 2 (Some "x"%string)))) st_looked.
Definition st_xy : fuse := after (run_call plenty (OnNames (Lookup 2 (Some "y"%string)))) st_x.
Definition ask_x : path_ask := {| ask_ino := 3; ask_name := None; ask_write := false |}.
Definition ask_y : path_ask := {| ask_ino := 4; ask_name := None; ask_write := false |}.
Definition x_claim : claim := (ask_x, ("/d/x"%string, None)).
Definition st_x_taken : fuse := after (run_call plenty (GetPath 1 ask_x)) st_xy.
Definition st_d_asked : fuse := after (run_call plenty (GetPath 2 ask_rmdir)) st_x_taken.
Definition st_y_asked : fuse := after (run_call plenty (GetPath 1 ask_y)) st_d_asked.
Definition copy : hl_request := RCopyFileRange 3 0 (fi_flagged 0) 4 0 (fi_flagged 0) 10 0.
Definition second_part : io unit :=
  r ← get_path_nullok demo_hl_config 4;
  match r with
  | inl err => _ ← free_path (Some x_claim); reply_err err
  | inr path_out =>
      res ← fuse_fs_copy_file_range all_ops (Some "/d/x"%string) (fi_flagged 0) 0 (npath path_out) (fi_flagged 0) 0 10 0;
      _ ← reply_count res; _ ← free_path (Some x_claim); free_path path_out
  end.
Definition copy_task : task := {| tk_prog := fuse_path_ops demo_hl_config all_ops copy; tk_waits := false; tk_hold := fresh |}.
Definition second_task (b : bool) : task := {| tk_prog := second_part; tk_waits := b; tk_hold := with_claims [x_claim] fresh |}.
Definition copy_world : world := starts demo_hl_config all_ops {| lib := st_xy; dirs := ∅; tasks := ∅ |} 1 copy.
Definition x_world : world := {| lib := st_x_taken; dirs := ∅; tasks := {[1%nat := second_task false]} |}.
Definition d_world : world := starts demo_hl_config all_ops x_world 2 (RRmdir FUSE_ROOT_ID "d").
Definition d_asked_world : world := {| lib := st_d_asked; dirs := ∅; tasks := {[1%nat := second_task false; 2%nat := rmdir_task true]} |}.
Definition stuck_world : world := {| lib := st_y_asked; dirs := ∅; tasks := {[1%nat := second_task true; 2%nat := rmdir_task true]} |}.
Lemma looked_up s d nm r s' : paths_reachable plenty demo_hl_config s [] -> courteous s [] -> room s -> kept_dir (view s) d -> entries (view s) !! (d, nm) = None ->
  run_op plenty (Lookup d (Some nm)) s = Done r s' -> paths_reachable plenty demo_hl_config s' [].
Proof.
  intros Hs Hco Hroom Hd He Hrun. apply (paths_call _ _ s [] [] (OnNames (Lookup d (Some nm))) (Returns r) s'); [done|done| |done|cbn [run_call]; by step ltac:(exact Hrun)].
  split; [done|]. split; [split; [destruct Hd as (k & Hk & _); by exists k|]|split].
  - intros ino E. change (entries (view s) !! (d, nm) = Some ino) in E. congruence.
  - intros x n (m & e & _ & H & _). by apply not_elem_of_nil in H.
  - done.
Qed.
Lemma st_x_reached : paths_reachable plenty demo_hl_config st_x [].
Proof.
  apply (looked_up st_looked 2 "x" 3); [apply st_looked_reached| |by vm_compute|apply kept_by_count; vm_compute; reflexivity|vm_compute; reflexivity..].
  apply quiet_courteous; [apply short_limits| |]; vm_compute; reflexivity.
Qed.
Lemma st_xy_reached : paths_reachable plenty demo_hl_config st_xy [].
Proof.
  apply (looked_up st_x 2 "y" 4); [apply st_x_reached| |by vm_compute|apply kept_by_count; vm_compute; reflexivity|vm_compute; reflexivity..].
  apply quiet_courteous; [apply short_limits| |]; vm_compute; reflexivity.
Qed.
Lemma fair_file s ino : (match counts (view s) !! ino with Some k => 0 <? k | None => false end) = true -> fair s {| ask_ino := ino; ask_name := None; ask_write := false |}.
Proof. intros H. split; [by split|]. split; [by apply kept_by_count|intros Hw; discriminate Hw]. Qed.
Lemma st_d_asked_courteous held : lenZ held + 6 <? 2 ^ 31 - 1 = true -> courteous st_d_asked held.
Proof.
  intros H%Z.ltb_lt. assert (lockq st_d_asked = [asks 2 (ForPath ask_rmdir)]) as Hq by (vm_compute; reflexivity). split; [apply short_limits; vm_compute; reflexivity|].
  rewrite Hq. split; [unfold lenZ in *; cbn [length]; lia|]. constructor; [|constructor]. apply fair_rmdir; vm_compute; reflexivity.
Qed.
Lemma st_y_asked_courteous held : lenZ held + 8 <? 2 ^ 31 - 1 = true -> courteous st_y_asked held.
Proof.
  intros H%Z.ltb_lt. assert (lockq st_y_asked = [asks 2 (ForPath ask_rmdir); asks 1 (ForPath ask_y)]) as Hq by (vm_compute; reflexivity). split; [apply short_limits; vm_compute; reflexivity|].
  rewrite Hq. split; [unfold lenZ in *; cbn [length]; lia|]. constructor; [|constructor; [|constructor]]; [apply fair_rmdir|apply fair_file]; vm_compute; reflexivity.
Qed.
Lemma x_world_serves : serving plenty demo_hl_config all_ops false x_world.
Proof.
  assert (serving plenty demo_hl_config all_ops false copy_world) as Hw by (apply serving_start; [apply serving_from; [apply st_xy_reached|vm_compute; reflexivity]|done|done]).
  apply (serving_step _ _ _ _ copy_world 1 x_world Hw).
  - eapply (rules_at copy_world 1 copy_task); [done|reflexivity|]. split; [|intros _; apply fair_file; vm_compute; reflexivity].
    apply quiet_courteous; [apply short_limits| |]; vm_compute; reflexivity.
  - assert (run_call plenty (GetPath 1 ask_x) st_xy = Done (Gets (inr [x_claim.2])) st_x_taken) as Hrun by (vm_compute; reflexivity).
    pose proof (step_call plenty copy_world 1 copy_task (AGet ask_x) _ _ _ _ (inr x_claim) eq_refl eq_refl eq_refl Hrun eq_refl) as H. exact H.
Qed.
Lemma stuck_world_serves : serving plenty demo_hl_config all_ops false stuck_world.
Proof.
  assert (serving plenty demo_hl_config all_ops false d_world) as Hw by (apply serving_start; [apply x_world_serves|done|done]).
  assert (serving plenty demo_hl_config all_ops false d_asked_world) as Hw2.
  { apply (serving_step _ _ _ _ d_world 2 d_asked_world Hw).
    - eapply (rules_at d_world 2 (rmdir_task false)); [done|reflexivity|]. split; [|intros _; apply fair_rmdir; vm_compute; reflexivity].
      apply quiet_courteous; [apply short_limits| |]; vm_compute; reflexivity.
    - assert (run_call plenty (GetPath 2 ask_rmdir) st_x_taken = Done Waits st_d_asked) as Hrun by (vm_compute; reflexivity).
      pose proof (step_waits plenty d_world 2 (rmdir_task false) (AGet ask_rmdir) _ _ _ eq_refl eq_refl eq_refl Hrun) as H. exact H. }
  apply (serving_step _ _ _ _ d_asked_world 1 stuck_world Hw2).
  - eapply (rules_at d_asked_world 1 (second_task false)); [done|reflexivity|]. split; [|intros _; apply fair_file; vm_compute; reflexivity].
    apply st_d_asked_courteous. vm_compute. reflexivity.
  - assert (run_call plenty (GetPath 1 ask_y) st_d_asked = Done Waits st_y_asked) as Hrun by (vm_compute; reflexivity).
    pose proof (step_waits plenty d_asked_world 1 (second_task false) (AGet ask_y) _ _ _ eq_refl eq_refl eq_refl Hrun) as H. exact H.
Qed.
Lemma stuck_rules t : rules_of stuck_world t.
Proof.
  assert (courteous st_y_asked (all_claims (tasks stuck_world))) as Hco by (apply st_y_asked_courteous; vm_compute; reflexivity).
  destruct (decide (t = 1%nat)) as [->|H1]; [eapply (rules_at stuck_world 1 (second_task true)); [done|reflexivity|by split]|].
  destruct (decide (t = 2%nat)) as [->|H2]; [eapply (rules_at stuck_world 2 (rmdir_task true)); [done|reflexivity|by split]|].
  intros tk a k Ht. cbn [tasks stuck_world] in Ht. rewrite lookup_insert_ne in Ht by done. by rewrite lookup_singleton_ne in Ht.
Qed.
(** A thread whose call makes it wait can only wait on. *)
Lemma only_waits mem w t tk a k c s : tasks w !! t = Some tk -> tk_prog tk = Act a k -> tk_waits tk = true -> path_call_of t true a = Some c -> run_call mem c (lib w) = Done Waits s ->
  forall w', step mem w t w' -> idle w t w'.
Proof.
  intros Ht Hp Hwt Hc Hrun w' Hst. assert (section_of mem a = None /\ ~ outside a /\ forall m r m', ~ dir_step m a r m') as (Hsec & Hout & Hdir).
  { destruct a; try discriminate Hc; (split; [done|split; [by intros []|by intros m r m' []]]). }
  destruct Hst as [tk' a' k' c' s' Ht' Hp' Hc' Hrun'|tk' a' k' c' s' ans r Ht' Hp' Hc' Hrun' Hcl|tk' a' k' m s' r Ht' Hp' Hm|tk' a' k' r Ht' Hp' Ho|tk' a' k' m r Ht' Hp' Hd|tk' Ht' Hp'];
    assert (tk' = tk) as -> by (clear - Ht Ht'; congruence); rewrite Hp in Hp'; try done; (assert (a = a') as Ea by (by injection Hp')); subst a'.
  - split; [by exists tk|]. eexists. cbn [tasks]. by rewrite lookup_insert_eq.
  - rewrite Hwt, Hc in Hc'. injection Hc' as <-. rewrite Hrun in Hrun'. injection Hrun' as <- _. by rewrite conclude_waits in Hcl.
  - by rewrite Hsec in Hm.
  - by destruct Hout.
  - by destruct (Hdir _ _ _ Hd).
Qed.
